(* ===== verification/_CoqProject ===== *)
-Q . S2P
Prelude.v
Text.v
Orders.v
Crypto.v
Ssrf.v
Domain.v
Breaker.v
StatusPage.v
StatusBoard.v
DetailShare.v
BoardFacts.v
StatusFeed.v
StatusCache.v
Incident.v
Target.v
CheckSpec.v
Heartbeat.v
HostThrottle.v
Pool.v
Scheduler.v
SchedulerDriver.v
Batcher.v
Interpolate.v
Redaction.v
Plans.v
PlanHolds.v
OnCall.v
OnCallRota.v
OnCallSchedules.v
WriterDecide.v
IncidentWriter.v
IncidentOps.v
IncidentOpsMem.v
IncidentLifecycle.v
IncidentQueries.v
EscalationPolicy.v
EscalationRules.v
Transports.v
Channels.v
ChannelStore.v
Engine.v
EngineWorld.v
EngineTargets.v
EnginePaging.v
EngineEpisodes.v
EngineAllClear.v
EngineWitness.v
Scopes.v
ApiTokens.v
Handlers.v
OAuth.v
OAuthProtocol.v
OAuthInvariant.v
OAuthFacts.v
OAuthWitness.v
Sessions.v
Requests.v
RequestFacts.v
Idempotency.v
Utf8.v
CheckErrors.v
Connector.v
HttpWorker.v
HttpFacts.v
FlowWorker.v
FlowFacts.v
