(* ===== verification/Prelude.v ===== *)
(** * Uptimepage, modelled and verified

    The server of this repository (src/src/) watches targets from several regions,
    turns check results into incidents, pages people about them and publishes
    status pages. This library is a shallow embedding of that core in Rocq with the
    theorems that make it correct. A Rust function is a Rocq function of the same
    name, a struct a [Record], an enum an [Inductive] in a module of the type's name
    ([IncidentState.t]); fallible code returns [result], a sum or an [option];
    stateful code threads its state, directly or in the monad [M] below.

    ** How the program hangs together, and where each part is

    A check is scheduled, run, stored, judged, recorded as an incident, paged and
    published. In that order:

    - CheckSpec, Target, Heartbeat, Interpolate, Redaction: what a monitor runs
      (domain/check.rs, domain/target.rs, domain/heartbeat.rs), how secrets get into
      a check (worker/interpolate.rs, the regional pull of storage/admin.rs) and are
      kept out of what leaves the server (api/redaction.rs).
    - Scheduler, SchedulerDriver: registry, heap of fires and driver loop
      (scheduler/registry.rs, scheduler/runner.rs).
    - Pool, HostThrottle, Breaker: a dispatch, its task from permit to result, the
      per-host slots and circuit breakers (worker/). A scheduler step that fires is
      a [Pool.dispatch]; a task asks [Breaker] and [HostThrottle] and reports into
      the fan-out queue.
    - Batcher: the queue's way to storage (pipeline/batcher.rs).
    - WriterDecide, IncidentWriter: the periodic tick that reads results per region
      and opens and closes incidents (public_status/incident_writer/).
    - Incident, IncidentOps, IncidentOpsMem, IncidentLifecycle, IncidentQueries: the
      incident, its state machine, the store's interface (the class
      [IncidentOpsStore]), its in-memory implementation with every method, and the
      theorems about them (domain/incident.rs, storage/incident_ops/).
    - EscalationPolicy, EscalationRules, OnCall, OnCallRota, OnCallSchedules: ladders,
      pure rules and on-call schedules (domain/escalation_policy.rs,
      escalation/engine/rules.rs, domain/on_call.rs, storage/on_call.rs).
    - Transports, Channels, ChannelStore: notification channels, their stored
      configuration and their store (domain/notification_channel/,
      storage/notification_channels.rs).
    - Engine and the files named after it: the paging worker (escalation/engine/),
      written against the store classes; EngineWorld runs it on the in-memory stores,
      EngineTargets, EnginePaging, EngineEpisodes and EngineAllClear are its theorems
      and EngineWitness a small system they are applied to.
    - Plans, PlanHolds: quotas, plan merges and what an account keeps after a
      downgrade (domain/quota.rs, quotas/).
    - StatusPage, StatusBoard, BoardFacts, StatusFeed, StatusCache: classification and
      daily strips, the assembly of a page from the tables, incident lists, feed and
      badge, and the cache in front (public_status/, domain/public.rs, api/cursor.rs,
      api/handlers/public.rs).
    - Ssrf, Crypto: the guard of outbound requests with the connect race, and values
      sealed at rest (security/, net/happy_eyeballs.rs, storage/capability_token.rs).
    - Domain, Text, Orders and this file: the enumerations with their stored strings,
      [str] on bytes, sort orders with keyset pages, and the shared prelude.

    A component's contract is a class where a client needs one ([IncidentOpsStore],
    [NotificationChannelStore], [DbEnum]): the client's theorems are proved against
    the class or against the in-memory instance named in its file. What is not under
    src/ is a parameter with its documented behaviour as laws: the clock and fresh
    identifiers ([Environment]), the order of concurrent completions ([Scheduling]),
    ciphers and base64 ([Crypto.Primitives]), moka ([StatusCache.Moka]), the time-zone
    database, the URL parser, hash orders. Each law class has an instance, given
    where the witnesses need it.

    ** What the theorems show

    - Refinement: the incident store implements an abstract machine of one phase and
      episode per incident; a tick of the writer is the fold of the pure decision
      over the targets; every run of the scheduler is a run of the pool.
    - Invariants: reachable stores are well-formed; each live target has exactly one
      pending fire; permits and limits hold; a breaker follows its three states.
    - Safety: an acknowledge link binds one episode; an escalation claim is exclusive;
      an outage is opened once; no blocked address is dialled; a page depends on its
      own published rows only and is never served another page's snapshot.
    - Function and equivalence: the confirmation rule, the paging round and the
      all-clear, the painting of strips, the grouping of components, the walk of an
      archive by cursors, the guard as a list of address blocks.
    - Round trips, bounds, termination and errors: sealed values, stored enumerations,
      escapes, caps of plans, drains and retries, and what every failure returns.
    Where the code and its documentation differ, or the code loses something, a
    theorem states what the code does and its comment says so.

    ** Bounds and fuel

    Machine integers are Z with the wrap written out where the code's arithmetic can
    reach it ([wrap_i32], [wrap_u32], [sat_mul_u64]); a [DateTime] or [Duration] is in
    nanoseconds. Fuel is given with every loop that is not structural and shown to be
    enough where a result is claimed: [StatusPage.paint_fuel] is the number of days
    up to the window's end, a drain of the scheduler is bounded by the fires due, a
    page walk by the rows that remain, string scanners by the string's length.

    ** Not modelled

    The Postgres and ClickHouse stores other than the queries named above (their
    behaviour is SQL on servers; the in-memory implementations of the same traits
    are modelled), the network probes (HTTP, TCP, DNS, TLS, browser flows, RDAP),
    whose answer is an input of the pool, the HTTP and web layers around the handlers
    named above, templates, the notifiers' formatting and sending, billing, metrics,
    tracing and process start. Futures are sequences of steps; the interleavings
    considered are those each file states.

    ** Plan

    Next in line: quotas' rate limits and caches, OAuth, the acknowledge page,
    subscriber mails, idempotency keys, evaluation of TLS and HTTP results, and the
    validation of targets at save time. *)

From Stdlib Require Export ZArith NArith Lia.
From stdpp Require Export base tactics decidable option list gmap strings sorting pretty.

#[global] Set Default Goal Selector "!".
#[global] Set Warnings "-clear-no-such-hyp".

Declare Scope up_scope.
Delimit Scope up_scope with up.
#[global] Open Scope up_scope.
#[global] Open Scope Z_scope.

(** ** Time and identifiers

    [DateTime] is chrono's [DateTime<Utc>] as nanoseconds since the epoch and
    [Duration] a signed span in nanoseconds; chrono's own representable range
    (hundreds of thousands of years either side) is not modelled.
    [num_seconds] truncates toward zero, as chrono's does. *)
Definition DateTime := Z.
Definition Duration := Z.
Definition NANOS : Z := 1000000000.
Definition seconds (s : Z) : Duration := s * NANOS.
Definition num_seconds (d : Duration) : Z := Z.quot d NANOS.

(** A calendar date is the number of days since the epoch's. *)
Definition DAY : Duration := seconds 86400.
Definition date_naive (at_ : DateTime) : Z := at_ / DAY.

(** A 128-bit [Uuid] is its numeric value. *)
Definition Uuid := N.
Definition OrgId := Uuid.
Definition UserId := Uuid.

#[global] Instance Uuid_eq_dec : EqDecision Uuid := N.eq_dec.
#[global] Instance DateTime_eq_dec : EqDecision DateTime := Z.eq_dec.
#[global] Instance Uuid_countable : Countable Uuid := _ : Countable N.
#[global] Instance Uuid_inhabited : Inhabited Uuid := populate 0%N.
#[global] Instance DateTime_inhabited : Inhabited DateTime := populate 0%Z.

Definition nil_uuid : Uuid := 0%N.

(** ** Machine integers *)
Definition I32_MAX : Z := 2147483647.
Definition U32_MAX : Z := 4294967295.
Definition I64_MAX : Z := 9223372036854775807.
Definition U64_MAX : Z := 18446744073709551615.

(** [x as iN]: two's complement wrap-around of a conversion. *)
Definition wrap_i32 (x : Z) : Z := (x + 2147483648) mod 4294967296 - 2147483648.
Definition wrap_u32 (x : Z) : Z := x mod 4294967296.
Definition wrap_i64 (x : Z) : Z :=
  (x + 9223372036854775808) mod 18446744073709551616 - 9223372036854775808.

(** [u64::saturating_mul]. *)
Definition sat_mul_u64 (a b : Z) : Z := Z.min (a * b) U64_MAX.

(** [Ord::clamp]. *)
Definition clamp (lo hi x : Z) : Z := Z.max lo (Z.min hi x).

(** ** Results and errors (src/error.rs)

    The variants of [AppError]; a payload built by a library (a configuration
    error, a JSON value, an [anyhow] error) is its rendered text. *)
Inductive AppError :=
| Config (e : string)
| Io (e : string)
| BindAddr (addr source : string)
| NotFoundErr (code message : string)
| BadRequest (code message : string) (field : option string)
| PayloadTooLarge (code message : string)
| Conflict (code message : string)
| Unprocessable (code message : string)
| UnprocessableDetails (code message details : string)
| Gone (code message : string)
| ServiceUnavailable (code message : string)
| QuotaExceeded (code message quota : string) (current limit : Z) (plan : string)
| RateLimited (scope : string) (retry_after_secs : Z)
| Unauthorized
| SessionRequired
| Forbidden
| ForbiddenCoded (code message : string)
| Internal (code log : string)
| Other (e : string).

Inductive result (A : Type) :=
| Ok (a : A)
| Err (e : AppError).
Arguments Ok {A} _.
Arguments Err {A} _.

Definition ok {A} (r : result A) : option A :=
  match r with Ok a => Some a | Err _ => None end.

(** ** Effects

    A computation over a world [W]: it threads the world and returns a
    [result]; an error keeps the writes made before it, as a Rust [?] does. *)
Definition M (W A : Type) : Type := W → result A * W.

#[global] Instance M_ret W : MRet (M W) := λ A a w, (Ok a, w).
#[global] Instance M_bind W : MBind (M W) := λ A B k m w,
  match m w with
  | (Ok a, w') => k a w'
  | (Err e, w') => (Err e, w')
  end.

Definition throw {W A} (e : AppError) : M W A := λ w, (Err e, w).
Definition get_world {W} : M W W := λ w, (Ok w, w).
Definition modify {W} (f : W → W) : M W unit := λ w, (Ok tt, f w).
Definition gets {W A} (f : W → A) : M W A := λ w, (Ok (f w), w).

(** [match m.await { Ok(a) => .., Err(e) => .. }]: the caller inspects the
    result instead of returning early. *)
Definition catch {W A} (m : M W A) : M W (result A) := λ w,
  let '(r, w') := m w in (Ok r, w').

(** [if let Err(err) = m.await { warn!(..) }]. *)
Definition logged {W} (m : M W unit) : M W unit := λ w, (Ok tt, (m w).2).

(** [for x in l { m(x).await?; }]. *)
Fixpoint for_each {W A} (l : list A) (m : A → M W unit) : M W unit :=
  match l with
  | [] => mret tt
  | x :: l => m x ≫= λ _, for_each l m
  end.

(** ** Ambient sources: the clock, fresh identifiers, completion order

    [Utc::now()] and [Uuid::now_v7()] are the runtime's: the [n]-th reading of
    each is given by the environment, and a world counts the readings taken. *)
Class Environment := {
  clock : nat → DateTime;
  fresh : nat → Uuid;
}.

(** What the code relies on: the clock never steps back, identifiers do not
    repeat ([Uuid::now_v7] is time-ordered with random bits). *)
Class EnvironmentLaws `{Environment} := {
  clock_mono : ∀ n m, (n ≤ m)%nat → clock n ≤ clock m;
  fresh_inj : ∀ n m, fresh n = fresh m → n = m;
}.

(** A world from which the clock and fresh identifiers can be drawn. *)
Class HasRuntime (W : Type) := {
  utc_now : M W DateTime;
  now_v7 : M W Uuid;
}.

(** The order in which the futures of a [buffer_unordered] pool or a [JoinSet]
    finish is the runtime's: some permutation of the work list. *)
Class Scheduling := {
  interleave : ∀ {A : Type}, list A → list A;
  interleave_perm : ∀ A (l : list A), interleave l ≡ₚ l;
}.

(** ** Steps as relations

    [steps_in R m]: whatever [m] returns, the world it leaves is [R]-related to
    the one it started from. With [R] a preorder the property composes, so a
    frame or an invariant is carried through a whole program by its parts. *)
Definition steps_in {W A} (R : W → W → Prop) (m : M W A) : Prop :=
  ∀ w, R w (m w).2.

(** An invariant, as a preorder. *)
Definition keeps {W} (I : W → Prop) : W → W → Prop := λ w w', I w → I w'.

(** A part of the world that does not change. *)
Definition frames {W X} (f : W → X) : W → W → Prop := λ w w', f w' = f w.

#[global] Instance keeps_preorder {W} (I : W → Prop) : PreOrder (keeps I).
Proof. split; unfold keeps; [intros ?; tauto | intros ???; tauto]. Qed.

#[global] Instance frames_preorder {W X} (f : W → X) : PreOrder (frames f).
Proof. split; unfold frames; [intros ?; done | intros ??? ??; congruence]. Qed.

(** A concrete runtime, for evaluating the models: a clock that gains a second
    at each reading, identifiers counted from one, pools finishing in order. *)
Module Concrete.
Definition env : Environment := {|
  clock n := seconds (1000 + Z.of_nat n);
  fresh n := N.of_nat (S n);
|}.
Lemma env_laws : @EnvironmentLaws env.
Proof.
  split; simpl; unfold seconds, NANOS; [|intros n m H]; lia.
Qed.
Definition in_order : Scheduling := {|
  interleave _ l := l;
  interleave_perm _ l := reflexivity l;
|}.
End Concrete.

(** ** Rust iterator and slice operations *)
Section Iterators.
Context {A : Type}.

(** [iter().position(p)]. *)
Fixpoint position (p : A → bool) (l : list A) : option nat :=
  match l with
  | [] => None
  | x :: l => if p x then Some 0%nat else S <$> position p l
  end.

(** [iter().rposition(p)]: the index of the last match. *)
Fixpoint rposition (p : A → bool) (l : list A) : option nat :=
  match l with
  | [] => None
  | x :: l =>
      match rposition p l with
      | Some i => Some (S i)
      | None => if p x then Some 0%nat else None
      end
  end.

(** [if let Some(x) = iter_mut().find(p) { *x = f(x) }]. *)
Fixpoint update_first (p : A → bool) (f : A → A) (l : list A) : list A :=
  match l with
  | [] => []
  | x :: l => if p x then f x :: l else x :: update_first p f l
  end.

(** [iter().max_by_key(k)]: the last of the maximal elements. *)
Definition max_by_key (k : A → Z) (l : list A) : option A :=
  fold_left (λ acc x,
    match acc with
    | None => Some x
    | Some m => if k m <=? k x then Some x else Some m
    end) l None.

(** Stable sorting: [sort_by] with a boolean "not greater" comparison. *)
Fixpoint insert_by (le : A → A → bool) (x : A) (l : list A) : list A :=
  match l with
  | [] => [x]
  | y :: l => if le x y then x :: y :: l else y :: insert_by le x l
  end.
Definition sort_by (le : A → A → bool) (l : list A) : list A :=
  foldr (insert_by le) [] l.
Definition sort_by_key (k : A → Z) : list A → list A :=
  sort_by (λ a b, k a <=? k b).

(** [if !out.contains(x) { out.push(x) }] over an iterator. *)
Definition push_new `{EqDecision A} (out : list A) (x : A) : list A :=
  if bool_decide (x ∈ out) then out else out ++ [x].
End Iterators.

(** [iter().max()] on instants and counts. *)
Definition max_opt (l : list Z) : option Z := max_by_key (λ x, x) l.

(** [iter().sum()] . *)
Definition sumZ (l : list Z) : Z := foldr Z.add 0 l.

(** [iter().any(p)] and [iter().filter(p).count()]. *)
Definition count {A} (p : A → bool) (l : list A) : Z :=
  Z.of_nat (length (List.filter p l)).

(** [Option::is_none_or] and [Option::is_some_and]. *)
Definition is_none_or {A} (p : A → bool) (o : option A) : bool :=
  match o with None => true | Some a => p a end.
Definition is_some_and {A} (p : A → bool) (o : option A) : bool :=
  match o with None => false | Some a => p a end.
Definition is_some {A} (o : option A) : bool :=
  match o with None => false | Some _ => true end.
Definition is_none {A} (o : option A) : bool := negb (is_some o).

(** [[String]::join(sep)]. *)
Fixpoint join (sep : string) (l : list string) : string :=
  match l with
  | [] => ""
  | [s] => s
  | s :: l => s +:+ sep +:+ join sep l
  end.

(** [map.entry(k).or_default().push(v)], and grouping a list that way. *)
Definition push_entry {K V} `{Countable K} (k : K) (v : V) (m : gmap K (list V))
    : gmap K (list V) := <[k := default [] (m !! k) ++ [v]]> m.
Definition group_by {K V} `{Countable K} (l : list (K * V)) : gmap K (list V) :=
  fold_left (λ m kv, push_entry kv.1 kv.2 m) l ∅.

(** Iteration over a [BTreeMap]: entries in key order. *)
Definition btree_by {K V} `{Countable K} (le : K → K → bool) (m : gmap K V) : list (K * V) :=
  sort_by (λ a b, le a.1 b.1) (map_to_list m).

(** Rendering an integer with [Display]. *)
Definition show (z : Z) : string := pretty z.

(** ** Automation *)
Create HintDb uptime discriminated.
Create Rewrite HintDb uptime.
Create HintDb steps discriminated.

Ltac bool_cases :=
  repeat match goal with
  | H : (_ && _) = true |- _ => apply andb_prop in H as [? ?]
  | H : (_ || _) = false |- _ => apply orb_false_elim in H as [? ?]
  | H : negb _ = true |- _ => apply negb_true_iff in H
  | H : negb _ = false |- _ => apply negb_false_iff in H
  | H : bool_decide _ = true |- _ => apply bool_decide_eq_true in H
  | H : bool_decide _ = false |- _ => apply bool_decide_eq_false in H
  | H : (_ <=? _) = true |- _ => apply Z.leb_le in H
  | H : (_ <=? _) = false |- _ => apply Z.leb_gt in H
  | H : (_ <? _) = true |- _ => apply Z.ltb_lt in H
  | H : (_ <? _) = false |- _ => apply Z.ltb_ge in H
  | H : (_ =? _) = true |- _ => apply Z.eqb_eq in H
  | H : (_ =? _) = false |- _ => apply Z.eqb_neq in H
  end.

(** Case analysis on every [match] and [if] of the goal. *)
Ltac cases := repeat (case_match; simplify_eq/=; bool_cases); try done.

(** ** Laws of the monad and of [steps_in] *)
Section Steps.
Context {W : Type}.

Lemma bind_Ok {A B} (m : M W A) (k : A → M W B) w a w' :
  m w = (Ok a, w') → (m ≫= k) w = k a w'.
Proof. unfold mbind, M_bind. by intros ->. Qed.

Lemma bind_Err {A B} (m : M W A) (k : A → M W B) w e w' :
  m w = (Err e, w') → (m ≫= k) w = (Err e, w').
Proof. unfold mbind, M_bind. by intros ->. Qed.

Lemma bind_inv_Ok {A B} (m : M W A) (k : A → M W B) w b w' :
  (m ≫= k) w = (Ok b, w') → ∃ a w1, m w = (Ok a, w1) ∧ k a w1 = (Ok b, w').
Proof.
  unfold mbind, M_bind. destruct (m w) as [[a|e] w1]; [|done]. eauto.
Qed.

Context (R : W → W → Prop) `{!PreOrder R}.

Lemma steps_ret {A} (a : A) : steps_in R (mret a : M W A).
Proof. intros w. reflexivity. Qed.

Lemma steps_throw {A} e : steps_in R (throw e : M W A).
Proof. intros w. reflexivity. Qed.

Lemma steps_gets {A} (f : W → A) : steps_in R (gets f).
Proof. intros w. reflexivity. Qed.

Lemma steps_bind {A B} (m : M W A) (k : A → M W B) :
  steps_in R m → (∀ a, steps_in R (k a)) → steps_in R (m ≫= k).
Proof.
  intros Hm Hk w. unfold mbind, M_bind. specialize (Hm w).
  destruct (m w) as [[a|e] w1]; simpl in *; [|done].
  etransitivity; [exact Hm | apply Hk].
Qed.

Lemma steps_catch {A} (m : M W A) : steps_in R m → steps_in R (catch m).
Proof. intros Hm w. unfold catch. specialize (Hm w). by destruct (m w). Qed.

Lemma steps_logged (m : M W unit) : steps_in R m → steps_in R (logged m).
Proof. intros Hm w. apply Hm. Qed.

Lemma steps_for_each {A} (l : list A) m :
  (∀ a, a ∈ l → steps_in R (m a)) → steps_in R (for_each l m).
Proof.
  induction l as [|a l IH]; intros Hm; simpl; [apply steps_ret|].
  apply steps_bind; [apply Hm; set_solver | intros _; apply IH; set_solver].
Qed.

Lemma steps_modify (f : W → W) : (∀ w, R w (f w)) → steps_in R (modify f).
Proof. intros Hf w. apply Hf. Qed.
End Steps.

#[export] Hint Resolve steps_ret steps_throw steps_gets steps_catch steps_logged : steps.

(** Walk a monadic program: binds, conditionals and matches are peeled, leaves
    go to the [steps] hints. *)
Ltac step_through :=
  repeat first
    [ progress intros
    | solve [eauto 4 with steps typeclass_instances]
    | match goal with
      | |- steps_in _ (_ ≫= _) => apply steps_bind
      | |- steps_in _ (logged _) => apply steps_logged
      | |- steps_in _ (catch _) => apply steps_catch
      | |- steps_in _ (for_each _ _) => apply steps_for_each
      end
    | match goal with |- steps_in _ (match ?x with _ => _ end) => destruct x end
    | match goal with |- steps_in _ (let _ := _ in _) => cbv zeta end ].

(** ** Lemmas on the iterator operations *)
Section IteratorLemmas.
Context {A : Type}.
Implicit Types (p : A → bool) (l : list A) (k : A → Z).

Lemma length_update_first p f l : length (update_first p f l) = length l.
Proof. induction l as [|x l IH]; simpl; [done|]. destruct (p x); simpl; congruence. Qed.

(** Where the elements of the updated list come from. *)
Lemma elem_of_update_first p f l y :
  y ∈ update_first p f l → y ∈ l ∨ ∃ x, x ∈ l ∧ p x = true ∧ y = f x.
Proof.
  induction l as [|x l IH]; simpl; [set_solver|].
  destruct (p x) eqn:Hp; rewrite elem_of_cons; intros [->|Hy].
  - right. exists x. set_solver.
  - left. set_solver.
  - left. set_solver.
  - destruct (IH Hy) as [?|(z & ? & ? & ?)]; [set_solver | right; exists z; set_solver].
Qed.

Lemma Forall_update_first (P : A → Prop) p f l :
  (∀ x, P x → p x = true → P (f x)) → Forall P l → Forall P (update_first p f l).
Proof.
  intros Hf HP. rewrite Forall_forall in HP |- *. intros y Hy.
  destruct (elem_of_update_first _ _ _ _ Hy) as [?|(x & ? & ? & ->)]; auto.
Qed.

Lemma map_update_first {B} (g : A → B) p f l :
  (∀ x, p x = true → g (f x) = g x) → map g (update_first p f l) = map g l.
Proof.
  intros Hg. induction l as [|x l IH]; simpl; [done|].
  destruct (p x) eqn:Hp; simpl; [by rewrite Hg | by rewrite IH].
Qed.

Lemma fmap_update_first {B} (g : A → B) p f l :
  (∀ x, p x = true → g (f x) = g x) → g <$> update_first p f l = g <$> l.
Proof. apply map_update_first. Qed.

Lemma update_first_ext p q f l :
  (∀ x, x ∈ l → p x = q x) → update_first p f l = update_first q f l.
Proof.
  induction l as [|x l IH]; intros Hpq; [done|]. simpl. rewrite (Hpq x) by (by left).
  destruct (q x); [done|]. f_equal. apply IH. intros y Hy. apply Hpq. by right.
Qed.

Lemma find_ext p q l : (∀ x, x ∈ l → p x = q x) → List.find p l = List.find q l.
Proof.
  induction l as [|x l IH]; intros Hpq; [done|]. simpl. rewrite (Hpq x) by (by left).
  destruct (q x); [done|]. apply IH. intros y Hy. apply Hpq. by right.
Qed.

Lemma find_update_first p f l :
  (∀ x, p x = true → p (f x) = true) →
  List.find p (update_first p f l) = f <$> List.find p l.
Proof.
  intros Hf. induction l as [|x l IH]; simpl; [done|].
  destruct (p x) eqn:Hp; simpl; [by rewrite Hf | by rewrite Hp].
Qed.

Lemma update_first_found p f l x :
  List.find p l = Some x → update_first p f l = update_first p (λ _, f x) l.
Proof.
  induction l as [|y l IH]; simpl; [done|]. destruct (p y); [by intros [= ->]|].
  intros Hx. by rewrite IH.
Qed.

Lemma find_update_first_other p q f l :
  (∀ x, p x = true → q x = false ∧ q (f x) = false) →
  List.find q (update_first p f l) = List.find q l.
Proof.
  intros Hf. induction l as [|x l IH]; simpl; [done|].
  destruct (p x) eqn:Hp; simpl.
  - destruct (Hf x Hp) as [-> ->]. done.
  - by rewrite IH.
Qed.

Lemma find_None_update_first p f l :
  List.find p l = None → update_first p f l = l.
Proof.
  induction l as [|x l IH]; simpl; [done|].
  destruct (p x); [done|]. intros H. by rewrite IH.
Qed.

Lemma find_Some_elem p l x : List.find p l = Some x → x ∈ l ∧ p x = true.
Proof. intros H%List.find_some. by rewrite list_elem_of_In. Qed.

Lemma find_is_Some p l x :
  x ∈ l → p x = true → ∃ y, List.find p l = Some y.
Proof.
  intros Hx Hp. destruct (List.find p l) eqn:Hf; [eauto|].
  eapply List.find_none in Hf; [|by apply list_elem_of_In]. congruence.
Qed.

Lemma elem_of_lfilter p l x : x ∈ List.filter p l ↔ x ∈ l ∧ p x = true.
Proof. rewrite !list_elem_of_In. apply List.filter_In. Qed.

Lemma lfilter_nil p l : (∀ x, x ∈ l → p x = false) → List.filter p l = [].
Proof.
  induction l as [|x l IH]; simpl; intros Hp; [done|].
  rewrite (Hp x); [apply IH; set_solver | set_solver].
Qed.

Lemma lfilter_app p l1 l2 :
  List.filter p (l1 ++ l2) = List.filter p l1 ++ List.filter p l2.
Proof. apply List.filter_app. Qed.

Lemma rposition_None p l : rposition p l = None ↔ ∀ x, x ∈ l → p x = false.
Proof.
  induction l as [|x l IH]; simpl; [set_solver|].
  destruct (rposition p l) eqn:Hr; [|destruct (p x) eqn:Hp].
  - split; [done|]. intros H. assert (Some n = None); [|done].
    apply IH. set_solver.
  - split; [done|]. intros H. specialize (H x). rewrite H in Hp; set_solver.
  - split; [|done]. intros _ y. rewrite elem_of_cons. intros [->|Hy]; [done|].
    by apply IH.
Qed.

Lemma rposition_Some p l i :
  rposition p l = Some i →
  (∃ x, l !! i = Some x ∧ p x = true) ∧ ∀ x, x ∈ drop (S i) l → p x = false.
Proof.
  revert i. induction l as [|x l IH]; simpl; intros i; [done|].
  destruct (rposition p l) eqn:Hr.
  - intros [= <-]. destruct (IH _ eq_refl) as [? ?]. split; [done|].
    by simpl.
  - destruct (p x) eqn:Hp; [|done]. intros [= <-]. split; [by exists x|].
    simpl. rewrite drop_0. by apply rposition_None.
Qed.
End IteratorLemmas.

(** [max_by_key] picks an element of the list whose key bounds all the others. *)
Section MaxLemmas.
Context {A : Type} (k : A → Z).

Let step := λ (acc : option A) (x : A),
  match acc with
  | None => Some x
  | Some m => if k m <=? k x then Some x else Some m
  end.

Lemma max_fold_spec (l : list A) (acc : A) :
  ∃ m, fold_left step l (Some acc) = Some m ∧ (m = acc ∨ m ∈ l) ∧
       k acc ≤ k m ∧ ∀ x, x ∈ l → k x ≤ k m.
Proof.
  revert acc. induction l as [|x l IH]; intros acc.
  - exists acc. set_solver by lia.
  - simpl. destruct (k acc <=? k x) eqn:Hle; bool_cases.
    + destruct (IH x) as (m & -> & Hin & Hacc & Hall). exists m.
      split_and!; [done|set_solver|lia|].
      intros y. rewrite elem_of_cons. intros [->|?]; auto.
    + destruct (IH acc) as (m & -> & Hin & Hacc & Hall). exists m.
      split_and!; [done|set_solver|lia|].
      intros y. rewrite elem_of_cons. intros [->|?]; [lia|auto].
Qed.

Lemma max_by_key_None (l : list A) : max_by_key k l = None ↔ l = [].
Proof.
  destruct l as [|x l]; [done|]. split; [|done].
  unfold max_by_key. simpl. destruct (max_fold_spec l x) as (m & Hm & _).
  unfold step in Hm. by rewrite Hm.
Qed.

Lemma max_by_key_Some (l : list A) m :
  max_by_key k l = Some m → m ∈ l ∧ ∀ x, x ∈ l → k x ≤ k m.
Proof.
  destruct l as [|x l]; [done|]. unfold max_by_key. simpl.
  destruct (max_fold_spec l x) as (m' & Hm & Hin & Hacc & Hall).
  unfold step in Hm. rewrite Hm. intros [= <-]. split; [set_solver|].
  intros y. rewrite elem_of_cons. intros [->|?]; auto.
Qed.

Lemma max_by_key_key (l : list A) m x :
  max_by_key k l = Some m → x ∈ l → (∀ y, y ∈ l → k y ≤ k x) → k m = k x.
Proof.
  intros [Hin Hall]%max_by_key_Some Hx Hub.
  specialize (Hall x Hx). specialize (Hub m Hin). lia.
Qed.
End MaxLemmas.

Lemma max_opt_None (l : list Z) : max_opt l = None ↔ l = [].
Proof. apply max_by_key_None. Qed.

Lemma max_opt_Some (l : list Z) m : max_opt l = Some m ↔ m ∈ l ∧ ∀ x, x ∈ l → x ≤ m.
Proof.
  split; [apply max_by_key_Some|]. intros [Hin Hall].
  destruct (max_opt l) as [m'|] eqn:Hm.
  - f_equal. by apply (max_by_key_key (λ x, x) l m' m).
  - apply max_opt_None in Hm as ->. set_solver.
Qed.

(** Stable sorting: a permutation, ordered, and equal keys keep their order. *)
Section SortLemmas.
Context {A : Type} (le : A → A → bool).

Lemma insert_by_perm x l : insert_by le x l ≡ₚ x :: l.
Proof.
  induction l as [|y l IH]; simpl; [done|]. destruct (le x y); [done|].
  rewrite IH. apply Permutation_swap.
Qed.

Lemma sort_by_perm l : sort_by le l ≡ₚ l.
Proof.
  unfold sort_by. induction l as [|x l IH]; simpl; [done|].
  by rewrite insert_by_perm, IH.
Qed.

Lemma elem_of_sort_by x l : x ∈ sort_by le l ↔ x ∈ l.
Proof. by rewrite sort_by_perm. Qed.

Lemma length_sort_by l : length (sort_by le l) = length l.
Proof. by rewrite sort_by_perm. Qed.

Context (total : ∀ x y, le x y = false → le y x = true).
Context (trans : ∀ x y z, le x y = true → le y z = true → le x z = true).

Lemma insert_by_sorted x l :
  StronglySorted le l → StronglySorted le (insert_by le x l).
Proof.
  induction 1 as [|y l Hl IH Hy]; simpl; [repeat constructor|].
  destruct (le x y) eqn:Hxy.
  - constructor; [by constructor|]. constructor; [by rewrite Hxy|].
    eapply Forall_impl; [exact Hy|]. intros z Hz.
    apply Is_true_true in Hz. apply Is_true_true. eauto.
  - constructor; [done|]. rewrite insert_by_perm. constructor; [|done].
    apply Is_true_true. auto.
Qed.

Lemma sort_by_sorted l : StronglySorted le (sort_by le l).
Proof.
  unfold sort_by. induction l as [|x l IH]; simpl; [constructor|].
  by apply insert_by_sorted.
Qed.

Lemma insert_by_id x l : Forall (le x) l → insert_by le x l = x :: l.
Proof.
  destruct l as [|y l]; simpl; [done|]. intros [Hxy%Is_true_true _]%Forall_cons.
  by rewrite Hxy.
Qed.

Lemma sort_by_id l : StronglySorted le l → sort_by le l = l.
Proof.
  unfold sort_by. induction 1 as [|x l Hl IH Hx]; simpl; [done|].
  rewrite IH. by apply insert_by_id.
Qed.
End SortLemmas.

Section SortByKey.
Context {A : Type} (k : A → Z).

Let le_key := λ a b : A, k a <=? k b.

Lemma sort_by_key_perm l : sort_by_key k l ≡ₚ l.
Proof. apply sort_by_perm. Qed.

Lemma elem_of_sort_by_key x l : x ∈ sort_by_key k l ↔ x ∈ l.
Proof. apply elem_of_sort_by. Qed.

Lemma sort_by_key_sorted l : StronglySorted (λ a b, k a ≤ k b) (sort_by_key k l).
Proof.
  assert (StronglySorted le_key (sort_by le_key l)) as Hs.
  { apply sort_by_sorted; unfold le_key; intros; bool_cases; apply Z.leb_le; lia. }
  unfold sort_by_key. fold le_key.
  induction Hs as [|x l' ? IH Hx]; constructor; [done|].
  eapply Forall_impl; [exact Hx|]. intros y Hy%Is_true_true. by apply Z.leb_le.
Qed.

Lemma sort_by_key_id l :
  StronglySorted (λ a b, k a ≤ k b) l → sort_by_key k l = l.
Proof.
  intros Hs. apply sort_by_id. induction Hs as [|x l ? IH Hx]; constructor; [done|].
  eapply Forall_impl; [exact Hx|]. intros y Hy. apply Is_true_true, Z.leb_le, Hy.
Qed.

(** Stability: the elements with a given key keep their relative order. *)
Lemma sort_by_key_stable v l :
  List.filter (λ a, k a =? v) (sort_by_key k l) = List.filter (λ a, k a =? v) l.
Proof.
  change (sort_by_key k l) with (foldr (insert_by le_key) [] l).
  induction l as [|x l IH]; simpl; [done|].
  rewrite <-IH. generalize (foldr (insert_by le_key) [] l). intros s.
  induction s as [|y s IHs]; simpl; [done|].
  unfold le_key at 1. destruct (k x <=? k y) eqn:Hxy; simpl; [done|].
  rewrite IHs. bool_cases.
  destruct (k x =? v) eqn:Hx, (k y =? v) eqn:Hy; bool_cases; done || lia.
Qed.

(** The first element of a sorted list has the least key. *)
Lemma sort_by_key_head l x l' :
  sort_by_key k l = x :: l' → x ∈ l ∧ ∀ y, y ∈ l → k x ≤ k y.
Proof.
  intros Hs. pose proof (sort_by_key_sorted l) as Hsorted. rewrite Hs in Hsorted.
  apply StronglySorted_inv in Hsorted as [_ Hall]. rewrite Forall_forall in Hall.
  assert (∀ y, y ∈ l ↔ y = x ∨ y ∈ l') as Hiff.
  { intros y. rewrite <-elem_of_cons, <-Hs. by rewrite elem_of_sort_by_key. }
  split; [by apply Hiff; left|]. intros y [->|?]%Hiff; [lia|auto].
Qed.
End SortByKey.

Lemma sorted_lookup {A} (R : A → A → Prop) l a b x y :
  StronglySorted R l → l !! a = Some x → l !! b = Some y → (a < b)%nat → R x y.
Proof.
  intros Hs. revert a b. induction Hs as [|z l Hl IH Hz]; intros a b Ha Hb Hlt; [done|].
  destruct b as [|b]; [lia|]. destruct a as [|a]; simpl in *; [|by apply (IH a b); [..|lia]].
  simplify_eq. rewrite Forall_forall in Hz. apply Hz. by eapply list_elem_of_lookup_2.
Qed.

(** Grouping: each key holds its values, in order. *)
Section GroupLemmas.
Context {K V : Type} `{Countable K}.

Lemma group_fold_lookup (l : list (K * V)) (m : gmap K (list V)) k :
  default [] (fold_left (λ m kv, push_entry kv.1 kv.2 m) l m !! k)
  = default [] (m !! k) ++ (List.filter (λ kv, bool_decide (kv.1 = k)) l).*2.
Proof.
  revert m. induction l as [|[k' v] l IH]; intros m; simpl; [by rewrite app_nil_r|].
  rewrite IH. unfold push_entry. rewrite lookup_insert. simpl.
  destruct (decide (k' = k)) as [->|Hne].
  - rewrite bool_decide_eq_true_2 by done. simpl. by rewrite <-app_assoc.
  - by rewrite bool_decide_eq_false_2.
Qed.

Lemma group_lookup (l : list (K * V)) k :
  default [] (group_by l !! k) = (List.filter (λ kv, bool_decide (kv.1 = k)) l).*2.
Proof. unfold group_by. by rewrite group_fold_lookup, lookup_empty. Qed.

Lemma group_fold_nonempty (l : list (K * V)) (m : gmap K (list V)) :
  (∀ k vs, m !! k = Some vs → vs ≠ []) →
  ∀ k vs, fold_left (λ m kv, push_entry kv.1 kv.2 m) l m !! k = Some vs → vs ≠ [].
Proof.
  revert m. induction l as [|[k' v] l IH]; intros m Hm k vs; [apply Hm|].
  apply IH. intros k1 vs1. unfold push_entry. simpl. rewrite lookup_insert.
  case_decide; [|apply Hm]. intros [= <-]. by destruct (default [] _).
Qed.

Lemma group_nonempty (l : list (K * V)) k vs : group_by l !! k = Some vs → vs ≠ [].
Proof. apply group_fold_nonempty. intros ??. by rewrite lookup_empty. Qed.
End GroupLemmas.

(** Sums. *)
Lemma sumZ_app l1 l2 : sumZ (l1 ++ l2) = sumZ l1 + sumZ l2.
Proof. unfold sumZ. induction l1; simpl; lia. Qed.

Lemma sumZ_nonneg l : Forall (λ x, 0 ≤ x) l → 0 ≤ sumZ l.
Proof. unfold sumZ. induction 1; simpl; lia. Qed.

Lemma count_app {A} (p : A → bool) l1 l2 : count p (l1 ++ l2) = count p l1 + count p l2.
Proof. unfold count. rewrite lfilter_app, length_app. lia. Qed.

Lemma count_nonneg {A} (p : A → bool) l : 0 ≤ count p l.
Proof. unfold count. lia. Qed.

Lemma count_perm {A} (p : A → bool) l1 l2 : l1 ≡ₚ l2 → count p l1 = count p l2.
Proof.
  unfold count. induction 1; simpl; repeat case_match; simpl; try done; lia.
Qed.

Lemma count_fmap {A B} (p : B → bool) (f : A → B) l :
  count p (f <$> l) = count (λ a, p (f a)) l.
Proof.
  unfold count. induction l as [|a l IH]; csimpl; [done|].
  destruct (p (f a)); simpl; lia.
Qed.

Lemma count_all {A} (p : A → bool) l : Forall (λ a, p a = true) l → count p l = Z.of_nat (length l).
Proof. unfold count. induction 1 as [|a l Ha Hl IH]; simpl; [done|]. rewrite Ha. simpl. lia. Qed.

Lemma count_none {A} (p : A → bool) l : Forall (λ a, p a = false) l → count p l = 0.
Proof. unfold count. induction 1 as [|a l Ha Hl IH]; simpl; [done|]. by rewrite Ha. Qed.

Lemma count_cons {A} (p : A → bool) a l : count p (a :: l) = (if p a then 1 else 0) + count p l.
Proof. unfold count. cbn [List.filter]. destruct (p a); simpl; lia. Qed.

(** The [i]-th element of a sorted list is its [i]-th order statistic. *)
Lemma sorted_order_statistic {A} (k : A → Z) l i x :
  StronglySorted (λ a b, k a ≤ k b) l → l !! i = Some x →
  count (λ a, k a <? k x) l ≤ Z.of_nat i < count (λ a, k a <=? k x) l.
Proof.
  intros Hs. revert i. induction Hs as [|a l Hl IH Ha]; intros i Hx; [done|].
  rewrite !count_cons. destruct i as [|i]; simpl in Hx.
  - injection Hx as ->. rewrite Z.ltb_irrefl, Z.leb_refl, count_none.
    + pose proof (count_nonneg (λ a, k a <=? k x) l). lia.
    + eapply Forall_impl; [exact Ha|]. simpl. intros y Hy. apply Z.ltb_ge. lia.
  - specialize (IH i Hx). rewrite Forall_forall in Ha.
    assert (k a ≤ k x) as Hax by (apply Ha; by eapply list_elem_of_lookup_2).
    rewrite (proj2 (Z.leb_le _ _) Hax). destruct (k a <? k x); lia.
Qed.

(** Concatenation with a single contributing element. *)
Lemma concat_none {A B} (f : A → list B) l : (∀ a, a ∈ l → f a = []) → concat (f <$> l) = [].
Proof.
  induction l as [|a l IH]; intros Hf; csimpl; [done|].
  rewrite (Hf a) by (by left). apply IH. intros b Hb. apply Hf. by right.
Qed.

Lemma concat_unique {A B} (f : A → list B) l x :
  NoDup l → x ∈ l → (∀ y, y ∈ l → y ≠ x → f y = []) → concat (f <$> l) = f x.
Proof.
  induction 1 as [|a l Ha Hnd IH]; intros Hx Hf; [by apply not_elem_of_nil in Hx|].
  csimpl. apply elem_of_cons in Hx as [<-|Hx].
  - rewrite concat_none; [apply app_nil_r|]. intros y Hy. apply Hf; [by right|].
    intros ->. done.
  - rewrite (Hf a); [|by left|intros ->; done]. simpl. apply IH; [done|].
    intros y Hy. apply Hf. by right.
Qed.

Lemma lfilter_concat {A B} (p : B → bool) (f : A → list B) l :
  List.filter p (concat (f <$> l)) = concat ((λ a, List.filter p (f a)) <$> l).
Proof. induction l as [|a l IH]; csimpl; [done|]. by rewrite lfilter_app, IH. Qed.

Lemma lfilter_all {A} (p : A → bool) l : (∀ x, x ∈ l → p x = true) → List.filter p l = l.
Proof.
  induction l as [|x l IH]; simpl; intros Hp; [done|].
  rewrite (Hp x) by (by left). f_equal. apply IH. intros y Hy. apply Hp. by right.
Qed.

Lemma lfilter_fmap {A B} (p : B → bool) (f : A → B) l :
  List.filter p (f <$> l) = f <$> List.filter (λ a, p (f a)) l.
Proof. induction l as [|a l IH]; csimpl; [done|]. rewrite IH. by destruct (p (f a)). Qed.

Lemma NoDup_lfilter_fmap {A B} (f : A → B) (p : A → bool) l :
  NoDup (f <$> l) → NoDup (f <$> List.filter p l).
Proof.
  induction l as [|a l IH]; csimpl; [done|]. intros [Ha Hl]%NoDup_cons.
  destruct (p a); [|auto]. csimpl. apply NoDup_cons. split; [|auto].
  intros (b & Hb & [Hin _]%elem_of_lfilter)%list_elem_of_fmap. apply Ha. rewrite Hb.
  by apply list_elem_of_fmap_2.
Qed.

Lemma NoDup_lfilter {A} (p : A → bool) l : NoDup l → NoDup (List.filter p l).
Proof. rewrite !NoDup_ListNoDup. apply List.NoDup_filter. Qed.

Lemma lfilter_lfilter {A} (p q : A → bool) l :
  List.filter p (List.filter q l) = List.filter (λ x, q x && p x) l.
Proof. induction l as [|a l IH]; simpl; [done|]. destruct (q a); simpl; by rewrite IH. Qed.

(** Elements with distinct keys are determined by their key. *)
Lemma NoDup_fmap_inj_elem {A B} (f : A → B) l x y :
  NoDup (f <$> l) → x ∈ l → y ∈ l → f x = f y → x = y.
Proof.
  intros Hnd [a Ha]%list_elem_of_lookup [b Hb]%list_elem_of_lookup Heq.
  assert (a = b) as ->; [|congruence].
  eapply (NoDup_lookup _ _ _ (f x)); [exact Hnd|..];
    rewrite list_lookup_fmap; [rewrite Ha|rewrite Hb]; simpl; congruence.
Qed.

(** A B-tree's iteration visits each entry once. *)
Section BTree.
Context {K V} `{Countable K} (le : K → K → bool) (m : gmap K V).

Lemma btree_by_perm : btree_by le m ≡ₚ map_to_list m.
Proof. apply sort_by_perm. Qed.

Lemma elem_of_btree_by k v : (k, v) ∈ btree_by le m ↔ m !! k = Some v.
Proof. rewrite btree_by_perm. apply elem_of_map_to_list. Qed.

Lemma NoDup_btree_by : NoDup (btree_by le m).
Proof. rewrite btree_by_perm. apply NoDup_map_to_list. Qed.
End BTree.

Lemma is_some_and_true {A} (p : A → bool) o :
  is_some_and p o = true ↔ ∃ a, o = Some a ∧ p a = true.
Proof. destruct o; simpl; naive_solver. Qed.

Lemma is_some_true {A} (o : option A) : is_some o = true ↔ is_Some o.
Proof. destruct o; simpl; split; [eauto|done..|by intros [? ?]]. Qed.

(** Booleans of equality tests. *)
Lemma bool_decide_refl {A} `{EqDecision A} (x : A) : bool_decide (x = x) = true.
Proof. by apply bool_decide_eq_true. Qed.

#[export] Hint Rewrite @bool_decide_refl @length_update_first : uptime.
#[export] Hint Resolve Forall_update_first sumZ_nonneg count_nonneg : uptime.

(** Counting after a list update or a deletion. *)
Lemma count_insert {A} (p : A → bool) l i x y :
  l !! i = Some x →
  count p (<[i := y]> l) = count p l - (if p x then 1 else 0) + (if p y then 1 else 0).
Proof.
  intros Hi. rewrite insert_take_drop by (by eapply lookup_lt_Some).
  rewrite <-(take_drop_middle l i x Hi) at 3. rewrite !count_app, !count_cons. lia.
Qed.

Lemma count_delete {A} (p : A → bool) l i x :
  l !! i = Some x → count p (delete i l) = count p l - (if p x then 1 else 0).
Proof.
  intros Hi. rewrite delete_take_drop.
  rewrite <-(take_drop_middle l i x Hi) at 3. rewrite !count_app, !count_cons. lia.
Qed.

Lemma elem_of_delete_list {A} (l : list A) i x : x ∈ delete i l → x ∈ l.
Proof.
  rewrite delete_take_drop, elem_of_app.
  intros [H|H]; [rewrite <-(take_drop i l)|rewrite <-(take_drop (S i) l)]; apply elem_of_app; auto.
Qed.

Lemma lfilter_ext {A} (p q : A → bool) l :
  (∀ x, x ∈ l → p x = q x) → List.filter p l = List.filter q l.
Proof.
  induction l as [|x l IH]; intros Hpq; simpl; [done|].
  rewrite (Hpq x) by left. rewrite IH; [done|]. intros y Hy. apply Hpq. by right.
Qed.

(** An element the filter drops can be inserted anywhere. *)
Lemma lfilter_insert_by {A} (le : A → A → bool) (p : A → bool) x l :
  p x = false → List.filter p (insert_by le x l) = List.filter p l.
Proof.
  intros Hx. induction l as [|y l IH]; simpl; [by rewrite Hx|].
  destruct (le x y); simpl; rewrite ?Hx; [done|]. by rewrite IH.
Qed.

Lemma count_ext_in {A} (p q : A → bool) l :
  (∀ x, x ∈ l → p x = q x) → count p l = count q l.
Proof. intros Hpq. unfold count. by rewrite (lfilter_ext p q). Qed.

Lemma lfilter_perm {A} (p : A → bool) l1 l2 : l1 ≡ₚ l2 → List.filter p l1 ≡ₚ List.filter p l2.
Proof. induction 1; simpl; repeat case_match; eauto using perm_swap, perm_trans. Qed.

Lemma omap_list_ext {A B} (f g : A → option B) (l : list A) :
  (∀ x, f x = g x) → omap f l = omap g l.
Proof. intros Hfg. induction l as [|x l IH]; [done|]. csimpl. by rewrite Hfg, IH. Qed.
