(* ===== verification/Text.v ===== *)
(** * Text

    The parts of Rust's [str] the modelled code uses, on strings of UTF-8 bytes.
    A pattern of ASCII characters never matches a multi-byte character half-way,
    so working byte by byte is what the character-wise operations do. What goes
    by the Unicode tables ([str::trim], [str::to_lowercase]) is a parameter
    where the code leans on no more than its documentation, and written out
    where the code's own behaviour depends on it. *)

From Stdlib Require Import Ascii.
From S2P Require Import Prelude.

(** ** Text

    [str::trim] and [str::to_lowercase] go by the Unicode tables; the laws are
    the parts of their documentation the code leans on. *)
Class UnicodeText := {
  trim : string → string;
  to_lowercase : string → string;
}.

(** Text that is trimmed and in lower case already, for evaluating the models. *)
Definition plain_text : UnicodeText := {| trim s := s; to_lowercase s := s |}.

(** [str::contains]. *)
Fixpoint contains (s needle : string) : bool :=
  String.prefix needle s ||
  match s with
  | EmptyString => false
  | String _ s => contains s needle
  end.

(** [trim_end_matches(c)]. *)
Fixpoint trim_end_matches (c : Ascii.ascii) (s : string) : string :=
  match s with
  | EmptyString => ""
  | String a s =>
      match trim_end_matches c s with
      | EmptyString => if Ascii.eqb a c then "" else String a ""
      | s' => String a s'
      end
  end.

(** [char::is_whitespace], as the UTF-8 encodings of its code points. *)
Definition byte (n : nat) : string → string := String (Ascii.ascii_of_nat n).
Definition WHITESPACE : list string :=
  ([byte 9 ""; byte 10 ""; byte 11 ""; byte 12 ""; byte 13 ""; " ";
    byte 194 (byte 133 ""); byte 194 (byte 160 ""); byte 225 (byte 154 (byte 128 ""))]
   ++ ((λ n, byte 226 (byte 128 (byte n ""))) <$> (seq 128 11 ++ [168; 169; 175]))
   ++ [byte 226 (byte 129 (byte 159 "")); byte 227 (byte 128 (byte 128 ""))])%nat.

Fixpoint drop_chars (n : nat) (s : string) : string :=
  match n, s with
  | S n, String _ s => drop_chars n s
  | _, _ => s
  end.

(** [str::trim_start]: one pass per character left. *)
Fixpoint trim_start_fuel (fuel : nat) (s : string) : string :=
  match fuel, List.find (λ ws, String.prefix ws s) WHITESPACE with
  | S fuel, Some ws => trim_start_fuel fuel (drop_chars (String.length ws) s)
  | _, _ => s
  end.
Definition trim_start (s : string) : string := trim_start_fuel (String.length s) s.

(** [s.find(needle)], then what follows the match. *)
Fixpoint after_first (needle s : string) : option string :=
  if String.prefix needle s then Some (drop_chars (String.length needle) s)
  else match s with
       | EmptyString => None
       | String _ s => after_first needle s
       end.

(** [char::is_ascii_digit]. *)
Definition is_ascii_digit (a : Ascii.ascii) : bool :=
  let n := Ascii.nat_of_ascii a in (48 <=? n)%nat && (n <=? 57)%nat.
Definition digit_value (a : Ascii.ascii) : Z := Z.of_nat (Ascii.nat_of_ascii a) - 48.

(** [s.chars().take_while(char::is_ascii_digit)]. *)
Fixpoint take_digits (s : string) : list Z :=
  match s with
  | EmptyString => []
  | String a s => if is_ascii_digit a then digit_value a :: take_digits s else []
  end.

(** [digits.parse::<i64>().ok()] of a string of ASCII digits. *)
Definition decimal (ds : list Z) : Z := fold_left (λ acc d, acc * 10 + d) ds 0.
Definition parse_i64 (ds : list Z) : option Z :=
  match ds with
  | [] => None
  | _ => if decimal ds <=? I64_MAX then Some (decimal ds) else None
  end.

(** [str::split_whitespace]: the non-empty pieces between white space. *)
Fixpoint pieces (fuel : nat) (s cur : string) : list string :=
  match fuel with
  | O => [cur]
  | S fuel =>
      match List.find (λ ws, String.prefix ws s) WHITESPACE with
      | Some ws => cur :: pieces fuel (drop_chars (String.length ws) s) ""
      | None =>
          match s with
          | EmptyString => [cur]
          | String a s => pieces fuel s (cur +:+ String a "")
          end
      end
  end.
Definition split_whitespace (s : string) : list string :=
  List.filter (λ t, negb (String.eqb t "")) (pieces (S (String.length s)) s "").

(** ** Classes of bytes, splitting and trimming *)
Fixpoint all_chars (p : Ascii.ascii → bool) (s : string) : bool :=
  match s with
  | EmptyString => true
  | String a s => p a && all_chars p s
  end.

Definition non_empty (s : string) : bool := negb (String.eqb s "").

(** [s.split(p)]. *)
Fixpoint split_on (p : Ascii.ascii → bool) (s : string) : list string :=
  match s with
  | EmptyString => [""]
  | String a s =>
      if p a then "" :: split_on p s
      else match split_on p s with
           | w :: ws => String a w :: ws
           | [] => [String a ""]
           end
  end.

Definition strip_prefix (p s : string) : option string :=
  if String.prefix p s then Some (drop_chars (String.length p) s) else None.

(** [s.strip_suffix(c)] for one character. *)
Fixpoint strip_suffix (c : Ascii.ascii) (s : string) : option string :=
  match s with
  | EmptyString => None
  | String a "" => if Ascii.eqb a c then Some "" else None
  | String a s => String a <$> strip_suffix c s
  end.

Definition stripped (p s : string) : string := default s (strip_prefix p s).

Definition in_range (lo hi : nat) (a : Ascii.ascii) : bool :=
  let n := Ascii.nat_of_ascii a in (lo <=? n)%nat && (n <=? hi)%nat.
Definition is_ascii_uppercase : Ascii.ascii → bool := in_range 65 90.
Definition is_ascii_lowercase : Ascii.ascii → bool := in_range 97 122.
Definition ascii_lower (a : Ascii.ascii) : Ascii.ascii :=
  if is_ascii_uppercase a then Ascii.ascii_of_nat (Ascii.nat_of_ascii a + 32) else a.
Fixpoint to_ascii_lowercase (s : string) : string :=
  match s with
  | EmptyString => ""
  | String a s => String (ascii_lower a) (to_ascii_lowercase s)
  end.
Definition eq_ignore_ascii_case (a b : string) : bool :=
  String.eqb (to_ascii_lowercase a) (to_ascii_lowercase b).

Definition len_in (lo hi : nat) (s : string) : bool :=
  (lo <=? String.length s)%nat && (String.length s <=? hi)%nat.

(** [str::trim]: the white space written out, from both ends. *)
Fixpoint ends_with (suffix s : string) : bool :=
  String.eqb s suffix ||
  match s with EmptyString => false | String _ s => ends_with suffix s end.
Fixpoint take_chars (n : nat) (s : string) : string :=
  match n, s with
  | S n, String a s => String a (take_chars n s)
  | _, _ => ""
  end.
Fixpoint trim_end_fuel (fuel : nat) (s : string) : string :=
  match fuel, List.find (λ ws, ends_with ws s) WHITESPACE with
  | S fuel, Some ws => trim_end_fuel fuel (take_chars (String.length s - String.length ws) s)
  | _, _ => s
  end.
Definition trim_end (s : string) : string := trim_end_fuel (String.length s) s.
Definition str_trim (s : string) : string := trim_end (trim_start s).

(** [s.rsplit(c).next()]: what follows the last [c], or all of [s]. *)
Fixpoint after_last (c : Ascii.ascii) (s : string) : string :=
  match s with
  | EmptyString => ""
  | String a s' =>
      if existsb (Ascii.eqb c) (String.list_ascii_of_string s') then after_last c s'
      else if Ascii.eqb a c then s' else s
  end.

(** [s.replace(from, to)]: every occurrence, left to right, none overlapping. *)
Fixpoint replace_fuel (fuel : nat) (from to s : string) : string :=
  match fuel, s with
  | S fuel, String a s' =>
      if String.prefix from s then to +:+ replace_fuel fuel from to (drop_chars (String.length from) s)
      else String a (replace_fuel fuel from to s')
  | _, _ => s
  end.
Definition replace (from to s : string) : string := replace_fuel (String.length s) from to s.

(** [s.split_once(c)]. *)
Fixpoint split_once (c : Ascii.ascii) (s : string) : option (string * string) :=
  match s with
  | EmptyString => None
  | String a s =>
      if Ascii.eqb a c then Some ("", s)
      else match split_once c s with Some (k, v) => Some (String a k, v) | None => None end
  end.

(** [str::chars] of UTF-8: the bytes that begin a character. *)
Definition begins_char (a : Ascii.ascii) : bool :=
  let n := Ascii.nat_of_ascii a in ((n <? 128) || (192 <=? n))%nat.
Fixpoint chars_count (s : string) : nat :=
  match s with
  | EmptyString => 0
  | String a s => ((if begins_char a then 1 else 0) + chars_count s)%nat
  end.
Fixpoint chars_take (n : nat) (s : string) : string :=
  match s with
  | EmptyString => ""
  | String a s =>
      if begins_char a
      then match n with O => "" | S n => String a (chars_take n s) end
      else String a (chars_take n s)
  end.

(** [s] between quotation marks. *)
Definition quoted (s : string) : string := byte 34 (s +:+ byte 34 "").

Lemma append_nil_r (s : string) : s +:+ "" = s.
Proof. induction s as [|a s IH]; [done|]. change (String a (s +:+ "") = String a s). by rewrite IH. Qed.
Lemma take_drop_chars k s : take_chars k s +:+ drop_chars k s = s.
Proof.
  revert s. induction k as [|k IH]; intros [|a s]; try done.
  change (String a (take_chars k s +:+ drop_chars k s) = String a s). by rewrite IH.
Qed.
