(* ===== verification/Orders.v ===== *)
(** * Orders and keyset pages

    The comparisons of [sort_by] and [ORDER BY] as boolean total preorders, built
    from the orders of the keys: lexicographic composition, options, reversal.
    Over a strict order, what a keyset cursor pages through ([LIMIT n + 1], the
    cursor the last row kept). *)

From Stdlib Require Import Ascii.
From S2P Require Import Prelude.

(** [Option]'s derived order, and [NULLS LAST]. *)
Definition option_le {A} (le : A → A → bool) (a b : option A) : bool :=
  match a, b with None, _ => true | Some _, None => false | Some a, Some b => le a b end.
Definition nulls_last {A} (le : A → A → bool) (a b : option A) : bool :=
  match a, b with _, None => true | None, Some _ => false | Some a, Some b => le a b end.
(** The order of a key, and its reversal ([DESC]). *)
Definition on {A B} (f : A → B) (le : B → B → bool) (a b : A) : bool := le (f a) (f b).
Definition desc {A} (le : A → A → bool) (a b : A) : bool := le b a.
(** [cmp(a, b).then(..)]: before on the first key, or level there and not after on the next. *)
Definition then_le {A} (le next : A → A → bool) (a b : A) : bool :=
  le a b && (negb (le b a) || next a b).

#[global] Typeclasses Opaque option_le nulls_last on desc then_le.

Class TotalPreorder {A} (le : A → A → bool) : Prop := {
  le_total : ∀ a b, le a b = false → le b a = true;
  le_trans : ∀ a b c, le a b = true → le b c = true → le a c = true;
}.

#[global] Instance Z_leb_order : TotalPreorder Z.leb.
Proof. split; intros *; rewrite ?Z.leb_le, ?Z.leb_gt; lia. Qed.
#[global] Instance N_leb_order : TotalPreorder N.leb.
Proof. split; intros *; rewrite ?N.leb_le, ?N.leb_gt; lia. Qed.

Lemma ascii_compare_nat a b :
  Ascii.compare a b = (nat_of_ascii a ?= nat_of_ascii b)%nat.
Proof.
  unfold Ascii.compare, nat_of_ascii. by rewrite N2Nat.inj_compare.
Qed.

Lemma string_leb_cons a s b t :
  String.leb (String a s) (String b t) = true ↔
    (nat_of_ascii a < nat_of_ascii b)%nat ∨ (a = b ∧ String.leb s t = true).
Proof.
  unfold String.leb. simpl. destruct (Ascii.compare a b) eqn:Hc.
  - apply Ascii.compare_eq_iff in Hc as ->. split; [by right|]. intros [?|[_ ?]]; [lia|done].
  - rewrite ascii_compare_nat in Hc. apply Nat.compare_lt_iff in Hc. split; [by left|done].
  - rewrite ascii_compare_nat in Hc. apply Nat.compare_gt_iff in Hc. split; [done|].
    intros [?|[-> _]]; lia.
Qed.

Lemma string_leb_trans s t u : String.leb s t = true → String.leb t u = true → String.leb s u = true.
Proof.
  revert s u. induction t as [|b t IH]; intros [|a s] [|c u]; try done.
  rewrite !string_leb_cons. intros [Hab|[-> Hst]] [Hbc|[-> Htu]]; [left; lia|by left..|].
  right. eauto.
Qed.

#[global] Instance string_leb_order : TotalPreorder String.leb.
Proof.
  split; [|exact string_leb_trans]. intros s t Hst.
  destruct (String.leb_total s t) as [H|H]; [by rewrite H in Hst|done].
Qed.

Section Instances.
Context {A : Type} (le : A → A → bool) `{!TotalPreorder le}.

#[global] Instance option_le_order : TotalPreorder (option_le le).
Proof.
  split; [intros [a|] [b|]; simpl; try done; apply le_total|].
  intros [a|] [b|] [c|]; simpl; try done. apply le_trans.
Qed.
#[global] Instance nulls_last_order : TotalPreorder (nulls_last le).
Proof.
  split; [intros [a|] [b|]; simpl; try done; apply le_total|].
  intros [a|] [b|] [c|]; simpl; try done. apply le_trans.
Qed.
#[global] Instance on_order {B} (f : B → A) : TotalPreorder (on f le).
Proof. split; unfold on; intros *; [apply le_total|apply le_trans]. Qed.
#[global] Instance desc_order : TotalPreorder (desc le).
Proof. split; unfold desc; intros *; [apply le_total|]. intros Hba Hcb. eapply le_trans; eauto. Qed.

#[global] Instance then_le_order (next : A → A → bool) `{!TotalPreorder next} : TotalPreorder (then_le le next).
Proof.
  split; unfold then_le.
  - intros a b Hab. destruct (le a b) eqn:H1; simpl in *; [|by rewrite (le_total a b H1)].
    destruct (le b a); simpl in *; [|done]. by rewrite (le_total (le := next) a b Hab).
  - intros a b c. destruct (le a b) eqn:Hab, (le b c) eqn:Hbc; simpl; try done.
    rewrite (le_trans a b c Hab Hbc). simpl. destruct (le c a) eqn:Hca; simpl; [|done].
    rewrite (le_trans b c a Hbc Hca), (le_trans c a b Hca Hab). simpl. apply le_trans.
Qed.

Lemma sorted_by l : StronglySorted (λ a b, le a b = true) (sort_by le l).
Proof.
  assert (StronglySorted le (sort_by le l)) as Hs by (apply sort_by_sorted; [apply le_total|apply le_trans]).
  induction Hs as [|x l' _ IH Hx]; constructor; [done|].
  eapply Forall_impl; [exact Hx|]. intros y Hy. by apply Is_true_true.
Qed.
End Instances.

Lemma then_le_first {A} (le next : A → A → bool) a b : then_le le next a b = true → le a b = true.
Proof. unfold then_le. by destruct (le a b). Qed.

(** ** Keyset pages *)
Section Keyset.
Context {A : Type} (le : A → A → bool) `{!TotalPreorder le}.

Lemma lfilter_sort_by p l : sort_by le (List.filter p l) = List.filter p (sort_by le l).
Proof.
  unfold sort_by. induction l as [|x l IH]; [done|]. cbn [List.filter foldr].
  pose proof (sorted_by le l) as Hs. unfold sort_by in Hs. revert Hs IH.
  generalize (foldr (insert_by le) [] l) as s. intros s Hs IH.
  assert (List.filter p (insert_by le x s) = if p x then insert_by le x (List.filter p s) else List.filter p s) as ->.
  { clear IH. induction Hs as [|y s Hs IH Hy]; cbn [insert_by List.filter]; [by destruct (p x)|].
    destruct (le x y) eqn:Hxy; cbn [List.filter].
    - destruct (p x) eqn:Hx; [|done]. destruct (p y) eqn:Hpy; cbn [insert_by]; [by rewrite Hxy|].
      assert (Forall (λ z, le x z = true) (List.filter p s)) as Hall.
      { apply Forall_forall. intros z [Hz _]%elem_of_lfilter. rewrite Forall_forall in Hy.
        eapply le_trans; eauto. }
      destruct Hall as [|z s' Hz _]; cbn [insert_by]; [done|by rewrite Hz].
    - rewrite IH. destruct (p x); [|done]. destruct (p y); cbn [insert_by]; by rewrite ?Hxy. }
  destruct (p x); [|done]. cbn [foldr]. by rewrite IH.
Qed.

(** Strictly after the cursor, in the order of the list. *)
Definition after (cursor : option A) (x : A) : bool :=
  match cursor with None => true | Some c => negb (le x c) end.
Definition keyset_page (limit : nat) (cursor : option A) (l : list A) : list A * option A :=
  let rows := take (S limit) (sort_by le (List.filter (after cursor) l)) in
  if (limit <? length rows)%nat then (take limit rows, last (take limit rows)) else (rows, None).

(** Following the cursors until there is none. *)
Fixpoint walk (fuel limit : nat) (cursor : option A) (l : list A) : list A :=
  match fuel with
  | O => []
  | S fuel =>
      let '(rows, next) := keyset_page limit cursor l in
      rows ++ match next with None => [] | Some c => walk fuel limit (Some c) l end
  end.

(** The keys tell the rows apart. *)
Definition strict_on (l : list A) : Prop := ∀ x y, x ∈ l → y ∈ l → le x y = true → le y x = true → x = y.

Lemma le_refl x : le x x = true.
Proof. destruct (le x x) eqn:Hx; [done|]. rewrite <-Hx. by apply le_total. Qed.

(** After the last row of a prefix comes what remains. *)
Lemma after_prefix done_ c rest :
  StronglySorted (λ a b, le a b = true) (done_ ++ c :: rest) → NoDup (done_ ++ c :: rest) →
  strict_on (done_ ++ c :: rest) →
  List.filter (after (Some c)) (done_ ++ c :: rest) = rest.
Proof.
  intros Hs Hnd Hst. apply StronglySorted_app in Hs as (Hlt & _ & Hcr).
  apply StronglySorted_inv in Hcr as [_ Hc]. rewrite Forall_forall in Hc.
  rewrite lfilter_app, lfilter_nil, app_nil_l.
  - cbn [List.filter after]. rewrite le_refl. simpl. apply lfilter_all. intros x Hx. simpl.
    apply negb_true_iff. destruct (le x c) eqn:Hxc; [|done]. exfalso.
    assert (x = c) as -> by (apply Hst; [set_solver..|done|by apply Hc]).
    apply NoDup_app in Hnd as (_ & _ & Hnd). by inversion Hnd.
  - intros x Hx. simpl. apply negb_false_iff. apply Hlt; [done|by left].
Qed.

Lemma keyset_walk_spec fuel limit l cursor done_ rest :
  (1 ≤ limit)%nat → (length rest < fuel)%nat →
  sort_by le l = done_ ++ rest → NoDup l → strict_on l →
  cursor = last done_ →
  walk fuel limit cursor l = rest.
Proof.
  intros Hlimit. revert cursor done_ rest. induction fuel as [|fuel IH]; [lia|].
  intros cursor done_ rest Hfuel Hsort Hnd Hst Hcur.
  assert (sort_by le (List.filter (after cursor) l) = rest) as Hrest.
  { rewrite lfilter_sort_by. destruct done_ as [|c done_ _] using rev_ind.
    - subst cursor. simpl in *. rewrite Hsort. by apply lfilter_all.
    - rewrite last_snoc in Hcur. subst cursor. rewrite Hsort, <-(assoc_L (++)) in *. simpl in *.
      apply after_prefix; rewrite <-Hsort; [apply sorted_by; apply _|by rewrite sort_by_perm|].
      intros x y. rewrite !elem_of_sort_by. apply Hst. }
  cbn [walk]. unfold keyset_page. rewrite Hrest, length_take.
  destruct (Nat.ltb_spec limit (S limit `min` length rest)) as [Hlt|Hge].
  - rewrite take_take. replace (limit `min` S limit)%nat with limit by lia.
    destruct (last (take limit rest)) as [c|] eqn:Hc.
    + rewrite (IH (Some c) (done_ ++ take limit rest) (drop limit rest)); [by rewrite take_drop| | | | |].
      * rewrite length_drop. lia.
      * by rewrite <-(assoc_L (++)), take_drop.
      * done.
      * done.
      * by rewrite last_app, Hc.
    + apply last_None in Hc. apply (f_equal length) in Hc. rewrite length_take in Hc. simpl in Hc. lia.
  - rewrite app_nil_r. apply take_ge. lia.
Qed.
End Keyset.
