(* ===== verification/Crypto.v ===== *)
(** * Values sealed at rest

    src/security/crypto.rs ([Cipher], the envelope and [seal_str]/[open_str]) and
    src/storage/capability_token.rs (share links and heartbeat pings). AES-GCM,
    base64 and SHA-256 are parameters, with what their documentation says of them
    as laws; authentication is taken as perfect, so a ciphertext opens under no key
    but its own; the random nonce and the random token are arguments. Strings are
    bytes, so [String::from_utf8] is a test. *)

From Stdlib Require Import Ascii.
From S2P Require Import Prelude Text.

Class Primitives := {
  Key : Type;
  DecodeError : Type;
  key_from_slice : string → Key;
  aes_encrypt : Key → string → string → option string;
  aes_decrypt : Key → string → string → option string;
  url_safe_no_pad_encode : string → string;
  url_safe_no_pad_decode : string → DecodeError + string;
  standard_decode : string → DecodeError + string;
  is_utf8 : string → bool;
  sha256_hex : string → string;
}.

Class PrimitivesLaws `{Primitives} := {
  decrypt_encrypt : ∀ k n p c, aes_encrypt k n p = Some c → aes_decrypt k n c = Some p;
  decode_encode : ∀ s, url_safe_no_pad_decode (url_safe_no_pad_encode s) = inr s;
  encode_alphabet : ∀ s, all_chars (λ a, negb (Ascii.eqb a ":"%char)) (url_safe_no_pad_encode s) = true;
}.

(** What authenticated encryption is for. *)
Class PrimitivesAuthentic `{Primitives} := {
  decrypt_wrong_key : ∀ k k' n p c, k ≠ k' → aes_encrypt k n p = Some c → aes_decrypt k' n c = None;
}.

Definition VERSION : string := "v1".

Section Sealing.
Context `{Primitives}.

Inductive CryptoError :=
| InvalidKekLength (n : nat)
| InvalidKekBase64 (e : DecodeError)
| BadVersion
| BadShape
| InvalidBase64 (e : DecodeError)
| InvalidNonceLength (n : nat)
| DecryptFailed
| EncryptFailed.

Record Cipher := { aead : Key }.

Definition decode_base64_flexible (s : string) : DecodeError + string :=
  let trimmed := str_trim s in
  match url_safe_no_pad_decode trimmed with
  | inr bytes => inr bytes
  | inl _ => standard_decode trimmed
  end.

Definition from_base64 (s : string) : CryptoError + Cipher :=
  match decode_base64_flexible s with
  | inl e => inl (InvalidKekBase64 e)
  | inr bytes =>
      if negb (String.length bytes =? 32)%nat then inl (InvalidKekLength (String.length bytes))
      else inr {| aead := key_from_slice bytes |}
  end.

Definition encrypt (c : Cipher) (nonce plaintext : string) : CryptoError + string :=
  match aes_encrypt (aead c) nonce plaintext with
  | None => inl EncryptFailed
  | Some ct => inr (VERSION +:+ ":" +:+ url_safe_no_pad_encode nonce +:+ ":" +:+ url_safe_no_pad_encode ct)
  end.

Definition decrypt (c : Cipher) (envelope : string) : CryptoError + string :=
  match split_once ":"%char envelope with
  | None => inl BadShape
  | Some (version, rest) =>
      match split_once ":"%char rest with
      | None => inl BadShape
      | Some (nonce_b64, ct_b64) =>
          if negb (String.eqb version VERSION) then inl BadVersion
          else
            match url_safe_no_pad_decode nonce_b64 with
            | inl e => inl (InvalidBase64 e)
            | inr nonce =>
                match url_safe_no_pad_decode ct_b64 with
                | inl e => inl (InvalidBase64 e)
                | inr ct =>
                    if negb (String.length nonce =? 12)%nat
                    then inl (InvalidNonceLength (String.length nonce))
                    else match aes_decrypt (aead c) nonce ct with
                         | None => inl DecryptFailed | Some p => inr p end
                end
            end
      end
  end.

Definition is_envelope (s : string) : bool := String.prefix "v1:" s.

(** The nonce is drawn only when there is a cipher. *)
Definition seal_str (raw : string) (cipher : option Cipher) (nonce : string) : CryptoError + string :=
  match cipher with Some c => encrypt c nonce raw | None => inr raw end.

Definition open_str (stored : string) (cipher : option Cipher) : option string :=
  if is_envelope stored then
    match cipher with
    | None => None
    | Some c =>
        match decrypt c stored with
        | inl _ => None
        | inr bytes => if is_utf8 bytes then Some bytes else None
        end
    end
  else Some stored.

(** src/storage/capability_token.rs, on the token drawn by [generate_raw_token]. *)
Record Minted := { raw : string; hash : string; sealed : string }.

Definition mint (token : string) (cipher : option Cipher) (nonce : string) : CryptoError + Minted :=
  match seal_str token cipher nonce with
  | inl e => inl e
  | inr s => inr {| raw := token; hash := sha256_hex token; sealed := s |}
  end.
Definition token_hash (presented : string) : string := sha256_hex presented.
Definition open_token (sealed : string) (cipher : option Cipher) : option string := open_str sealed cipher.
End Sealing.

(** ** Round trips *)
Section RoundTrip.
Context `{PrimitivesLaws}.

Lemma split_once_here c s rest :
  all_chars (λ a, negb (Ascii.eqb a c)) s = true →
  split_once c (s +:+ String c rest) = Some (s, rest).
Proof.
  induction s as [|a s IH]; simpl.
  - intros _. by rewrite Ascii.eqb_refl.
  - intros [Ha Hs]%andb_true_iff. apply negb_true_iff in Ha.
    change (String a s +:+ String c rest) with (String a (s +:+ String c rest)).
    cbn [split_once]. rewrite Ha. by rewrite (IH Hs).
Qed.

Lemma envelope_prefix t : is_envelope (VERSION +:+ ":" +:+ t) = true.
Proof. by destruct t. Qed.

(** An envelope is read back to its nonce and its ciphertext, whoever reads it. *)
Lemma decrypt_parts c nonce ct : String.length nonce = 12%nat →
  decrypt c (VERSION +:+ ":" +:+ url_safe_no_pad_encode nonce +:+ ":" +:+ url_safe_no_pad_encode ct) =
  match aes_decrypt (aead c) nonce ct with None => inl DecryptFailed | Some p => inr p end.
Proof.
  intros Hn. unfold decrypt.
  change (VERSION +:+ ":" +:+ ?s) with (VERSION +:+ String ":"%char s).
  rewrite split_once_here by done.
  change (":" +:+ url_safe_no_pad_encode ct) with (String ":"%char (url_safe_no_pad_encode ct)).
  rewrite split_once_here by apply encode_alphabet. simpl.
  by rewrite !decode_encode, Hn.
Qed.
Lemma decrypt_envelope c nonce p e :
  String.length nonce = 12%nat → encrypt c nonce p = inr e → decrypt c e = inr p ∧ is_envelope e = true.
Proof.
  unfold encrypt. intros Hn. destruct (aes_encrypt _ _ _) as [ct|] eqn:Hct; [|done].
  intros [= <-]. split; [|by apply envelope_prefix]. rewrite decrypt_parts by done.
  by rewrite (decrypt_encrypt _ _ _ _ Hct).
Qed.
Lemma decrypt_other_key `{!PrimitivesAuthentic} c c' nonce p e :
  String.length nonce = 12%nat → aead c' ≠ aead c → encrypt c nonce p = inr e → decrypt c' e = inl DecryptFailed.
Proof.
  unfold encrypt. intros Hn Hk. destruct (aes_encrypt _ _ _) as [ct|] eqn:Hct; [|done].
  intros [= <-]. rewrite decrypt_parts by done. by rewrite (decrypt_wrong_key _ (aead c') _ _ _ (not_eq_sym Hk) Hct).
Qed.

(** C39: what is sealed opens with its own key alone. With a key, sealing gives an
    envelope that opens to the same text with that key, and to nothing with any other
    key or with none; without a key the text is kept as it is, and opens to itself,
    whatever the key then, unless it happens to look like an envelope. *)
Theorem sealed_strings_open `{!PrimitivesAuthentic} text cipher nonce stored :
  is_utf8 text = true → String.length nonce = 12%nat →
  seal_str text cipher nonce = inr stored →
  match cipher with
  | Some c => open_str stored (Some c) = Some text ∧ open_str stored None = None ∧
      ∀ c', aead c' ≠ aead c → open_str stored (Some c') = None
  | None => stored = text ∧ (is_envelope text = false → ∀ c, open_str stored c = Some text)
  end.
Proof.
  unfold seal_str, open_str. intros Hu Hn. destruct cipher as [c|].
  - intros Henc. pose proof (decrypt_envelope _ _ _ _ Hn Henc) as [Hd Henv]. rewrite Henv, Hd, Hu.
    split; [done|]. split; [done|]. intros c' Hk. by rewrite (decrypt_other_key c c' nonce text stored).
  - intros [= <-]. split; [done|]. intros Hne c. by rewrite Hne.
Qed.

(** A plaintext can be mistaken for an envelope. Without a key a value that
    starts with [v1:] is stored as it is, and never reads back. *)
Theorem plaintext_envelope_is_lost text nonce :
  is_envelope text = true →
  seal_str text None nonce = inr text ∧ open_str text None = None.
Proof. unfold seal_str, open_str. intros Henv. by rewrite Henv. Qed.

(** A minted token can be shown again and looked up. *)
Theorem minted_token_recovers token cipher nonce m :
  is_utf8 token = true → is_envelope token = false → String.length nonce = 12%nat →
  mint token cipher nonce = inr m →
  open_token (sealed m) cipher = Some (raw m) ∧ token_hash (raw m) = hash m.
Proof.
  unfold mint, open_token, token_hash. intros Hu Hne Hn.
  destruct (seal_str token cipher nonce) as [|s] eqn:Hs; [done|]. intros [= <-]. simpl.
  split; [|done]. unfold seal_str, open_str in *. destruct cipher as [c|].
  - apply decrypt_envelope in Hs as [Hd Henv]; [|done]. by rewrite Henv, Hd, Hu.
  - injection Hs as <-. by rewrite Hne.
Qed.
End RoundTrip.

Module CryptoSample.
(** Hexadecimal on letters, and a cipher that puts its key and nonce in front. *)
Definition nibble (k : nat) : ascii := ascii_of_nat (97 + k).
Definition value (a : ascii) : nat := nat_of_ascii a - 97.
Fixpoint hex (s : string) : string :=
  match s with
  | EmptyString => ""
  | String a s => let n := nat_of_ascii a in
      String (nibble (n / 16)) (String (nibble (n mod 16)) (hex s))
  end.
Fixpoint unhex (s : string) : string :=
  match s with
  | String a (String b s) => String (ascii_of_nat (value a * 16 + value b)) (unhex s)
  | _ => ""
  end.

#[local] Instance toy : Primitives := {|
  Key := ascii; DecodeError := unit;
  key_from_slice s := match s with String a _ => a | EmptyString => zero end;
  aes_encrypt k n p := Some (String k n +:+ p);
  aes_decrypt k n c := strip_prefix (String k n) c;
  url_safe_no_pad_encode := hex; url_safe_no_pad_decode s := inr (unhex s);
  standard_decode _ := inl tt; is_utf8 _ := true; sha256_hex s := "h" +:+ s |}.

Lemma unhex_hex s : unhex (hex s) = s.
Proof. induction s as [|[[][][][][][][][]] s IH]; [done|..]; simpl; by rewrite IH. Qed.

Lemma hex_alphabet s : all_chars (λ a, negb (Ascii.eqb a ":"%char)) (hex s) = true.
Proof. induction s as [|[[][][][][][][][]] s IH]; [done|..]; exact IH. Qed.

Lemma strip_prefix_append a s : strip_prefix a (a +:+ s) = Some s.
Proof.
  unfold strip_prefix. assert (String.prefix a (a +:+ s) = true) as ->.
  { induction a as [|x a IH]; [by destruct s|]. change (String x a +:+ s) with (String x (a +:+ s)).
    simpl. by destruct (ascii_dec x x). }
  f_equal. induction a as [|x a IH]; [done|]. exact IH.
Qed.

#[local] Instance toy_laws : PrimitivesLaws.
Proof.
  split; simpl.
  - intros k n p c [= <-]. apply strip_prefix_append.
  - intros s. by rewrite unhex_hex.
  - apply hex_alphabet.
Qed.
#[local] Instance toy_authentic : PrimitivesAuthentic.
Proof.
  split. simpl. intros k k' n p c Hk [= <-]. unfold strip_prefix. change (String k n +:+ p) with (String k (n +:+ p)).
  simpl. by destruct (ascii_dec k' k) as [->|].
Qed.

Definition key : Cipher := {| aead := "k"%char |}.
Definition nonce : string := "0123456789ab".

Definition other_key : Cipher := {| aead := "q"%char |}.
Definition envelope : string := match seal_str "s3cr3t" (Some key) nonce with inr s => s | inl _ => "" end.

Lemma sealed_strings_open_witness :
  open_str envelope (Some key) = Some "s3cr3t" ∧ open_str envelope (Some other_key) = None.
Proof.
  destruct (sealed_strings_open "s3cr3t" (Some key) nonce envelope) as (Hown & _ & Hother); [reflexivity..|].
  split; [exact Hown|]. apply Hother. discriminate.
Defined.

Lemma plaintext_envelope_is_lost_witness : open_str "v1:prod" None = None.
Proof. apply (plaintext_envelope_is_lost "v1:prod" nonce); reflexivity. Defined.

Lemma minted_token_recovers_witness : open_token "abc" None = Some "abc".
Proof.
  apply (minted_token_recovers "abc" None nonce {| raw := "abc"; hash := "habc"; sealed := "abc" |});
    reflexivity.
Defined.
End CryptoSample.
