(* ===== verification/Ssrf.v ===== *)
(** * The guard of outbound requests

    src/security/ssrf.rs ([SsrfGuard] and the address classes it blocks),
    src/security/outbound_connector.rs ([SsrfHttpConnector], the one way
    notifications leave the server) and src/net/happy_eyeballs.rs (the race that
    dials). An address is its octets or segments, as the standard library keeps it.

    The specification is a list of address blocks: the guard's nested tests are
    shown to be membership in it. The resolver and the sockets are the
    environment: an event of the race says which attempt ended and how. *)

From S2P Require Import Prelude Text.

(** ** Addresses *)
Module Ipv4Addr.
Record t := { a : Z; b : Z; c : Z; d : Z }.
#[global] Instance eq_dec : EqDecision t.
Proof. solve_decision. Defined.
Definition to_bits (x : t) : Z := ((a x * 256 + b x) * 256 + c x) * 256 + d x.
Definition wf (x : t) : Prop :=
  0 ≤ a x < 256 ∧ 0 ≤ b x < 256 ∧ 0 ≤ c x < 256 ∧ 0 ≤ d x < 256.

(** The standard library's classes. *)
Definition is_unspecified (x : t) : bool := (a x =? 0) && (b x =? 0) && (c x =? 0) && (d x =? 0).
Definition is_loopback (x : t) : bool := a x =? 127.
Definition is_private (x : t) : bool :=
  (a x =? 10) || ((a x =? 172) && (16 <=? b x) && (b x <=? 31)) || ((a x =? 192) && (b x =? 168)).
Definition is_link_local (x : t) : bool := (a x =? 169) && (b x =? 254).
Definition is_broadcast (x : t) : bool :=
  (a x =? 255) && (b x =? 255) && (c x =? 255) && (d x =? 255).
Definition is_multicast (x : t) : bool := (224 <=? a x) && (a x <=? 239).
Definition is_documentation (x : t) : bool :=
  ((a x =? 192) && (b x =? 0) && (c x =? 2)) || ((a x =? 198) && (b x =? 51) && (c x =? 100))
  || ((a x =? 203) && (b x =? 0) && (c x =? 113)).
End Ipv4Addr.

Module Ipv6Addr.
Record t := { s0 : Z; s1 : Z; s2 : Z; s3 : Z; s4 : Z; s5 : Z; s6 : Z; s7 : Z }.
#[global] Instance eq_dec : EqDecision t.
Proof. solve_decision. Defined.
Definition to_bits (x : t) : Z :=
  ((((((s0 x * 65536 + s1 x) * 65536 + s2 x) * 65536 + s3 x) * 65536 + s4 x) * 65536 + s5 x)
    * 65536 + s6 x) * 65536 + s7 x.
Definition segment (s : Z) : Prop := 0 ≤ s < 65536.
Definition wf (x : t) : Prop :=
  segment (s0 x) ∧ segment (s1 x) ∧ segment (s2 x) ∧ segment (s3 x) ∧
  segment (s4 x) ∧ segment (s5 x) ∧ segment (s6 x) ∧ segment (s7 x).

Definition zeros (x : t) : bool :=
  (s0 x =? 0) && (s1 x =? 0) && (s2 x =? 0) && (s3 x =? 0) && (s4 x =? 0) && (s5 x =? 0).
Definition is_unspecified (x : t) : bool := zeros x && (s6 x =? 0) && (s7 x =? 0).
Definition is_loopback (x : t) : bool := zeros x && (s6 x =? 0) && (s7 x =? 1).
Definition is_multicast (x : t) : bool := Z.land (s0 x) 0xff00 =? 0xff00.
Definition is_unique_local (x : t) : bool := Z.land (s0 x) 0xfe00 =? 0xfc00.
Definition is_unicast_link_local (x : t) : bool := Z.land (s0 x) 0xffc0 =? 0xfe80.

(** Two segments as four octets: [(s >> 8) as u8], [(s & 0xff) as u8]. *)
Definition octets (hi lo : Z) : Ipv4Addr.t := {|
  Ipv4Addr.a := Z.shiftr hi 8; Ipv4Addr.b := Z.land hi 0xff;
  Ipv4Addr.c := Z.shiftr lo 8; Ipv4Addr.d := Z.land lo 0xff |}.
Definition to_ipv4_mapped (x : t) : option Ipv4Addr.t :=
  if (s0 x =? 0) && (s1 x =? 0) && (s2 x =? 0) && (s3 x =? 0) && (s4 x =? 0) && (s5 x =? 0xffff)
  then Some (octets (s6 x) (s7 x)) else None.
End Ipv6Addr.

Inductive IpAddr := V4 (x : Ipv4Addr.t) | V6 (x : Ipv6Addr.t).
#[global] Instance IpAddr_eq_dec : EqDecision IpAddr.
Proof. solve_decision. Defined.

(** ** src/security/ssrf.rs *)
Inductive SsrfError := BlockedAddress (ip : IpAddr) | AllBlocked (host : string).
Record SsrfGuard := { allow_private : bool }.

Definition is_blocked_v4 (x : Ipv4Addr.t) : bool :=
  if Ipv4Addr.is_unspecified x || Ipv4Addr.is_loopback x || Ipv4Addr.is_private x
     || Ipv4Addr.is_link_local x || Ipv4Addr.is_broadcast x || Ipv4Addr.is_multicast x
     || Ipv4Addr.is_documentation x
  then true
  else if (Ipv4Addr.a x =? 100) && (64 <=? Ipv4Addr.b x) && (Ipv4Addr.b x <=? 127) then true
  else if (Ipv4Addr.a x =? 192) && (Ipv4Addr.b x =? 0) && (Ipv4Addr.c x =? 0) then true
  else if (Ipv4Addr.a x =? 198) && ((Ipv4Addr.b x =? 18) || (Ipv4Addr.b x =? 19)) then true
  else 240 <=? Ipv4Addr.a x.

Definition extract_6to4 (x : Ipv6Addr.t) : option Ipv4Addr.t :=
  if Ipv6Addr.s0 x =? 0x2002 then Some (Ipv6Addr.octets (Ipv6Addr.s1 x) (Ipv6Addr.s2 x)) else None.
Definition extract_nat64 (x : Ipv6Addr.t) : option Ipv4Addr.t :=
  if (Ipv6Addr.s0 x =? 0x64) && (Ipv6Addr.s1 x =? 0xff9b) && (Ipv6Addr.s2 x =? 0)
     && (Ipv6Addr.s3 x =? 0) && (Ipv6Addr.s4 x =? 0) && (Ipv6Addr.s5 x =? 0)
  then Some (Ipv6Addr.octets (Ipv6Addr.s6 x) (Ipv6Addr.s7 x)) else None.

Definition is_blocked_v6 (x : Ipv6Addr.t) : bool :=
  if Ipv6Addr.is_unspecified x || Ipv6Addr.is_loopback x || Ipv6Addr.is_multicast x
     || Ipv6Addr.is_unique_local x || Ipv6Addr.is_unicast_link_local x then true
  else match Ipv6Addr.to_ipv4_mapped x with
  | Some mapped => is_blocked_v4 mapped
  | None =>
      if Ipv6Addr.zeros x then true
      else if (Ipv6Addr.s0 x =? 0x2001) && (Ipv6Addr.s1 x =? 0xdb8) then true
      else if (Ipv6Addr.s0 x =? 0x100) && (Ipv6Addr.s1 x =? 0) && (Ipv6Addr.s2 x =? 0)
              && (Ipv6Addr.s3 x =? 0) then true
      else match (match extract_6to4 x with Some v => Some v | None => extract_nat64 x end) with
           | Some embedded => is_blocked_v4 embedded
           | None => false
           end
  end.

Definition is_blocked_ip (ip : IpAddr) : bool :=
  match ip with V4 x => is_blocked_v4 x | V6 x => is_blocked_v6 x end.

Definition guard_allow (g : SsrfGuard) (ip : IpAddr) : bool := allow_private g || negb (is_blocked_ip ip).
Definition guard_check (g : SsrfGuard) (ip : IpAddr) : SsrfError + unit :=
  if guard_allow g ip then inr tt else inl (BlockedAddress ip).
Definition guard_filter (g : SsrfGuard) (host : string) (addrs : list IpAddr) : SsrfError + list IpAddr :=
  if allow_private g then inr addrs
  else match List.filter (λ ip, negb (is_blocked_ip ip)) addrs with
       | [] => inl (AllBlocked host)
       | kept => inr kept
       end.
Definition strict : SsrfGuard := {| allow_private := false |}.
Definition operator_configured_target : SsrfGuard := {| allow_private := true |}.
Definition from_security_config (allow_private_targets : bool) : SsrfGuard :=
  {| allow_private := allow_private_targets |}.

(** ** src/net/happy_eyeballs.rs *)
Module SocketAddr.
Record t := { ip : IpAddr; port : Z }.
#[global] Instance eq_dec : EqDecision t.
Proof. solve_decision. Defined.
Definition is_ipv6 (x : t) : bool := match ip x with V6 _ => true | V4 _ => false end.
End SocketAddr.

Fixpoint interleave (v6 v4 : list SocketAddr.t) : list SocketAddr.t :=
  match v6, v4 with
  | a :: v6, b :: v4 => a :: b :: interleave v6 v4
  | v6, [] => v6
  | [], v4 => v4
  end.
Definition interleave_v6_first (addrs : list SocketAddr.t) : list SocketAddr.t :=
  interleave (List.filter SocketAddr.is_ipv6 addrs) (List.filter (λ x, negb (SocketAddr.is_ipv6 x)) addrs).

Module Race.
Inductive answer := Connected (to_ : SocketAddr.t) | Failed (e : string) | TimedOut.
Record t := {
  attempts : list SocketAddr.t;      (* pending connects *)
  iter : list SocketAddr.t;          (* not yet started *)
  started : list SocketAddr.t;       (* every connect made, oldest first *)
  first_err : option string;
}.

Definition start_next (s : t) : t :=
  match iter s with
  | [] => s
  | addr :: rest => {| attempts := attempts s ++ [addr]; iter := rest;
                       started := started s ++ [addr]; first_err := first_err s |}
  end.
Definition begin (addrs : list SocketAddr.t) : t :=
  start_next {| attempts := []; iter := interleave_v6_first addrs; started := []; first_err := None |}.

Definition connect (addrs : list SocketAddr.t) : answer + t :=
  match addrs with
  | [] => inl (Failed "happy-eyeballs: no addresses to connect")
  | _ => inr (begin addrs)
  end.

(** What the select of one turn may see. *)
Inductive event :=
| Finished (i : nat) (outcome : option string)    (* the [i]th pending attempt; an error, or none *)
| Staggered
| DeadlinePassed.

(** One turn: an answer, or the next state; [None] when the event cannot be. *)
Definition turn (e : event) (s : t) : option (answer + t) :=
  match attempts s, iter s with
  | [], [] => Some (inl (Failed (default "happy-eyeballs: connect failed" (first_err s))))
  | _, _ =>
      match e with
      | DeadlinePassed =>
          Some (inl (match first_err s with Some e => Failed e | None => TimedOut end))
      | Staggered => Some (inr (start_next s))
      | Finished i outcome =>
          addr ← attempts s !! i;
          match outcome with
          | None => Some (inl (Connected addr))
          | Some e => Some (inr (start_next {|
              attempts := delete i (attempts s); iter := iter s; started := started s;
              first_err := match first_err s with None => Some e | Some e' => Some e' end |}))
          end
      end
  end.

Fixpoint run (es : list event) (s : t) : option (answer + t) :=
  match es with
  | [] => Some (inr s)
  | e :: es => r ← turn e s;
      match r with inl a => match es with [] => Some (inl a) | _ => None end | inr s => run es s end
  end.
End Race.

(** ** src/security/outbound_connector.rs: [call], from what the resolver said to the
    addresses the race gets. *)
Inductive ConnectError := Refused (host : string) | NoAddresses.

Definition dialled (g : SsrfGuard) (host : string) (resolved : list SocketAddr.t)
    : ConnectError + list SocketAddr.t :=
  match guard_filter g host (SocketAddr.ip <$> resolved) with
  | inl _ => inl (Refused host)
  | inr allowed =>
      match List.filter (λ sa, bool_decide (SocketAddr.ip sa ∈ allowed)) resolved with
      | [] => inl NoAddresses
      | addrs => inr addrs
      end
  end.

(** ** Blocks of addresses *)

(** [base/len] in a space of [width] bits. *)
Definition in_cidr (width base len x : Z) : bool :=
  x / 2 ^ (width - len) =? base / 2 ^ (width - len).
Definition ipv4 (a b c d : Z) : Z := ((a * 256 + b) * 256 + c) * 256 + d.

(** What no request may reach: base and prefix length. *)
Definition BLOCKED_V4 : list (Z * Z) :=
  [(ipv4 0 0 0 0, 32); (ipv4 127 0 0 0, 8);
   (ipv4 10 0 0 0, 8); (ipv4 172 16 0 0, 12); (ipv4 192 168 0 0, 16);
   (ipv4 169 254 0 0, 16); (ipv4 255 255 255 255, 32); (ipv4 224 0 0 0, 4);
   (ipv4 192 0 2 0, 24); (ipv4 198 51 100 0, 24); (ipv4 203 0 113 0, 24);
   (ipv4 100 64 0 0, 10); (ipv4 192 0 0 0, 24); (ipv4 198 18 0 0, 15); (ipv4 240 0 0 0, 4)].

(** A block of v4 addresses under a v6 prefix of [len] bits. *)
Definition under (base len : Z) (block : Z * Z) : Z * Z :=
  (base + block.1 * 2 ^ (96 - len), len + block.2).
Definition V6_MAPPED : Z := 0xffff00000000.
Definition V6_6TO4 : Z := 0x2002 * 2 ^ 112.
Definition V6_NAT64 : Z := 0x64ff9b * 2 ^ 96.
Definition BLOCKED_V6 : list (Z * Z) :=
  [(0, 128); (1, 128); (0xff * 2 ^ 120, 8); (0xfc * 2 ^ 120, 7); (0xfe80 * 2 ^ 112, 10);
   (0, 96); (0x20010db8 * 2 ^ 96, 32); (0x100 * 2 ^ 112, 64)]
  ++ (under V6_MAPPED 96 <$> BLOCKED_V4)
  ++ (under V6_6TO4 16 <$> BLOCKED_V4) ++ (under V6_NAT64 96 <$> BLOCKED_V4).

Definition blocked_spec (ip : IpAddr) : bool :=
  match ip with
  | V4 x => existsb (λ n, in_cidr 32 n.1 n.2 (Ipv4Addr.to_bits x)) BLOCKED_V4
  | V6 x => existsb (λ n, in_cidr 128 n.1 n.2 (Ipv6Addr.to_bits x)) BLOCKED_V6
  end.

Ltac ground_pow :=
  repeat match goal with |- context [2 ^ ?n] =>
    let v := eval vm_compute in (2 ^ n) in change (2 ^ n) with v end.

(** A comparison of booleans as one of propositions. *)
Lemma bool_iff (a b : bool) : (a = true ↔ b = true) → a = b.
Proof. destruct a, b; naive_solver. Qed.

(** The leading bits of an address by its octets. *)
Lemma v4_bits a b c d :
  0 ≤ a < 256 → 0 ≤ b < 256 → 0 ≤ c < 256 → 0 ≤ d < 256 →
  let x := ipv4 a b c d in
  x / 2 ^ 28 = a / 16 ∧ x / 2 ^ 24 = a ∧ x / 2 ^ 22 = a * 4 + b / 64 ∧ x / 2 ^ 20 = a * 16 + b / 16 ∧
  x / 2 ^ 17 = a * 128 + b / 2 ∧ x / 2 ^ 16 = a * 256 + b ∧ x / 2 ^ 8 = (a * 256 + b) * 256 + c ∧
  x / 2 ^ 0 = x.
Proof.
  intros Ha Hb Hc Hd x. subst x. unfold ipv4.
  repeat match goal with |- context [2 ^ ?n] => let v := eval vm_compute in (2 ^ n) in change (2 ^ n) with v end.
  split_and!; Z.div_mod_to_equations; lia.
Qed.

Lemma cidr_by_octets width x base len hi n (p : bool) :
  x / 2 ^ (width - len) = hi → base / 2 ^ (width - len) = n → (p = true ↔ hi = n) →
  in_cidr width base len x = p.
Proof. intros Hx Hn Hp. apply bool_iff. unfold in_cidr. by rewrite Z.eqb_eq, Hx, Hn, Hp. Qed.

Ltac octets H := eapply cidr_by_octets; [exact H|vm_compute; reflexivity|];
  rewrite ?orb_true_iff, ?andb_true_iff, ?Z.eqb_eq, ?Z.leb_le; Z.div_mod_to_equations; lia.
Lemma v4_tests a b c d :
  0 ≤ a < 256 → 0 ≤ b < 256 → 0 ≤ c < 256 → 0 ≤ d < 256 →
  map (λ n, in_cidr 32 n.1 n.2 (ipv4 a b c d)) BLOCKED_V4 =
  [(a =? 0) && (b =? 0) && (c =? 0) && (d =? 0); a =? 127;
   a =? 10; (a =? 172) && (16 <=? b) && (b <=? 31); (a =? 192) && (b =? 168);
   (a =? 169) && (b =? 254); (a =? 255) && (b =? 255) && (c =? 255) && (d =? 255);
   (224 <=? a) && (a <=? 239);
   (a =? 192) && (b =? 0) && (c =? 2); (a =? 198) && (b =? 51) && (c =? 100);
   (a =? 203) && (b =? 0) && (c =? 113);
   (a =? 100) && (64 <=? b) && (b <=? 127); (a =? 192) && (b =? 0) && (c =? 0);
   (a =? 198) && ((b =? 18) || (b =? 19)); 240 <=? a].
Proof.
  intros Ha Hb Hc Hd. destruct (v4_bits a b c d Ha Hb Hc Hd) as (H28 & H24 & H22 & H20 & H17 & H16 & H8 & H0).
  assert (ipv4 a b c d = ((a * 256 + b) * 256 + c) * 256 + d) as Hx by done.
  unfold BLOCKED_V4. cbn [map fst snd].
  repeat f_equal; [octets H0|octets H24|octets H24|octets H20|octets H16|octets H16|octets H0|octets H28|octets H8|octets H8|octets H8|octets H22|octets H8|octets H17|octets H28].
Qed.
Lemma shifted_div q r m k : 0 ≤ r < m → 0 < k → (q * m + r) / (m * k) = q / k.
Proof.
  intros Hr Hk. rewrite <-Z.div_div by lia. f_equal. rewrite Z.div_add_l by lia.
  rewrite Z.div_small by lia. lia.
Qed.

Lemma under_cidr p P v lo sh blk :
  0 ≤ sh ≤ 96 → 0 ≤ lo < 2 ^ sh → 0 ≤ v < 2 ^ 32 → 0 ≤ blk.1 < 2 ^ 32 → 0 ≤ blk.2 ≤ 32 →
  let u := under (p * 2 ^ (sh + 32)) (96 - sh) blk in
  in_cidr 128 u.1 u.2 ((P * 2 ^ 32 + v) * 2 ^ sh + lo) = (P =? p) && in_cidr 32 blk.1 blk.2 v.
Proof.
  destruct blk as [b l]. intros Hsh Hlo Hv Hb Hl u. subst u. unfold under, in_cidr. cbn [fst snd] in *.
  replace (128 - (96 - sh + l)) with (sh + (32 - l)) by lia.
  replace (96 - (96 - sh)) with sh by lia.
  rewrite !(Z.pow_add_r 2 sh) by lia.
  rewrite shifted_div by (try apply Z.pow_pos_nonneg; lia).
  replace (p * (2 ^ sh * 2 ^ 32) + b * 2 ^ sh) with ((p * 2 ^ 32 + b) * 2 ^ sh + 0) by lia.
  rewrite shifted_div by (try apply Z.pow_pos_nonneg; lia).
  assert (2 ^ 32 = 2 ^ l * 2 ^ (32 - l)) as H32 by (rewrite <-Z.pow_add_r by lia; f_equal; lia).
  assert (0 < 2 ^ (32 - l)) as Hpos by (apply Z.pow_pos_nonneg; lia).
  rewrite H32 in Hv, Hb |- *. rewrite !Z.mul_assoc, !Z.div_add_l by lia.
  assert (∀ y, 0 ≤ y < 2 ^ l * 2 ^ (32 - l) → 0 ≤ y / 2 ^ (32 - l) < 2 ^ l) as Hq.
  { intros y Hy. split; [apply Z.div_pos; lia|apply Z.div_lt_upper_bound; lia]. }
  apply Hq in Hv, Hb. apply bool_iff. rewrite andb_true_iff, !Z.eqb_eq. split; [|by intros [-> ->]].
  intros Heq. assert (P = p) as -> by nia. split; [done|lia].
Qed.

Lemma v6_bits s0 s1 s2 s3 s4 s5 s6 s7 :
  Ipv6Addr.wf (Ipv6Addr.Build_t s0 s1 s2 s3 s4 s5 s6 s7) →
  let x := Ipv6Addr.to_bits (Ipv6Addr.Build_t s0 s1 s2 s3 s4 s5 s6 s7) in
  x / 2 ^ 121 = s0 / 512 ∧ x / 2 ^ 120 = s0 / 256 ∧ x / 2 ^ 118 = s0 / 64 ∧ x / 2 ^ 96 = s0 * 65536 + s1 ∧
  x / 2 ^ 64 = ((s0 * 65536 + s1) * 65536 + s2) * 65536 + s3 ∧
  x / 2 ^ 32 = ((((s0 * 65536 + s1) * 65536 + s2) * 65536 + s3) * 65536 + s4) * 65536 + s5.
Proof.
  unfold Ipv6Addr.wf, Ipv6Addr.segment, Ipv6Addr.to_bits. cbn [Ipv6Addr.s0 Ipv6Addr.s1 Ipv6Addr.s2 Ipv6Addr.s3 Ipv6Addr.s4 Ipv6Addr.s5 Ipv6Addr.s6 Ipv6Addr.s7].
  intros Hwf. ground_pow. split_and!; Z.div_mod_to_equations; lia.
Qed.
(** The masks, on every segment. *)
Fixpoint all_from (n : nat) (lo : Z) (p : Z → bool) : bool :=
  match n with O => true | S n => p lo && all_from n (lo + 1) p end.
Lemma all_from_spec n lo p s : all_from n lo p = true → lo ≤ s < lo + Z.of_nat n → p s = true.
Proof.
  revert lo. induction n as [|n IH]; intros lo Hp Hs; [lia|]. simpl in Hp. apply andb_true_iff in Hp as [Hlo Hp].
  destruct (decide (s = lo)) as [->|]; [done|]. apply (IH (lo + 1)); [done|lia].
Qed.
Definition SEGMENTS : nat := Z.to_nat 65536.
Lemma all_segments : Z.of_nat SEGMENTS = 65536.
Proof. apply Z2Nat.id. lia. Qed.
#[local] Opaque SEGMENTS.
Lemma every_segment_spec p s : all_from SEGMENTS 0 p = true → Ipv6Addr.segment s → p s = true.
Proof. intros Hp Hs. eapply all_from_spec; [exact Hp|]. rewrite all_segments. exact Hs. Qed.
Lemma masks s : Ipv6Addr.segment s →
  (Z.land s 0xff00 =? 0xff00) = (s / 256 =? 0xff) ∧
  (Z.land s 0xfe00 =? 0xfc00) = (s / 512 =? 0x7e) ∧
  (Z.land s 0xffc0 =? 0xfe80) = (s / 64 =? 0x3fa) ∧
  Z.shiftr s 8 * 256 + Z.land s 0xff = s.
Proof.
  intros Hs. split_and!; [apply Bool.eqb_prop..|apply Z.eqb_eq];
    match goal with |- ?b = true => let p := eval pattern s in b in
      match p with ?f s => apply (every_segment_spec f s); [vm_compute; reflexivity|exact Hs] end end.
Qed.

Lemma octets_ok hi lo :
  Ipv6Addr.segment hi → Ipv6Addr.segment lo →
  Ipv4Addr.wf (Ipv6Addr.octets hi lo) ∧ Ipv4Addr.to_bits (Ipv6Addr.octets hi lo) = hi * 65536 + lo.
Proof.
  intros Hhi Hlo. destruct (masks hi Hhi) as (_ & _ & _ & Eh), (masks lo Hlo) as (_ & _ & _ & El).
  unfold Ipv4Addr.wf, Ipv4Addr.to_bits, Ipv6Addr.octets, Ipv6Addr.segment in *.
  cbn [Ipv4Addr.a Ipv4Addr.b Ipv4Addr.c Ipv4Addr.d].
  assert (∀ s, 0 ≤ s < 65536 → 0 ≤ Z.shiftr s 8 < 256 ∧ 0 ≤ Z.land s 0xff < 256) as Hr.
  { intros s Hs. change 0xff with (Z.ones 8). rewrite Z.land_ones, Z.shiftr_div_pow2 by lia.
    ground_pow. Z.div_mod_to_equations. lia. }
  destruct (Hr hi Hhi), (Hr lo Hlo). split; [done|lia].
Qed.

Lemma existsb_as_map {A} (f : A → bool) l : existsb f l = existsb (λ b, b) (map f l).
Proof. induction l as [|n l IH]; simpl; [done|by rewrite IH]. Qed.

Lemma blocked_v4_spec x :
  Ipv4Addr.wf x →
  is_blocked_v4 x = existsb (λ n, in_cidr 32 n.1 n.2 (Ipv4Addr.to_bits x)) BLOCKED_V4.
Proof.
  destruct x as [a b c d]. intros (Ha & Hb & Hc & Hd).
  rewrite existsb_as_map. change (Ipv4Addr.to_bits _) with (ipv4 a b c d). rewrite v4_tests by done.
  unfold is_blocked_v4, Ipv4Addr.is_unspecified, Ipv4Addr.is_loopback, Ipv4Addr.is_private,
    Ipv4Addr.is_link_local, Ipv4Addr.is_broadcast, Ipv4Addr.is_multicast, Ipv4Addr.is_documentation.
  cbn [existsb Ipv4Addr.a Ipv4Addr.b Ipv4Addr.c Ipv4Addr.d].
  rewrite orb_false_r, !orb_assoc. repeat match goal with |- context [if ?b then true else ?c] =>
    change (if b then true else c) with (b || c) end.
  by rewrite !orb_assoc.
Qed.

(** The v4 blocks under a prefix: the prefix, and a blocked v4 address under it. *)
Lemma existsb_under p P hi lo rest sh :
  0 ≤ sh ≤ 96 → 0 ≤ rest < 2 ^ sh → Ipv6Addr.segment hi → Ipv6Addr.segment lo →
  existsb (λ n, in_cidr 128 n.1 n.2 ((P * 2 ^ 32 + (hi * 65536 + lo)) * 2 ^ sh + rest))
    (under (p * 2 ^ (sh + 32)) (96 - sh) <$> BLOCKED_V4)
  = (P =? p) && is_blocked_v4 (Ipv6Addr.octets hi lo).
Proof.
  intros Hsh Hrest Hhi Hlo. destruct (octets_ok hi lo Hhi Hlo) as [Hwf Hbits].
  rewrite blocked_v4_spec, Hbits by done. unfold Ipv6Addr.segment in *.
  assert (Forall (λ blk, 0 ≤ blk.1 < 2 ^ 32 ∧ 0 ≤ blk.2 ≤ 32) BLOCKED_V4) as Hall.
  { repeat constructor; by vm_compute. }
  induction Hall as [|blk l [Hb Hl] _ IH]; [by rewrite andb_false_r|].
  rewrite fmap_cons. cbn [existsb]. rewrite IH, under_cidr by (done || ground_pow; lia).
  by destruct (P =? p).
Qed.

Ltac segs x H :=
  eapply cidr_by_octets; [exact H|vm_compute; reflexivity|]; clear H;
  unfold x, Ipv6Addr.is_unspecified, Ipv6Addr.is_loopback, Ipv6Addr.zeros, Ipv6Addr.to_bits;
  cbn [Ipv6Addr.s0 Ipv6Addr.s1 Ipv6Addr.s2 Ipv6Addr.s3 Ipv6Addr.s4 Ipv6Addr.s5 Ipv6Addr.s6 Ipv6Addr.s7];
  rewrite ?andb_true_iff, ?Z.eqb_eq; lia.

Lemma segment_tests s0 s1 s2 s3 s4 s5 s6 s7 :
  let x := Ipv6Addr.Build_t s0 s1 s2 s3 s4 s5 s6 s7 in
  Ipv6Addr.wf x →
  map (λ n, in_cidr 128 n.1 n.2 (Ipv6Addr.to_bits x)) (take 8 BLOCKED_V6) =
  [Ipv6Addr.is_unspecified x; Ipv6Addr.is_loopback x; Ipv6Addr.is_multicast x;
   Ipv6Addr.is_unique_local x; Ipv6Addr.is_unicast_link_local x; Ipv6Addr.zeros x;
   (s0 =? 0x2001) && (s1 =? 0xdb8); (s0 =? 0x100) && (s1 =? 0) && (s2 =? 0) && (s3 =? 0)].
Proof.
  intros x Hwf. destruct (v6_bits _ _ _ _ _ _ _ _ Hwf) as (B121 & B120 & B118 & B96 & B64 & B32).
  fold x in B121, B120, B118, B96, B64, B32.
  unfold x, Ipv6Addr.wf in Hwf.
  cbn [Ipv6Addr.s0 Ipv6Addr.s1 Ipv6Addr.s2 Ipv6Addr.s3 Ipv6Addr.s4 Ipv6Addr.s5 Ipv6Addr.s6 Ipv6Addr.s7] in Hwf.
  destruct Hwf as (H0 & H1 & H2 & H3 & H4 & H5 & H6 & H7). destruct (masks s0 H0) as (Mm & Mu & Ml & _).
  assert (Ipv6Addr.to_bits x / 2 ^ 0 = Ipv6Addr.to_bits x) as B0 by apply Z.div_1_r.
  unfold Ipv6Addr.is_multicast, Ipv6Addr.is_unique_local, Ipv6Addr.is_unicast_link_local.
  change (Ipv6Addr.s0 x) with s0. rewrite Mm, Mu, Ml. clear Mm Mu Ml.
  unfold BLOCKED_V6. cbn [take app map fst snd].
  unfold Ipv6Addr.segment in *.
  repeat f_equal; [segs x B0|segs x B0|segs x B120|segs x B121|segs x B118|segs x B32|segs x B96|segs x B64].
Qed.

(** The leading segments as one number. *)
Definition top96 (x : Ipv6Addr.t) : Z :=
  ((((Ipv6Addr.s0 x * 65536 + Ipv6Addr.s1 x) * 65536 + Ipv6Addr.s2 x) * 65536 + Ipv6Addr.s3 x) * 65536
    + Ipv6Addr.s4 x) * 65536 + Ipv6Addr.s5 x.

Lemma embedded_tests x :
  Ipv6Addr.wf x →
  existsb (λ n, in_cidr 128 n.1 n.2 (Ipv6Addr.to_bits x)) (drop 8 BLOCKED_V6) =
  (top96 x =? 0xffff) && is_blocked_v4 (Ipv6Addr.octets (Ipv6Addr.s6 x) (Ipv6Addr.s7 x))
  || (Ipv6Addr.s0 x =? 0x2002) && is_blocked_v4 (Ipv6Addr.octets (Ipv6Addr.s1 x) (Ipv6Addr.s2 x))
  || (top96 x =? 0x64ff9b * 2 ^ 64) && is_blocked_v4 (Ipv6Addr.octets (Ipv6Addr.s6 x) (Ipv6Addr.s7 x)).
Proof.
  intros (H0 & H1 & H2 & H3 & H4 & H5 & H6 & H7).
  change (drop 8 BLOCKED_V6) with ((under (0xffff * 2 ^ (0 + 32)) (96 - 0) <$> BLOCKED_V4)
    ++ (under (0x2002 * 2 ^ (80 + 32)) (96 - 80) <$> BLOCKED_V4)
    ++ (under ((0x64ff9b * 2 ^ 64) * 2 ^ (0 + 32)) (96 - 0) <$> BLOCKED_V4)).
  rewrite !existsb_app, orb_assoc. f_equal; [f_equal|].
  - assert (Ipv6Addr.to_bits x =
      (top96 x * 2 ^ 32 + (Ipv6Addr.s6 x * 65536 + Ipv6Addr.s7 x)) * 2 ^ 0 + 0) as ->.
    { unfold top96, Ipv6Addr.to_bits. ground_pow. lia. }
    by apply existsb_under.
  - unfold Ipv6Addr.segment in *. assert (Ipv6Addr.to_bits x =
      (Ipv6Addr.s0 x * 2 ^ 32 + (Ipv6Addr.s1 x * 65536 + Ipv6Addr.s2 x)) * 2 ^ 80
      + ((((Ipv6Addr.s3 x * 65536 + Ipv6Addr.s4 x) * 65536 + Ipv6Addr.s5 x) * 65536
          + Ipv6Addr.s6 x) * 65536 + Ipv6Addr.s7 x)) as ->.
    { unfold Ipv6Addr.to_bits. ground_pow. lia. }
    apply existsb_under; [done| |done|done]. ground_pow. lia.
  - assert (Ipv6Addr.to_bits x =
      (top96 x * 2 ^ 32 + (Ipv6Addr.s6 x * 65536 + Ipv6Addr.s7 x)) * 2 ^ 0 + 0) as ->.
    { unfold top96, Ipv6Addr.to_bits. ground_pow. lia. }
    by apply existsb_under.
Qed.

Lemma blocked_v6_spec x :
  Ipv6Addr.wf x →
  is_blocked_v6 x = existsb (λ n, in_cidr 128 n.1 n.2 (Ipv6Addr.to_bits x)) BLOCKED_V6.
Proof.
  intros Hwf. rewrite <-(take_drop 8 BLOCKED_V6), existsb_app, (embedded_tests x Hwf), existsb_as_map.
  destruct x as [s0 s1 s2 s3 s4 s5 s6 s7]. rewrite segment_tests by done.
  unfold is_blocked_v6, Ipv6Addr.to_ipv4_mapped, extract_6to4, extract_nat64, top96.
  destruct Hwf as (H0 & H1 & H2 & H3 & H4 & H5 & H6 & H7).
  cbn [existsb Ipv6Addr.s0 Ipv6Addr.s1 Ipv6Addr.s2 Ipv6Addr.s3 Ipv6Addr.s4 Ipv6Addr.s5 Ipv6Addr.s6 Ipv6Addr.s7] in *.
  unfold Ipv6Addr.segment in *.
  set (T := ((((s0 * 65536 + s1) * 65536 + s2) * 65536 + s3) * 65536 + s4) * 65536 + s5).
  assert ((T =? 0xffff) = ((s0 =? 0) && (s1 =? 0) && (s2 =? 0) && (s3 =? 0) && (s4 =? 0) && (s5 =? 0xffff))) as ->.
  { subst T. apply bool_iff. rewrite !andb_true_iff, !Z.eqb_eq. lia. }
  assert ((T =? 0x64ff9b * 2 ^ 64) = ((s0 =? 0x64) && (s1 =? 0xff9b) && (s2 =? 0) && (s3 =? 0) && (s4 =? 0) && (s5 =? 0))) as ->.
  { subst T. ground_pow. apply bool_iff. rewrite !andb_true_iff, !Z.eqb_eq. lia. }
  clear T H1 H2 H3 H4 H5 H6 H7.
  unfold Ipv6Addr.zeros. cbn [Ipv6Addr.s0 Ipv6Addr.s1 Ipv6Addr.s2 Ipv6Addr.s3 Ipv6Addr.s4 Ipv6Addr.s5].
  destruct (Ipv6Addr.is_unspecified _), (Ipv6Addr.is_loopback _), (Ipv6Addr.is_multicast _),
    (Ipv6Addr.is_unique_local _), (Ipv6Addr.is_unicast_link_local _); try done. simpl.
  destruct (Z.eqb_spec s0 0) as [->|]; simpl.
  - destruct (s1 =? 0), (s2 =? 0), (s3 =? 0), (s4 =? 0); simpl; try done.
    destruct (Z.eqb_spec s5 0) as [->|]; simpl; [done|]. by destruct (s5 =? 65535); simpl; rewrite ?orb_false_r.
  - destruct (Z.eqb_spec s0 0x2001) as [->|]; simpl; [by destruct (s1 =? 3512)|].
    destruct (Z.eqb_spec s0 0x100) as [->|]; simpl; [by destruct (s1 =? 0), (s2 =? 0), (s3 =? 0)|].
    destruct (Z.eqb_spec s0 0x2002) as [->|]; simpl; [by rewrite orb_false_r|].
    by destruct (_ && _).
Qed.

(** C36: the guard is a block list. Unless the operator allows private addresses, and
    then none is refused, an address is refused exactly when it lies in one of the
    listed blocks: the special-purpose v4 blocks; the loopback,
    multicast, unique-local, link-local, documentation, discard and deprecated v6
    ones; and every one of the v4 blocks again in its v4-mapped, 6to4 and NAT64
    disguise. *)
Theorem guard_is_the_block_list g ip :
  match ip with V4 x => Ipv4Addr.wf x | V6 x => Ipv6Addr.wf x end →
  guard_allow g ip = allow_private g || negb (blocked_spec ip).
Proof.
  intros Hwf. unfold guard_allow, is_blocked_ip, blocked_spec.
  destruct ip as [x|x]; [by rewrite blocked_v4_spec|by rewrite blocked_v6_spec].
Qed.

(** ** Who is dialled *)
Section Dialling.
Implicit Types (s : Race.t) (addrs : list SocketAddr.t).

Lemma interleave_perm v6 v4 : interleave v6 v4 ≡ₚ v6 ++ v4.
Proof.
  revert v4. induction v6 as [|a v6 IH]; intros [|b v4]; simpl; [done|done|by rewrite app_nil_r|].
  rewrite IH. apply perm_skip, Permutation_middle.
Qed.

Lemma interleave_v6_first_perm addrs : interleave_v6_first addrs ≡ₚ addrs.
Proof.
  unfold interleave_v6_first. rewrite interleave_perm.
  induction addrs as [|x l IH]; [done|]. cbn [List.filter].
  destruct (SocketAddr.is_ipv6 x); cbn [negb]; [by constructor|].
  rewrite <-Permutation_middle. by constructor.
Qed.

(** What is pending was started, and what was not started is next. *)
Record race_ok addrs s : Prop := {
  ok_order : Race.started s ++ Race.iter s = interleave_v6_first addrs;
  ok_pending : Race.attempts s ⊆ Race.started s;
}.

Lemma start_next_ok addrs s : race_ok addrs s → race_ok addrs (Race.start_next s).
Proof.
  intros Hok. unfold Race.start_next. destruct (Race.iter s) as [|a l] eqn:Hi; [done|].
  destruct Hok as [Ho Hp]. rewrite Hi in Ho. split; simpl.
  - by rewrite <-(assoc_L (++)).
  - intros y. rewrite !elem_of_app. intros [Hy%Hp|Hy]; auto.
Qed.

Lemma begin_ok addrs : race_ok addrs (Race.begin addrs).
Proof. apply start_next_ok. by split. Qed.

Lemma turn_ok addrs e s s' : race_ok addrs s → Race.turn e s = Some (inr s') → race_ok addrs s'.
Proof.
  intros Hok. unfold Race.turn.
  assert (match e with
    | Race.DeadlinePassed => Some (inl (match Race.first_err s with Some e => Race.Failed e | None => Race.TimedOut end))
    | Race.Staggered => Some (inr (Race.start_next s))
    | Race.Finished i outcome =>
        addr ← Race.attempts s !! i;
        match outcome with
        | None => Some (inl (Race.Connected addr))
        | Some e => Some (inr (Race.start_next {|
            Race.attempts := delete i (Race.attempts s); Race.iter := Race.iter s;
            Race.started := Race.started s;
            Race.first_err := match Race.first_err s with None => Some e | Some e' => Some e' end |}))
        end
    end = Some (inr s') → race_ok addrs s') as Hgo.
  { destruct e as [i o| |]; simpl; [|by intros [= <-]; apply start_next_ok|done].
    destruct (Race.attempts s !! i) as [a|]; simpl; [|done]. destruct o as [e|]; [|done].
    intros [= <-]. apply start_next_ok. destruct Hok as [Ho Hp]. split; simpl; [done|].
    intros y Hy%elem_of_delete_list. by apply Hp. }
  destruct (Race.attempts s), (Race.iter s); auto. done.
Qed.

Lemma turn_connected addrs e s a : race_ok addrs s → Race.turn e s = Some (inl (Race.Connected a)) → a ∈ Race.started s.
Proof.
  intros [_ Hp]. unfold Race.turn.
  destruct (Race.attempts s) as [|x l] eqn:Ha, (Race.iter s); [done|..];
    (destruct e as [i o| |]; simpl; [|done|by destruct (Race.first_err s)]);
    try done; destruct ((x :: l) !! i) as [y|] eqn:Hy; simpl; try done;
    (destruct o; [done|]); intros [= ->]; apply Hp; by eapply list_elem_of_lookup_2.
Qed.

Lemma race_run_ok addrs es s s' : race_ok addrs s → Race.run es s = Some (inr s') → race_ok addrs s'.
Proof.
  revert s. induction es as [|e es IH]; simpl; intros s Hok; [by intros [= <-]|].
  destruct (Race.turn e s) as [[a|s1]|] eqn:Ht; simpl; [by destruct es| |done].
  apply IH. by eapply turn_ok.
Qed.

Lemma race_run_connected addrs es s a :
  race_ok addrs s → Race.run es s = Some (inl (Race.Connected a)) → a ∈ addrs.
Proof.
  revert s. induction es as [|e es IH]; simpl; intros s Hok; [done|].
  destruct (Race.turn e s) as [[r|s1]|] eqn:Ht; simpl; [| |done].
  - destruct es; [|done]. intros [= ->]. apply (turn_connected addrs) in Ht; [|done].
    rewrite <-interleave_v6_first_perm, <-(ok_order _ _ Hok). set_solver.
  - apply IH. by eapply turn_ok.
Qed.

Lemma turn_failed e s m :
  Race.turn e s = Some (inl (Race.Failed m)) → e ≠ Race.DeadlinePassed →
  Race.attempts s = [] ∧ Race.iter s = [].
Proof.
  unfold Race.turn. intros Ht He. destruct (Race.attempts s) as [|x l] eqn:Ha, (Race.iter s); [done|..];
    (destruct e as [i o| |]; simpl in Ht; [|done..]);
    try done; destruct ((x :: l) !! i); simpl in Ht; try done; by destruct o.
Qed.

Definition reachable_address (sa : SocketAddr.t) : bool := negb (is_blocked_ip (SocketAddr.ip sa)).

Lemma dialled_strict host resolved :
  dialled strict host resolved =
    match List.filter reachable_address resolved with
    | [] => inl (Refused host) | addrs => inr addrs end.
Proof.
  unfold dialled, guard_filter. cbn [strict allow_private].
  set (kept := List.filter (λ ip, negb (is_blocked_ip ip)) (SocketAddr.ip <$> resolved)).
  assert (List.filter (λ sa, bool_decide (SocketAddr.ip sa ∈ kept)) resolved
    = List.filter reachable_address resolved) as Hsame.
  { apply List.filter_ext_in. intros sa Hin%list_elem_of_In. apply bool_iff.
    rewrite bool_decide_eq_true. unfold kept, reachable_address.
    rewrite list_elem_of_In, filter_In, <-list_elem_of_In. split; [by intros [_ ?]|].
    intros ?. split; [by apply list_elem_of_fmap_2|done]. }
  assert (kept = SocketAddr.ip <$> List.filter reachable_address resolved) as Hkept.
  { unfold kept, reachable_address. clear. induction resolved as [|x l IH]; [done|]. csimpl.
    destruct (is_blocked_ip (SocketAddr.ip x)); csimpl; by rewrite IH. }
  clearbody kept. destruct kept as [|ip l];
    [|cbn beta iota; rewrite Hsame]; by destruct (List.filter reachable_address resolved).
Qed.
End Dialling.

Lemma filter_none {A} (p : A → bool) (l : list A) : List.filter p l = [] ↔ ∀ x, x ∈ l → p x = false.
Proof.
  induction l as [|x l IH]; simpl; [by split; [intros _ ? ?%elem_of_nil|]|].
  destruct (p x) eqn:Hx; split.
  - done.
  - intros Hno. by rewrite Hno in Hx by constructor.
  - intros Hnil y [-> |Hy]%elem_of_cons; [done|]. by apply IH.
  - intros Hno. apply IH. intros y Hy. apply Hno. by right.
Qed.

(** C37: a request to a host reaches no blocked address. The strict guard refuses the
    host exactly when everything it resolved to is blocked; otherwise every state
    of the connect race has started only addresses the resolver gave and the
    guard lets through, none more often than it was resolved and none of those left
    out of the race, and what it connects to is one of them, whatever order the
    attempts end in. *)
Theorem no_blocked_address_is_dialled host resolved es :
  (dialled strict host resolved = inl (Refused host) ↔ ∀ a, a ∈ resolved → is_blocked_ip (SocketAddr.ip a) = true) ∧
  match dialled strict host resolved with
  | inl e => e = Refused host
  | inr addrs =>
      (∀ s, Race.run es (Race.begin addrs) = Some (inr s) →
         Race.started s ++ Race.iter s ≡ₚ List.filter reachable_address resolved) ∧
      (∀ a, Race.run es (Race.begin addrs) = Some (inl (Race.Connected a)) →
         a ∈ resolved ∧ is_blocked_ip (SocketAddr.ip a) = false)
  end.
Proof.
  rewrite !dialled_strict. split.
  - trans (List.filter reachable_address resolved = []); [by destruct (List.filter _ _)|]. rewrite filter_none.
    unfold reachable_address. by setoid_rewrite negb_false_iff.
  - destruct (List.filter reachable_address resolved) as [|addr rest] eqn:Hfilter; [done|]. rewrite <-Hfilter. split.
    + intros s Hrun%(race_run_ok (List.filter reachable_address resolved)); [|apply begin_ok].
      by rewrite (ok_order _ _ Hrun), interleave_v6_first_perm.
    + intros a Hrun%(race_run_connected (List.filter reachable_address resolved)); [|apply begin_ok].
      apply list_elem_of_In, filter_In in Hrun as [Hin Ha]. split; [by apply list_elem_of_In|by apply negb_true_iff].
Qed.

(** The race gives up early only when nothing is left. An error that is not the
    deadline's is returned only once every address has been tried and every
    attempt has failed. *)
Theorem race_tries_every_address addrs es s e m :
  Race.run es (Race.begin addrs) = Some (inr s) →
  Race.turn e s = Some (inl (Race.Failed m)) → e ≠ Race.DeadlinePassed →
  Race.started s ≡ₚ addrs ∧ Race.attempts s = [].
Proof.
  intros Hrun%(race_run_ok addrs) Ht He; [|apply begin_ok]. destruct (turn_failed _ _ _ Ht He) as [Ha Hi].
  split; [|done]. by rewrite <-(interleave_v6_first_perm addrs), <-(ok_order _ _ Hrun), Hi, app_nil_r.
Qed.

Module SsrfSample.
Definition public : IpAddr := V4 {| Ipv4Addr.a := 93; Ipv4Addr.b := 184; Ipv4Addr.c := 216; Ipv4Addr.d := 34 |}.
Definition metadata : IpAddr := V4 {| Ipv4Addr.a := 169; Ipv4Addr.b := 254; Ipv4Addr.c := 169; Ipv4Addr.d := 254 |}.
Definition mapped : IpAddr := V6 {| Ipv6Addr.s0 := 0x2002; Ipv6Addr.s1 := 0x7f00; Ipv6Addr.s2 := 1; Ipv6Addr.s3 := 0;
  Ipv6Addr.s4 := 0; Ipv6Addr.s5 := 0; Ipv6Addr.s6 := 0; Ipv6Addr.s7 := 1 |}.
Definition https (ip : IpAddr) : SocketAddr.t := {| SocketAddr.ip := ip; SocketAddr.port := 443 |}.
Definition rebound : list SocketAddr.t := https <$> [metadata; public; mapped].

Lemma guard_is_the_block_list_witness :
  guard_allow strict mapped = allow_private strict || negb (blocked_spec mapped) ∧
  guard_allow strict mapped = false.
Proof. split; [|by vm_compute]. apply (guard_is_the_block_list strict mapped). by vm_compute. Defined.

Lemma no_blocked_address_is_dialled_witness :
  Race.run [Race.Finished 0 None] (Race.begin [https public]) = Some (inl (Race.Connected (https public))) ∧
  is_blocked_ip public = false.
Proof.
  split; [by vm_compute|].
  destruct (no_blocked_address_is_dialled "rebound.example" rebound [Race.Finished 0 None]) as [_ [_ Hc]].
  apply (Hc (https public)). by vm_compute.
Defined.

Lemma race_tries_every_address_witness :
  [https public] ≡ₚ [https public] ∧ (@nil SocketAddr.t) = [].
Proof.
  eapply (race_tries_every_address [https public] [Race.Finished 0 (Some "refused")]
    {| Race.attempts := []; Race.iter := []; Race.started := [https public]; Race.first_err := Some "refused" |}
    Race.Staggered "refused"); by vm_compute.
Defined.
End SsrfSample.
