(* ===== verification/Domain.v ===== *)
(** * The vocabulary of checks and incidents

    The enumerations of src/domain (result.rs, public.rs, incident.rs,
    escalation_policy.rs, notification_channel/mod.rs), each in a module named
    after the Rust type, with the strings it is stored under. An enumeration
    that is stored as a database string is an instance of [DbEnum]; the law
    class [DbEnumLaws] is what the stores rely on: decoding what was encoded
    gives the value back, and [ALL] lists every variant once. *)

From S2P Require Import Prelude.

(** ** Enumerations stored as strings *)
Class DbEnum (E : Type) := {
  ALL : list E;
  as_db_str : E → string;
  from_db_str : string → E;
}.

Class DbEnumLaws (E : Type) `{DbEnum E} := {
  db_roundtrip : ∀ e, from_db_str (as_db_str e) = e;
  ALL_complete : ∀ e, e ∈ ALL;
  ALL_nodup : NoDup (ALL (E := E));
}.

Ltac db_enum_laws :=
  split; [intros []; reflexivity | intros []; cbn; set_solver | cbn; repeat constructor; set_solver].

(** ** src/domain/result.rs *)
Module CheckStatus.
Inductive t := Up | Down | Degraded | Error.
#[global] Instance eq_dec : EqDecision t.
Proof. solve_decision. Defined.

Definition as_str (s : t) : string :=
  match s with Up => "up" | Down => "down" | Degraded => "degraded" | Error => "error" end.

Definition as_enum8 (s : t) : Z :=
  match s with Up => 1 | Down => 2 | Degraded => 3 | Error => 4 end.

Definition from_enum8 (v : Z) : t :=
  if v =? 1 then Up else if v =? 2 then Down else if v =? 3 then Degraded else Error.

Definition from_label (s : string) : option t :=
  if String.eqb s "up" then Some Up
  else if String.eqb s "down" then Some Down
  else if String.eqb s "degraded" then Some Degraded
  else if String.eqb s "error" then Some Error
  else None.

Definition is_bad (s : t) : bool :=
  match s with Down | Error | Degraded => true | Up => false end.

Definition severity_rank (s : t) : Z :=
  match s with Up => 0 | Degraded => 1 | Error => 2 | Down => 3 end.
End CheckStatus.

Module DiagnosticRemediation.
Inductive t :=
| UseAuthenticatedHealthEndpoint
| AllowMonitorThroughEdgeRules
| VerifyOriginReachable
| VerifyEdgeTunnel.
#[global] Instance eq_dec : EqDecision t.
Proof. solve_decision. Defined.

Definition as_str (r : t) : string :=
  match r with
  | UseAuthenticatedHealthEndpoint => "use_authenticated_health_endpoint"
  | AllowMonitorThroughEdgeRules => "allow_monitor_through_edge_rules"
  | VerifyOriginReachable => "verify_origin_reachable"
  | VerifyEdgeTunnel => "verify_edge_tunnel"
  end.
End DiagnosticRemediation.

Module DiagnosticEvidence.
Inductive t :=
| ChallengeHeader | EdgeServer | BlockPage | ReferenceId | OriginErrorCode
| MitigationHeader.
#[global] Instance eq_dec : EqDecision t.
Proof. solve_decision. Defined.

Definition as_str (e : t) : string :=
  match e with
  | ChallengeHeader => "challenge_header"
  | EdgeServer => "edge_server"
  | BlockPage => "block_page"
  | ReferenceId => "reference_id"
  | OriginErrorCode => "origin_error_code"
  | MitigationHeader => "mitigation_header"
  end.

Definition parse (raw : string) : option t :=
  if String.eqb raw "challenge_header" then Some ChallengeHeader
  else if String.eqb raw "edge_server" then Some EdgeServer
  else if String.eqb raw "block_page" then Some BlockPage
  else if String.eqb raw "reference_id" then Some ReferenceId
  else if String.eqb raw "origin_error_code" then Some OriginErrorCode
  else if String.eqb raw "mitigation_header" then Some MitigationHeader
  else None.
End DiagnosticEvidence.

Module EdgeProvider.
Inductive t := Akamai | AwsWaf | Cloudflare | AzureFrontDoor | DataDome | Vercel.
#[global] Instance eq_dec : EqDecision t.
Proof. solve_decision. Defined.

Definition as_str (p : t) : string :=
  match p with
  | Akamai => "akamai"
  | AwsWaf => "aws_waf"
  | Cloudflare => "cloudflare"
  | AzureFrontDoor => "azure_front_door"
  | DataDome => "data_dome"
  | Vercel => "vercel"
  end.

Definition label (p : t) : string :=
  match p with
  | Akamai => "the Akamai edge"
  | AwsWaf => "AWS WAF"
  | Cloudflare => "the Cloudflare edge"
  | AzureFrontDoor => "Azure Front Door"
  | DataDome => "DataDome"
  | Vercel => "the Vercel edge"
  end.

Definition parse (raw : string) : option t :=
  if String.eqb raw "akamai" then Some Akamai
  else if String.eqb raw "aws_waf" then Some AwsWaf
  else if String.eqb raw "cloudflare" then Some Cloudflare
  else if String.eqb raw "azure_front_door" then Some AzureFrontDoor
  else if String.eqb raw "data_dome" then Some DataDome
  else if String.eqb raw "vercel" then Some Vercel
  else None.
End EdgeProvider.

Module DiagnosticConfidence.
Inductive t := High | Medium.
#[global] Instance eq_dec : EqDecision t.
Proof. solve_decision. Defined.

Definition as_str (c : t) : string := match c with High => "high" | Medium => "medium" end.
Definition parse (raw : string) : option t :=
  if String.eqb raw "high" then Some High
  else if String.eqb raw "medium" then Some Medium
  else None.
End DiagnosticConfidence.

Module CheckDiagnosticKind.
Inductive t := AccessInterference | OriginUnreachable | OriginTunnelDown.
#[global] Instance eq_dec : EqDecision t.
Proof. solve_decision. Defined.

Definition as_str (k : t) : string :=
  match k with
  | AccessInterference => "access_interference"
  | OriginUnreachable => "origin_unreachable"
  | OriginTunnelDown => "origin_tunnel_down"
  end.

Definition parse (raw : string) : option t :=
  if String.eqb raw "access_interference" then Some AccessInterference
  else if String.eqb raw "origin_unreachable" then Some OriginUnreachable
  else if String.eqb raw "origin_tunnel_down" then Some OriginTunnelDown
  else None.

Definition joiner (k : t) : string :=
  match k with
  | AccessInterference => "at"
  | OriginUnreachable | OriginTunnelDown => "behind"
  end.

Definition remediations (k : t) : list DiagnosticRemediation.t :=
  match k with
  | AccessInterference =>
      [DiagnosticRemediation.UseAuthenticatedHealthEndpoint;
       DiagnosticRemediation.AllowMonitorThroughEdgeRules]
  | OriginUnreachable => [DiagnosticRemediation.VerifyOriginReachable]
  | OriginTunnelDown =>
      [DiagnosticRemediation.VerifyEdgeTunnel; DiagnosticRemediation.VerifyOriginReachable]
  end.
End CheckDiagnosticKind.

Module CheckDiagnostic.
Record t := {
  kind : CheckDiagnosticKind.t;
  confidence : DiagnosticConfidence.t;
  provider : option EdgeProvider.t;
  evidence : list DiagnosticEvidence.t;
  remediations : list DiagnosticRemediation.t;
}.
#[global] Instance eq_dec : EqDecision t.
Proof. solve_decision. Defined.

(** The wire form carries no remediations: they re-derive from the kind. *)
Record Wire := {
  wire_kind : CheckDiagnosticKind.t;
  wire_confidence : DiagnosticConfidence.t;
  wire_provider : option EdgeProvider.t;
  wire_evidence : list string;
}.

Definition known_evidence (raw : list string) : list DiagnosticEvidence.t :=
  omap DiagnosticEvidence.parse raw.

Definition from_wire (w : Wire) : t := {|
  kind := wire_kind w;
  confidence := wire_confidence w;
  provider := wire_provider w;
  evidence := known_evidence (wire_evidence w);
  remediations := CheckDiagnosticKind.remediations (wire_kind w);
|}.

Definition to_wire (d : t) : Wire := {|
  wire_kind := kind d;
  wire_confidence := confidence d;
  wire_provider := provider d;
  wire_evidence := DiagnosticEvidence.as_str <$> evidence d;
|}.

Definition access_interference (c : DiagnosticConfidence.t) (p : option EdgeProvider.t)
    (ev : list DiagnosticEvidence.t) : t := {|
  kind := CheckDiagnosticKind.AccessInterference;
  confidence := c;
  provider := p;
  evidence := ev;
  remediations := CheckDiagnosticKind.remediations CheckDiagnosticKind.AccessInterference;
|}.

Definition origin_unreachable (ev : list DiagnosticEvidence.t) (tunnel : bool) : t :=
  let k := if tunnel then CheckDiagnosticKind.OriginTunnelDown
           else CheckDiagnosticKind.OriginUnreachable in {|
  kind := k;
  confidence := DiagnosticConfidence.High;
  provider := Some EdgeProvider.Cloudflare;
  evidence := ev;
  remediations := CheckDiagnosticKind.remediations k;
|}.

Definition summary (d : t) : string :=
  let certainty :=
    match kind d, confidence d with
    | CheckDiagnosticKind.AccessInterference, DiagnosticConfidence.High =>
        "access-policy block detected"
    | CheckDiagnosticKind.AccessInterference, DiagnosticConfidence.Medium =>
        "possible access-policy block"
    | CheckDiagnosticKind.OriginUnreachable, _ => "origin unreachable"
    | CheckDiagnosticKind.OriginTunnelDown, _ => "origin tunnel down"
    end in
  match provider d with
  | Some p => certainty +:+ " " +:+ CheckDiagnosticKind.joiner (kind d) +:+ " "
              +:+ EdgeProvider.label p
  | None => certainty
  end.

Definition guidance (d : t) : string :=
  match kind d with
  | CheckDiagnosticKind.AccessInterference =>
      "use an authenticated health endpoint, or allow this monitor through the edge's access rules"
  | CheckDiagnosticKind.OriginUnreachable =>
      "check the origin is up and reachable from the edge"
  | CheckDiagnosticKind.OriginTunnelDown =>
      "restart the tunnel daemon on the origin, then check the origin is up"
  end.
End CheckDiagnostic.

Module CheckResult.
Record t := {
  target_id : Uuid;
  org_id : Uuid;
  timestamp : DateTime;
  status : CheckStatus.t;
  duration_ms : Z;
  dns_ms : option Z;
  connect_ms : option Z;
  tls_ms : option Z;
  ttfb_ms : option Z;
  response_code : option Z;
  response_size : option Z;
  diagnostic : option CheckDiagnostic.t;
  error : option string;
}.
#[global] Instance eq_dec : EqDecision t.
Proof. solve_decision. Defined.

Definition SERVED_STALE_PREFIX : string := "served_stale:".

Definition error_with_elapsed (target org : Uuid) (ts : DateTime) (elapsed : Z)
    (reason : string) : t := {|
  target_id := target; org_id := org; timestamp := ts; status := CheckStatus.Error;
  duration_ms := elapsed; dns_ms := None; connect_ms := None; tls_ms := None;
  ttfb_ms := None; response_code := None; response_size := None; diagnostic := None;
  error := Some reason;
|}.

Definition is_served_stale (r : t) : bool :=
  is_some_and (String.prefix SERVED_STALE_PREFIX) (error r).
End CheckResult.

(** ** src/domain/public.rs *)
Module IncidentSeverity.
Inductive t := Minor | Major | Critical.
#[global] Instance eq_dec : EqDecision t.
Proof. solve_decision. Defined.

Definition ALL : list t :=
  [Minor; Major; Critical].

Definition as_db_str (x : t) : string :=
  match x with
  | Minor => "minor"
  | Major => "major"
  | Critical => "critical"
  end.

Definition from_db_str (s : string) : t :=
  if String.eqb s "minor" then Minor
  else if String.eqb s "critical" then Critical
  else Major.

#[global] Instance db_enum : DbEnum t :=
  {| Domain.ALL := ALL; Domain.as_db_str := as_db_str; Domain.from_db_str := from_db_str |}.
#[global] Instance db_enum_laws : DbEnumLaws t.
Proof. db_enum_laws. Qed.
End IncidentSeverity.

Module IncidentStatusPhase.
Inductive t := Investigating | Identified | Monitoring | Resolved | Postmortem.
#[global] Instance eq_dec : EqDecision t.
Proof. solve_decision. Defined.

Definition ALL : list t :=
  [Investigating; Identified; Monitoring; Resolved; Postmortem].

Definition as_db_str (x : t) : string :=
  match x with
  | Investigating => "investigating"
  | Identified => "identified"
  | Monitoring => "monitoring"
  | Resolved => "resolved"
  | Postmortem => "postmortem"
  end.

Definition from_db_str (s : string) : t :=
  if String.eqb s "identified" then Identified
  else if String.eqb s "monitoring" then Monitoring
  else if String.eqb s "resolved" then Resolved
  else if String.eqb s "postmortem" then Postmortem
  else Investigating.

#[global] Instance db_enum : DbEnum t :=
  {| Domain.ALL := ALL; Domain.as_db_str := as_db_str; Domain.from_db_str := from_db_str |}.
#[global] Instance db_enum_laws : DbEnumLaws t.
Proof. db_enum_laws. Qed.
End IncidentStatusPhase.

(** ** src/domain/incident.rs *)
Module IncidentState.
Inductive t := Triggered | Acknowledged | Resolved.
#[global] Instance eq_dec : EqDecision t.
Proof. solve_decision. Defined.

Definition ALL : list t :=
  [Triggered; Acknowledged; Resolved].

Definition as_db_str (x : t) : string :=
  match x with
  | Triggered => "triggered"
  | Acknowledged => "acknowledged"
  | Resolved => "resolved"
  end.

Definition from_db_str (s : string) : t :=
  if String.eqb s "acknowledged" then Acknowledged
  else if String.eqb s "resolved" then Resolved
  else Triggered.

#[global] Instance db_enum : DbEnum t :=
  {| Domain.ALL := ALL; Domain.as_db_str := as_db_str; Domain.from_db_str := from_db_str |}.
#[global] Instance db_enum_laws : DbEnumLaws t.
Proof. db_enum_laws. Qed.
End IncidentState.

Module IncidentUrgency.
Inductive t := High | Low.
#[global] Instance eq_dec : EqDecision t.
Proof. solve_decision. Defined.

Definition ALL : list t :=
  [High; Low].

Definition as_db_str (x : t) : string :=
  match x with
  | High => "high"
  | Low => "low"
  end.

Definition from_db_str (s : string) : t :=
  if String.eqb s "low" then Low
  else High.

#[global] Instance db_enum : DbEnum t :=
  {| Domain.ALL := ALL; Domain.as_db_str := as_db_str; Domain.from_db_str := from_db_str |}.
#[global] Instance db_enum_laws : DbEnumLaws t.
Proof. db_enum_laws. Qed.
End IncidentUrgency.

Module IncidentOrigin.
Inductive t := Monitor | Manual.
#[global] Instance eq_dec : EqDecision t.
Proof. solve_decision. Defined.

Definition ALL : list t :=
  [Monitor; Manual].

Definition as_db_str (x : t) : string :=
  match x with
  | Monitor => "monitor"
  | Manual => "manual"
  end.

Definition from_db_str (s : string) : t :=
  if String.eqb s "manual" then Manual
  else Monitor.

#[global] Instance db_enum : DbEnum t :=
  {| Domain.ALL := ALL; Domain.as_db_str := as_db_str; Domain.from_db_str := from_db_str |}.
#[global] Instance db_enum_laws : DbEnumLaws t.
Proof. db_enum_laws. Qed.
End IncidentOrigin.

Module IncidentVisibility.
Inductive t := Internal | Public.
#[global] Instance eq_dec : EqDecision t.
Proof. solve_decision. Defined.

Definition ALL : list t :=
  [Internal; Public].

Definition as_db_str (x : t) : string :=
  match x with
  | Internal => "internal"
  | Public => "public"
  end.

Definition from_db_str (s : string) : t :=
  if String.eqb s "public" then Public
  else Internal.

#[global] Instance db_enum : DbEnum t :=
  {| Domain.ALL := ALL; Domain.as_db_str := as_db_str; Domain.from_db_str := from_db_str |}.
#[global] Instance db_enum_laws : DbEnumLaws t.
Proof. db_enum_laws. Qed.
End IncidentVisibility.

Module ActorType.
Inductive t := System | User | Mcp | Link.
#[global] Instance eq_dec : EqDecision t.
Proof. solve_decision. Defined.

Definition ALL : list t :=
  [System; User; Mcp; Link].

Definition as_db_str (x : t) : string :=
  match x with
  | System => "system"
  | User => "user"
  | Mcp => "mcp"
  | Link => "link"
  end.

Definition from_db_str (s : string) : t :=
  if String.eqb s "user" then User
  else if String.eqb s "mcp" then Mcp
  else if String.eqb s "link" then Link
  else System.

#[global] Instance db_enum : DbEnum t :=
  {| Domain.ALL := ALL; Domain.as_db_str := as_db_str; Domain.from_db_str := from_db_str |}.
#[global] Instance db_enum_laws : DbEnumLaws t.
Proof. db_enum_laws. Qed.
End ActorType.

Module IncidentEventKind.
Inductive t := Triggered | Acknowledged | Assigned | Unassigned | Escalated | Notified | Note | SeverityChanged | DowntimeChanged | StateChanged | Resolved | Reopened | Published | Unpublished | PostmortemPublished | PostmortemUnpublished.
#[global] Instance eq_dec : EqDecision t.
Proof. solve_decision. Defined.

Definition ALL : list t :=
  [Triggered; Acknowledged; Assigned; Unassigned; Escalated; Notified; Note; SeverityChanged; DowntimeChanged; StateChanged; Resolved; Reopened; Published; Unpublished; PostmortemPublished; PostmortemUnpublished].

Definition as_db_str (x : t) : string :=
  match x with
  | Triggered => "triggered"
  | Acknowledged => "acknowledged"
  | Assigned => "assigned"
  | Unassigned => "unassigned"
  | Escalated => "escalated"
  | Notified => "notified"
  | Note => "note"
  | SeverityChanged => "severity_changed"
  | DowntimeChanged => "downtime_changed"
  | StateChanged => "state_changed"
  | Resolved => "resolved"
  | Reopened => "reopened"
  | Published => "published"
  | Unpublished => "unpublished"
  | PostmortemPublished => "postmortem_published"
  | PostmortemUnpublished => "postmortem_unpublished"
  end.

Definition from_db_str (s : string) : t :=
  if String.eqb s "triggered" then Triggered
  else if String.eqb s "acknowledged" then Acknowledged
  else if String.eqb s "assigned" then Assigned
  else if String.eqb s "unassigned" then Unassigned
  else if String.eqb s "escalated" then Escalated
  else if String.eqb s "notified" then Notified
  else if String.eqb s "severity_changed" then SeverityChanged
  else if String.eqb s "downtime_changed" then DowntimeChanged
  else if String.eqb s "state_changed" then StateChanged
  else if String.eqb s "resolved" then Resolved
  else if String.eqb s "reopened" then Reopened
  else if String.eqb s "published" then Published
  else if String.eqb s "unpublished" then Unpublished
  else if String.eqb s "postmortem_published" then PostmortemPublished
  else if String.eqb s "postmortem_unpublished" then PostmortemUnpublished
  else Note.

#[global] Instance db_enum : DbEnum t :=
  {| Domain.ALL := ALL; Domain.as_db_str := as_db_str; Domain.from_db_str := from_db_str |}.
#[global] Instance db_enum_laws : DbEnumLaws t.
Proof. db_enum_laws. Qed.
End IncidentEventKind.

Module NotificationStatus.
Inductive t := Queued | Sent | Failed | Suppressed.
#[global] Instance eq_dec : EqDecision t.
Proof. solve_decision. Defined.

Definition ALL : list t :=
  [Queued; Sent; Failed; Suppressed].

Definition as_db_str (x : t) : string :=
  match x with
  | Queued => "queued"
  | Sent => "sent"
  | Failed => "failed"
  | Suppressed => "suppressed"
  end.

Definition from_db_str (s : string) : t :=
  if String.eqb s "sent" then Sent
  else if String.eqb s "failed" then Failed
  else if String.eqb s "suppressed" then Suppressed
  else Queued.

#[global] Instance db_enum : DbEnum t :=
  {| Domain.ALL := ALL; Domain.as_db_str := as_db_str; Domain.from_db_str := from_db_str |}.
#[global] Instance db_enum_laws : DbEnumLaws t.
Proof. db_enum_laws. Qed.
End NotificationStatus.

Module NotificationReason.
Inductive t := Opened | Escalated | Resolved | Reopened | NoData | DataResumed | Reminder.
#[global] Instance eq_dec : EqDecision t.
Proof. solve_decision. Defined.

Definition ALL : list t :=
  [Opened; Escalated; Resolved; Reopened; NoData; DataResumed; Reminder].

Definition as_db_str (x : t) : string :=
  match x with
  | Opened => "opened"
  | Escalated => "escalated"
  | Resolved => "resolved"
  | Reopened => "reopened"
  | NoData => "no_data"
  | DataResumed => "data_resumed"
  | Reminder => "reminder"
  end.

Definition from_db_str (s : string) : t :=
  if String.eqb s "escalated" then Escalated
  else if String.eqb s "resolved" then Resolved
  else if String.eqb s "reopened" then Reopened
  else if String.eqb s "no_data" then NoData
  else if String.eqb s "data_resumed" then DataResumed
  else if String.eqb s "reminder" then Reminder
  else Opened.

#[global] Instance db_enum : DbEnum t :=
  {| Domain.ALL := ALL; Domain.as_db_str := as_db_str; Domain.from_db_str := from_db_str |}.
#[global] Instance db_enum_laws : DbEnumLaws t.
Proof. db_enum_laws. Qed.
End NotificationReason.

(** ** src/domain/escalation_policy.rs *)
Module EscalationTargetType.
Inductive t := User | Schedule | Channel.
#[global] Instance eq_dec : EqDecision t.
Proof. solve_decision. Defined.

Definition ALL : list t :=
  [User; Schedule; Channel].

Definition as_db_str (x : t) : string :=
  match x with
  | User => "user"
  | Schedule => "schedule"
  | Channel => "channel"
  end.

Definition from_db_str (s : string) : t :=
  if String.eqb s "user" then User
  else if String.eqb s "schedule" then Schedule
  else Channel.

#[global] Instance db_enum : DbEnum t :=
  {| Domain.ALL := ALL; Domain.as_db_str := as_db_str; Domain.from_db_str := from_db_str |}.
#[global] Instance db_enum_laws : DbEnumLaws t.
Proof. db_enum_laws. Qed.
End EscalationTargetType.

(** ** src/domain/on_call.rs *)
Module RotationType.
Inductive t := Daily | Weekly | Custom.
#[global] Instance eq_dec : EqDecision t.
Proof. solve_decision. Defined.

Definition ALL : list t :=
  [Daily; Weekly; Custom].

Definition as_db_str (x : t) : string :=
  match x with
  | Daily => "daily"
  | Weekly => "weekly"
  | Custom => "custom"
  end.

Definition from_db_str (s : string) : t :=
  if String.eqb s "daily" then Daily
  else if String.eqb s "weekly" then Weekly
  else Custom.

#[global] Instance db_enum : DbEnum t :=
  {| Domain.ALL := ALL; Domain.as_db_str := as_db_str; Domain.from_db_str := from_db_str |}.
#[global] Instance db_enum_laws : DbEnumLaws t.
Proof. db_enum_laws. Qed.
End RotationType.

(** ** The stored strings are faithful *)

(** What a reader of the database relies on: decoding inverts encoding, two
    variants never share a string, a decoded string (known or not) is one of
    the listed variants, and the list repeats nothing. *)
Definition db_faithful (E : Type) `{DbEnum E} : Prop :=
  (∀ e : E, from_db_str (as_db_str e) = e) ∧
  (∀ e1 e2 : E, as_db_str e1 = as_db_str e2 → e1 = e2) ∧
  (∀ s, (from_db_str s : E) ∈ ALL) ∧
  NoDup (as_db_str <$> (ALL : list E)).

Section DbEnumFacts.
Context {E : Type} `{DbEnumLaws E}.

#[global] Instance as_db_str_inj : Inj (=) (=) (as_db_str : E → string).
Proof. intros e1 e2 He. rewrite <-(db_roundtrip e1), He. apply db_roundtrip. Qed.

Lemma db_enum_faithful : db_faithful E.
Proof.
  split_and!.
  - apply db_roundtrip.
  - apply as_db_str_inj.
  - intros s. apply ALL_complete.
  - apply NoDup_fmap_2; [apply _ | apply ALL_nodup].
Qed.
End DbEnumFacts.

#[export] Hint Resolve db_enum_faithful : uptime.

Lemma evidence_parse_as_str e : DiagnosticEvidence.parse (DiagnosticEvidence.as_str e) = Some e.
Proof. by destruct e. Qed.

Lemma provider_parse_as_str p : EdgeProvider.parse (EdgeProvider.as_str p) = Some p.
Proof. by destruct p. Qed.

Lemma confidence_parse_as_str c : DiagnosticConfidence.parse (DiagnosticConfidence.as_str c) = Some c.
Proof. by destruct c. Qed.

Lemma kind_parse_as_str k : CheckDiagnosticKind.parse (CheckDiagnosticKind.as_str k) = Some k.
Proof. by destruct k. Qed.

Lemma known_evidence_as_str ev :
  CheckDiagnostic.known_evidence (DiagnosticEvidence.as_str <$> ev) = ev.
Proof.
  unfold CheckDiagnostic.known_evidence.
  induction ev as [|e ev IH]; csimpl; [done|]. by rewrite evidence_parse_as_str, IH.
Qed.

(** A status code the column was not written with reads as [Error], never as
    healthy: only 1 decodes to [Up]. *)
Lemma from_enum8_up v : CheckStatus.from_enum8 v = CheckStatus.Up ↔ v = 1.
Proof. unfold CheckStatus.from_enum8. cases; by split; [lia|]. Qed.

(** Every enumeration kept in the database as a string is read back as the
    variant that was written; distinct variants have distinct strings, an
    unknown string still decodes to a listed variant, and [ALL] has no
    repetition. *)
Theorem db_strings_faithful :
  db_faithful IncidentSeverity.t ∧ db_faithful IncidentStatusPhase.t ∧
  db_faithful IncidentState.t ∧ db_faithful IncidentUrgency.t ∧
  db_faithful IncidentOrigin.t ∧ db_faithful IncidentVisibility.t ∧
  db_faithful ActorType.t ∧ db_faithful IncidentEventKind.t ∧
  db_faithful NotificationStatus.t ∧ db_faithful NotificationReason.t ∧
  db_faithful EscalationTargetType.t ∧ db_faithful RotationType.t.
Proof. split_and!; apply db_enum_faithful. Qed.

(** A check diagnostic survives the wire exactly when its remediations are
    the ones its kind derives, whatever evidence it carries; evidence a newer
    peer names and this build does not know is dropped without losing the
    rest. *)
Theorem diagnostic_wire_roundtrip (d : CheckDiagnostic.t) (unknown : string) :
  (CheckDiagnostic.from_wire (CheckDiagnostic.to_wire d) = d ↔
   CheckDiagnostic.remediations d
     = CheckDiagnosticKind.remediations (CheckDiagnostic.kind d)) ∧
  (DiagnosticEvidence.parse unknown = None →
   CheckDiagnostic.known_evidence
     (unknown :: (DiagnosticEvidence.as_str <$> CheckDiagnostic.evidence d))
   = CheckDiagnostic.evidence d).
Proof.
  split.
  - destruct d as [k c p ev r]. unfold CheckDiagnostic.from_wire, CheckDiagnostic.to_wire.
    simpl. rewrite known_evidence_as_str. split; [congruence|]. by intros ->.
  - intros Hu. unfold CheckDiagnostic.known_evidence. csimpl. rewrite Hu.
    apply known_evidence_as_str.
Qed.

Lemma diagnostic_wire_roundtrip_witness :
  DiagnosticEvidence.parse "tls_fingerprint" = None ∧
  CheckDiagnostic.known_evidence
    ("tls_fingerprint" :: (DiagnosticEvidence.as_str <$>
       [DiagnosticEvidence.BlockPage; DiagnosticEvidence.ReferenceId]))
  = [DiagnosticEvidence.BlockPage; DiagnosticEvidence.ReferenceId].
Proof.
  split; [reflexivity|].
  apply (diagnostic_wire_roundtrip
    (CheckDiagnostic.access_interference DiagnosticConfidence.High None
       [DiagnosticEvidence.BlockPage; DiagnosticEvidence.ReferenceId]) "tls_fingerprint").
  reflexivity.
Defined.
