(* ===== verification/Breaker.v ===== *)
(** * The circuit breaker of a host

    src/worker/circuit_breaker.rs and [CircuitBreakerConfig] of
    src/config/runtime.rs. A breaker counts the failed checks of one host, opens
    after a run of them, lets a few calls through once its cooldown is over
    (half-open) and closes again on enough successes.

    The counters are [AtomicU32]s and keep their width: [fetch_add] and
    [fetch_sub] wrap. One call of [allow] or [record] is one step; the calls of
    different tasks interleave freely between steps, which is what a trace of
    [event]s stands for. The compare-and-swap loop of [try_admit_half_open]
    retries only when another thread wins the same slot, so as a step it is its
    last iteration. [now] is [Utc::now().timestamp()], in seconds. The
    transition counter of the metrics is kept as the log [transitions]. *)

From S2P Require Import Prelude Domain.

(** ** src/config/runtime.rs *)
Module CircuitBreakerConfig.
Record t := {
  failure_threshold : Z;
  success_threshold : Z;
  open_duration_secs : Z;
  half_open_max_calls : Z;
}.

(** The widths of the fields: [u32] but for the [u64] duration. *)
Definition in_width (c : t) : Prop :=
  0 ≤ failure_threshold c ≤ U32_MAX ∧ 0 ≤ success_threshold c ≤ U32_MAX ∧
  0 ≤ open_duration_secs c ≤ U64_MAX ∧ 0 ≤ half_open_max_calls c ≤ U32_MAX.
End CircuitBreakerConfig.
Import CircuitBreakerConfig.

(** ** src/worker/circuit_breaker.rs *)
Module BreakerState.
Inductive t := Closed | Open | HalfOpen.
#[global] Instance eq_dec : EqDecision t.
Proof. solve_decision. Defined.

(** [self as u8]. *)
Definition as_u8 (s : t) : Z := match s with Closed => 0 | Open => 1 | HalfOpen => 2 end.

Definition from_u8 (v : Z) : t :=
  if v =? 1 then Open else if v =? 2 then HalfOpen else Closed.

Definition as_label (s : t) : string :=
  match s with Closed => "closed" | Open => "open" | HalfOpen => "half_open" end.
End BreakerState.
Import BreakerState.

Definition CIRCUIT_OPEN_REASON : string := "circuit_open".

Module CircuitBreaker.
Record t := {
  state_cell : Z;
  failure_count : Z;
  success_count : Z;
  half_open_in_flight : Z;
  opened_at : Z;
  cfg : CircuitBreakerConfig.t;
  transitions : list (BreakerState.t * BreakerState.t);
}.

Definition new (c : CircuitBreakerConfig.t) : t := {|
  state_cell := as_u8 Closed; failure_count := 0; success_count := 0;
  half_open_in_flight := 0; opened_at := 0; cfg := c; transitions := [] |}.

Definition state (b : t) : BreakerState.t := from_u8 (state_cell b).

(** The atomic stores. *)
Definition set_state (s : BreakerState.t) (b : t) : t := {|
  state_cell := as_u8 s; failure_count := failure_count b; success_count := success_count b;
  half_open_in_flight := half_open_in_flight b; opened_at := opened_at b; cfg := cfg b;
  transitions := transitions b |}.
Definition set_failure_count (v : Z) (b : t) : t := {|
  state_cell := state_cell b; failure_count := v; success_count := success_count b;
  half_open_in_flight := half_open_in_flight b; opened_at := opened_at b; cfg := cfg b;
  transitions := transitions b |}.
Definition set_success_count (v : Z) (b : t) : t := {|
  state_cell := state_cell b; failure_count := failure_count b; success_count := v;
  half_open_in_flight := half_open_in_flight b; opened_at := opened_at b; cfg := cfg b;
  transitions := transitions b |}.
Definition set_half_open_in_flight (v : Z) (b : t) : t := {|
  state_cell := state_cell b; failure_count := failure_count b; success_count := success_count b;
  half_open_in_flight := v; opened_at := opened_at b; cfg := cfg b;
  transitions := transitions b |}.
Definition set_opened_at (v : Z) (b : t) : t := {|
  state_cell := state_cell b; failure_count := failure_count b; success_count := success_count b;
  half_open_in_flight := half_open_in_flight b; opened_at := v; cfg := cfg b;
  transitions := transitions b |}.

Definition record_transition (from to : BreakerState.t) (b : t) : t := {|
  state_cell := state_cell b; failure_count := failure_count b; success_count := success_count b;
  half_open_in_flight := half_open_in_flight b; opened_at := opened_at b; cfg := cfg b;
  transitions := transitions b ++ [(from, to)] |}.

Definition cooldown_elapsed (now : Z) (b : t) : bool :=
  wrap_i64 (open_duration_secs (cfg b)) <=? now - opened_at b.

Definition try_transition_to_half_open (b : t) : t :=
  if state_cell b =? as_u8 Open then
    record_transition Open HalfOpen
      (set_half_open_in_flight 0 (set_success_count 0 (set_state HalfOpen b)))
  else b.

Definition try_admit_half_open (b : t) : bool * t :=
  let cur := half_open_in_flight b in
  if half_open_max_calls (cfg b) <=? cur then (false, b)
  else (true, set_half_open_in_flight (cur + 1) b).

Definition allow (now : Z) (b : t) : bool * t :=
  match state b with
  | Closed => (true, b)
  | Open =>
      if negb (cooldown_elapsed now b) then (false, b)
      else try_admit_half_open (try_transition_to_half_open b)
  | HalfOpen => try_admit_half_open b
  end.

Definition trip_open (now : Z) (b : t) : t :=
  let prev := state b in
  if decide (prev = Open) then b
  else record_transition prev Open
         (set_half_open_in_flight 0 (set_success_count 0 (set_failure_count 0
            (set_opened_at now (set_state Open b))))).

Definition close (b : t) : t :=
  let prev := state b in
  if decide (prev = Closed) then b
  else record_transition prev Closed
         (set_half_open_in_flight 0 (set_success_count 0 (set_failure_count 0
            (set_state Closed b)))).

Definition is_failure (s : CheckStatus.t) : bool :=
  match s with CheckStatus.Down | CheckStatus.Error => true | _ => false end.

Definition record (now : Z) (s : CheckStatus.t) (b : t) : t :=
  match state b with
  | Closed =>
      if is_failure s then
        let fails := wrap_u32 (failure_count b + 1) in
        let b := set_failure_count fails b in
        if failure_threshold (cfg b) <=? fails then trip_open now b else b
      else set_failure_count 0 b
  | HalfOpen =>
      let b := set_half_open_in_flight (wrap_u32 (half_open_in_flight b - 1)) b in
      if is_failure s then trip_open now b
      else
        let succ := wrap_u32 (success_count b + 1) in
        let b := set_success_count succ b in
        if success_threshold (cfg b) <=? succ then close b else b
  | Open => b
  end.
End CircuitBreaker.
Import CircuitBreaker.

(** ** Traces: the calls of every task, in the order they take effect *)
Inductive event :=
| Allow (now : Z)
| Report (now : Z) (s : CheckStatus.t).

Definition event_time (e : event) : Z := match e with Allow now | Report now _ => now end.

(** One call, with the answer of an [Allow]. *)
Definition call (e : event) (b : CircuitBreaker.t) : option bool * CircuitBreaker.t :=
  match e with
  | Allow now => let '(a, b) := allow now b in (Some a, b)
  | Report now s => (None, record now s b)
  end.

Fixpoint trace (es : list event) (b : CircuitBreaker.t) : list bool * CircuitBreaker.t :=
  match es with
  | [] => ([], b)
  | e :: es =>
      let '(a, b) := call e b in
      let '(answers, b) := trace es b in
      (match a with Some a => a :: answers | None => answers end, b)
  end.

(** ** The state machine the breaker promises *)
Inductive edge : BreakerState.t → BreakerState.t → Prop :=
| edge_trip : edge Closed Open
| edge_reopen : edge HalfOpen Open
| edge_probe : edge Open HalfOpen
| edge_recover : edge HalfOpen Closed.

(** A log of transitions is a walk along the edges. *)
Inductive walk : BreakerState.t → list (BreakerState.t * BreakerState.t) → BreakerState.t → Prop :=
| walk_nil s : walk s [] s
| walk_snoc s l m s' : walk s l m → edge m s' → walk s (l ++ [(m, s')]) s'.

(** What each state keeps in the counters. *)
Definition counters_wf (b : CircuitBreaker.t) : Prop :=
  match state b with
  | Closed => 0 ≤ failure_count b < Z.max 1 (failure_threshold (cfg b)) ∧
              success_count b = 0 ∧ half_open_in_flight b = 0
  | Open => failure_count b = 0 ∧ success_count b = 0 ∧ half_open_in_flight b = 0
  | HalfOpen => failure_count b = 0 ∧
                0 ≤ success_count b < Z.max 1 (success_threshold (cfg b)) ∧
                0 ≤ half_open_in_flight b ≤ U32_MAX
  end.

Record wf (c : CircuitBreakerConfig.t) (b : CircuitBreaker.t) : Prop := {
  wf_cfg : cfg b = c;
  wf_cell : state_cell b = as_u8 (state b);
  wf_counters : counters_wf b;
  wf_walk : walk Closed (transitions b) (state b);
}.

(** A run of [n] failures in a row somewhere in [l]. *)
Definition failing_run (n : Z) (l : list CheckStatus.t) : Prop :=
  ∃ pre run post, l = pre ++ run ++ post ∧ Z.of_nat (length run) = n ∧
    Forall (λ s, is_failure s = true) run.

(** The length of the failing run a list starts with. *)
Fixpoint leading_failures (l : list CheckStatus.t) : nat :=
  match l with
  | s :: l => if is_failure s then S (leading_failures l) else 0
  | [] => 0
  end.

(** Checks reported one after the other, and checks each let through first. *)
Definition reports (l : list (Z * CheckStatus.t)) : list event :=
  (λ x, Report x.1 x.2) <$> l.
Definition probes (l : list (Z * CheckStatus.t)) : list event :=
  concat ((λ x, [Allow x.1; Report x.1 x.2]) <$> l).

#[global] Arguments probes : simpl never.

(** ** Facts about single calls *)
Section BreakerFacts.
Implicit Types (b : CircuitBreaker.t) (s : BreakerState.t).
#[local] Arguments Z.max : simpl never.
#[local] Arguments Z.add : simpl never.
#[local] Arguments Z.le : simpl never.

Lemma from_u8_as_u8 s : from_u8 (as_u8 s) = s.
Proof. by destruct s. Qed.

Lemma state_set_state s b : state (set_state s b) = s.
Proof. apply from_u8_as_u8. Qed.

Lemma wrap_u32_small x : 0 ≤ x ≤ U32_MAX → wrap_u32 x = x.
Proof. intros. unfold wrap_u32, U32_MAX in *. apply Z.mod_small. lia. Qed.

Lemma wrap_u32_range x : 0 ≤ wrap_u32 x ≤ U32_MAX.
Proof. unfold wrap_u32, U32_MAX. pose proof (Z.mod_pos_bound x 4294967296). lia. Qed.

Lemma cell_Open b : state b = Open → state_cell b = as_u8 Open.
Proof. unfold state, from_u8. cases. Qed.

Lemma new_wf c : in_width c → wf c (new c).
Proof. intros Hc. split; try done; [cbn; lia|constructor]. Qed.

(** The three moves, from the state they start in. *)
Lemma try_transition_Open b :
  state b = Open →
  try_transition_to_half_open b =
    record_transition Open HalfOpen
      (set_half_open_in_flight 0 (set_success_count 0 (set_state HalfOpen b))).
Proof. intros Hb%cell_Open. unfold try_transition_to_half_open. by rewrite Hb. Qed.

Lemma trip_open_state now b : state (trip_open now b) = Open.
Proof. unfold trip_open. by case_decide. Qed.

Lemma trip_open_cfg now b : cfg (trip_open now b) = cfg b.
Proof. unfold trip_open. by case_decide. Qed.

Lemma trip_open_opened_at now b : state b ≠ Open → opened_at (trip_open now b) = now.
Proof. intros. unfold trip_open. by case_decide. Qed.

Lemma trip_open_wf c now b :
  cfg b = c → walk Closed (transitions b) (state b) → state b ≠ Open → wf c (trip_open now b).
Proof.
  intros Hc Hw Hs. unfold trip_open. rewrite decide_False by done.
  split; try done. apply walk_snoc; [done|].
  destruct (state b) eqn:?; [constructor|done|constructor].
Qed.

Lemma close_wf c b :
  in_width c → cfg b = c → walk Closed (transitions b) (state b) → state b = HalfOpen →
  wf c (close b).
Proof.
  intros Hc Hcfg Hw Hs. unfold close. rewrite decide_False by congruence.
  split; try done; [cbn; lia|]. apply walk_snoc; [done|]. rewrite Hs. constructor.
Qed.

Lemma half_open_wf c b :
  wf c b → state b = Open → wf c (try_transition_to_half_open b).
Proof.
  intros [Hc _ Hn Hw] Hs. rewrite try_transition_Open by done.
  split; try done.
  - unfold counters_wf in *. rewrite Hs in Hn. cbn. unfold U32_MAX. lia.
  - cbn. apply walk_snoc; [|constructor]. by rewrite Hs in Hw.
Qed.

Lemma admit_wf c b :
  in_width c → wf c b → state b = HalfOpen → wf c (try_admit_half_open b).2.
Proof.
  intros Hwd [Hc He Hn Hw] Hs. unfold try_admit_half_open.
  destruct (half_open_max_calls _ <=? _) eqn:Hmax; bool_cases; [done|].
  split; try done. unfold counters_wf, in_width in *. subst c. cbn.
  change (state _) with (state b). rewrite Hs in *. lia.
Qed.

Lemma allow_wf c now b : in_width c → wf c b → wf c (allow now b).2.
Proof.
  intros Hwd Hb. unfold allow. destruct (state b) eqn:Hs; [done| |by apply admit_wf].
  destruct (negb _); [done|]. apply admit_wf; [done|by apply half_open_wf|].
  by rewrite try_transition_Open.
Qed.

Lemma record_wf c now (s : CheckStatus.t) b : in_width c → wf c b → wf c (record now s b).
Proof.
  intros Hwd Hb. pose proof (wrap_u32_range (half_open_in_flight b - 1)) as Hr.
  destruct (Hwd) as (Hft & Hst & _). unfold record. destruct (state b) eqn:Hs; [|exact Hb|].
  all: destruct (Hb) as [Hc He Hn Hw].
  all: unfold counters_wf in Hn; rewrite Hs in Hn; subst c.
  all: destruct (is_failure s).
  - rewrite wrap_u32_small by (unfold U32_MAX in *; lia).
    destruct (failure_threshold _ <=? _) eqn:Ht; bool_cases.
    + apply trip_open_wf; [done|done|].
      by change (state b ≠ Open); rewrite Hs.
    + split; try done.
      unfold counters_wf. change (state _) with (state b). rewrite Hs. cbn in *. lia.
  - split; try done.
    unfold counters_wf. change (state _) with (state b). rewrite Hs. cbn. lia.
  - apply trip_open_wf; [done|done|].
    by change (state b ≠ Open); rewrite Hs.
  - rewrite wrap_u32_small by (cbn; unfold U32_MAX in *; lia).
    destruct (success_threshold _ <=? _) eqn:Ht; bool_cases.
    + by apply close_wf.
    + split; try done.
      unfold counters_wf. change (state _) with (state b). rewrite Hs. cbn in *. lia.
Qed.
End BreakerFacts.

Lemma trace_app es1 es2 b :
  trace (es1 ++ es2) b =
    let '(a1, b1) := trace es1 b in
    let '(a2, b2) := trace es2 b1 in (a1 ++ a2, b2).
Proof.
  revert b. induction es1 as [|e es1 IH]; intros b; simpl; [by destruct (trace es2 b)|].
  destruct (call e b) as [a b0]. rewrite IH.
  destruct (trace es1 b0) as [a1 b1], (trace es2 b1), a; done.
Qed.

Lemma trace_wf c es b : in_width c → wf c b → wf c (trace es b).2.
Proof.
  intros Hc. revert b. induction es as [|e es IH]; intros b Hb; simpl; [done|].
  destruct (call e b) as [a b'] eqn:He, (trace es b') as [answers b''] eqn:Ht. simpl.
  change b'' with (answers, b'').2. rewrite <-Ht. apply IH. destruct e; simpl in He.
  - pose proof (allow_wf c now b Hc Hb). destruct (allow now b). by simplify_eq/=.
  - simplify_eq/=. by apply record_wf.
Qed.

(** Reference runs on a reversed list, so that a new report is a new head. *)
Lemma leading_failures_spec n l :
  (n ≤ leading_failures l)%nat ↔
  ∃ run post, l = run ++ post ∧ length run = n ∧ Forall (λ s, is_failure s = true) run.
Proof.
  revert n. induction l as [|s l IH]; intros n; simpl.
  - split; [intros ?; exists [], []; split_and!; simpl; [done|lia|done]|].
    intros (run & post & ? & <- & _). by destruct run.
  - split.
    + destruct n as [|n]; [by exists [], (s :: l)|]. case_match eqn:Hs; [|lia].
      intros (run & post & -> & <- & ?)%le_S_n%IH. exists (s :: run), post. by auto.
    + intros (run & post & Hl & <- & Hrun). destruct run as [|s' run]; simpl; [lia|].
      simplify_eq/=. apply Forall_cons in Hrun as [-> Hrun].
      apply le_n_S, IH. eauto.
Qed.

Lemma failing_run_reverse n l : failing_run n (reverse l) ↔ failing_run n l.
Proof.
  assert (Hdir : ∀ l, failing_run n l → failing_run n (reverse l)).
  { intros l' (pre & run & post & -> & Hn & Hrun). exists (reverse post), (reverse run), (reverse pre).
    rewrite !reverse_app, length_reverse, Forall_reverse, <-(assoc_L (++)). done. }
  split; [|apply Hdir]. intros H%Hdir. by rewrite reverse_involutive in H.
Qed.

Lemma failing_run_cons n s l :
  failing_run n (s :: l) ↔ failing_run n l ∨ 0 ≤ n ≤ Z.of_nat (leading_failures (s :: l)).
Proof.
  split.
  - intros (pre & run & post & Hl & Hn & Hrun). destruct pre as [|s' pre]; simplify_eq/=.
    + right. assert (length run ≤ leading_failures (s :: l))%nat; [|simpl in *; lia].
      apply leading_failures_spec. eauto.
    + left. by exists pre, run, post.
  - intros [(pre & run & post & -> & Hrun)|[Hn Hle]]; [by exists (s :: pre), run, post|].
    assert (Z.to_nat n ≤ leading_failures (s :: l))%nat as
      (run & post & -> & Hrun & ?)%leading_failures_spec by lia.
    exists [], run, post. split_and!; [done|lia|done].
Qed.

(** A breaker fed nothing but reports, against the reference: [l] is read
    newest first. *)
Lemma reports_spec c l :
  in_width c →
  let b := (trace (reports (reverse l)) (new c)).2 in
  let n := Z.max 1 (failure_threshold c) in
  cfg b = c ∧
  if decide (state b = Open) then failing_run n (l.*2)
  else state b = Closed ∧ ¬ failing_run n (l.*2) ∧
       failure_count b = Z.of_nat (leading_failures (l.*2)) ∧ failure_count b < n.
Proof.
  intros Hc. induction l as [|[now s] l IH]; [|revert IH]; cbv zeta.
  - split; [done|]. rewrite decide_False by done. split_and!; [done| |done|simpl; lia].
    intros (pre & run & post & Hl & Hn & _). symmetry in Hl. apply app_nil in Hl as [-> Hl].
    apply app_nil in Hl as [-> ->]. simpl in Hn. lia.
  - rewrite reverse_cons. unfold reports. rewrite fmap_app, trace_app.
    fold (reports (reverse l)). destruct (trace _ (new c)) as [answers b]. csimpl.
    intros [Hcfg IH]. destruct Hc as (Hft & _).
    unfold record. case_decide as Ho.
    + rewrite Ho, decide_True by done. split; [done|]. apply failing_run_cons. auto.
    + destruct IH as (Hs & Hrun & Hf & Hlt). rewrite Hs. simpl.
      destruct (is_failure s) eqn:Hfail; simpl.
      * rewrite wrap_u32_small by (unfold U32_MAX in *; lia).
        rewrite Hcfg. destruct (failure_threshold c <=? failure_count b + 1) eqn:Ht; bool_cases.
        -- rewrite trip_open_cfg, trip_open_state. split; [done|].
           rewrite decide_True by done. apply failing_run_cons. right.
           simpl. rewrite Hfail. lia.
        -- split; [done|]. change (state _) with (state b).
           rewrite decide_False by congruence. split_and!; [done| |simpl; lia|simpl; lia].
           rewrite failing_run_cons. simpl. rewrite Hfail. intros [?|?]; [done|lia].
      * split; [done|]. change (state _) with (state b).
        rewrite decide_False by congruence. split_and!; [done| |done|simpl; lia].
        rewrite failing_run_cons. simpl. rewrite Hfail. intros [?|?]; [done|lia].
Qed.

(** Allows alone: every slot that is left is handed out, then none. *)
Lemma half_open_allows b ts :
  state b = HalfOpen → 0 ≤ half_open_in_flight b →
  let room := Z.to_nat (half_open_max_calls (cfg b) - half_open_in_flight b) in
  let k := Nat.min (length ts) room in
  ∃ b', trace (Allow <$> ts) b =
          (replicate k true ++ replicate (length ts - k) false, b') ∧
    state b' = HalfOpen ∧ half_open_in_flight b' = half_open_in_flight b + Z.of_nat k ∧
    cfg b' = cfg b ∧ success_count b' = success_count b.
Proof.
  cbv zeta. revert b. induction ts as [|now ts IH]; intros b Hs Hf.
  { exists b. simpl. split_and!; [done|done|lia|done|done]. }
  csimpl. unfold allow. rewrite Hs. unfold try_admit_half_open.
  destruct (half_open_max_calls _ <=? _) eqn:Hm; bool_cases.
  - destruct (IH b Hs Hf) as (b' & -> & ? & ? & ? & ?). exists b'.
    replace (Z.to_nat _) with 0%nat in * by lia. rewrite Nat.min_0_r in *.
    split_and!; try done. by rewrite Nat.sub_0_r.
  - destruct (IH (set_half_open_in_flight (half_open_in_flight b + 1) b) Hs ltac:(simpl; lia))
      as (b' & -> & ? & Hfl & ? & ?). exists b'. simpl in *.
    replace (Z.to_nat (half_open_max_calls (cfg b) - half_open_in_flight b)) with
      (S (Z.to_nat (half_open_max_calls (cfg b) - (half_open_in_flight b + 1)))) by lia.
    simpl. split_and!; [done|done|lia|done|done].
Qed.

Lemma probes_app l1 l2 : probes (l1 ++ l2) = probes l1 ++ probes l2.
Proof. unfold probes. by rewrite fmap_app, concat_app. Qed.

(** A probe let through and answered well, and one answered badly. *)
Lemma probe_good now s b :
  state b = HalfOpen → half_open_in_flight b = 0 → 1 ≤ half_open_max_calls (cfg b) →
  0 ≤ success_count b < U32_MAX → is_failure s = false →
  let b' := set_half_open_in_flight 0 (set_success_count (success_count b + 1) b) in
  trace (probes [(now, s)]) b =
    ([true], if success_threshold (cfg b) <=? success_count b + 1 then close b' else b').
Proof.
  intros Hs Hf Hm Hsc Hgood. unfold probes. simpl. unfold allow, try_admit_half_open. rewrite Hs, Hf.
  destruct (half_open_max_calls (cfg b) <=? 0) eqn:Hle; bool_cases; [lia|].
  simpl. unfold record. change (state (set_half_open_in_flight _ b)) with (state b).
  rewrite Hs, Hgood. simpl. rewrite !wrap_u32_small by (unfold U32_MAX in *; lia).
  replace (0 + 1 - 1) with 0 by lia. done.
Qed.

Lemma probe_bad now s b :
  state b = HalfOpen → half_open_in_flight b = 0 → 1 ≤ half_open_max_calls (cfg b) →
  is_failure s = true →
  ∃ b', trace (probes [(now, s)]) b = ([true], b') ∧ state b' = Open ∧ opened_at b' = now.
Proof.
  intros Hs Hf Hm Hbad. unfold probes. simpl. unfold allow, try_admit_half_open. rewrite Hs, Hf.
  destruct (half_open_max_calls (cfg b) <=? 0) eqn:Hle; bool_cases; [lia|].
  simpl. unfold record. change (state (set_half_open_in_flight _ b)) with (state b).
  rewrite Hs, Hbad. simpl. eexists. split; [done|]. split; [apply trip_open_state|].
  apply trip_open_opened_at. change (state b ≠ Open). congruence.
Qed.

(** A series of good probes, one at a time, in the half-open state. *)
Lemma good_probes l b :
  state b = HalfOpen → half_open_in_flight b = 0 → 1 ≤ half_open_max_calls (cfg b) →
  0 ≤ success_count b → success_threshold (cfg b) ≤ U32_MAX →
  Forall (λ x, is_failure x.2 = false) l →
  success_count b + Z.of_nat (length l) < Z.max 1 (success_threshold (cfg b)) →
  ∃ b', trace (probes l) b = (replicate (length l) true, b') ∧
    state b' = HalfOpen ∧ half_open_in_flight b' = 0 ∧ cfg b' = cfg b ∧
    success_count b' = success_count b + Z.of_nat (length l).
Proof.
  revert b. induction l as [|[now s] l IH]; intros b Hs Hf Hm Hsc Hst Hl Hlt.
  { exists b. simpl. split_and!; try done. lia. }
  apply Forall_cons in Hl as [Hgood Hl]. simpl in Hgood, Hlt.
  change ((now, s) :: l) with ([(now, s)] ++ l). rewrite probes_app, trace_app, probe_good by (try done; unfold U32_MAX in *; lia).
  destruct (success_threshold (cfg b) <=? _) eqn:Hle; bool_cases; [lia|].
  destruct (IH (set_half_open_in_flight 0 (set_success_count (success_count b + 1) b)))
    as (b' & -> & ? & ? & ? & Hc); try done; simpl in *; [lia|lia|].
  exists b'. split_and!; try done. lia.
Qed.

(** ** Properties *)

(** In every interleaving of calls and reports the breaker only moves
    closed to open, open to half-open, and half-open to open or closed; it
    starts closed, logs each move, and in each state keeps the counters the
    other states use at zero and its own below its threshold. *)
Theorem breaker_follows_its_states c es :
  in_width c →
  let b := (trace es (new c)).2 in walk Closed (transitions b) (state b) ∧ counters_wf b.
Proof. intros Hc b. destruct (trace_wf c es (new c) Hc (new_wf c Hc)). done. Qed.

Definition sample : CircuitBreakerConfig.t := {|
  failure_threshold := 2; success_threshold := 3; open_duration_secs := 30;
  half_open_max_calls := 2 |}.

Lemma sample_in_width : in_width sample.
Proof. by vm_compute. Defined.

Lemma breaker_follows_its_states_witness :
  let b := (trace [Report 5 CheckStatus.Down; Report 6 CheckStatus.Error; Allow 40] (new sample)).2 in
  transitions b = [(Closed, Open); (Open, HalfOpen)] ∧
  walk Closed (transitions b) (state b) ∧ counters_wf b.
Proof.
  split; [vm_compute; reflexivity|]. apply (breaker_follows_its_states sample).
  exact sample_in_width.
Defined.

(** A breaker fed check results opens exactly when they contain a run of
    [failure_threshold] failures in a row (of one, when the threshold is zero),
    and is closed otherwise: a success in between starts the count again. *)
Theorem opens_on_a_failing_run c l :
  in_width c →
  let b := (trace (reports l) (new c)).2 in
  (state b = Open ↔ failing_run (Z.max 1 (failure_threshold c)) (l.*2)) ∧
  (state b = Closed ↔ ¬ failing_run (Z.max 1 (failure_threshold c)) (l.*2)).
Proof.
  intros Hc b. destruct (reports_spec c (reverse l) Hc) as [_ Hspec].
  rewrite reverse_involutive, fmap_reverse in Hspec. fold b in Hspec.
  case_decide as Ho; rewrite failing_run_reverse in Hspec.
  - rewrite Ho. split; split; done.
  - destruct Hspec as (Hcl & Hrun & _). rewrite Hcl. split; split; done.
Qed.

Lemma opens_on_a_failing_run_witness :
  let l := [(1, CheckStatus.Down); (2, CheckStatus.Up); (3, CheckStatus.Error);
            (4, CheckStatus.Down)] in
  state (trace (reports l) (new sample)).2 = Open ∧
  failing_run (Z.max 1 (failure_threshold sample)) (l.*2).
Proof.
  split; [vm_compute; reflexivity|].
  apply (opens_on_a_failing_run sample); [exact sample_in_width|vm_compute; reflexivity].
Defined.

(** An open breaker refuses every call and ignores every report until its
    cooldown is over; the first call after that is let through, if any may be,
    and of the calls that follow before a report exactly
    [half_open_max_calls] pass. *)
Theorem cooldown_then_a_few_calls b es now ts :
  state b = Open →
  0 ≤ open_duration_secs (cfg b) ≤ I64_MAX →
  Forall (λ e, event_time e < opened_at b + open_duration_secs (cfg b)) es →
  opened_at b + open_duration_secs (cfg b) ≤ now →
  (trace es b).2 = b ∧ Forall (λ a, a = false) (trace es b).1 ∧
  let '(answers, b') := trace (Allow <$> now :: ts) b in
  let k := Nat.min (S (length ts)) (Z.to_nat (half_open_max_calls (cfg b))) in
  state b' = HalfOpen ∧ answers = replicate k true ++ replicate (S (length ts) - k) false.
Proof.
  intros Hs Hdur Hes Hnow.
  assert (Hw : wrap_i64 (open_duration_secs (cfg b)) = open_duration_secs (cfg b)).
  { unfold wrap_i64, I64_MAX in *. rewrite Z.mod_small; lia. }
  assert (Hrefuse : (trace es b).2 = b ∧ Forall (λ a, a = false) (trace es b).1).
  { induction Hes as [|e es He _ IH]; [done|]. simpl.
    assert (call e b = (match e with Allow _ => Some false | Report _ _ => None end, b)) as ->.
    { destruct e; simpl in *; unfold allow, record; rewrite Hs; [|done].
      unfold cooldown_elapsed. rewrite Hw.
      destruct (_ <=? _) eqn:Hc; bool_cases; [lia|done]. }
    destruct (trace es b) as [answers b'], IH as [Hb Ha]. destruct e; simpl in *; auto using Forall_cons_2. }
  destruct Hrefuse as [? ?]. split_and!; [done|done|].
  - set (b0 := try_transition_to_half_open b).
    assert (trace (Allow <$> now :: ts) b = trace (Allow <$> now :: ts) b0) as ->.
    { simpl. unfold allow. rewrite Hs. subst b0. rewrite try_transition_Open by done.
      unfold cooldown_elapsed. rewrite Hw.
      destruct (_ <=? _) eqn:Hel; [done|]. bool_cases. lia. }
    subst b0. rewrite try_transition_Open by done.
    destruct (half_open_allows (record_transition Open HalfOpen
      (set_half_open_in_flight 0 (set_success_count 0 (set_state HalfOpen b)))) (now :: ts)
      eq_refl ltac:(simpl; lia)) as (b' & -> & ? & _).
    simpl. rewrite Z.sub_0_r. done.
Qed.

Lemma cooldown_then_a_few_calls_witness :
  let b := trip_open 100 (new sample) in
  state (trace (Allow <$> [130; 131; 132]) b).2 = HalfOpen.
Proof.
  pose proof (cooldown_then_a_few_calls (trip_open 100 (new sample))
    [Allow 110; Report 120 CheckStatus.Up] 130 [131; 132]) as H.
  destruct H as (_ & _ & H); [reflexivity| | | |].
  - by vm_compute.
  - repeat constructor.
  - by vm_compute.
  - vm_compute in H. vm_compute. exact (proj1 H).
Defined.

(** An open breaker recovers. Once its cooldown is over, probes made one
    at a time are each let through; after [success_threshold] good ones it is
    closed, and a bad one before that opens it again from that moment. *)
Theorem open_breaker_recovers c b l now s :
  in_width c → wf c b → state b = Open → open_duration_secs c ≤ I64_MAX →
  1 ≤ half_open_max_calls c → opened_at b + open_duration_secs c ≤ (hd (now, s) l).1 →
  Forall (λ x, is_failure x.2 = false) l →
  Z.of_nat (length l) < Z.max 1 (success_threshold c) →
  let '(answers, b') := trace (probes (l ++ [(now, s)])) b in
  answers = replicate (S (length l)) true ∧
  if is_failure s then state b' = Open ∧ opened_at b' = now
  else if Z.max 1 (success_threshold c) =? Z.of_nat (S (length l)) then state b' = Closed
       else state b' = HalfOpen.
Proof.
  intros Hc Hb Hs Hdur Hm Hnow Hl Hlen. destruct (Hb) as [Hcfg _ _ _].
  pose proof Hc as (_ & Hst & Hd & _).
  set (b0 := try_transition_to_half_open b).
  assert (trace (probes (l ++ [(now, s)])) b = trace (probes (l ++ [(now, s)])) b0) as ->.
  { assert (∀ t r, opened_at b + open_duration_secs c ≤ t →
              trace (Allow t :: r) b = trace (Allow t :: r) b0) as Hsame.
    { intros t r Ht. simpl. unfold allow. rewrite Hs. subst b0.
      rewrite try_transition_Open by done.
      unfold cooldown_elapsed, wrap_i64. rewrite Hcfg, Z.mod_small by (unfold I64_MAX in *; lia).
      destruct (_ <=? _) eqn:Hel; [done|]. bool_cases. lia. }
    destruct l as [|[t s'] l]; apply Hsame; exact Hnow. }
  subst b0. rewrite try_transition_Open by done.
  set (b0 := record_transition _ _ _).
  rewrite probes_app, trace_app.
  destruct (good_probes l b0) as (b1 & -> & Hs1 & Hf1 & Hc1 & Hsc1);
    try done; try (simpl; rewrite ?Hcfg; lia).
  simpl in Hc1, Hsc1. rewrite Hcfg in Hc1. destruct (is_failure s) eqn:Hbad.
  - destruct (probe_bad now s b1) as (b2 & -> & ? & ?); [done|done|by rewrite Hc1|done|].
    rewrite replicate_S_end. done.
  - rewrite (probe_good now s b1) by (try done; rewrite ?Hc1; unfold U32_MAX in *; lia).
    rewrite replicate_S_end, Hc1, Hsc1. split; [done|].
    destruct (success_threshold c <=? _) eqn:Hle, (_ =? _) eqn:Heq; bool_cases; try lia.
    + unfold close. case_decide; [|done]. congruence.
    + done.
Qed.

Lemma open_breaker_recovers_witness :
  let b := trip_open 100 (new sample) in
  state (trace (probes [(130, CheckStatus.Up); (140, CheckStatus.Degraded);
                        (150, CheckStatus.Up)]) b).2 = Closed.
Proof.
  pose proof (open_breaker_recovers sample (trip_open 100 (new sample))
    [(130, CheckStatus.Up); (140, CheckStatus.Degraded)] 150 CheckStatus.Up) as H.
  assert (wf sample (trip_open 100 (new sample))) as Hwf.
  { apply trip_open_wf; [reflexivity|constructor|discriminate]. }
  specialize (H sample_in_width Hwf eq_refl ltac:(by vm_compute) ltac:(by vm_compute)
    ltac:(by vm_compute) ltac:(repeat constructor) ltac:(by vm_compute)).
  vm_compute in H. vm_compute. exact (proj2 H).
Defined.

(** A half-open breaker can jam. Once its in-flight count is at the limit
    it refuses every call at every later time, and only a report moves it: calls
    let through and never reported use the slots up for good. A report of a call
    that was let through earlier, while the breaker was closed, takes the count
    below zero, which wraps to the largest [u32] and is past any limit. *)
Theorem half_open_breaker_jams c b ts :
  in_width c → wf c b → state b = HalfOpen →
  (half_open_max_calls c ≤ half_open_in_flight b →
     trace (Allow <$> ts) b = (replicate (length ts) false, b)) ∧
  (∀ now s, half_open_in_flight b = 0 → is_failure s = false →
     success_count b + 1 < success_threshold c →
     half_open_in_flight (record now s b) = U32_MAX ∧
     trace (Allow <$> ts) (record now s b) = (replicate (length ts) false, record now s b)).
Proof.
  intros Hc [Hcfg _ Hn _] Hs.
  assert (Hfull : ∀ b', state b' = HalfOpen → half_open_max_calls (cfg b') ≤ half_open_in_flight b' →
            trace (Allow <$> ts) b' = (replicate (length ts) false, b')).
  { intros b' Hs' Hmax. induction ts as [|t ts IH]; [done|]. csimpl.
    unfold allow, try_admit_half_open. rewrite Hs'.
    destruct (_ <=? _) eqn:Hle; bool_cases; [|lia]. by rewrite IH. }
  split; [intros; apply Hfull; [done|by rewrite Hcfg]|].
  intros now s Hf Hgood Hlt. unfold counters_wf in Hn. rewrite Hs in Hn.
  destruct Hc as (_ & Hst & _ & Hmax). unfold record. rewrite Hs, Hgood, Hf. simpl.
  rewrite Hcfg, (wrap_u32_small (success_count b + 1)) by (unfold U32_MAX in *; lia).
  destruct (_ <=? _) eqn:Hle; bool_cases; [lia|].
  split; [done|]. apply Hfull; [done|]. simpl. rewrite Hcfg. exact (proj2 Hmax).
Qed.

Lemma half_open_breaker_jams_witness :
  let b := (trace [Report 1 CheckStatus.Down; Report 2 CheckStatus.Down; Allow 40;
                   Report 41 CheckStatus.Up] (new sample)).2 in
  half_open_in_flight (record 42 CheckStatus.Up b) = 4294967295.
Proof.
  pose proof (half_open_breaker_jams sample
    (trace [Report 1 CheckStatus.Down; Report 2 CheckStatus.Down; Allow 40;
            Report 41 CheckStatus.Up] (new sample)).2 []
    sample_in_width (trace_wf _ _ _ sample_in_width (new_wf _ sample_in_width)) eq_refl) as [_ H].
  exact (proj1 (H 42 CheckStatus.Up eq_refl eq_refl eq_refl)).
Defined.
