(* ===== verification/StatusPage.v ===== *)
(** * Status pages: classification and the daily strips

    src/domain/public.rs (the payload), src/public_status/overall_status.rs (one
    classifier per question) and the painting of the daily strips of
    src/public_status/aggregator.rs ([paint_strips], [days_ago_index],
    [pad_or_truncate]). Days are calendar days of UTC, counted from the epoch.

    The strips are specified cell by cell: the worst impact among the incident
    windows that overlap the day, found by no loop. *)

From S2P Require Import Prelude Domain.

(** ** src/domain/public.rs *)
Module OverallState.
Inductive t := Operational | Maintenance | MinorDisruption | PartialOutage | MajorOutage.
#[global] Instance eq_dec : EqDecision t.
Proof. solve_decision. Defined.
End OverallState.

Module OverallStatus.
Record t := { state : OverallState.t; label : string }.
End OverallStatus.

Module PublicComponentStatus.
Inductive t := Operational | Degraded | PartialOutage | MajorOutage | Maintenance | NoData.
#[global] Instance eq_dec : EqDecision t.
Proof. solve_decision. Defined.
End PublicComponentStatus.

Module DayState.
Inductive t := Operational | Degraded | PartialOutage | MajorOutage | Maintenance | NoData.
#[global] Instance eq_dec : EqDecision t.
Proof. solve_decision. Defined.
End DayState.

Module PublicComponent.
Record t := {
  id : Uuid;
  name : string;
  description : option string;
  current_status : PublicComponentStatus.t;
  history : list DayState.t;
  detail_url : option string;
}.
End PublicComponent.

Module PublicComponentGroup.
Record t := { name : option string; components : list PublicComponent.t }.
End PublicComponentGroup.

Module PublicIncidentUpdate.
Record t := { posted_at : DateTime; phase : IncidentStatusPhase.t; message : string }.
End PublicIncidentUpdate.

Module PublicActionItem.
Record t := { text : string; done_ : bool }.
End PublicActionItem.

Module PublicPostmortem.
Record t := {
  summary : option string;
  root_cause : option string;
  impact : option string;
  action_items : list PublicActionItem.t;
  published_at : DateTime;
}.
End PublicPostmortem.

Module PublicIncident.
Record t := {
  id : Uuid;
  component_id : Uuid;
  component_name : string;
  title : string;
  started_at : DateTime;
  ended_at : option DateTime;
  severity : IncidentSeverity.t;
  status_phase : IncidentStatusPhase.t;
  updates : list PublicIncidentUpdate.t;
  postmortem : option PublicPostmortem.t;
}.
End PublicIncident.

Module PublicMaintenance.
Record t := {
  id : Uuid;
  title : string;
  description : option string;
  starts_at : DateTime;
  ends_at : DateTime;
  affected_component_names : list string;
}.
End PublicMaintenance.

Module PublicMaintenanceList.
Record t := { active : list PublicMaintenance.t; upcoming : list PublicMaintenance.t }.
End PublicMaintenanceList.

Module PublicStatusPage.
Record t := {
  overall : OverallStatus.t;
  generated_at : DateTime;
  site_name : string;
  groups : list PublicComponentGroup.t;
  active_incidents : list PublicIncident.t;
  recent_incidents : list PublicIncident.t;
  recent_incidents_has_more : bool;
  active_maintenance : list PublicMaintenance.t;
  upcoming_maintenance : list PublicMaintenance.t;
}.
End PublicStatusPage.

Module ComponentHistoryResponse.
Record t := { component_id : Uuid; component_name : string; days : Z; history : list DayState.t }.
End ComponentHistoryResponse.

(** ** src/public_status/overall_status.rs *)
Module IncidentImpact.
Inductive t := Degraded | PartialOutage | MajorOutage.
#[global] Instance eq_dec : EqDecision t.
Proof. solve_decision. Defined.

(** The derived [Ord]. *)
Definition rank (x : t) : Z := match x with Degraded => 0 | PartialOutage => 1 | MajorOutage => 2 end.
Definition max (x y : t) : t := if rank x <=? rank y then y else x.
End IncidentImpact.

Definition incident_impact (degraded any_region_up : bool) : IncidentImpact.t :=
  if degraded then IncidentImpact.Degraded
  else if any_region_up then IncidentImpact.PartialOutage
  else IncidentImpact.MajorOutage.

Definition component_status (worst : option IncidentImpact.t) (maintenance_active has_evidence : bool)
    : PublicComponentStatus.t :=
  if maintenance_active then PublicComponentStatus.Maintenance
  else match worst with
  | Some IncidentImpact.MajorOutage => PublicComponentStatus.MajorOutage
  | Some IncidentImpact.PartialOutage => PublicComponentStatus.PartialOutage
  | Some IncidentImpact.Degraded => PublicComponentStatus.Degraded
  | None => if has_evidence then PublicComponentStatus.Operational else PublicComponentStatus.NoData
  end.

Definition overall_state (components : list PublicComponentStatus.t) : OverallState.t :=
  if bool_decide (PublicComponentStatus.MajorOutage ∈ components) then OverallState.MajorOutage
  else if bool_decide (PublicComponentStatus.PartialOutage ∈ components) then OverallState.PartialOutage
  else if bool_decide (PublicComponentStatus.Degraded ∈ components) then OverallState.MinorDisruption
  else
    let any_maintenance := bool_decide (PublicComponentStatus.Maintenance ∈ components) in
    let others_operational := forallb (λ s, match s with
      | PublicComponentStatus.Maintenance | PublicComponentStatus.Operational
      | PublicComponentStatus.NoData => true | _ => false end) components in
    if any_maintenance && others_operational then OverallState.Maintenance
    else OverallState.Operational.

Definition overall_label (s : OverallState.t) : string :=
  match s with
  | OverallState.Operational => "All Systems Operational"
  | OverallState.Maintenance => "Maintenance in progress"
  | OverallState.MinorDisruption => "Minor Service Disruption"
  | OverallState.PartialOutage => "Partial System Outage"
  | OverallState.MajorOutage => "Major System Outage"
  end.
Definition overall_status (s : OverallState.t) : OverallStatus.t :=
  {| OverallStatus.state := s; OverallStatus.label := overall_label s |}.

Definition day_state (has_checks : bool) (worst : option IncidentImpact.t) : DayState.t :=
  match worst with
  | Some IncidentImpact.MajorOutage => DayState.MajorOutage
  | Some IncidentImpact.PartialOutage => DayState.PartialOutage
  | Some IncidentImpact.Degraded => DayState.Degraded
  | None => if has_checks then DayState.Operational else DayState.NoData
  end.

(** ** src/public_status/aggregator.rs: the strips *)
Module PaintWindowRow.
Record t := {
  target_id : Uuid;
  status_at_start : string;
  severity : string;
  origin : string;
  regions_up : option (list string);
  started_at : DateTime;
  ended_at : option DateTime;
}.
Definition impact (w : t) : IncidentImpact.t :=
  if String.eqb (origin w) "manual" then
    match IncidentSeverity.from_db_str (severity w) with
    | IncidentSeverity.Minor => IncidentImpact.Degraded
    | IncidentSeverity.Major => IncidentImpact.PartialOutage
    | IncidentSeverity.Critical => IncidentImpact.MajorOutage
    end
  else incident_impact (String.eqb (status_at_start w) (CheckStatus.as_str CheckStatus.Degraded))
         (match regions_up w with Some (_ :: _) => true | _ => false end).
End PaintWindowRow.

(** A day of the hour rollup with its checks; [day] in seconds, a ClickHouse DateTime. *)
Module HistoryDayRow.
Record t := { target_id : Uuid; day : Z; day_total : Z }.
End HistoryDayRow.

Definition ts_to_datetime (secs : Z) : DateTime := seconds secs.
Definition day_start_utc (day : Z) : DateTime := day * DAY.
Definition days (n : Z) : Duration := n * DAY.

Definition days_ago_index (day : Z) (now : DateTime) (history_days : Z) : option nat :=
  let diff := date_naive now - day in
  if (diff <? 0) || (history_days <=? diff) then None
  else Some (Z.to_nat (history_days - 1 - diff)).

(** [slots[i].max(Some(impact))]. *)
Definition slot_max (impact : IncidentImpact.t) (cur : option IncidentImpact.t) : option IncidentImpact.t :=
  Some (match cur with None => impact | Some x => IncidentImpact.max x impact end).

(** The [while] over the days of one window. *)
Fixpoint paint_days (fuel : nat) (d : Z) (end_ now : DateTime) (span : Z) (impact : IncidentImpact.t)
    (slots : list (option IncidentImpact.t)) : list (option IncidentImpact.t) :=
  match fuel with
  | O => slots
  | S fuel =>
      if day_start_utc d <? end_ then
        paint_days fuel (d + 1) end_ now span impact
          (match days_ago_index d now span with
           | Some i => alter (slot_max impact) i slots
           | None => slots
           end)
      else slots
  end.
Definition paint_fuel (d : Z) (end_ : DateTime) : nat := Z.to_nat (date_naive end_ + 1 - d).

Definition mark_presence (now : DateTime) (span : Z) (m : gmap Uuid (list bool)) (r : HistoryDayRow.t)
    : gmap Uuid (list bool) :=
  if 0 <? HistoryDayRow.day_total r then
    match days_ago_index (date_naive (ts_to_datetime (HistoryDayRow.day r))) now span with
    | Some i =>
        let v := default (replicate (Z.to_nat span) false) (m !! HistoryDayRow.target_id r) in
        <[HistoryDayRow.target_id r := <[i := true]> v]> m
    | None => m
    end
  else m.

Definition paint_window (now : DateTime) (span : Z) (m : gmap Uuid (list (option IncidentImpact.t)))
    (w : PaintWindowRow.t) : gmap Uuid (list (option IncidentImpact.t)) :=
  let slots := default (replicate (Z.to_nat span) None) (m !! PaintWindowRow.target_id w) in
  let end_ := Z.min (default now (PaintWindowRow.ended_at w)) now in
  let d := date_naive (Z.max (PaintWindowRow.started_at w) (now - days span)) in
  <[PaintWindowRow.target_id w :=
      paint_days (paint_fuel d end_) d end_ now span (PaintWindowRow.impact w) slots]> m.

Definition strip_of (data : option (list bool)) (impacts : option (list (option IncidentImpact.t))) (span : Z)
    : list DayState.t :=
  (λ i, day_state (is_some_and (λ v, default false (v !! i)) data)
          (v ← impacts; x ← v !! i; x)) <$> seq 0 (Z.to_nat span).

Definition paint_strips (component_ids : list Uuid) (presence : list HistoryDayRow.t)
    (windows : list PaintWindowRow.t) (now : DateTime) (span : Z) : gmap Uuid (list DayState.t) :=
  let has_data := fold_left (mark_presence now span) presence ∅ in
  let worst := fold_left (paint_window now span) windows ∅ in
  fold_left (λ m id, <[id := strip_of (has_data !! id) (worst !! id) span]> m) component_ids ∅.

Definition pad_or_truncate (v : list DayState.t) (len : nat) : list DayState.t :=
  if (length v =? len)%nat then v
  else if (len <? length v)%nat then drop (length v - len) v
  else replicate (len - length v) DayState.NoData ++ v.

(** ** What a strip shows *)
Section Strips.
Implicit Types (w : PaintWindowRow.t) (r : HistoryDayRow.t).

(** The day of cell [i], and when a window, cut to the span, overlaps a day. *)
Definition day_of (now : DateTime) (span i : Z) : Z := date_naive now - (span - 1 - i).
Definition touches (now : DateTime) (span : Z) (w : PaintWindowRow.t) (d : Z) : bool :=
  (Z.max (PaintWindowRow.started_at w) (now - days span) <? day_start_utc (d + 1))
  && (day_start_utc d <? Z.min (default now (PaintWindowRow.ended_at w)) now).
(** The rollup counted a check of the component on the day. *)
Definition has_checks (id : Uuid) (presence : list HistoryDayRow.t) (d : Z) : bool :=
  existsb (λ r, bool_decide (HistoryDayRow.target_id r = id) && (0 <? HistoryDayRow.day_total r)
                && (date_naive (ts_to_datetime (HistoryDayRow.day r)) =? d)) presence.

(** [o] is the worst impact among the elements of [l] that satisfy [p]. *)
Definition is_worst {A} (f : A → IncidentImpact.t) (p : A → bool) (l : list A)
    (o : option IncidentImpact.t) : Prop :=
  match o with
  | None => ∀ a, a ∈ l → p a = false
  | Some x => (∃ a, a ∈ l ∧ p a = true ∧ f a = x)
              ∧ ∀ a, a ∈ l → p a = true → IncidentImpact.rank (f a) ≤ IncidentImpact.rank x
  end.

Lemma rank_inj x y : IncidentImpact.rank x = IncidentImpact.rank y → x = y.
Proof. by destruct x, y. Qed.

Lemma is_worst_unique {A} (f : A → IncidentImpact.t) p l o o' : is_worst f p l o → is_worst f p l o' → o = o'.
Proof.
  destruct o as [x|], o' as [y|]; simpl; [| | |done];
    [|by intros [(a & Ha & Hpa & _) _] Hn; rewrite Hn in Hpa
     |by intros Hn [(a & Ha & Hpa & _) _]; rewrite Hn in Hpa].
  intros [(a & Ha & Hpa & <-) Hx] [(b & Hb & Hpb & <-) Hy]. f_equal. apply rank_inj.
  specialize (Hx b Hb Hpb). specialize (Hy a Ha Hpa). lia.
Qed.

Lemma slot_max_rank x c :
  ∃ y, slot_max x c = Some y ∧ IncidentImpact.rank x ≤ IncidentImpact.rank y
    ∧ (y = x ∨ c = Some y) ∧ (∀ z, c = Some z → IncidentImpact.rank z ≤ IncidentImpact.rank y).
Proof.
  destruct c as [y|]; simpl; [|by exists x; split_and!; auto].
  eexists; split; [done|]. unfold IncidentImpact.max.
  destruct (Z.leb_spec (IncidentImpact.rank y) (IncidentImpact.rank x));
    (simpl; split_and!; [lia|auto|intros z [= <-]; lia]).
Qed.

(** Folding the maximum over a list finds the worst. *)
Lemma fold_slot_max {A} (f : A → IncidentImpact.t) (p : A → bool) l :
  is_worst f p l (fold_left (λ c a, if p a then slot_max (f a) c else c) l None).
Proof.
  induction l as [|a l IH] using rev_ind; simpl; [by intros ? ?%not_elem_of_nil|].
  rewrite fold_left_app. cbn [fold_left].
  set (c := fold_left _ l None) in *. destruct (p a) eqn:Hp.
  - destruct (slot_max_rank (f a) c) as (y & -> & Hxy & Hy & Hc). split.
    + destruct Hy as [->|Hy]; [exists a; set_solver|]. rewrite Hy in IH.
      destruct IH as [(b & ? & ? & ?) _]. exists b. set_solver.
    + intros b Hb Hpb. apply elem_of_app in Hb as [Hb| ->%list_elem_of_singleton]; [|done].
      destruct c as [z|]; simpl in IH; [|by rewrite IH in Hpb].
      etransitivity; [by apply IH|by apply Hc].
  - destruct c as [z|]; simpl in *.
    + destruct IH as [(b & ? & ? & ?) Hm]. split; [exists b; set_solver|].
      intros b' [Hb| ->%list_elem_of_singleton]%elem_of_app; [auto|congruence].
    + intros b' [Hb| ->%list_elem_of_singleton]%elem_of_app; auto.
Qed.

(** *** Days *)
Lemma before_next_day s d : (s <? day_start_utc (d + 1)) = (date_naive s <=? d).
Proof.
  unfold day_start_utc, date_naive. assert (0 < DAY) by done. generalize dependent DAY. intros D HD.
  apply Bool.eq_iff_eq_true. rewrite Z.ltb_lt, Z.leb_le, Z.le_lteq.
  pose proof (Z.div_mod s D). pose proof (Z.mod_pos_bound s D HD). split; nia.
Qed.

Lemma days_ago_index_spec d now span i :
  days_ago_index d now span = Some i ↔ Z.of_nat i < span ∧ d = day_of now span (Z.of_nat i).
Proof.
  unfold days_ago_index, day_of. destruct ((_ <? 0) || _) eqn:Hb.
  - split; [done|]. bool_cases; lia.
  - apply orb_false_iff in Hb as [Hb1%Z.ltb_ge Hb2%Z.leb_gt]. split; [intros [= <-]; lia|].
    intros [? ?]. f_equal. lia.
Qed.

Lemma paint_days_lookup fuel d end_ now span impact slots i c :
  date_naive end_ + 1 - d ≤ Z.of_nat fuel → Z.of_nat i < span → slots !! i = Some c →
  paint_days fuel d end_ now span impact slots !! i =
    Some (if (d <=? day_of now span (Z.of_nat i)) && (day_start_utc (day_of now span (Z.of_nat i)) <? end_)
          then slot_max impact c else c).
Proof.
  set (D := day_of now span (Z.of_nat i)). revert d slots c. induction fuel as [|fuel IH]; simpl; intros d slots c Hfuel Hi Hc.
  - rewrite Hc. destruct (Z.leb_spec d D); [|done]. simpl.
    destruct (Z.ltb_spec (day_start_utc D) end_) as [Hlt|]; [|done]. exfalso.
    pose proof (before_next_day end_ (D - 1)) as He. replace (D - 1 + 1) with D in He by lia.
    rewrite (proj2 (Z.leb_le _ _)) in He by lia. apply Z.ltb_lt in He. lia.
  - destruct (Z.ltb_spec (day_start_utc d) end_) as [Hd|Hd].
    + set (slots' := match days_ago_index d now span with Some _ => _ | None => _ end).
      assert (slots' !! i = Some (if d =? D then slot_max impact c else c)) as Hs.
      { unfold slots'. destruct (days_ago_index d now span) as [j|] eqn:Hj.
        - apply days_ago_index_spec in Hj as [Hj Hdj]. destruct (decide (j = i)) as [->|Hne].
          + rewrite list_lookup_alter_eq, Hc. by rewrite (proj2 (Z.eqb_eq d D)) by done.
          + rewrite list_lookup_alter_ne, Hc by done. destruct (Z.eqb_spec d D); [|done].
            unfold D, day_of in *. lia.
        - rewrite Hc. destruct (Z.eqb_spec d D); [|done].
          enough (days_ago_index d now span = Some i) by congruence. by apply days_ago_index_spec. }
      erewrite IH; [|lia|done|exact Hs]. f_equal.
      destruct (Z.eqb_spec d D) as [->|Hne].
      * rewrite Z.leb_refl, (proj2 (Z.ltb_lt _ _) Hd). simpl.
        by rewrite (proj2 (Z.leb_gt (D + 1) D)) by lia.
      * destruct (Z.leb_spec (d + 1) D), (Z.leb_spec d D); [done|lia|lia|done].
    + rewrite Hc. destruct (Z.leb_spec d D); [|done]. simpl.
      destruct (Z.ltb_spec (day_start_utc D) end_); [|done]. unfold day_start_utc in *.
      assert (0 < DAY) by done. nia.
Qed.

Lemma length_paint_days fuel d end_ now span impact slots :
  length (paint_days fuel d end_ now span impact slots) = length slots.
Proof.
  revert d slots. induction fuel as [|fuel IH]; simpl; intros d slots; [done|].
  destruct (_ <? _); [|done]. rewrite IH. destruct (days_ago_index _ _ _); [by rewrite length_alter|done].
Qed.

(** *** The folds *)
Definition sized {A} (span : Z) (m : gmap Uuid (list A)) : Prop :=
  map_Forall (λ _ v, length v = Z.to_nat span) m.
Definition cell {A} (d : A) (m : gmap Uuid (list A)) (id : Uuid) (i : nat) : A :=
  default d (v ← m !! id; v !! i).

Lemma cell_insert {A} (d : A) m id v id' i x :
  v !! i = Some x → cell d (<[id := v]> m) id' i = if decide (id = id') then x else cell d m id' i.
Proof.
  intros Hv. unfold cell. case_decide as Hid; [subst; rewrite lookup_insert_eq; simpl; by rewrite Hv|].
  by rewrite lookup_insert_ne.
Qed.

Lemma sized_default {A} span (m : gmap Uuid (list A)) id (d : A) i :
  sized span m → Z.of_nat i < span →
  length (default (replicate (Z.to_nat span) d) (m !! id)) = Z.to_nat span ∧
  default (replicate (Z.to_nat span) d) (m !! id) !! i = Some (cell d m id i).
Proof.
  intros Hm Hi. unfold cell. destruct (m !! id) as [v|] eqn:Hv; simpl.
  - specialize (Hm id v Hv) as Hl. simpl in Hl. split; [done|].
    destruct (v !! i) eqn:Hx; [done|]. apply lookup_ge_None in Hx. lia.
  - rewrite length_replicate. split; [done|]. apply lookup_replicate_2. lia.
Qed.

Lemma touches_cell now span w d :
  touches now span w d =
    (date_naive (Z.max (PaintWindowRow.started_at w) (now - days span)) <=? d)
    && (day_start_utc d <? Z.min (default now (PaintWindowRow.ended_at w)) now).
Proof. unfold touches. by rewrite before_next_day. Qed.

Lemma paint_window_cell now span m w id i :
  sized span m → Z.of_nat i < span →
  sized span (paint_window now span m w) ∧
  cell None (paint_window now span m w) id i =
    if bool_decide (PaintWindowRow.target_id w = id) && touches now span w (day_of now span (Z.of_nat i))
    then slot_max (PaintWindowRow.impact w) (cell None m id i) else cell None m id i.
Proof.
  intros Hm Hi. unfold paint_window.
  destruct (sized_default span m (PaintWindowRow.target_id w) None i Hm Hi) as [Hlen Hslot].
  set (slots := default _ _) in *. set (end_ := Z.min _ now). set (d := date_naive _).
  split.
  { apply map_Forall_insert_2; [|done]. by rewrite length_paint_days. }
  erewrite cell_insert; [|apply paint_days_lookup; [unfold paint_fuel; lia|done|exact Hslot]].
  rewrite touches_cell. fold end_ d.
  case_decide as Hid; [subst id; rewrite bool_decide_refl; simpl; by destruct (_ && _)|].
  by rewrite bool_decide_eq_false_2.
Qed.

Lemma paint_windows_cell now span ws id i :
  Z.of_nat i < span →
  cell None (fold_left (paint_window now span) ws ∅) id i =
    fold_left (λ c w, if bool_decide (PaintWindowRow.target_id w = id)
                         && touches now span w (day_of now span (Z.of_nat i))
                      then slot_max (PaintWindowRow.impact w) c else c) ws None.
Proof.
  intros Hi. enough (∀ m, sized span m → cell None (fold_left (paint_window now span) ws m) id i =
    fold_left (λ c w, if bool_decide (PaintWindowRow.target_id w = id)
                         && touches now span w (day_of now span (Z.of_nat i))
                      then slot_max (PaintWindowRow.impact w) c else c) ws (cell None m id i)) as Hall.
  { by rewrite Hall. }
  induction ws as [|w ws IH]; intros m Hm; [done|]. cbn [fold_left].
  destruct (paint_window_cell now span m w id i Hm Hi) as [Hm' Hc]. by rewrite IH, Hc.
Qed.

Lemma mark_presence_cell now span m r id i :
  sized span m → Z.of_nat i < span →
  sized span (mark_presence now span m r) ∧
  cell false (mark_presence now span m r) id i =
    cell false m id i || has_checks id [r] (day_of now span (Z.of_nat i)).
Proof.
  intros Hm Hi. unfold mark_presence, has_checks. cbn [existsb]. rewrite orb_false_r.
  destruct (0 <? HistoryDayRow.day_total r); [|by rewrite andb_false_r, orb_false_r].
  rewrite andb_true_r. set (d := date_naive (ts_to_datetime (HistoryDayRow.day r))).
  destruct (days_ago_index d now span) as [j|] eqn:Hj; simpl.
  - apply days_ago_index_spec in Hj as [Hj Hd].
    destruct (sized_default span m (HistoryDayRow.target_id r) false i Hm Hi) as [Hlen Hslot].
    set (v := default _ _) in *. split.
    { apply map_Forall_insert_2; [|done]. by rewrite length_insert. }
    destruct (decide (j = i)) as [->|Hne].
    + erewrite cell_insert by (apply list_lookup_insert_eq; lia). rewrite (proj2 (Z.eqb_eq _ _) Hd), andb_true_r.
      case_decide as Hid; [by rewrite bool_decide_eq_true_2, orb_true_r|].
      by rewrite bool_decide_eq_false_2, orb_false_r.
    + erewrite cell_insert by (rewrite list_lookup_insert_ne; [exact Hslot|done]).
      destruct (Z.eqb_spec d (day_of now span (Z.of_nat i))); [unfold day_of in *; lia|].
      rewrite andb_false_r, orb_false_r. case_decide; [by subst|done].
  - split; [done|]. destruct (Z.eqb_spec d (day_of now span (Z.of_nat i))) as [Hd|];
      [|by rewrite andb_false_r, orb_false_r].
    enough (days_ago_index d now span = Some i) by congruence. by apply days_ago_index_spec.
Qed.

Lemma presence_cell now span rs id i :
  Z.of_nat i < span →
  cell false (fold_left (mark_presence now span) rs ∅) id i
    = has_checks id rs (day_of now span (Z.of_nat i)).
Proof.
  intros Hi. enough (∀ m, sized span m → cell false (fold_left (mark_presence now span) rs m) id i
    = cell false m id i || has_checks id rs (day_of now span (Z.of_nat i))) as Hall by (by rewrite Hall).
  induction rs as [|r rs IH]; intros m Hm; cbn [fold_left]; [by rewrite orb_false_r|].
  destruct (mark_presence_cell now span m r id i Hm Hi) as [Hm' Hc]. rewrite IH, Hc by done.
  unfold has_checks. cbn [existsb]. by rewrite orb_false_r, orb_assoc.
Qed.

Lemma strip_of_lookup data impacts span i :
  Z.of_nat i < span →
  strip_of data impacts span !! i = Some (day_state (is_some_and (λ v, default false (v !! i)) data)
          (v ← impacts; x ← v !! i; x)).
Proof. intros Hi. unfold strip_of. rewrite list_lookup_fmap, lookup_seq_lt by lia. done. Qed.

Lemma strips_lookup {A} (f : Uuid → A) ids (m : gmap Uuid A) id :
  fold_left (λ m id, <[id := f id]> m) ids m !! id = if decide (id ∈ ids) then Some (f id) else m !! id.
Proof.
  revert m. induction ids as [|a ids IH]; intros m; cbn [fold_left]; [done|].
  rewrite IH. destruct (decide (id ∈ ids)); [by rewrite decide_True by set_solver|].
  destruct (decide (id = a)) as [->|Hne]; [by rewrite lookup_insert_eq, decide_True by set_solver|].
  by rewrite lookup_insert_ne, decide_False by set_solver.
Qed.

(** A painted strip, cell by cell. *)
Lemma paint_strips_lookup ids presence windows now span id :
  id ∈ ids →
  ∃ strip, paint_strips ids presence windows now span !! id = Some strip ∧
    length strip = Z.to_nat span ∧
    ∀ i, Z.of_nat i < span →
      let d := day_of now span (Z.of_nat i) in
      ∃ worst, strip !! i = Some (day_state (has_checks id presence d) worst) ∧
        is_worst PaintWindowRow.impact
          (λ w, bool_decide (PaintWindowRow.target_id w = id) && touches now span w d) windows worst.
Proof.
  intros Hid. unfold paint_strips.
  rewrite (strips_lookup (λ id, strip_of _ _ span)), decide_True by done. eexists; split; [done|].
  split; [unfold strip_of; by rewrite length_fmap, length_seq|].
  intros i Hi. rewrite strip_of_lookup by done.
  eexists; split.
  - rewrite <-presence_cell by done. unfold cell, is_some_and.
    by destruct (fold_left (mark_presence now span) presence ∅ !! id).
  - pose proof (paint_windows_cell now span windows id i Hi) as Hc.
    assert ((v ← fold_left (paint_window now span) windows ∅ !! id; x ← v !! i; x)
      = cell None (fold_left (paint_window now span) windows ∅) id i) as ->.
    { unfold cell. destruct (_ !! id) as [v|]; simpl; [|done]. by destruct (v !! i). }
    rewrite Hc. apply (fold_slot_max PaintWindowRow.impact).
Qed.
End Strips.

(** ** The banner *)
Section Banner.
Import PublicComponentStatus.

(** What one component asks of the banner; the states are declared in order of severity. *)
Definition asks_for (s : t) : OverallState.t :=
  match s with
  | Operational | NoData => OverallState.Operational
  | Maintenance => OverallState.Maintenance
  | Degraded => OverallState.MinorDisruption
  | PartialOutage => OverallState.PartialOutage
  | MajorOutage => OverallState.MajorOutage
  end.
Definition severity (s : OverallState.t) : Z :=
  match s with
  | OverallState.Operational => 0
  | OverallState.Maintenance => 1
  | OverallState.MinorDisruption => 2
  | OverallState.PartialOutage => 3
  | OverallState.MajorOutage => 4
  end.

Lemma overall_cases l :
  match overall_state l with
  | OverallState.Operational => ∀ s, s ∈ l → asks_for s = OverallState.Operational
  | o => (∃ s, s ∈ l ∧ asks_for s = o) ∧ ∀ s, s ∈ l → severity (asks_for s) ≤ severity o
  end.
Proof.
  unfold overall_state. case_bool_decide as H1; [split; [by exists MajorOutage|by intros [] _]|].
  case_bool_decide as H2; [split; [by exists PartialOutage|by intros [] ?]|].
  case_bool_decide as H3; [split; [by exists Degraded|by intros [] ?]|].
  assert (forallb (λ s, match s with Maintenance | Operational | NoData => true | _ => false end) l = true) as ->.
  { apply forallb_forall. intros s Hs%list_elem_of_In. by destruct s. }
  rewrite andb_true_r. case_bool_decide as H4; [split; [by exists Maintenance|by intros [] ?]|].
  by intros [] ?.
Qed.

Lemma banner_spec l :
  (∀ s, s ∈ l → severity (asks_for s) ≤ severity (overall_state l)) ∧
  (overall_state l = OverallState.Operational ∨ ∃ s, s ∈ l ∧ asks_for s = overall_state l).
Proof.
  pose proof (overall_cases l) as Hc. destruct (overall_state l) eqn:Ho; [|split; [|right]; apply Hc..].
  split; [|by left]. intros s Hs. by rewrite Hc.
Qed.
End Banner.

(** The banner is the worst of the components: nothing on the page asks for
    more, something asks for exactly that (or nothing asks for anything), and the
    order of the components does not matter. *)
Theorem banner_is_the_worst l l' :
  l ≡ₚ l' →
  overall_state l' = overall_state l ∧
  (∀ s, s ∈ l → severity (asks_for s) ≤ severity (overall_state l)) ∧
  (overall_state l = OverallState.Operational ∨ ∃ s, s ∈ l ∧ asks_for s = overall_state l).
Proof.
  intros Hp. split; [|apply banner_spec].
  destruct (banner_spec l) as [Hmax Hin], (banner_spec l') as [Hmax' Hin'].
  assert (severity (overall_state l') = severity (overall_state l)) as Hs.
  { apply Z.le_antisymm.
    - destruct Hin' as [->|(s & Hs & <-)]; [by destruct (overall_state l)|]. apply Hmax. by rewrite Hp.
    - destruct Hin as [->|(s & Hs & <-)]; [by destruct (overall_state l')|]. apply Hmax'. by rewrite <-Hp. }
  by destruct (overall_state l), (overall_state l').
Qed.

(** A cell of a strip shows the worst confirmed incident that overlaps its day,
    the window cut to the history and to now; without one, whether the rollup saw
    a check that day. The loop over days, the index arithmetic and the folds
    compute exactly that, for every component of the page and every day. *)
Theorem strip_shows_worst_overlap ids presence windows now span id :
  id ∈ ids →
  ∃ strip, paint_strips ids presence windows now span !! id = Some strip ∧
    length strip = Z.to_nat span ∧
    ∀ i, Z.of_nat i < span →
      ∃ worst, strip !! i = Some (day_state (has_checks id presence (day_of now span (Z.of_nat i))) worst) ∧
        is_worst PaintWindowRow.impact
          (λ w, bool_decide (PaintWindowRow.target_id w = id)
                && touches now span w (day_of now span (Z.of_nat i))) windows worst.
Proof. intros Hid. exact (paint_strips_lookup ids presence windows now span id Hid). Qed.

Module StripSample.
(** Noon of day 10; an outage from day 8 to the midnight of day 9. *)
Definition now : DateTime := 10 * DAY + seconds 43200.
Definition outage : PaintWindowRow.t := {|
  PaintWindowRow.target_id := 1%N; PaintWindowRow.status_at_start := "down";
  PaintWindowRow.severity := "major"; PaintWindowRow.origin := "monitor";
  PaintWindowRow.regions_up := Some []; PaintWindowRow.started_at := 8 * DAY + seconds 60;
  PaintWindowRow.ended_at := Some (9 * DAY) |}.
Definition seen : HistoryDayRow.t := {|
  HistoryDayRow.target_id := 1%N; HistoryDayRow.day := 10 * 86400; HistoryDayRow.day_total := 3 |}.

Example painted :
  paint_strips [1%N] [seen] [outage] now 4 !! 1%N =
    Some [DayState.NoData; DayState.MajorOutage; DayState.NoData; DayState.Operational].
Proof. by vm_compute. Qed.

Lemma strip_shows_worst_overlap_witness :
  ∃ strip, paint_strips [1%N] [seen] [outage] now 4 !! 1%N = Some strip ∧ length strip = 4%nat.
Proof.
  destruct (strip_shows_worst_overlap [1%N] [seen] [outage] now 4 1%N) as (strip & Hs & Hl & _);
    [by left|]. by exists strip.
Defined.

Lemma banner_is_the_worst_witness :
  overall_state [PublicComponentStatus.Maintenance; PublicComponentStatus.Degraded] =
  overall_state [PublicComponentStatus.Degraded; PublicComponentStatus.Maintenance].
Proof.
  apply (banner_is_the_worst [PublicComponentStatus.Degraded; PublicComponentStatus.Maintenance]).
  apply Permutation_swap.
Defined.
End StripSample.
