(* ===== verification/StatusBoard.v ===== *)
(** * Status pages: assembling the page

    src/public_status/aggregator.rs ([OrgAggregator]): the queries read as filters
    over the tables, in their stated order (ties keep the order of the rows), and
    [build] and [component_history] over them. One build is one reading of the
    tables, and [now()] in SQL is the aggregator's own reading of the clock. The
    order Postgres gives text is a parameter; a share token opens as in Crypto. *)

From Stdlib Require Import Ascii.
From S2P Require Import Prelude Text Orders Crypto Domain StatusPage.

(** ** The rows *)
Module SpcRow.
Record t := {
  status_page_id : Uuid; org_id : OrgId; target_id : Uuid;
  public_name : option string; public_description : option string; public_group : option string;
  sort_order : Z; detail_link_enabled : bool; share_id : option Uuid;
}.
End SpcRow.

Module TargetRow.
Record t := { id : Uuid; org_id : OrgId; name : string; plan_hold_at : option DateTime }.
End TargetRow.

Module ShareRow.
Record t := { id : Uuid; org_id : OrgId; target_id : Uuid; token_enc : string;
  revoked_at : option DateTime; expires_at : option DateTime }.
End ShareRow.

Module IncidentTableRow.
Record t := {
  id : Uuid; org_id : OrgId; target_id : Uuid;
  started_at : DateTime; ended_at : option DateTime;
  severity : string; status_at_start : string; public_title : option string;
  origin : string; visibility : string; counts_as_downtime : bool;
  regions_up : option (list string);
}.
End IncidentTableRow.

Module UpdateRow.
Record t := { incident_id : Uuid; org_id : OrgId; posted_at : DateTime; phase : string; message : string }.
End UpdateRow.

Module WindowRow.
Record t := { id : Uuid; org_id : OrgId; title : string; description : option string;
  starts_at : DateTime; ends_at : DateTime }.
End WindowRow.

(** [maintenance_window_components]. *)
Module MwcRow.
Record t := { maintenance_id : Uuid; target_id : Uuid }.
End MwcRow.

(** A row of [check_results_1h]; [hour] in seconds. *)
Module HourRow.
Record t := { org_id : OrgId; target_id : Uuid; hour : Z; total_checks : Z }.
End HourRow.

Record Tables := {
  status_page_components : list SpcRow.t;
  targets : list TargetRow.t;
  monitor_shares : list ShareRow.t;
  incidents : list IncidentTableRow.t;
  incident_updates : list UpdateRow.t;
  maintenance_windows : list WindowRow.t;
  maintenance_window_components : list MwcRow.t;
  check_results_1h : list HourRow.t;
}.

(** The order of text in Postgres. *)
Class Collation := { collate : string → string → bool }.

(** ** src/public_status/mod.rs, and the title cap of the popovers *)
Definition auto_incident_title (component_name status_at_start : string) : string :=
  component_name +:+ " " +:+ replace "_" " " status_at_start.

Definition ELLIPSIS : string := byte 226 (byte 128 (byte 166 "")).
Definition is_char_boundary (s : string) (i : nat) : bool :=
  match String.get i s with
  | Some b => let n := nat_of_ascii b in (n <? 128)%nat || (191 <? n)%nat
  | None => (i =? String.length s)%nat
  end.
Fixpoint floor_boundary (s : string) (end_ : nat) : nat :=
  match end_ with
  | O => O
  | S e => if is_char_boundary s end_ then end_ else floor_boundary s e
  end.
Definition MAX_TITLE : nat := 140.
Definition truncate_title (s : string) : string :=
  if (String.length s <=? MAX_TITLE)%nat then s
  else take_chars (floor_boundary s MAX_TITLE) s +:+ ELLIPSIS.

(** ** The configuration and what a build carries *)
Record AggregatorConfig := {
  cfg_site_name : string;
  history_days : Z;
  recent_incidents_days : Z;
  max_recent_incidents : Z;
  upcoming_maintenance_horizon : Duration;
  app_base_url : string;
}.

Module PageComponent.
Record t := {
  id : Uuid; name : string; description : option string;
  group : option string; sort_order : Z; detail_url : option string;
}.
End PageComponent.

Module IncidentRow.
Record t := {
  id : Uuid; target_id : Uuid; started_at : DateTime; ended_at : option DateTime;
  severity : string; status_at_start : string; public_title : option string;
}.
End IncidentRow.

Module MarkerWindowRow.
Record t := {
  id : Uuid; target_id : Uuid; public_title : option string; status_at_start : string;
  started_at : DateTime; ended_at : option DateTime;
}.
End MarkerWindowRow.

Module HistoryIncidentMarker.
Record t := { id : Uuid; component_id : Uuid; title : string;
  started_at : DateTime; ended_at : option DateTime }.
End HistoryIncidentMarker.

Definition org_eqb (a b : OrgId) : bool := bool_decide (a = b).
Definition any_of (ids : list Uuid) (id : Uuid) : bool := bool_decide (id ∈ ids).
Definition is_public (i : IncidentTableRow.t) : bool := String.eqb (IncidentTableRow.visibility i) "public".

(** The columns a query selects. *)
Definition incident_row (i : IncidentTableRow.t) : IncidentRow.t := {|
  IncidentRow.id := IncidentTableRow.id i; IncidentRow.target_id := IncidentTableRow.target_id i;
  IncidentRow.started_at := IncidentTableRow.started_at i; IncidentRow.ended_at := IncidentTableRow.ended_at i;
  IncidentRow.severity := IncidentTableRow.severity i;
  IncidentRow.status_at_start := IncidentTableRow.status_at_start i;
  IncidentRow.public_title := IncidentTableRow.public_title i |}.
Definition marker_row (i : IncidentTableRow.t) : MarkerWindowRow.t := {|
  MarkerWindowRow.id := IncidentTableRow.id i; MarkerWindowRow.target_id := IncidentTableRow.target_id i;
  MarkerWindowRow.public_title := IncidentTableRow.public_title i;
  MarkerWindowRow.status_at_start := IncidentTableRow.status_at_start i;
  MarkerWindowRow.started_at := IncidentTableRow.started_at i;
  MarkerWindowRow.ended_at := IncidentTableRow.ended_at i |}.
Definition paint_row (i : IncidentTableRow.t) : PaintWindowRow.t := {|
  PaintWindowRow.target_id := IncidentTableRow.target_id i;
  PaintWindowRow.status_at_start := IncidentTableRow.status_at_start i;
  PaintWindowRow.severity := IncidentTableRow.severity i; PaintWindowRow.origin := IncidentTableRow.origin i;
  PaintWindowRow.regions_up := IncidentTableRow.regions_up i;
  PaintWindowRow.started_at := IncidentTableRow.started_at i;
  PaintWindowRow.ended_at := IncidentTableRow.ended_at i |}.

(** A component with its group and its place in it. *)
Abbreviation Placed := (option string * Z * PublicComponent.t)%type.

Section Aggregator.
Context `{Primitives, Collation} (cfg : AggregatorConfig) (cipher : option Cipher) (t : Tables).

(** ** [load_page_components] *)
Definition open_share (now : DateTime) (c : SpcRow.t) : option ShareRow.t :=
  s ← SpcRow.share_id c;
  List.find (λ ms, bool_decide (ShareRow.id ms = s) && is_none (ShareRow.revoked_at ms)
                   && is_none_or (λ e, now <? e) (ShareRow.expires_at ms)) (monitor_shares t).

Definition page_component (now : DateTime) (row : SpcRow.t * TargetRow.t) : PageComponent.t :=
  let '(c, tg) := row in
  let share_token_enc :=
    if SpcRow.detail_link_enabled c then ShareRow.token_enc <$> open_share now c else None in {|
  PageComponent.id := SpcRow.target_id c;
  PageComponent.name := default (TargetRow.name tg) (SpcRow.public_name c);
  PageComponent.description := SpcRow.public_description c;
  PageComponent.group := SpcRow.public_group c;
  PageComponent.sort_order := SpcRow.sort_order c;
  PageComponent.detail_url :=
    (λ token, trim_end_matches "/"%char (app_base_url cfg) +:+ "/m/" +:+ token)
      <$> (sealed ← share_token_enc; open_token sealed cipher) |}.

Definition page_rows (page : Uuid) (org : OrgId) : list (SpcRow.t * TargetRow.t) :=
  c ← List.filter (λ c, bool_decide (SpcRow.status_page_id c = page) && org_eqb (SpcRow.org_id c) org)
        (status_page_components t);
  pair c <$> List.filter (λ tg, bool_decide (TargetRow.id tg = SpcRow.target_id c)
                                && org_eqb (TargetRow.org_id tg) (SpcRow.org_id c)
                                && is_none (TargetRow.plan_hold_at tg)) (targets t).

Definition load_page_components (now : DateTime) (page : Uuid) (org : OrgId) : list PageComponent.t :=
  page_component now <$> sort_by
    (then_le (on (λ r, SpcRow.public_group r.1) (nulls_last collate))
      (then_le (on (λ r, SpcRow.sort_order r.1) Z.leb) (on (λ r, TargetRow.name r.2) collate)))
    (page_rows page org).

(** ** [load_maintenance] *)
Definition maintenance_targets (w : WindowRow.t) : list Uuid :=
  MwcRow.target_id <$> List.filter (λ c, bool_decide (MwcRow.maintenance_id c = WindowRow.id w))
                         (maintenance_window_components t).

Definition maintenance_rows (org : OrgId) (now : DateTime) : list WindowRow.t :=
  sort_by_key WindowRow.starts_at
    (List.filter (λ w, org_eqb (WindowRow.org_id w) org && (now <? WindowRow.ends_at w)
                       && (WindowRow.starts_at w <? now + upcoming_maintenance_horizon cfg))
       (maintenance_windows t)).

Definition maintenance_step (now : DateTime) (component_ids : list Uuid) (name_by_id : gmap Uuid string)
    (acc : list PublicMaintenance.t * list PublicMaintenance.t * list Uuid) (row : WindowRow.t)
    : list PublicMaintenance.t * list PublicMaintenance.t * list Uuid :=
  let '(active, upcoming, active_target_ids) := acc in
  let on_page_components := List.filter (any_of component_ids) (maintenance_targets row) in
  match on_page_components with
  | [] => acc
  | _ =>
      let pm := {|
        PublicMaintenance.id := WindowRow.id row; PublicMaintenance.title := WindowRow.title row;
        PublicMaintenance.description := WindowRow.description row;
        PublicMaintenance.starts_at := WindowRow.starts_at row;
        PublicMaintenance.ends_at := WindowRow.ends_at row;
        PublicMaintenance.affected_component_names := omap (λ id, name_by_id !! id) on_page_components |} in
      if (WindowRow.starts_at row <=? now) && (now <? WindowRow.ends_at row)
      then (active ++ [pm], upcoming, active_target_ids ++ on_page_components)
      else if now <? WindowRow.starts_at row then (active, upcoming ++ [pm], active_target_ids)
      else acc
  end.
Definition load_maintenance (org : OrgId) (now : DateTime) (component_ids : list Uuid)
    (name_by_id : gmap Uuid string) : list PublicMaintenance.t * list PublicMaintenance.t * list Uuid :=
  fold_left (maintenance_step now component_ids name_by_id) (maintenance_rows org now) ([], [], []).

(** ** Incidents *)
Definition update_of (u : UpdateRow.t) : PublicIncidentUpdate.t := {|
  PublicIncidentUpdate.posted_at := UpdateRow.posted_at u;
  PublicIncidentUpdate.phase := IncidentStatusPhase.from_db_str (UpdateRow.phase u);
  PublicIncidentUpdate.message := UpdateRow.message u |}.

(** [ORDER BY incident_id, posted_at ASC]. *)
Definition updates_of (org : OrgId) (ids : list Uuid) : list UpdateRow.t :=
  sort_by (then_le (on UpdateRow.incident_id N.leb) (on UpdateRow.posted_at Z.leb))
    (List.filter (λ u, any_of ids (UpdateRow.incident_id u) && org_eqb (UpdateRow.org_id u) org)
       (incident_updates t)).

Definition hydrate_one (name_by_id : gmap Uuid string) (updates : list UpdateRow.t) (r : IncidentRow.t)
    : PublicIncident.t :=
  let component_name := default "" (name_by_id !! IncidentRow.target_id r) in
  let my_updates := update_of <$> List.filter
    (λ u, bool_decide (UpdateRow.incident_id u = IncidentRow.id r)) updates in {|
  PublicIncident.id := IncidentRow.id r;
  PublicIncident.component_id := IncidentRow.target_id r;
  PublicIncident.component_name := component_name;
  PublicIncident.title := default (auto_incident_title component_name (IncidentRow.status_at_start r))
                            (IncidentRow.public_title r);
  PublicIncident.started_at := IncidentRow.started_at r;
  PublicIncident.ended_at := IncidentRow.ended_at r;
  PublicIncident.severity := IncidentSeverity.from_db_str (IncidentRow.severity r);
  PublicIncident.status_phase := default IncidentStatusPhase.Investigating
                                   (PublicIncidentUpdate.phase <$> last my_updates);
  PublicIncident.updates := my_updates;
  PublicIncident.postmortem := None |}.

Definition hydrate_incidents (org : OrgId) (rows : list IncidentRow.t) (name_by_id : gmap Uuid string)
    : list PublicIncident.t :=
  match rows with
  | [] => []
  | _ => hydrate_one name_by_id (updates_of org (IncidentRow.id <$> rows)) <$> rows
  end.

(** [ORDER BY i.started_at DESC], and with [i.id DESC] after it. *)
Definition started_desc : IncidentTableRow.t → IncidentTableRow.t → bool :=
  on IncidentTableRow.started_at (desc Z.leb).
Definition started_id_desc : IncidentTableRow.t → IncidentTableRow.t → bool :=
  then_le started_desc (on IncidentTableRow.id (desc N.leb)).

Definition of_page (org : OrgId) (component_ids : list Uuid) (i : IncidentTableRow.t) : bool :=
  org_eqb (IncidentTableRow.org_id i) org && any_of component_ids (IncidentTableRow.target_id i).

Definition load_active_incidents (org : OrgId) (component_ids : list Uuid) (name_by_id : gmap Uuid string)
    : list PublicIncident.t :=
  match component_ids with [] => [] | _ =>
    hydrate_incidents org (incident_row <$> sort_by started_desc
      (List.filter (λ i, of_page org component_ids i && is_none (IncidentTableRow.ended_at i) && is_public i)
         (incidents t))) name_by_id
  end.

Definition load_recent_incidents (org : OrgId) (now : DateTime) (component_ids : list Uuid)
    (name_by_id : gmap Uuid string) : list PublicIncident.t * bool :=
  match component_ids with [] => ([], false) | _ =>
    let since := now - days (recent_incidents_days cfg) in
    let peek_limit := max_recent_incidents cfg + 1 in
    let rows := incident_row <$> take (Z.to_nat peek_limit) (sort_by started_id_desc
      (List.filter (λ i, of_page org component_ids i && (since <=? IncidentTableRow.started_at i) && is_public i)
         (incidents t))) in
    let has_more := max_recent_incidents cfg <? Z.of_nat (length rows) in
    let rows := if has_more then take (Z.to_nat (max_recent_incidents cfg)) rows else rows in
    (hydrate_incidents org rows name_by_id, has_more)
  end.

Definition MARKER_CAP : nat := 1000.
Definition load_marker_windows (org : OrgId) (now : DateTime) (component_ids : list Uuid)
    : list MarkerWindowRow.t :=
  match component_ids with [] => [] | _ =>
    let since := now - days (history_days cfg) in
    marker_row <$> take MARKER_CAP (sort_by started_desc
      (List.filter (λ i, of_page org component_ids i
                         && is_none_or (λ e, since <=? e) (IncidentTableRow.ended_at i) && is_public i)
         (incidents t)))
  end.

Definition load_paint_windows (org : OrgId) (now : DateTime) (component_ids : list Uuid) (span_days : Z)
    : list PaintWindowRow.t :=
  match component_ids with [] => [] | _ =>
    let since := now - days span_days in
    paint_row <$> List.filter (λ i, of_page org component_ids i
      && is_none_or (λ e, since <=? e) (IncidentTableRow.ended_at i)
      && (String.eqb (IncidentTableRow.origin i) "monitor" || is_public i)
      && IncidentTableRow.counts_as_downtime i) (incidents t)
  end.

(** [toStartOfDay(hour)] and the groups of [GROUP BY target_id, day]. *)
Definition start_of_day (secs : Z) : Z := secs / 86400 * 86400.
Definition load_day_presence (org : OrgId) (component_ids : list Uuid) (now : DateTime) (span_days : Z)
    : list HistoryDayRow.t :=
  match component_ids with [] => [] | _ =>
    let from := (now - days span_days) / NANOS in
    let rows := List.filter (λ r, org_eqb (HourRow.org_id r) org && any_of component_ids (HourRow.target_id r)
      && (from <=? HourRow.hour r) && (HourRow.hour r <? now / NANOS)) (check_results_1h t) in
    let key r := (HourRow.target_id r, start_of_day (HourRow.hour r)) in
    let keys := fold_left push_new (key <$> rows) [] in
    (λ k, {| HistoryDayRow.target_id := k.1; HistoryDayRow.day := k.2;
             HistoryDayRow.day_total :=
               sumZ (HourRow.total_checks <$> List.filter (λ r, bool_decide (key r = k)) rows) |}) <$> keys
  end.

(** ** [build] *)
Definition history_marker (name_by_id : gmap Uuid string) (w : MarkerWindowRow.t) : HistoryIncidentMarker.t :=
  let component_name := default "" (name_by_id !! MarkerWindowRow.target_id w) in {|
  HistoryIncidentMarker.id := MarkerWindowRow.id w;
  HistoryIncidentMarker.component_id := MarkerWindowRow.target_id w;
  HistoryIncidentMarker.title := truncate_title
    (default (auto_incident_title component_name (MarkerWindowRow.status_at_start w))
       (MarkerWindowRow.public_title w));
  HistoryIncidentMarker.started_at := MarkerWindowRow.started_at w;
  HistoryIncidentMarker.ended_at := MarkerWindowRow.ended_at w |}.

(** [entry(..).and_modify(max).or_insert(impact)] over the open windows. *)
Definition open_worst (paint_windows : list PaintWindowRow.t) : gmap Uuid IncidentImpact.t :=
  fold_left (λ m w,
    let impact := PaintWindowRow.impact w in
    <[PaintWindowRow.target_id w :=
        match m !! PaintWindowRow.target_id w with
        | Some cur => IncidentImpact.max cur impact | None => impact end]> m)
    (List.filter (λ w, is_none (PaintWindowRow.ended_at w)) paint_windows) ∅.

Definition public_component (maintenance_by_target : list Uuid) (worst : gmap Uuid IncidentImpact.t)
    (history_by_target : gmap Uuid (list DayState.t)) (c : PageComponent.t) : PublicComponent.t :=
  let maint := bool_decide (PageComponent.id c ∈ maintenance_by_target) in
  let history := default (replicate (Z.to_nat (history_days cfg)) DayState.NoData)
                   (history_by_target !! PageComponent.id c) in
  let has_evidence := existsb (λ d, bool_decide (d ≠ DayState.NoData)) history in {|
  PublicComponent.id := PageComponent.id c; PublicComponent.name := PageComponent.name c;
  PublicComponent.description := PageComponent.description c;
  PublicComponent.current_status := component_status (worst !! PageComponent.id c) maint has_evidence;
  PublicComponent.history := history;
  PublicComponent.detail_url := PageComponent.detail_url c |}.

Definition placed_le : Placed → Placed → bool :=
  then_le (on (λ x, x.1.1) (option_le String.leb))
    (then_le (on (λ x, x.1.2) Z.leb) (on (λ x, PublicComponent.name x.2) String.leb)).

Record Grouping := {
  groups_done : list PublicComponentGroup.t;
  current_group : option string;
  current_items : list PublicComponent.t;
}.
Definition group_step (s : Grouping) (x : Placed) : Grouping :=
  let '(g, _, pc) := x in
  let s :=
    if bool_decide (g = current_group s) then s
    else
      let flush := match current_items s with [] => is_some (current_group s) | _ => true end in {|
        groups_done := if flush
          then groups_done s ++ [{| PublicComponentGroup.name := current_group s;
                                    PublicComponentGroup.components := current_items s |}]
          else groups_done s;
        current_group := g;
        current_items := if flush then [] else current_items s |} in
  {| groups_done := groups_done s; current_group := current_group s; current_items := current_items s ++ [pc] |}.

Definition group_components (l : list Placed) : list PublicComponentGroup.t :=
  let s := fold_left group_step l {| groups_done := []; current_group := None; current_items := [] |} in
  match current_items s with
  | [] => groups_done s
  | items => groups_done s ++ [{| PublicComponentGroup.name := current_group s;
                                  PublicComponentGroup.components := items |}]
  end.
Definition ungrouped_last (groups : list PublicComponentGroup.t) : list PublicComponentGroup.t :=
  match position (λ g, is_none (PublicComponentGroup.name g)) groups with
  | Some idx =>
      match groups !! idx with
      | Some ung => delete idx groups ++ [ung]
      | None => groups
      end
  | None => groups
  end.

Record Snapshot := {
  snap_page : PublicStatusPage.t;
  snap_markers : list HistoryIncidentMarker.t;
  snap_names : gmap Uuid string;
}.

Definition name_map (components : list PageComponent.t) : gmap Uuid string :=
  fold_left (λ m c, <[PageComponent.id c := PageComponent.name c]> m) components ∅.

(** What [build] reads before it shapes the page. *)
Definition shown_components (now : DateTime) (page : Uuid) (org : OrgId) : list Placed :=
  let components := load_page_components now page org in
  let component_ids := PageComponent.id <$> components in
  let n := history_days cfg in
  let '(_, _, maintenance_by_target) := load_maintenance org now component_ids (name_map components) in
  let paint_windows := load_paint_windows org now component_ids n in
  let strips := paint_strips component_ids (load_day_presence org component_ids now n) paint_windows now n in
  sort_by placed_le
    ((λ c, (PageComponent.group c, PageComponent.sort_order c,
            public_component maintenance_by_target (open_worst paint_windows) strips c)) <$> components).

Definition build (now : DateTime) (page : Uuid) (org : OrgId) : Snapshot :=
  let components := load_page_components now page org in
  let component_ids := PageComponent.id <$> components in
  let name_by_id := name_map components in
  let '(active_maintenance, upcoming_maintenance, _) := load_maintenance org now component_ids name_by_id in
  let '(recent_incidents, has_more) := load_recent_incidents org now component_ids name_by_id in
  let groups := ungrouped_last (group_components (shown_components now page org)) in
  let component_statuses := g ← groups; PublicComponent.current_status <$> PublicComponentGroup.components g in {|
  snap_page := {|
    PublicStatusPage.overall := overall_status (overall_state component_statuses);
    PublicStatusPage.generated_at := now;
    PublicStatusPage.site_name := cfg_site_name cfg;
    PublicStatusPage.groups := groups;
    PublicStatusPage.active_incidents := load_active_incidents org component_ids name_by_id;
    PublicStatusPage.recent_incidents := recent_incidents;
    PublicStatusPage.recent_incidents_has_more := has_more;
    PublicStatusPage.active_maintenance := active_maintenance;
    PublicStatusPage.upcoming_maintenance := upcoming_maintenance |};
  snap_markers := history_marker name_by_id <$> load_marker_windows org now component_ids;
  snap_names := name_by_id |}.

(** ** [component_history] *)
Definition component_history (now : DateTime) (page : Uuid) (org : OrgId) (id : Uuid) (n : Z)
    : option ComponentHistoryResponse.t :=
  component ← List.find (λ c, bool_decide (PageComponent.id c = id)) (load_page_components now page org);
  let span := clamp 1 (history_days cfg) n in
  let history := default (replicate (Z.to_nat span) DayState.NoData)
    (paint_strips [id] (load_day_presence org [id] now span) (load_paint_windows org now [id] span) now span
       !! id) in
  Some {| ComponentHistoryResponse.component_id := id;
          ComponentHistoryResponse.component_name := PageComponent.name component;
          ComponentHistoryResponse.days := n;
          ComponentHistoryResponse.history := pad_or_truncate history (Z.to_nat n) |}.
End Aggregator.


(** ** Groups *)
Section Groups.
Implicit Types (l : list Placed) (s : Grouping) (gs : list PublicComponentGroup.t).

Definition placed_group (x : Placed) : option string := x.1.1.
Definition tagged (x : Placed) : option string * PublicComponent.t := (x.1.1, x.2).
Definition expand (g : PublicComponentGroup.t) : list (option string * PublicComponent.t) :=
  pair (PublicComponentGroup.name g) <$> PublicComponentGroup.components g.

(** What the fold has made of the list it has seen. *)
Record grouping_ok l s : Prop := {
  gr_flat : concat (expand <$> groups_done s) ++ (pair (current_group s) <$> current_items s) = tagged <$> l;
  gr_empty : current_items s = [] → groups_done s = [] ∧ current_group s = None;
  gr_full : Forall (λ g, PublicComponentGroup.components g ≠ []) (groups_done s);
  gr_names : NoDup ((PublicComponentGroup.name <$> groups_done s) ++ [current_group s]);
}.

Lemma expand_member gs g c :
  g ∈ gs → c ∈ PublicComponentGroup.components g →
  (PublicComponentGroup.name g, c) ∈ concat (expand <$> gs).
Proof.
  intros Hg Hc. apply list_elem_of_In, in_concat. exists (expand g).
  rewrite <-!list_elem_of_In. split; [by apply list_elem_of_fmap_2|]. unfold expand. set_solver.
Qed.

(** A group that is left does not come back. *)
Lemma group_step_ok l s x :
  grouping_ok l s →
  (placed_group x ≠ current_group s → ∀ y, y ∈ l → placed_group y ≠ placed_group x) →
  grouping_ok (l ++ [x]) (group_step s x).
Proof.
  intros [Hflat Hempty Hfull Hnames] Hruns. destruct x as [[g k] pc].
  unfold placed_group in Hruns. simpl in Hruns. unfold group_step.
  case_bool_decide as Hg.
  - subst g. split; simpl; [|by intros []%app_nil|done..].
    by rewrite !fmap_app, (assoc_L (++)), Hflat.
  - specialize (Hruns Hg). destruct (current_items s) as [|i items] eqn:Hi.
    + destruct (Hempty eq_refl) as [Hd Hc]. rewrite Hc. simpl. rewrite Hd in *.
      split; simpl; [|by intros|done|by repeat constructor; set_solver].
      rewrite fmap_app. rewrite Hc in Hflat. simpl in Hflat. by rewrite <-Hflat.
    + split; simpl; [|by intros|apply Forall_app; split; [done|by repeat constructor]|].
      * rewrite !fmap_app, concat_app, <-Hflat. simpl. by rewrite app_nil_r.
      * rewrite fmap_app. apply NoDup_app. split_and!; [done| |by repeat constructor; set_solver].
        intros o Ho ->%list_elem_of_singleton. simpl in Ho.
        apply elem_of_app in Ho as [Ho|Ho%list_elem_of_singleton]; [|done].
        apply list_elem_of_fmap in Ho as (h & -> & Hh).
        rewrite Forall_forall in Hfull. destruct (PublicComponentGroup.components h) as [|c cs] eqn:Hcs;
          [by apply (Hfull h)|].
        pose proof (expand_member (groups_done s) h c Hh) as Hm. rewrite Hcs in Hm.
        specialize (Hm ltac:(set_solver)).
        assert ((PublicComponentGroup.name h, c) ∈ tagged <$> l) as Hin by (rewrite <-Hflat; set_solver).
        apply list_elem_of_fmap in Hin as (y & Hy & Hyl). apply (Hruns y Hyl). by injection Hy.
Qed.

Lemma group_fold_ok l :
  StronglySorted (λ a b, placed_le a b = true) l →
  let s := fold_left group_step l {| groups_done := []; current_group := None; current_items := [] |} in
  grouping_ok l s ∧ ∀ x, last l = Some x → current_group s = placed_group x.
Proof.
  induction l as [|x l IH] using rev_ind; intros Hs; simpl.
  { split; [|done]. split; simpl; [done..|]. by repeat constructor; set_solver. }
  apply StronglySorted_app in Hs as (Hlt & Hs & _). destruct (IH Hs) as [Hok Hlast]. clear IH.
  rewrite fold_left_app. cbn [fold_left]. set (s := fold_left _ l _) in *. split.
  - apply group_step_ok; [done|]. intros Hne y Hy Heq.
    destruct (last l) as [z|] eqn:Hz; [|apply last_None in Hz; rewrite Hz in Hy; by apply not_elem_of_nil in Hy].
    apply Hne. rewrite (Hlast z eq_refl).
    apply last_Some in Hz as [l' ->]. apply elem_of_app in Hy as [Hy| ->%list_elem_of_singleton]; [|done].
    apply StronglySorted_app in Hs as (Hyz & _ & _).
    specialize (Hyz y z Hy ltac:(by left)) as Hyz'%then_le_first. unfold on in Hyz'.
    specialize (Hlt z x ltac:(set_solver) ltac:(by left)) as Hzx%then_le_first. unfold on in Hzx.
    unfold placed_group in *. rewrite Heq in Hyz'. revert Hyz' Hzx. clear.
    destruct (x.1.1) as [a|], (z.1.1) as [b|]; simpl; intros H1 H2; try done; f_equal.
    by apply String.leb_antisym.
  - intros y. rewrite last_snoc. intros [= <-]. destruct x as [[g k] pc]. unfold group_step.
    by case_bool_decide.
Qed.

Lemma group_components_spec l :
  StronglySorted (λ a b, placed_le a b = true) l →
  concat (expand <$> group_components l) = tagged <$> l ∧
  Forall (λ g, PublicComponentGroup.components g ≠ []) (group_components l) ∧
  NoDup (PublicComponentGroup.name <$> group_components l).
Proof.
  intros Hs. destruct (group_fold_ok l Hs) as [[Hflat Hempty Hfull Hnames] _]. unfold group_components.
  set (s := fold_left _ l _) in *. destruct (current_items s) as [|i items] eqn:Hi.
  - simpl in Hflat. rewrite app_nil_r in Hflat. split_and!; [done..|]. by apply NoDup_app in Hnames as [? _].
  - rewrite !fmap_app, concat_app. simpl. rewrite app_nil_r. split_and!; [done|by apply Forall_app; repeat constructor|done].
Qed.

(** The components of a group, found by its name. *)
Lemma expand_filter gs g :
  NoDup (PublicComponentGroup.name <$> gs) → g ∈ gs →
  List.filter (λ x, bool_decide (x.1 = PublicComponentGroup.name g)) (concat (expand <$> gs)) = expand g.
Proof.
  assert (∀ h, (∀ o, o ∈ expand h → o.1 = PublicComponentGroup.name h)) as Htag.
  { intros h o. unfold expand. by intros (c & -> & _)%list_elem_of_fmap. }
  induction gs as [|h gs IH]; csimpl; intros Hnd Hg; [by apply not_elem_of_nil in Hg|].
  apply NoDup_cons in Hnd as [Hh Hnd]. rewrite lfilter_app. apply elem_of_cons in Hg as [->|Hg].
  - rewrite lfilter_all, lfilter_nil, app_nil_r; [done| |].
    + intros o Ho. apply bool_decide_eq_false_2. intros Heq. apply Hh. rewrite <-Heq.
      apply list_elem_of_In, in_concat in Ho as (e & He & Ho). rewrite <-list_elem_of_In in He.
      apply list_elem_of_fmap in He as (h' & -> & Hh'). rewrite (Htag h') by (by apply list_elem_of_In).
      by apply list_elem_of_fmap_2.
    + intros o Ho. apply bool_decide_eq_true_2. by apply Htag.
  - rewrite IH by done. rewrite lfilter_nil; [done|]. intros o Ho. apply bool_decide_eq_false_2.
    rewrite (Htag h o Ho). intros Heq. apply Hh. rewrite Heq. by apply list_elem_of_fmap_2.
Qed.

Lemma ungrouped_last_spec gs :
  NoDup (PublicComponentGroup.name <$> gs) →
  ungrouped_last gs ≡ₚ gs ∧
  ∀ i g, ungrouped_last gs !! i = Some g → PublicComponentGroup.name g = None → S i = length gs.
Proof.
  intros Hnd. unfold ungrouped_last.
  assert (∀ gs, match position (λ g, is_none (PublicComponentGroup.name g)) gs with
    | Some idx => ∃ g, gs !! idx = Some g ∧ PublicComponentGroup.name g = None
    | None => ∀ g, g ∈ gs → PublicComponentGroup.name g ≠ None end) as Hpos.
  { clear. induction gs as [|g gs IH]; simpl; [by intros ? ?%not_elem_of_nil|].
    destruct (PublicComponentGroup.name g) eqn:Hg; simpl; [|by exists g].
    destruct (position _ gs); simpl; [done|]. intros h [->|Hh]%elem_of_cons; [by rewrite Hg|auto]. }
  specialize (Hpos gs). destruct (position _ gs) as [idx|].
  - destruct Hpos as (g & Hg & Hname). rewrite Hg.
    assert (delete idx gs ++ [g] ≡ₚ gs) as Hp.
    { rewrite <-Permutation_cons_append. symmetry. by apply delete_Permutation. }
    split; [done|]. intros i h Hi Hh.
    assert (length (delete idx gs ++ [g]) = length gs) as Hlen by (by rewrite Hp).
    rewrite <-Hlen, length_app. simpl.
    destruct (decide (i < length (delete idx gs))%nat) as [Hlt|Hge];
      [|apply lookup_lt_Some in Hi; rewrite length_app in Hi; simpl in Hi; lia].
    exfalso. rewrite lookup_app_l in Hi by done. rewrite <-Hp, fmap_app in Hnd.
    apply NoDup_app in Hnd as (_ & Hnd & _). apply (Hnd None).
    + rewrite <-Hh. apply list_elem_of_fmap_2. by eapply list_elem_of_lookup_2.
    + rewrite <-Hname. by left.
  - split; [done|]. intros i g Hi Hn. by edestruct Hpos; [eapply list_elem_of_lookup_2|].
Qed.

Lemma grouped_spec l :
  StronglySorted (λ a b, placed_le a b = true) l →
  let gs := ungrouped_last (group_components l) in
  NoDup (PublicComponentGroup.name <$> gs) ∧
  (∀ g, g ∈ gs → PublicComponentGroup.components g ≠ [] ∧
     PublicComponentGroup.components g =
       snd <$> List.filter (λ x, bool_decide (placed_group x = PublicComponentGroup.name g)) l) ∧
  (∀ i g, gs !! i = Some g → PublicComponentGroup.name g = None → S i = length gs).
Proof.
  intros Hs. destruct (group_components_spec l Hs) as (Hflat & Hfull & Hnd).
  destruct (ungrouped_last_spec _ Hnd) as [Hperm Hlast]. cbv zeta.
  split_and!; [by rewrite Hperm| |rewrite (Permutation_length Hperm); exact Hlast].
  intros g Hg. rewrite Hperm in Hg. rewrite Forall_forall in Hfull. split; [by apply Hfull|].
  pose proof (expand_filter _ g Hnd Hg) as He. rewrite Hflat, lfilter_fmap in He.
  apply (f_equal (fmap snd)) in He. unfold expand in He. rewrite <-!list_fmap_compose in He.
  etransitivity; [symmetry; apply list_fmap_id|]. symmetry. exact He.
Qed.
End Groups.

(** ** The page *)
Section Page.
Context `{Primitives, Collation} (cfg : AggregatorConfig) (cipher : option Cipher).
Implicit Types (t : Tables) (page : Uuid) (org : OrgId).

Definition page_groups t now page org : list PublicComponentGroup.t :=
  PublicStatusPage.groups (snap_page (build cfg cipher t now page org)).
Definition page_components t now page org : list PublicComponent.t :=
  concat (PublicComponentGroup.components <$> page_groups t now page org).

Lemma page_groups_eq t now page org :
  page_groups t now page org = ungrouped_last (group_components (shown_components cfg cipher t now page org)).
Proof.
  unfold page_groups, build. destruct (load_maintenance _ _ _ _ _ _) as [[??]?].
  by destruct (load_recent_incidents _ _ _ _ _ _).
Qed.

Lemma shown_sorted t now page org :
  StronglySorted (λ a b, placed_le a b = true) (shown_components cfg cipher t now page org).
Proof.
  unfold shown_components. destruct (load_maintenance _ _ _ _ _ _) as [[??]?].
  apply sorted_by. unfold placed_le. apply _.
Qed.

(** What each component of the page becomes. *)
Lemma elem_of_shown t now page org x :
  x ∈ shown_components cfg cipher t now page org ↔
  ∃ c maint, c ∈ load_page_components cfg cipher t now page org ∧
    maint = (load_maintenance cfg t org now (PageComponent.id <$> load_page_components cfg cipher t now page org)
               (name_map (load_page_components cfg cipher t now page org))).2 ∧
    let ids := PageComponent.id <$> load_page_components cfg cipher t now page org in
    let windows := load_paint_windows t org now ids (history_days cfg) in
    x = (PageComponent.group c, PageComponent.sort_order c,
         public_component cfg maint (open_worst windows)
           (paint_strips ids (load_day_presence t org ids now (history_days cfg)) windows now
              (history_days cfg)) c).
Proof.
  unfold shown_components. destruct (load_maintenance _ _ _ _ _ _) as [[a b] m] eqn:Hm.
  rewrite elem_of_sort_by, list_elem_of_fmap. split.
  - intros (c & -> & Hc). by exists c, m.
  - intros (c & maint & Hc & -> & ->). by exists c.
Qed.

Lemma length_shown_ids t now page org :
  PublicComponent.id ∘ snd <$> shown_components cfg cipher t now page org
    ≡ₚ PageComponent.id <$> load_page_components cfg cipher t now page org.
Proof.
  unfold shown_components. destruct (load_maintenance _ _ _ _ _ _) as [[??]?].
  rewrite sort_by_perm, <-list_fmap_compose. done.
Qed.

Lemma concat_expand gs :
  concat (PublicComponentGroup.components <$> gs) = snd <$> concat (expand <$> gs).
Proof.
  induction gs as [|g gs IH]; [done|]. csimpl. rewrite fmap_app, IH. f_equal.
  unfold expand. rewrite <-list_fmap_compose. symmetry. apply list_fmap_id.
Qed.

Lemma page_components_perm t now page org :
  page_components t now page org ≡ₚ snd <$> shown_components cfg cipher t now page org.
Proof.
  unfold page_components. rewrite page_groups_eq, concat_expand.
  destruct (group_components_spec _ (shown_sorted t now page org)) as (Hflat & _ & Hnd).
  destruct (ungrouped_last_spec _ Hnd) as [-> _]. rewrite Hflat, <-list_fmap_compose. done.
Qed.

Lemma elem_of_page_components t now page org c :
  c ∈ page_components t now page org ↔ ∃ x, x ∈ shown_components cfg cipher t now page org ∧ c = x.2.
Proof. rewrite page_components_perm, list_elem_of_fmap. naive_solver. Qed.
End Page.

(** The groups partition the page's components. Each group is named once and
    holds, in the stated order, exactly the components curated into it; no group is
    empty; every component of the page is in one; the ungrouped ones come last. *)
Theorem groups_partition_the_page `{Primitives, Collation} (cfg : AggregatorConfig) (cipher : option Cipher)
    (t : Tables) (now : DateTime) (page : Uuid) (org : OrgId) :
  let gs := page_groups cfg cipher t now page org in
  let shown := shown_components cfg cipher t now page org in
  NoDup (PublicComponentGroup.name <$> gs) ∧
  (∀ g, g ∈ gs → PublicComponentGroup.components g ≠ [] ∧
     PublicComponentGroup.components g =
       snd <$> List.filter (λ x, bool_decide (placed_group x = PublicComponentGroup.name g)) shown) ∧
  StronglySorted (λ a b, placed_le a b = true) shown ∧
  (∀ i g, gs !! i = Some g → PublicComponentGroup.name g = None → S i = length gs) ∧
  PublicComponent.id <$> page_components cfg cipher t now page org
    ≡ₚ PageComponent.id <$> load_page_components cfg cipher t now page org.
Proof.
  cbv zeta. rewrite page_groups_eq. pose proof (shown_sorted cfg cipher t now page org) as Hs.
  destruct (grouped_spec _ Hs) as (H1 & H2 & H3). split_and!; [exact H1|exact H2|exact Hs|exact H3|].
  rewrite page_components_perm, <-list_fmap_compose. apply length_shown_ids.
Qed.
