(* ===== verification/DetailShare.v ===== *)
(** * Status pages: the share behind a monitor's detail link

    src/api/handlers/status_page.rs ([ensure_detail_share], [remove_component]) over the
    queries they make (src/storage/status_pages.rs, src/storage/monitor_shares.rs), on
    the tables of StatusBoard. [ensure_detail_share] is the one place that writes
    [status_page_components.share_id], and what it writes is a share of the component's own organisation and monitor:
    [shares_at_home], which the assembled page relies on since its query joins the
    share by identifier alone. A share's identifier and its sealed token are drawn by
    the database and the minting of the token, and are arguments here. *)

From S2P Require Import Prelude Text Orders Crypto Domain StatusPage StatusBoard.

Module MonitorShare.
Record t := { id : Uuid; expires_at : option DateTime }.
End MonitorShare.

Module CreateShareOutcome.
Inductive t := Created (share : Uuid) | TargetNotFound | PerMonitorLimit | OrgMonitorLimit.
End CreateShareOutcome.

Definition component_not_found : AppError := NotFoundErr "STATUS_PAGE_NOT_FOUND" "component not on this page".

(** Every share a component points at is of the component's organisation and monitor. *)
Definition shares_at_home (t : Tables) : Prop :=
  ∀ c ms, c ∈ status_page_components t → ms ∈ monitor_shares t →
    SpcRow.share_id c = Some (ShareRow.id ms) →
    ShareRow.org_id ms = SpcRow.org_id c ∧ ShareRow.target_id ms = SpcRow.target_id c.

(** [id] is a share of this monitor of this organisation, and of no other. *)
Definition share_of (t : Tables) (org : OrgId) (target : Uuid) (id : Uuid) : Prop :=
  ∀ ms, ms ∈ monitor_shares t → ShareRow.id ms = id →
    ShareRow.org_id ms = org ∧ ShareRow.target_id ms = target.

Definition set_components (cs : list SpcRow.t) (t : Tables) : Tables := {|
  status_page_components := cs; targets := targets t; monitor_shares := monitor_shares t;
  incidents := incidents t; incident_updates := incident_updates t;
  maintenance_windows := maintenance_windows t;
  maintenance_window_components := maintenance_window_components t;
  check_results_1h := check_results_1h t |}.

Definition set_shares (ms : list ShareRow.t) (t : Tables) : Tables := {|
  status_page_components := status_page_components t; targets := targets t; monitor_shares := ms;
  incidents := incidents t; incident_updates := incident_updates t;
  maintenance_windows := maintenance_windows t;
  maintenance_window_components := maintenance_window_components t;
  check_results_1h := check_results_1h t |}.

Definition set_share (c : SpcRow.t) (share : Uuid) : SpcRow.t := {|
  SpcRow.status_page_id := SpcRow.status_page_id c; SpcRow.org_id := SpcRow.org_id c;
  SpcRow.target_id := SpcRow.target_id c; SpcRow.public_name := SpcRow.public_name c;
  SpcRow.public_description := SpcRow.public_description c; SpcRow.public_group := SpcRow.public_group c;
  SpcRow.sort_order := SpcRow.sort_order c; SpcRow.detail_link_enabled := SpcRow.detail_link_enabled c;
  SpcRow.share_id := Some share |}.

Definition set_revoked (ms : ShareRow.t) (now : DateTime) : ShareRow.t := {|
  ShareRow.id := ShareRow.id ms; ShareRow.org_id := ShareRow.org_id ms;
  ShareRow.target_id := ShareRow.target_id ms; ShareRow.token_enc := ShareRow.token_enc ms;
  ShareRow.revoked_at := Some now; ShareRow.expires_at := ShareRow.expires_at ms |}.

(** ** The queries *)
Section Stores.
Context `{Collation}.
Implicit Types (org : OrgId) (page target share : Uuid) (now : DateTime).

(** The rows of a page with its monitors, held ones included. *)
Definition list_components org page : M Tables (list SpcRow.t) := gets (λ t,
  fst <$> sort_by
    (then_le (on (λ r : SpcRow.t * TargetRow.t, SpcRow.public_group r.1) (nulls_last collate))
      (then_le (on (λ r, SpcRow.sort_order r.1) Z.leb) (on (λ r, TargetRow.name r.2) collate)))
    (c ← List.filter (λ c, bool_decide (SpcRow.status_page_id c = page) && org_eqb (SpcRow.org_id c) org)
          (status_page_components t);
     pair c <$> List.filter (λ tg, bool_decide (TargetRow.id tg = SpcRow.target_id c)
                                   && org_eqb (TargetRow.org_id tg) (SpcRow.org_id c)) (targets t))).

(** Of a share the caller reads the identifier and the expiry; their order is not
    looked at. *)
Definition list_for_target org target : M Tables (list MonitorShare.t) := gets (λ t,
  (λ ms, {| MonitorShare.id := ShareRow.id ms; MonitorShare.expires_at := ShareRow.expires_at ms |}) <$>
    List.filter (λ ms, org_eqb (ShareRow.org_id ms) org && bool_decide (ShareRow.target_id ms = target)
                       && is_none (ShareRow.revoked_at ms)) (monitor_shares t)).

(** A share no page minted: those are counted against the caps. *)
Definition unbound (t : Tables) (ms : ShareRow.t) : bool :=
  is_none (ShareRow.revoked_at ms) &&
  negb (existsb (λ c, bool_decide (SpcRow.share_id c = Some (ShareRow.id ms))) (status_page_components t)).

(** [pool_orgs] are the live organizations of the account that owns [org]. *)
Definition create (pool_orgs : list OrgId) (share : Uuid) (token_enc : string) org target
    (expires_at : option DateTime) (max_links_per_monitor max_shared_monitors : option Z) :
    M Tables CreateShareOutcome.t := λ t,
  let target_ok :=
    existsb (λ tg, bool_decide (TargetRow.id tg = target) && org_eqb (TargetRow.org_id tg) org) (targets t) in
  let links_here := Z.of_nat (length (List.filter (λ ms, org_eqb (ShareRow.org_id ms) org
    && bool_decide (ShareRow.target_id ms = target) && unbound t ms) (monitor_shares t))) in
  let shared_monitors := Z.of_nat (length (remove_dups (ShareRow.target_id <$>
    List.filter (λ ms, bool_decide (ShareRow.org_id ms ∈ pool_orgs) && unbound t ms) (monitor_shares t)))) in
  if negb target_ok then (Ok CreateShareOutcome.TargetNotFound, t)
  else if is_some_and (λ cap, cap <=? links_here) max_links_per_monitor
  then (Ok CreateShareOutcome.PerMonitorLimit, t)
  else if (links_here =? 0) && is_some_and (λ cap, cap <=? shared_monitors) max_shared_monitors
  then (Ok CreateShareOutcome.OrgMonitorLimit, t)
  else (Ok (CreateShareOutcome.Created share),
        set_shares ({| ShareRow.id := share; ShareRow.org_id := org; ShareRow.target_id := target;
                       ShareRow.token_enc := token_enc; ShareRow.revoked_at := None;
                       ShareRow.expires_at := expires_at |} :: monitor_shares t) t).

(** [rows_affected() > 0]. *)
Definition attach_share org page target (expected : option Uuid) share : M Tables bool := λ t,
  let hit c := bool_decide (SpcRow.status_page_id c = page) && bool_decide (SpcRow.target_id c = target)
               && org_eqb (SpcRow.org_id c) org && bool_decide (SpcRow.share_id c = expected) in
  (Ok (existsb hit (status_page_components t)),
   set_components ((λ c, if hit c then set_share c share else c) <$> status_page_components t) t).

Definition revoke now org target share : M Tables bool := λ t,
  let hit ms := bool_decide (ShareRow.id ms = share) && org_eqb (ShareRow.org_id ms) org
                && bool_decide (ShareRow.target_id ms = target) && is_none (ShareRow.revoked_at ms) in
  (Ok (existsb hit (monitor_shares t)),
   set_shares ((λ ms, if hit ms then set_revoked ms now else ms) <$> monitor_shares t) t).

(** The row of the page goes; the rest of the table is kept. *)
Definition drop_component org page target : M Tables bool := λ t,
  let hit c := bool_decide (SpcRow.status_page_id c = page) && bool_decide (SpcRow.target_id c = target)
               && org_eqb (SpcRow.org_id c) org in
  (Ok (existsb hit (status_page_components t)),
   set_components (List.filter (λ c, negb (hit c)) (status_page_components t)) t).

(** ** The handlers *)
Definition backing_share target (components : list SpcRow.t) : option Uuid :=
  List.find (λ c, bool_decide (SpcRow.target_id c = target)) components ≫= SpcRow.share_id.

Definition ensure_detail_share (pool_orgs : list OrgId) now (share : Uuid) (token_enc : string) org page target : M Tables unit :=
  components ← list_components org page;
  let existing := backing_share target components in
  live ← match existing with
         | Some s =>
             shares ← list_for_target org target;
             mret (existsb (λ m, bool_decide (MonitorShare.id m = s)
                                 && is_none_or (λ e, now <? e) (MonitorShare.expires_at m)) shares)
         | None => mret false
         end;
  if (live : bool) then mret tt
  else
    outcome ← create pool_orgs share token_enc org target None None None;
    match outcome with
    | CreateShareOutcome.Created share =>
        attached ← attach_share org page target existing share;
        if (attached : bool) then mret tt
        else revoke now org target share ≫= λ _, throw component_not_found
    | _ => throw component_not_found
    end.

Definition remove_component now org page target : M Tables unit :=
  components ← list_components org page;
  let share := backing_share target components in
  removed ← drop_component org page target;
  if (removed : bool) then
    match share with
    | Some s => revoke now org target s ≫= λ _, mret tt
    | None => mret tt
    end
  else throw component_not_found.

(** ** A linked share stays at home *)
Lemma org_eqb_eq (a b : OrgId) : org_eqb a b = true → a = b.
Proof. unfold org_eqb. by intros ?%bool_decide_eq_true. Qed.

(** A new identifier: no share has it and no component points at it. *)
Definition unused (t : Tables) (share : Uuid) : Prop :=
  (∀ ms, ms ∈ monitor_shares t → ShareRow.id ms ≠ share) ∧
  (∀ c, c ∈ status_page_components t → SpcRow.share_id c ≠ Some share).

Lemma create_keeps_home pool_orgs share token_enc org target expires links monitors t :
  let after := create pool_orgs share token_enc org target expires links monitors t in
  unused t share → shares_at_home t →
  shares_at_home after.2 ∧
  (∀ s, after.1 = Ok (CreateShareOutcome.Created s) → share_of after.2 org target s).
Proof.
  intros after [Hfresh Hloose] Ht. unfold after, create.
  destruct (negb _); [by split|]. destruct (is_some_and _ links); [by split|].
  destruct (_ && is_some_and _ monitors); simpl; [by split|]. split.
  - intros c ms Hc [->|Hms]%elem_of_cons Hs; [by destruct (Hloose c Hc)|by apply Ht].
  - intros s [= <-] ms [->|Hms]%elem_of_cons Hid; [done|by destruct (Hfresh ms Hms)].
Qed.

Lemma attach_keeps_home org page target expected share t :
  share_of t org target share → shares_at_home t →
  shares_at_home (attach_share org page target expected share t).2.
Proof.
  intros Hown Ht c ms (c0 & -> & Hc)%list_elem_of_fmap Hms. cbn [snd set_components monitor_shares] in Hms.
  destruct (_ && _) eqn:Hit; [|by apply Ht].
  apply andb_true_iff in Hit as [[[_ Htg%bool_decide_eq_true]%andb_true_iff Ho%org_eqb_eq]%andb_true_iff _].
  intros [= Hs]. cbn [set_share SpcRow.org_id SpcRow.target_id]. rewrite Ho, Htg. by apply (Hown ms).
Qed.

Lemma revoke_keeps_home now org target share t :
  shares_at_home t → shares_at_home (revoke now org target share t).2.
Proof.
  intros Ht c ms Hc (ms0 & -> & Hms)%list_elem_of_fmap. cbn [snd set_shares status_page_components] in Hc.
  destruct (_ && _); intros Hs; by apply (Ht c ms0).
Qed.

(** The rest of the handler's step, once no live share was found. *)
Lemma drop_keeps_home org page target t : shares_at_home t → shares_at_home (drop_component org page target t).2.
Proof. intros Ht c ms [Hc _]%elem_of_lfilter Hms Hs. by apply Ht. Qed.

Lemma mint_keeps_home pool_orgs now share token_enc org page target existing t :
  unused t share → shares_at_home t →
  shares_at_home (((outcome ← create pool_orgs share token_enc org target None None None;
    match outcome with
    | CreateShareOutcome.Created share =>
        attached ← attach_share org page target existing share;
        if (attached : bool) then mret tt
        else revoke now org target share ≫= λ _, throw component_not_found
    | _ => throw component_not_found
    end) : M Tables unit) t).2.
Proof.
  intros Hnew Ht.
  destruct (create_keeps_home pool_orgs share token_enc org target None None None t Hnew Ht) as [Hc Hof].
  unfold mbind, M_bind. destruct (create _ _ _ _ _ _ _ _ t) as [[[s| | |]|e] t1]; [|done..].
  pose proof (attach_keeps_home org page target existing s t1 (Hof s eq_refl) Hc) as Ha.
  destruct (attach_share _ _ _ _ _ t1) as [[[]|] t2]; [done| |done].
  pose proof (revoke_keeps_home now org target s t2 Ha) as Hr.
  by destruct (revoke _ _ _ _ t2) as [[]].
Qed.

Lemma ensure_detail_share_keeps_home pool_orgs now share token_enc org page target t :
  unused t share → shares_at_home t →
  shares_at_home (ensure_detail_share pool_orgs now share token_enc org page target t).2.
Proof.
  intros Hnew Ht. unfold ensure_detail_share, list_components, gets, mbind, M_bind.
  destruct (backing_share _ _) as [s|]; cbv [list_for_target gets mret M_ret];
    [destruct (existsb _ _); [done|]|]; by apply (mint_keeps_home pool_orgs now share token_enc org page target).
Qed.

Lemma remove_component_keeps_home now org page target t :
  shares_at_home t → shares_at_home (remove_component now org page target t).2.
Proof.
  intros Ht. unfold remove_component, list_components, gets, mbind, M_bind.
  pose proof (drop_keeps_home org page target t Ht) as Hd.
  destruct (drop_component _ _ _ t) as [[[]|] t1]; [|done|done].
  destruct (backing_share _ _) as [s|]; [|done].
  pose proof (revoke_keeps_home now org target s t1 Hd) as Hr. by destruct (revoke _ _ _ _ t1) as [[]].
Qed.
End Stores.
