(* ===== verification/BoardFacts.v ===== *)
(** * Status pages: what a page shows

    Theorems about the assembled page of StatusBoard: the pill of a component and
    the strip under it, the history endpoint against the page, and what rows a page
    can depend on. *)

From Stdlib Require Import Ascii.
From S2P Require Import Prelude Text Orders Crypto Domain StatusPage StatusBoard DetailShare.

(** ** The pill of a component and the strip under it *)
Section Pill.
Implicit Types (w : PaintWindowRow.t) (ws : list PaintWindowRow.t).

Definition open_window (id : Uuid) (w : PaintWindowRow.t) : bool :=
  bool_decide (PaintWindowRow.target_id w = id) && is_none (PaintWindowRow.ended_at w).

Lemma open_worst_spec ws id : is_worst PaintWindowRow.impact (open_window id) ws (open_worst ws !! id).
Proof.
  unfold open_worst.
  enough (fold_left (λ m w,
    let impact := PaintWindowRow.impact w in
    <[PaintWindowRow.target_id w :=
        match m !! PaintWindowRow.target_id w with
        | Some cur => IncidentImpact.max cur impact | None => impact end]> m)
    (List.filter (λ w, is_none (PaintWindowRow.ended_at w)) ws) ∅ !! id
    = fold_left (λ c w, if open_window id w then slot_max (PaintWindowRow.impact w) c else c) ws None) as ->
    by apply fold_slot_max.
  rewrite <-(lookup_empty (M := gmap Uuid) id). generalize (∅ : gmap Uuid IncidentImpact.t) as m.
  induction ws as [|w ws IH]; intros m; [done|]. cbn [List.filter fold_left]. unfold open_window at 2.
  destruct (is_none (PaintWindowRow.ended_at w)); rewrite ?andb_true_r, ?andb_false_r; [|apply IH].
  cbn [fold_left]. rewrite IH. clear IH. f_equal. unfold slot_max.
  case_bool_decide as Hid; [subst id; by rewrite lookup_insert_eq; destruct (m !! _)|].
  by rewrite lookup_insert_ne.
Qed.

(** A day at least as bad as an impact. *)
Definition shows_at_least (x : IncidentImpact.t) (d : DayState.t) : Prop :=
  ∃ y, IncidentImpact.rank x ≤ IncidentImpact.rank y ∧ d = day_state true (Some y).

Definition pill_of (x : IncidentImpact.t) : PublicComponentStatus.t := component_status (Some x) false false.

Lemma component_status_inv worst maint evidence :
  match component_status worst maint evidence with
  | PublicComponentStatus.Maintenance => maint = true
  | PublicComponentStatus.NoData => worst = None ∧ evidence = false
  | PublicComponentStatus.Operational => worst = None ∧ evidence = true
  | s => ∃ x, worst = Some x ∧ s = pill_of x
  end.
Proof. destruct maint, worst as [[]|], evidence; simpl; eauto. Qed.

(** An open window that has begun covers today, the last cell of the strip. *)
Lemma open_touches_today w now span :
  0 < span → now mod DAY ≠ 0 → PaintWindowRow.ended_at w = None → PaintWindowRow.started_at w ≤ now →
  touches now span w (day_of now span (span - 1)) = true.
Proof.
  intros Hspan Hmid Hend Hstart. rewrite touches_cell, Hend. unfold day_of. simpl.
  replace (date_naive now - (span - 1 - (span - 1))) with (date_naive now) by lia.
  rewrite andb_true_iff, Z.leb_le, Z.ltb_lt, Z.min_id. unfold date_naive, days, day_start_utc.
  assert (0 < DAY) as HD by done. revert HD Hmid. generalize DAY. intros D HD Hmid. split.
  - apply Z.div_le_mono; [done|]. nia.
  - pose proof (Z.div_mod now D). pose proof (Z.mod_pos_bound now D HD). lia.
Qed.
End Pill.

Section PillOnPage.
Context `{Primitives, Collation} (cfg : AggregatorConfig) (cipher : option Cipher) (t : Tables).

(** What the strip of a component on the page is. *)
Lemma shown_strip now page org c :
  c ∈ page_components cfg cipher t now page org →
  let ids := PageComponent.id <$> load_page_components cfg cipher t now page org in
  let windows := load_paint_windows t org now ids (history_days cfg) in
  ∃ maint,
    PublicComponent.id c ∈ ids ∧
    paint_strips ids (load_day_presence t org ids now (history_days cfg)) windows now (history_days cfg)
      !! PublicComponent.id c = Some (PublicComponent.history c) ∧
    PublicComponent.current_status c =
      component_status (open_worst windows !! PublicComponent.id c) maint
        (existsb (λ d, bool_decide (d ≠ DayState.NoData)) (PublicComponent.history c)).
Proof.
  intros (x & Hx & ->)%elem_of_page_components.
  apply elem_of_shown in Hx as (pc & maint & Hpc & _ & Hx). cbv zeta in Hx |- *. rewrite Hx. clear Hx. simpl.
  set (ids := PageComponent.id <$> load_page_components cfg cipher t now page org).
  assert (PageComponent.id pc ∈ ids) as Hid by (by apply list_elem_of_fmap_2).
  set (m := paint_strips _ _ _ _ _).
  destruct (paint_strips_lookup ids (load_day_presence t org ids now (history_days cfg))
    (load_paint_windows t org now ids (history_days cfg)) now (history_days cfg) _ Hid)
    as (strip & Hstrip & _).
  exists (bool_decide (PageComponent.id pc ∈ maint)). split; [done|]. fold m in Hstrip. by rewrite Hstrip.
Qed.
End PillOnPage.

(** The pill of a component and the strip under it agree. Away from the instant
    of midnight, and when no recorded outage starts in the future: a component
    that is down, partly down or degraded shows a last day at least as bad; one
    without data has an empty strip; one that is operational has a day on record. *)
Theorem pill_and_strip_agree `{Primitives, Collation} (cfg : AggregatorConfig) (cipher : option Cipher)
    (t : Tables) (now : DateTime) (page : Uuid) (org : OrgId) (c : PublicComponent.t) :
  0 < history_days cfg → now mod DAY ≠ 0 →
  (∀ i, i ∈ incidents t → IncidentTableRow.started_at i ≤ now) →
  c ∈ page_components cfg cipher t now page org →
  length (PublicComponent.history c) = Z.to_nat (history_days cfg) ∧
  match PublicComponent.current_status c with
  | PublicComponentStatus.Maintenance => True
  | PublicComponentStatus.NoData => ∀ d, d ∈ PublicComponent.history c → d = DayState.NoData
  | PublicComponentStatus.Operational => ∃ d, d ∈ PublicComponent.history c ∧ d ≠ DayState.NoData
  | s => ∃ x d, s = pill_of x ∧ last (PublicComponent.history c) = Some d ∧ shows_at_least x d
  end.
Proof.
  intros Hdays Hmid Hpast Hc. destruct (shown_strip cfg cipher t now page org c Hc) as (maint & Hid & Hstrip & ->).
  set (windows := load_paint_windows _ _ _ _ _) in *.
  destruct (paint_strips_lookup _ (load_day_presence t org (PageComponent.id <$> load_page_components cfg cipher t now page org)
     now (history_days cfg)) windows now (history_days cfg) _ Hid) as (strip & Hstrip' & Hlen & Hcells).
  rewrite Hstrip in Hstrip'. injection Hstrip' as <-. split; [done|].
  pose proof (component_status_inv (open_worst windows !! PublicComponent.id c) maint
    (existsb (λ d, bool_decide (d ≠ DayState.NoData)) (PublicComponent.history c))) as Hinv.
  assert (∀ x, open_worst windows !! PublicComponent.id c = Some x →
    ∃ d, last (PublicComponent.history c) = Some d ∧ shows_at_least x d) as Hlast.
  { intros x Hx. pose proof (open_worst_spec windows (PublicComponent.id c)) as Hw. rewrite Hx in Hw.
    destruct Hw as [(w & Hwin & Hopen & <-) _]. unfold open_window in Hopen.
    apply andb_true_iff in Hopen as [Htgt Hnone].
    destruct (Hcells (Z.to_nat (history_days cfg - 1)) ltac:(lia)) as (worst & Hcell & Hworst).
    rewrite Z2Nat.id in * by lia.
    assert (PaintWindowRow.started_at w ≤ now) as Hw.
    { subst windows. unfold load_paint_windows in Hwin.
      destruct (PageComponent.id <$> _); [by apply not_elem_of_nil in Hwin|].
      apply list_elem_of_fmap in Hwin as (i & -> & [Hi _]%elem_of_lfilter). by apply Hpast. }
    assert (touches now (history_days cfg) w (day_of now (history_days cfg) (history_days cfg - 1)) = true) as Ht.
    { apply open_touches_today; try done. by destruct (PaintWindowRow.ended_at w). }
    destruct worst as [y|]; cbn [is_worst] in Hworst; [|by specialize (Hworst w Hwin); cbv beta in Hworst; rewrite Htgt, Ht in Hworst].
    eexists; split; [rewrite last_lookup, Hlen; replace (pred (Z.to_nat (history_days cfg)))
      with (Z.to_nat (history_days cfg - 1)) by lia; exact Hcell|].
    exists y. split; [|by destruct y]. apply Hworst; [done|by rewrite Htgt, Ht]. }
  destruct (component_status _ _ _); try done;
    try (destruct Hinv as (x & Hx & Hs); destruct (Hlast x Hx) as (d & Hd & Hsd); by exists x, d).
  - destruct Hinv as [_ Hex]. apply existsb_exists in Hex as (d & Hd & Hne).
    exists d. rewrite list_elem_of_In. by apply bool_decide_eq_true in Hne.
  - destruct Hinv as [_ Hex]. intros d Hd. apply dec_stable. intros Hne.
    apply Bool.not_true_iff_false in Hex. apply Hex, existsb_exists. exists d.
    rewrite <-list_elem_of_In. by rewrite bool_decide_eq_true.
Qed.

(** ** The history endpoint *)
Section History.
Implicit Types (t : Tables) (id : Uuid) (ids : list Uuid) (d span : Z).

Lemma is_worst_filter_fmap {A B} (g : A → B) (f : B → IncidentImpact.t) (p : B → bool) (q : A → bool) l o :
  is_worst f p (g <$> List.filter q l) o ↔ is_worst (f ∘ g) (λ a, q a && p (g a)) l o.
Proof.
  destruct o as [x|]; simpl.
  - split.
    + intros [(b & (a & -> & [Ha Hq]%elem_of_lfilter)%list_elem_of_fmap & Hp & Hf) Hall]. split.
      * exists a. by rewrite Hq, Hp.
      * intros a' Ha' [Hq' Hp']%andb_true_iff. apply Hall; [|done].
        apply list_elem_of_fmap_2. by apply elem_of_lfilter.
    + intros [(a & Ha & [Hq Hp]%andb_true_iff & Hf) Hall]. split.
      * exists (g a). split_and!; [apply list_elem_of_fmap_2; by apply elem_of_lfilter|done..].
      * intros b (a' & -> & [Ha' Hq']%elem_of_lfilter)%list_elem_of_fmap Hp'. apply Hall; [done|].
        by rewrite Hq', Hp'.
  - split.
    + intros Hall a Ha. destruct (q a) eqn:Hq; [|done]. apply Hall, list_elem_of_fmap_2. by apply elem_of_lfilter.
    + intros Hall b (a & -> & [Ha Hq]%elem_of_lfilter)%list_elem_of_fmap.
      specialize (Hall a Ha). by rewrite Hq in Hall.
Qed.

Lemma is_worst_ext {A} (f : A → IncidentImpact.t) p q l o :
  (∀ a, a ∈ l → p a = q a) → is_worst f p l o → is_worst f q l o.
Proof.
  intros Hpq. destruct o as [x|]; simpl.
  - intros [(a & Ha & Hp & Hf) Hall]. split; [exists a; by rewrite <-Hpq|].
    intros b Hb. rewrite <-Hpq by done. by apply Hall.
  - intros Hall a Ha. rewrite <-Hpq by done. by apply Hall.
Qed.

(** The days a strip of [span] cells has. *)
Definition in_span (now : DateTime) span d : Prop := date_naive now - span < d.

Lemma span_start now span d : in_span now span d → now - days span < day_start_utc d.
Proof.
  unfold in_span, date_naive, days, day_start_utc. assert (0 < DAY) as HD by done. revert HD.
  generalize DAY. intros D HD Hd. pose proof (Z.div_mod now D). pose proof (Z.mod_pos_bound now D HD). nia.
Qed.

Lemma touches_in_span now span w d :
  in_span now span d →
  touches now span w d =
    (PaintWindowRow.started_at w <? day_start_utc (d + 1))
    && (day_start_utc d <? Z.min (default now (PaintWindowRow.ended_at w)) now).
Proof.
  intros Hd%span_start. unfold touches. f_equal.
  assert (day_start_utc d < day_start_utc (d + 1)) by (unfold day_start_utc; assert (0 < DAY) by done; nia).
  apply Bool.eq_iff_eq_true. rewrite !Z.ltb_lt. lia.
Qed.

(** An incident of the component paints a day whatever strip asks. *)
Definition paints (org : OrgId) id (now : DateTime) d (i : IncidentTableRow.t) : bool :=
  org_eqb (IncidentTableRow.org_id i) org && bool_decide (IncidentTableRow.target_id i = id)
  && (String.eqb (IncidentTableRow.origin i) "monitor" || is_public i) && IncidentTableRow.counts_as_downtime i
  && (IncidentTableRow.started_at i <? day_start_utc (d + 1))
  && (day_start_utc d <? Z.min (default now (IncidentTableRow.ended_at i)) now).

Lemma paint_windows_worst t org now ids span id d o :
  id ∈ ids → in_span now span d →
  is_worst PaintWindowRow.impact (λ w, bool_decide (PaintWindowRow.target_id w = id) && touches now span w d)
    (load_paint_windows t org now ids span) o →
  is_worst (PaintWindowRow.impact ∘ paint_row) (paints org id now d) (incidents t) o.
Proof.
  intros Hid Hd. unfold load_paint_windows. destruct ids as [|id0 ids]; [by apply not_elem_of_nil in Hid|].
  rewrite is_worst_filter_fmap. apply is_worst_ext. intros i _. rewrite touches_in_span by done.
  unfold of_page, paints. simpl PaintWindowRow.target_id. simpl PaintWindowRow.started_at.
  simpl PaintWindowRow.ended_at. unfold any_of.
  destruct (decide (IncidentTableRow.target_id i = id)) as [->|Hne];
    [|rewrite (bool_decide_eq_false_2 (IncidentTableRow.target_id i = id)) by done; by rewrite !andb_false_r].
  rewrite (bool_decide_eq_true_2 (id ∈ id0 :: ids)), (bool_decide_eq_true_2 (id = id)) by done.
  rewrite !andb_true_r, !andb_true_l.
  destruct (day_start_utc d <? _ `min` now) eqn:Hend; [|by rewrite !andb_false_r].
  assert (is_none_or (λ e, now - days span <=? e) (IncidentTableRow.ended_at i) = true) as ->.
  { apply span_start in Hd. destruct (IncidentTableRow.ended_at i) as [e|]; simpl in *; [|done].
    apply Z.ltb_lt in Hend. apply Z.leb_le. lia. }
  by rewrite !andb_true_r.
Qed.

(** *** Checks on record *)
Definition day_key (r : HourRow.t) : Uuid * Z := (HourRow.target_id r, start_of_day (HourRow.hour r)).

Lemma push_new_all {A} `{EqDecision A} (l acc : list A) x :
  x ∈ fold_left push_new l acc ↔ x ∈ l ∨ x ∈ acc.
Proof.
  revert acc. induction l as [|a l IH]; intros acc; cbn [fold_left]; [set_solver|].
  rewrite IH. unfold push_new. case_bool_decide; set_solver.
Qed.

Lemma midnight_date d : date_naive (ts_to_datetime (d * 86400)) = d.
Proof.
  unfold date_naive, ts_to_datetime, seconds, DAY, seconds.
  replace (d * 86400 * NANOS) with (d * (86400 * NANOS)) by lia. apply Z.div_mul. done.
Qed.

(** The checks of one component on one day. *)
Definition day_rows (org : OrgId) id (now : DateTime) d (r : HourRow.t) : bool :=
  org_eqb (HourRow.org_id r) org && bool_decide (HourRow.target_id r = id)
  && (HourRow.hour r / 86400 =? d) && (HourRow.hour r <? now / NANOS).

Lemma presence_has_checks t org now ids span id d :
  id ∈ ids → in_span now span d →
  has_checks id (load_day_presence t org ids now span) d =
    (0 <? sumZ (HourRow.total_checks <$> List.filter (day_rows org id now d) (check_results_1h t))).
Proof.
  intros Hid Hd. unfold load_day_presence. destruct ids as [|id0 ids]; [by apply not_elem_of_nil in Hid|].
  set (ids' := id0 :: ids) in *.
  set (rows := List.filter _ (check_results_1h t)).
  assert (List.filter (λ r, bool_decide (day_key r = (id, d * 86400))) rows
    = List.filter (day_rows org id now d) (check_results_1h t)) as Hrows.
  { unfold rows. rewrite lfilter_lfilter. apply lfilter_ext. intros r _. unfold day_rows, day_key, any_of.
    destruct (decide (HourRow.target_id r = id)) as [Ht|Ht];
      [|rewrite (bool_decide_eq_false_2 (HourRow.target_id r = id)) by done;
        rewrite (bool_decide_eq_false_2 ((_, _) = _)) by congruence; by rewrite ?andb_false_r].
    rewrite (bool_decide_eq_true_2 (HourRow.target_id r = id)), (bool_decide_eq_true_2 (_ ∈ ids')) by (by rewrite ?Ht).
    rewrite Ht. unfold start_of_day.
    destruct (Z.eqb_spec (HourRow.hour r / 86400) d) as [Hh|Hh];
      [|rewrite (bool_decide_eq_false_2 ((_, _) = _)) by (intros [=]; lia); by rewrite ?andb_false_r].
    rewrite Hh, (bool_decide_eq_true_2 ((_, _) = _)) by done.
    assert (((now - days span) / NANOS <=? HourRow.hour r) = true) as ->; [|by rewrite ?andb_true_r].
    apply Z.leb_le. apply span_start in Hd. unfold day_start_utc, DAY, seconds in Hd.
    transitivity (d * 86400); [|rewrite <-Hh; pose proof (Z.mul_div_le (HourRow.hour r) 86400); lia].
    apply Z.lt_le_incl, Z.div_lt_upper_bound; [done|]. lia. }
  rewrite <-Hrows. unfold has_checks.
  set (total := λ k, sumZ (HourRow.total_checks <$> List.filter (λ r, bool_decide (day_key r = k)) rows)).
  change (0 <? sumZ _) with (0 <? total (id, d * 86400)).
  apply Bool.eq_iff_eq_true. rewrite existsb_exists. split.
  - intros (r & Hr & [[Ht%bool_decide_eq_true Hpos]%andb_true_iff Hday%Z.eqb_eq]%andb_true_iff).
    apply list_elem_of_In, list_elem_of_fmap in Hr as (k & -> & Hk). simpl in Ht, Hpos, Hday.
    apply push_new_all in Hk as [Hk|Hk]; [|by apply not_elem_of_nil in Hk].
    apply list_elem_of_fmap in Hk as (r & -> & _). simpl in *.
    unfold start_of_day in Hday. rewrite midnight_date in Hday.
    replace (id, d * 86400) with (day_key r) by (unfold day_key, start_of_day; by rewrite Hday, Ht). exact Hpos.
  - intros Hpos. eexists. rewrite <-list_elem_of_In. split.
    + apply list_elem_of_fmap_2, push_new_all. left. instantiate (1 := (id, d * 86400)).
      unfold total in Hpos. destruct (List.filter _ rows) as [|r l] eqn:Hf; [done|].
      assert (r ∈ r :: l) as Hin by left. rewrite <-Hf in Hin.
      apply elem_of_lfilter in Hin as [Hin Hk%bool_decide_eq_true]. rewrite <-Hk.
      by apply (list_elem_of_fmap_2 day_key).
    + simpl. rewrite midnight_date, Z.eqb_refl, bool_decide_refl. unfold total, day_key in Hpos. by rewrite Hpos.
Qed.

(** Two strips of one component agree on the days both have. *)
Lemma strips_agree t org now ids ids' span span' id s s' :
  id ∈ ids → id ∈ ids' → span ≤ span' →
  paint_strips ids (load_day_presence t org ids now span) (load_paint_windows t org now ids span) now span
    !! id = Some s →
  paint_strips ids' (load_day_presence t org ids' now span') (load_paint_windows t org now ids' span') now span'
    !! id = Some s' →
  length s = Z.to_nat span ∧ length s' = Z.to_nat span' ∧ s = drop (Z.to_nat span' - Z.to_nat span) s'.
Proof.
  intros Hid Hid' Hle Hs Hs'.
  destruct (paint_strips_lookup _ (load_day_presence t org ids now span) (load_paint_windows t org now ids span)
    now span _ Hid) as (s1 & Hs1 & Hlen & Hc).
  rewrite Hs in Hs1. injection Hs1 as <-.
  destruct (paint_strips_lookup _ (load_day_presence t org ids' now span') (load_paint_windows t org now ids' span')
    now span' _ Hid') as (s2 & Hs2 & Hlen' & Hc').
  rewrite Hs' in Hs2. injection Hs2 as <-. split_and!; [done..|].
  apply list_eq_same_length with (Z.to_nat span); [rewrite length_drop; lia|done|].
  intros i x y Hi. rewrite lookup_drop. destruct (Hc i ltac:(lia)) as (o & -> & Ho).
  destruct (Hc' (Z.to_nat span' - Z.to_nat span + i)%nat ltac:(lia)) as (o' & -> & Ho').
  replace (day_of now span' _) with (day_of now span (Z.of_nat i)) in * by (unfold day_of; lia).
  set (d := day_of now span (Z.of_nat i)) in *.
  assert (in_span now span d) as Hd by (unfold in_span, d, day_of; lia).
  assert (in_span now span' d) as Hd' by (unfold in_span, d, day_of; lia).
  rewrite !presence_has_checks by done.
  apply paint_windows_worst in Ho, Ho'; [|done..]. rewrite (is_worst_unique _ _ _ _ _ Ho Ho').
  by intros [= <-] [= <-].
Qed.

Lemma length_pad v n : length (pad_or_truncate v n) = n.
Proof.
  unfold pad_or_truncate. destruct (Nat.eqb_spec (length v) n); [done|].
  destruct (Nat.ltb_spec n (length v)); [rewrite length_drop; lia|].
  rewrite length_app, length_replicate. lia.
Qed.

Lemma pad_drop v n : pad_or_truncate (drop (length v - n `min` length v) v) n = pad_or_truncate v n.
Proof.
  destruct (Nat.le_gt_cases n (length v)) as [Hle|Hgt].
  - rewrite Nat.min_l by done. unfold pad_or_truncate at 1. rewrite length_drop.
    rewrite (proj2 (Nat.eqb_eq _ _)) by lia. unfold pad_or_truncate.
    destruct (Nat.eqb_spec (length v) n) as [->|Hne]; [by rewrite Nat.sub_diag, drop_0|].
    by rewrite (proj2 (Nat.ltb_lt _ _)) by lia.
  - rewrite Nat.min_r by lia. by rewrite Nat.sub_diag, drop_0.
Qed.
End History.

(** The history endpoint tells what the page shows. For every component of the
    page and every number of days asked for, its answer is the page's strip, cut
    to its last days or padded with days without data in front. *)
Theorem history_is_the_page_strip `{Primitives, Collation} (cfg : AggregatorConfig) (cipher : option Cipher)
    (t : Tables) (now : DateTime) (page : Uuid) (org : OrgId) (c : PublicComponent.t) (n : Z) :
  1 ≤ n → 1 ≤ history_days cfg →
  c ∈ page_components cfg cipher t now page org →
  ∃ r, component_history cfg cipher t now page org (PublicComponent.id c) n = Some r ∧
    ComponentHistoryResponse.history r = pad_or_truncate (PublicComponent.history c) (Z.to_nat n) ∧
    length (ComponentHistoryResponse.history r) = Z.to_nat n.
Proof.
  intros Hn Hh Hc. destruct (shown_strip cfg cipher t now page org c Hc) as (maint & Hid & Hstrip & _).
  unfold component_history.
  set (components := load_page_components cfg cipher t now page org) in *.
  destruct (List.find _ components) as [pc|] eqn:Hfind.
  2:{ exfalso. apply list_elem_of_fmap in Hid as (pc & Hpc & Hin). apply list_elem_of_In in Hin.
      pose proof (find_none _ _ Hfind pc Hin) as Hno. by apply bool_decide_eq_false in Hno. }
  cbv beta iota delta [mbind option_bind]. set (span := clamp 1 (history_days cfg) n).
  assert (PublicComponent.id c ∈ [PublicComponent.id c]) as Hone by left.
  destruct (paint_strips_lookup _ (load_day_presence t org [PublicComponent.id c] now span)
    (load_paint_windows t org now [PublicComponent.id c] span) now span _ Hone) as (s & Hs & _).
  rewrite Hs. eexists; split; [done|]. cbn [ComponentHistoryResponse.history default].
  destruct (strips_agree t org now _ _ span (history_days cfg) _ _ _ Hone Hid
    ltac:(unfold span, clamp; lia) Hs Hstrip) as (Hl & Hl' & ->).
  split; [|apply length_pad]. rewrite <-Hl'. replace (Z.to_nat span) with (Z.to_nat n `min` length (PublicComponent.history c))%nat
    by (rewrite Hl'; unfold span, clamp; lia). apply pad_drop.
Qed.

(** ** What a page can show *)
Section Visible.
Context `{Primitives, Collation} (cfg : AggregatorConfig) (cipher : option Cipher).
Implicit Types (t : Tables) (page : Uuid) (org : OrgId).

Definition of_binding page org (c : SpcRow.t) : bool :=
  bool_decide (SpcRow.status_page_id c = page) && org_eqb (SpcRow.org_id c) org.
Definition page_targets t page org : list Uuid := SpcRow.target_id ∘ fst <$> page_rows t page org.

(** An incident the page may use: a published one, or the bare window of an outage
    the monitor saw. *)
Definition usable (org : OrgId) (ids : list Uuid) (i : IncidentTableRow.t) : bool :=
  of_page org ids i &&
  (is_public i || (String.eqb (IncidentTableRow.origin i) "monitor" && IncidentTableRow.counts_as_downtime i)).
Definition anonymous (i : IncidentTableRow.t) : IncidentTableRow.t :=
  if is_public i then i else {|
    IncidentTableRow.id := nil_uuid; IncidentTableRow.org_id := IncidentTableRow.org_id i;
    IncidentTableRow.target_id := IncidentTableRow.target_id i;
    IncidentTableRow.started_at := IncidentTableRow.started_at i;
    IncidentTableRow.ended_at := IncidentTableRow.ended_at i;
    IncidentTableRow.severity := IncidentTableRow.severity i;
    IncidentTableRow.status_at_start := IncidentTableRow.status_at_start i;
    IncidentTableRow.public_title := None;
    IncidentTableRow.origin := IncidentTableRow.origin i;
    IncidentTableRow.visibility := IncidentTableRow.visibility i;
    IncidentTableRow.counts_as_downtime := IncidentTableRow.counts_as_downtime i;
    IncidentTableRow.regions_up := IncidentTableRow.regions_up i |}.

(** The rows of one page of one organisation, and nothing else. *)
Definition visible_rows t page org : Tables :=
  let ids := page_targets t page org in
  let bindings := List.filter (of_binding page org) (status_page_components t) in {|
  status_page_components := bindings;
  targets := List.filter (λ tg, org_eqb (TargetRow.org_id tg) org) (targets t);
  monitor_shares := List.filter (λ ms, org_eqb (ShareRow.org_id ms) org && any_of ids (ShareRow.target_id ms)
    && any_of (omap SpcRow.share_id bindings) (ShareRow.id ms)) (monitor_shares t);
  incidents := anonymous <$> List.filter (usable org ids) (incidents t);
  incident_updates := List.filter (λ u, org_eqb (UpdateRow.org_id u) org &&
    any_of (IncidentTableRow.id <$> List.filter (λ i, of_page org ids i && is_public i) (incidents t))
      (UpdateRow.incident_id u)) (incident_updates t);
  maintenance_windows := List.filter (λ w, org_eqb (WindowRow.org_id w) org) (maintenance_windows t);
  maintenance_window_components :=
    List.filter (λ c, any_of ids (MwcRow.target_id c)) (maintenance_window_components t);
  check_results_1h := List.filter (λ r, org_eqb (HourRow.org_id r) org && any_of ids (HourRow.target_id r))
    (check_results_1h t) |}.

Lemma lfilter_idle {A} (p q : A → bool) l :
  (∀ x, x ∈ l → p x = true → q x = true) → List.filter p (List.filter q l) = List.filter p l.
Proof.
  intros Hpq. rewrite lfilter_lfilter. apply lfilter_ext. intros x Hx.
  destruct (p x) eqn:Hp; [|by rewrite ?andb_false_r]. by rewrite (Hpq x Hx Hp), ?andb_true_r.
Qed.

Lemma bind_ext_in {A B} (f g : A → list B) (l : list A) :
  (∀ x, x ∈ l → f x = g x) → l ≫= f = l ≫= g.
Proof.
  intros Hfg. induction l as [|x l IH]; [done|]. rewrite !bind_cons, (Hfg x) by left.
  rewrite IH; [done|]. intros y Hy. apply Hfg. by right.
Qed.

Lemma match_nil {A B} (l : list A) (a b c : B) :
  b = c → match l with [] => a | _ => b end = match l with [] => a | _ => c end.
Proof. by intros ->. Qed.

Lemma find_idle {A} (p q : A → bool) l :
  (∀ x, x ∈ l → p x = true → q x = true) → List.find p (List.filter q l) = List.find p l.
Proof.
  intros Hpq. induction l as [|x l IH]; [done|]. simpl. destruct (p x) eqn:Hp.
  - rewrite (Hpq x) by (done || left). simpl. by rewrite Hp.
  - assert (List.find p (List.filter q l) = List.find p l) by (apply IH; intros y Hy; apply Hpq; by right).
    destruct (q x); simpl; rewrite ?Hp; done.
Qed.

Lemma page_rows_visible t page org : page_rows (visible_rows t page org) page org = page_rows t page org.
Proof.
  unfold page_rows. cbn [visible_rows status_page_components targets]. fold (of_binding page org).
  rewrite lfilter_idle by done. apply bind_ext_in. intros c [_ Hc]%elem_of_lfilter.
  f_equal. apply lfilter_idle. intros tg _ [[_ Ho]%andb_true_iff _]%andb_true_iff.
  apply andb_true_iff in Hc as [_ Hc]. unfold org_eqb in *. rewrite bool_decide_eq_true in *. congruence.
Qed.

(** A component of the page, and the share it points at. *)
Lemma page_rows_elem t page org c tg :
  (c, tg) ∈ page_rows t page org →
  (c ∈ status_page_components t ∧ of_binding page org c = true) ∧ SpcRow.target_id c ∈ page_targets t page org.
Proof.
  intros Hi. split; [|unfold page_targets; apply list_elem_of_fmap; by exists (c, tg)].
  unfold page_rows in Hi. apply list_elem_of_bind in Hi as (c' & Hi & Hc').
  apply list_elem_of_fmap in Hi as (? & [= <- <-] & _). by apply elem_of_lfilter in Hc'.
Qed.

Lemma open_share_visible t now page org c tg :
  shares_at_home t → (c, tg) ∈ page_rows t page org →
  open_share (visible_rows t page org) now c = open_share t now c.
Proof.
  intros Hhome Hi%page_rows_elem. destruct Hi as [[Hc Hof] Htg].
  unfold open_share. destruct (SpcRow.share_id c) as [s|] eqn:Hs; [|done]. simpl.
  apply find_idle. intros ms Hms [[Hid%bool_decide_eq_true _]%andb_true_iff _]%andb_true_iff.
  destruct (Hhome c ms Hc Hms) as [Horg Hown]; [by rewrite Hs, Hid|].
  rewrite !andb_true_iff, Horg, Hown. unfold any_of. rewrite !bool_decide_eq_true. split; [split|].
  - apply andb_true_iff in Hof as [_ Hof]. done.
  - done.
  - apply list_elem_of_omap. exists c. rewrite Hs, Hid. split; [|done]. by apply elem_of_lfilter.
Qed.

Lemma page_components_visible t now page org :
  shares_at_home t →
  load_page_components cfg cipher (visible_rows t page org) now page org
    = load_page_components cfg cipher t now page org.
Proof.
  intros Hhome. unfold load_page_components. rewrite page_rows_visible. apply list_fmap_ext.
  intros i [c tg] Hi%list_elem_of_lookup_2. rewrite elem_of_sort_by in Hi.
  unfold page_component. by rewrite (open_share_visible t now page org c tg Hhome Hi).
Qed.

Lemma page_ids_targets t now page org id :
  id ∈ PageComponent.id <$> load_page_components cfg cipher t now page org ↔ id ∈ page_targets t page org.
Proof.
  unfold load_page_components, page_targets. rewrite <-list_fmap_compose.
  rewrite (fmap_Permutation _ _ _ (sort_by_perm _ _)).
  enough (PageComponent.id ∘ page_component cfg cipher t now <$> page_rows t page org
    = SpcRow.target_id ∘ fst <$> page_rows t page org) as -> by done.
  apply list_fmap_ext. by intros i [c tg] _.
Qed.

(** The queries, on the rows of the page alone. *)
Context (t : Tables) (now : DateTime) (page : Uuid) (org : OrgId).
Let v := visible_rows t page org.
Context (ids : list Uuid) (Hids : ∀ id, id ∈ ids ↔ id ∈ page_targets t page org).

Lemma any_of_ids id : any_of ids id = any_of (page_targets t page org) id.
Proof using Hids. unfold any_of. apply bool_decide_ext, Hids. Qed.

Lemma of_page_ids i : of_page org ids i = of_page org (page_targets t page org) i.
Proof using Hids. unfold of_page. by rewrite any_of_ids. Qed.

Lemma anonymous_same i : of_page org ids (anonymous i) = of_page org ids i ∧ is_public (anonymous i) = is_public i
  ∧ IncidentTableRow.ended_at (anonymous i) = IncidentTableRow.ended_at i
  ∧ IncidentTableRow.started_at (anonymous i) = IncidentTableRow.started_at i
  ∧ IncidentTableRow.origin (anonymous i) = IncidentTableRow.origin i
  ∧ IncidentTableRow.counts_as_downtime (anonymous i) = IncidentTableRow.counts_as_downtime i.
Proof using. unfold anonymous. by destruct (is_public i) eqn:Hp. Qed.

(** A query over published incidents of the page. *)
Lemma public_incidents_visible (q : IncidentTableRow.t → bool) :
  (∀ i, q i = true → of_page org ids i = true ∧ is_public i = true) →
  (∀ i, q (anonymous i) = q i) →
  List.filter q (incidents v) = List.filter q (incidents t).
Proof using Hids.
  intros Hq Hanon. unfold v. cbn [visible_rows incidents]. rewrite lfilter_fmap, lfilter_lfilter.
  rewrite (lfilter_ext _ q).
  - transitivity (id <$> List.filter q (incidents t)); [|apply list_fmap_id].
    apply list_fmap_ext. intros k i [_ Hi]%list_elem_of_lookup_2%elem_of_lfilter. unfold anonymous.
    by destruct (Hq i Hi) as [_ ->].
  - intros i _. cbv beta. rewrite Hanon. destruct (q i) eqn:Hi; [|by rewrite ?andb_false_r].
    destruct (Hq i Hi) as [Ho Hp]. unfold usable. by rewrite <-of_page_ids, Ho, Hp.
Qed.

Lemma paint_windows_visible span : load_paint_windows v org now ids span = load_paint_windows t org now ids span.
Proof using Hids.
  unfold load_paint_windows. apply match_nil.
  unfold v. cbn [visible_rows incidents]. rewrite lfilter_fmap, lfilter_lfilter, <-list_fmap_compose.
  erewrite lfilter_ext; [apply list_fmap_ext|].
  - intros k i _. unfold compose, anonymous. by destruct (is_public i).
  - intros i _. cbv beta. destruct (anonymous_same i) as (-> & -> & -> & _ & -> & ->).
    unfold usable. rewrite <-of_page_ids. destruct (of_page org ids i); simpl; [|by rewrite ?andb_false_r].
    by destruct (is_none_or _ _), (is_public i), (String.eqb _ _), (IncidentTableRow.counts_as_downtime i).
Qed.

Lemma marker_windows_visible : load_marker_windows cfg v org now ids = load_marker_windows cfg t org now ids.
Proof using Hids.
  unfold load_marker_windows. apply match_nil.
  do 3 f_equal. apply public_incidents_visible.
  - by intros i [[? _]%andb_true_iff ?]%andb_true_iff.
  - intros i. by destruct (anonymous_same i) as (-> & -> & -> & _).
Qed.

Lemma day_presence_visible span : load_day_presence v org ids now span = load_day_presence t org ids now span.
Proof using Hids.
  unfold load_day_presence. apply match_nil.
  unfold v. cbn [visible_rows check_results_1h]. rewrite lfilter_idle; [done|].
  intros r _ [[[Ho Hr]%andb_true_iff _]%andb_true_iff _]%andb_true_iff. by rewrite Ho, <-any_of_ids, Hr.
Qed.

(** The updates of published incidents of the page. *)
Lemma updates_visible rows :
  (∀ r, r ∈ rows → ∃ i, i ∈ incidents t ∧ of_page org ids i = true ∧ is_public i = true ∧ r = incident_row i) →
  updates_of v org (IncidentRow.id <$> rows) = updates_of t org (IncidentRow.id <$> rows).
Proof using Hids.
  intros Hrows. unfold updates_of, v. cbn [visible_rows incident_updates]. f_equal. apply lfilter_idle.
  intros u _ [Hu%bool_decide_eq_true ->]%andb_true_iff. simpl. unfold any_of.
  apply list_elem_of_fmap in Hu as (r & -> & Hr). destruct (Hrows r Hr) as (i & Hi & Ho & Hp & ->).
  apply bool_decide_eq_true_2, list_elem_of_fmap. exists i. split; [done|]. apply elem_of_lfilter.
  by rewrite <-of_page_ids, Ho, Hp.
Qed.

Lemma hydrate_visible rows names :
  (∀ r, r ∈ rows → ∃ i, i ∈ incidents t ∧ of_page org ids i = true ∧ is_public i = true ∧ r = incident_row i) →
  hydrate_incidents v org rows names = hydrate_incidents t org rows names.
Proof using Hids.
  intros Hrows. unfold hydrate_incidents. by rewrite updates_visible.
Qed.

Lemma active_visible names : load_active_incidents v org ids names = load_active_incidents t org ids names.
Proof using Hids.
  unfold load_active_incidents. apply match_nil.
  rewrite public_incidents_visible.
  - apply hydrate_visible. intros r (i & -> & Hr)%list_elem_of_fmap. rewrite elem_of_sort_by in Hr.
    apply elem_of_lfilter in Hr as [Hr [[? _]%andb_true_iff ?]%andb_true_iff]. by exists i.
  - by intros i [[? _]%andb_true_iff ?]%andb_true_iff.
  - intros i. by destruct (anonymous_same i) as (-> & -> & -> & _).
Qed.

Lemma recent_visible names : load_recent_incidents cfg v org now ids names = load_recent_incidents cfg t org now ids names.
Proof using Hids.
  unfold load_recent_incidents. apply match_nil.
  rewrite public_incidents_visible.
  - cbv zeta. f_equal. apply hydrate_visible. intros r Hr.
    assert (r ∈ incident_row <$> take (Z.to_nat (max_recent_incidents cfg + 1)) (sort_by started_id_desc
      (List.filter (λ i, of_page org ids i
         && (now - days (recent_incidents_days cfg) <=? IncidentTableRow.started_at i) && is_public i)
         (incidents t)))) as Hr' by (case_match; [by eapply elem_of_take in Hr as (? & ? & _); eapply list_elem_of_lookup_2|done]).
    apply list_elem_of_fmap in Hr' as (i & -> & Hr').
    apply elem_of_take in Hr' as (k & Hk%list_elem_of_lookup_2 & _). rewrite elem_of_sort_by in Hk.
    apply elem_of_lfilter in Hk as [Hk [[? _]%andb_true_iff ?]%andb_true_iff]. by exists i.
  - by intros i [[? _]%andb_true_iff ?]%andb_true_iff.
  - intros i. by destruct (anonymous_same i) as (-> & -> & _ & -> & _).
Qed.

Lemma maintenance_visible names :
  load_maintenance cfg v org now ids names = load_maintenance cfg t org now ids names.
Proof using Hids.
  unfold load_maintenance, maintenance_rows, v. cbn [visible_rows maintenance_windows].
  rewrite lfilter_idle by (by intros w _ [[? _]%andb_true_iff _]%andb_true_iff).
  generalize (sort_by_key WindowRow.starts_at (List.filter (λ w, org_eqb (WindowRow.org_id w) org
    && (now <? WindowRow.ends_at w) && (WindowRow.starts_at w <? now + upcoming_maintenance_horizon cfg))
    (maintenance_windows t))) as rows.
  generalize (([], [], []) : list PublicMaintenance.t * list PublicMaintenance.t * list Uuid) as acc.
  intros acc rows. revert acc. induction rows as [|w rows IH]; intros acc; [done|]. cbn [fold_left].
  rewrite IH. f_equal. destruct acc as [[a u] m]. unfold maintenance_step.
  enough (List.filter (any_of ids) (maintenance_targets (visible_rows t page org) w)
    = List.filter (any_of ids) (maintenance_targets t w)) as -> by done.
  unfold maintenance_targets. cbn [visible_rows maintenance_window_components].
  rewrite !lfilter_fmap, !lfilter_lfilter. f_equal. apply lfilter_ext. intros c _. cbv beta.
  rewrite any_of_ids. by destruct (any_of _ _), (bool_decide _).
Qed.
End Visible.


Module BoardSample.
#[local] Instance primitives : Primitives := CryptoSample.toy.
#[local] Instance byte_order : Collation := {| collate := String.leb |}.

Definition cfg : AggregatorConfig := {|
  cfg_site_name := "Example"; history_days := 3; recent_incidents_days := 30; max_recent_incidents := 50;
  upcoming_maintenance_horizon := days 7; app_base_url := "https://app.example/" |}.

(** Noon of day 100; the API is down since an hour, the site has never been checked. *)
Definition now : DateTime := 100 * DAY + seconds 43200.
Definition binding (target : Uuid) (name : string) (share : option Uuid) : SpcRow.t := {|
  SpcRow.status_page_id := 1%N; SpcRow.org_id := 2%N; SpcRow.target_id := target;
  SpcRow.public_name := Some name; SpcRow.public_description := None; SpcRow.public_group := None;
  SpcRow.sort_order := 0; SpcRow.detail_link_enabled := true; SpcRow.share_id := share |}.
Definition target (id : Uuid) : TargetRow.t := {|
  TargetRow.id := id; TargetRow.org_id := 2%N; TargetRow.name := "monitor"; TargetRow.plan_hold_at := None |}.
Definition outage : IncidentTableRow.t := {|
  IncidentTableRow.id := 9%N; IncidentTableRow.org_id := 2%N; IncidentTableRow.target_id := 3%N;
  IncidentTableRow.started_at := now - seconds 3600; IncidentTableRow.ended_at := None;
  IncidentTableRow.severity := "major"; IncidentTableRow.status_at_start := "down";
  IncidentTableRow.public_title := None; IncidentTableRow.origin := "monitor";
  IncidentTableRow.visibility := "internal"; IncidentTableRow.counts_as_downtime := true;
  IncidentTableRow.regions_up := Some [] |}.
(** An incident declared by hand and never published, on the site. *)
Definition declared : IncidentTableRow.t := {|
  IncidentTableRow.id := 10%N; IncidentTableRow.org_id := 2%N; IncidentTableRow.target_id := 4%N;
  IncidentTableRow.started_at := now - seconds 60; IncidentTableRow.ended_at := None;
  IncidentTableRow.severity := "critical"; IncidentTableRow.status_at_start := "down";
  IncidentTableRow.public_title := Some "secret"; IncidentTableRow.origin := "manual";
  IncidentTableRow.visibility := "internal"; IncidentTableRow.counts_as_downtime := true;
  IncidentTableRow.regions_up := None |}.
Definition share (id : Uuid) (org : OrgId) (target : Uuid) (token : string) : ShareRow.t := {|
  ShareRow.id := id; ShareRow.org_id := org; ShareRow.target_id := target; ShareRow.token_enc := token;
  ShareRow.revoked_at := None; ShareRow.expires_at := None |}.
Definition tables : Tables := {|
  status_page_components := [binding 3%N "API" (Some 11%N); binding 4%N "Site" None];
  targets := [target 3%N; target 4%N]; monitor_shares := [share 11%N 2%N 3%N "own"; share 12%N 7%N 8%N "theirs"]; incidents := [outage; declared];
  incident_updates := []; maintenance_windows := []; maintenance_window_components := [];
  check_results_1h := [{| HourRow.org_id := 2%N; HourRow.target_id := 3%N; HourRow.hour := 99 * 86400; HourRow.total_checks := 60 |}] |}.

Definition api : PublicComponent.t := {|
  PublicComponent.id := 3%N; PublicComponent.name := "API"; PublicComponent.description := None;
  PublicComponent.current_status := PublicComponentStatus.MajorOutage;
  PublicComponent.history := [DayState.NoData; DayState.Operational; DayState.MajorOutage];
  PublicComponent.detail_url := Some "https://app.example/m/own" |}.
Example api_is_shown : PublicStatusPage.groups (snap_page (build cfg None tables now 1%N 2%N)) =
  [{| PublicComponentGroup.name := None;
      PublicComponentGroup.components := [api; {|
        PublicComponent.id := 4%N; PublicComponent.name := "Site"; PublicComponent.description := None;
        PublicComponent.current_status := PublicComponentStatus.NoData;
        PublicComponent.history := replicate 3 DayState.NoData;
        PublicComponent.detail_url := None |}] |}].
Proof. by vm_compute. Qed.

Lemma tables_at_home : shares_at_home tables.
Proof.
  intros c ms Hc Hms. cbn [tables status_page_components monitor_shares] in Hc, Hms.
  rewrite !elem_of_cons, elem_of_nil in Hc. rewrite !elem_of_cons, elem_of_nil in Hms.
  by destruct Hc as [->|[->|[]]], Hms as [->|[->|[]]].
Qed.


Lemma pill_and_strip_agree_witness :
  api ∈ page_components cfg None tables now 1%N 2%N ∧ length (PublicComponent.history api) = 3%nat.
Proof.
  assert (api ∈ page_components cfg None tables now 1%N 2%N) as Hin
    by (unfold page_components, page_groups; rewrite api_is_shown; by left).
  split; [done|].
  apply (pill_and_strip_agree cfg None tables now 1%N 2%N api); [done|done| |exact Hin].
  intros i Hi. cbn [tables incidents] in Hi. rewrite !elem_of_cons, elem_of_nil in Hi.
  by destruct Hi as [->|[->|[]]].
Defined.

Lemma history_is_the_page_strip_witness :
  ∃ r, component_history cfg None tables now 1%N 2%N (PublicComponent.id api) 5 = Some r ∧
    ComponentHistoryResponse.history r =
      [DayState.NoData; DayState.NoData; DayState.NoData; DayState.Operational; DayState.MajorOutage].
Proof.
  destruct (history_is_the_page_strip cfg None tables now 1%N 2%N api 5) as (r & Hr & Hh & _); [done|done| |].
  - unfold page_components, page_groups. rewrite api_is_shown. by left.
  - exists r. by rewrite Hh.
Defined.
End BoardSample.
