(* ===== verification/StatusFeed.v ===== *)
(** * Status pages: what the public reads

    src/public_status/source.rs ([OrgPublicSource]: incidents, one incident, the
    feed), src/api/cursor.rs, src/public_status/xml.rs and badge.rs, and the
    handlers of src/api/handlers/public.rs over them. The snapshot comes from the
    cache (StatusCache); JSON, the rendering of dates and of identifiers are
    parameters. In a string constant the apostrophe stands for the double quote
    ([dq] puts it back). *)

From Stdlib Require Import Ascii.
From S2P Require Import Prelude Text Orders Crypto Domain StatusPage StatusBoard.

Class PublicText := {
  json_of_cursor : DateTime → Uuid → string;
  cursor_of_json : string → option (DateTime * Uuid);
  to_rfc2822 : DateTime → string;
  uuid_text : Uuid → string;
}.
Class PublicTextLaws `{PublicText} := {
  cursor_json : ∀ at_ id, cursor_of_json (json_of_cursor at_ id) = Some (at_, id);
}.

(** ** src/api/public_error.rs *)
Inductive PublicAppError :=
| NotFound
| InvalidDays
| BadRequest (message : string)
| Unavailable
| Internal (e : string).

Definition error_code (e : PublicAppError) : Z * string :=
  match e with
  | NotFound => (404, "NOT_FOUND")
  | InvalidDays => (400, "INVALID_DAYS")
  | BadRequest _ => (400, "BAD_REQUEST")
  | Unavailable | Internal _ => (503, "STATUS_DATA_UNAVAILABLE")
  end.

(** ** src/api/cursor.rs *)
Module IncidentCursor.
Record t := { started_at : DateTime; id : Uuid }.
#[global] Instance eq_dec : EqDecision t.
Proof. solve_decision. Defined.
End IncidentCursor.

Definition INVALID_CURSOR : string := "INVALID_CURSOR".
Definition invalid_cursor (msg : string) : AppError := Prelude.BadRequest INVALID_CURSOR msg (Some "cursor").

(** ** src/public_status/xml.rs *)
Definition DQUOTE : ascii := ascii_of_nat 34.
Definition special (a : ascii) : bool :=
  Ascii.eqb a "&"%char || Ascii.eqb a "<"%char || Ascii.eqb a ">"%char || Ascii.eqb a DQUOTE || Ascii.eqb a "'"%char.
Definition escape_char (a : ascii) : string :=
  if Ascii.eqb a "&"%char then "&amp;"
  else if Ascii.eqb a "<"%char then "&lt;"
  else if Ascii.eqb a ">"%char then "&gt;"
  else if Ascii.eqb a DQUOTE then "&quot;"
  else if Ascii.eqb a "'"%char then "&apos;"
  else String a "".
Fixpoint escape_chars (s : string) : string :=
  match s with EmptyString => "" | String a s => escape_char a +:+ escape_chars s end.
Definition xml_escape (s : string) : string :=
  if all_chars (λ a, negb (special a)) s then s else escape_chars s.

(** A constant with its double quotes. *)
Fixpoint dq (s : string) : string :=
  match s with
  | EmptyString => ""
  | String a s => String (if Ascii.eqb a "'"%char then DQUOTE else a) (dq s)
  end.
Definition NL : string := byte 10 "".
Definition str_concat : list string → string := foldr String.append "".

(** ** src/public_status/badge.rs *)
Definition COLOR_GREEN := "#4c1".
Definition COLOR_YELLOW := "#dfb317".
Definition COLOR_ORANGE := "#fe7d37".
Definition COLOR_RED := "#e05d44".
Definition COLOR_BLUE := "#007ec6".
Definition COLOR_GREY := "#9f9f9f".
Definition CHAR_WIDTH : Z := 7.
Definition SEGMENT_PADDING : Z := 10.
Definition BADGE_HEIGHT : Z := 20.
Definition MAX_CHARS_PER_SEGMENT : Z := 64.

Definition overall_badge (s : OverallState.t) : string * string :=
  match s with
  | OverallState.Operational => ("operational", COLOR_GREEN)
  | OverallState.MinorDisruption => ("minor disruption", COLOR_YELLOW)
  | OverallState.Maintenance => ("maintenance", COLOR_BLUE)
  | OverallState.PartialOutage => ("partial outage", COLOR_ORANGE)
  | OverallState.MajorOutage => ("major outage", COLOR_RED)
  end.
Definition component_badge (s : PublicComponentStatus.t) : string * string :=
  match s with
  | PublicComponentStatus.Operational => ("operational", COLOR_GREEN)
  | PublicComponentStatus.Degraded => ("degraded", COLOR_YELLOW)
  | PublicComponentStatus.Maintenance => ("maintenance", COLOR_BLUE)
  | PublicComponentStatus.PartialOutage => ("partial outage", COLOR_ORANGE)
  | PublicComponentStatus.MajorOutage => ("major outage", COLOR_RED)
  | PublicComponentStatus.NoData => ("no data", COLOR_GREY)
  end.

(** [text.chars().count()]: the bytes that begin a character. *)
Fixpoint chars_count (s : string) : Z :=
  match s with
  | EmptyString => 0
  | String a s => (if in_range 128 191 a then 0 else 1) + chars_count s
  end.
Definition segment_width (text : string) : Z :=
  let n := Z.min (wrap_u32 (chars_count text)) MAX_CHARS_PER_SEGMENT in
  n * CHAR_WIDTH + SEGMENT_PADDING * 2.

Definition render_badge (label status color : string) : string :=
  let label_w := segment_width label in
  let status_w := segment_width status in
  let total := show (label_w + status_w) in
  let label_mid := show (label_w / 2) in
  let status_mid := show (label_w + status_w / 2) in
  let label_esc := xml_escape label in
  let status_esc := xml_escape status in
  let h := show BADGE_HEIGHT in
  str_concat [
    dq "<svg xmlns='http://www.w3.org/2000/svg' width='"; total; dq "' height='"; h;
    dq "' role='img' aria-label='"; label_esc; ": "; status_esc; dq "'>"; NL;
    "<title>"; label_esc; ": "; status_esc; "</title>"; NL;
    dq "<linearGradient id='g' x2='0' y2='100%'><stop offset='0' stop-color='#bbb' stop-opacity='.1'/><stop offset='1' stop-opacity='.1'/></linearGradient>"; NL;
    dq "<mask id='m'><rect width='"; total; dq "' height='"; h; dq "' rx='3' fill='#fff'/></mask>"; NL;
    dq "<g mask='url(#m)'><rect width='"; show label_w; dq "' height='"; h; dq "' fill='#555'/><rect x='";
    show label_w; dq "' width='"; show status_w; dq "' height='"; h; dq "' fill='"; color;
    dq "'/><rect width='"; total; dq "' height='"; h; dq "' fill='url(#g)'/></g>"; NL;
    dq "<g fill='#fff' text-anchor='middle' font-family='Verdana,Geneva,DejaVu Sans,sans-serif' font-size='11'><text x='";
    label_mid; dq "' y='15' fill='#010101' fill-opacity='.3'>"; label_esc; dq "</text><text x='"; label_mid;
    dq "' y='14'>"; label_esc; dq "</text><text x='"; status_mid;
    dq "' y='15' fill='#010101' fill-opacity='.3'>"; status_esc; dq "</text><text x='"; status_mid;
    dq "' y='14'>"; status_esc; "</text></g>"; NL; "</svg>"].

(** ** src/public_status/source.rs *)
Module IncidentListQuery.
Record t := { limit : Z; cursor : option IncidentCursor.t; ongoing_only : bool }.
End IncidentListQuery.

Module CursorPage.
Record t (A : Type) := { items : list A; next_cursor : option string }.
Arguments items {A} _.
Arguments next_cursor {A} _.
End CursorPage.

Module FeedLinks.
Record t := { page : string; origin : string }.
End FeedLinks.

(** The [incident_postmortems] row; [action_items] as serde reads them, if it can. *)
Module PostmortemRow.
Record t := {
  incident_id : Uuid; org_id : OrgId;
  summary : option string; root_cause : option string; impact : option string;
  action_items : option (list PublicActionItem.t);
  published_at : option DateTime;
}.
End PostmortemRow.

Record SourceConfig := { rss_lookback_days : Z; rss_max_items : Z; source_site_name : string }.
Definition source_defaults (site_name : string) : SourceConfig :=
  {| rss_lookback_days := 90; rss_max_items := 50; source_site_name := site_name |}.

Definition phase_label (p : IncidentStatusPhase.t) : string :=
  match p with
  | IncidentStatusPhase.Investigating => "investigating"
  | IncidentStatusPhase.Identified => "identified"
  | IncidentStatusPhase.Monitoring => "monitoring"
  | IncidentStatusPhase.Resolved => "resolved"
  | IncidentStatusPhase.Postmortem => "postmortem"
  end.

Section Source.
Context `{Primitives, PublicText}.

Definition encode_cursor (c : IncidentCursor.t) : string :=
  url_safe_no_pad_encode (json_of_cursor (IncidentCursor.started_at c) (IncidentCursor.id c)).
Definition decode_cursor (raw : string) : AppError + IncidentCursor.t :=
  match url_safe_no_pad_decode raw with
  | inl _ => inl (invalid_cursor "cursor is not valid base64-url")
  | inr bytes =>
      match cursor_of_json bytes with
      | None => inl (invalid_cursor "cursor payload is not the expected schema")
      | Some (at_, id) => inr {| IncidentCursor.started_at := at_; IncidentCursor.id := id |}
      end
  end.

(** [(i.started_at, i.id) < ($3, $4)]. *)
Definition before_cursor (c : option IncidentCursor.t) (i : IncidentTableRow.t) : bool :=
  match c with
  | None => true
  | Some c =>
      (IncidentTableRow.started_at i <? IncidentCursor.started_at c)
      || ((IncidentTableRow.started_at i =? IncidentCursor.started_at c)
          && (IncidentTableRow.id i <? IncidentCursor.id c)%N)
  end.

Context (src : SourceConfig) (t : Tables) (postmortems : list PostmortemRow.t).

(** [hydrate]: as the aggregator's, with the updates of an incident sorted again. *)
Definition hydrate_row (names : gmap Uuid string) (updates : list UpdateRow.t) (r : IncidentRow.t)
    : PublicIncident.t :=
  let component_name := default "" (names !! IncidentRow.target_id r) in
  let my_updates := sort_by_key PublicIncidentUpdate.posted_at (update_of <$> List.filter
    (λ u, bool_decide (UpdateRow.incident_id u = IncidentRow.id r)) updates) in {|
  PublicIncident.id := IncidentRow.id r;
  PublicIncident.component_id := IncidentRow.target_id r;
  PublicIncident.component_name := component_name;
  PublicIncident.title := default (auto_incident_title component_name (IncidentRow.status_at_start r))
                            (IncidentRow.public_title r);
  PublicIncident.started_at := IncidentRow.started_at r;
  PublicIncident.ended_at := IncidentRow.ended_at r;
  PublicIncident.severity := IncidentSeverity.from_db_str (IncidentRow.severity r);
  PublicIncident.status_phase := default IncidentStatusPhase.Investigating
                                   (PublicIncidentUpdate.phase <$> last my_updates);
  PublicIncident.updates := my_updates;
  PublicIncident.postmortem := None |}.
Definition hydrate (org : OrgId) (rows : list IncidentRow.t) (names : gmap Uuid string)
    : list PublicIncident.t :=
  match rows with
  | [] => []
  | _ => hydrate_row names (updates_of t org (IncidentRow.id <$> rows)) <$> rows
  end.

Definition component_ids_of (names : gmap Uuid string) : list Uuid := (map_to_list names).*1.

Definition listed (org : OrgId) (names : gmap Uuid string) (now : DateTime) (q : IncidentListQuery.t)
    (i : IncidentTableRow.t) : bool :=
  of_page org (component_ids_of names) i && is_public i
  && (now - days (rss_lookback_days src) <=? IncidentTableRow.started_at i)
  && (negb (IncidentListQuery.ongoing_only q) || is_none (IncidentTableRow.ended_at i))
  && before_cursor (IncidentListQuery.cursor q) i.

Definition list_incidents (cached : PublicAppError + Snapshot) (org : OrgId) (now : DateTime)
    (q : IncidentListQuery.t) : PublicAppError + CursorPage.t PublicIncident.t :=
  match cached with
  | inl e => inl e
  | inr snap =>
      let names := snap_names snap in
      if bool_decide (names = ∅) then inr {| CursorPage.items := []; CursorPage.next_cursor := None |}
      else
        let limit := clamp 1 100 (IncidentListQuery.limit q) in
        let fetch := limit + 1 in
        let rows := incident_row <$> take (Z.to_nat fetch) (sort_by started_id_desc
          (List.filter (listed org names now q) (incidents t))) in
        let has_more := limit <? Z.of_nat (length rows) in
        let kept := if has_more then take (Z.to_nat limit) rows else rows in
        let next_cursor := if has_more then
          (λ r, encode_cursor {| IncidentCursor.started_at := IncidentRow.started_at r;
                                 IncidentCursor.id := IncidentRow.id r |}) <$> last kept else None in
        inr {| CursorPage.items := hydrate org kept names; CursorPage.next_cursor := next_cursor |}
  end.

Definition published_postmortem (org : OrgId) (incident_id : Uuid) : option PublicPostmortem.t :=
  r ← List.find (λ r, bool_decide (PostmortemRow.incident_id r = incident_id)
                      && org_eqb (PostmortemRow.org_id r) org && is_some (PostmortemRow.published_at r)) postmortems;
  at_ ← PostmortemRow.published_at r;
  Some {| PublicPostmortem.summary := PostmortemRow.summary r;
          PublicPostmortem.root_cause := PostmortemRow.root_cause r;
          PublicPostmortem.impact := PostmortemRow.impact r;
          PublicPostmortem.action_items := default [] (PostmortemRow.action_items r);
          PublicPostmortem.published_at := at_ |}.

Definition with_postmortem (p : option PublicPostmortem.t) (i : PublicIncident.t) : PublicIncident.t := {|
  PublicIncident.id := PublicIncident.id i; PublicIncident.component_id := PublicIncident.component_id i;
  PublicIncident.component_name := PublicIncident.component_name i;
  PublicIncident.title := PublicIncident.title i; PublicIncident.started_at := PublicIncident.started_at i;
  PublicIncident.ended_at := PublicIncident.ended_at i; PublicIncident.severity := PublicIncident.severity i;
  PublicIncident.status_phase := PublicIncident.status_phase i;
  PublicIncident.updates := PublicIncident.updates i; PublicIncident.postmortem := p |}.

Definition incident_by_id (cached : PublicAppError + Snapshot) (org : OrgId) (id : Uuid)
    : PublicAppError + PublicIncident.t :=
  match cached with
  | inl e => inl e
  | inr snap =>
      let names := snap_names snap in
      match List.find (λ i, bool_decide (IncidentTableRow.id i = id)
                            && of_page org (component_ids_of names) i && is_public i) (incidents t) with
      | None => inl NotFound
      | Some row =>
          match last (hydrate org [incident_row row] names) with
          | None => inl NotFound
          | Some incident => inr (with_postmortem (published_postmortem org id) incident)
          end
      end
  end.

Definition maintenance (cached : PublicAppError + Snapshot) : PublicAppError + PublicMaintenanceList.t :=
  match cached with
  | inl e => inl e
  | inr snap => inr {|
      PublicMaintenanceList.active := PublicStatusPage.active_maintenance (snap_page snap);
      PublicMaintenanceList.upcoming := PublicStatusPage.upcoming_maintenance (snap_page snap) |}
  end.

(** [build_rss]. *)
Definition rss_item (base_url : string) (i : PublicIncident.t) : string :=
  let pub_date := to_rfc2822 (default (PublicIncident.started_at i)
    (PublicIncidentUpdate.posted_at <$> last (PublicIncident.updates i))) in
  let body := join (" " +:+ NL) ((λ u, "[" +:+ phase_label (PublicIncidentUpdate.phase u) +:+ "] "
                                       +:+ PublicIncidentUpdate.message u) <$> PublicIncident.updates i) in
  str_concat [
    "<item>"; "<title>"; xml_escape (PublicIncident.title i); "</title>";
    dq "<guid isPermaLink='false'>"; uuid_text (PublicIncident.id i); "</guid>";
    "<link>"; xml_escape base_url; "/status/incidents/"; uuid_text (PublicIncident.id i); "</link>";
    "<pubDate>"; pub_date; "</pubDate>"; "<description>"; xml_escape body; "</description>"; "</item>"].

Definition build_rss (now : DateTime) (site_name : string) (links : FeedLinks.t) (items : list PublicIncident.t)
    : string :=
  let base_url := trim_end_matches "/"%char (FeedLinks.origin links) in
  str_concat [
    dq "<?xml version='1.0' encoding='UTF-8'?>"; NL; dq "<rss version='2.0'><channel>";
    "<title>"; xml_escape (site_name +:+ " Status Incidents"); "</title><link>";
    xml_escape (trim_end_matches "/"%char (FeedLinks.page links));
    "</link><description>Operational status</description><lastBuildDate>"; to_rfc2822 now; "</lastBuildDate>";
    str_concat (rss_item base_url <$> items); "</channel></rss>"].

Definition incidents_rss (cached : PublicAppError + Snapshot) (org : OrgId) (now : DateTime) (links : FeedLinks.t)
    : PublicAppError + string :=
  match list_incidents cached org now {| IncidentListQuery.limit := rss_max_items src;
          IncidentListQuery.cursor := None; IncidentListQuery.ongoing_only := false |} with
  | inl e => inl e
  | inr listed => inr (build_rss now (source_site_name src) links (CursorPage.items listed))
  end.

(** ** src/api/handlers/public.rs *)
Definition source_component_history `{Collation} (cfg : AggregatorConfig) (cipher : option Cipher) (now : DateTime)
    (page : Uuid) (org : OrgId) (id : Uuid) (n : Z) : PublicAppError + ComponentHistoryResponse.t :=
  if negb ((1 <=? n) && (n <=? 365)) then inl InvalidDays
  else match component_history cfg cipher t now page org id n with
       | Some r => inr r | None => inl NotFound end.

Definition public_incidents (cached : PublicAppError + Snapshot) (org : OrgId) (now : DateTime)
    (limit : option Z) (cursor : option string) (ongoing_only : option bool)
    : PublicAppError + CursorPage.t PublicIncident.t :=
  match (match cursor with
         | None => inr None
         | Some raw => match decode_cursor raw with inr c => inr (Some c) | inl _ => inl tt end
         end) with
  | inl _ => inl (BadRequest "invalid cursor")
  | inr c => list_incidents cached org now {|
      IncidentListQuery.limit := clamp 1 100 (default 25 limit); IncidentListQuery.cursor := c;
      IncidentListQuery.ongoing_only := default false ongoing_only |}
  end.

Definition public_badge (cached : PublicAppError + Snapshot) (style : option string) (component : option Uuid)
    : PublicAppError + string :=
  if is_some_and (λ s, negb (String.eqb s "flat")) style
  then inl (BadRequest "Unsupported style. Only 'flat' is recognised.")
  else match cached with
  | inl e => inl e
  | inr snap =>
      let page := snap_page snap in
      match component with
      | Some id =>
          match List.find (λ c, bool_decide (PublicComponent.id c = id))
                  (g ← PublicStatusPage.groups page; PublicComponentGroup.components g) with
          | None => inl NotFound
          | Some comp =>
              let '(text, color) := component_badge (PublicComponent.current_status comp) in
              inr (render_badge (PublicComponent.name comp) text color)
          end
      | None =>
          let '(text, color) := overall_badge (OverallStatus.state (PublicStatusPage.overall page)) in
          inr (render_badge (PublicStatusPage.site_name page) text color)
      end
  end.
End Source.

(** ** Walking the archive *)
Section Archive.
Context `{PrimitivesLaws} `{PublicTextLaws} (src : SourceConfig) (t : Tables) (postmortems : list PostmortemRow.t).

Lemma decode_encode_cursor c : decode_cursor (encode_cursor c) = inr c.
Proof. unfold decode_cursor, encode_cursor. rewrite decode_encode, cursor_json. by destruct c. Qed.

Definition cursor_of (i : IncidentTableRow.t) : IncidentCursor.t :=
  {| IncidentCursor.started_at := IncidentTableRow.started_at i; IncidentCursor.id := IncidentTableRow.id i |}.

Lemma before_cursor_after c i :
  before_cursor (cursor_of <$> c) i = after started_id_desc c i.
Proof.
  destruct c as [c|]; simpl; [|done]. unfold started_id_desc, started_desc, then_le, on, desc.
  destruct (Z.ltb_spec (IncidentTableRow.started_at i) (IncidentTableRow.started_at c)) as [Hlt|Hge].
  - by rewrite (proj2 (Z.leb_gt _ _)) by lia.
  - rewrite (proj2 (Z.leb_le (IncidentTableRow.started_at c) (IncidentTableRow.started_at i))) by lia. simpl.
    destruct (Z.eqb_spec (IncidentTableRow.started_at i) (IncidentTableRow.started_at c)) as [->|Hne]; simpl.
    + rewrite Z.leb_refl. simpl. by rewrite N.ltb_antisym.
    + by rewrite (proj2 (Z.leb_gt _ _)) by lia.
Qed.

(** What the archive covers. *)
Definition archived (org : OrgId) (names : gmap Uuid string) (now : DateTime) (ongoing : bool)
    : list IncidentTableRow.t :=
  List.filter (listed src org names now {| IncidentListQuery.limit := 1; IncidentListQuery.cursor := None;
    IncidentListQuery.ongoing_only := ongoing |}) (incidents t).

Lemma hydrate_ids org rows names : PublicIncident.id <$> hydrate t org rows names = IncidentRow.id <$> rows.
Proof.
  unfold hydrate. destruct rows as [|r rows]; [done|]. rewrite <-list_fmap_compose. apply list_fmap_ext. done.
Qed.

Lemma started_id_strict l : NoDup (IncidentTableRow.id <$> l) → strict_on started_id_desc l.
Proof.
  intros Hnd x y Hx Hy. unfold started_id_desc, started_desc, then_le, on, desc. intros Hxy Hyx.
  apply (NoDup_fmap_inj_elem IncidentTableRow.id l); [done..|].
  apply andb_true_iff in Hxy as [Ha Hxy], Hyx as [Hb Hyx]. rewrite Ha, Hb in *. simpl in *.
  apply N.leb_le in Hxy, Hyx. lia.
Qed.

(** One page is a keyset page of the archive. *)
Lemma list_incidents_page snap org now limit c ongoing :
  let page := keyset_page started_id_desc (Z.to_nat (clamp 1 100 limit)) c
                (archived org (snap_names snap) now ongoing) in
  ∃ p, list_incidents src t (inr snap) org now {| IncidentListQuery.limit := limit;
         IncidentListQuery.cursor := cursor_of <$> c; IncidentListQuery.ongoing_only := ongoing |} = inr p ∧
    PublicIncident.id <$> CursorPage.items p = IncidentTableRow.id <$> page.1 ∧
    CursorPage.next_cursor p = encode_cursor ∘ cursor_of <$> page.2.
Proof.
  cbv zeta. unfold list_incidents. case_bool_decide as Hn.
  { assert (archived org (snap_names snap) now ongoing = []) as ->.
    { apply lfilter_nil. intros i _. unfold listed, of_page, any_of, component_ids_of. rewrite Hn, map_to_list_empty.
      simpl. by rewrite andb_false_r. }
    eexists; split; [done|]. done. }
  assert (List.filter (listed src org (snap_names snap) now {| IncidentListQuery.limit := limit;
     IncidentListQuery.cursor := cursor_of <$> c; IncidentListQuery.ongoing_only := ongoing |}) (incidents t)
    = List.filter (after started_id_desc c) (archived org (snap_names snap) now ongoing)) as ->.
  { unfold archived. rewrite lfilter_lfilter. apply lfilter_ext. intros i _. unfold listed.
    cbn [IncidentListQuery.limit IncidentListQuery.cursor IncidentListQuery.ongoing_only before_cursor].
    rewrite before_cursor_after, andb_true_r. first [done | by rewrite andb_comm]. }
  eexists; split; [done|]. cbn [CursorPage.items CursorPage.next_cursor]. rewrite hydrate_ids.
  unfold keyset_page. set (limit' := clamp 1 100 (IncidentListQuery.limit _)).
  change (clamp 1 100 limit) with limit'.
  assert (1 ≤ limit') as Hlim by (unfold limit', clamp; lia).
  replace (Z.to_nat (limit' + 1)) with (S (Z.to_nat limit')) by lia.
  set (rows := take (S (Z.to_nat limit')) _). rewrite length_fmap.
  destruct (Nat.ltb_spec (Z.to_nat limit') (length rows)) as [Hlt|Hge].
  - rewrite (proj2 (Z.ltb_lt _ _)) by lia. rewrite <-fmap_take. simpl. split.
    + by rewrite <-list_fmap_compose.
    + rewrite fmap_last. by destruct (last _).
  - rewrite (proj2 (Z.ltb_ge _ _)) by lia. simpl. by rewrite <-list_fmap_compose.
Qed.

(** A client that follows [next_cursor] until there is none. *)
Fixpoint follow (fuel : nat) (cached : PublicAppError + Snapshot) (org : OrgId) (now : DateTime) (limit : option Z)
    (ongoing : option bool) (cursor : option string) : list PublicIncident.t :=
  match fuel with
  | O => []
  | S fuel =>
      match public_incidents src t cached org now limit cursor ongoing with
      | inl _ => []
      | inr p => CursorPage.items p ++
          match CursorPage.next_cursor p with
          | None => []
          | Some c => follow fuel cached org now limit ongoing (Some c)
          end
      end
  end.

Lemma follow_walk fuel snap org now limit ongoing c :
  PublicIncident.id <$> follow fuel (inr snap) org now limit ongoing (encode_cursor ∘ cursor_of <$> c) =
  IncidentTableRow.id <$> walk started_id_desc fuel (Z.to_nat (clamp 1 100 (default 25 limit))) c
    (archived org (snap_names snap) now (default false ongoing)).
Proof.
  revert c. induction fuel as [|fuel IH]; intros c; [done|]. cbn [follow walk]. unfold public_incidents.
  assert ((match encode_cursor ∘ cursor_of <$> c with
    | None => inr None
    | Some raw => match decode_cursor raw with inr c => inr (Some c) | inl _ => inl tt end
    end) = (inr (cursor_of <$> c) : unit + option IncidentCursor.t)) as ->.
  { destruct c; simpl; [|done]. by rewrite decode_encode_cursor. }
  destruct (list_incidents_page snap org now (clamp 1 100 (default 25 limit)) c (default false ongoing))
    as (p & -> & Hitems & Hnext).
  replace (clamp 1 100 (clamp 1 100 (default 25 limit))) with (clamp 1 100 (default 25 limit)) in *
    by (unfold clamp; lia).
  destruct (keyset_page _ _ _ _) as [rows next] eqn:Hpage. simpl in Hitems, Hnext.
  rewrite !fmap_app, Hitems, Hnext. f_equal. destruct next as [r|]; simpl; [|done]. exact (IH (Some r)).
Qed.
End Archive.

(** Following the cursors reads the whole archive. From the first page on, with
    any page size the caller asks for, the pages add up to every published
    incident of the page's components within the look-back, newest first, each
    exactly once, also where several started at the same instant. *)
Theorem archive_is_read_once `{PrimitivesLaws} `{PublicTextLaws} (src : SourceConfig) (t : Tables) (snap : Snapshot)
    (org : OrgId) (now : DateTime) (limit : option Z) (ongoing : option bool) (fuel : nat) :
  NoDup (IncidentTableRow.id <$> incidents t) → (length (incidents t) < fuel)%nat →
  let read := PublicIncident.id <$> follow src t fuel (inr snap) org now limit ongoing None in
  let all := archived src t org (snap_names snap) now (default false ongoing) in
  read = IncidentTableRow.id <$> sort_by started_id_desc all ∧ NoDup read.
Proof.
  intros Hnd Hfuel. cbv zeta.
  assert (NoDup (IncidentTableRow.id <$> archived src t org (snap_names snap) now (default false ongoing))) as Hnd'
    by (by apply NoDup_lfilter_fmap).
  assert (length (archived src t org (snap_names snap) now (default false ongoing)) ≤ length (incidents t))%nat as Hlen
    by apply List.filter_length_le.
  pose proof (follow_walk src t fuel snap org now limit ongoing None) as Hw. cbn [option_fmap option_map fmap] in Hw.
  rewrite Hw, (keyset_walk_spec started_id_desc fuel _ _ None [] (sort_by started_id_desc
    (archived src t org (snap_names snap) now (default false ongoing)))).
  - split; [done|]. by rewrite (fmap_Permutation _ _ _ (sort_by_perm _ _)).
  - unfold clamp. lia.
  - rewrite length_sort_by. lia.
  - done.
  - by eapply NoDup_fmap_1.
  - by apply started_id_strict.
  - done.
Qed.

(** ** The list and the page of one incident *)
Section OneIncident.
Context `{Primitives} `{PublicText} (src : SourceConfig) (t : Tables) (postmortems : list PostmortemRow.t).

#[global] Instance updates_order :
  TotalPreorder (then_le (on UpdateRow.incident_id N.leb) (on UpdateRow.posted_at Z.leb)).
Proof. apply _. Qed.

(** The updates of one incident, however many were read with them. *)
Lemma updates_of_one org ids id :
  id ∈ ids →
  List.filter (λ u, bool_decide (UpdateRow.incident_id u = id)) (updates_of t org ids)
    = List.filter (λ u, bool_decide (UpdateRow.incident_id u = id)) (updates_of t org [id]).
Proof.
  intros Hid. unfold updates_of. rewrite <-!(lfilter_sort_by _). f_equal. rewrite !lfilter_lfilter.
  apply lfilter_ext. intros u _. unfold any_of. destruct (decide (UpdateRow.incident_id u = id)) as [->|Hne].
  - by rewrite !bool_decide_eq_true_2 by (done || by left).
  - by rewrite (bool_decide_eq_false_2 (UpdateRow.incident_id u = id)), ?andb_false_r.
Qed.

Lemma hydrate_row_alone org rows names r :
  r ∈ rows →
  hydrate_row names (updates_of t org (IncidentRow.id <$> rows)) r
    = hydrate_row names (updates_of t org [IncidentRow.id r]) r.
Proof.
  intros Hr. unfold hydrate_row. rewrite updates_of_one; [done|]. by apply list_elem_of_fmap_2.
Qed.

Lemma elem_of_hydrate org rows names i :
  i ∈ hydrate t org rows names →
  ∃ r, r ∈ rows ∧ i = hydrate_row names (updates_of t org [IncidentRow.id r]) r.
Proof.
  intros Hi. assert (i ∈ hydrate_row names (updates_of t org (IncidentRow.id <$> rows)) <$> rows) as Hi'
    by (unfold hydrate in Hi; by destruct rows).
  apply list_elem_of_fmap in Hi' as (r & -> & Hr). exists r. split; [done|]. by apply hydrate_row_alone.
Qed.
End OneIncident.

(** What the list shows opens. Every incident on a page of the list has a page of
    its own with the same content, the published postmortem apart; an incident that
    opens is published, of the organisation, and on a component of the page. *)
Theorem listed_incident_opens `{Primitives} `{PublicText} (src : SourceConfig) (t : Tables)
    (postmortems : list PostmortemRow.t) (snap : Snapshot) (org : OrgId) (now : DateTime) (q : IncidentListQuery.t)
    (p : CursorPage.t PublicIncident.t) :
  NoDup (IncidentTableRow.id <$> incidents t) →
  list_incidents src t (inr snap) org now q = inr p →
  (∀ i, i ∈ CursorPage.items p →
     incident_by_id t postmortems (inr snap) org (PublicIncident.id i)
       = inr (with_postmortem (published_postmortem postmortems org (PublicIncident.id i)) i)) ∧
  (∀ id i, incident_by_id t postmortems (inr snap) org id = inr i →
     ∃ row, row ∈ incidents t ∧ IncidentTableRow.id row = id ∧ IncidentTableRow.visibility row = "public" ∧
       IncidentTableRow.org_id row = org ∧ is_Some (snap_names snap !! IncidentTableRow.target_id row)).
Proof.
  intros Hnd Hlist. split.
  - intros i Hi. unfold list_incidents in Hlist. case_bool_decide as Hn; [|].
    { injection Hlist as <-. by apply not_elem_of_nil in Hi. }
    injection Hlist as <-. cbn [CursorPage.items] in Hi.
    apply elem_of_hydrate in Hi as (r & Hr & ->).
    set (rows := take _ _) in Hr.
    assert (r ∈ incident_row <$> rows) as Hr'
      by (case_match; [by eapply elem_of_take in Hr as (? & ? & _); eapply list_elem_of_lookup_2|done]).
    apply list_elem_of_fmap in Hr' as (row & -> & Hrow).
    apply elem_of_take in Hrow as (k & Hk%list_elem_of_lookup_2 & _). rewrite elem_of_sort_by in Hk.
    apply elem_of_lfilter in Hk as [Hin Hl]. unfold listed in Hl. rewrite !andb_true_iff in Hl.
    destruct Hl as ((((Hpage & Hpub) & _) & _) & _).
    unfold incident_by_id. cbn [PublicIncident.id hydrate_row].
    destruct (List.find _ (incidents t)) as [row'|] eqn:Hfind.
    + apply find_Some_elem in Hfind as [Hin' [[Hid%bool_decide_eq_true _]%andb_true_iff _]%andb_true_iff].
      assert (row' = row) as -> by (by apply (NoDup_fmap_inj_elem IncidentTableRow.id (incidents t))).
      done.
    + exfalso. apply list_elem_of_In in Hin. pose proof (find_none _ _ Hfind row Hin) as Hno. cbv beta in Hno.
      by rewrite Hpage, Hpub, bool_decide_eq_true_2 in Hno.
  - intros id i. unfold incident_by_id. destruct (List.find _ (incidents t)) as [row|] eqn:Hfind; [|done]. intros _.
    apply find_Some_elem in Hfind as [Hin [[Hid%bool_decide_eq_true Hpage]%andb_true_iff Hpub]%andb_true_iff].
    unfold of_page, org_eqb, any_of in Hpage. apply andb_true_iff in Hpage as [Horg Hpage].
    apply bool_decide_eq_true in Horg, Hpage. unfold component_ids_of in Hpage.
    apply list_elem_of_fmap in Hpage as ([k v] & Hk & Hkv%elem_of_map_to_list). simpl in Hk.
    exists row. split_and!; [done..|by apply String.eqb_eq|done|]. rewrite Hk. by eexists.
Qed.

(** ** Escaping *)

(** A reader of the escapes. *)
Fixpoint unescape (fuel : nat) (s : string) : string :=
  match fuel, s with
  | S fuel, String a s' =>
      if String.prefix "&amp;" s then String "&" (unescape fuel (drop_chars 5 s))
      else if String.prefix "&lt;" s then String "<" (unescape fuel (drop_chars 4 s))
      else if String.prefix "&gt;" s then String ">" (unescape fuel (drop_chars 4 s))
      else if String.prefix "&quot;" s then String DQUOTE (unescape fuel (drop_chars 6 s))
      else if String.prefix "&apos;" s then String "'" (unescape fuel (drop_chars 6 s))
      else String a (unescape fuel s')
  | _, _ => s
  end.
Definition no_markup (s : string) : bool :=
  all_chars (λ a, negb (Ascii.eqb a "<"%char || Ascii.eqb a ">"%char || Ascii.eqb a DQUOTE || Ascii.eqb a "'"%char)) s.

Lemma all_chars_app p s u : all_chars p (s +:+ u) = all_chars p s && all_chars p u.
Proof.
  induction s as [|a s IH]; [done|]. change (String a s +:+ u) with (String a (s +:+ u)). simpl.
  by rewrite IH, andb_assoc.
Qed.

(** An ordinary byte starts no entity. *)
Lemma prefix_amp a s p : a ≠ "&"%char → String.prefix (String "&" p) (String a s) = false.
Proof. intros Ha. cbn [String.prefix]. by case_match. Qed.

Lemma prefix_nil s : String.prefix "" s = true.
Proof. by destruct s. Qed.

Lemma unescape_escape_chars s fuel :
  (String.length s ≤ fuel)%nat → unescape fuel (escape_chars s) = s.
Proof.
  revert fuel. induction s as [|a s IH]; intros [|fuel] Hf; simpl in Hf; try done; [lia|].
  cbn [escape_chars]. unfold escape_char.
  destruct (Ascii.eqb_spec a "&") as [->|Hamp]; [simpl; rewrite ?prefix_nil; f_equal; apply IH; lia|].
  destruct (Ascii.eqb_spec a "<") as [->|Hlt]; [simpl; rewrite ?prefix_nil; f_equal; apply IH; lia|].
  destruct (Ascii.eqb_spec a ">") as [->|Hgt]; [simpl; rewrite ?prefix_nil; f_equal; apply IH; lia|].
  destruct (Ascii.eqb_spec a DQUOTE) as [->|Hq]; [simpl; rewrite ?prefix_nil; f_equal; apply IH; lia|].
  destruct (Ascii.eqb_spec a "'") as [->|Hap]; [simpl; rewrite ?prefix_nil; f_equal; apply IH; lia|].
  change (String a "" +:+ escape_chars s) with (String a (escape_chars s)). cbn [unescape].
  rewrite !prefix_amp by done. f_equal. apply IH. lia.
Qed.

Lemma escape_chars_plain s : all_chars (λ a, negb (special a)) s = true → escape_chars s = s.
Proof.
  induction s as [|a s IH]; [done|]. simpl. intros [Ha Hs]%andb_true_iff. rewrite IH by done.
  unfold special, escape_char in *. destruct (Ascii.eqb a "&"), (Ascii.eqb a "<"), (Ascii.eqb a ">"),
    (Ascii.eqb a DQUOTE), (Ascii.eqb a "'"); done.
Qed.

Lemma xml_escape_eq s : xml_escape s = escape_chars s.
Proof. unfold xml_escape. destruct (all_chars _ s) eqn:Hs; [|done]. by rewrite escape_chars_plain. Qed.

Lemma no_markup_escape s : no_markup (escape_chars s) = true.
Proof.
  unfold no_markup. induction s as [|a s IH]; [done|]. cbn [escape_chars]. rewrite all_chars_app, IH, andb_true_r.
  unfold escape_char. destruct (Ascii.eqb a "&"); [done|]. destruct (Ascii.eqb a "<") eqn:H1; [done|].
  destruct (Ascii.eqb a ">") eqn:H2; [done|]. destruct (Ascii.eqb a DQUOTE) eqn:H3; [done|].
  destruct (Ascii.eqb a "'") eqn:H4; [done|]. simpl. by rewrite H1, H2, H3, H4.
Qed.

(** What is escaped reads back and is no markup. A reader of XML gets the
    operator's text back from [xml_escape], and the escaped text holds no angle
    bracket and no quote. *)
Theorem escaped_text_reads_back (s : string) :
  unescape (String.length s) (xml_escape s) = s ∧ no_markup (xml_escape s) = true.
Proof. rewrite xml_escape_eq. split; [by apply unescape_escape_chars|apply no_markup_escape]. Qed.

(** The brackets of a document. *)
Fixpoint opens (s : string) : Z :=
  match s with EmptyString => 0 | String a s => (if Ascii.eqb a "<"%char then 1 else 0) + opens s end.

Lemma opens_app s u : opens (s +:+ u) = opens s + opens u.
Proof. induction s as [|a s IH]; [done|]. change (String a s +:+ u) with (String a (s +:+ u)). simpl. lia. Qed.

Lemma opens_no_markup s : no_markup s = true → opens s = 0.
Proof.
  unfold no_markup. induction s as [|a s IH]; [done|]. simpl. intros [Ha Hs]%andb_true_iff.
  rewrite (IH Hs). by destruct (Ascii.eqb a "<").
Qed.

Lemma opens_escape s : opens (xml_escape s) = 0.
Proof. apply opens_no_markup. rewrite xml_escape_eq. apply no_markup_escape. Qed.

Lemma opens_concat l : opens (str_concat l) = sumZ (opens <$> l).
Proof.
  unfold str_concat, sumZ. induction l as [|s l IH]; [done|]. cbn [foldr]. rewrite opens_app, IH. by csimpl.
Qed.

(** Digits are no markup. *)
Lemma opens_pretty_go x s : opens (pretty_N_go x s) = opens s.
Proof.
  revert s. induction (N.lt_wf_0 x) as [x _ IH]; intros s.
  destruct (decide (x = 0%N)) as [->|Hx]; [by rewrite pretty_N_go_0|].
  rewrite pretty_N_go_step by lia. rewrite IH by (apply N.div_lt; lia). simpl.
  enough (Ascii.eqb (pretty_N_char (x `mod` 10)) "<"%char = false) as -> by done.
  unfold pretty_N_char. repeat case_match; done.
Qed.

Lemma opens_show z : opens (show z) = 0.
Proof.
  assert (∀ n : N, opens (pretty n) = 0) as HN
    by (intros n; unfold pretty, pretty_N; case_decide; [done|apply opens_pretty_go]).
  unfold show. destruct z as [|p|p]; [done|exact (HN (Npos p))|].
  change (opens ("-" +:+ pretty (Npos p)) = 0). by rewrite opens_app, HN.
Qed.

(** No text of an operator adds markup. The feed has the elements its template
    writes, per item, and the badge those of its own, whatever the titles, names,
    messages and links hold. *)
Theorem text_adds_no_markup `{PublicText} (now : DateTime) (site_name : string) (links : FeedLinks.t)
    (items : list PublicIncident.t) (label status color : string) :
  (∀ at_, no_markup (to_rfc2822 at_) = true) → (∀ id, no_markup (uuid_text id) = true) → no_markup color = true →
  opens (build_rss now site_name links items) = 13 + 12 * Z.of_nat (length items) ∧
  opens (render_badge label status color) = opens (render_badge "" "" "").
Proof.
  intros Hdate Hid Hcolor. apply opens_no_markup in Hcolor. split.
  - unfold build_rss. rewrite opens_concat. csimpl. cbn [sumZ foldr]. rewrite !opens_escape, opens_concat.
    rewrite (opens_no_markup (to_rfc2822 now)) by done.
    enough (sumZ (opens <$> (rss_item (trim_end_matches "/" (FeedLinks.origin links)) <$> items))
      = 12 * Z.of_nat (length items)) as -> by (cbn; lia).
    induction items as [|i items IH]; [done|]. rewrite !fmap_cons. cbn [sumZ foldr length].
    fold (sumZ (opens <$> (rss_item (trim_end_matches "/" (FeedLinks.origin links)) <$> items))). rewrite IH.
    unfold rss_item. rewrite opens_concat. csimpl. cbn [sumZ foldr].
    rewrite !opens_escape, !(opens_no_markup (uuid_text _)), (opens_no_markup (to_rfc2822 _)) by done. cbn. lia.
  - unfold render_badge. rewrite !opens_concat. csimpl. cbn [sumZ foldr].
    rewrite !opens_escape, !opens_show, Hcolor. done.
Qed.

Module FeedSample.
#[local] Instance primitives : Primitives := CryptoSample.toy.
#[local] Instance primitives_laws : PrimitivesLaws := CryptoSample.toy_laws.
(** A cursor as the binary digits of one number. *)
Fixpoint digits (p : positive) : string :=
  match p with xH => "" | xO p => String "0" (digits p) | xI p => String "1" (digits p) end.
Fixpoint number (s : string) : positive :=
  match s with
  | EmptyString => xH
  | String a s => if Ascii.eqb a "0"%char then xO (number s) else xI (number s)
  end.
Lemma number_digits p : number (digits p) = p.
Proof. induction p as [p IH|p IH|]; simpl; by rewrite ?IH. Qed.

#[local] Instance public_text : PublicText := {|
  json_of_cursor at_ id := digits (encode (at_, id)); cursor_of_json s := decode (number s);
  to_rfc2822 _ := "Thu, 01 Jan 1970"; uuid_text _ := "0000" |}.
#[local] Instance public_text_laws : PublicTextLaws.
Proof. split. intros at_ id. simpl. by rewrite number_digits, countable.decode_encode. Qed.

Definition incident (id : Uuid) (started_at : DateTime) : IncidentTableRow.t := {|
  IncidentTableRow.id := id; IncidentTableRow.org_id := 2%N; IncidentTableRow.target_id := 3%N;
  IncidentTableRow.started_at := started_at; IncidentTableRow.ended_at := None;
  IncidentTableRow.severity := "major"; IncidentTableRow.status_at_start := "down";
  IncidentTableRow.public_title := Some "A <b>bad</b> day"; IncidentTableRow.origin := "monitor";
  IncidentTableRow.visibility := "public"; IncidentTableRow.counts_as_downtime := true;
  IncidentTableRow.regions_up := None |}.

(** Three incidents, two of them of one instant; read two at a time. *)
Definition tables : Tables := {|
  status_page_components := []; targets := []; monitor_shares := [];
  incidents := [incident 7%N (seconds 60); incident 8%N (seconds 90); incident 9%N (seconds 60)];
  incident_updates := []; maintenance_windows := []; maintenance_window_components := [];
  check_results_1h := [] |}.
Definition snapshot : Snapshot := {|
  snap_page := {|
    PublicStatusPage.overall := overall_status OverallState.Operational;
    PublicStatusPage.generated_at := 0; PublicStatusPage.site_name := "Example";
    PublicStatusPage.groups := []; PublicStatusPage.active_incidents := [];
    PublicStatusPage.recent_incidents := []; PublicStatusPage.recent_incidents_has_more := false;
    PublicStatusPage.active_maintenance := []; PublicStatusPage.upcoming_maintenance := [] |};
  snap_markers := []; snap_names := {[3%N := "API"]} |}.
Definition src : SourceConfig := source_defaults "Example".

Lemma distinct : NoDup (IncidentTableRow.id <$> incidents tables).
Proof. repeat constructor; set_solver. Qed.

Lemma archive_is_read_once_witness :
  PublicIncident.id <$> follow src tables 4 (inr snapshot) 2%N (seconds 120) (Some 2) None None = [8%N; 9%N; 7%N].
Proof.
  destruct (archive_is_read_once src tables snapshot 2%N (seconds 120) (Some 2) None 4 distinct ltac:(simpl; lia))
    as [-> _]. by vm_compute.
Defined.

Lemma listed_incident_opens_witness :
  ∃ p, list_incidents src tables (inr snapshot) 2%N (seconds 120) {| IncidentListQuery.limit := 2;
    IncidentListQuery.cursor := None; IncidentListQuery.ongoing_only := false |} = inr p ∧
  ∀ i, i ∈ CursorPage.items p → incident_by_id tables [] (inr snapshot) 2%N (PublicIncident.id i)
    = inr (with_postmortem None i).
Proof.
  eexists; split; [reflexivity|].
  eapply (listed_incident_opens src tables [] snapshot 2%N (seconds 120)); [exact distinct|reflexivity].
Defined.

Lemma text_adds_no_markup_witness :
  opens (build_rss 0 "A & B" {| FeedLinks.page := "https://x/<"; FeedLinks.origin := "https://x" |} []) = 13.
Proof.
  apply (text_adds_no_markup 0 "A & B" {| FeedLinks.page := "https://x/<"; FeedLinks.origin := "https://x" |} []
    "a" "b" "#fff"); reflexivity.
Defined.
End FeedSample.
