(* ===== verification/StatusCache.v ===== *)
(** * Status pages: the cache

    src/public_status/cache.rs ([PageCache]) and [OrgPublicSource::cached] of
    source.rs. The moka caches are a parameter: a cache answers only what was last
    put under the key, and may have dropped it (capacity, age). Concurrency is a
    list of events: requests, the end of the one compute that runs for a page
    ([try_get_with] collapses the requests that miss meanwhile), invalidations. *)

From S2P Require Import Prelude.

(** [moka::future::Cache] and [moka::sync::Cache] over the page's identifier. *)
Class Moka (V : Type) := {
  cache : Type;
  empty_cache : cache;
  get : DateTime → Uuid → cache → option V;
  insert : DateTime → Uuid → V → cache → cache;
  invalidate_key : Uuid → cache → cache;
}.

Class MokaLaws (V : Type) `{Moka V} := {
  get_empty : ∀ now k, get now k empty_cache = None;
  get_insert : ∀ now at_ k k' v x c, get now k (insert at_ k' v c) = Some x →
    (k = k' ∧ x = v) ∨ (k ≠ k' ∧ get now k c = Some x);
  get_invalidated : ∀ now k c, get now k (invalidate_key k c) = None;
  get_invalidate_other : ∀ now k k' c x, get now k (invalidate_key k' c) = Some x → get now k c = Some x;
}.

Inductive PageCacheError := Unavailable.

Module PageCache.
Section Cache.
Context {V : Type} `{Moka V}.

Record t := {
  inner : cache;
  last_good : cache;
  in_flight : gmap Uuid nat;       (* the requests waiting on the compute of a page *)
}.
Definition new : t := {| inner := empty_cache; last_good := empty_cache; in_flight := ∅ |}.

Inductive event :=
| Request (org : Uuid)
| Finished (org : Uuid) (res : option V)    (* the compute that ran for the page; [None] is an error *)
| Invalidate (org : Uuid).

Definition answer : Type := Uuid * (PageCacheError + V).

(** [get_or_compute_data], up to the compute, and [invalidate]. *)
Definition request (now : DateTime) (org : Uuid) (s : t) : t * list answer :=
  match get now org (inner s) with
  | Some data => (s, [(org, inr data)])
  | None =>
      ({| inner := inner s; last_good := last_good s;
          in_flight := <[org := S (default 0%nat (in_flight s !! org))]> (in_flight s) |}, [])
  end.

(** After it: an [Ok] goes to both layers; on an error every waiter is served the
    last good snapshot, if there is one. *)
Definition finished (now : DateTime) (org : Uuid) (res : option V) (s : t) : t * list answer :=
  match in_flight s !! org with
  | None => (s, [])
  | Some waiting =>
      let s' := match res with
        | Some arc => {| inner := insert now org arc (inner s); last_good := insert now org arc (last_good s);
                         in_flight := delete org (in_flight s) |}
        | None => {| inner := inner s; last_good := last_good s; in_flight := delete org (in_flight s) |}
        end in
      let reply := match res with
        | Some arc => inr arc
        | None => match get now org (last_good s) with
                  | Some stale => inr stale | None => inl Unavailable end
        end in
      (s', replicate waiting (org, reply))
  end.

Definition invalidate (org : Uuid) (s : t) : t :=
  {| inner := invalidate_key org (inner s); last_good := invalidate_key org (last_good s);
     in_flight := in_flight s |}.

Definition step (now : DateTime) (e : event) (s : t) : t * list answer :=
  match e with
  | Request org => request now org s
  | Finished org res => finished now org res s
  | Invalidate org => (invalidate org s, [])
  end.

(** The events with the instants they happen at. *)
Fixpoint run (es : list (DateTime * event)) (s : t) : t * list answer :=
  match es with
  | [] => (s, [])
  | (now, e) :: es =>
      let '(s1, a1) := step now e s in
      let '(s2, a2) := run es s1 in
      (s2, a1 ++ a2)
  end.
End Cache.
Arguments t V {_}.
Arguments event V : clear implicits.
End PageCache.

Section Facts.
Context {V : Type} `{MokaLaws V}.
Implicit Types (s : PageCache.t V) (e : PageCache.event V) (es : list (DateTime * PageCache.event V)).

(** Every value held for a page is one of [P]. *)
Definition holds_only (P : Uuid → V → Prop) s : Prop :=
  ∀ now org x, get now org (PageCache.inner s) = Some x ∨ get now org (PageCache.last_good s) = Some x → P org x.

Lemma step_holds (P : Uuid → V → Prop) now e s s' a :
  holds_only P s → (∀ org x, e = PageCache.Finished org (Some x) → P org x) →
  PageCache.step now e s = (s', a) →
  holds_only P s' ∧ ∀ org x, (org, inr x) ∈ a → P org x.
Proof.
  intros Hs He. destruct e as [org|org res|org]; simpl.
  - unfold PageCache.request. destruct (get now org (PageCache.inner s)) as [d|] eqn:Hg; intros [= <- <-].
    + split; [done|]. intros o x [= -> ->]%list_elem_of_singleton. apply (Hs now). by left.
    + split; [exact Hs|]. by intros o x ?%not_elem_of_nil.
  - unfold PageCache.finished. destruct (PageCache.in_flight s !! org) as [n|];
      [|intros [= <- <-]; split; [done|by intros o x ?%not_elem_of_nil]].
    intros [= <- <-]. split.
    + destruct res as [v|]; [|exact Hs]. intros at_ o x. simpl.
      intros [Hx|Hx]; apply get_insert in Hx as [[-> ->]|[_ Hx]]; [by apply He| |by apply He|];
        apply (Hs at_); auto.
    + intros o x Hin. apply elem_of_replicate in Hin as [Heq _]. injection Heq as -> Hx.
      destruct res as [v|]; [|destruct (get now org (PageCache.last_good s)) as [y|] eqn:Hg]; simplify_eq.
      * by apply He.
      * apply (Hs now). by right.
  - intros [= <- <-]. split; [|by intros o x ?%not_elem_of_nil].
    intros at_ o x [Hx|Hx]; apply get_invalidate_other in Hx; apply (Hs at_); auto.
Qed.

Lemma run_holds (P : Uuid → V → Prop) es s s' a :
  holds_only P s → (∀ now org x, (now, PageCache.Finished org (Some x)) ∈ es → P org x) →
  PageCache.run es s = (s', a) →
  ∀ org x, (org, inr x) ∈ a → P org x.
Proof.
  revert s a. induction es as [|[now e] es IH]; simpl; intros s a Hs He.
  { intros [= <- <-]. by intros o x ?%not_elem_of_nil. }
  destruct (PageCache.step now e s) as [s1 a1] eqn:Hstep, (PageCache.run es s1) as [s2 a2] eqn:Hrun.
  intros [= <- <-]. destruct (step_holds P now e s s1 a1 Hs) as [Hs1 Ha1]; [|done|].
  { intros org x ->. eapply He. by left. }
  intros org x [Hx|Hx]%elem_of_app; [by apply Ha1|]. eapply IH; [exact Hs1| |exact Hrun|exact Hx].
  intros at_ o y Hy. eapply He. by right.
Qed.

(** *** Accounting *)
Definition is_request (org : Uuid) (e : PageCache.event V) : bool :=
  match e with PageCache.Request o => bool_decide (o = org) | _ => false end.
Definition answers_to (org : Uuid) (a : list (PageCache.answer (V := V))) : nat :=
  length (List.filter (λ x, bool_decide (x.1 = org)) a).
Definition requests_for (org : Uuid) es : nat := length (List.filter (λ te, is_request org te.2) es).
Definition waiting org s : nat := default 0%nat (PageCache.in_flight s !! org).

Lemma cache_step_accounts now e s s' a org :
  PageCache.step now e s = (s', a) →
  ((if is_request org e then 1 else 0) + waiting org s = answers_to org a + waiting org s')%nat.
Proof.
  unfold waiting, answers_to. destruct e as [o|o res|o]; simpl.
  - unfold PageCache.request. destruct (get now o (PageCache.inner s)) eqn:Hg; intros [= <- <-]; simpl.
    + by case_bool_decide.
    + case_bool_decide as Ho; [subst; by rewrite lookup_insert_eq|by rewrite lookup_insert_ne].
  - unfold PageCache.finished. destruct (PageCache.in_flight s !! o) as [n|] eqn:Hn; intros [= <- <-]; [|done].
    assert (∀ (r : PageCacheError + V), length (List.filter (λ x, bool_decide (x.1 = org)) (replicate n (o, r)))
      = if bool_decide (o = org) then n else 0%nat) as Hlen.
    { intros r. clear. induction n as [|n IH]; simpl; [by destruct (bool_decide _)|]. case_bool_decide; simpl; by rewrite IH. }
    rewrite Hlen. case_bool_decide as Ho.
    + subst. rewrite Hn. destruct res; simpl; rewrite lookup_delete_eq; simpl; lia.
    + destruct res; simpl; by rewrite lookup_delete_ne.
  - by intros [= <- <-].
Qed.

Lemma cache_run_accounts es s s' a org :
  PageCache.run es s = (s', a) →
  (requests_for org es + waiting org s = answers_to org a + waiting org s')%nat.
Proof.
  revert s a. induction es as [|[now e] es IH]; simpl; intros s a; [by intros [= <- <-]|].
  destruct (PageCache.step now e s) as [s1 a1] eqn:Hstep, (PageCache.run es s1) as [s2 a2] eqn:Hrun.
  intros [= <- <-]. apply (cache_step_accounts _ _ _ _ _ org) in Hstep. apply IH in Hrun.
  unfold requests_for, answers_to in *. cbn [List.filter snd].
  rewrite lfilter_app, length_app. destruct (is_request org e); simpl; lia.
Qed.
End Facts.

(** A page is never served another page's data. Whatever requests, computes,
    failures and invalidations happen, in whatever order, the snapshot a request
    for a page is answered with is one that a compute for that page returned, also
    when it is the last good one after a failure. *)
Theorem page_gets_its_own_snapshot {V} `{MokaLaws V} (es : list (DateTime * PageCache.event V)) org x :
  (org, inr x) ∈ (PageCache.run es PageCache.new).2 →
  ∃ now, (now, PageCache.Finished org (Some x)) ∈ es.
Proof.
  destruct (PageCache.run es PageCache.new) as [s a] eqn:Hrun. simpl.
  apply (run_holds (λ org x, ∃ now, (now, PageCache.Finished org (Some x)) ∈ es) es PageCache.new s a); [| |done].
  - intros now o y [Hy|Hy]; simpl in Hy; by rewrite get_empty in Hy.
  - intros now o y Hy. by exists now.
Qed.

(** An invalidation is complete when nothing is in flight. Every answer given
    for the page from then on comes of a compute that ended, and so began, after it. *)
Theorem invalidation_forgets {V} `{MokaLaws V} (s : PageCache.t V) (es : list (DateTime * PageCache.event V)) org x :
  PageCache.in_flight s !! org = None →
  (org, inr x) ∈ (PageCache.run es (PageCache.invalidate org s)).2 →
  PageCache.in_flight (PageCache.invalidate org s) !! org = None ∧
  ∃ now, (now, PageCache.Finished org (Some x)) ∈ es.
Proof.
  intros Hidle Hin. split; [done|].
  destruct (PageCache.run es (PageCache.invalidate org s)) as [s' a] eqn:Hrun. simpl in Hin.
  pose proof (run_holds (λ o y, o = org → ∃ now, (now, PageCache.Finished o (Some y)) ∈ es) es
    (PageCache.invalidate org s) s' a) as Hholds. rewrite Hrun in Hholds.
  refine (Hholds _ _ eq_refl org x Hin eq_refl).
  - intros now o y Hy ->. simpl in Hy. rewrite !get_invalidated in Hy. by destruct Hy.
  - intros now o y Hy _. by exists now.
Qed.

(** Every request is answered once. Whatever happens, the requests made for a
    page are the answers given plus the requests still waiting on its compute; and
    none waits when none runs. *)
Theorem requests_are_answered_once {V} `{MokaLaws V} (es : list (DateTime * PageCache.event V)) org :
  let '(s, answers) := PageCache.run es PageCache.new in
  requests_for org es = (answers_to org answers + waiting org s)%nat ∧
  (PageCache.in_flight s !! org = None → requests_for org es = answers_to org answers).
Proof.
  destruct (PageCache.run es PageCache.new) as [s a] eqn:Hrun.
  apply (cache_run_accounts _ _ _ _ org) in Hrun. unfold waiting in *. simpl in Hrun. rewrite Nat.add_0_r in Hrun.
  split; [done|]. intros Hn. rewrite Hn in Hrun. simpl in Hrun. lia.
Qed.

Module CacheSample.
(** A cache that never forgets. *)
#[local] Instance plain : Moka nat := {|
  cache := gmap Uuid nat; empty_cache := ∅; get _ k c := c !! k; insert _ k v c := <[k := v]> c;
  invalidate_key k c := delete k c |}.
#[local] Instance plain_laws : MokaLaws nat.
Proof.
  split; simpl.
  - done.
  - intros _ _ k k' v x c. destruct (decide (k = k')) as [->|Hne]; [rewrite lookup_insert_eq; intros [= ->]; auto|].
    rewrite lookup_insert_ne by done. auto.
  - intros _ k c. apply lookup_delete_eq.
  - intros _ k k' c x [_ Hx]%lookup_delete_Some. done.
Qed.

Definition history : list (DateTime * PageCache.event nat) :=
  [(0, PageCache.Request 1%N); (0, PageCache.Request 1%N); (1, PageCache.Finished 1%N (Some 7%nat));
   (2, PageCache.Invalidate 2%N); (3, PageCache.Request 2%N); (4, PageCache.Finished 2%N None)].

Lemma page_gets_its_own_snapshot_witness :
  ∃ now, (now, PageCache.Finished 1%N (Some 7%nat)) ∈ history.
Proof. apply (page_gets_its_own_snapshot history 1%N 7%nat). vm_compute. left. Defined.

Lemma invalidation_forgets_witness :
  ∃ now, (now, PageCache.Finished 1%N (Some 8%nat)) ∈ [(5, PageCache.Request 1%N); (6, PageCache.Finished 1%N (Some 8%nat))].
Proof.
  apply (invalidation_forgets (PageCache.run history PageCache.new).1
    [(5, PageCache.Request 1%N); (6, PageCache.Finished 1%N (Some 8%nat))] 1%N 8%nat); [by vm_compute|].
  vm_compute. left.
Defined.

(** A compute begun before an invalidation writes its snapshot after it, and serves it on. *)
Lemma in_flight_compute_outlives_invalidation :
  (PageCache.run [(0, PageCache.Request 1%N); (1, PageCache.Invalidate 1%N);
     (2, PageCache.Finished 1%N (Some 7%nat)); (3, PageCache.Request 1%N)] PageCache.new).2
  = [(1%N, inr 7%nat); (1%N, inr 7%nat)].
Proof. by vm_compute. Qed.
End CacheSample.
