(* ===== verification/Incident.v ===== *)
(** * Incidents: the public projection and the operational one

    src/domain/incident.rs. [Incident] is the public read model with the
    coalescer that folds a check stream into incidents and the downtime sums
    over them; [OpsIncident], [IncidentEvent] and [IncidentNotification] are the
    operational rows the store and the paging engine work on; [next_state] is
    the lifecycle state machine. Floating-point percentages are left out. *)

From S2P Require Import Prelude Domain.

(** ** Rows *)
Module PublicIncidentUpdate.
Record t := {
  posted_at : DateTime;
  phase : IncidentStatusPhase.t;
  message : string;
}.
#[global] Instance eq_dec : EqDecision t.
Proof. solve_decision. Defined.
End PublicIncidentUpdate.

Module Incident.
Record t := {
  id : Uuid;
  target_id : option Uuid;
  started_at : DateTime;
  ended_at : option DateTime;
  status : CheckStatus.t;
  duration_secs : option Z;
  check_count : Z;
  error_sample : option string;
  severity : IncidentSeverity.t;
  counts_as_downtime : bool;
  public_title : option string;
  public_description : option string;
  created_at : option DateTime;
  updated_at : option DateTime;
  updates : list PublicIncidentUpdate.t;
  regions_down : list string;
  regions_up : list string;
}.
#[global] Instance eq_dec : EqDecision t.
Proof. solve_decision. Defined.

Definition set_status (v : CheckStatus.t) (x : t) : t := {|
  id := id x; target_id := target_id x; started_at := started_at x; ended_at := ended_at x;
  status := v; duration_secs := duration_secs x; check_count := check_count x; error_sample :=
  error_sample x; severity := severity x; counts_as_downtime := counts_as_downtime x;
  public_title := public_title x; public_description := public_description x; created_at :=
  created_at x; updated_at := updated_at x; updates := updates x; regions_down := regions_down x; regions_up :=
  regions_up x |}.
Definition set_ended_at (v : option DateTime) (x : t) : t := {|
  id := id x; target_id := target_id x; started_at := started_at x; ended_at := v; status :=
  status x; duration_secs := duration_secs x; check_count := check_count x; error_sample :=
  error_sample x; severity := severity x; counts_as_downtime := counts_as_downtime x;
  public_title := public_title x; public_description := public_description x; created_at :=
  created_at x; updated_at := updated_at x; updates := updates x; regions_down := regions_down x; regions_up :=
  regions_up x |}.
Definition set_duration_secs (v : option Z) (x : t) : t := {|
  id := id x; target_id := target_id x; started_at := started_at x; ended_at := ended_at x;
  status := status x; duration_secs := v; check_count := check_count x; error_sample :=
  error_sample x; severity := severity x; counts_as_downtime := counts_as_downtime x;
  public_title := public_title x; public_description := public_description x; created_at :=
  created_at x; updated_at := updated_at x; updates := updates x; regions_down := regions_down x; regions_up :=
  regions_up x |}.
Definition set_check_count (v : Z) (x : t) : t := {|
  id := id x; target_id := target_id x; started_at := started_at x; ended_at := ended_at x;
  status := status x; duration_secs := duration_secs x; check_count := v; error_sample :=
  error_sample x; severity := severity x; counts_as_downtime := counts_as_downtime x;
  public_title := public_title x; public_description := public_description x; created_at :=
  created_at x; updated_at := updated_at x; updates := updates x; regions_down := regions_down x; regions_up :=
  regions_up x |}.
Definition set_error_sample (v : option string) (x : t) : t := {|
  id := id x; target_id := target_id x; started_at := started_at x; ended_at := ended_at x;
  status := status x; duration_secs := duration_secs x; check_count := check_count x;
  error_sample := v; severity := severity x; counts_as_downtime := counts_as_downtime x;
  public_title := public_title x; public_description := public_description x; created_at :=
  created_at x; updated_at := updated_at x; updates := updates x; regions_down := regions_down x; regions_up :=
  regions_up x |}.
End Incident.

Module OpsIncident.
Record t := {
  id : Uuid;
  target_id : option Uuid;
  title : option string;
  state : IncidentState.t;
  severity : IncidentSeverity.t;
  urgency : IncidentUrgency.t;
  origin : IncidentOrigin.t;
  visibility : IncidentVisibility.t;
  paging_enabled : bool;
  counts_as_downtime : bool;
  started_at : DateTime;
  ended_at : option DateTime;
  acknowledged_at : option DateTime;
  acknowledged_by : option UserId;
  assigned_to : option UserId;
  resolved_by : option UserId;
  escalation_policy_id : option Uuid;
  escalation_level : Z;
  escalation_round : Z;
  next_escalation_at : option DateTime;
  check_count : Z;
  error_sample : option string;
  regions_down : list string;
  regions_up : list string;
  created_at : DateTime;
  updated_at : DateTime;
}.
#[global] Instance eq_dec : EqDecision t.
Proof. solve_decision. Defined.

Definition set_state (v : IncidentState.t) (x : t) : t := {|
  id := id x; target_id := target_id x; title := title x; state := v; severity := severity x;
  urgency := urgency x; origin := origin x; visibility := visibility x; paging_enabled :=
  paging_enabled x; counts_as_downtime := counts_as_downtime x; started_at := started_at x;
  ended_at := ended_at x; acknowledged_at := acknowledged_at x; acknowledged_by :=
  acknowledged_by x; assigned_to := assigned_to x; resolved_by := resolved_by x;
  escalation_policy_id := escalation_policy_id x; escalation_level := escalation_level x;
  escalation_round := escalation_round x; next_escalation_at := next_escalation_at x;
  check_count := check_count x; error_sample := error_sample x; regions_down := regions_down
  x; regions_up := regions_up x; created_at := created_at x; updated_at := updated_at x |}.
Definition set_visibility (v : IncidentVisibility.t) (x : t) : t := {|
  id := id x; target_id := target_id x; title := title x; state := state x; severity :=
  severity x; urgency := urgency x; origin := origin x; visibility := v; paging_enabled :=
  paging_enabled x; counts_as_downtime := counts_as_downtime x; started_at := started_at x;
  ended_at := ended_at x; acknowledged_at := acknowledged_at x; acknowledged_by :=
  acknowledged_by x; assigned_to := assigned_to x; resolved_by := resolved_by x;
  escalation_policy_id := escalation_policy_id x; escalation_level := escalation_level x;
  escalation_round := escalation_round x; next_escalation_at := next_escalation_at x;
  check_count := check_count x; error_sample := error_sample x; regions_down := regions_down
  x; regions_up := regions_up x; created_at := created_at x; updated_at := updated_at x |}.
Definition set_ended_at (v : option DateTime) (x : t) : t := {|
  id := id x; target_id := target_id x; title := title x; state := state x; severity :=
  severity x; urgency := urgency x; origin := origin x; visibility := visibility x;
  paging_enabled := paging_enabled x; counts_as_downtime := counts_as_downtime x; started_at
  := started_at x; ended_at := v; acknowledged_at := acknowledged_at x; acknowledged_by :=
  acknowledged_by x; assigned_to := assigned_to x; resolved_by := resolved_by x;
  escalation_policy_id := escalation_policy_id x; escalation_level := escalation_level x;
  escalation_round := escalation_round x; next_escalation_at := next_escalation_at x;
  check_count := check_count x; error_sample := error_sample x; regions_down := regions_down
  x; regions_up := regions_up x; created_at := created_at x; updated_at := updated_at x |}.
Definition set_acknowledged_at (v : option DateTime) (x : t) : t := {|
  id := id x; target_id := target_id x; title := title x; state := state x; severity :=
  severity x; urgency := urgency x; origin := origin x; visibility := visibility x;
  paging_enabled := paging_enabled x; counts_as_downtime := counts_as_downtime x; started_at
  := started_at x; ended_at := ended_at x; acknowledged_at := v; acknowledged_by :=
  acknowledged_by x; assigned_to := assigned_to x; resolved_by := resolved_by x;
  escalation_policy_id := escalation_policy_id x; escalation_level := escalation_level x;
  escalation_round := escalation_round x; next_escalation_at := next_escalation_at x;
  check_count := check_count x; error_sample := error_sample x; regions_down := regions_down
  x; regions_up := regions_up x; created_at := created_at x; updated_at := updated_at x |}.
Definition set_acknowledged_by (v : option UserId) (x : t) : t := {|
  id := id x; target_id := target_id x; title := title x; state := state x; severity :=
  severity x; urgency := urgency x; origin := origin x; visibility := visibility x;
  paging_enabled := paging_enabled x; counts_as_downtime := counts_as_downtime x; started_at
  := started_at x; ended_at := ended_at x; acknowledged_at := acknowledged_at x;
  acknowledged_by := v; assigned_to := assigned_to x; resolved_by := resolved_by x;
  escalation_policy_id := escalation_policy_id x; escalation_level := escalation_level x;
  escalation_round := escalation_round x; next_escalation_at := next_escalation_at x;
  check_count := check_count x; error_sample := error_sample x; regions_down := regions_down
  x; regions_up := regions_up x; created_at := created_at x; updated_at := updated_at x |}.
Definition set_assigned_to (v : option UserId) (x : t) : t := {|
  id := id x; target_id := target_id x; title := title x; state := state x; severity :=
  severity x; urgency := urgency x; origin := origin x; visibility := visibility x;
  paging_enabled := paging_enabled x; counts_as_downtime := counts_as_downtime x; started_at
  := started_at x; ended_at := ended_at x; acknowledged_at := acknowledged_at x;
  acknowledged_by := acknowledged_by x; assigned_to := v; resolved_by := resolved_by x;
  escalation_policy_id := escalation_policy_id x; escalation_level := escalation_level x;
  escalation_round := escalation_round x; next_escalation_at := next_escalation_at x;
  check_count := check_count x; error_sample := error_sample x; regions_down := regions_down
  x; regions_up := regions_up x; created_at := created_at x; updated_at := updated_at x |}.
Definition set_resolved_by (v : option UserId) (x : t) : t := {|
  id := id x; target_id := target_id x; title := title x; state := state x; severity :=
  severity x; urgency := urgency x; origin := origin x; visibility := visibility x;
  paging_enabled := paging_enabled x; counts_as_downtime := counts_as_downtime x; started_at
  := started_at x; ended_at := ended_at x; acknowledged_at := acknowledged_at x;
  acknowledged_by := acknowledged_by x; assigned_to := assigned_to x; resolved_by := v;
  escalation_policy_id := escalation_policy_id x; escalation_level := escalation_level x;
  escalation_round := escalation_round x; next_escalation_at := next_escalation_at x;
  check_count := check_count x; error_sample := error_sample x; regions_down := regions_down
  x; regions_up := regions_up x; created_at := created_at x; updated_at := updated_at x |}.
Definition set_escalation_policy_id (v : option Uuid) (x : t) : t := {|
  id := id x; target_id := target_id x; title := title x; state := state x; severity :=
  severity x; urgency := urgency x; origin := origin x; visibility := visibility x;
  paging_enabled := paging_enabled x; counts_as_downtime := counts_as_downtime x; started_at
  := started_at x; ended_at := ended_at x; acknowledged_at := acknowledged_at x;
  acknowledged_by := acknowledged_by x; assigned_to := assigned_to x; resolved_by :=
  resolved_by x; escalation_policy_id := v; escalation_level := escalation_level x;
  escalation_round := escalation_round x; next_escalation_at := next_escalation_at x;
  check_count := check_count x; error_sample := error_sample x; regions_down := regions_down
  x; regions_up := regions_up x; created_at := created_at x; updated_at := updated_at x |}.
Definition set_escalation_level (v : Z) (x : t) : t := {|
  id := id x; target_id := target_id x; title := title x; state := state x; severity :=
  severity x; urgency := urgency x; origin := origin x; visibility := visibility x;
  paging_enabled := paging_enabled x; counts_as_downtime := counts_as_downtime x; started_at
  := started_at x; ended_at := ended_at x; acknowledged_at := acknowledged_at x;
  acknowledged_by := acknowledged_by x; assigned_to := assigned_to x; resolved_by :=
  resolved_by x; escalation_policy_id := escalation_policy_id x; escalation_level := v;
  escalation_round := escalation_round x; next_escalation_at := next_escalation_at x;
  check_count := check_count x; error_sample := error_sample x; regions_down := regions_down
  x; regions_up := regions_up x; created_at := created_at x; updated_at := updated_at x |}.
Definition set_escalation_round (v : Z) (x : t) : t := {|
  id := id x; target_id := target_id x; title := title x; state := state x; severity :=
  severity x; urgency := urgency x; origin := origin x; visibility := visibility x;
  paging_enabled := paging_enabled x; counts_as_downtime := counts_as_downtime x; started_at
  := started_at x; ended_at := ended_at x; acknowledged_at := acknowledged_at x;
  acknowledged_by := acknowledged_by x; assigned_to := assigned_to x; resolved_by :=
  resolved_by x; escalation_policy_id := escalation_policy_id x; escalation_level :=
  escalation_level x; escalation_round := v; next_escalation_at := next_escalation_at x;
  check_count := check_count x; error_sample := error_sample x; regions_down := regions_down
  x; regions_up := regions_up x; created_at := created_at x; updated_at := updated_at x |}.
Definition set_next_escalation_at (v : option DateTime) (x : t) : t := {|
  id := id x; target_id := target_id x; title := title x; state := state x; severity :=
  severity x; urgency := urgency x; origin := origin x; visibility := visibility x;
  paging_enabled := paging_enabled x; counts_as_downtime := counts_as_downtime x; started_at
  := started_at x; ended_at := ended_at x; acknowledged_at := acknowledged_at x;
  acknowledged_by := acknowledged_by x; assigned_to := assigned_to x; resolved_by :=
  resolved_by x; escalation_policy_id := escalation_policy_id x; escalation_level :=
  escalation_level x; escalation_round := escalation_round x; next_escalation_at := v;
  check_count := check_count x; error_sample := error_sample x; regions_down := regions_down
  x; regions_up := regions_up x; created_at := created_at x; updated_at := updated_at x |}.
Definition set_updated_at (v : DateTime) (x : t) : t := {|
  id := id x; target_id := target_id x; title := title x; state := state x; severity :=
  severity x; urgency := urgency x; origin := origin x; visibility := visibility x;
  paging_enabled := paging_enabled x; counts_as_downtime := counts_as_downtime x; started_at
  := started_at x; ended_at := ended_at x; acknowledged_at := acknowledged_at x;
  acknowledged_by := acknowledged_by x; assigned_to := assigned_to x; resolved_by :=
  resolved_by x; escalation_policy_id := escalation_policy_id x; escalation_level :=
  escalation_level x; escalation_round := escalation_round x; next_escalation_at :=
  next_escalation_at x; check_count := check_count x; error_sample := error_sample x;
  regions_down := regions_down x; regions_up := regions_up x; created_at := created_at x;
  updated_at := v |}.
End OpsIncident.

Module IncidentEvent.
Record t := {
  id : Uuid;
  incident_id : Uuid;
  occurred_at : DateTime;
  kind : IncidentEventKind.t;
  actor_type : ActorType.t;
  actor_id : option UserId;
  detail : string;
  message : option string;
}.
#[global] Instance eq_dec : EqDecision t.
Proof. solve_decision. Defined.

End IncidentEvent.

Module IncidentNotification.
Record t := {
  id : Uuid;
  incident_id : Uuid;
  escalation_level : option Z;
  target_user_id : option UserId;
  channel_id : option Uuid;
  transport : string;
  reason : NotificationReason.t;
  status : NotificationStatus.t;
  attempt : Z;
  error : option string;
  created_at : DateTime;
  sent_at : option DateTime;
  next_attempt_at : option DateTime;
  provider_receipt : option string;
  acked_at : option DateTime;
}.
#[global] Instance eq_dec : EqDecision t.
Proof. solve_decision. Defined.

Definition set_status (v : NotificationStatus.t) (x : t) : t := {|
  id := id x; incident_id := incident_id x; escalation_level := escalation_level x;
  target_user_id := target_user_id x; channel_id := channel_id x; transport := transport x;
  reason := reason x; status := v; attempt := attempt x; error := error x; created_at :=
  created_at x; sent_at := sent_at x; next_attempt_at := next_attempt_at x; provider_receipt
  := provider_receipt x; acked_at := acked_at x |}.
Definition set_attempt (v : Z) (x : t) : t := {|
  id := id x; incident_id := incident_id x; escalation_level := escalation_level x;
  target_user_id := target_user_id x; channel_id := channel_id x; transport := transport x;
  reason := reason x; status := status x; attempt := v; error := error x; created_at :=
  created_at x; sent_at := sent_at x; next_attempt_at := next_attempt_at x; provider_receipt
  := provider_receipt x; acked_at := acked_at x |}.
Definition set_error (v : option string) (x : t) : t := {|
  id := id x; incident_id := incident_id x; escalation_level := escalation_level x;
  target_user_id := target_user_id x; channel_id := channel_id x; transport := transport x;
  reason := reason x; status := status x; attempt := attempt x; error := v; created_at :=
  created_at x; sent_at := sent_at x; next_attempt_at := next_attempt_at x; provider_receipt
  := provider_receipt x; acked_at := acked_at x |}.
Definition set_sent_at (v : option DateTime) (x : t) : t := {|
  id := id x; incident_id := incident_id x; escalation_level := escalation_level x;
  target_user_id := target_user_id x; channel_id := channel_id x; transport := transport x;
  reason := reason x; status := status x; attempt := attempt x; error := error x; created_at
  := created_at x; sent_at := v; next_attempt_at := next_attempt_at x; provider_receipt :=
  provider_receipt x; acked_at := acked_at x |}.
Definition set_next_attempt_at (v : option DateTime) (x : t) : t := {|
  id := id x; incident_id := incident_id x; escalation_level := escalation_level x;
  target_user_id := target_user_id x; channel_id := channel_id x; transport := transport x;
  reason := reason x; status := status x; attempt := attempt x; error := error x; created_at
  := created_at x; sent_at := sent_at x; next_attempt_at := v; provider_receipt :=
  provider_receipt x; acked_at := acked_at x |}.
Definition set_provider_receipt (v : option string) (x : t) : t := {|
  id := id x; incident_id := incident_id x; escalation_level := escalation_level x;
  target_user_id := target_user_id x; channel_id := channel_id x; transport := transport x;
  reason := reason x; status := status x; attempt := attempt x; error := error x; created_at
  := created_at x; sent_at := sent_at x; next_attempt_at := next_attempt_at x;
  provider_receipt := v; acked_at := acked_at x |}.
Definition set_acked_at (v : option DateTime) (x : t) : t := {|
  id := id x; incident_id := incident_id x; escalation_level := escalation_level x;
  target_user_id := target_user_id x; channel_id := channel_id x; transport := transport x;
  reason := reason x; status := status x; attempt := attempt x; error := error x; created_at
  := created_at x; sent_at := sent_at x; next_attempt_at := next_attempt_at x;
  provider_receipt := provider_receipt x; acked_at := v |}.
End IncidentNotification.

Module NewIncidentNotification.
Record t := {
  org : OrgId;
  incident_id : Uuid;
  escalation_level : option Z;
  target_user_id : option UserId;
  channel_id : option Uuid;
  transport : string;
  reason : NotificationReason.t;
  status : NotificationStatus.t;
  attempt : Z;
  error : option string;
  sent_at : option DateTime;
}.
#[global] Instance eq_dec : EqDecision t.
Proof. solve_decision. Defined.

End NewIncidentNotification.

Module NotificationOutcome.
Record t := {
  status : NotificationStatus.t;
  attempt : Z;
  error : option string;
  sent_at : option DateTime;
  next_attempt_at : option DateTime;
  provider_receipt : option string;
}.
#[global] Instance eq_dec : EqDecision t.
Proof. solve_decision. Defined.

End NotificationOutcome.

Module NewManualIncident.
Record t := {
  title : option string;
  severity : IncidentSeverity.t;
  urgency : IncidentUrgency.t;
  target_id : option Uuid;
  visibility : IncidentVisibility.t;
  notify : bool;
  counts_as_downtime : bool;
}.
#[global] Instance eq_dec : EqDecision t.
Proof. solve_decision. Defined.

End NewManualIncident.

(** ** The lifecycle state machine *)
Inductive IncidentTransition := Acknowledge | Resolve | AutoResolve | Reopen.

#[global] Instance IncidentTransition_eq_dec : EqDecision IncidentTransition.
Proof. solve_decision. Defined.

Record TransitionError := {
  err_from : IncidentState.t;
  err_transition : IncidentTransition;
}.

Definition is_open (s : IncidentState.t) : bool :=
  match s with
  | IncidentState.Triggered | IncidentState.Acknowledged => true
  | IncidentState.Resolved => false
  end.

Definition next_state (current : IncidentState.t) (transition : IncidentTransition)
    : IncidentState.t + TransitionError :=
  let err := inr {| err_from := current; err_transition := transition |} in
  match current, transition with
  | (IncidentState.Triggered | IncidentState.Acknowledged), Acknowledge =>
      inl IncidentState.Acknowledged
  | IncidentState.Resolved, Acknowledge => err
  | _, (Resolve | AutoResolve) => inl IncidentState.Resolved
  | IncidentState.Resolved, Reopen => inl IncidentState.Triggered
  | (IncidentState.Triggered | IncidentState.Acknowledged), Reopen => err
  end.

(** ** Durations *)
Definition closed_duration (i : Incident.t) : option Duration :=
  (λ end_,
    match Incident.duration_secs i with
    | Some s => seconds (if s <=? I64_MAX then s else I64_MAX)
    | None => Z.max (end_ - Incident.started_at i) 0
    end) <$> Incident.ended_at i.

Definition elapsed_at (started_at : DateTime) (ended_at : option DateTime) (now : DateTime)
    : Duration :=
  let end_ := default now ended_at in
  Z.max (end_ - started_at) 0.

(** One incident's overlap with the window, in whole seconds. *)
Definition downtime_of (from to now : DateTime) (i : Incident.t) : Z :=
  let end_ := Z.min (default now (Incident.ended_at i)) to in
  let start := Z.max (Incident.started_at i) from in
  Z.max (num_seconds (end_ - start)) 0.

Definition confirmed_downtime_secs (incidents : list Incident.t) (from to now : DateTime) : Z :=
  sumZ (downtime_of from to now <$> List.filter Incident.counts_as_downtime incidents).

(** ** Coalescing a check stream into incidents *)

(** An observation: instant, status, error. *)
Definition Observation := (DateTime * CheckStatus.t * option string)%type.
Definition obs_at (o : Observation) : DateTime := o.1.1.
Definition obs_status (o : Observation) : CheckStatus.t := o.1.2.
Definition obs_error (o : Observation) : option string := o.2.

Definition hard_bad (s : CheckStatus.t) : bool :=
  match s with CheckStatus.Down | CheckStatus.Error => true | _ => false end.

Definition new_incident (id target : Uuid) (ts : DateTime) (status : CheckStatus.t)
    (error : option string) : Incident.t := {|
  Incident.id := id; Incident.target_id := Some target; Incident.started_at := ts;
  Incident.ended_at := None; Incident.status := status; Incident.duration_secs := None;
  Incident.check_count := 1; Incident.error_sample := error;
  Incident.severity := IncidentSeverity.Major; Incident.counts_as_downtime := true;
  Incident.public_title := None; Incident.public_description := None;
  Incident.created_at := None; Incident.updated_at := None; Incident.updates := [];
  Incident.regions_down := []; Incident.regions_up := [];
|}.

Definition extend_incident (inc : Incident.t) (ts : DateTime) (status : CheckStatus.t)
    (error : option string) : Incident.t :=
  let inc := Incident.set_check_count (Incident.check_count inc + 1) inc in
  let inc := match Incident.error_sample inc with
             | None => Incident.set_error_sample error inc
             | Some _ => inc
             end in
  let inc := Incident.set_ended_at (Some ts) inc in
  let inc := Incident.set_duration_secs
               (Some (Z.max (num_seconds (ts - Incident.started_at inc)) 0)) inc in
  Incident.set_status status inc.

Section Coalesce.
(** [ids n] is the [n]-th [Uuid::now_v7()] the run draws. *)
Context (ids : nat → Uuid) (target : Uuid).

(** Loop state: emitted incidents, the current run, ids drawn. *)
Record CoalesceState := {
  out : list Incident.t;
  current : option Incident.t;
  drawn : nat;
}.

Definition coalesce_step (st : CoalesceState) (o : Observation) : CoalesceState :=
  if hard_bad (obs_status o) then
    match current st with
    | Some inc =>
        {| out := out st;
           current := Some (extend_incident inc (obs_at o) (obs_status o) (obs_error o));
           drawn := drawn st |}
    | None =>
        {| out := out st;
           current := Some (new_incident (ids (drawn st)) target (obs_at o) (obs_status o)
                              (obs_error o));
           drawn := S (drawn st) |}
    end
  else
    match current st with
    | Some inc => {| out := out st ++ [inc]; current := None; drawn := drawn st |}
    | None => st
    end.

Definition coalesce_finish (st : CoalesceState) : list Incident.t :=
  match current st with
  | Some inc => out st ++ [Incident.set_duration_secs None (Incident.set_ended_at None inc)]
  | None => out st
  end.

Definition coalesce_incidents (observations : list Observation) : list Incident.t :=
  coalesce_finish
    (fold_left coalesce_step observations {| out := []; current := None; drawn := 0 |}).
End Coalesce.

(** ** Reference definition of the coalescer: the maximal bad runs *)
Fixpoint bad_runs (obs : list Observation) : list (list Observation) :=
  match obs with
  | [] => []
  | o :: rest =>
      if hard_bad (obs_status o) then
        match rest with
        | o' :: _ =>
            if hard_bad (obs_status o') then
              match bad_runs rest with
              | r :: rs => (o :: r) :: rs
              | [] => [[o]]
              end
            else [o] :: bad_runs rest
        | [] => [[o]]
        end
      else bad_runs rest
  end.

(** Whether the stream ends inside a bad run. *)
Definition ends_bad (obs : list Observation) : bool :=
  is_some_and (λ o, hard_bad (obs_status o)) (last obs).

(** The incident one run stands for, before the trailing run is reopened. *)
Definition run_incident (ids : nat → Uuid) (target : Uuid) (n : nat) (r : list Observation)
    : option Incident.t :=
  match r with
  | [] => None
  | o :: rest =>
      Some (fold_left (λ inc o', extend_incident inc (obs_at o') (obs_status o') (obs_error o'))
              rest (new_incident (ids n) target (obs_at o) (obs_status o) (obs_error o)))
  end.

(** ** Facts *)
Lemma next_state_open_close s t s' :
  next_state s t = inl s' →
  s' = match t with
       | Acknowledge => IncidentState.Acknowledged
       | Resolve | AutoResolve => IncidentState.Resolved
       | Reopen => IncidentState.Triggered
       end.
Proof. by destruct s, t; intros [= <-]. Qed.

Lemma bad_runs_cons_good o obs :
  hard_bad (obs_status o) = false → bad_runs (o :: obs) = bad_runs obs.
Proof. by simpl; intros ->. Qed.

Lemma bad_runs_head_bad o obs :
  hard_bad (obs_status o) = true → ∃ r rs, bad_runs (o :: obs) = (o :: r) :: rs.
Proof.
  revert o. induction obs as [|o' obs IH]; intros o Hb.
  - simpl. rewrite Hb. eauto.
  - destruct (hard_bad (obs_status o')) eqn:Hb'; cbn [bad_runs]; rewrite Hb, Hb'; [|eauto].
    destruct (IH o' Hb') as (r & rs & Hr). cbn [bad_runs] in Hr. rewrite Hb' in Hr.
    rewrite Hr. eauto.
Qed.

(** A bad observation extends the first run, or starts one. *)
Lemma bad_runs_cons_bad o o' obs :
  hard_bad (obs_status o) = true →
  bad_runs (o :: o' :: obs) =
    if hard_bad (obs_status o') then
      match bad_runs (o' :: obs) with r :: rs => (o :: r) :: rs | [] => [[o]] end
    else [o] :: bad_runs (o' :: obs).
Proof. intros Hb. cbn [bad_runs]. by rewrite Hb. Qed.

Lemma ends_bad_cons o obs : obs ≠ [] → ends_bad (o :: obs) = ends_bad obs.
Proof. unfold ends_bad. destruct obs as [|o' obs]; [done|]. by rewrite last_cons_cons. Qed.

Lemma bad_runs_snoc_good obs o :
  hard_bad (obs_status o) = false → bad_runs (obs ++ [o]) = bad_runs obs.
Proof.
  intros Hg. induction obs as [|o1 obs IH]; [simpl; by rewrite Hg|].
  destruct (hard_bad (obs_status o1)) eqn:Hb1.
  - destruct obs as [|o2 obs]; simpl app.
    + rewrite bad_runs_cons_bad, Hg by done. simpl. by rewrite Hg, Hb1.
    + simpl app in IH. rewrite !bad_runs_cons_bad by done. by rewrite IH.
  - simpl app. by rewrite !(bad_runs_cons_good o1), IH.
Qed.

Lemma bad_runs_snoc_start obs o :
  hard_bad (obs_status o) = true → ends_bad obs = false →
  bad_runs (obs ++ [o]) = bad_runs obs ++ [[o]].
Proof.
  intros Hb. induction obs as [|o1 obs IH]; intros He; [simpl; by rewrite Hb|].
  destruct obs as [|o2 obs].
  - unfold ends_bad in He. simpl in He. simpl. by rewrite He, Hb.
  - rewrite ends_bad_cons in He by done. specialize (IH He).
    rewrite <-!app_comm_cons in IH. rewrite <-!app_comm_cons.
    destruct (hard_bad (obs_status o1)) eqn:Hb1;
      [|by rewrite !(bad_runs_cons_good o1), IH].
    rewrite !bad_runs_cons_bad, IH by done.
    destruct (hard_bad (obs_status o2)) eqn:Hb2; [|done].
    by destruct (bad_runs_head_bad o2 obs Hb2) as (r & rs & ->).
Qed.

Lemma bad_runs_snoc_extend obs o :
  hard_bad (obs_status o) = true → ends_bad obs = true →
  ∃ rs r, bad_runs obs = rs ++ [r] ∧ r ≠ [] ∧ bad_runs (obs ++ [o]) = rs ++ [r ++ [o]].
Proof.
  intros Hb. induction obs as [|o1 obs IH]; intros He; [done|].
  destruct obs as [|o2 obs].
  - unfold ends_bad in He. simpl in He. exists [], [o1]. simpl. rewrite He, Hb. done.
  - rewrite ends_bad_cons in He by done.
    destruct (IH He) as (rs & r & Hr & Hne & Hr').
    rewrite <-!app_comm_cons in Hr'. rewrite <-!app_comm_cons.
    destruct (hard_bad (obs_status o1)) eqn:Hb1.
    + rewrite !bad_runs_cons_bad, Hr, Hr' by done.
      destruct (hard_bad (obs_status o2)) eqn:Hb2.
      * destruct rs as [|r0 rs]; simpl; [exists [], (o1 :: r)|exists ((o1 :: r0) :: rs), r]; done.
      * exists ([o1] :: rs), r. done.
    + rewrite !(bad_runs_cons_good o1) by done. eauto.
Qed.

Section CoalesceFacts.
Context (ids : nat → Uuid) (target : Uuid).

(** The runs of a stream, numbered from [n], as incidents. *)
Fixpoint run_incidents (n : nat) (rs : list (list Observation)) : list Incident.t :=
  match rs with
  | [] => []
  | r :: rs => option_list (run_incident ids target n r) ++ run_incidents (S n) rs
  end.

Lemma run_incidents_app n rs1 rs2 :
  run_incidents n (rs1 ++ rs2)
  = run_incidents n rs1 ++ run_incidents (n + length rs1) rs2.
Proof.
  revert n. induction rs1 as [|r rs1 IH]; intros n; simpl.
  - by rewrite Nat.add_0_r.
  - rewrite IH, <-app_assoc, Nat.add_succ_comm. done.
Qed.

Lemma run_incident_snoc n r o :
  r ≠ [] →
  run_incident ids target n (r ++ [o]) =
    (λ inc, extend_incident inc (obs_at o) (obs_status o) (obs_error o))
      <$> run_incident ids target n r.
Proof.
  destruct r as [|o1 r]; [done|]. intros _. simpl. by rewrite fold_left_app.
Qed.

Lemma run_incident_Some n r : r ≠ [] → ∃ inc, run_incident ids target n r = Some inc.
Proof. destruct r; [done|]. simpl. eauto. Qed.

(** The loop invariant: emitted plus current are the runs so far, a run is
    current exactly when the stream ends inside one, and one identifier was
    drawn per run. *)
Definition coalesce_inv (obs : list Observation) (st : CoalesceState) : Prop :=
  out st ++ option_list (current st) = run_incidents 0 (bad_runs obs) ∧
  is_some (current st) = ends_bad obs ∧
  drawn st = length (bad_runs obs).

Lemma coalesce_inv_fold obs :
  coalesce_inv obs
    (fold_left (coalesce_step ids target) obs {| out := []; current := None; drawn := 0 |}).
Proof.
  induction obs as [|o obs IH] using rev_ind; [by split_and!|].
  rewrite fold_left_app. simpl. set (st := fold_left _ obs _) in *.
  destruct IH as (Hout & Hcur & Hn). unfold coalesce_inv, coalesce_step.
  assert (ends_bad (obs ++ [o]) = hard_bad (obs_status o)) as ->
    by (unfold ends_bad; by rewrite last_snoc).
  destruct (hard_bad (obs_status o)) eqn:Hb; destruct (current st) as [inc|] eqn:Hc;
    simpl in *.
  - destruct (bad_runs_snoc_extend obs o Hb) as (rs & r & Hr & Hne & ->); [done|].
    destruct (run_incident_Some (length rs) r Hne) as [inc' Hinc'].
    rewrite Hr in Hout, Hn. rewrite run_incidents_app in Hout |- *. simpl in Hout |- *.
    rewrite run_incident_snoc, Hinc' by done. rewrite Hinc' in Hout. simpl in Hout |- *.
    apply app_inj_tail in Hout as [-> ->].
    split_and!; [done|done|]. rewrite Hn, !length_app. done.
  - rewrite bad_runs_snoc_start, run_incidents_app by done. simpl. rewrite Hn.
    rewrite app_nil_r in Hout. rewrite Hout, length_app. simpl.
    split_and!; [done|done|lia].
  - rewrite bad_runs_snoc_good by done. rewrite app_nil_r. done.
  - rewrite bad_runs_snoc_good, Hc by done. done.
Qed.

(** The result: every run but a trailing one as its fold left it, the
    trailing one marked ongoing. *)
Lemma coalesce_runs obs :
  coalesce_incidents ids target obs =
    if ends_bad obs then
      match last (run_incidents 0 (bad_runs obs)) with
      | Some inc =>
          removelast (run_incidents 0 (bad_runs obs))
          ++ [Incident.set_duration_secs None (Incident.set_ended_at None inc)]
      | None => []
      end
    else run_incidents 0 (bad_runs obs).
Proof.
  unfold coalesce_incidents, coalesce_finish.
  destruct (coalesce_inv_fold obs) as (Hout & Hcur & _).
  set (st := fold_left _ obs _) in *. rewrite <-Hcur, <-Hout.
  destruct (current st) as [inc|]; simpl; [|by rewrite app_nil_r].
  by rewrite last_snoc, removelast_last.
Qed.
End CoalesceFacts.

Section RunFacts.
Context (ids : nat → Uuid) (target : Uuid).

Lemma run_incident_fields n o r inc :
  run_incident ids target n (o :: r) = Some inc →
  Incident.id inc = ids n ∧
  Incident.started_at inc = obs_at o ∧
  Incident.check_count inc = Z.of_nat (length (o :: r)) ∧
  Some (Incident.status inc) = obs_status <$> last (o :: r) ∧
  Incident.ended_at inc = (if bool_decide (r = []) then None else obs_at <$> last (o :: r)).
Proof.
  revert inc. induction r as [|o' r IH] using rev_ind; intros inc.
  - intros [= <-]. done.
  - change (o :: r ++ [o']) with ((o :: r) ++ [o']).
    rewrite run_incident_snoc, last_snoc, length_app by done.
    destruct (run_incident_Some ids target n (o :: r)) as [inc' Hinc']; [done|].
    rewrite Hinc'. intros [= <-].
    destruct (IH _ Hinc') as (Hid & Hst & Hcount & _ & _).
    rewrite bool_decide_eq_false_2 by (by destruct r).
    unfold extend_incident. destruct (Incident.error_sample _); simpl in *;
      (split_and!; [done|done|lia|done|done]).
Qed.

Lemma run_incidents_lookup n rs i :
  Forall (λ r, r ≠ []) rs →
  run_incidents ids target n rs !! i = (rs !! i) ≫= run_incident ids target (n + i)
  ∧ length (run_incidents ids target n rs) = length rs.
Proof.
  intros Hne. revert n i. induction Hne as [|r rs Hr _ IH]; intros n i; [done|].
  cbn [run_incidents]. destruct (run_incident_Some ids target n r Hr) as [inc Hinc].
  rewrite Hinc. simpl. destruct i as [|i]; simpl.
  - rewrite Nat.add_0_r, Hinc. split; [done|]. by rewrite (proj2 (IH (S n) 0%nat)).
  - destruct (IH (S n) i) as [-> ->]. by rewrite Nat.add_succ_comm.
Qed.

Lemma bad_runs_nonempty obs : Forall (λ r, r ≠ []) (bad_runs obs).
Proof.
  induction obs as [|o obs IH]; [constructor|].
  destruct (hard_bad (obs_status o)) eqn:Hb; [|by rewrite bad_runs_cons_good].
  destruct obs as [|o' obs]; [simpl; rewrite Hb; by repeat constructor|].
  rewrite bad_runs_cons_bad by done. destruct (hard_bad (obs_status o')).
  - destruct (bad_runs (o' :: obs)) as [|r rs]; [by repeat constructor|].
    apply Forall_cons in IH as [_ ?]. by constructor.
  - by constructor.
Qed.

(** The runs are exactly the bad observations, in order. *)
Lemma bad_runs_concat obs :
  concat (bad_runs obs) = List.filter (λ o, hard_bad (obs_status o)) obs.
Proof.
  induction obs as [|o obs IH]; [done|].
  cbn [List.filter]. destruct (hard_bad (obs_status o)) eqn:Hb;
    [|by rewrite bad_runs_cons_good].
  destruct obs as [|o' obs]; [simpl; by rewrite Hb|].
  rewrite bad_runs_cons_bad by done. rewrite <-IH.
  destruct (hard_bad (obs_status o')) eqn:Hb'; [|done].
  by destruct (bad_runs_head_bad o' obs Hb') as (r & rs & ->).
Qed.

Lemma coalesce_lookup obs i r :
  bad_runs obs !! i = Some r →
  ∃ inc, run_incident ids target i r = Some inc ∧
    coalesce_incidents ids target obs !! i =
      Some (if ends_bad obs && bool_decide (S i = length (bad_runs obs))
            then Incident.set_duration_secs None (Incident.set_ended_at None inc) else inc).
Proof.
  intros Hr. pose proof (bad_runs_nonempty obs) as Hne.
  destruct (run_incident_Some ids target i r) as [inc Hinc].
  { rewrite Forall_forall in Hne. apply Hne. by apply list_elem_of_lookup_2 in Hr. }
  exists inc. split; [done|]. rewrite coalesce_runs.
  destruct (run_incidents_lookup 0 (bad_runs obs) i Hne) as [Hl Hlen].
  rewrite Hr in Hl. simpl in Hl. rewrite Hinc in Hl.
  destruct (ends_bad obs); simpl; [|done].
  set (l := run_incidents ids target 0 (bad_runs obs)) in *. rewrite <-Hlen.
  destruct l as [|x l' _] using rev_ind; [done|].
  rewrite last_snoc, removelast_last. rewrite length_app. simpl.
  apply lookup_app_Some in Hl as [Hl|[Hge Hl]].
  - rewrite lookup_app_l by (by apply lookup_lt_Some in Hl).
    apply lookup_lt_Some in Hl as Hlt.
    rewrite bool_decide_eq_false_2 by lia. done.
  - apply list_lookup_singleton_Some in Hl as [Hi ->].
    rewrite lookup_app_r, Hi by done. rewrite bool_decide_eq_true_2 by lia. done.
Qed.

Lemma coalesce_length obs :
  length (coalesce_incidents ids target obs) = length (bad_runs obs).
Proof.
  destruct (run_incidents_lookup 0 (bad_runs obs) 0 (bad_runs_nonempty obs)) as [_ Hlen].
  rewrite coalesce_runs, <-Hlen. destruct (ends_bad obs) eqn:He; [|done].
  destruct (run_incidents ids target 0 (bad_runs obs)) as [|x l _] using rev_ind; [done|].
  by rewrite last_snoc, removelast_last, !length_app.
Qed.
End RunFacts.

(** Coalescing a check stream yields exactly its maximal runs of
    down/error observations, one incident per run in order: the run's first
    instant, its length as the check count, its last status, one fresh
    identifier per run. An incident has an end only when its run is closed and
    has at least two observations: a closed run of a single observation is
    emitted without [ended_at], as if it were ongoing. *)
Theorem coalesce_incidents_runs ids target obs :
  concat (bad_runs obs) = List.filter (λ o, hard_bad (obs_status o)) obs ∧
  length (coalesce_incidents ids target obs) = length (bad_runs obs) ∧
  ∀ i r, bad_runs obs !! i = Some r →
    ∃ inc, coalesce_incidents ids target obs !! i = Some inc ∧
      Incident.id inc = ids i ∧
      Some (Incident.started_at inc) = obs_at <$> head r ∧
      Incident.check_count inc = Z.of_nat (length r) ∧
      Some (Incident.status inc) = obs_status <$> last r ∧
      Incident.ended_at inc =
        if (ends_bad obs && bool_decide (S i = length (bad_runs obs)))
           || bool_decide (length r = 1%nat)
        then None else obs_at <$> last r.
Proof.
  split_and!; [apply bad_runs_concat | apply coalesce_length|]. intros i r Hr.
  destruct (coalesce_lookup ids target obs i r Hr) as (inc & Hinc & Hl).
  eexists. split; [exact Hl|]. destruct r as [|o r]; [done|].
  destruct (run_incident_fields ids target i o r inc Hinc) as (Hid & Hst & Hc & Hs & He).
  assert (bool_decide (length (o :: r) = 1%nat) = bool_decide (r = [])) as ->.
  { apply bool_decide_ext. destruct r; simpl; naive_solver lia. }
  destruct (ends_bad obs && _); simpl; rewrite ?Hst; split_and!; done.
Qed.

(** The single-observation outage of the theorem, on a concrete stream. *)
Example coalesce_single_observation :
  Incident.ended_at <$>
    coalesce_incidents N.of_nat 7%N
      [(0, CheckStatus.Down, Some "refused"); (60, CheckStatus.Up, None);
       (120, CheckStatus.Down, None); (180, CheckStatus.Error, None); (240, CheckStatus.Up, None)]
  = [None; Some 180].
Proof. vm_compute. reflexivity. Qed.

Lemma coalesce_incidents_runs_witness :
  bad_runs [(0, CheckStatus.Down, Some "refused"); (60, CheckStatus.Up, None)]
    !! 0%nat = Some [(0, CheckStatus.Down, Some "refused")] ∧
  ∃ inc, coalesce_incidents N.of_nat 7%N
    [(0, CheckStatus.Down, Some "refused"); (60, CheckStatus.Up, None)] !! 0%nat = Some inc ∧
    Incident.ended_at inc = None.
Proof.
  split; [reflexivity|].
  destruct (proj2 (proj2 (coalesce_incidents_runs N.of_nat 7%N
    [(0, CheckStatus.Down, Some "refused"); (60, CheckStatus.Up, None)])) 0%nat
    [(0, CheckStatus.Down, Some "refused")] eq_refl)
    as (inc & Hinc & _ & _ & _ & _ & Hend).
  exists inc. split; [exact Hinc | exact Hend].
Defined.

(** ** Downtime *)
Lemma num_seconds_bounds d : 0 ≤ d → 0 ≤ num_seconds d ∧ num_seconds d * NANOS ≤ d.
Proof.
  intros Hd. unfold num_seconds, NANOS. rewrite Z.quot_div_nonneg by lia.
  pose proof (Z.div_mod d 1000000000). pose proof (Z.mod_pos_bound d 1000000000). lia.
Qed.

Lemma num_seconds_neg d : d ≤ 0 → num_seconds d ≤ 0.
Proof.
  intros Hd. unfold num_seconds, NANOS.
  pose proof (Z.quot_opp_l d 1000000000 ltac:(lia)).
  pose proof (Z.quot_pos (- d) 1000000000). lia.
Qed.

(** Incidents of one monitor, oldest first, none overlapping the next. *)
Fixpoint disjoint_from (now : DateTime) (floor : DateTime) (l : list Incident.t) : Prop :=
  match l with
  | [] => True
  | i :: l =>
      floor ≤ Incident.started_at i ∧
      Incident.started_at i ≤ default now (Incident.ended_at i) ∧
      disjoint_from now (default now (Incident.ended_at i)) l
  end.

Lemma downtime_of_bounds from to now i :
  0 ≤ downtime_of from to now i ∧
  downtime_of from to now i * NANOS
    ≤ Z.max 0 (Z.min (default now (Incident.ended_at i)) to
               - Z.max (Incident.started_at i) from).
Proof.
  unfold downtime_of. set (d := _ - _). split; [lia|].
  destruct (Z.le_ge_cases 0 d) as [Hd|Hd].
  - pose proof (num_seconds_bounds d Hd). rewrite Z.max_l by lia. lia.
  - pose proof (num_seconds_neg d Hd). rewrite Z.max_r by lia. lia.
Qed.

Lemma disjoint_downtime from to now l floor :
  disjoint_from now floor l →
  sumZ (downtime_of from to now <$> List.filter Incident.counts_as_downtime l) * NANOS
    ≤ Z.max 0 (to - Z.max floor from).
Proof.
  revert floor. induction l as [|i l IH]; intros floor; [simpl; lia|].
  intros (Hfloor & Hle & Hrest). specialize (IH _ Hrest). cbn [List.filter].
  pose proof (downtime_of_bounds from to now i).
  destruct (Incident.counts_as_downtime i); csimpl; lia.
Qed.

(** Confirmed downtime is never negative; it is the sum over the incidents
    that count, so excluding one removes exactly its overlap; and when the
    incidents do not overlap one another it never exceeds the window. *)
Theorem confirmed_downtime_bounds (incidents : list Incident.t) from to now :
  0 ≤ confirmed_downtime_secs incidents from to now ∧
  (∀ i l1 l2, incidents = l1 ++ i :: l2 →
     confirmed_downtime_secs incidents from to now =
       confirmed_downtime_secs (l1 ++ l2) from to now
       + (if Incident.counts_as_downtime i then downtime_of from to now i else 0)) ∧
  (∀ floor, disjoint_from now floor incidents → from ≤ to →
     confirmed_downtime_secs incidents from to now * NANOS ≤ to - from).
Proof.
  unfold confirmed_downtime_secs. split_and!.
  - apply sumZ_nonneg. apply Forall_fmap, Forall_forall. intros i _.
    apply downtime_of_bounds.
  - intros i l1 l2 ->. rewrite !lfilter_app, !fmap_app, !sumZ_app. cbn [List.filter].
    destruct (Incident.counts_as_downtime i); csimpl; lia.
  - intros floor Hd Hw. pose proof (disjoint_downtime from to now incidents floor Hd). lia.
Qed.

Lemma confirmed_downtime_bounds_witness :
  let mk s e := Incident.set_ended_at e (new_incident 1%N 2%N s CheckStatus.Down None) in
  let incs := [mk (seconds 900) (Some (seconds 1100)); mk (seconds 1800) None] in
  confirmed_downtime_secs incs (seconds 1000) (seconds 2000) (seconds 2000) = 300 ∧
  300 * NANOS ≤ seconds 2000 - seconds 1000.
Proof.
  split; [reflexivity|].
  apply (proj2 (proj2 (confirmed_downtime_bounds
    [Incident.set_ended_at (Some (seconds 1100))
       (new_incident 1%N 2%N (seconds 900) CheckStatus.Down None);
     Incident.set_ended_at None (new_incident 1%N 2%N (seconds 1800) CheckStatus.Down None)]
    (seconds 1000) (seconds 2000) (seconds 2000))) 0).
  - vm_compute. repeat split; discriminate.
  - vm_compute. discriminate.
Defined.
