(* ===== verification/Target.v ===== *)
(** * Targets: the monitored things and their region policy

    src/domain/target.rs and src/domain/alert.rs: the [Target] row, how many
    regions must agree before a monitor alerts ([required]) and how the latest
    per-region statuses fold into one ([fold_regions]). The check itself is a
    parameter of a target: nothing in the incident pipeline looks inside it. *)

From S2P Require Import Prelude Domain.

(** ** src/domain/target.rs: [RegionIncidentPolicy] *)
Module RegionIncidentPolicy.
Inductive t := Any | Majority | All | Count (c : Z).
#[global] Instance eq_dec : EqDecision t.
Proof. solve_decision. Defined.

Definition required (p : t) (region_count : Z) : Z :=
  let n := match p with
           | Any => 1
           | Majority => region_count / 2 + 1
           | All => region_count
           | Count c => c
           end in
  clamp 1 (Z.max region_count 1) n.

(** Accumulator of the loop: regions reported, bad ones, worst bad status. *)
Record Fold := { reported : Z; bad : Z; worst : CheckStatus.t }.

Definition fold_step (acc : Fold) (s : CheckStatus.t) : Fold :=
  if CheckStatus.is_bad s then
    {| reported := reported acc + 1;
       bad := bad acc + 1;
       worst := if CheckStatus.severity_rank (worst acc) <? CheckStatus.severity_rank s
                then s else worst acc |}
  else
    {| reported := reported acc + 1; bad := bad acc; worst := worst acc |}.

Definition fold_regions (p : t) (latest_per_region : list CheckStatus.t)
    : option CheckStatus.t :=
  let acc := fold_left fold_step latest_per_region
               {| reported := 0; bad := 0; worst := CheckStatus.Up |} in
  if reported acc =? 0 then None
  else if bad acc =? 0 then Some CheckStatus.Up
  else if bad acc <? required p (reported acc) then Some CheckStatus.Degraded
  else Some (worst acc).
End RegionIncidentPolicy.

(** ** src/domain/alert.rs *)
Record AlertBinding := { binding_channel_id : Uuid }.
#[global] Instance AlertBinding_eq_dec : EqDecision AlertBinding.
Proof. solve_decision. Defined.

(** [TargetAlerts] is transparent: the list itself. *)
Definition TargetAlerts := list AlertBinding.

(** ** src/domain/target.rs: [Target]

    [interval] is in nanoseconds; the check specification is kept abstract. *)
Module Target.
Record t := {
  id : Uuid;
  name : string;
  interval : Duration;
  enabled : bool;
  tags : list string;
  alerts : list AlertBinding;
  alert_confirmations : Z;
  notify_recovery : bool;
  renotify_interval_secs : Z;
  region_policy : RegionIncidentPolicy.t;
  group_name : option string;
  owner_user_id : option Uuid;
  created_at : DateTime;
  updated_at : DateTime;
  plan_hold_at : option DateTime;
}.
#[global] Instance eq_dec : EqDecision t.
Proof. solve_decision. Defined.

End Target.

(** ** Facts *)
Module RegionPolicyFacts.
Import RegionIncidentPolicy.

Lemma required_range p n : 1 ≤ required p n ≤ Z.max n 1.
Proof. unfold required, clamp. destruct p; lia. Qed.

Lemma required_Majority n : 0 ≤ n → n < 2 * required Majority n.
Proof. intros Hn. unfold required, clamp.
  pose proof (Z.div_mod n 2 ltac:(lia)). pose proof (Z.mod_pos_bound n 2 ltac:(lia)). lia. Qed.

Lemma fold_step_one acc s :
  let acc' := fold_step acc s in
  reported acc' = reported acc + 1 ∧
  bad acc' = bad acc + (if CheckStatus.is_bad s then 1 else 0) ∧
  CheckStatus.severity_rank (worst acc) ≤ CheckStatus.severity_rank (worst acc') ∧
  (worst acc' = worst acc ∨ (worst acc' = s ∧ CheckStatus.is_bad s = true)) ∧
  (CheckStatus.is_bad s = true →
     CheckStatus.severity_rank s ≤ CheckStatus.severity_rank (worst acc')).
Proof.
  unfold fold_step. destruct (CheckStatus.is_bad s); simpl;
    [destruct (_ <? _) eqn:Hlt; bool_cases|]; split_and!; try done; try lia; eauto.
Qed.

(** What the loop computes. *)
Lemma fold_step_spec l acc :
  let acc' := fold_left fold_step l acc in
  reported acc' = reported acc + Z.of_nat (length l) ∧
  bad acc' = bad acc + count CheckStatus.is_bad l ∧
  CheckStatus.severity_rank (worst acc) ≤ CheckStatus.severity_rank (worst acc') ∧
  (worst acc' = worst acc ∨ (worst acc' ∈ l ∧ CheckStatus.is_bad (worst acc') = true)) ∧
  (∀ s, s ∈ l → CheckStatus.is_bad s = true →
     CheckStatus.severity_rank s ≤ CheckStatus.severity_rank (worst acc')).
Proof.
  revert acc. induction l as [|s l IH]; intros acc; cbn [fold_left].
  - unfold count. simpl. split_and!; [lia|lia|lia|by left|].
    intros s Hs. by apply not_elem_of_nil in Hs.
  - destruct (fold_step_one acc s) as (Hr1 & Hb1 & Hw1 & Hin1 & Hs1).
    destruct (IH (fold_step acc s)) as (Hr & Hb & Hw & Hin & Hall).
    set (acc1 := fold_step acc s) in *. set (acc' := fold_left fold_step l acc1) in *.
    assert (count CheckStatus.is_bad (s :: l)
            = (if CheckStatus.is_bad s then 1 else 0) + count CheckStatus.is_bad l) as ->.
    { unfold count. cbn [List.filter]. destruct (CheckStatus.is_bad s); simpl; lia. }
    cbn [length]. split_and!; [lia|lia|lia| |].
    + destruct Hin as [Hin|[Hin ?]]; [|right; split; [by right|done]].
      destruct Hin1 as [Hin1|[Hin1 ?]]; rewrite Hin, Hin1; [by left|].
      right. split; [by left|done].
    + intros s' [->|Hs']%elem_of_cons Hbad; [specialize (Hs1 Hbad); lia|auto].
Qed.

Lemma count_pos_bad l :
  0 < count CheckStatus.is_bad l → ∃ s, s ∈ l ∧ CheckStatus.is_bad s = true.
Proof.
  unfold count. destruct (List.filter _ l) as [|s l'] eqn:Hf; simpl; [lia|].
  intros _. exists s. apply elem_of_lfilter. rewrite Hf. set_solver.
Qed.
End RegionPolicyFacts.

Import RegionPolicyFacts.

(** With [n] regions in play the quorum of every policy lies in
    [1..max n 1], so it can always be reached; a majority is more than half;
    and folding the latest statuses says nothing for no region, [Up] when no
    region is bad, [Degraded] below the quorum, and otherwise a reported bad
    status that no bad status outranks. *)
Theorem region_policy_quorum (p : RegionIncidentPolicy.t) (l : list CheckStatus.t) :
  let n := Z.of_nat (length l) in
  let b := count CheckStatus.is_bad l in
  let q := RegionIncidentPolicy.required p n in
  1 ≤ q ≤ Z.max n 1 ∧
  n < 2 * RegionIncidentPolicy.required RegionIncidentPolicy.Majority n ∧
  match RegionIncidentPolicy.fold_regions p l with
  | None => l = []
  | Some s =>
      l ≠ [] ∧
      (b = 0 → s = CheckStatus.Up) ∧
      (0 < b < q → s = CheckStatus.Degraded) ∧
      (0 < b → q ≤ b →
         s ∈ l ∧ CheckStatus.is_bad s = true ∧
         ∀ s', s' ∈ l → CheckStatus.is_bad s' = true →
           CheckStatus.severity_rank s' ≤ CheckStatus.severity_rank s)
  end.
Proof.
  cbv zeta. split_and!; [apply required_range.. | apply required_Majority; lia|].
  unfold RegionIncidentPolicy.fold_regions.
  destruct (fold_step_spec l {| RegionIncidentPolicy.reported := 0;
    RegionIncidentPolicy.bad := 0; RegionIncidentPolicy.worst := CheckStatus.Up |})
    as (Hr & Hb & _ & Hin & Hall).
  set (acc := fold_left _ l _) in *. simpl in Hr, Hb, Hin. rewrite !Z.add_0_l in Hr, Hb.
  rewrite Hr, Hb. destruct (Z.of_nat (length l) =? 0) eqn:Hn; bool_cases.
  { apply nil_length_inv. lia. }
  assert (l ≠ []) as Hne by (intros ->; simpl in Hn; lia).
  destruct (count _ l =? 0) eqn:Hb0; bool_cases; [split_and!; try done; lia|].
  destruct (_ <? _) eqn:Hq; bool_cases; split_and!; try done; try lia.
  intros Hpos _. destruct Hin as [Hup|[Hin Hbad]]; [|done].
  destruct (count_pos_bad l Hpos) as (s & Hs & Hsb). specialize (Hall s Hs Hsb).
  rewrite Hup in Hall. by destruct s.
Qed.
