(* ===== verification/CheckSpec.v ===== *)
(** * Check specifications

    src/domain/check.rs: what a monitor runs, one constructor per kind, with the
    intervals each kind allows and the host it concerns. The [url] and [psl]
    crates are parameters: a URL is an abstract type with the readings the code
    takes of it, and the public-suffix list a partial function. A [Duration] is
    in nanoseconds; the serde helpers and the schema annotations are left out. *)

From Stdlib Require Import Ascii.
From S2P Require Import Prelude Text Domain Target.

(** ** The url and psl crates *)
Class UrlLibrary := {
  Url : Type;
  Url_eq_dec : EqDecision Url;
  url_parse : string → option Url;
  url_as_str : Url → string;
  host_str : Url → option string;
  port_or_known_default : Url → option Z;
}.
#[global] Existing Instance Url_eq_dec.

Class PublicSuffixes := { domain_str : string → option string }.

(** src/security/mod.rs: [unbracket]. *)
Definition unbracket (host : string) : string :=
  default host (strip_prefix "[" host ≫= strip_suffix "]"%char).

(** chrono's [Duration::MAX] ([i64::MAX] milliseconds), and the conversion from
    a [std::time::Duration]. *)
Definition CHRONO_MAX : Duration := 9223372036854775807 * 1000000.
Definition to_chrono (d : Duration) : Duration := Z.min d CHRONO_MAX.

(** ** Kinds *)
Module HttpMethod.
Inductive t := Get | Head | Post | Put | Patch | Delete | Options.
#[global] Instance eq_dec : EqDecision t.
Proof. solve_decision. Defined.
End HttpMethod.

Module ExpectedStatus.
Inductive t := Exact (code : Z) | Range (min max : Z) | OneOf (codes : list Z).
#[global] Instance eq_dec : EqDecision t.
Proof. solve_decision. Defined.
End ExpectedStatus.

Module DnsRecordType.
Inductive t := A | Aaaa | Cname | Mx | Ns | Txt | Soa | Ptr | Caa | Srv.
#[global] Instance eq_dec : EqDecision t.
Proof. solve_decision. Defined.

Definition as_str (r : t) : string :=
  match r with
  | A => "A" | Aaaa => "AAAA" | Cname => "CNAME" | Mx => "MX" | Ns => "NS"
  | Txt => "TXT" | Soa => "SOA" | Ptr => "PTR" | Caa => "CAA" | Srv => "SRV"
  end.
End DnsRecordType.

Module TcpCheck.
Record t := { host : string; port : Z; timeout : Duration }.
#[global] Instance eq_dec : EqDecision t.
Proof. solve_decision. Defined.
End TcpCheck.

Module PingCheck.
Record t := { host : string; timeout : Duration }.
#[global] Instance eq_dec : EqDecision t.
Proof. solve_decision. Defined.
End PingCheck.

Module HeartbeatCheck.
Record t := { period : Duration; grace : Duration; max_runtime : option Duration }.
#[global] Instance eq_dec : EqDecision t.
Proof. solve_decision. Defined.

(** When the next ping is due, and when the monitor goes down without one. *)
Definition window (c : t) (anchor : DateTime) : DateTime * DateTime :=
  let due := anchor + to_chrono (period c) in
  (due, due + to_chrono (grace c)).
End HeartbeatCheck.

Module TlsCertCheck.
Record t := {
  host : string;
  port : Z;
  server_name : option string;
  warn_days : Z;
  critical_days : Z;
  timeout : Duration;
}.
#[global] Instance eq_dec : EqDecision t.
Proof. solve_decision. Defined.
End TlsCertCheck.

Module DnsCheck.
Record t := {
  domain : string;
  record_type : DnsRecordType.t;
  resolver : option string;
  expected_contains : option string;
  timeout : Duration;
}.
#[global] Instance eq_dec : EqDecision t.
Proof. solve_decision. Defined.
End DnsCheck.

(** The registrable domain of a name. *)
Definition normalize_domain (domain : string) : string :=
  to_ascii_lowercase (trim_end_matches "."%char (str_trim domain)).
Definition resolve_registrable `{PublicSuffixes} (normalized : string) : string :=
  default normalized (domain_str normalized).
Definition registered_domain `{PublicSuffixes} (domain : string) : string :=
  resolve_registrable (normalize_domain domain).
Definition reduced_domain_hint `{PublicSuffixes} (domain : string) : option string :=
  let normalized := normalize_domain domain in
  let registered := resolve_registrable normalized in
  if String.eqb registered normalized then None else Some registered.

Module DomainExpiryCheck.
Record t := { domain : string; warn_days : Z; critical_days : Z; timeout : Duration }.
#[global] Instance eq_dec : EqDecision t.
Proof. solve_decision. Defined.

Definition reduced_domain_hint `{PublicSuffixes} (c : t) : option string :=
  CheckSpec.reduced_domain_hint (domain c).
End DomainExpiryCheck.

Module HttpCheck.
Section HttpCheck.
Context `{UrlLibrary}.
Record t := {
  url : Url;
  method : HttpMethod.t;
  timeout : Duration;
  follow_redirects : bool;
  max_redirects : Z;
  expected_status : ExpectedStatus.t;
  expected_body_contains : option string;
  headers : gmap string string;
  body : option string;
  verify_tls : bool;
  basic_auth : option (string * string);
  bearer_token : option string;
}.
#[global] Instance eq_dec : EqDecision t.
Proof. solve_decision. Defined.
End HttpCheck.
Definition MAX_REDIRECTS : Z := 10.
End HttpCheck.

Module FlowStep.
Section FlowStep.
Context `{UrlLibrary}.
Inductive t :=
| Goto (url : Url)
| Click (selector : string)
| Fill (selector value : string)
| WaitFor (selector : string)
| AssertText (selector : option string) (text : string)
| AssertUrl (text : string).
#[global] Instance eq_dec : EqDecision t.
Proof. solve_decision. Defined.
End FlowStep.
End FlowStep.

Module FlowCheck.
Section FlowCheck.
Context `{UrlLibrary}.
Record t := {
  start_url : Url;
  steps : list FlowStep.t;
  timeout : Duration;
  step_timeout : Duration;
  verify_tls : bool;
}.
#[global] Instance eq_dec : EqDecision t.
Proof. solve_decision. Defined.
End FlowCheck.
Definition MAX_STEPS : Z := 30.

(** [plan_max] is an [i32]. *)
Definition allowed_steps (plan_max : Z) : Z := Z.min (Z.max plan_max 1) MAX_STEPS.
End FlowCheck.

Module CheckSpec.
Section CheckSpec.
Context `{UrlLibrary}.
Inductive t :=
| Http (c : HttpCheck.t)
| Tcp (c : TcpCheck.t)
| Ping (c : PingCheck.t)
| Heartbeat (c : HeartbeatCheck.t)
| TlsCert (c : TlsCertCheck.t)
| DomainExpiry (c : DomainExpiryCheck.t)
| Dns (c : DnsCheck.t)
| Flow (c : FlowCheck.t).
#[global] Instance eq_dec : EqDecision t.
Proof. solve_decision. Defined.

Definition kind (s : t) : string :=
  match s with
  | Http _ => "http"
  | Tcp _ => "tcp"
  | Ping _ => "ping"
  | Heartbeat _ => "heartbeat"
  | Dns _ => "dns"
  | TlsCert _ => "tls_cert"
  | DomainExpiry _ => "domain_expiry"
  | Flow _ => "flow"
  end.

Definition is_passive (s : t) : bool := match s with Heartbeat _ => true | _ => false end.
Definition as_heartbeat (s : t) : option HeartbeatCheck.t :=
  match s with Heartbeat h => Some h | _ => None end.

Definition primary_host (s : t) : option string :=
  match s with
  | Http h => unbracket <$> host_str (HttpCheck.url h)
  | Tcp t => Some (unbracket (TcpCheck.host t))
  | Ping p => Some (unbracket (PingCheck.host p))
  | TlsCert c => Some (unbracket (TlsCertCheck.host c))
  | DomainExpiry d => Some (DomainExpiryCheck.domain d)
  | Dns d => Some (DnsCheck.domain d)
  | Flow f => unbracket <$> host_str (FlowCheck.start_url f)
  | Heartbeat _ => None
  end.
End CheckSpec.

Definition ALL_KINDS : list string :=
  ["http"; "tcp"; "ping"; "heartbeat"; "dns"; "tls_cert"; "domain_expiry"; "flow"].
End CheckSpec.

(** ** Intervals *)
Definition min_interval_secs_for_kind (kind : string) : Z :=
  if String.eqb kind "domain_expiry" then 43200
  else if String.eqb kind "tls_cert" then 3600
  else if String.eqb kind "flow" then 300
  else if String.eqb kind "heartbeat" then 60
  else 10.

Module IntervalHints.
Record t := { min : Z; default : Z }.
End IntervalHints.

Definition interval_hints_for_kind (kind : string) : IntervalHints.t :=
  if String.eqb kind "domain_expiry" then
    {| IntervalHints.min := 43200; IntervalHints.default := 86400 |}
  else if String.eqb kind "tls_cert" then
    {| IntervalHints.min := 21600; IntervalHints.default := 43200 |}
  else if String.eqb kind "dns" then
    {| IntervalHints.min := 60; IntervalHints.default := 300 |}
  else if String.eqb kind "flow" then
    {| IntervalHints.min := 300; IntervalHints.default := 900 |}
  else if String.eqb kind "heartbeat" then
    {| IntervalHints.min := 60; IntervalHints.default := 300 |}
  else {| IntervalHints.min := min_interval_secs_for_kind kind; IntervalHints.default := 60 |}.

(** ** A target with its check *)
Module CheckedTarget.
Section CheckedTarget.
Context `{UrlLibrary}.
Record t := { row : Target.t; check : CheckSpec.t }.
#[global] Instance eq_dec : EqDecision t.
Proof. solve_decision. Defined.
End CheckedTarget.
End CheckedTarget.

(** ** Facts *)
Section CheckFacts.
Context `{UrlLibrary}.

(** Every kind is in the list, and suggests a cadence it would accept. *)
Lemma kind_in_ALL_KINDS (s : CheckSpec.t) : CheckSpec.kind s ∈ CheckSpec.ALL_KINDS.
Proof. destruct s; cbn; set_solver. Qed.

Lemma hints_above_floor kind :
  min_interval_secs_for_kind kind ≤ IntervalHints.min (interval_hints_for_kind kind)
  ≤ IntervalHints.default (interval_hints_for_kind kind).
Proof.
  unfold interval_hints_for_kind, min_interval_secs_for_kind.
  repeat (match goal with
          | |- context [String.eqb kind ?b] => destruct (String.eqb_spec kind b); subst; simpl
          end); lia.
Qed.
End CheckFacts.

(** A URL that is its own text on port 443, for evaluating the models. *)
Definition plain_urls : UrlLibrary := {|
  Url := string; Url_eq_dec := String.string_dec; url_parse := Some; url_as_str s := s;
  host_str := Some; port_or_known_default _ := Some 443 |}.
