(* ===== verification/Heartbeat.v ===== *)
(** * Heartbeat monitors

    src/domain/heartbeat.rs and src/worker/heartbeat.rs: what a job's pings say
    ([Ping]), the state kept for a monitor ([PingState]) and how two views of it
    merge, the cache the executor reads ([HeartbeatRuntime]), the verdict, and
    the advice drawn from the observed cadence. The rate limiter of accepted
    pings is a library's and is left out. *)

From Stdlib Require Import Ascii.
From S2P Require Import Prelude Text Domain Target CheckSpec.

(** ** src/domain/heartbeat.rs *)
Module PingSignal.
Inductive t := Start | Success | Fail.
#[global] Instance eq_dec : EqDecision t.
Proof. solve_decision. Defined.

Definition as_str (s : t) : string :=
  match s with Start => "start" | Success => "success" | Fail => "fail" end.
Definition as_enum8 (s : t) : Z := match s with Start => 1 | Success => 2 | Fail => 3 end.
Definition is_finish (s : t) : bool := match s with Success | Fail => true | Start => false end.
End PingSignal.

(** [str::parse::<u8>]: an optional plus sign, then decimal digits, up to 255. *)
Definition all_digits (s : string) : option (list Z) :=
  if non_empty s && all_chars is_ascii_digit s then Some (take_digits s) else None.
Definition parse_u8 (s : string) : option Z :=
  ds ← all_digits (stripped "+" s);
  if decimal ds <=? 255 then Some (decimal ds) else None.

Module Ping.
Record t := { signal : PingSignal.t; exit_code : option Z }.
#[global] Instance eq_dec : EqDecision t.
Proof. solve_decision. Defined.

Definition SUCCESS : t := {| signal := PingSignal.Success; exit_code := None |}.

Definition parse (segment : string) : option t :=
  if String.eqb segment "start" then Some {| signal := PingSignal.Start; exit_code := None |}
  else if String.eqb segment "fail" then Some {| signal := PingSignal.Fail; exit_code := None |}
  else if String.eqb segment "success" then Some SUCCESS
  else (λ code, {| signal := if code =? 0 then PingSignal.Success else PingSignal.Fail;
                   exit_code := Some code |}) <$> parse_u8 segment.
End Ping.

(** The cadence a job actually keeps, and what to say about the declared one. *)
Definition MIN_CADENCE_SAMPLES : Z := 5.
Definition TOO_LOOSE_FACTOR : Z := 4.

Module CadenceAdvice.
Inductive t := TooTight (suggested_period : Duration) | TooLoose (suggested_period : Duration).
#[global] Instance eq_dec : EqDecision t.
Proof. solve_decision. Defined.
End CadenceAdvice.

(** [Duration::as_secs]. *)
Definition as_secs (d : Duration) : Z := d / NANOS.

Definition STEPS : list (Z * Z) := [(600, 60); (3600, 300); (21600, 900); (U64_MAX, 3600)].

Definition round_up (d : Duration) : Duration :=
  let secs := as_secs d in
  let step := match List.find (λ x, secs <? x.1) STEPS with Some x => x.2 | None => 3600 end in
  seconds ((secs + (step - 1)) / step * step).

Module ObservedCadence.
Record t := { samples : Z; median_gap : Duration }.

Definition advice (o : t) (down_after : Duration) : option CadenceAdvice.t :=
  if (samples o <? MIN_CADENCE_SAMPLES) || (median_gap o =? 0) then None
  else if down_after <? median_gap o then
    Some (CadenceAdvice.TooTight (round_up (median_gap o)))
  else if median_gap o * TOO_LOOSE_FACTOR <=? down_after then
    Some (CadenceAdvice.TooLoose (round_up (median_gap o * 2)))
  else None.
End ObservedCadence.

(** ** src/worker/heartbeat.rs *)
Module Failure.
Record t := { at_ : DateTime; exit_code : option Z }.
#[global] Instance eq_dec : EqDecision t.
Proof. solve_decision. Defined.
End Failure.

(** [a > b] on options of instants: [None] comes before every [Some]. *)
Definition newer (a b : option DateTime) : bool :=
  match a, b with
  | Some a, Some b => b <? a
  | Some _, None => true
  | None, _ => false
  end.

Module PingState.
Record t := { success_at : DateTime; start_at : option DateTime; fail : option Failure.t }.
#[global] Instance eq_dec : EqDecision t.
Proof. solve_decision. Defined.

Definition from_success (at_ : DateTime) : t :=
  {| success_at := at_; start_at := None; fail := None |}.

Definition failing (s : t) : option Failure.t :=
  match fail s with
  | Some f => if success_at s <? Failure.at_ f then Some f else None
  | None => None
  end.

Definition run_open_since (s : t) : option DateTime :=
  match start_at s with
  | Some t =>
      if (success_at s <=? t) && is_none_or (λ f, Failure.at_ f <? t) (fail s)
      then Some t else None
  | None => None
  end.

Definition merge_newer (self other : t) : t := {|
  success_at := if success_at self <? success_at other then success_at other else success_at self;
  start_at := if newer (start_at other) (start_at self) then start_at other else start_at self;
  fail := if newer (Failure.at_ <$> fail other) (Failure.at_ <$> fail self)
          then fail other else fail self;
|}.
End PingState.

(** The cache of the runtime: ping states by monitor. *)
Module HeartbeatRuntime.
Abbreviation t := (gmap Uuid PingState.t).

Definition state (r : t) (id : Uuid) : option PingState.t := r !! id.

Definition record (id : Uuid) (s : PingState.t) (r : t) : t :=
  <[id := match r !! id with Some cur => PingState.merge_newer cur s | None => s end]> r.

(** [fresh] is a map, walked in an order of its own. *)
Definition sync_states (fresh : list (Uuid * PingState.t)) (r : t) : t :=
  fold_left (λ r e, record e.1 e.2 r) fresh
    (filter (λ e, e.1 ∈ fresh.*1) r).
End HeartbeatRuntime.

Definition failure_message (exit_code : option Z) : string :=
  match exit_code with
  | Some code => "job reported failure (exit " +:+ show code +:+ ")"
  | None => "job reported failure"
  end.

(** The second rule: a run was announced and is past its cap. *)
Definition overrun (now : DateTime) (s : PingState.t) (c : HeartbeatCheck.t) : option string :=
  match PingState.run_open_since s, HeartbeatCheck.max_runtime c with
  | Some started, Some max =>
      let running := now - started in
      if to_chrono max <? running then
        Some ("job started " +:+ show (Z.max (num_seconds running) 0)
              +:+ "s ago and has not finished, past the " +:+ show (as_secs max)
              +:+ "s max runtime")
      else None
  | _, _ => None
  end.

Definition verdict (now : DateTime) (s : PingState.t) (c : HeartbeatCheck.t) : option string :=
  match PingState.failing s with
  | Some failure => Some (failure_message (Failure.exit_code failure))
  | None =>
      match overrun now s c with
      | Some e => Some e
      | None =>
          let age := now - PingState.success_at s in
          if to_chrono (HeartbeatCheck.period c + HeartbeatCheck.grace c) <? age then
            Some ("no ping for " +:+ show (Z.max (num_seconds age) 0) +:+ "s, expected every "
                  +:+ show (as_secs (HeartbeatCheck.period c)) +:+ "s (+"
                  +:+ show (as_secs (HeartbeatCheck.grace c)) +:+ "s grace)")
          else None
      end
  end.

(** A result with nothing measured: up without an error, down with one. *)
Definition heartbeat_result (target org : Uuid) (at_ : DateTime) (error : option string)
    : CheckResult.t := {|
  CheckResult.target_id := target; CheckResult.org_id := org; CheckResult.timestamp := at_;
  CheckResult.status := if is_none error then CheckStatus.Up else CheckStatus.Down;
  CheckResult.duration_ms := 0; CheckResult.dns_ms := None; CheckResult.connect_ms := None;
  CheckResult.tls_ms := None; CheckResult.ttfb_ms := None; CheckResult.response_code := None;
  CheckResult.response_size := None; CheckResult.diagnostic := None;
  CheckResult.error := error |}.

(** [now] is the reading the verdict is taken at; a result without state is
    stamped by a reading of its own, [later]. *)
Definition execute_heartbeat_check (target org : Uuid) (c : HeartbeatCheck.t) (now later : DateTime)
    (r : HeartbeatRuntime.t) : CheckResult.t :=
  match HeartbeatRuntime.state r target with
  | None => CheckResult.error_with_elapsed target org later 0
              "heartbeat state unavailable on this node"
  | Some s => heartbeat_result target org now (verdict now s c)
  end.

Definition first_ping_result (target org : Uuid) (at_ : DateTime) (signal : PingSignal.t)
    (exit_code : option Z) : option CheckResult.t :=
  match signal with
  | PingSignal.Success => Some (heartbeat_result target org at_ None)
  | PingSignal.Fail => Some (heartbeat_result target org at_ (Some (failure_message exit_code)))
  | PingSignal.Start => None
  end.

(** ** Merging two views *)
Ltac split_ltb :=
  repeat match goal with
  | |- context [?a <? ?b] => is_var a; is_var b; destruct (Z.ltb_spec a b); simpl
  end.

Section Merging.
Implicit Types (s a b c : PingState.t).

(** Two views agree on what a failure at one instant was. *)
Definition coherent a b : Prop :=
  ∀ f g, PingState.fail a = Some f → PingState.fail b = Some g →
    Failure.at_ f = Failure.at_ g → f = g.
Definition all_coherent (l : list PingState.t) : Prop :=
  ∀ a b, a ∈ l → b ∈ l → coherent a b.

Lemma merge_fail a b :
  PingState.fail (PingState.merge_newer a b) = PingState.fail a ∨
  PingState.fail (PingState.merge_newer a b) = PingState.fail b.
Proof. simpl. case_match; auto. Qed.

Lemma coherent_merge a b c : coherent a c → coherent b c → coherent (PingState.merge_newer a b) c.
Proof.
  intros Ha Hb f g Hf Hg. destruct (merge_fail a b) as [He|He]; rewrite He in Hf; eauto.
Qed.

(** Merging [a] then [b] is merging [b] then [a]. *)
Lemma merge_swap s a b :
  coherent s a → coherent s b → coherent a b →
  PingState.merge_newer (PingState.merge_newer s a) b =
  PingState.merge_newer (PingState.merge_newer s b) a.
Proof.
  intros Hsa Hsb Hab. unfold PingState.merge_newer, coherent in *.
  destruct s as [s1 s2 [[s3 s4]|]], a as [a1 a2 [[a3 a4]|]], b as [b1 b2 [[b3 b4]|]]; simpl in *.
  all: repeat match goal with
       | H : ∀ f g, Some ?x = Some f → Some ?y = Some g → _ |- _ =>
           specialize (H x y eq_refl eq_refl); simpl in H
       end.
  all: f_equal; try solve [split_ltb; lia].
  all: try solve [destruct s2, a2, b2; simpl; split_ltb; first [done|f_equal; lia]].
  all: split_ltb; try done; try lia.
  all: first [rewrite Hab by lia|rewrite Hsa by lia|rewrite Hsb by lia]; done.
Qed.

Lemma merge_comm a b :
  coherent a b → PingState.merge_newer a b = PingState.merge_newer b a.
Proof.
  intros Hab. unfold PingState.merge_newer, coherent in *.
  destruct a as [a1 a2 [[a3 a4]|]], b as [b1 b2 [[b3 b4]|]]; simpl in *.
  all: try specialize (Hab _ _ eq_refl eq_refl); simpl in Hab.
  all: f_equal; try solve [split_ltb; lia].
  all: try solve [destruct a2, b2; simpl; split_ltb; first [done|f_equal; lia]].
  split_ltb; try done; try lia. rewrite Hab by lia. done.
Qed.

Definition merge_all s (l : list PingState.t) : PingState.t :=
  fold_left PingState.merge_newer l s.

Lemma coherent_sym a b : coherent a b → coherent b a.
Proof. intros H f g Hf Hg Ha. symmetry. eauto. Qed.

Lemma merge_all_perm s l l' :
  l ≡ₚ l' → all_coherent (s :: l) → merge_all s l = merge_all s l'.
Proof.
  intros Hp. revert s. induction Hp as [|a l l' Hp IH|a b l|l1 l2 l3 Hp1 IH1 Hp2 IH2];
    intros s Hc; [done| | |].
  - simpl. apply IH. intros x y Hx Hy.
    assert (∀ z, z ∈ s :: a :: l → coherent (PingState.merge_newer s a) z).
    { intros z Hz. apply coherent_merge; apply Hc; set_solver. }
    apply elem_of_cons in Hx as [->|Hx], Hy as [->|Hy]; last first.
    + apply Hc; set_solver.
    + apply coherent_sym. set_solver.
    + set_solver.
    + destruct (merge_fail s a) as [He|He]; intros f g Hf Hg; rewrite He in Hf, Hg; congruence.
  - simpl. f_equal. apply merge_swap; apply Hc; set_solver.
  - rewrite IH1 by done. apply IH2. intros x y Hx Hy.
    apply Hc; [revert Hx|revert Hy]; rewrite Hp1; done.
Qed.

(** Nothing a merge keeps is older than what either side had. *)
Definition no_older a b : Prop :=
  PingState.success_at a ≤ PingState.success_at b ∧
  newer (PingState.start_at a) (PingState.start_at b) = false ∧
  newer (Failure.at_ <$> PingState.fail a) (Failure.at_ <$> PingState.fail b) = false.

Lemma newer_irrefl x : newer x x = false.
Proof. destruct x; simpl; [lia|done]. Qed.
Lemma newer_asym x y : newer x y = true → newer y x = false.
Proof. destruct x, y; simpl; try done. rewrite Z.ltb_lt, Z.ltb_ge. lia. Qed.

Lemma merge_no_older a b :
  no_older a (PingState.merge_newer a b) ∧ no_older b (PingState.merge_newer a b).
Proof.
  unfold no_older. simpl.
  split; (split_and!; [case_match; bool_cases; lia| |]);
    case_match eqn:Hn; auto using newer_irrefl, newer_asym.
Qed.
End Merging.

(** ** The cache *)
Section Cache.
Implicit Types (r : HeartbeatRuntime.t).

Definition record_all (l : list (Uuid * PingState.t)) r : HeartbeatRuntime.t :=
  fold_left (λ r e, HeartbeatRuntime.record e.1 e.2 r) l r.

(** The states recorded for one monitor. *)
Definition recorded (id : Uuid) (l : list (Uuid * PingState.t)) : list PingState.t :=
  (List.filter (λ e, bool_decide (e.1 = id)) l).*2.

Definition merged (cur : option PingState.t) (l : list PingState.t) : option PingState.t :=
  match cur, l with
  | Some s, _ => Some (merge_all s l)
  | None, s :: l => Some (merge_all s l)
  | None, [] => None
  end.

Lemma record_all_lookup l r id :
  record_all l r !! id = merged (r !! id) (recorded id l).
Proof.
  revert r. induction l as [|[i s] l IH]; intros r; [simpl; by destruct (r !! id)|].
  unfold record_all in *. simpl. rewrite IH. unfold HeartbeatRuntime.record. simpl.
  unfold recorded. simpl. destruct (decide (i = id)) as [->|Hne].
  - rewrite bool_decide_true by done. rewrite lookup_insert_eq.
    simpl. by destruct (r !! id).
  - rewrite bool_decide_false by done. by rewrite lookup_insert_ne.
Qed.

Lemma recorded_perm id l l' : l ≡ₚ l' → recorded id l ≡ₚ recorded id l'.
Proof.
  intros Hp. unfold recorded. apply fmap_Permutation.
  induction Hp; simpl; repeat case_match; eauto using perm_swap, perm_trans.
Qed.

Lemma merged_perm cur l l' :
  l ≡ₚ l' → all_coherent (option_list cur ++ l) → merged cur l = merged cur l'.
Proof.
  intros Hp. destruct cur as [s|]; simpl; [intros; by rewrite (merge_all_perm s l l')|].
  induction Hp as [|a l l' Hp IH|a b l|l1 l2 l3 Hp1 IH1 Hp2 IH2]; intros Hc; simpl; [done| | |].
  - by rewrite (merge_all_perm a l l').
  - rewrite merge_comm; [done|]. apply Hc; set_solver.
  - rewrite IH1 by done. apply IH2. intros x y Hx Hy.
    apply Hc; [revert Hx|revert Hy]; rewrite Hp1; done.
Qed.

Lemma recorded_elem id s l : s ∈ recorded id l ↔ (id, s) ∈ l.
Proof.
  unfold recorded. rewrite list_elem_of_fmap. split.
  - intros ([i s'] & -> & [Hin Hi]%elem_of_lfilter). bool_cases. simpl in *. by subst.
  - intros Hin. exists (id, s). split; [done|]. apply elem_of_lfilter.
    split; [done|]. by apply bool_decide_eq_true.
Qed.

Lemma recorded_nodup id s l :
  NoDup l.*1 → (id, s) ∈ l → recorded id l = [s].
Proof.
  intros Hnd Hin. induction l as [|[i s'] l IH]; [by apply not_elem_of_nil in Hin|].
  apply NoDup_cons in Hnd as [Hni Hnd]. unfold recorded in *. simpl.
  apply elem_of_cons in Hin as [[= <- <-]|Hin].
  - rewrite bool_decide_true by done. simpl. f_equal.
    rewrite lfilter_nil; [done|]. intros [i' s'] Hin. apply bool_decide_eq_false. simpl.
    intros ->. apply Hni. apply list_elem_of_fmap. by exists (id, s').
  - rewrite bool_decide_false; [by apply IH|]. simpl. intros ->.
    apply Hni. apply list_elem_of_fmap. by exists (id, s).
Qed.

Lemma recorded_none id l : id ∉ l.*1 → recorded id l = [].
Proof.
  intros Hni. unfold recorded. rewrite lfilter_nil; [done|].
  intros [i s] Hin. apply bool_decide_eq_false. simpl. intros ->.
  apply Hni. apply list_elem_of_fmap. by exists (id, s).
Qed.

(** ** Properties *)

(** The order pings arrive in does not matter: two caches that recorded the
    same states, each in an order of its own, hold the same state for every
    monitor, as long as two failures reported at one instant are one failure. *)
Theorem ping_order_is_irrelevant r l l' :
  l ≡ₚ l' →
  (∀ id, all_coherent (option_list (r !! id) ++ recorded id l)) →
  record_all l r = record_all l' r.
Proof.
  intros Hp Hc. apply map_eq. intros id. rewrite !record_all_lookup.
  apply merged_perm; [by apply recorded_perm|done].
Qed.

Definition ping_at (t : DateTime) : PingState.t := PingState.from_success t.
Definition start_of (t : DateTime) : PingState.t :=
  {| PingState.success_at := 0; PingState.start_at := Some t; PingState.fail := None |}.

Lemma ping_order_is_irrelevant_witness :
  record_all [(1%N, ping_at 5); (1%N, start_of 7)] ∅ =
  record_all [(1%N, start_of 7); (1%N, ping_at 5)] ∅.
Proof.
  apply (ping_order_is_irrelevant ∅).
  - apply perm_swap.
  - intros id x y Hx Hy. rewrite lookup_empty in Hx, Hy. simpl in Hx, Hy.
    apply recorded_elem in Hx, Hy. intros f g Hf Hg.
    apply elem_of_cons in Hx as [Hx|Hx];
      [|apply elem_of_cons in Hx as [Hx|Hx]; [|by apply not_elem_of_nil in Hx]];
      injection Hx as _ ->; discriminate Hf.
Defined.

(** A reconcile leaves the cache with exactly the monitors the snapshot
    lists; one it already had keeps the newer of each of its marks, so a ping
    accepted while the snapshot was being read is never lost, and one it did
    not have starts from the snapshot. *)
Theorem sync_never_regresses fresh r id :
  NoDup fresh.*1 →
  (id ∉ fresh.*1 → HeartbeatRuntime.sync_states fresh r !! id = None) ∧
  ∀ s, (id, s) ∈ fresh →
    ∃ s', HeartbeatRuntime.sync_states fresh r !! id = Some s' ∧ no_older s s' ∧
      match r !! id with
      | Some cur => s' = PingState.merge_newer cur s ∧ no_older cur s'
      | None => s' = s
      end.
Proof.
  intros Hnd. unfold HeartbeatRuntime.sync_states.
  change (fold_left _ fresh ?m) with (record_all fresh m). rewrite record_all_lookup. split.
  - intros Hni. rewrite recorded_none by done.
    rewrite map_lookup_filter_None_2; [done|]. right. intros x _. simpl. done.
  - intros s Hin. rewrite (recorded_nodup id s) by done.
    assert (id ∈ fresh.*1) by (apply list_elem_of_fmap; by exists (id, s)).
    destruct (r !! id) as [cur|] eqn:Hcur.
    + rewrite (map_lookup_filter_Some_2 _ _ _ cur) by done. simpl.
      destruct (merge_no_older cur s). eauto.
    + rewrite map_lookup_filter_None_2 by auto. simpl. exists s. split_and!; [done| |done].
      unfold no_older. split_and!; auto using newer_irrefl. lia.
Qed.

Lemma sync_never_regresses_witness :
  ∃ s', HeartbeatRuntime.sync_states [(1%N, ping_at 5)] {[1%N := ping_at 9]} !! 1%N = Some s' ∧
        PingState.success_at s' = 9.
Proof.
  assert (NoDup ([(1%N, ping_at 5)].*1)) as Hnd by (repeat constructor; set_solver).
  destruct (proj2 (sync_never_regresses _ {[1%N := ping_at 9]} 1%N Hnd) (ping_at 5)
    ltac:(set_solver)) as (s' & Hs & _ & Hc).
  exists s'. split; [exact Hs|]. rewrite lookup_singleton_eq in Hc. destruct Hc as [-> _]. reflexivity.
Defined.
End Cache.

(** ** Verdicts *)
Section Verdicts.
Implicit Types (s : PingState.t) (c : HeartbeatCheck.t).

Definition reported_failure s : Prop :=
  ∃ f, PingState.fail s = Some f ∧ PingState.success_at s < Failure.at_ f.

(** A run was announced, nothing ended it, and it is past its cap. *)
Definition overran c s (now : DateTime) : Prop :=
  ∃ started max,
    PingState.start_at s = Some started ∧ PingState.success_at s ≤ started ∧
    (∀ f, PingState.fail s = Some f → Failure.at_ f < started) ∧
    HeartbeatCheck.max_runtime c = Some max ∧ to_chrono max < now - started.

Definition silent c s (now : DateTime) : Prop :=
  (HeartbeatCheck.window c (PingState.success_at s)).2 < now.

(** Periods whose sum chrono can represent. *)
Definition representable c : Prop :=
  0 ≤ HeartbeatCheck.period c ∧ 0 ≤ HeartbeatCheck.grace c ∧
  HeartbeatCheck.period c + HeartbeatCheck.grace c ≤ CHRONO_MAX.

Lemma failing_spec s :
  match PingState.failing s with
  | Some _ => reported_failure s
  | None => ¬ reported_failure s
  end.
Proof.
  unfold PingState.failing, reported_failure.
  destruct (PingState.fail s) as [f|] eqn:Hf; [|naive_solver].
  destruct (_ <? _) eqn:Hlt; bool_cases; [eauto|]. intros (f' & [= <-] & ?). lia.
Qed.

Lemma run_open_spec s :
  match PingState.run_open_since s with
  | Some t => PingState.start_at s = Some t ∧ PingState.success_at s ≤ t ∧
              (∀ f, PingState.fail s = Some f → Failure.at_ f < t)
  | None => ∀ t, PingState.start_at s = Some t → PingState.success_at s ≤ t →
              ¬ (∀ f, PingState.fail s = Some f → Failure.at_ f < t)
  end.
Proof.
  unfold PingState.run_open_since. destruct (PingState.start_at s) as [t|] eqn:Hs; [|done].
  destruct (PingState.success_at s <=? t) eqn:Hle; bool_cases; simpl.
  - destruct (PingState.fail s) as [f|]; simpl; [|naive_solver].
    destruct (_ <? t) eqn:Hlt; bool_cases; [naive_solver|].
    intros t' [= <-] _ Hf. specialize (Hf f eq_refl). lia.
  - intros t' [= <-]. lia.
Qed.

Lemma overrun_spec c s now :
  match overrun now s c with
  | Some _ => overran c s now
  | None => ¬ overran c s now
  end.
Proof.
  unfold overrun, overran. pose proof (run_open_spec s) as Ho.
  destruct (PingState.run_open_since s) as [t|].
  - destruct (HeartbeatCheck.max_runtime c) as [m|]; [|naive_solver].
    destruct (to_chrono m <? now - t) eqn:Hlt; bool_cases; [naive_solver|].
    intros (t' & m' & ? & _ & _ & [= <-] & ?). destruct Ho as [Hs _].
    assert (t' = t) as -> by congruence. lia.
  - intros (t & m & Hs & Hle & Hf & _). by apply (Ho t).
Qed.

Lemma silent_spec c s now :
  representable c →
  to_chrono (HeartbeatCheck.period c + HeartbeatCheck.grace c) < now - PingState.success_at s ↔
  silent c s now.
Proof. unfold representable, silent, HeartbeatCheck.window, to_chrono. simpl. lia. Qed.

Lemma verdict_spec c s now :
  representable c →
  match verdict now s c with
  | Some _ => reported_failure s ∨ overran c s now ∨ silent c s now
  | None => ¬ (reported_failure s ∨ overran c s now ∨ silent c s now)
  end.
Proof.
  intros Hr. unfold verdict. pose proof (failing_spec s) as Hf.
  destruct (PingState.failing s); [by left|].
  pose proof (overrun_spec c s now) as Ho. destruct (overrun now s c); [auto|].
  pose proof (silent_spec c s now Hr) as Hs.
  destruct (_ <? _) eqn:Hlt; bool_cases; [right; right; by apply Hs|].
  intros [?|[?|?%Hs]]; [done|done|lia].
Qed.

Lemma heartbeat_status_spec id org c now later r :
  representable c →
  let status := CheckResult.status (execute_heartbeat_check id org c now later r) in
  match r !! id with
  | None => status = CheckStatus.Error
  | Some s =>
      status = CheckStatus.Down ∧
        (reported_failure s ∨ overran c s now ∨ silent c s now) ∨
      status = CheckStatus.Up ∧
        ¬ (reported_failure s ∨ overran c s now ∨ silent c s now)
  end.
Proof.
  intros Hr. unfold execute_heartbeat_check, HeartbeatRuntime.state.
  destruct (r !! id) as [s|]; [|done]. pose proof (verdict_spec c s now Hr) as Hv.
  simpl. destruct (verdict now s c); simpl; auto.
Qed.

(** The marks of a state are all before an instant. *)
Definition before (at_ : DateTime) s : Prop :=
  PingState.success_at s ≤ at_ ∧ (∀ t, PingState.start_at s = Some t → t < at_) ∧
  (∀ f, PingState.fail s = Some f → Failure.at_ f ≤ at_).

Lemma success_settles c s at_ now :
  before at_ s →
  let s' := PingState.merge_newer s (PingState.from_success at_) in
  PingState.success_at s' = at_ ∧ ¬ reported_failure s' ∧ ¬ overran c s' now.
Proof.
  intros (Hs & Hst & Hf) s'.
  assert (PingState.success_at s' = at_) as Hat.
  { simpl. destruct (_ <? at_) eqn:Hlt; bool_cases; lia. }
  split_and!; [done| |].
  - intros (f & Hf' & Hlt). rewrite Hat in Hlt. simpl in Hf'. specialize (Hf f Hf'). lia.
  - intros (t & m & Hs' & Hle & _). rewrite Hat in Hle. simpl in Hs'.
    specialize (Hst t Hs'). lia.
Qed.

(** A heartbeat evaluation is an error exactly when the node holds no state
    for the monitor; otherwise it is down exactly when the job reported a
    failure after its last success, or announced a run that nothing ended and
    that is past its cap, or has been silent beyond the window its period and
    grace give it; and up in every other case, a mark in the future included. *)
Theorem heartbeat_verdict_rules id org c now later r :
  representable c →
  let status := CheckResult.status (execute_heartbeat_check id org c now later r) in
  match r !! id with
  | None => status = CheckStatus.Error
  | Some s =>
      status = CheckStatus.Down ∧
        (reported_failure s ∨ overran c s now ∨ silent c s now) ∨
      status = CheckStatus.Up ∧
        ¬ (reported_failure s ∨ overran c s now ∨ silent c s now)
  end.
Proof. apply heartbeat_status_spec. Qed.

Definition nightly : HeartbeatCheck.t := {|
  HeartbeatCheck.period := seconds 86400; HeartbeatCheck.grace := seconds 1800;
  HeartbeatCheck.max_runtime := Some (seconds 3600) |}.

Lemma nightly_representable : representable nightly.
Proof. by vm_compute. Qed.

Lemma heartbeat_verdict_rules_witness :
  let s := {| PingState.success_at := 0; PingState.start_at := Some (seconds 100);
              PingState.fail := None |} in
  CheckResult.status (execute_heartbeat_check 1%N 2%N nightly (seconds 3701) 0 {[1%N := s]})
    = CheckStatus.Down ∧ overran nightly s (seconds 3701).
Proof.
  set (s := {| PingState.success_at := 0; PingState.start_at := Some (seconds 100);
              PingState.fail := None |}).
  pose proof (heartbeat_verdict_rules 1%N 2%N nightly (seconds 3701) 0 {[1%N := s]}
    nightly_representable) as H.
  assert (CheckResult.status (execute_heartbeat_check 1%N 2%N nightly (seconds 3701) 0 {[1%N := s]})
    = CheckStatus.Down) as Hd by (vm_compute; reflexivity).
  split; [exact Hd|]. cbv zeta in H. rewrite Hd, lookup_singleton_eq in H.
  destruct H as [[_ [(f & Hf & _)|[H|H]]]|[H _]]; [discriminate Hf|exact H| |discriminate H].
  exfalso. vm_compute in H. discriminate H.
Defined.

(** A success that is newer than everything known brings the monitor up,
    whatever was held against it, and keeps it up until its window closes and
    not an instant longer, if nothing else arrives. *)
Theorem success_brings_it_up id org c at_ now later r :
  representable c →
  (∀ s, r !! id = Some s → before at_ s) →
  CheckResult.status (execute_heartbeat_check id org c now later
    (HeartbeatRuntime.record id (PingState.from_success at_) r)) = CheckStatus.Up ↔
  now ≤ (HeartbeatCheck.window c at_).2.
Proof.
  intros Hr Hold.
  pose proof (heartbeat_status_spec id org c now later
    (HeartbeatRuntime.record id (PingState.from_success at_) r) Hr) as H.
  unfold HeartbeatRuntime.record in *. rewrite lookup_insert_eq in H.
  set (s' := match r !! id with Some _ => _ | None => _ end) in *.
  assert (PingState.success_at s' = at_ ∧ ¬ reported_failure s' ∧ ¬ overran c s' now)
    as (Hat & Hnf & Hno).
  { subst s'. destruct (r !! id) as [s|]; [by apply success_settles, Hold|].
    split_and!; [done|by intros (f & ? & _)|by intros (t & m & ? & _)]. }
  unfold silent in H. rewrite Hat in H.
  destruct H as [[Hd H]|[Hu H]]; rewrite ?Hd, ?Hu; split; try done; intros Hnow.
  - destruct H as [?|[?|?]]; [done|done|lia].
  - destruct (decide (now ≤ (HeartbeatCheck.window c at_).2)); [done|]. destruct H. lia.
Qed.

Lemma success_brings_it_up_witness :
  let s := {| PingState.success_at := 0; PingState.start_at := Some 40;
              PingState.fail := Some {| Failure.at_ := 50; Failure.exit_code := None |} |} in
  CheckResult.status (execute_heartbeat_check 1%N 2%N nightly (seconds 88200) 0
    (HeartbeatRuntime.record 1%N (PingState.from_success 60) {[1%N := s]})) = CheckStatus.Up.
Proof.
  intros s. apply (success_brings_it_up 1%N 2%N nightly 60 (seconds 88200) 0 {[1%N := s]}).
  - exact nightly_representable.
  - intros s' Hs'. rewrite lookup_singleton_eq in Hs'. injection Hs' as <-.
    split; [discriminate|split; [intros t Ht; injection Ht as <-; reflexivity|]].
    intros f Hf. injection Hf as <-. discriminate.
  - vm_compute. discriminate.
Defined.
End Verdicts.

(** ** What a ping says *)
Lemma digit_value_range a : is_ascii_digit a = true → 0 ≤ digit_value a.
Proof.
  unfold is_ascii_digit, digit_value. intros H. apply andb_prop in H as [H _].
  apply Nat.leb_le in H. lia.
Qed.

Lemma digits_value_nonneg ds acc :
  Forall (λ d, 0 ≤ d) ds → 0 ≤ acc → 0 ≤ fold_left (λ acc d, acc * 10 + d) ds acc.
Proof. intros H. revert acc. induction H; intros acc Hacc; simpl; [done|]. apply IHForall. lia. Qed.

Lemma take_digits_nonneg s : Forall (λ d, 0 ≤ d) (take_digits s).
Proof.
  induction s as [|a s IH]; simpl; [done|]. case_match eqn:Ha; [|done].
  constructor; [by apply digit_value_range|done].
Qed.

Lemma parse_u8_range s n : parse_u8 s = Some n → 0 ≤ n ≤ 255.
Proof.
  unfold parse_u8, all_digits, mbind, option_bind. intros H.
  destruct (_ && _); [|done]. destruct (_ <=? 255) eqn:Hle; [|done]. injection H as <-.
  bool_cases. split; [|done]. apply digits_value_nonneg; [apply take_digits_nonneg|done].
Qed.

(** The words and the exit codes. A signal's own name is read back as that
    signal, every exit code from 0 to 255 as itself, with 0 a success and any
    other a failure; and nothing else is ever read: a segment that parses is
    one of the three words or carries an exit code in that range. *)
Theorem ping_segments :
  (∀ sig, Ping.parse (PingSignal.as_str sig)
          = Some {| Ping.signal := sig; Ping.exit_code := None |}) ∧
  (∀ code, 0 ≤ code ≤ 255 → Ping.parse (show code) = Some {|
     Ping.signal := if code =? 0 then PingSignal.Success else PingSignal.Fail;
     Ping.exit_code := Some code |}) ∧
  (∀ s p, Ping.parse s = Some p →
     match Ping.exit_code p with
     | None => s = PingSignal.as_str (Ping.signal p)
     | Some code => 0 ≤ code ≤ 255 ∧
         Ping.signal p = if code =? 0 then PingSignal.Success else PingSignal.Fail
     end).
Proof.
  split_and!.
  - by intros [].
  - intros code Hc. assert (Hall : Forall (λ n, Ping.parse (show (Z.of_nat n)) = Some {|
      Ping.signal := if Z.of_nat n =? 0 then PingSignal.Success else PingSignal.Fail;
      Ping.exit_code := Some (Z.of_nat n) |}) (seq 0 256)).
    { apply (bool_decide_unpack _). vm_compute. exact I. }
    rewrite Forall_forall in Hall. specialize (Hall (Z.to_nat code)).
    rewrite Z2Nat.id in Hall by lia. apply Hall, elem_of_seq. lia.
  - intros s p. unfold Ping.parse.
    destruct (String.eqb_spec s "start"); [intros [= <-]; done|].
    destruct (String.eqb_spec s "fail"); [intros [= <-]; done|].
    destruct (String.eqb_spec s "success"); [intros [= <-]; done|].
    destruct (parse_u8 s) as [code|] eqn:Hp; [|done]. intros [= <-]. simpl.
    split; [by apply (parse_u8_range s)|done].
Qed.

(** A suggested period is in whole minutes, at least the whole seconds it was
    drawn from and less than an hour more. *)
Lemma round_up_bounds d :
  0 ≤ d → as_secs d < U64_MAX →
  let p := as_secs (round_up d) in
  round_up d = seconds p ∧ as_secs d ≤ p < as_secs d + 3600 ∧ p mod 60 = 0.
Proof.
  intros Hd Hmax. unfold round_up.
  assert (0 ≤ as_secs d) by (apply Z.div_pos; unfold NANOS; lia).
  set (step := match List.find _ STEPS with Some x => x.2 | None => 3600 end).
  assert (Hs : (step = 60 ∨ step = 300 ∨ step = 900 ∨ step = 3600)).
  { subst step. unfold STEPS. simpl. repeat case_match; simplify_eq/=; auto. }
  assert (Hsec : ∀ x, as_secs (seconds x) = x).
  { intros x. unfold as_secs, seconds. by rewrite Z.div_mul. }
  rewrite Hsec. split; [done|].
  set (q := (as_secs d + (step - 1)) / step).
  assert (step * q ≤ as_secs d + (step - 1) < step * q + step).
  { subst q. pose proof (Z.div_mod (as_secs d + (step - 1)) step ltac:(lia)).
    pose proof (Z.mod_pos_bound (as_secs d + (step - 1)) step ltac:(lia)). lia. }
  split; [lia|]. destruct Hs as [->|[->|[->| ->]]];
    [replace (q * 60) with (q * 1 * 60) by lia
    |replace (q * 300) with (q * 5 * 60) by lia
    |replace (q * 900) with (q * 15 * 60) by lia
    |replace (q * 3600) with (q * 60 * 60) by lia]; apply Z.mod_mul; lia.
Qed.
