(* ===== verification/HostThrottle.v ===== *)
(** * Shared cells and the host throttle

    src/worker/host_throttle.rs and [sweep_idle] of src/worker/mod.rs. The maps
    of the worker hold [Arc]s: a slot of the map and every task that cloned it
    out share one cell, and a sweep may drop a slot only while nothing else
    holds its cell. An [ArcMap] keeps that structure: the slots name cells, the
    cells have an identity of their own, and who else holds a cell is asked of
    the caller. The [idna] crate is a parameter. *)

From Stdlib Require Import Ascii.
From S2P Require Import Prelude Text Domain Target CheckSpec.

(** ** Maps of reference-counted cells *)
Module ArcMap.
Section ArcMap.
Context (K : Type) `{Countable K} (T : Type).
Record t := { slots : gmap K nat; cells : gmap nat T; next : nat }.
End ArcMap.
Arguments slots {K _ _ T}.
Arguments cells {K _ _ T}.
Arguments next {K _ _ T}.

Section Ops.
Context {K : Type} `{Countable K} {T : Type}.
Implicit Types (m : t K T).

Definition empty : t K T := {| slots := ∅; cells := ∅; next := 0 |}.

(** [if let Some(x) = map.get(k)] ..  [map.entry(k).or_insert_with(init).clone()]. *)
Definition get_or_insert (k : K) (init : T) m : nat * t K T :=
  match slots m !! k with
  | Some a => (a, m)
  | None => (next m, {| slots := <[k := next m]> (slots m);
                        cells := <[next m := init]> (cells m); next := S (next m) |})
  end.

Definition cell (a : nat) m : option T := cells m !! a.
Definition update (a : nat) (f : T → T) m : t K T :=
  {| slots := slots m; cells := alter f a (cells m); next := next m |}.

(** src/worker/mod.rs: [sweep_idle]. [held] says that the strong count of a
    cell is above the one reference of the map. *)
Definition keeps_slot (held : nat → bool) (idle : T → bool) m (a : nat) : bool :=
  held a || negb (is_some_and idle (cells m !! a)).
Definition sweep_idle (held : nat → bool) (idle : T → bool) m : nat * t K T :=
  let kept := filter (λ e, keeps_slot held idle m e.2 = true) (slots m) in
  ((size (slots m) - size kept)%nat,
   {| slots := kept; cells := cells m; next := next m |}).
End Ops.
End ArcMap.

(** ** Host keys *)
Class Idna := {
  domain_to_ascii : string → option string;
  domain_to_ascii_strict : string → option string;
}.

Definition HostKey : Type := OrgId * string * Z.

Section HostNames.
Context `{UrlLibrary, Idna}.

Definition canonical_host (host : string) : string :=
  let trimmed := trim_end_matches "."%char host in
  default (to_ascii_lowercase trimmed) (domain_to_ascii trimmed).

Definition canonical_host_strict (host : string) : option string :=
  domain_to_ascii_strict (trim_end_matches "."%char host).

Definition host_port_raw (spec : CheckSpec.t) : option (string * option Z) :=
  match spec with
  | CheckSpec.Http c =>
      host ← host_str (HttpCheck.url c);
      Some (host, port_or_known_default (HttpCheck.url c))
  | CheckSpec.Tcp c => Some (TcpCheck.host c, Some (TcpCheck.port c))
  | CheckSpec.Ping c => Some (PingCheck.host c, Some 0)
  | CheckSpec.TlsCert c => Some (TlsCertCheck.host c, Some (TlsCertCheck.port c))
  | CheckSpec.Flow c =>
      host ← host_str (FlowCheck.start_url c);
      Some (host, port_or_known_default (FlowCheck.start_url c))
  | CheckSpec.Heartbeat _ | CheckSpec.Dns _ | CheckSpec.DomainExpiry _ => None
  end.

Definition key_for (org : OrgId) (spec : CheckSpec.t) : option HostKey :=
  '(host, port) ← host_port_raw spec;
  port ← port;
  Some (org, canonical_host host, port).

Definition rdap_tld (domain : string) : option string :=
  let tld := after_last "."%char (canonical_host domain) in
  if non_empty tld then Some tld else None.

(** src/worker/pool.rs: the circuit-breaker key of a check. *)
Definition host_for_spec (spec : CheckSpec.t) : string :=
  match host_port_raw spec with
  | Some (host, _) => canonical_host host
  | None =>
      match spec with
      | CheckSpec.DomainExpiry d =>
          "rdap:" +:+ to_ascii_lowercase (after_last "."%char (DomainExpiryCheck.domain d))
      | CheckSpec.Dns d =>
          match DnsCheck.resolver d with
          | Some addr => "dns:" +:+ addr
          | None => "dns:" +:+ to_ascii_lowercase (DnsCheck.domain d)
          end
      | CheckSpec.Heartbeat _ => "heartbeat"
      | CheckSpec.Http _ | CheckSpec.Tcp _ | CheckSpec.Ping _ | CheckSpec.TlsCert _
      | CheckSpec.Flow _ => "unknown"
      end
  end.
End HostNames.

(** ** The throttle: a semaphore per (organisation, host, port) and per TLD *)
(** tokio's [Semaphore::MAX_PERMITS]: [usize::MAX >> 3]. *)
Definition MAX_PERMITS : Z := 2305843009213693951.
Definition clamp_permits (n : Z) : Z := clamp 1 MAX_PERMITS n.

(** A semaphore is its available permits; it is never closed. *)
Definition try_acquire_owned (available : Z) : option Z :=
  if 0 <? available then Some (available - 1) else None.

Module HostThrottle.
Record t := {
  caps : ArcMap.t HostKey Z;
  rdap : ArcMap.t string Z;
  per_host_max : Z;
  rdap_max : Z;
}.

Definition new (per_host_max rdap_max : Z) : t := {|
  caps := ArcMap.empty; rdap := ArcMap.empty;
  per_host_max := clamp_permits per_host_max; rdap_max := clamp_permits rdap_max |}.

Definition permissive : t := new MAX_PERMITS MAX_PERMITS.

Definition set_caps (v : ArcMap.t HostKey Z) (x : t) : t := {|
  caps := v; rdap := rdap x; per_host_max := per_host_max x; rdap_max := rdap_max x |}.
Definition set_rdap (v : ArcMap.t string Z) (x : t) : t := {|
  caps := caps x; rdap := v; per_host_max := per_host_max x; rdap_max := rdap_max x |}.

Definition semaphore_for (key : HostKey) (x : t) : nat * t :=
  let '(a, m) := ArcMap.get_or_insert key (per_host_max x) (caps x) in (a, set_caps m x).
Definition rdap_semaphore_for (tld : string) (x : t) : nat * t :=
  let '(a, m) := ArcMap.get_or_insert tld (rdap_max x) (rdap x) in (a, set_rdap m x).

(** [try_acquire] of a cell: whether a permit was taken; [None] stands for
    [Throttled]. *)
Definition try_acquire {K} `{Countable K} (a : nat) (m : ArcMap.t K Z)
    : option (ArcMap.t K Z) :=
  match ArcMap.cell a m ≫= try_acquire_owned with
  | Some _ => Some (ArcMap.update a (λ n, n - 1) m)
  | None => None
  end.

(** Dropping a [HostPermit]. *)
Definition release {K} `{Countable K} (a : nat) (m : ArcMap.t K Z) : ArcMap.t K Z :=
  ArcMap.update a (λ n, n + 1) m.

(** [acquire] and [acquire_rdap]: the cell the permit is of. *)
Definition acquire (key : HostKey) (x : t) : option nat * t :=
  let '(a, x) := semaphore_for key x in
  match try_acquire a (caps x) with
  | Some m => (Some a, set_caps m x)
  | None => (None, x)
  end.
Definition acquire_rdap (tld : string) (x : t) : option nat * t :=
  let '(a, x) := rdap_semaphore_for tld x in
  match try_acquire a (rdap x) with
  | Some m => (Some a, set_rdap m x)
  | None => (None, x)
  end.

(** [held] and [rdap_held]: which cells permits or tasks still hold. *)
Definition sweep (held rdap_held : nat → bool) (x : t) : nat * t :=
  let '(n, m) := ArcMap.sweep_idle held (λ s, s =? per_host_max x) (caps x) in
  let '(n', m') := ArcMap.sweep_idle rdap_held (λ s, s =? rdap_max x) (rdap x) in
  ((n + n')%nat, set_rdap m' (set_caps m x)).
End HostThrottle.

(** ** Sweeps never pull a cell from under its holders *)
Section ArcFacts.
Context {K : Type} `{Countable K} {T : Type}.
Implicit Types (m : ArcMap.t K T).

(** The slots name distinct cells, all of which exist. *)
Record arcs_ok m : Prop := {
  arc_cell : ∀ k a, ArcMap.slots m !! k = Some a → is_Some (ArcMap.cells m !! a);
  arc_next : ∀ a, is_Some (ArcMap.cells m !! a) → (a < ArcMap.next m)%nat;
  arc_inj : ∀ k k' a, ArcMap.slots m !! k = Some a → ArcMap.slots m !! k' = Some a → k = k';
}.

(** [U k a]: someone got the cell [a] for the key [k] and still holds it. What
    they hold is the cell the map would hand out. *)
Definition tracks m (U : K → nat → Prop) : Prop := ∀ k a, U k a → ArcMap.slots m !! k = Some a.

Lemma arcs_empty : arcs_ok ArcMap.empty.
Proof.
  split; simpl; [intros k a Ha|intros a Ha|intros k k' a Ha]; rewrite lookup_empty in Ha;
    [done|by destruct Ha|done].
Qed.

Lemma get_or_insert_ok k init m a m' :
  arcs_ok m → ArcMap.get_or_insert k init m = (a, m') →
  arcs_ok m' ∧ ArcMap.slots m' !! k = Some a ∧
  (∀ U, tracks m U → tracks m' U) ∧
  (∀ b, is_Some (ArcMap.cells m !! b) → ArcMap.cells m' !! b = ArcMap.cells m !! b) ∧
  (∀ k' b, ArcMap.slots m' !! k' = Some b → ArcMap.slots m !! k' = Some b ∨
     ArcMap.cells m !! b = None ∧ ArcMap.cells m' !! b = Some init).
Proof.
  intros [Hc Hn Hi]. unfold ArcMap.get_or_insert.
  destruct (ArcMap.slots m !! k) as [b|] eqn:Hk; intros [= <- <-]; [split_and!; eauto; by split|].
  assert (Hfree : ArcMap.cells m !! ArcMap.next m = None).
  { apply eq_None_not_Some. intros Hs%Hn. lia. }
  split_and!; simpl.
  - split; simpl.
    + intros k' b [[-> <-]|[? Hb]]%lookup_insert_Some; [by rewrite lookup_insert_eq|].
      rewrite lookup_insert_is_Some. destruct (decide (ArcMap.next m = b)); [by left|].
      right. split; [done|]. by eapply Hc.
    + intros b [->|[_ Hb%Hn]]%lookup_insert_is_Some; lia.
    + intros k1 k2 b [[-> <-]|[? H1]]%lookup_insert_Some [[-> ?]|[? H2]]%lookup_insert_Some;
        try done; subst; eauto; exfalso.
      * apply Hc in H2 as [? ?]. congruence.
      * apply Hc in H1 as [? ?]. congruence.
  - apply lookup_insert_eq.
  - intros U HU k' b Hb%HU. simpl. rewrite lookup_insert_ne; [done|]. congruence.
  - intros b Hb. rewrite lookup_insert_ne; [done|]. intros <-. rewrite Hfree in Hb. by destruct Hb.
  - intros k' b [[-> <-]|[_ Hb]]%lookup_insert_Some; [right|by left].
    by rewrite lookup_insert_eq.
Qed.

Lemma update_ok a f m : arcs_ok m → arcs_ok (ArcMap.update a f m).
Proof.
  intros [Hc Hn Hi]. split; simpl.
  - intros k b Hb%Hc. by rewrite lookup_alter_is_Some.
  - intros b. rewrite lookup_alter_is_Some. apply Hn.
  - done.
Qed.

Lemma sweep_idle_slots held idle m k a :
  ArcMap.slots (ArcMap.sweep_idle held idle m).2 !! k = Some a ↔
  ArcMap.slots m !! k = Some a ∧ ArcMap.keeps_slot held idle m a = true.
Proof. unfold ArcMap.sweep_idle. simpl. by rewrite map_lookup_filter_Some. Qed.

Lemma sweep_idle_ok held idle m : arcs_ok m → arcs_ok (ArcMap.sweep_idle held idle m).2.
Proof.
  intros [Hc Hn Hi]. split.
  - intros k a [Ha _]%sweep_idle_slots. by apply Hc in Ha.
  - apply Hn.
  - intros k k' a [? _]%sweep_idle_slots [? _]%sweep_idle_slots. eauto.
Qed.

Lemma sweep_idle_tracks held idle m (U : K → nat → Prop) :
  tracks m U → (∀ k a, U k a → held a = true) →
  tracks (ArcMap.sweep_idle held idle m).2 U.
Proof.
  intros HU Hheld k a Hk. apply sweep_idle_slots. split; [by apply HU|].
  unfold ArcMap.keeps_slot. by rewrite (Hheld k a Hk).
Qed.
End ArcFacts.

(** Names that are ASCII already, for evaluating the models. *)
Definition plain_names : Idna := {|
  domain_to_ascii s := Some (to_ascii_lowercase s);
  domain_to_ascii_strict s := Some (to_ascii_lowercase s) |}.
