(* ===== verification/Pool.v ===== *)
(** * The worker pool

    src/worker/pool.rs: [WorkerPool] and [ResultFanout], over the host throttle,
    the breakers and the heartbeat cache. [dispatch] is one step; the task it
    spawns is a state machine whose steps interleave with every other task's and
    with the sweeps: find the breaker, ask it, clone the host's semaphore, try
    it, run the probe, report. What the probe answers is part of the label of
    the step, as is a panic inside it. [run_once] asks and tells the breaker and
    nothing else: it takes no permit, marks no target as in flight, knows no
    throttle and queues no result.

    The metrics other than [storage_dropped], the tracing and the detached write
    of a flow's run record are left out. *)

From S2P Require Import Prelude Text Domain Target CheckSpec Heartbeat.
From S2P Require Import Breaker HostThrottle.

(** ** [CheckTask] *)
Module CheckTask.
Section CheckTask.
Context `{UrlLibrary}.
Record t := {
  target : CheckedTarget.t;
  org_id : OrgId;
  host_key : option HostKey;
  breaker_key : string;
  rdap_tld : option string;
}.
Definition id (x : t) : Uuid := Target.id (CheckedTarget.row (target x)).
End CheckTask.
End CheckTask.

(** ** [ResultFanout]: a bounded channel and the count of what it refused *)
Module ResultFanout.
Record t := {
  queue : list CheckResult.t;
  capacity : nat;
  closed : bool;
  storage_dropped : Z;
}.
Definition new (capacity : nat) : t :=
  {| queue := []; capacity := capacity; closed := false; storage_dropped := 0 |}.

Definition note_storage_dropped (f : t) : t := {|
  queue := queue f; capacity := capacity f; closed := closed f;
  storage_dropped := (storage_dropped f + 1) mod (U64_MAX + 1) |}.

Definition queue_depth (f : t) : Z := Z.of_nat (length (queue f)).

(** [try_send]: full or closed, the result is dropped and counted. *)
Definition dispatch (r : CheckResult.t) (f : t) : bool * t :=
  if closed f || (capacity f <=? length (queue f))%nat then (false, note_storage_dropped f)
  else (true, {| queue := queue f ++ [r]; capacity := capacity f; closed := closed f;
                 storage_dropped := storage_dropped f |}).

(** The batcher's [recv]. *)
Definition receive (f : t) : option CheckResult.t * t :=
  match queue f with
  | [] => (None, f)
  | r :: q => (Some r, {| queue := q; capacity := capacity f; closed := closed f;
                          storage_dropped := storage_dropped f |})
  end.
End ResultFanout.

(** ** The pool *)

(** Where a spawned task stands, with the cells it holds. *)
Module Phase.
Inductive t :=
| Spawned
| HasBreaker (breaker : nat)
| Cleared (breaker : nat)
| HasSlot (breaker semaphore : nat)
| Probing (breaker : nat) (permit : option nat).
#[global] Instance eq_dec : EqDecision t.
Proof. solve_decision. Defined.

Definition breaker (p : t) : option nat :=
  match p with
  | Spawned => None
  | HasBreaker b | Cleared b | HasSlot b _ | Probing b _ => Some b
  end.

(** The semaphore a task has cloned, and the one it has a permit of. *)
Definition semaphore (p : t) : option nat :=
  match p with HasSlot _ s => Some s | Probing _ s => s | _ => None end.
Definition permit (p : t) : option nat := match p with Probing _ s => s | _ => None end.
End Phase.

Section WorkerPool.
Context `{UrlLibrary, Idna}.

Record Running := { task : CheckTask.t; phase : Phase.t }.

(** A one-off check under way, with the breaker it will tell. *)
Record OneOff := { once_target : Uuid; once_breaker : nat }.

Record WorkerPool := {
  semaphore : Z;
  max_concurrent : Z;
  breakers : ArcMap.t string CircuitBreaker.t;
  breaker_cfg : CircuitBreakerConfig.t;
  fanout : ResultFanout.t;
  host_throttle : HostThrottle.t;
  heartbeat : HeartbeatRuntime.t;
  in_flight : gset Uuid;
  tasks : list Running;
  once : list OneOff;
}.

Definition new_pool (max : Z) (cfg : CircuitBreakerConfig.t) (f : ResultFanout.t)
    (throttle : HostThrottle.t) : WorkerPool := {|
  semaphore := max; max_concurrent := max; breakers := ArcMap.empty; breaker_cfg := cfg;
  fanout := f; host_throttle := throttle; heartbeat := ∅; in_flight := ∅; tasks := [];
  once := [] |}.

Definition set_semaphore (v : Z) (p : WorkerPool) : WorkerPool := {|
  semaphore := v; max_concurrent := max_concurrent p; breakers := breakers p;
  breaker_cfg := breaker_cfg p; fanout := fanout p; host_throttle := host_throttle p;
  heartbeat := heartbeat p; in_flight := in_flight p; tasks := tasks p; once := once p |}.
Definition set_breakers (v : ArcMap.t string CircuitBreaker.t) (p : WorkerPool) : WorkerPool := {|
  semaphore := semaphore p; max_concurrent := max_concurrent p; breakers := v;
  breaker_cfg := breaker_cfg p; fanout := fanout p; host_throttle := host_throttle p;
  heartbeat := heartbeat p; in_flight := in_flight p; tasks := tasks p; once := once p |}.
Definition set_fanout (v : ResultFanout.t) (p : WorkerPool) : WorkerPool := {|
  semaphore := semaphore p; max_concurrent := max_concurrent p; breakers := breakers p;
  breaker_cfg := breaker_cfg p; fanout := v; host_throttle := host_throttle p;
  heartbeat := heartbeat p; in_flight := in_flight p; tasks := tasks p; once := once p |}.
Definition set_host_throttle (v : HostThrottle.t) (p : WorkerPool) : WorkerPool := {|
  semaphore := semaphore p; max_concurrent := max_concurrent p; breakers := breakers p;
  breaker_cfg := breaker_cfg p; fanout := fanout p; host_throttle := v;
  heartbeat := heartbeat p; in_flight := in_flight p; tasks := tasks p; once := once p |}.
Definition set_in_flight (v : gset Uuid) (p : WorkerPool) : WorkerPool := {|
  semaphore := semaphore p; max_concurrent := max_concurrent p; breakers := breakers p;
  breaker_cfg := breaker_cfg p; fanout := fanout p; host_throttle := host_throttle p;
  heartbeat := heartbeat p; in_flight := v; tasks := tasks p; once := once p |}.
Definition set_tasks (v : list Running) (p : WorkerPool) : WorkerPool := {|
  semaphore := semaphore p; max_concurrent := max_concurrent p; breakers := breakers p;
  breaker_cfg := breaker_cfg p; fanout := fanout p; host_throttle := host_throttle p;
  heartbeat := heartbeat p; in_flight := in_flight p; tasks := v; once := once p |}.
Definition set_once (v : list OneOff) (p : WorkerPool) : WorkerPool := {|
  semaphore := semaphore p; max_concurrent := max_concurrent p; breakers := breakers p;
  breaker_cfg := breaker_cfg p; fanout := fanout p; host_throttle := host_throttle p;
  heartbeat := heartbeat p; in_flight := in_flight p; tasks := tasks p; once := v |}.

(** The readings for metrics and the sampler. *)
Definition available_permits (p : WorkerPool) : Z := semaphore p.
Definition pool_in_flight (p : WorkerPool) : Z := Z.max 0 (max_concurrent p - semaphore p).
Definition open_breakers (p : WorkerPool) : Z :=
  count (λ e, match ArcMap.cell e.2 (breakers p) with
              | Some b => bool_decide (CircuitBreaker.state b = BreakerState.Open)
              | None => false
              end) (map_to_list (ArcMap.slots (breakers p))).
Definition result_queue_depth (p : WorkerPool) : Z := ResultFanout.queue_depth (fanout p).
Definition dropped_results (p : WorkerPool) : Z := ResultFanout.storage_dropped (fanout p).

Definition get_or_init_breaker (host : string) (p : WorkerPool) : nat * WorkerPool :=
  let '(b, m) := ArcMap.get_or_insert host (CircuitBreaker.new (breaker_cfg p)) (breakers p) in
  (b, set_breakers m p).
Definition breaker_for := get_or_init_breaker.

Definition update_breaker (b : nat) (f : CircuitBreaker.t → CircuitBreaker.t) (p : WorkerPool)
    : WorkerPool := set_breakers (ArcMap.update b f (breakers p)) p.

(** Which cells something besides the maps holds. *)
Definition breaker_held (p : WorkerPool) (b : nat) : bool :=
  existsb (λ r, bool_decide (Phase.breaker (phase r) = Some b)) (tasks p)
  || existsb (λ x, Nat.eqb b (once_breaker x)) (once p).
Definition semaphore_held (p : WorkerPool) (s : nat) : bool :=
  existsb (λ r, bool_decide (Phase.semaphore (phase r) = Some s)) (tasks p).

Definition sweep_breakers (p : WorkerPool) : nat * WorkerPool :=
  let '(n, m) := ArcMap.sweep_idle (breaker_held p)
                   (λ b, bool_decide (CircuitBreaker.state b = BreakerState.Closed))
                   (breakers p) in
  (n, set_breakers m p).

(** ** What becomes of a task *)
Inductive outcome :=
| Queued (target : Uuid)
| DroppedFull (target : Uuid)
| DroppedInFlight (target : Uuid)
| DroppedSaturated (target : Uuid)
| DroppedThrottled (target : Uuid)
| Crashed (target : Uuid).

Definition outcome_target (o : outcome) : Uuid :=
  match o with
  | Queued t | DroppedFull t | DroppedInFlight t | DroppedSaturated t
  | DroppedThrottled t | Crashed t => t
  end.

(** [ResultFanout::dispatch] of one task's result. *)
Definition deliver_result (id : Uuid) (r : CheckResult.t) (p : WorkerPool)
    : list outcome * WorkerPool :=
  let '(sent, f) := ResultFanout.dispatch r (fanout p) in
  ([if sent then Queued id else DroppedFull id], set_fanout f p).

(** [dispatch]: everything up to the spawn. [now] and [later] are clock readings
    of the passive path. *)
Definition dispatch (t : CheckTask.t) (now later : DateTime) (p : WorkerPool)
    : list outcome * WorkerPool :=
  let id := CheckTask.id t in
  match CheckedTarget.check (CheckTask.target t) with
  | CheckSpec.Heartbeat h =>
      deliver_result id
        (execute_heartbeat_check id (CheckTask.org_id t) h now later (heartbeat p)) p
  | _ =>
      if bool_decide (id ∈ in_flight p) then
        ([DroppedInFlight id],
         set_fanout (ResultFanout.note_storage_dropped (fanout p)) p)
      else
        let p := set_in_flight ({[id]} ∪ in_flight p) p in
        match try_acquire_owned (semaphore p) with
        | None =>
            (* the guard goes out of scope *)
            ([DroppedSaturated id],
             set_in_flight (in_flight p ∖ {[id]})
               (set_fanout (ResultFanout.note_storage_dropped (fanout p)) p))
        | Some rest =>
            ([], set_tasks (tasks p ++ [{| task := t; phase := Phase.Spawned |}])
                   (set_semaphore rest p))
        end
  end.

(** The end of a task, however it ends: the permits it holds and the in-flight
    guard are dropped. *)
Definition end_task (i : nat) (r : Running) (p : WorkerPool) : WorkerPool :=
  let p := match Phase.permit (phase r) with
           | Some s => set_host_throttle (HostThrottle.set_caps
                         (HostThrottle.release s (HostThrottle.caps (host_throttle p)))
                         (host_throttle p)) p
           | None => p
           end in
  set_tasks (delete i (tasks p))
    (set_semaphore (semaphore p + 1)
       (set_in_flight (in_flight p ∖ {[CheckTask.id (task r)]}) p)).

Definition move (i : nat) (r : Running) (ph : Phase.t) (p : WorkerPool) : WorkerPool :=
  set_tasks (<[i := {| task := task r; phase := ph |}]> (tasks p)) p.

(** ** The steps of a spawned task *)
Definition find_breaker (i : nat) (r : Running) (p : WorkerPool) : list outcome * WorkerPool :=
  let '(b, p) := get_or_init_breaker (CheckTask.breaker_key (task r)) p in
  ([], move i r (Phase.HasBreaker b) p).

(** [now] is the breaker's reading in seconds, [at_] the one on the result. *)
Definition ask_breaker (now : Z) (at_ : DateTime) (i : nat) (r : Running) (b : nat)
    (p : WorkerPool) : list outcome * WorkerPool :=
  match ArcMap.cell b (breakers p) with
  | None => ([], p)
  | Some br =>
      let '(admitted, br) := CircuitBreaker.allow now br in
      let p := update_breaker b (λ _, br) p in
      if admitted then ([], move i r (Phase.Cleared b) p)
      else
        let id := CheckTask.id (task r) in
        let '(o, p) := deliver_result id
          (CheckResult.error_with_elapsed id (CheckTask.org_id (task r)) at_ 0
             CIRCUIT_OPEN_REASON) p in
        (o, end_task i r p)
  end.

(** [acquire_host_slot] up to the semaphore, which the throttle clones out. *)
Definition find_slot (i : nat) (r : Running) (b : nat) (p : WorkerPool)
    : list outcome * WorkerPool :=
  if is_some (CheckTask.rdap_tld (task r)) then ([], move i r (Phase.Probing b None) p)
  else
    match CheckTask.host_key (task r) with
    | Some key =>
        let '(s, th) := HostThrottle.semaphore_for key (host_throttle p) in
        ([], move i r (Phase.HasSlot b s) (set_host_throttle th p))
    | None => ([], move i r (Phase.Probing b None) p)
    end.

(** The rest of it; [Throttled] ends the task without a result. *)
Definition try_slot (i : nat) (r : Running) (b s : nat) (p : WorkerPool)
    : list outcome * WorkerPool :=
  match HostThrottle.try_acquire s (HostThrottle.caps (host_throttle p)) with
  | Some m =>
      ([], move i r (Phase.Probing b (Some s))
             (set_host_throttle (HostThrottle.set_caps m (host_throttle p)) p))
  | None => ([DroppedThrottled (CheckTask.id (task r))], end_task i r p)
  end.

(** The probe answered: the breaker hears it, the host's permit goes back, the
    result is queued. *)
Definition finish (now : Z) (result : CheckResult.t) (i : nat) (r : Running) (b : nat)
    (p : WorkerPool) : list outcome * WorkerPool :=
  let p := update_breaker b (CircuitBreaker.record now (CheckResult.status result)) p in
  let '(o, p) := deliver_result (CheckTask.id (task r)) result p in
  (o, end_task i r p).

(** ** [run_once]: up to the probe, and from its answer on *)
Definition run_once_start (target_id : Uuid) (host : string) (force : bool) (now : Z) (p : WorkerPool)
    : bool * WorkerPool :=
  let '(b, p) := get_or_init_breaker host p in
  let started := {| once_target := target_id; once_breaker := b |} in
  match ArcMap.cell b (breakers p) with
  | None => (false, p)
  | Some br =>
      if negb force && bool_decide (CircuitBreaker.state br = BreakerState.Open) then
        let '(admitted, br) := CircuitBreaker.allow now br in
        let p := update_breaker b (λ _, br) p in
        if admitted then (true, set_once (once p ++ [started]) p) else (false, p)
      else (true, set_once (once p ++ [started]) p)
  end.

Definition run_once_finish (j : nat) (x : OneOff) (now : Z) (s : CheckStatus.t) (p : WorkerPool)
    : WorkerPool :=
  set_once (delete j (once p)) (update_breaker (once_breaker x) (CircuitBreaker.record now s) p).

(** ** Interleavings *)
Inductive label :=
| Dispatch (t : CheckTask.t) (now later : DateTime)
| FindBreaker (i : nat)
| AskBreaker (i : nat) (now : Z) (at_ : DateTime)
| FindSlot (i : nat)
| TrySlot (i : nat)
| Finish (i : nat) (now : Z) (result : CheckResult.t)
| Panic (i : nat)
| Receive
| Sweep (rdap_held : nat → bool)
| OnceStart (target_id : Uuid) (host : string) (force : bool) (now : Z)
| OnceFinish (j : nat) (now : Z) (s : CheckStatus.t)
| SyncHeartbeats (fresh : list (Uuid * PingState.t))
| CloseQueue.

(** One step, [None] where the label does not apply. *)
Definition step (l : label) (p : WorkerPool) : option (list outcome * WorkerPool) :=
  match l with
  | Dispatch t now later => Some (dispatch t now later p)
  | FindBreaker i =>
      r ← tasks p !! i;
      match phase r with Phase.Spawned => Some (find_breaker i r p) | _ => None end
  | AskBreaker i now at_ =>
      r ← tasks p !! i;
      match phase r with
      | Phase.HasBreaker b => Some (ask_breaker now at_ i r b p)
      | _ => None
      end
  | FindSlot i =>
      r ← tasks p !! i;
      match phase r with Phase.Cleared b => Some (find_slot i r b p) | _ => None end
  | TrySlot i =>
      r ← tasks p !! i;
      match phase r with Phase.HasSlot b s => Some (try_slot i r b s p) | _ => None end
  | Finish i now result =>
      r ← tasks p !! i;
      match phase r with Phase.Probing b _ => Some (finish now result i r b p) | _ => None end
  | Panic i =>
      r ← tasks p !! i;
      match phase r with
      | Phase.Probing _ _ => Some ([Crashed (CheckTask.id (task r))], end_task i r p)
      | _ => None
      end
  | Receive => Some ([], set_fanout (ResultFanout.receive (fanout p)).2 p)
  | Sweep rdap_held =>
      let th := (HostThrottle.sweep (semaphore_held p) rdap_held (host_throttle p)).2 in
      Some ([], set_host_throttle th (sweep_breakers p).2)
  | OnceStart target_id host force now => Some ([], (run_once_start target_id host force now p).2)
  | OnceFinish j now s => x ← once p !! j; Some ([], run_once_finish j x now s p)
  | SyncHeartbeats fresh =>
      Some ([], {| semaphore := semaphore p; max_concurrent := max_concurrent p;
        breakers := breakers p; breaker_cfg := breaker_cfg p; fanout := fanout p;
        host_throttle := host_throttle p;
        heartbeat := HeartbeatRuntime.sync_states fresh (heartbeat p);
        in_flight := in_flight p; tasks := tasks p; once := once p |})
  | CloseQueue =>
      Some ([], set_fanout {| ResultFanout.queue := ResultFanout.queue (fanout p);
        ResultFanout.capacity := ResultFanout.capacity (fanout p); ResultFanout.closed := true;
        ResultFanout.storage_dropped := ResultFanout.storage_dropped (fanout p) |} p)
  end.

(** A run of steps and all the outcomes, in order. *)
Fixpoint run (ls : list label) (p : WorkerPool) : option (list outcome * WorkerPool) :=
  match ls with
  | [] => Some ([], p)
  | l :: ls =>
      '(o1, p) ← step l p;
      '(o2, p) ← run ls p;
      Some (o1 ++ o2, p)
  end.
End WorkerPool.

(** ** The invariant of the pool *)
Section Invariant.
Context `{UrlLibrary, Idna}.

Definition ids (ts : list Running) : list Uuid := (λ r, CheckTask.id (task r)) <$> ts.

(** Permits, targets in flight and spawned tasks tell one story. *)
Record permits_ok (p : WorkerPool) : Prop := {
  permits_add_up : semaphore p + Z.of_nat (length (tasks p)) = max_concurrent p;
  permits_left : 0 ≤ semaphore p;
  ids_distinct : NoDup (ids (tasks p));
  ids_in_flight : ∀ id, id ∈ in_flight p ↔ id ∈ ids (tasks p);
}.

(** A task holds the breaker of its host. *)
Definition uses_breaker (ts : list Running) (k : string) (b : nat) : Prop :=
  ∃ r, r ∈ ts ∧ CheckTask.breaker_key (task r) = k ∧ Phase.breaker (phase r) = Some b.

(** A task holds the semaphore of its host key. *)
Definition uses_slot (ts : list Running) (k : HostKey) (s : nat) : Prop :=
  ∃ r, r ∈ ts ∧ CheckTask.host_key (task r) = Some k ∧ Phase.semaphore (phase r) = Some s.
Definition slots_keyed (ts : list Running) : Prop :=
  ∀ r s, r ∈ ts → Phase.semaphore (phase r) = Some s →
    CheckTask.host_key (task r) ≠ None ∧ CheckTask.rdap_tld (task r) = None.

(** What runs without a permit is what the throttle does not cover. *)
Definition uncovered (t : CheckTask.t) : Prop :=
  CheckTask.rdap_tld t ≠ None ∨ CheckTask.host_key t = None.
Definition permits_where_due (ts : list Running) : Prop :=
  ∀ r b, r ∈ ts → phase r = Phase.Probing b None → uncovered (task r).

Definition has_permit (s : nat) (r : Running) : bool :=
  bool_decide (Phase.permit (phase r) = Some s).

Record breakers_ok (p : WorkerPool) : Prop := {
  breakers_arcs : arcs_ok (breakers p);
  breakers_tracked : tracks (breakers p) (uses_breaker (tasks p));
}.

Record slots_ok (p : WorkerPool) : Prop := {
  slots_max : 1 ≤ HostThrottle.per_host_max (host_throttle p);
  slots_arcs : arcs_ok (HostThrottle.caps (host_throttle p));
  slots_tracked : tracks (HostThrottle.caps (host_throttle p)) (uses_slot (tasks p));
  slots_have_keys : slots_keyed (tasks p);
  slots_where_due : permits_where_due (tasks p);
  (** what is available and what is held is the cap *)
  slots_add_up : ∀ k s, ArcMap.slots (HostThrottle.caps (host_throttle p)) !! k = Some s →
    ∃ n, ArcMap.cells (HostThrottle.caps (host_throttle p)) !! s = Some n ∧ 0 ≤ n ∧
      n + count (has_permit s) (tasks p) = HostThrottle.per_host_max (host_throttle p);
}.

Record pool_ok (p : WorkerPool) : Prop := {
  ok_permits : permits_ok p;
  ok_breakers : breakers_ok p;
  ok_slots : slots_ok p;
}.

Lemma new_pool_ok max cfg f hm rm :
  0 ≤ max → pool_ok (new_pool max cfg f (HostThrottle.new hm rm)).
Proof.
  intros Hmax. split; split; simpl.
  - lia.
  - done.
  - constructor.
  - intros id. set_solver.
  - apply arcs_empty.
  - intros k b (r & Hr & _). by apply not_elem_of_nil in Hr.
  - unfold clamp_permits, clamp, MAX_PERMITS. lia.
  - apply arcs_empty.
  - intros k b (r & Hr & _). by apply not_elem_of_nil in Hr.
  - intros r s Hr. by apply not_elem_of_nil in Hr.
  - intros r b Hr. by apply not_elem_of_nil in Hr.
  - intros k s Hs. rewrite lookup_empty in Hs. done.
Qed.

(** *** What the steps do to each part *)
Lemma elem_of_insert_task (ts : list Running) (i : nat) (r r' x : Running) :
  ts !! i = Some r → x ∈ <[i := r']> ts → x = r' ∨ x ∈ ts.
Proof.
  intros Hi Hx. apply list_elem_of_lookup in Hx as (j & Hj).
  apply list_lookup_insert_Some in Hj as [(-> & <- & _)|[_ Hj]]; [by left|].
  right. by eapply list_elem_of_lookup_2.
Qed.

Lemma ids_insert ts i r ph :
  ts !! i = Some r → ids (<[i := {| task := task r; phase := ph |}]> ts) = ids ts.
Proof.
  intros Hi. unfold ids. rewrite list_fmap_insert. simpl.
  apply list_insert_id. by rewrite list_lookup_fmap, Hi.
Qed.

Lemma ids_delete ts i : ids (delete i ts) = delete i (ids ts).
Proof. unfold ids. by rewrite !delete_take_drop, fmap_app, fmap_take, fmap_drop. Qed.

Lemma move_permits i r ph p :
  tasks p !! i = Some r → permits_ok p → permits_ok (move i r ph p).
Proof.
  intros Hi [Ha Hl Hd Hf]. split; simpl; rewrite ?length_insert, ?(ids_insert _ _ r) by done; done.
Qed.

Lemma in_deleted_ids (l : list Uuid) i x y :
  NoDup l → l !! i = Some x → y ∈ delete i l ↔ y ∈ l ∧ y ≠ x.
Proof.
  intros Hnd Hi. rewrite delete_take_drop. rewrite <-(take_drop_middle l i x Hi) in Hnd |- * at 3.
  apply NoDup_app in Hnd as (Ht & Hd & Hnd). apply NoDup_cons in Hnd as [Hx Hnd].
  rewrite !elem_of_app, elem_of_cons. split.
  - intros [Hy|Hy]; (split; [auto|]); intros ->; [apply (Hd x Hy); left|done].
  - intros [[?|[?|?]] ?]; auto. done.
Qed.

Lemma end_permits i r p :
  tasks p !! i = Some r → permits_ok p → permits_ok (end_task i r p).
Proof.
  intros Hi [Ha Hl Hd Hf]. unfold end_task.
  pose proof (length_delete (tasks p) i (mk_is_Some _ _ Hi)) as Hlen.
  pose proof (lookup_lt_Some _ _ _ Hi) as Hlt.
  assert (Hid : ids (tasks p) !! i = Some (CheckTask.id (task r))) by
    (unfold ids; by rewrite list_lookup_fmap, Hi).
  split; destruct (Phase.permit (phase r)); simpl;
    rewrite ?Hlen, ?ids_delete; try lia.
  all: try (rewrite delete_take_drop; rewrite <-(take_drop_middle _ i _ Hid) in Hd;
            apply NoDup_app in Hd as (? & Hd & [? ?]%NoDup_cons);
            apply NoDup_app; split_and!; [done| |done]; intros y Hy Hy2;
            apply (Hd y Hy); by right).
  all: intros id; rewrite elem_of_difference, elem_of_singleton, Hf, (in_deleted_ids _ i _ id Hd Hid);
    naive_solver.
Qed.

(** *** Uses after a task moved, ended or was spawned *)
Lemma uses_breaker_move (ts : list Running) i r ph k b :
  ts !! i = Some r → uses_breaker (<[i := {| task := task r; phase := ph |}]> ts) k b →
  uses_breaker ts k b ∨ k = CheckTask.breaker_key (task r) ∧ Phase.breaker ph = Some b.
Proof.
  intros Hi (x & [->|Hx]%(elem_of_insert_task _ _ r) & Hk & Hb); [by right| |done].
  left. by exists x.
Qed.
Lemma uses_slot_move (ts : list Running) i r ph k s :
  ts !! i = Some r → uses_slot (<[i := {| task := task r; phase := ph |}]> ts) k s →
  uses_slot ts k s ∨ CheckTask.host_key (task r) = Some k ∧ Phase.semaphore ph = Some s.
Proof.
  intros Hi (x & [->|Hx]%(elem_of_insert_task _ _ r) & Hk & Hb); [by right| |done].
  left. by exists x.
Qed.
Lemma uses_breaker_delete ts i k b : uses_breaker (delete i ts) k b → uses_breaker ts k b.
Proof. intros (x & Hx%elem_of_delete_list & ?). by exists x. Qed.
Lemma uses_slot_delete ts i k b : uses_slot (delete i ts) k b → uses_slot ts k b.
Proof. intros (x & Hx%elem_of_delete_list & ?). by exists x. Qed.
Lemma uses_breaker_push ts t k b :
  uses_breaker (ts ++ [{| task := t; phase := Phase.Spawned |}]) k b → uses_breaker ts k b.
Proof.
  intros (x & [Hx|Hx]%elem_of_app & Hk & Hb); [by exists x|].
  apply list_elem_of_singleton in Hx as ->. done.
Qed.
Lemma uses_slot_push ts t k b :
  uses_slot (ts ++ [{| task := t; phase := Phase.Spawned |}]) k b → uses_slot ts k b.
Proof.
  intros (x & [Hx|Hx]%elem_of_app & Hk & Hb); [by exists x|].
  apply list_elem_of_singleton in Hx as ->. done.
Qed.

(** *** The breakers *)
Lemma breakers_move i r ph p :
  tasks p !! i = Some r → breakers_ok p →
  (∀ b, Phase.breaker ph = Some b →
     ArcMap.slots (breakers p) !! CheckTask.breaker_key (task r) = Some b) →
  breakers_ok (move i r ph p).
Proof.
  intros Hi [Ha Ht] Hph. split; [done|].
  intros k b [Hu|[-> Hb]]%(uses_breaker_move _ _ r); simpl in *; auto.
Qed.

Lemma breakers_end i r p : breakers_ok p → breakers_ok (end_task i r p).
Proof.
  intros [Ha Ht]. unfold end_task.
  split; destruct (Phase.permit (phase r)); simpl; try done; intros k b Hu%uses_breaker_delete; auto.
Qed.

Lemma breakers_update b f p : breakers_ok p → breakers_ok (update_breaker b f p).
Proof. intros [Ha Ht]. split; [by apply update_ok|done]. Qed.

Lemma breakers_get host p b p' :
  breakers_ok p → get_or_init_breaker host p = (b, p') →
  breakers_ok p' ∧ ArcMap.slots (breakers p') !! host = Some b ∧ tasks p' = tasks p.
Proof.
  intros [Ha Ht]. unfold get_or_init_breaker.
  destruct (ArcMap.get_or_insert _ _ _) as [b' m] eqn:Hg. intros [= <- <-].
  apply get_or_insert_ok in Hg as (Hok & Hk & Htr & _); [|done].
  split; [split; [done|by apply Htr]|done].
Qed.

Lemma breakers_deliver id r p o p' :
  deliver_result id r p = (o, p') →
  breakers p' = breakers p ∧ tasks p' = tasks p ∧ host_throttle p' = host_throttle p ∧
  semaphore p' = semaphore p ∧ in_flight p' = in_flight p ∧ max_concurrent p' = max_concurrent p.
Proof. unfold deliver_result. destruct (ResultFanout.dispatch _ _). by intros [= <- <-]. Qed.

Lemma breaker_held_uses p k b : uses_breaker (tasks p) k b → breaker_held p b = true.
Proof.
  intros (r & Hr & _ & Hb). unfold breaker_held. apply orb_true_iff. left.
  apply existsb_exists. exists r. split; [by apply list_elem_of_In|]. by apply bool_decide_eq_true.
Qed.
Lemma semaphore_held_uses p k s : uses_slot (tasks p) k s → semaphore_held p s = true.
Proof.
  intros (r & Hr & _ & Hs). apply existsb_exists. exists r.
  split; [by apply list_elem_of_In|]. by apply bool_decide_eq_true.
Qed.

Lemma breakers_same p p' :
  breakers p' = breakers p → tasks p' = tasks p → breakers_ok p → breakers_ok p'.
Proof. intros Hb Ht [Ha Htr]. split; rewrite ?Hb, ?Ht; done. Qed.


(** *** The slots *)
Lemma slots_keyed_move (ts : list Running) i r ph :
  ts !! i = Some r → slots_keyed ts →
  (∀ s, Phase.semaphore ph = Some s →
     CheckTask.host_key (task r) ≠ None ∧ CheckTask.rdap_tld (task r) = None) →
  slots_keyed (<[i := {| task := task r; phase := ph |}]> ts).
Proof.
  intros Hi Hk Hph x s [->|Hx]%(elem_of_insert_task _ _ r) Hs; [eauto|by eapply Hk|done].
Qed.

Lemma permits_where_due_move (ts : list Running) i r ph :
  ts !! i = Some r → permits_where_due ts →
  (∀ b, ph = Phase.Probing b None → uncovered (task r)) →
  permits_where_due (<[i := {| task := task r; phase := ph |}]> ts).
Proof.
  intros Hi Hk Hph x b [->|Hx]%(elem_of_insert_task _ _ r) Hb; [by eapply Hph|by eapply Hk|done].
Qed.

(** A move that neither takes nor returns a permit. *)
Lemma slots_move i r ph p :
  tasks p !! i = Some r → slots_ok p → Phase.permit ph = Phase.permit (phase r) →
  (∀ s, Phase.semaphore ph = Some s → CheckTask.rdap_tld (task r) = None ∧
     ∃ k, CheckTask.host_key (task r) = Some k ∧
       ArcMap.slots (HostThrottle.caps (host_throttle p)) !! k = Some s) →
  (∀ b, ph = Phase.Probing b None → uncovered (task r)) →
  slots_ok (move i r ph p).
Proof.
  intros Hi [Hm Ha Ht Hk Hw Hs] Hp Hph Hun. split; simpl; try done.
  - intros k s [Hu|[Hkey Hse]]%(uses_slot_move _ _ r); [by apply Ht| |done].
    destruct (Hph s Hse) as (_ & k' & ? & ?). congruence.
  - apply slots_keyed_move; [done|done|]. intros s (? & k & -> & _)%Hph. done.
  - by apply permits_where_due_move.
  - intros k s (n & Hc & Hn & Hsum)%Hs. exists n. split_and!; [done|done|].
    rewrite (count_insert _ _ _ r) by done. unfold has_permit at 2 3. simpl. rewrite Hp.
    rewrite <-Hsum. lia.
Qed.

Lemma slots_same p p' :
  host_throttle p' = host_throttle p → tasks p' = tasks p → slots_ok p → slots_ok p'.
Proof. intros Hh Ht [? ? ? ? ? ?]. split; rewrite ?Hh, ?Ht; done. Qed.

Lemma slots_end i r p : tasks p !! i = Some r → slots_ok p → slots_ok (end_task i r p).
Proof.
  intros Hi [Hm Ha Ht Hk Hw Hs]. unfold end_task.
  assert (Hkd : slots_keyed (delete i (tasks p))) by
    (intros x s Hx%elem_of_delete_list; by apply Hk).
  assert (Hwd : permits_where_due (delete i (tasks p))) by
    (intros x b Hx%elem_of_delete_list; by apply Hw).
  split.
  - by destruct (Phase.permit (phase r)).
  - destruct (Phase.permit (phase r)); simpl; [by apply update_ok|done].
  - destruct (Phase.permit (phase r)); simpl; intros k s Hu%uses_slot_delete; simpl; auto.
  - by destruct (Phase.permit (phase r)).
  - by destruct (Phase.permit (phase r)).
  - intros k s Hks.
    assert (ArcMap.slots (HostThrottle.caps (host_throttle p)) !! k = Some s) as Hks' by
      (destruct (Phase.permit (phase r)); done).
    destruct (Hs k s Hks') as (n & Hc & Hn & Hsum).
    destruct (Phase.permit (phase r)) as [s'|] eqn:Hp; simpl.
    + rewrite (count_delete _ _ _ r) by done. unfold has_permit at 2. rewrite Hp.
      destruct (decide (s' = s)) as [->|Hne].
      * exists (n + 1). rewrite bool_decide_true by done. split_and!; [|lia|lia].
        by rewrite lookup_alter_eq, Hc.
      * exists n. rewrite bool_decide_false by congruence. split_and!; [|lia|lia].
        by rewrite lookup_alter_ne.
    + exists n. rewrite (count_delete _ _ _ r) by done. unfold has_permit at 2. rewrite Hp.
      rewrite bool_decide_false by done. split_and!; [done|lia|lia].
Qed.

(** Cloning out the semaphore of a key. *)
Lemma slots_get key p s th :
  slots_ok p → HostThrottle.semaphore_for key (host_throttle p) = (s, th) →
  slots_ok (set_host_throttle th p) ∧ ArcMap.slots (HostThrottle.caps th) !! key = Some s.
Proof.
  intros [Hm Ha Ht Hk Hw Hs]. unfold HostThrottle.semaphore_for.
  destruct (ArcMap.get_or_insert _ _ _) as [a m] eqn:Hg. intros [= <- <-].
  apply get_or_insert_ok in Hg as (Hok & Hkey & Htr & Hkeep & Hnew); [|done].
  split; [|done]. split; simpl; try done; [by apply Htr|].
  intros k s Hks. destruct (Hnew k s Hks) as [Hold|[Hfree Hcell]].
  - destruct (Hs k s Hold) as (n & Hc & ? & ?). exists n. rewrite Hkeep; [done|by rewrite Hc].
  - exists (HostThrottle.per_host_max (host_throttle p)). split_and!; [done|lia|].
    rewrite count_none; [lia|]. apply Forall_forall. intros r Hr.
    apply bool_decide_eq_false. intros Hp.
    assert (Hse : Phase.semaphore (phase r) = Some s) by (destruct (phase r); done).
    destruct (Hk r s Hr Hse) as [Hhk _].
    destruct (CheckTask.host_key (task r)) as [k'|] eqn:Hk'; [|done].
    assert (uses_slot (tasks p) k' s) as Hu%Ht by (by exists r).
    apply (arc_cell _ Ha) in Hu as [? ?]. congruence.
Qed.

(** Taking a permit. *)
Lemma slots_acquire i r b s m p :
  tasks p !! i = Some r → phase r = Phase.HasSlot b s → slots_ok p →
  HostThrottle.try_acquire s (HostThrottle.caps (host_throttle p)) = Some m →
  slots_ok (move i r (Phase.Probing b (Some s))
              (set_host_throttle (HostThrottle.set_caps m (host_throttle p)) p)).
Proof.
  intros Hi Hph [Hm Ha Ht Hk Hw Hs]. unfold HostThrottle.try_acquire, ArcMap.cell.
  destruct (ArcMap.cells _ !! s) as [n0|] eqn:Hc0; simpl; [|done].
  unfold try_acquire_owned. destruct (0 <? n0) eqn:Hn0; [|done]. intros [= <-]. bool_cases.
  assert (Hr : r ∈ tasks p) by by eapply list_elem_of_lookup_2.
  assert (Hse : Phase.semaphore (phase r) = Some s) by by rewrite Hph.
  destruct (Hk r s Hr Hse) as [Hhk Hrd].
  destruct (CheckTask.host_key (task r)) as [key|] eqn:Hkey; [|done].
  assert (Hu : uses_slot (tasks p) key s) by by exists r.
  split; simpl; try done.
  - by apply update_ok.
  - intros k s' [Hu'|[? [= <-]]]%(uses_slot_move _ _ r); [by apply Ht| |done].
    apply Ht. congruence.
  - apply slots_keyed_move; [done|done|]. intros _ _. by rewrite Hkey.
  - by apply permits_where_due_move.
  - intros k s' Hks. destruct (Hs k s' Hks) as (n & Hc & Hn & Hsum).
    rewrite (count_insert _ _ _ r) by done. unfold has_permit at 2 3. simpl. rewrite Hph. simpl.
    destruct (decide (s = s')) as [<-|Hne].
    + exists (n - 1). rewrite bool_decide_true by done. rewrite lookup_alter_eq, Hc.
      assert (n0 = n) by congruence. split_and!; [done|lia|lia].
    + exists n. rewrite bool_decide_false by congruence. rewrite lookup_alter_ne by done.
      split_and!; [done|lia|lia].
Qed.

Lemma slots_sweep rdap_held p p' :
  slots_ok p → tasks p' = tasks p →
  host_throttle p' = (HostThrottle.sweep (semaphore_held p) rdap_held (host_throttle p)).2 →
  slots_ok p'.
Proof.
  intros [Hm Ha Ht Hk Hw Hs] Htasks Hth. split; rewrite ?Hth, ?Htasks; try done.
  - by apply sweep_idle_ok.
  - apply sweep_idle_tracks; [done|]. intros k s Hu. by apply (semaphore_held_uses p k).
  - intros k s [Hks _]%sweep_idle_slots. by apply Hs in Hks.
Qed.

Lemma breakers_sweep p : breakers_ok p → breakers_ok (sweep_breakers p).2.
Proof.
  intros [Ha Ht]. split; [by apply sweep_idle_ok|].
  apply sweep_idle_tracks; [done|]. intros k b Hu. by apply (breaker_held_uses p k).
Qed.

(** *** Every step *)
Lemma permits_same p p' :
  semaphore p' = semaphore p → tasks p' = tasks p → in_flight p' = in_flight p →
  max_concurrent p' = max_concurrent p → permits_ok p → permits_ok p'.
Proof. intros Hs Ht Hf Hm [? ? ? ?]. split; rewrite ?Hs, ?Ht, ?Hf, ?Hm; done. Qed.

(** Steps that touch neither the tasks, the permits nor the maps. *)
Lemma pool_same p p' :
  semaphore p' = semaphore p → tasks p' = tasks p → in_flight p' = in_flight p →
  max_concurrent p' = max_concurrent p → host_throttle p' = host_throttle p →
  breakers_ok p' → pool_ok p → pool_ok p'.
Proof.
  intros ? ? ? ? ? ? [? ? ?]. split; [by eapply permits_same|done|by eapply slots_same].
Qed.

Lemma pool_end i r p : tasks p !! i = Some r → pool_ok p → pool_ok (end_task i r p).
Proof. intros Hi [? ? ?]. split; [by apply end_permits|by apply breakers_end|by apply slots_end]. Qed.

Lemma pool_deliver id r p o p' : deliver_result id r p = (o, p') → pool_ok p → pool_ok p'.
Proof.
  intros Hd Hp. apply breakers_deliver in Hd as (Hb & Ht & Hh & Hs & Hf & Hm).
  apply (pool_same p); try done. destruct Hp as [_ ? _]. by eapply breakers_same.
Qed.

Lemma pool_update_breaker b f p : pool_ok p → pool_ok (update_breaker b f p).
Proof. intros Hp. apply (pool_same p); try done. apply breakers_update. apply Hp. Qed.

Lemma pool_dispatch t now later p o p' :
  dispatch t now later p = (o, p') → pool_ok p → pool_ok p'.
Proof.
  unfold dispatch. intros Hd Hp.
  assert (Hspawn : ∀ o' p'',
    (if bool_decide (CheckTask.id t ∈ in_flight p) then
       ([DroppedInFlight (CheckTask.id t)],
        set_fanout (ResultFanout.note_storage_dropped (fanout p)) p)
     else
       match try_acquire_owned (semaphore p) with
       | None => ([DroppedSaturated (CheckTask.id t)],
            set_in_flight (({[CheckTask.id t]} ∪ in_flight p) ∖ {[CheckTask.id t]})
              (set_fanout (ResultFanout.note_storage_dropped (fanout p))
                 (set_in_flight ({[CheckTask.id t]} ∪ in_flight p) p)))
       | Some rest => ([], set_tasks (tasks p ++ [{| task := t; phase := Phase.Spawned |}])
                   (set_semaphore rest (set_in_flight ({[CheckTask.id t]} ∪ in_flight p) p)))
       end) = (o', p'') → pool_ok p'').
  { clear Hd. intros o' p''. destruct (Hp) as [[Hadd Hleft Hnd Hfl] [Hba Hbt] [Hm Hsa Hst Hsk Hsw Hsum]].
    case_bool_decide as Hin; [intros [= _ <-]; by apply (pool_same p)|].
    unfold try_acquire_owned. destruct (0 <? semaphore p) eqn:Hpos; intros [= _ <-]; bool_cases.
    - split; split; simpl; try done.
      + rewrite length_app. simpl. lia.
      + lia.
      + unfold ids. rewrite fmap_app. simpl. apply NoDup_app. split_and!; [done| |by apply NoDup_singleton].
        intros x Hx%Hfl ->%list_elem_of_singleton. done.
      + intros x. unfold ids. rewrite fmap_app, elem_of_app, elem_of_union, elem_of_singleton, Hfl.
        simpl. rewrite list_elem_of_singleton. naive_solver.
      + intros k b Hu%uses_breaker_push. by apply Hbt.
      + intros k b Hu%uses_slot_push. by apply Hst.
      + intros x s [Hx|Hx]%elem_of_app Hse; [by eapply Hsk|].
        apply list_elem_of_singleton in Hx as ->. done.
      + intros x b [Hx|Hx]%elem_of_app Hb; [by eapply Hsw|].
        apply list_elem_of_singleton in Hx as ->. done.
      + intros k s (n & ? & ? & <-)%Hsum. exists n. rewrite count_app. split_and!; [done|done|].
        unfold count at 2. simpl. lia.
    - split; [split; simpl; try done|split; done|split; done].
      intros x. rewrite elem_of_difference, elem_of_union, elem_of_singleton, <-Hfl.
      split; [naive_solver|]. intros Hx. split; [by right|]. intros ->. done. }
  destruct (CheckedTarget.check (CheckTask.target t)); try by eapply Hspawn.
  by eapply pool_deliver.
Qed.

Lemma pool_move i r ph p :
  tasks p !! i = Some r → pool_ok p →
  (∀ b, Phase.breaker ph = Some b →
     ArcMap.slots (breakers p) !! CheckTask.breaker_key (task r) = Some b) →
  Phase.permit ph = Phase.permit (phase r) →
  (∀ s, Phase.semaphore ph = Some s → CheckTask.rdap_tld (task r) = None ∧
     ∃ k, CheckTask.host_key (task r) = Some k ∧
       ArcMap.slots (HostThrottle.caps (host_throttle p)) !! k = Some s) →
  (∀ b, ph = Phase.Probing b None → uncovered (task r)) →
  pool_ok (move i r ph p).
Proof.
  intros Hi [? ? ?] Hb Hp Hs Hun.
  split; [by apply move_permits|by apply breakers_move|by apply slots_move].
Qed.

(** The breaker a task already holds. *)
Lemma held_breaker i r b p :
  tasks p !! i = Some r → pool_ok p → Phase.breaker (phase r) = Some b →
  ArcMap.slots (breakers p) !! CheckTask.breaker_key (task r) = Some b.
Proof.
  intros Hi Hp Hb. apply (breakers_tracked _ (ok_breakers _ Hp)). exists r.
  split; [by eapply list_elem_of_lookup_2|done].
Qed.

Lemma pool_get host p b p' :
  pool_ok p → get_or_init_breaker host p = (b, p') →
  pool_ok p' ∧ ArcMap.slots (breakers p') !! host = Some b ∧ tasks p' = tasks p.
Proof.
  intros Hp Hg. destruct (breakers_get _ _ _ _ (ok_breakers _ Hp) Hg) as (Hb & Hk & Ht).
  split_and!; [|done|done]. unfold get_or_init_breaker in Hg.
  destruct (ArcMap.get_or_insert _ _ _) as [b' m]. injection Hg as <- <-.
  by apply (pool_same p).
Qed.

Lemma pool_find_breaker i r p o p' :
  tasks p !! i = Some r → phase r = Phase.Spawned → pool_ok p →
  find_breaker i r p = (o, p') → pool_ok p'.
Proof.
  intros Hi Hph Hp. unfold find_breaker.
  destruct (get_or_init_breaker _ p) as [b p1] eqn:Hg. intros [= _ <-].
  destruct (pool_get _ _ _ _ Hp Hg) as (Hp1 & Hk & Ht).
  apply pool_move; [by rewrite Ht|done| |by rewrite Hph|done|done].
  intros b' [= <-]. done.
Qed.

Lemma pool_ask_breaker now at_ i r b p o p' :
  tasks p !! i = Some r → phase r = Phase.HasBreaker b → pool_ok p →
  ask_breaker now at_ i r b p = (o, p') → pool_ok p'.
Proof.
  intros Hi Hph Hp. unfold ask_breaker. destruct (ArcMap.cell b _) as [br|]; [|by intros [= _ <-]].
  destruct (CircuitBreaker.allow now br) as [[] br'].
  - intros [= _ <-]. apply pool_move; [done|by apply pool_update_breaker| |by rewrite Hph|done|done].
    intros b' [= <-]. apply (held_breaker i r b p Hi Hp). by rewrite Hph.
  - destruct (deliver_result _ _ _) as [o' p1] eqn:Hd. intros [= _ <-].
    pose proof (breakers_deliver _ _ _ _ _ Hd) as (_ & Ht & _).
    apply pool_end; [by rewrite Ht|]. eapply pool_deliver; [done|]. by apply pool_update_breaker.
Qed.

Lemma pool_find_slot i r b p o p' :
  tasks p !! i = Some r → phase r = Phase.Cleared b → pool_ok p →
  find_slot i r b p = (o, p') → pool_ok p'.
Proof.
  intros Hi Hph Hp. unfold find_slot.
  assert (Hb : ∀ b', Some b = Some b' →
            ArcMap.slots (breakers p) !! CheckTask.breaker_key (task r) = Some b').
  { intros b' [= <-]. apply (held_breaker i r b p Hi Hp). by rewrite Hph. }
  destruct (CheckTask.rdap_tld (task r)) as [tld|] eqn:Hr; simpl.
  - intros [= _ <-]. apply pool_move; [done|done|done|by rewrite Hph|done|].
    intros _ _. left. by rewrite Hr.
  - destruct (CheckTask.host_key (task r)) as [key|] eqn:Hkey.
    + destruct (HostThrottle.semaphore_for _ _) as [s th] eqn:Hg. intros [= _ <-].
      destruct (slots_get _ _ _ _ (ok_slots _ Hp) Hg) as [Hs Hks].
      assert (pool_ok (set_host_throttle th p)) by
        (split; [by apply (permits_same p), ok_permits|by apply (breakers_same p), ok_breakers|done]).
      apply pool_move; [done|done|done|by rewrite Hph| |done]. intros s' [= <-]. eauto.
    + intros [= _ <-]. apply pool_move; [done|done|done|by rewrite Hph|done|].
      intros _ _. by right.
Qed.

Lemma pool_try_slot i r b s p o p' :
  tasks p !! i = Some r → phase r = Phase.HasSlot b s → pool_ok p →
  try_slot i r b s p = (o, p') → pool_ok p'.
Proof.
  intros Hi Hph Hp. unfold try_slot.
  destruct (HostThrottle.try_acquire _ _) as [m|] eqn:Ha; intros [= _ <-]; [|by apply pool_end].
  split; [|apply breakers_move|exact (slots_acquire i r b s m p Hi Hph (ok_slots _ Hp) Ha)].
  - apply move_permits; [done|]. by apply (permits_same p), ok_permits.
  - done.
  - by apply (breakers_same p), ok_breakers.
  - intros b' [= <-]. apply (held_breaker i r b p Hi Hp). by rewrite Hph.
Qed.

Lemma pool_finish now res i r b p o p' :
  tasks p !! i = Some r → pool_ok p → finish now res i r b p = (o, p') → pool_ok p'.
Proof.
  intros Hi Hp. unfold finish. destruct (deliver_result _ _ _) as [o' p1] eqn:Hd.
  intros [= _ <-]. pose proof (breakers_deliver _ _ _ _ _ Hd) as (_ & Ht & _).
  apply pool_end; [by rewrite Ht|]. eapply pool_deliver; [done|]. by apply pool_update_breaker.
Qed.

Lemma pool_once_start tid host force now p :
  pool_ok p → pool_ok (run_once_start tid host force now p).2.
Proof.
  intros Hp. unfold run_once_start. destruct (get_or_init_breaker host p) as [b p1] eqn:Hg.
  destruct (pool_get _ _ _ _ Hp Hg) as (Hok & _ & _).
  assert (Honce : ∀ p v, pool_ok p → pool_ok (set_once v p)).
  { intros q v Hq. apply (pool_same q); try done. destruct (ok_breakers _ Hq). by split. }
  destruct (ArcMap.cell b _) as [br|]; [|done].
  destruct (negb force && _); [|by apply Honce].
  destruct (CircuitBreaker.allow now br) as [[] br']; simpl; [apply Honce|]; by apply pool_update_breaker.
Qed.

Lemma step_ok l p o p' : step l p = Some (o, p') → pool_ok p → pool_ok p'.
Proof.
  intros Hs Hp. destruct l as [t now later|i|i now at_|i|i|i now res|i| |rh|tid host force now|j now st|fresh|];
    simpl in Hs; try (destruct (tasks p !! i) as [r|] eqn:Hi; simpl in Hs; [|done];
      destruct (phase r) as [|b|b|b s|b s] eqn:Hph; try done).
  - injection Hs as Hs. by eapply pool_dispatch.
  - injection Hs as Hs. by eapply pool_find_breaker.
  - injection Hs as Hs. by eapply pool_ask_breaker.
  - injection Hs as Hs. by eapply pool_find_slot.
  - injection Hs as Hs. by eapply pool_try_slot.
  - injection Hs as Hs. by eapply pool_finish.
  - injection Hs as _ <-. by apply pool_end.
  - injection Hs as _ <-. apply (pool_same p); try done. by apply (breakers_same p), ok_breakers.
  - injection Hs as _ <-. split.
    + by apply (permits_same p), ok_permits.
    + by apply (breakers_same (sweep_breakers p).2), breakers_sweep, ok_breakers.
    + apply (slots_sweep rh p); [by apply ok_slots|done|done].
  - injection Hs as _ <-. by apply pool_once_start.
  - destruct (once p !! j) as [[tid b]|]; simpl in Hs; [|done]. injection Hs as _ <-.
    unfold run_once_finish. apply (pool_same (update_breaker b (CircuitBreaker.record now st) p));
      try done; [|by apply pool_update_breaker].
    by apply (breakers_same (update_breaker b (CircuitBreaker.record now st) p)), breakers_update, ok_breakers.
  - injection Hs as _ <-. apply (pool_same p); try done. by apply (breakers_same p), ok_breakers.
  - injection Hs as _ <-. apply (pool_same p); try done. by apply (breakers_same p), ok_breakers.
Qed.

Lemma run_ok ls p o p' : run ls p = Some (o, p') → pool_ok p → pool_ok p'.
Proof.
  revert p o. induction ls as [|l ls IH]; intros p o Hr Hp; simpl in Hr.
  - by injection Hr as _ <-.
  - destruct (step l p) as [[o1 p1]|] eqn:Hs; simpl in Hr; [|done].
    destruct (run ls p1) as [[o2 p2]|] eqn:Hr2; simpl in Hr; [|done]. injection Hr as _ <-.
    eapply IH; [done|]. by eapply step_ok.
Qed.

(** *** What a run never changes *)
Lemma end_consts i r p :
  max_concurrent (end_task i r p) = max_concurrent p ∧
  HostThrottle.per_host_max (host_throttle (end_task i r p))
  = HostThrottle.per_host_max (host_throttle p).
Proof. unfold end_task. by destruct (Phase.permit (phase r)). Qed.

Lemma get_consts host p b p' :
  get_or_init_breaker host p = (b, p') →
  max_concurrent p' = max_concurrent p ∧ host_throttle p' = host_throttle p ∧
  tasks p' = tasks p ∧ fanout p' = fanout p.
Proof.
  unfold get_or_init_breaker. destruct (ArcMap.get_or_insert _ _ _). by intros [= _ <-].
Qed.

(** One-off checks under way. *)
Definition one_offs (id : Uuid) (p : WorkerPool) : Z :=
  count (λ x, bool_decide (once_target x = id)) (once p).
(** The label asks for a one-off check of the target. *)
Definition asks_once (id : Uuid) (l : label) : bool :=
  match l with OnceStart t _ _ _ => bool_decide (t = id) | _ => false end.

Lemma end_once i r p : once (end_task i r p) = once p.
Proof. unfold end_task. by destruct (Phase.permit (phase r)). Qed.
Lemma get_once host p b p' : get_or_init_breaker host p = (b, p') → once p' = once p.
Proof. unfold get_or_init_breaker. destruct (ArcMap.get_or_insert _ _ _). by intros [= _ <-]. Qed.

Lemma step_once id l p o p' :
  step l p = Some (o, p') → one_offs id p' ≤ one_offs id p + count (asks_once id) [l].
Proof.
  intros Hs.
  enough (once p' = once p ∨ (∃ t b, once p' = once p ++ [{| once_target := t; once_breaker := b |}] ∧
      asks_once id l = bool_decide (t = id)) ∨ ∃ j x, once p !! j = Some x ∧ once p' = delete j (once p)) as Hcase.
  { unfold one_offs. assert (0 ≤ count (asks_once id) [l]) by apply count_nonneg.
    destruct Hcase as [->|[(t & b & -> & Ha)|(j & x & Hx & ->)]]; [lia|..].
    - rewrite count_app, !count_cons, Ha. unfold count. simpl. lia.
    - pose proof (count_delete (λ x, bool_decide (once_target x = id)) _ _ _ Hx) as Hdel. cbv beta in Hdel. destruct (bool_decide (once_target x = id)); lia. }
  destruct l as [t now later|i|i now at_|i|i|i now res|i| |rh|tid host force now|j now st|fresh|]; simpl in Hs;
    try (destruct (tasks p !! _) as [r|]; simpl in Hs; [|done]; destruct (phase r); try done).
  - left. unfold dispatch, deliver_result in Hs.
    destruct (CheckedTarget.check _); try (case_bool_decide; [|destruct (try_acquire_owned _)]);
      try destruct (ResultFanout.dispatch _ _); by injection Hs as _ <-.
  - left. unfold find_breaker in Hs. destruct (get_or_init_breaker _ _) eqn:Hg.
    apply get_once in Hg. by injection Hs as _ <-.
  - left. unfold ask_breaker, deliver_result in Hs. destruct (ArcMap.cell _ _); [|by injection Hs as _ <-].
    destruct (CircuitBreaker.allow _ _) as [[] ?]; [by injection Hs as _ <-|].
    destruct (ResultFanout.dispatch _ _). injection Hs as _ <-. exact (end_once _ _ _).
  - left. unfold find_slot in Hs. destruct (is_some _); [by injection Hs as _ <-|].
    destruct (CheckTask.host_key _); [|by injection Hs as _ <-].
    destruct (HostThrottle.semaphore_for _ _). by injection Hs as _ <-.
  - left. unfold try_slot in Hs. destruct (HostThrottle.try_acquire _ _); injection Hs as _ <-;
      [done|exact (end_once _ _ _)].
  - left. unfold finish, deliver_result in Hs. destruct (ResultFanout.dispatch _ _).
    injection Hs as _ <-. exact (end_once _ _ _).
  - left. injection Hs as _ <-. exact (end_once _ _ _).
  - left. by injection Hs as _ <-.
  - left. by injection Hs as _ <-.
  - injection Hs as _ <-. unfold run_once_start. destruct (get_or_init_breaker _ _) as [b p1] eqn:Hg.
    apply get_once in Hg. destruct (ArcMap.cell _ _); [|by left].
    destruct (negb _ && _); [|right; left; exists tid, b; simpl; by rewrite Hg].
    destruct (CircuitBreaker.allow _ _) as [[] ?]; [right; left; exists tid, b; simpl; by rewrite Hg|by left].
  - destruct (once p !! j) as [x|] eqn:Hx; simpl in Hs; [|done]. injection Hs as _ <-. right. right. by exists j, x.
  - left. by injection Hs as _ <-.
  - left. by injection Hs as _ <-.
Qed.

Lemma run_once_asked id ls p o p' :
  run ls p = Some (o, p') → one_offs id p' ≤ one_offs id p + count (asks_once id) ls.
Proof.
  revert p o. induction ls as [|l ls IH]; intros p o Hr; simpl in Hr.
  - injection Hr as _ <-. unfold count. simpl. lia.
  - destruct (step l p) as [[o1 p1]|] eqn:Hs; simpl in Hr; [|done].
    destruct (run ls p1) as [[o2 p2]|] eqn:Hr2; simpl in Hr; [|done]. injection Hr as _ <-.
    apply IH in Hr2. apply (step_once id) in Hs. rewrite count_cons in Hs |- *. change (count (asks_once id) []) with 0 in Hs. lia.
Qed.

Lemma step_consts l p o p' :
  step l p = Some (o, p') →
  max_concurrent p' = max_concurrent p ∧
  HostThrottle.per_host_max (host_throttle p') = HostThrottle.per_host_max (host_throttle p).
Proof.
  intros Hs. destruct l; simpl in Hs;
    try (destruct (tasks p !! _) as [r|]; simpl in Hs; [|done]; destruct (phase r); try done).
  - unfold dispatch, deliver_result in Hs.
    destruct (CheckedTarget.check _); try (case_bool_decide; [|destruct (try_acquire_owned _)]);
      try destruct (ResultFanout.dispatch _ _); by injection Hs as _ <-.
  - unfold find_breaker in Hs. destruct (get_or_init_breaker _ _) eqn:Hg.
    apply get_consts in Hg as (? & ? & _). injection Hs as _ <-. simpl. by split; congruence.
  - unfold ask_breaker, deliver_result in Hs. destruct (ArcMap.cell _ _); [|by injection Hs as _ <-].
    destruct (CircuitBreaker.allow _ _) as [[] ?]; [by injection Hs as _ <-|].
    destruct (ResultFanout.dispatch _ _). injection Hs as _ <-. exact (end_consts _ _ _).
  - unfold find_slot in Hs. destruct (is_some _); [by injection Hs as _ <-|].
    destruct (CheckTask.host_key _); [|by injection Hs as _ <-].
    unfold HostThrottle.semaphore_for in Hs. destruct (ArcMap.get_or_insert _ _ _).
    by injection Hs as _ <-.
  - unfold try_slot in Hs. destruct (HostThrottle.try_acquire _ _); injection Hs as _ <-;
      [done|exact (end_consts _ _ _)].
  - unfold finish, deliver_result in Hs. destruct (ResultFanout.dispatch _ _).
    injection Hs as _ <-. exact (end_consts _ _ _).
  - injection Hs as _ <-. exact (end_consts _ _ _).
  - by injection Hs as _ <-.
  - by injection Hs as _ <-.
  - injection Hs as _ <-. unfold run_once_start. destruct (get_or_init_breaker _ _) eqn:Hg.
    apply get_consts in Hg as (? & Hh & _). destruct (ArcMap.cell _ _); [|simpl; by rewrite Hh].
    destruct (negb _ && _); [|simpl; by rewrite Hh].
    destruct (CircuitBreaker.allow _ _) as [[] ?]; simpl; by rewrite Hh.
  - destruct (once p !! _); simpl in Hs; [|done]. by injection Hs as _ <-.
  - by injection Hs as _ <-.
  - by injection Hs as _ <-.
Qed.

Lemma run_cons l ls p o p' :
  run (l :: ls) p = Some (o, p') →
  ∃ o1 p1 o2, step l p = Some (o1, p1) ∧ run ls p1 = Some (o2, p') ∧ o = o1 ++ o2.
Proof.
  simpl. destruct (step l p) as [[o1 p1]|]; simpl; [|done].
  destruct (run ls p1) as [[o2 p2]|] eqn:Hr; simpl; [|done]. intros [= <- <-]. eauto 10.
Qed.

Lemma run_consts ls p o p' :
  run ls p = Some (o, p') →
  max_concurrent p' = max_concurrent p ∧
  HostThrottle.per_host_max (host_throttle p') = HostThrottle.per_host_max (host_throttle p).
Proof.
  revert p o. induction ls as [|l ls IH]; intros p o Hr; [by injection Hr as _ <-|].
  apply run_cons in Hr as (o1 & p1 & o2 & Hs & Hr & _).
  apply step_consts in Hs as [<- <-]. by eapply IH.
Qed.

(** The probes running under a host key that the throttle covers. *)
Definition probing (key : HostKey) (r : Running) : bool :=
  bool_decide (CheckTask.host_key (task r) = Some key) &&
  bool_decide (CheckTask.rdap_tld (task r) = None) &&
  match phase r with Phase.Probing _ _ => true | _ => false end.

Lemma probing_permits p key s :
  pool_ok p → ArcMap.slots (HostThrottle.caps (host_throttle p)) !! key = Some s →
  count (probing key) (tasks p) = count (has_permit s) (tasks p).
Proof.
  intros [_ _ [Hm Ha Ht Hk Hw Hs]] Hkey. apply count_ext_in. intros r Hr.
  unfold probing, has_permit. destruct (phase r) as [| | | |b [s'|]] eqn:Hph; simpl.
  1-4: by rewrite andb_false_r.
  - assert (Hse : Phase.semaphore (phase r) = Some s') by by rewrite Hph.
    destruct (Hk r s' Hr Hse) as [Hne Hrd].
    destruct (CheckTask.host_key (task r)) as [k|] eqn:Hhk; [|done].
    rewrite (bool_decide_true (_ = None)) by done. rewrite !andb_true_r.
    assert (Hu : ArcMap.slots (HostThrottle.caps (host_throttle p)) !! k = Some s') by
      (apply Ht; by exists r).
    apply bool_decide_ext. split; [intros [= ->]; congruence|intros [= ->]].
    f_equal. by eapply arc_inj.
  - rewrite andb_true_r.
    destruct (Hw r b Hr Hph) as [Hrd|Hhk].
    + by rewrite (bool_decide_false (CheckTask.rdap_tld _ = None)), andb_false_r.
    + by rewrite bool_decide_false by congruence.
Qed.

Lemma probing_unslotted p key :
  pool_ok p → ArcMap.slots (HostThrottle.caps (host_throttle p)) !! key = None →
  count (probing key) (tasks p) = 0.
Proof.
  intros [_ _ [Hm Ha Ht Hk Hw Hs]] Hkey. apply count_none, Forall_forall. intros r Hr.
  unfold probing. destruct (phase r) as [| | | |b [s'|]] eqn:Hph; rewrite ?andb_false_r; try done.
  - assert (Hse : Phase.semaphore (phase r) = Some s') by by rewrite Hph.
    case_bool_decide as Hhk; [|done]. exfalso.
    assert (Hu : ArcMap.slots (HostThrottle.caps (host_throttle p)) !! key = Some s') by
      (apply Ht; by exists r). congruence.
  - destruct (Hw r b Hr Hph) as [Hrd|Hhk].
    + by rewrite (bool_decide_false (CheckTask.rdap_tld _ = None)), andb_false_r.
    + by rewrite bool_decide_false by congruence.
Qed.

(** *** Accounting *)
Definition dispatched (l : label) : list Uuid :=
  match l with Dispatch t _ _ => [CheckTask.id t] | _ => [] end.

(** The drops [storage_dropped] counts. *)
Definition counted (o : outcome) : bool :=
  match o with DroppedFull _ | DroppedInFlight _ | DroppedSaturated _ => true | _ => false end.

Definition accounts (l : label) (o : list outcome) (p p' : WorkerPool) : Prop :=
  ids (tasks p) ++ dispatched l ≡ₚ (outcome_target <$> o) ++ ids (tasks p') ∧
  ResultFanout.storage_dropped (fanout p') =
    (ResultFanout.storage_dropped (fanout p) + count counted o) mod (U64_MAX + 1).

Lemma deliver_accounts id r p o p' :
  deliver_result id r p = (o, p') → 0 ≤ ResultFanout.storage_dropped (fanout p) ≤ U64_MAX →
  outcome_target <$> o = [id] ∧
  ResultFanout.storage_dropped (fanout p') =
    (ResultFanout.storage_dropped (fanout p) + count counted o) mod (U64_MAX + 1).
Proof.
  unfold deliver_result, ResultFanout.dispatch. intros Hd Hr.
  destruct (_ || _); injection Hd as <- <-; (split; [done|]); unfold count; simpl; [done|].
  rewrite Z.mod_small; unfold U64_MAX in *; lia.
Qed.

Lemma move_ids i r ph p :
  tasks p !! i = Some r → ids (tasks (move i r ph p)) = ids (tasks p).
Proof. intros Hi. simpl. by apply ids_insert. Qed.

Lemma end_ids i r p :
  tasks p !! i = Some r →
  ids (tasks p) ≡ₚ CheckTask.id (task r) :: ids (tasks (end_task i r p)).
Proof.
  intros Hi. assert (tasks (end_task i r p) = delete i (tasks p)) as ->.
  { unfold end_task. by destruct (Phase.permit (phase r)). }
  rewrite ids_delete. unfold ids. apply delete_Permutation. by rewrite list_lookup_fmap, Hi.
Qed.

Lemma end_fanout i r p : fanout (end_task i r p) = fanout p.
Proof. unfold end_task. by destruct (Phase.permit (phase r)). Qed.

Lemma accounts_silent l p p' :
  dispatched l = [] → ids (tasks p') ≡ₚ ids (tasks p) → fanout p' = fanout p →
  0 ≤ ResultFanout.storage_dropped (fanout p) ≤ U64_MAX → accounts l [] p p'.
Proof.
  intros Hl Hi Hf Hr. split; [by rewrite Hl, app_nil_r, Hi|]. rewrite Hf.
  unfold count. simpl. rewrite Z.mod_small; unfold U64_MAX in *; lia.
Qed.

(** A task that ends with a result. *)
Lemma accounts_deliver_end l i r id res p p1 o :
  tasks p !! i = Some r → dispatched l = [] → id = CheckTask.id (task r) →
  0 ≤ ResultFanout.storage_dropped (fanout p) ≤ U64_MAX →
  deliver_result id res p = (o, p1) → accounts l o p (end_task i r p1).
Proof.
  intros Hi Hl -> Hr Hd. pose proof (breakers_deliver _ _ _ _ _ Hd) as (_ & Ht & _).
  destruct (deliver_accounts _ _ _ _ _ Hd Hr) as [Ho Hdr]. split.
  - rewrite Hl, Ho, app_nil_r, <-(end_ids i r p1), Ht by (by rewrite Ht). done.
  - by rewrite end_fanout.
Qed.

Lemma accounts_end l i r p o :
  tasks p !! i = Some r → dispatched l = [] → outcome_target o = CheckTask.id (task r) →
  counted o = false → 0 ≤ ResultFanout.storage_dropped (fanout p) ≤ U64_MAX →
  accounts l [o] p (end_task i r p).
Proof.
  intros Hi Hl Ho Hc Hr. split.
  - rewrite Hl, app_nil_r. simpl. rewrite Ho. by apply end_ids.
  - rewrite end_fanout. unfold count. simpl. rewrite Hc. simpl.
    rewrite Z.mod_small; unfold U64_MAX in *; lia.
Qed.

Lemma dispatch_accounts t now later p o p' :
  dispatch t now later p = (o, p') →
  0 ≤ ResultFanout.storage_dropped (fanout p) ≤ U64_MAX →
  accounts (Dispatch t now later) o p p'.
Proof.
  intros Hd Hr. unfold dispatch in Hd. unfold accounts. simpl.
  destruct (CheckedTarget.check _); try (case_bool_decide; [|destruct (try_acquire_owned _)]).
  all: try (injection Hd as <- <-; simpl; split; [|by unfold count]; by rewrite (comm (++))).
  all: try (injection Hd as <- <-; split; simpl;
    [unfold ids; by rewrite fmap_app|unfold count; simpl; rewrite Z.mod_small; unfold U64_MAX in *; lia]).
  pose proof (breakers_deliver _ _ _ _ _ Hd) as (_ & -> & _).
  destruct (deliver_accounts _ _ _ _ _ Hd Hr) as [-> ->]. split; [|done]. by rewrite (comm (++)).
Qed.

Lemma step_accounts l p o p' :
  step l p = Some (o, p') → 0 ≤ ResultFanout.storage_dropped (fanout p) ≤ U64_MAX →
  accounts l o p p'.
Proof.
  intros Hs Hr. destruct l as [t now later|i|i now at_|i|i|i now res|i| |rh|host force now|j now st|fresh|];
    simpl in Hs; try (destruct (tasks p !! i) as [r|] eqn:Hi; simpl in Hs; [|done];
      destruct (phase r) as [|b|b|b s|b s] eqn:Hph; try done).
  - injection Hs as Hs. by apply dispatch_accounts.
  - unfold find_breaker in Hs. destruct (get_or_init_breaker _ _) as [b p1] eqn:Hg.
    apply get_consts in Hg as (_ & _ & Ht & Hf). injection Hs as <- <-.
    apply accounts_silent; [done| |done|done]. rewrite move_ids; by rewrite Ht.
  - unfold ask_breaker in Hs. destruct (ArcMap.cell _ _) as [br|];
      [|injection Hs as <- <-; by apply accounts_silent].
    destruct (CircuitBreaker.allow _ _) as [[] br'].
    + injection Hs as <- <-. apply accounts_silent; [done| |done|done]. by rewrite move_ids.
    + destruct (deliver_result _ _ _) as [o1 p1] eqn:Hd. injection Hs as <- <-.
      by eapply (accounts_deliver_end _ i r _ _ (update_breaker b (λ _, br') p)).
  - unfold find_slot in Hs. destruct (is_some _).
    { injection Hs as <- <-. apply accounts_silent; [done| |done|done]. by rewrite move_ids. }
    destruct (CheckTask.host_key _).
    + destruct (HostThrottle.semaphore_for _ _). injection Hs as <- <-.
      apply accounts_silent; [done| |done|done]. by rewrite move_ids.
    + injection Hs as <- <-. apply accounts_silent; [done| |done|done]. by rewrite move_ids.
  - unfold try_slot in Hs. destruct (HostThrottle.try_acquire _ _); injection Hs as <- <-.
    + apply accounts_silent; [done| |done|done]. by rewrite move_ids.
    + by apply accounts_end.
  - unfold finish in Hs. destruct (deliver_result _ _ _) as [o1 p1] eqn:Hd. injection Hs as <- <-.
    by eapply (accounts_deliver_end _ i r _ _
                 (update_breaker b (CircuitBreaker.record now (CheckResult.status res)) p)).
  - injection Hs as <- <-. by apply accounts_end.
  - injection Hs as <- <-. split; [by rewrite app_nil_r|]. simpl.
    unfold ResultFanout.receive. destruct (ResultFanout.queue _); simpl;
      unfold count; simpl; rewrite Z.mod_small; unfold U64_MAX in *; lia.
  - injection Hs as <- <-. by apply accounts_silent.
  - injection Hs as <- <-. unfold run_once_start.
    destruct (get_or_init_breaker _ _) as [b p1] eqn:Hg. apply get_consts in Hg as (_ & _ & Ht & Hf).
    destruct (ArcMap.cell _ _); [|apply accounts_silent; simpl; by rewrite ?Ht, ?Hf].
    destruct (negb _ && _); [|apply accounts_silent; simpl; by rewrite ?Ht, ?Hf].
    destruct (CircuitBreaker.allow _ _) as [[] ?]; apply accounts_silent; simpl; by rewrite ?Ht, ?Hf.
  - destruct (once p !! j); simpl in Hs; [|done]. injection Hs as <- <-. by apply accounts_silent.
  - injection Hs as <- <-. by apply accounts_silent.
  - injection Hs as <- <-. split; [by rewrite app_nil_r|]. simpl.
    unfold count; simpl; rewrite Z.mod_small; unfold U64_MAX in *; lia.
Qed.

(** A task that runs was running before, or this step dispatched it. *)
Lemma step_tasks l p o p' r :
  step l p = Some (o, p') → r ∈ tasks p' →
  (∃ r0, r0 ∈ tasks p ∧ task r0 = task r) ∨ ∃ now later, l = Dispatch (task r) now later.
Proof.
  assert (Hsame : tasks p' = tasks p → r ∈ tasks p' →
    (∃ r0, r0 ∈ tasks p ∧ task r0 = task r) ∨ ∃ now later, l = Dispatch (task r) now later).
  { intros -> Hr. left. by exists r. }
  assert (Hmove : ∀ i r0 ph q, r ∈ tasks (move i r0 ph q) → tasks p !! i = Some r0 → tasks q = tasks p →
    (∃ r0, r0 ∈ tasks p ∧ task r0 = task r) ∨ ∃ now later, l = Dispatch (task r) now later).
  { intros i r0 ph q Hr Hi Hq. left. simpl in Hr. rewrite Hq in Hr.
    apply list_elem_of_lookup in Hr as [j Hj]. destruct (decide (i = j)) as [->|Hne].
    - rewrite list_lookup_insert_eq in Hj by (by eapply lookup_lt_Some). injection Hj as <-.
      exists r0. split; [by eapply list_elem_of_lookup_2|done].
    - rewrite list_lookup_insert_ne in Hj by done. exists r. split; [by eapply list_elem_of_lookup_2|done]. }
  assert (Hend : ∀ i r0 q, r ∈ tasks (end_task i r0 q) → tasks q = tasks p →
    (∃ r0, r0 ∈ tasks p ∧ task r0 = task r) ∨ ∃ now later, l = Dispatch (task r) now later).
  { intros i r0 q Hr Hq. left. exists r. split; [|done].
    assert (tasks (end_task i r0 q) = delete i (tasks p)) as Ht.
    { unfold end_task. destruct (Phase.permit (phase r0)); simpl; by rewrite Hq. }
    rewrite Ht in Hr. eapply elem_of_submseteq; [exact Hr|]. apply sublist_submseteq, sublist_delete. }
  intros Hs Hr.
  destruct l as [t now later|i|i now at_|i|i|i now res|i| |rh|tid host force now|j now st|fresh|]; simpl in Hs;
    try (destruct (tasks p !! _) as [r0|] eqn:Hi; simpl in Hs; [|done]; destruct (phase r0); try done).
  - unfold dispatch, deliver_result in Hs.
    destruct (CheckedTarget.check _); try (case_bool_decide; [|destruct (try_acquire_owned _)]);
      try destruct (ResultFanout.dispatch _ _); injection Hs as _ <-; try (by apply Hsame);
      (apply elem_of_app in Hr as [Hr| ->%list_elem_of_singleton]; [left; by exists r|right; by exists now, later]).
  - unfold find_breaker in Hs. destruct (get_or_init_breaker _ _) as [b q] eqn:Hg.
    apply get_consts in Hg as (_ & _ & Hq & _). injection Hs as _ <-. eapply Hmove; [exact Hr|exact Hi|done].
  - unfold ask_breaker, deliver_result in Hs. destruct (ArcMap.cell _ _); [|injection Hs as _ <-; by apply Hsame].
    destruct (CircuitBreaker.allow _ _) as [[] br]; [injection Hs as _ <-; eapply Hmove; [exact Hr|exact Hi|done]|].
    destruct (ResultFanout.dispatch _ _). injection Hs as _ <-. eapply Hend; [exact Hr|done].
  - unfold find_slot in Hs. destruct (is_some _); [injection Hs as _ <-; eapply Hmove; [exact Hr|exact Hi|done]|].
    destruct (CheckTask.host_key _); [|injection Hs as _ <-; eapply Hmove; [exact Hr|exact Hi|done]].
    destruct (HostThrottle.semaphore_for _ _). injection Hs as _ <-. eapply Hmove; [exact Hr|exact Hi|done].
  - unfold try_slot in Hs. destruct (HostThrottle.try_acquire _ _); injection Hs as _ <-;
      [eapply Hmove; [exact Hr|exact Hi|done]|eapply Hend; [exact Hr|done]].
  - unfold finish, deliver_result in Hs. destruct (ResultFanout.dispatch _ _). injection Hs as _ <-. eapply Hend; [exact Hr|done].
  - injection Hs as _ <-. eapply Hend; [exact Hr|done].
  - injection Hs as _ <-. by apply Hsame.
  - injection Hs as _ <-. by apply Hsame.
  - injection Hs as _ <-. apply Hsame; [|done]. unfold run_once_start.
    destruct (get_or_init_breaker _ _) as [b q] eqn:Hg. apply get_consts in Hg as (_ & _ & Hq & _).
    destruct (ArcMap.cell _ _); [|done]. destruct (negb _ && _); [|done].
    by destruct (CircuitBreaker.allow _ _) as [[] ?].
  - destruct (once p !! j); simpl in Hs; [|done]. injection Hs as _ <-. by apply Hsame.
  - injection Hs as _ <-. by apply Hsame.
  - injection Hs as _ <-. by apply Hsame.
Qed.
Lemma run_tasks ls p o p' r :
  run ls p = Some (o, p') → r ∈ tasks p' →
  (∃ r0, r0 ∈ tasks p ∧ task r0 = task r) ∨ ∃ now later, Dispatch (task r) now later ∈ ls.
Proof.
  revert p o. induction ls as [|l ls IH]; intros p o Hr Hin.
  { injection Hr as _ <-. left. by exists r. }
  apply run_cons in Hr as (o1 & p1 & o2 & Hs & Hr & _).
  destruct (IH _ _ Hr Hin) as [(r0 & Hr0 & Ht)|(now & later & Hl)]; [|right; exists now, later; by right].
  destruct (step_tasks _ _ _ _ _ Hs Hr0) as [(r1 & ? & Ht1)|(now & later & ->)].
  - left. exists r1. split; [done|congruence].
  - right. exists now, later. rewrite Ht. by left.
Qed.

Lemma run_accounts ls p o p' :
  run ls p = Some (o, p') → 0 ≤ ResultFanout.storage_dropped (fanout p) ≤ U64_MAX →
  ids (tasks p) ++ concat (dispatched <$> ls) ≡ₚ (outcome_target <$> o) ++ ids (tasks p') ∧
  ResultFanout.storage_dropped (fanout p') =
    (ResultFanout.storage_dropped (fanout p) + count counted o) mod (U64_MAX + 1).
Proof.
  revert p o. induction ls as [|l ls IH]; intros p o Hr Hd.
  - injection Hr as <- <-. split; [by rewrite app_nil_r|]. unfold count. simpl.
    rewrite Z.mod_small; unfold U64_MAX in *; lia.
  - apply run_cons in Hr as (o1 & p1 & o2 & Hs & Hr & ->).
    destruct (step_accounts _ _ _ _ Hs Hd) as [Hp1 Hd1].
    assert (0 ≤ ResultFanout.storage_dropped (fanout p1) ≤ U64_MAX) as Hd1'.
    { rewrite Hd1. pose proof (Z.mod_pos_bound (ResultFanout.storage_dropped (fanout p)
        + count counted o1) (U64_MAX + 1) ltac:(done)). lia. }
    destruct (IH _ _ Hr Hd1') as [Hp2 Hd2]. split.
    + simpl. rewrite (assoc_L (++)), Hp1, <-(assoc_L (++)), Hp2, fmap_app, (assoc_L (++)). done.
    + rewrite Hd2, Hd1, count_app, Z.add_mod_idemp_l by done. f_equal. lia.
Qed.

(** ** Properties *)

(** What is being probed, by scheduled tasks and by one-off checks. *)
Definition is_probing (r : Running) : bool := match phase r with Phase.Probing _ _ => true | _ => false end.
Definition probes (p : WorkerPool) : list Uuid :=
  ids (List.filter is_probing (tasks p)) ++ (once_target <$> once p).

Lemma count_distinct (id : Uuid) l : NoDup l → count (λ x, bool_decide (x = id)) l ≤ 1.
Proof.
  induction 1 as [|x l Hx Hl IH]; [done|]. rewrite count_cons. case_bool_decide as Heq; [subst x|lia].
  rewrite count_none; [lia|]. apply Forall_forall. intros y Hy. apply bool_decide_eq_false. by intros ->.
Qed.

(** The limits, for the scheduler's theorems as well. *)
Lemma pool_bounded max cfg f hm rm ls o p key :
  0 ≤ max → run ls (new_pool max cfg f (HostThrottle.new hm rm)) = Some (o, p) →
  Z.of_nat (length (tasks p)) ≤ max ∧ NoDup (ids (tasks p)) ∧
  (∀ id, id ∈ in_flight p ↔ id ∈ ids (tasks p)) ∧
  count (probing key) (tasks p) ≤ clamp_permits hm ∧
  ∀ id, count (λ x, bool_decide (x = id)) (probes p) ≤ 1 + count (asks_once id) ls.
Proof.
  intros Hmax Hr. pose proof (run_ok _ _ _ _ Hr (new_pool_ok max cfg f hm rm Hmax)) as Hp.
  destruct (run_consts _ _ _ _ Hr) as [Hmc Hhm]. simpl in Hmc, Hhm.
  destruct (ok_permits _ Hp) as [Hadd Hleft Hnd Hfl].
  split_and!; [lia|done|done|..].
  - pose proof (slots_max _ (ok_slots _ Hp)).
    destruct (ArcMap.slots (HostThrottle.caps (host_throttle p)) !! key) as [s|] eqn:Hkey.
    + rewrite (probing_permits p key s) by done.
      destruct (slots_add_up _ (ok_slots _ Hp) key s Hkey) as (n & _ & ? & ?). lia.
    + rewrite probing_unslotted by done. lia.
  - intros id. unfold probes. rewrite count_app.
    assert (NoDup (ids (List.filter is_probing (tasks p)))) as Hdistinct.
    { eapply sublist_NoDup; [exact Hnd|]. apply fmap_sublist. generalize (tasks p). intros ts.
      induction ts as [|r ts IH]; simpl; [constructor|]. destruct (is_probing r); by constructor. }
    pose proof (count_distinct id _ Hdistinct).
    assert (count (λ x, bool_decide (x = id)) (once_target <$> once p) = one_offs id p) as ->.
    { unfold count, one_offs, count. by rewrite lfilter_fmap, length_fmap. }
    pose proof (run_once_asked id _ _ _ _ Hr) as Ho. unfold one_offs at 2, count at 1 in Ho. simpl in Ho. lia.
Qed.

(** C31: the limits of the pool. However dispatches, probes, panics, sweeps and one-off
    checks interleave: no more scheduled tasks run than the pool has permits, no two
    for the same target, the targets marked in flight being exactly theirs; under one
    (organisation, host, port) no more of them probe than the throttle allows; and a
    target is never under more probes at once than one, plus the one-off checks that
    were asked for it, which take no permit and no slot and mark nothing in flight. *)
Theorem pool_limits_hold max cfg f hm rm ls o p key :
  0 ≤ max → run ls (new_pool max cfg f (HostThrottle.new hm rm)) = Some (o, p) →
  Z.of_nat (length (tasks p)) ≤ max ∧ NoDup (ids (tasks p)) ∧
  (∀ id, id ∈ in_flight p ↔ id ∈ ids (tasks p)) ∧
  count (probing key) (tasks p) ≤ clamp_permits hm ∧
  ∀ id, count (λ x, bool_decide (x = id)) (probes p) ≤ 1 + count (asks_once id) ls.
Proof. apply pool_bounded. Qed.

(** Every dispatch is accounted for exactly once. At any moment the targets
    dispatched so far are, with their multiplicities, those of the tasks still
    running and of the outcomes: a queued result, a counted drop, a throttled
    probe or a panic. [storage_dropped] counts the full queue, the target in
    flight and the saturated pool, and nothing else. *)
Theorem every_dispatch_accounted max cfg cap hm rm ls o p :
  run ls (new_pool max cfg (ResultFanout.new cap) (HostThrottle.new hm rm)) = Some (o, p) →
  concat (dispatched <$> ls) ≡ₚ (outcome_target <$> o) ++ ids (tasks p) ∧
  dropped_results p = count counted o mod (U64_MAX + 1).
Proof. intros Hr. by apply run_accounts in Hr. Qed.

(** A probe is throttled by its own organisation's probes of the same host
    and port and by nothing else: trying for a slot fails exactly when
    [per_host_max] of them are running, whatever the rest of the pool does. *)
Theorem throttled_by_own_probes max cfg f hm rm ls o p i r b s key o' p' :
  0 ≤ max → run ls (new_pool max cfg f (HostThrottle.new hm rm)) = Some (o, p) →
  tasks p !! i = Some r → phase r = Phase.HasSlot b s →
  CheckTask.host_key (task r) = Some key →
  step (TrySlot i) p = Some (o', p') →
  if count (probing key) (tasks p) =? clamp_permits hm
  then o' = [DroppedThrottled (CheckTask.id (task r))]
  else o' = [] ∧ count (probing key) (tasks p') = count (probing key) (tasks p) + 1.
Proof.
  intros Hmax Hr Hi Hph Hkey Hs.
  pose proof (run_ok _ _ _ _ Hr (new_pool_ok max cfg f hm rm Hmax)) as Hp.
  destruct (run_consts _ _ _ _ Hr) as [_ Hhm]. simpl in Hhm.
  assert (Hin : r ∈ tasks p) by by eapply list_elem_of_lookup_2.
  assert (Hse : Phase.semaphore (phase r) = Some s) by by rewrite Hph.
  assert (Hks : ArcMap.slots (HostThrottle.caps (host_throttle p)) !! key = Some s) by
    (apply (slots_tracked _ (ok_slots _ Hp)); by exists r).
  destruct (slots_add_up _ (ok_slots _ Hp) key s Hks) as (n & Hc & Hn & Hsum).
  rewrite (probing_permits p key s), <-Hhm, <-Hsum by done.
  simpl in Hs. rewrite Hi in Hs. simpl in Hs. rewrite Hph in Hs. injection Hs as Hs.
  unfold try_slot, HostThrottle.try_acquire, ArcMap.cell in Hs. rewrite Hc in Hs. simpl in Hs.
  unfold try_acquire_owned in Hs. destruct (0 <? n) eqn:Hpos; bool_cases; injection Hs as <- <-.
  - destruct (_ =? _) eqn:Heq; bool_cases; [lia|]. split; [done|].
    rewrite <-(probing_permits p key s) by done. simpl. rewrite (count_insert _ _ _ r) by done.
    destruct (slots_have_keys _ (ok_slots _ Hp) r s Hin Hse) as [_ Hrd].
    assert (probing key r = false) as -> by (unfold probing; rewrite Hph; apply andb_false_r).
    assert (probing key {| task := task r; phase := Phase.Probing b (Some s) |} = true) as ->
      by (unfold probing; simpl; by rewrite !bool_decide_true).
    lia.
  - destruct (_ =? _) eqn:Heq; bool_cases; [done|lia].
Qed.

(** A sweep never splits a host in two. Two tasks with the same breaker key
    hold the same breaker, two with the same host key the same semaphore,
    however many sweeps ran between them. *)
Theorem sweeps_never_split_a_host max cfg f hm rm ls o p r1 r2 :
  0 ≤ max → run ls (new_pool max cfg f (HostThrottle.new hm rm)) = Some (o, p) →
  r1 ∈ tasks p → r2 ∈ tasks p →
  (∀ b1 b2, CheckTask.breaker_key (task r1) = CheckTask.breaker_key (task r2) →
     Phase.breaker (phase r1) = Some b1 → Phase.breaker (phase r2) = Some b2 → b1 = b2) ∧
  (∀ s1 s2, CheckTask.host_key (task r1) = CheckTask.host_key (task r2) →
     Phase.semaphore (phase r1) = Some s1 → Phase.semaphore (phase r2) = Some s2 → s1 = s2).
Proof.
  intros Hmax Hr H1 H2.
  pose proof (run_ok _ _ _ _ Hr (new_pool_ok max cfg f hm rm Hmax)) as Hp. split.
  - intros b1 b2 Hk Hb1 Hb2. pose proof (breakers_tracked _ (ok_breakers _ Hp)) as Ht.
    assert (ArcMap.slots (breakers p) !! CheckTask.breaker_key (task r1) = Some b1) as E1 by
      (apply Ht; by exists r1).
    assert (ArcMap.slots (breakers p) !! CheckTask.breaker_key (task r2) = Some b2) as E2 by
      (apply Ht; by exists r2). congruence.
  - intros s1 s2 Hk Hs1 Hs2. pose proof (slots_tracked _ (ok_slots _ Hp)) as Ht.
    destruct (slots_have_keys _ (ok_slots _ Hp) r1 s1 H1 Hs1) as [Hne _].
    destruct (CheckTask.host_key (task r1)) as [key|] eqn:Hk1; [|done].
    assert (ArcMap.slots (HostThrottle.caps (host_throttle p)) !! key = Some s1) as E1 by
      (apply Ht; by exists r1).
    assert (ArcMap.slots (HostThrottle.caps (host_throttle p)) !! key = Some s2) as E2 by
      (apply Ht; exists r2; by rewrite <-Hk). congruence.
Qed.
End Invariant.

(** ** A pool at work *)
Module PoolSample.
#[local] Existing Instance plain_urls.
#[local] Existing Instance plain_names.

Definition row (id : Uuid) : Target.t := {|
  Target.id := id; Target.name := "api"; Target.interval := seconds 60; Target.enabled := true;
  Target.tags := []; Target.alerts := []; Target.alert_confirmations := 1;
  Target.notify_recovery := true; Target.renotify_interval_secs := 0;
  Target.region_policy := RegionIncidentPolicy.Any; Target.group_name := None;
  Target.owner_user_id := None; Target.created_at := 0; Target.updated_at := 0;
  Target.plan_hold_at := None |}.

Definition tcp (id : Uuid) : CheckTask.t := {|
  CheckTask.target := {| CheckedTarget.row := row id;
    CheckedTarget.check := CheckSpec.Tcp {| TcpCheck.host := "db.example.com";
      TcpCheck.port := 5432; TcpCheck.timeout := seconds 3 |} |};
  CheckTask.org_id := 7%N; CheckTask.host_key := Some (7%N, "db.example.com", 5432);
  CheckTask.breaker_key := "db.example.com"; CheckTask.rdap_tld := None |}.

Definition start : WorkerPool :=
  new_pool 2 sample (ResultFanout.new 4) (HostThrottle.new 1 1).

(** Two monitors of one host: the second finds its only slot taken. *)
Definition two_monitors : list label :=
  [Dispatch (tcp 1%N) 0 0; Dispatch (tcp 2%N) 0 0; FindBreaker 0; AskBreaker 0 5 0; FindSlot 0;
   TrySlot 0; Sweep (λ _, false); FindBreaker 1; AskBreaker 1 5 0; FindSlot 1].

Definition waiting : option (list outcome * WorkerPool) := run two_monitors start.

Definition waiting_pool : WorkerPool := match waiting with Some (_, p) => p | None => start end.
Lemma waiting_run : run two_monitors start = Some ([], waiting_pool).
Proof. vm_compute. reflexivity. Qed.
Definition second : Running := {| task := tcp 2%N; phase := Phase.HasSlot 0 0 |}.
Lemma second_waits : tasks waiting_pool !! 1%nat = Some second.
Proof. vm_compute. reflexivity. Qed.
Definition db : HostKey := (7%N, "db.example.com", 5432).

Lemma pool_limits_hold_witness :
  Z.of_nat (length (tasks waiting_pool)) ≤ 2 ∧
  count (probing db) (tasks waiting_pool) ≤ clamp_permits 1.
Proof.
  destruct (pool_limits_hold 2 sample (ResultFanout.new 4) 1 1 two_monitors [] waiting_pool db
    ltac:(lia) waiting_run) as (H1 & _ & _ & H2 & _).
  split; [exact H1|exact H2].
Defined.

(** A one-off check of a target that a scheduled task is probing. *)
Lemma one_off_probes_alongside :
  (λ '(_, p), probes p) <$> run (two_monitors ++ [OnceStart 1%N "db.example.com" false 6]) start = Some [1%N; 1%N].
Proof. vm_compute. reflexivity. Qed.

Lemma every_dispatch_accounted_witness :
  dropped_results waiting_pool = 0 ∧ [1%N; 2%N] ≡ₚ ids (tasks waiting_pool).
Proof.
  destruct (every_dispatch_accounted 2 sample 4 1 1 two_monitors [] waiting_pool waiting_run)
    as [H1 H2].
  split; [exact H2|exact H1].
Defined.

Lemma throttled_by_own_probes_witness :
  ∃ p', step (TrySlot 1) waiting_pool = Some ([DroppedThrottled 2%N], p').
Proof.
  assert (∃ o' p', step (TrySlot 1) waiting_pool = Some (o', p')) as (o' & p' & Hs) by
    (eexists _, _; vm_compute; reflexivity).
  pose proof (throttled_by_own_probes 2 sample (ResultFanout.new 4) 1 1 two_monitors [] waiting_pool
    1 second 0 0 db o' p' ltac:(lia) waiting_run second_waits eq_refl eq_refl Hs) as H.
  assert ((count (probing db) (tasks waiting_pool) =? clamp_permits 1) = true) as Hc by
    (vm_compute; reflexivity).
  rewrite Hc in H. exists p'. rewrite Hs, H. reflexivity.
Defined.

Definition first : Running := {| task := tcp 1%N; phase := Phase.Probing 0 (Some 0%nat) |}.

Lemma sweeps_never_split_a_host_witness :
  Phase.breaker (phase first) = Phase.breaker (phase second) ∧
  Phase.semaphore (phase first) = Phase.semaphore (phase second).
Proof.
  assert (first ∈ tasks waiting_pool) as H1 by
    (apply (list_elem_of_lookup_2 _ 0%nat); vm_compute; reflexivity).
  assert (second ∈ tasks waiting_pool) as H2 by exact (list_elem_of_lookup_2 _ _ _ second_waits).
  destruct (sweeps_never_split_a_host 2 sample (ResultFanout.new 4) 1 1
    two_monitors [] waiting_pool first second ltac:(lia) waiting_run H1 H2) as [Hb Hs].
  split; [exact (f_equal Some (Hb 0%nat 0%nat eq_refl eq_refl eq_refl))|].
  exact (f_equal Some (Hs 0%nat 0%nat eq_refl eq_refl eq_refl)).
Defined.
End PoolSample.
