(* ===== verification/Scheduler.v ===== *)
(** * The scheduler

    src/scheduler/registry.rs ([TargetRegistry], and the diff a refresh makes)
    and src/scheduler/runner.rs (the heap of pending fires, their generations,
    the driver loop and the refresher's backoff).

    [BinaryHeap<Reverse<Due>>] pops the least [Due] of a total order, so the heap
    is the list of its entries kept in that order. An [Instant] is in
    nanoseconds; [Instant] arithmetic that leaves its range panics and is not
    modelled. [DefaultHasher] is a parameter. The refresher's timer, the shutdown
    token and the metrics are left out: the driver reads a queue of diffs. *)

From S2P Require Import Prelude Text Domain Target CheckSpec Heartbeat.
From S2P Require Import Breaker HostThrottle Pool.

(** ** src/scheduler/registry.rs *)
Module ScheduledTarget.
Section ScheduledTarget.
Context `{UrlLibrary}.
Record t := {
  org_id : OrgId;
  target : CheckedTarget.t;
  host_key : option HostKey;
  breaker_key : string;
  rdap_tld : option string;
}.
Context `{Idna}.

Definition build (org : OrgId) (x : CheckedTarget.t) : t := {|
  org_id := org; target := x;
  host_key := key_for org (CheckedTarget.check x);
  breaker_key := host_for_spec (CheckedTarget.check x);
  rdap_tld := match CheckedTarget.check x with
              | CheckSpec.DomainExpiry d => HostThrottle.rdap_tld (DomainExpiryCheck.domain d)
              | _ => None
              end |}.

Definition id (x : t) : Uuid := Target.id (CheckedTarget.row (target x)).
Definition updated_at (x : t) : DateTime := Target.updated_at (CheckedTarget.row (target x)).
Definition interval (x : t) : Duration := Target.interval (CheckedTarget.row (target x)).
End ScheduledTarget.
End ScheduledTarget.

Module RegistryDiff.
Section RegistryDiff.
Context `{UrlLibrary}.
Record t := {
  added : list ScheduledTarget.t;
  updated : list ScheduledTarget.t;
  removed : list Uuid;
}.
Definition default : t := {| added := []; updated := []; removed := [] |}.
Definition is_empty (d : t) : bool :=
  match added d, updated d, removed d with [], [], [] => true | _, _, _ => false end.
End RegistryDiff.
End RegistryDiff.

Section Registry.
Context `{UrlLibrary, Idna}.

(** The targets of a [TargetRegistry]; its source answers each refresh. *)
Definition TargetRegistry : Type := gmap Uuid ScheduledTarget.t.

Definition registry_get (id : Uuid) (r : TargetRegistry) : option ScheduledTarget.t :=
  (r : gmap Uuid ScheduledTarget.t) !! id.

(** One row of the loop of [refresh]: the diff so far and the map. *)
Definition refresh_row (acc : RegistryDiff.t * gmap Uuid ScheduledTarget.t)
    (x : OrgId * CheckedTarget.t) : RegistryDiff.t * gmap Uuid ScheduledTarget.t :=
  let '(diff, m) := acc in
  let st := ScheduledTarget.build x.1 x.2 in
  let id := ScheduledTarget.id st in
  match m !! id with
  | Some existing =>
      if negb (ScheduledTarget.updated_at existing =? ScheduledTarget.updated_at st)
         || negb (ScheduledTarget.interval existing =? ScheduledTarget.interval st)
      then ({| RegistryDiff.added := RegistryDiff.added diff;
               RegistryDiff.updated := RegistryDiff.updated diff ++ [st];
               RegistryDiff.removed := RegistryDiff.removed diff |}, <[id := st]> m)
      else (diff, m)
  | None =>
      ({| RegistryDiff.added := RegistryDiff.added diff ++ [st];
          RegistryDiff.updated := RegistryDiff.updated diff;
          RegistryDiff.removed := RegistryDiff.removed diff |}, <[id := st]> m)
  end.

Definition row_id (x : OrgId * CheckedTarget.t) : Uuid := Target.id (CheckedTarget.row x.2).

(** [refresh]: the source failed, or listed [fresh]. *)
Definition refresh (listed : result (list (OrgId * CheckedTarget.t)))
    (m : gmap Uuid ScheduledTarget.t)
    : result RegistryDiff.t * gmap Uuid ScheduledTarget.t :=
  match listed with
  | Err e => (Err e, m)
  | Ok fresh =>
      let '(diff, m) := fold_left refresh_row fresh (RegistryDiff.default, m) in
      let seen := row_id <$> fresh in
      let removed := List.filter (λ id, negb (bool_decide (id ∈ seen))) (map_to_list m).*1 in
      (Ok {| RegistryDiff.added := RegistryDiff.added diff;
             RegistryDiff.updated := RegistryDiff.updated diff;
             RegistryDiff.removed := removed |},
       fold_left (λ m id, delete id m) removed m)
  end.
End Registry.

(** ** src/scheduler/runner.rs *)
Definition SWEEP_INTERVAL : Duration := seconds 30.
Definition REFRESH_BACKOFF_CAP_MULTIPLIER : Z := 10.
Definition INITIAL_PROBE_SPREAD : Duration := seconds 5.
Definition REFRESH_CHANNEL_BOUND : nat := 8.
Definition MILLIS : Z := 1000000.

(** The standard hasher's [finish] on an identifier, a [u64]. *)
Class IdHasher := { id_hash : Uuid → Z }.

Definition stagger_offset `{IdHasher} (id : Uuid) (interval : Duration) : Duration :=
  let interval_ms := interval / MILLIS mod (U64_MAX + 1) in
  if interval_ms =? 0 then 0 else id_hash id mod interval_ms * MILLIS.

Definition next_tick (sched : DateTime) (base : Duration) (now : DateTime) : DateTime :=
  let next := sched + base in
  if now <? next then next
  else
    let base_ns := Z.max base 1 in
    let behind_ns := Z.max (now - next) 0 in
    let skips := Z.min (behind_ns / base_ns + 1) U32_MAX in
    next + base * skips.

Definition backoff_delay_secs (base_secs consecutive_failures : Z) : Z :=
  let shift := Z.min (Z.max (consecutive_failures - 1) 0) 31 in
  let mult := Z.min (Z.shiftl 1 shift) REFRESH_BACKOFF_CAP_MULTIPLIER in
  sat_mul_u64 base_secs mult.

(** [handle_refresh_result]: the failures in a row and the delay of the reset. *)
Definition handle_refresh_result (base_secs : Z) (ok : bool) (consecutive_failures : Z)
    : Z * option Z :=
  if ok then (0, None)
  else
    let n := Z.min (consecutive_failures + 1) U32_MAX in
    (n, Some (backoff_delay_secs base_secs n)).

Module Due.
Record t := { at_ : DateTime; id : Uuid; seq : Z; first : bool }.
#[global] Instance eq_dec : EqDecision t.
Proof. solve_decision. Defined.

(** The derived order: the fields in turn, [false] before [true]. *)
Definition le (a b : t) : bool :=
  match Z.compare (at_ a) (at_ b) with
  | Lt => true
  | Gt => false
  | Eq =>
      match N.compare (id a) (id b) with
      | Lt => true
      | Gt => false
      | Eq =>
          match Z.compare (seq a) (seq b) with
          | Lt => true
          | Gt => false
          | Eq => implb (first a) (first b)
          end
      end
  end.
End Due.

(** [heap.push(Reverse(due))]. *)
Definition push_due (d : Due.t) (heap : list Due.t) : list Due.t := insert_by Due.le d heap.

Section Runner.
Context `{UrlLibrary, Idna, IdHasher}.

(** The state of the driver loop. *)
Record Driver := {
  heap : list Due.t;
  live : gmap Uuid Z;
  next_seq : Z;
  scheduled : nat;
}.
Definition idle : Driver := {| heap := []; live := ∅; next_seq := 0; scheduled := 0 |}.

Definition schedule (now : DateTime) (d : Driver) (st : ScheduledTarget.t) : Driver :=
  let id := ScheduledTarget.id st in
  let cap := Z.min INITIAL_PROBE_SPREAD (ScheduledTarget.interval st / 2) in {|
  heap := push_due {| Due.at_ := now + stagger_offset id cap; Due.id := id;
                      Due.seq := next_seq d; Due.first := true |} (heap d);
  live := <[id := next_seq d]> (live d);
  next_seq := (next_seq d + 1) mod (U64_MAX + 1);
  scheduled := scheduled d |}.

Definition apply_diff (now : DateTime) (diff : RegistryDiff.t) (d : Driver) : Driver :=
  let d := fold_left (schedule now) (RegistryDiff.added diff ++ RegistryDiff.updated diff) d in
  let alive := fold_left (λ m id, delete id m) (RegistryDiff.removed diff) (live d) in
  {| heap := heap d; live := alive; next_seq := next_seq d; scheduled := size alive |}.

(** One turn of the loop of [drain_due], on the popped entry [due]: the rest of
    the driver and the target to dispatch. *)
Definition fire (now : DateTime) (reg : gmap Uuid ScheduledTarget.t) (due : Due.t) (d : Driver)
    : option ScheduledTarget.t * Driver :=
  if negb (bool_decide (live d !! Due.id due = Some (Due.seq due))) then (None, d)
  else
    match reg !! Due.id due with
    | None =>
        (None, {| heap := heap d; live := delete (Due.id due) (live d);
                  next_seq := next_seq d; scheduled := scheduled d |})
    | Some st =>
        let base := ScheduledTarget.interval st in
        let anchor := if Due.first due then Due.at_ due + stagger_offset (Due.id due) base
                      else Due.at_ due in
        (Some st,
         {| heap := push_due {| Due.at_ := next_tick anchor base now; Due.id := Due.id due;
                                Due.seq := Due.seq due; Due.first := false |} (heap d);
            live := live d; next_seq := next_seq d; scheduled := scheduled d |})
    end.

(** [drain_due]: entries are popped while the earliest is due. *)
Fixpoint drain_loop (fuel : nat) (now : DateTime) (reg : gmap Uuid ScheduledTarget.t)
    (d : Driver) : list ScheduledTarget.t * Driver :=
  match fuel, heap d with
  | S fuel, due :: rest =>
      if Due.at_ due <=? now then
        let '(o, d) := fire now reg due {| heap := rest; live := live d;
                                           next_seq := next_seq d; scheduled := scheduled d |} in
        let '(fired, d) := drain_loop fuel now reg d in
        (match o with Some st => st :: fired | None => fired end, d)
      else ([], d)
  | _, _ => ([], d)
  end.

Definition drain_due (now : DateTime) (reg : gmap Uuid ScheduledTarget.t) (d : Driver)
    : list ScheduledTarget.t * Driver :=
  let '(fired, d) := drain_loop (length (heap d)) now reg d in
  (fired, {| heap := heap d; live := live d; next_seq := next_seq d;
             scheduled := size (live d) |}).

(** [dispatch]. *)
Definition check_task (st : ScheduledTarget.t) : CheckTask.t := {|
  CheckTask.target := ScheduledTarget.target st;
  CheckTask.org_id := ScheduledTarget.org_id st;
  CheckTask.host_key := ScheduledTarget.host_key st;
  CheckTask.breaker_key := ScheduledTarget.breaker_key st;
  CheckTask.rdap_tld := ScheduledTarget.rdap_tld st |}.

(** ** The scheduler at large: registry, queue of diffs, driver and pool *)
Record Scheduler := {
  registry : gmap Uuid ScheduledTarget.t;
  diffs : list RegistryDiff.t;
  driver : Driver;
  pool : WorkerPool;
}.

Inductive event :=
| Refreshed (listed : result (list (OrgId * CheckedTarget.t)))
| DiffReceived (now : DateTime)
| Woke (now clock_now clock_later : DateTime)
| Swept (rdap_held : nat → bool)
| PoolStep (l : label).

Definition set_pool (v : WorkerPool) (s : Scheduler) : Scheduler :=
  {| registry := registry s; diffs := diffs s; driver := driver s; pool := v |}.

Definition sched_step (e : event) (s : Scheduler) : option Scheduler :=
  match e with
  | Refreshed listed =>
      match refresh listed (registry s) with
      | (Ok diff, m) =>
          Some {| registry := m; diffs := diffs s ++ [diff]; driver := driver s; pool := pool s |}
      | (Err _, m) =>
          Some {| registry := m; diffs := diffs s; driver := driver s; pool := pool s |}
      end
  | DiffReceived now =>
      match diffs s with
      | [] => None
      | diff :: rest =>
          Some {| registry := registry s; diffs := rest;
                  driver := apply_diff now diff (driver s); pool := pool s |}
      end
  | Woke now clock_now clock_later =>
      let '(fired, d) := drain_due now (registry s) (driver s) in
      '(_, p) ← run ((λ st, Dispatch (check_task st) clock_now clock_later) <$> fired) (pool s);
      Some {| registry := registry s; diffs := diffs s; driver := d; pool := p |}
  | Swept rdap_held => '(_, p) ← step (Sweep rdap_held) (pool s); Some (set_pool p s)
  | PoolStep l => '(_, p) ← step l (pool s); Some (set_pool p s)
  end.

Fixpoint sched_run (es : list event) (s : Scheduler) : option Scheduler :=
  match es with
  | [] => Some s
  | e :: es => s ← sched_step e s; sched_run es s
  end.

Definition boot (p : WorkerPool) : Scheduler :=
  {| registry := ∅; diffs := []; driver := idle; pool := p |}.
End Runner.

(** ** The registry *)
Section RegistryFacts.
Context `{UrlLibrary, Idna}.
Implicit Types (m : gmap Uuid ScheduledTarget.t) (x : OrgId * CheckedTarget.t).
#[local] Arguments refresh_row : simpl never.

Definition built x : ScheduledTarget.t := ScheduledTarget.build x.1 x.2.

(** The row version a resident target is compared by. *)
Definition same_version (a b : ScheduledTarget.t) : bool :=
  (ScheduledTarget.updated_at a =? ScheduledTarget.updated_at b)
  && (ScheduledTarget.interval a =? ScheduledTarget.interval b).

(** What one listed row leaves at its id, and whether it is news. *)
Definition kept m x : ScheduledTarget.t :=
  match m !! row_id x with
  | Some e => if same_version e (built x) then e else built x
  | None => built x
  end.
Definition is_added m x : bool := is_none (m !! row_id x).
Definition is_updated m x : bool :=
  match m !! row_id x with Some e => negb (same_version e (built x)) | None => false end.

Lemma refresh_row_spec diff m x :
  refresh_row (diff, m) x =
    ({| RegistryDiff.added := RegistryDiff.added diff ++ (if is_added m x then [built x] else []);
        RegistryDiff.updated :=
          RegistryDiff.updated diff ++ (if is_updated m x then [built x] else []);
        RegistryDiff.removed := RegistryDiff.removed diff |},
     <[row_id x := kept m x]> m).
Proof.
  destruct diff as [a u r]. unfold refresh_row, is_added, is_updated, kept, same_version.
  change (ScheduledTarget.id (ScheduledTarget.build x.1 x.2)) with (row_id x).
  destruct (m !! row_id x) as [e|] eqn:He; simpl; [|by rewrite app_nil_r].
  rewrite negb_andb. change (ScheduledTarget.build x.1 x.2) with (built x).
  destruct (negb _ || negb _) eqn:Hv.
  - rewrite app_nil_r. destruct (_ =? _), (_ =? _); done.
  - rewrite !app_nil_r. destruct (_ =? _), (_ =? _); try done. simpl. by rewrite insert_id.
Qed.

(** The whole loop, for rows with distinct ids. *)
Lemma refresh_rows fresh diff m :
  NoDup (row_id <$> fresh) →
  let '(diff', m') := fold_left refresh_row fresh (diff, m) in
  RegistryDiff.added diff' = RegistryDiff.added diff ++ (built <$> List.filter (is_added m) fresh) ∧
  RegistryDiff.updated diff'
    = RegistryDiff.updated diff ++ (built <$> List.filter (is_updated m) fresh) ∧
  (∀ x, x ∈ fresh → m' !! row_id x = Some (kept m x)) ∧
  (∀ id, id ∉ row_id <$> fresh → m' !! id = m !! id).
Proof.
  revert diff m. induction fresh as [|x fresh IH]; intros diff m Hnd; simpl.
  { rewrite !app_nil_r. split_and!; try done. intros x Hx. by apply not_elem_of_nil in Hx. }
  apply NoDup_cons in Hnd as [Hx Hnd]. rewrite refresh_row_spec.
  set (diff1 := {| RegistryDiff.added := _ |}). set (m1 := <[row_id x := kept m x]> m).
  assert (Hne : ∀ y, y ∈ fresh → row_id y ≠ row_id x).
  { intros y Hy Heq. apply Hx. rewrite <-Heq. by apply list_elem_of_fmap_2. }
  assert (Hm1 : ∀ y, y ∈ fresh → m1 !! row_id y = m !! row_id y).
  { intros y Hy%Hne. unfold m1. by rewrite lookup_insert_ne. }
  specialize (IH diff1 m1 Hnd). destruct (fold_left _ fresh _) as [diff' m'].
  destruct IH as (Ha & Hu & Hk & Ho).
  rewrite (lfilter_ext (is_added m1) (is_added m)) in Ha by
    (intros y Hy; unfold is_added; by rewrite Hm1).
  rewrite (lfilter_ext (is_updated m1) (is_updated m)) in Hu by
    (intros y Hy; unfold is_updated; by rewrite Hm1).
  rewrite Ha, Hu. simpl. rewrite <-!(assoc_L (++)). split_and!.
  - destruct (is_added m x); done.
  - destruct (is_updated m x); done.
  - intros y [->|Hy]%elem_of_cons.
    + rewrite Ho by done. unfold m1. by rewrite lookup_insert_eq.
    + rewrite Hk by done. unfold kept. by rewrite Hm1.
  - intros id Hid. apply not_elem_of_cons in Hid as [? Hid]. rewrite Ho by done.
    unfold m1. by rewrite lookup_insert_ne.
Qed.

Lemma delete_all {V} (l : list Uuid) (m : gmap Uuid V) id :
  fold_left (λ (m : gmap Uuid V) id, delete id m) l m !! id
    = if bool_decide (id ∈ l) then None else m !! id.
Proof.
  revert m. induction l as [|i l IH]; intros m; simpl; [done|].
  rewrite IH. destruct (decide (i = id)) as [->|Hne].
  - rewrite lookup_delete_eq. rewrite (bool_decide_true (id ∈ id :: l)) by left.
    by destruct (bool_decide _).
  - rewrite lookup_delete_ne by done. erewrite bool_decide_ext; [done|]. set_solver.
Qed.

Lemma refresh_spec fresh m :
  NoDup (row_id <$> fresh) →
  (∀ e, refresh (Err e) m = (Err e, m)) ∧
  ∃ diff m', refresh (Ok fresh) m = (Ok diff, m') ∧
    RegistryDiff.added diff = built <$> List.filter (is_added m) fresh ∧
    RegistryDiff.updated diff = built <$> List.filter (is_updated m) fresh ∧
    (∀ id, id ∈ RegistryDiff.removed diff ↔ is_Some (m !! id) ∧ id ∉ row_id <$> fresh) ∧
    (∀ x, x ∈ fresh → m' !! row_id x = Some (kept m x)) ∧
    (∀ id, id ∉ row_id <$> fresh → m' !! id = None).
Proof.
  intros Hnd. split; [done|]. unfold refresh.
  pose proof (refresh_rows fresh RegistryDiff.default m Hnd) as Hrows.
  destruct (fold_left refresh_row fresh _) as [diff m1]. destruct Hrows as (Ha & Hu & Hk & Ho).
  set (removed := List.filter _ _).
  assert (Hrem : ∀ id, id ∈ removed ↔ is_Some (m !! id) ∧ id ∉ row_id <$> fresh).
  { intros id. unfold removed. rewrite elem_of_lfilter, negb_true_iff, bool_decide_eq_false.
    rewrite list_elem_of_fmap. split.
    - intros [([i v] & -> & Hin%elem_of_map_to_list) Hni]. simpl in *.
      rewrite Ho in Hin by done. rewrite Hin. eauto.
    - intros [[v Hv] Hni]. split; [|done]. exists (id, v). split; [done|].
      apply elem_of_map_to_list. by rewrite Ho. }
  eexists _, _. split; [reflexivity|]. simpl. split_and!; [done|done|done| |].
  - intros x Hx. rewrite delete_all, bool_decide_false; [by apply Hk|].
    rewrite Hrem. intros [_ Hni]. apply Hni. by apply list_elem_of_fmap_2.
  - intros id Hni. rewrite delete_all. case_bool_decide as Hin; [done|].
    rewrite Hrem in Hin. rewrite Ho by done. apply eq_None_not_Some. naive_solver.
Qed.

(** A refresh brings the registry to the listed rows. Ids no longer listed
    are gone and reported removed, new ones are there and reported added, and a
    resident target whose [updated_at] or interval differs is replaced and
    reported updated; any other keeps the copy it had. A listing that failed
    changes nothing. *)
Theorem refresh_is_an_exact_diff fresh m :
  NoDup (row_id <$> fresh) →
  (∀ e, refresh (Err e) m = (Err e, m)) ∧
  ∃ diff m', refresh (Ok fresh) m = (Ok diff, m') ∧
    RegistryDiff.added diff = built <$> List.filter (is_added m) fresh ∧
    RegistryDiff.updated diff = built <$> List.filter (is_updated m) fresh ∧
    (∀ id, id ∈ RegistryDiff.removed diff ↔ is_Some (m !! id) ∧ id ∉ row_id <$> fresh) ∧
    (∀ x, x ∈ fresh → m' !! row_id x = Some (kept m x)) ∧
    (∀ id, id ∉ row_id <$> fresh → m' !! id = None).
Proof. apply refresh_spec. Qed.

(** The registry holds the listed rows exactly when no resident target hides
    a change from its version: the copies differ from the source if and only if
    some listed row differs from the resident one in something other than its
    [updated_at] and interval. *)
Theorem refresh_trusts_the_version fresh m diff m' :
  NoDup (row_id <$> fresh) → refresh (Ok fresh) m = (Ok diff, m') →
  (∀ x, x ∈ fresh → m' !! row_id x = Some (built x)) ↔
  (∀ x e, x ∈ fresh → m !! row_id x = Some e → same_version e (built x) = true → e = built x).
Proof.
  intros Hnd Hr. destruct (refresh_spec fresh m Hnd) as [_ (d & m1 & Hr1 & _ & _ & _ & Hk & _)].
  rewrite Hr in Hr1. injection Hr1 as <- <-. split.
  - intros Hall x e Hx He Hv. specialize (Hall x Hx). rewrite Hk in Hall by done.
    unfold kept in Hall. rewrite He, Hv in Hall. by injection Hall.
  - intros Hall x Hx. rewrite Hk by done. unfold kept.
    destruct (m !! row_id x) as [e|] eqn:He; [|done].
    destruct (same_version e (built x)) eqn:Hv; [|done]. f_equal. eauto.
Qed.
End RegistryFacts.

(** ** Ticks *)
Lemma next_tick_spec sched base now :
  0 < base → now - (sched + base) < base * U32_MAX →
  now < next_tick sched base now ∧
  ∃ k, 1 ≤ k ∧ next_tick sched base now = sched + base * k ∧
    ∀ j, 1 ≤ j → now < sched + base * j → k ≤ j.
Proof.
  intros Hb Hlate. unfold next_tick. destruct (now <? sched + base) eqn:Hn; bool_cases.
  { split; [done|]. exists 1. split_and!; lia. }
  rewrite !Z.max_l by lia. set (behind := now - (sched + base)) in *.
  pose proof (Z.div_mod behind base ltac:(lia)) as Hdm.
  pose proof (Z.mod_pos_bound behind base ltac:(lia)) as Hmod.
  set (q := behind / base) in *.
  assert (0 ≤ q) by (apply Z.div_pos; lia).
  assert (q + 1 ≤ U32_MAX) by nia. rewrite Z.min_l by done.
  split; [nia|]. exists (q + 2). split_and!; [lia|lia|].
  intros j Hj Hlt. assert (behind < base * (j - 1)) by lia. nia.
Qed.

(** The next fire is the first point of the target's grid that is still to
    come. With a backlog of less than [u32::MAX] intervals it is strictly in the
    future, a whole number of intervals after the one that fired, and no such
    point before it is: missed fires are skipped, and the phase is kept. *)
Theorem next_tick_is_the_first_to_come sched base now :
  0 < base → now - (sched + base) < base * U32_MAX →
  now < next_tick sched base now ∧
  ∃ k, 1 ≤ k ∧ next_tick sched base now = sched + base * k ∧
    ∀ j, 1 ≤ j → now < sched + base * j → k ≤ j.
Proof. apply next_tick_spec. Qed.

Lemma next_tick_is_the_first_to_come_witness :
  35 < next_tick 0 10 35 ∧ next_tick 0 10 35 = 40.
Proof.
  destruct (next_tick_is_the_first_to_come 0 10 35 ltac:(lia) ltac:(unfold U32_MAX; lia)) as [H _].
  split; [exact H|reflexivity].
Defined.

(** The refresher backs off between failures: the delay doubles with each
    failure in a row, from the configured interval up to ten times it, where it
    stays; and a success forgets the failures. *)
Theorem refresh_backoff base n :
  0 ≤ base → base * 10 ≤ U64_MAX → 0 ≤ n < U32_MAX →
  handle_refresh_result base true n = (0, None) ∧
  handle_refresh_result base false n =
    (n + 1, Some (base * (if n <? 4 then 2 ^ n else 10))).
Proof.
  intros Hb Hmax Hn. split; [done|]. unfold handle_refresh_result.
  rewrite (Z.min_l (n + 1)) by lia. f_equal. f_equal.
  unfold backoff_delay_secs, sat_mul_u64, REFRESH_BACKOFF_CAP_MULTIPLIER.
  rewrite (Z.max_l (n + 1 - 1)) by lia. replace (n + 1 - 1) with n by lia.
  assert (Hm : Z.min (Z.shiftl 1 (Z.min n 31)) 10 = if n <? 4 then 2 ^ n else 10).
  { rewrite Z.shiftl_1_l. destruct (n <? 4) eqn:H4; bool_cases.
    - rewrite Z.min_l, Z.min_l; [done|lia|].
      rewrite Z.min_l by lia. assert (n = 0 ∨ n = 1 ∨ n = 2 ∨ n = 3) as Hcase by lia.
      destruct Hcase as [->|[->|[->| ->]]]; done.
    - apply Z.min_r. transitivity (2 ^ 4); [done|]. apply Z.pow_le_mono_r; lia. }
  rewrite Hm. apply Z.min_l.
  assert ((if n <? 4 then 2 ^ n else 10) ≤ 10) by (rewrite <-Hm; lia). nia.
Qed.

Lemma refresh_backoff_witness :
  handle_refresh_result 30 false 3 = (4, Some 240).
Proof.
  destruct (refresh_backoff 30 3 ltac:(lia) ltac:(unfold U64_MAX; lia) ltac:(unfold U32_MAX; lia))
    as [_ H].
  exact H.
Defined.

(** Offsets stay within their interval. *)
Lemma stagger_offset_bounds `{IdHasher} id interval :
  0 ≤ stagger_offset id interval ∧
  (0 < interval → stagger_offset id interval < interval ∨ stagger_offset id interval = 0).
Proof.
  unfold stagger_offset, MILLIS. set (ms := interval / 1000000 mod (U64_MAX + 1)).
  destruct (ms =? 0) eqn:Hms; bool_cases; [lia|].
  pose proof (Z.mod_pos_bound (interval / 1000000) (U64_MAX + 1) ltac:(done)).
  pose proof (Z.mod_pos_bound (id_hash id) ms ltac:(lia)).
  split; [nia|]. intros Hi. left.
  assert (0 ≤ interval / 1000000) by (apply Z.div_pos; lia).
  assert (ms ≤ interval / 1000000) by (subst ms; apply Z.mod_le; [done|done]).
  pose proof (Z.mul_div_le interval 1000000 ltac:(lia)). nia.
Qed.
