(* ===== verification/SchedulerDriver.v ===== *)
(** * The scheduler's driver

    Theorems about the driver of src/scheduler/runner.rs: what one drain fires
    and that it ends, that every live target has exactly one pending fire, that
    the registry and the driver agree once the diffs are applied, and that
    whatever the scheduler does is a run of the worker pool. *)

From S2P Require Import Prelude Text Domain Target CheckSpec Heartbeat.
From S2P Require Import Breaker HostThrottle Pool Scheduler.

(** ** The order of the heap *)
Section DueOrder.
Implicit Types (a b : Due.t).

Lemma due_le_total a b : Due.le a b = false → Due.le b a = true.
Proof.
  unfold Due.le. rewrite (Z.compare_antisym (Due.at_ a)), (N.compare_antisym (Due.id a)),
    (Z.compare_antisym (Due.seq a)).
  destruct (Z.compare (Due.at_ a) _), (N.compare (Due.id a) _), (Z.compare (Due.seq a) _);
    simpl; try done. by destruct (Due.first a), (Due.first b).
Qed.

Definition due_lt a b : Prop :=
  Due.at_ a < Due.at_ b ∨ Due.at_ a = Due.at_ b ∧
  ((Due.id a < Due.id b)%N ∨ Due.id a = Due.id b ∧
   (Due.seq a < Due.seq b ∨ Due.seq a = Due.seq b ∧ implb (Due.first a) (Due.first b) = true)).

Lemma due_le_spec a b : Due.le a b = true ↔ due_lt a b.
Proof.
  unfold Due.le, due_lt.
  destruct (Z.compare_spec (Due.at_ a) (Due.at_ b)); [|split; [left; lia|done]|split; [done|lia]].
  destruct (N.compare_spec (Due.id a) (Due.id b)); [|split; [right; split; [done|by left]|done]|].
  2: { split; [done|]. intros [?|[_ [?|[? _]]]]; lia. }
  destruct (Z.compare_spec (Due.seq a) (Due.seq b)).
  - split; [intros; right; split; [done|]; right; split; [done|]; right; done|].
    intros [?|[_ [?|[_ [?|[_ ?]]]]]]; [lia|lia|lia|done].
  - split; [intros; right; split; [done|]; right; split; [done|]; by left|done].
  - split; [done|]. intros [?|[_ [?|[_ [?|[? _]]]]]]; lia.
Qed.

Lemma due_le_trans a b c : Due.le a b = true → Due.le b c = true → Due.le a c = true.
Proof.
  rewrite !due_le_spec. unfold due_lt.
  intros [?|[? [?|[? [?|[? Hab]]]]]] [?|[? [?|[? [?|[? Hbc]]]]]]; try (left; lia);
    right; (split; [lia|]); try (left; lia); right; (split; [congruence|]); try (left; lia).
  right. split; [lia|]. destruct (Due.first a), (Due.first b), (Due.first c); done.
Qed.

Lemma due_le_at a b : Due.le a b = true → Due.at_ a ≤ Due.at_ b.
Proof. rewrite due_le_spec. unfold due_lt. lia. Qed.

Definition heap_sorted (h : list Due.t) : Prop := StronglySorted Due.le h.

Lemma push_sorted d h : heap_sorted h → heap_sorted (push_due d h).
Proof. apply insert_by_sorted; [apply due_le_total|apply due_le_trans]. Qed.

Lemma push_perm d h : push_due d h ≡ₚ d :: h.
Proof. apply insert_by_perm. Qed.

Lemma elem_of_push x d h : x ∈ push_due d h ↔ x = d ∨ x ∈ h.
Proof. rewrite push_perm. apply elem_of_cons. Qed.

(** Nothing is due when the earliest is not. *)
Lemma sorted_not_due d h now :
  heap_sorted (d :: h) → now < Due.at_ d → ∀ x, x ∈ d :: h → now < Due.at_ x.
Proof.
  intros Hs Hd x [->|Hx]%elem_of_cons; [done|].
  apply StronglySorted_inv in Hs as [_ Hall]. rewrite Forall_forall in Hall.
  specialize (Hall x Hx). apply Is_true_true, due_le_at in Hall. lia.
Qed.
End DueOrder.

(** ** One drain *)
Section Drain.
Context `{UrlLibrary, Idna, IdHasher}.
Implicit Types (d : Driver) (reg : gmap Uuid ScheduledTarget.t).

Definition is_due (now : DateTime) (e : Due.t) : bool := Due.at_ e <=? now.

(** An entry fires when its generation is live and its target registered. *)
Definition fires reg (alive : gmap Uuid Z) (e : Due.t) : option ScheduledTarget.t :=
  if bool_decide (alive !! Due.id e = Some (Due.seq e)) then reg !! Due.id e else None.

Definition next_due (now : DateTime) (st : ScheduledTarget.t) (e : Due.t) : Due.t := {|
  Due.at_ := next_tick (if Due.first e
                        then Due.at_ e + stagger_offset (Due.id e) (ScheduledTarget.interval st)
                        else Due.at_ e) (ScheduledTarget.interval st) now;
  Due.id := Due.id e; Due.seq := Due.seq e; Due.first := false |}.

(** Intervals are positive and no entry is [u32::MAX] of them late. *)
Definition on_time (now : DateTime) reg (h : list Due.t) : Prop :=
  ∀ e st, e ∈ h → Due.at_ e ≤ now → reg !! Due.id e = Some st →
    0 < ScheduledTarget.interval st ∧ now - Due.at_ e < ScheduledTarget.interval st * U32_MAX.

Lemma next_due_later now st e :
  0 < ScheduledTarget.interval st →
  now - Due.at_ e < ScheduledTarget.interval st * U32_MAX →
  now < Due.at_ (next_due now st e).
Proof.
  intros Hi Hl. simpl.
  destruct (stagger_offset_bounds (Due.id e) (ScheduledTarget.interval st)) as [Hs _].
  apply next_tick_spec; [done|]. destruct (Due.first e); lia.
Qed.

(** One turn, in terms of what it fires. *)
Lemma fire_spec now reg e d :
  let '(o, d') := fire now reg e d in
  o = fires reg (live d) e ∧
  heap d' = match fires reg (live d) e with
            | Some st => push_due (next_due now st e) (heap d)
            | None => heap d
            end ∧
  next_seq d' = next_seq d ∧
  live d' = if bool_decide (live d !! Due.id e = Some (Due.seq e)) && is_none (reg !! Due.id e)
            then delete (Due.id e) (live d) else live d.
Proof.
  unfold fire, fires, next_due. case_bool_decide as Hl; simpl; [|done].
  destruct (reg !! Due.id e) as [st|] eqn:Hr; simpl; done.
Qed.

Lemma fire_live now reg e d id :
  is_Some (reg !! id) → live (fire now reg e d).2 !! id = live d !! id.
Proof.
  intros [st Hst]. pose proof (fire_spec now reg e d) as Hf.
  destruct (fire now reg e d) as [o d']. destruct Hf as (_ & _ & _ & Hf). simpl. rewrite Hf.
  destruct (bool_decide _); simpl; [|done]. destruct (reg !! Due.id e) eqn:He; simpl; [done|].
  rewrite lookup_delete_ne; [done|]. congruence.
Qed.

Lemma fires_live reg alive alive' e :
  (∀ id, is_Some (reg !! id) → alive' !! id = alive !! id) →
  fires reg alive' e = fires reg alive e.
Proof.
  intros Hsame. unfold fires. destruct (reg !! Due.id e) as [st|] eqn:He.
  - rewrite Hsame by eauto. done.
  - by destruct (bool_decide _), (bool_decide _).
Qed.

(** What the due entries of a heap become. *)
Definition rescheduled (now : DateTime) reg (alive : gmap Uuid Z) (l : list Due.t) : list Due.t :=
  omap (λ e, (λ st, next_due now st e) <$> fires reg alive e) l.

Lemma drain_loop_spec fuel now reg d :
  heap_sorted (heap d) → on_time now reg (heap d) →
  (length (List.filter (is_due now) (heap d)) ≤ fuel)%nat →
  let '(fired, d') := drain_loop fuel now reg d in
  let due := List.filter (is_due now) (heap d) in
  fired = omap (fires reg (live d)) due ∧
  heap_sorted (heap d') ∧ (∀ e, e ∈ heap d' → now < Due.at_ e) ∧
  heap d' ≡ₚ List.filter (λ e, negb (is_due now e)) (heap d)
             ++ rescheduled now reg (live d) due ∧
  next_seq d' = next_seq d ∧
  (∀ id, is_Some (reg !! id) → live d' !! id = live d !! id) ∧
  (∀ id s, live d' !! id = Some s → live d !! id = Some s).
Proof.
  revert d. induction fuel as [|fuel IH]; intros d Hs Ht Hlen.
  { assert (List.filter (is_due now) (heap d) = []) as Hnil by
      (destruct (List.filter _ _); [done|simpl in Hlen; lia]).
    simpl. rewrite Hnil. simpl. split_and!; try done.
    - intros e He. assert (¬ is_due now e = true) as Hd.
      { intros Hd. assert (e ∈ List.filter (is_due now) (heap d)) as Hin by (by apply elem_of_lfilter).
        rewrite Hnil in Hin. by apply not_elem_of_nil in Hin. }
      unfold is_due in Hd. rewrite Z.leb_le in Hd. lia.
    - rewrite app_nil_r, lfilter_all; [done|]. intros e He.
      destruct (is_due now e) eqn:Hd; [|done].
      assert (e ∈ List.filter (is_due now) (heap d)) as Hin by (by apply elem_of_lfilter).
      rewrite Hnil in Hin. by apply not_elem_of_nil in Hin. }
  destruct d as [h alive nseq sch]. cbn [heap] in Hs, Ht, Hlen. destruct h as [|e rest]; simpl.
  { split_and!; try done. intros e He. by apply not_elem_of_nil in He. }
  fold (is_due now e). destruct (is_due now e) eqn:Hdue; simpl; last first.
  { assert (Hnone : ∀ x, x ∈ e :: rest → now < Due.at_ x).
    { apply sorted_not_due; [done|]. unfold is_due in Hdue. bool_cases. lia. }
    rewrite (lfilter_nil (is_due now) rest) by
      (intros x Hx; unfold is_due; apply Z.leb_gt, Hnone; by right).
    rewrite (lfilter_all _ rest) by
      (intros x Hx; unfold is_due; apply negb_true_iff, Z.leb_gt, Hnone; by right).
    simpl. by rewrite app_nil_r. }
  pose proof (StronglySorted_inv Hs) as [Hsr _].
  set (d0 := {| heap := rest; live := alive; next_seq := nseq; scheduled := sch |}).
  pose proof (fire_spec now reg e d0) as Hf. pose proof (fire_live now reg e d0) as Hl.
  destruct (fire now reg e d0) as [o d1]. simpl in Hf, Hl. destruct Hf as (-> & Hheap & Hseq & Hlive).
  assert (Hnext : ∀ st, fires reg alive e = Some st → is_due now (next_due now st e) = false).
  { intros st Hst. unfold is_due. apply Z.leb_gt. unfold fires in Hst.
    destruct (bool_decide _); [|done].
    destruct (Ht e st) as [? ?]; [by left|unfold is_due in Hdue; bool_cases; lia|done|].
    by apply next_due_later. }
  assert (Hrest : List.filter (is_due now) (heap d1) = List.filter (is_due now) rest).
  { rewrite Hheap. destruct (fires reg alive e) eqn:Hst; [|done]. by apply lfilter_insert_by, Hnext. }
  destruct (drain_loop fuel now reg d1) as [fired d'] eqn:Hd1.
  specialize (IH d1). rewrite Hd1, Hrest in IH. destruct IH as (-> & Hs' & Hlate & Hp & Hn & Hlv & Hsub).
  - rewrite Hheap. destruct (fires reg alive e); [by apply push_sorted|done].
  - intros x st Hx Hat Hreg. rewrite Hheap in Hx.
    destruct (fires reg alive e) as [st'|] eqn:Hst; [|apply (Ht x); [by right|done|done]].
    apply elem_of_push in Hx as [->|Hx]; [|apply (Ht x); [by right|done|done]].
    specialize (Hnext st' eq_refl). unfold is_due in Hnext. bool_cases. lia.
  - cbn [List.filter] in Hlen. rewrite Hdue in Hlen. simpl in Hlen. lia.
  - assert (Hext : ∀ l : list Due.t, omap (fires reg (live d1)) l = omap (fires reg alive) l).
    { intros l. apply omap_list_ext. intros x. by apply fires_live. }
    split_and!; try done.
    + rewrite Hext. simpl. by destruct (fires reg alive e).
    + etrans; [exact Hp|]. unfold rescheduled. simpl.
      assert (∀ l : list Due.t, omap (λ x, (λ st, next_due now st x) <$> fires reg (live d1) x) l
                 = omap (λ x, (λ st, next_due now st x) <$> fires reg alive x) l) as ->.
      { intros l. apply omap_list_ext. intros x. by rewrite (fires_live reg alive (live d1)). }
      rewrite Hheap. destruct (fires reg alive e) as [st|] eqn:Hst; simpl; [|done].
      rewrite (lfilter_perm _ _ _ (push_perm _ _)). simpl. rewrite (Hnext st eq_refl). simpl.
      by rewrite Permutation_middle.
    + by rewrite Hn, Hseq.
    + intros id Hid. by rewrite Hlv, Hl.
    + intros id s Hid%Hsub. rewrite Hlive in Hid. simpl in Hid.
      destruct (_ && _); [|done]. by apply lookup_delete_Some in Hid as [_ ?].
Qed.

(** A drain ends, having fired what was due. If no entry is more than
    [u32::MAX] intervals late, it dispatches, in the order of the heap, each due
    entry of a live generation whose target is still registered, once; it gives
    each of them one next fire; and then nothing that is due remains, so the
    loop of the source stops. Entries of older generations are only dropped, and
    no target that is registered loses its generation. *)
Theorem drain_fires_what_is_due now reg d :
  heap_sorted (heap d) → on_time now reg (heap d) →
  let '(fired, d') := drain_due now reg d in
  let due := List.filter (is_due now) (heap d) in
  fired = omap (fires reg (live d)) due ∧
  (∀ e, e ∈ heap d' → now < Due.at_ e) ∧
  heap d' ≡ₚ List.filter (λ e, negb (is_due now e)) (heap d)
             ++ rescheduled now reg (live d) due ∧
  (∀ id, is_Some (reg !! id) → live d' !! id = live d !! id).
Proof.
  intros Hs Ht. unfold drain_due.
  pose proof (drain_loop_spec (length (heap d)) now reg d Hs Ht (filter_length_le _ _)) as Hd.
  destruct (drain_loop _ now reg d) as [fired d'].
  destruct Hd as (? & _ & ? & ? & _ & ? & _). simpl. by split_and!.
Qed.
End Drain.

(** ** The driver's invariant *)
Section DriverInvariant.
Context `{UrlLibrary, Idna, IdHasher}.
Implicit Types (d : Driver) (reg : gmap Uuid ScheduledTarget.t).

(** The entries carry distinct generations, all handed out already, and every
    live generation has its entry. *)
Record driver_ok d : Prop := {
  d_sorted : heap_sorted (heap d);
  d_seqs : NoDup (Due.seq <$> heap d);
  d_below : ∀ e, e ∈ heap d → 0 ≤ Due.seq e < next_seq d;
  d_live : ∀ id s, live d !! id = Some s → ∃ e, e ∈ heap d ∧ Due.id e = id ∧ Due.seq e = s;
  d_next : 0 ≤ next_seq d ≤ U64_MAX;
}.

Lemma idle_ok : driver_ok idle.
Proof.
  split; simpl; [constructor|constructor| | |unfold U64_MAX; lia].
  - intros e He. by apply not_elem_of_nil in He.
  - intros id s Hl. by rewrite lookup_empty in Hl.
Qed.

Lemma push_seqs e h :
  NoDup (Due.seq <$> push_due e h) ↔ (Due.seq e ∉ (Due.seq <$> h)) ∧ NoDup (Due.seq <$> h).
Proof. rewrite (fmap_Permutation _ _ _ (push_perm e h)). csimpl. by rewrite NoDup_cons. Qed.

Lemma schedule_ok now d st :
  driver_ok d → next_seq d < U64_MAX →
  driver_ok (schedule now d st) ∧ next_seq (schedule now d st) = next_seq d + 1 ∧
  live (schedule now d st) = <[ScheduledTarget.id st := next_seq d]> (live d).
Proof.
  intros [Hs Hn Hb Hl Hx] Hmax. unfold schedule.
  assert ((next_seq d + 1) mod (U64_MAX + 1) = next_seq d + 1) as -> by (apply Z.mod_small; lia).
  split; [|done]. split; simpl.
  - by apply push_sorted.
  - apply push_seqs. split; [|done]. simpl. intros (e & Heq & He)%list_elem_of_fmap.
    apply Hb in He. lia.
  - intros e [->|He]%elem_of_push; simpl; [lia|]. apply Hb in He. lia.
  - intros id s Hid. apply lookup_insert_Some in Hid as [[<- <-]|[_ Hid]].
    + eexists. split; [apply elem_of_push; by left|done].
    + apply Hl in Hid as (e & He & ?). exists e. split; [apply elem_of_push; by right|done].
  - lia.
Qed.

(** Entries may be dropped from [live] at will. *)
Lemma driver_ok_sub d d' :
  heap d' = heap d → next_seq d' = next_seq d →
  (∀ id s, live d' !! id = Some s → live d !! id = Some s) → driver_ok d → driver_ok d'.
Proof. intros Eh En Hsub [Hs Hn Hb Hl Hx]. split; rewrite ?Eh, ?En; [done..| |done]. eauto. Qed.

Lemma schedule_all_ok now l d :
  driver_ok d → next_seq d + Z.of_nat (length l) ≤ U64_MAX →
  let d' := fold_left (schedule now) l d in
  driver_ok d' ∧ next_seq d' = next_seq d + Z.of_nat (length l) ∧
  ∀ id, is_Some (live d' !! id) ↔ is_Some (live d !! id) ∨ id ∈ ScheduledTarget.id <$> l.
Proof.
  revert d. induction l as [|st l IH]; intros d Hd Hmax.
  { simpl. split_and!; [done|lia|]. intros id. rewrite elem_of_nil. tauto. }
  cbn [length] in Hmax. destruct (schedule_ok now d st Hd ltac:(lia)) as (Hd1 & Hn1 & Hl1).
  cbn [fold_left]. destruct (IH (schedule now d st) Hd1 ltac:(lia)) as (Hd' & Hn' & Hl').
  split_and!; [done|cbn [length]; lia|]. intros id. rewrite Hl', Hl1. csimpl.
  rewrite elem_of_cons. destruct (decide (id = ScheduledTarget.id st)) as [->|Hne].
  - rewrite lookup_insert_eq. split; [auto|]. intros _. left. eauto.
  - rewrite lookup_insert_ne by done. naive_solver.
Qed.

Definition diff_rows (diff : RegistryDiff.t) : list ScheduledTarget.t :=
  RegistryDiff.added diff ++ RegistryDiff.updated diff.

Lemma apply_diff_ok now diff d :
  driver_ok d → next_seq d + Z.of_nat (length (diff_rows diff)) ≤ U64_MAX →
  driver_ok (apply_diff now diff d) ∧
  next_seq (apply_diff now diff d) = next_seq d + Z.of_nat (length (diff_rows diff)) ∧
  ∀ id, is_Some (live (apply_diff now diff d) !! id) ↔
    (id ∉ RegistryDiff.removed diff) ∧
    (is_Some (live d !! id) ∨ id ∈ ScheduledTarget.id <$> diff_rows diff).
Proof.
  intros Hd Hmax. destruct (schedule_all_ok now (diff_rows diff) d Hd Hmax) as (Hd' & Hn & Hl).
  unfold apply_diff. fold (diff_rows diff). split_and!; [|done|].
  - eapply (driver_ok_sub (fold_left (schedule now) (diff_rows diff) d)); [done|done| |done].
    intros id s. simpl. rewrite delete_all. by case_bool_decide.
  - intros id. simpl. rewrite delete_all. case_bool_decide as Hr.
    + split; [by intros []|naive_solver].
    + rewrite Hl. tauto.
Qed.

Lemma fire_ok now reg e rest alive nseq sch :
  driver_ok {| heap := e :: rest; live := alive; next_seq := nseq; scheduled := sch |} →
  driver_ok (fire now reg e {| heap := rest; live := alive; next_seq := nseq; scheduled := sch |}).2.
Proof.
  intros [Hs Hn Hb Hl Hx]. simpl in *. apply StronglySorted_inv in Hs as [Hs _].
  csimpl in Hn. apply NoDup_cons in Hn as [He Hn].
  assert (Hb' : ∀ x, x ∈ rest → 0 ≤ Due.seq x < nseq) by (intros x ?; apply Hb; by right).
  unfold fire. case_bool_decide as Hlive; simpl in Hlive |- *; last first.
  { split; simpl; try done. intros id s Hid. destruct (Hl id s Hid) as (x & Hin & Hi & Hse).
    apply elem_of_cons in Hin as [->|Hin]; [|by exists x]. by subst. }
  destruct (reg !! Due.id e) as [st|] eqn:Hr; split; simpl; try done.
  - by apply push_sorted.
  - apply push_seqs. by split.
  - intros x [->|Hin]%elem_of_push; [apply (Hb e); by left|by apply Hb'].
  - intros id s Hid. destruct (Hl id s Hid) as (x & Hin & Hi & Hse).
    apply elem_of_cons in Hin as [->|Hin].
    + eexists. split; [apply elem_of_push; by left|done].
    + exists x. split; [apply elem_of_push; by right|done].
  - intros id s Hid. apply lookup_delete_Some in Hid as [Hne Hid].
    destruct (Hl id s Hid) as (x & Hin & Hi & Hse).
    apply elem_of_cons in Hin as [->|Hin]; [done|by exists x].
Qed.

Lemma drain_loop_ok fuel now reg d : driver_ok d → driver_ok (drain_loop fuel now reg d).2.
Proof.
  revert d. induction fuel as [|fuel IH]; intros [h alive nseq sch] Hd; [done|].
  simpl. destruct h as [|e rest]; [done|]. destruct (Due.at_ e <=? now); [|done].
  apply (fire_ok now reg) in Hd. destruct (fire now reg e _) as [o d1]. simpl in Hd.
  apply IH in Hd. by destruct (drain_loop fuel now reg d1).
Qed.

Lemma drain_loop_live fuel now reg d :
  let d' := (drain_loop fuel now reg d).2 in
  next_seq d' = next_seq d ∧
  (∀ id, is_Some (reg !! id) → live d' !! id = live d !! id) ∧
  (∀ id s, live d' !! id = Some s → live d !! id = Some s).
Proof.
  revert d. induction fuel as [|fuel IH]; intros [h alive nseq sch]; [done|].
  simpl. destruct h as [|e rest]; [done|]. destruct (Due.at_ e <=? now); [|done].
  set (d0 := {| heap := rest; live := alive; next_seq := nseq; scheduled := sch |}).
  pose proof (fire_spec now reg e d0) as Hf. pose proof (λ id, fire_live now reg e d0 id) as Hl.
  destruct (fire now reg e d0) as [o d1]. simpl in Hf, Hl. destruct Hf as (_ & _ & Hseq & Hlive).
  specialize (IH d1). destruct (drain_loop fuel now reg d1) as [fired d']. simpl in *.
  destruct IH as (Hn & Hk & Hsub). split_and!; [congruence| |].
  - intros id Hid. by rewrite Hk, Hl.
  - intros id s Hid%Hsub. rewrite Hlive in Hid. destruct (_ && _); [|done].
    by apply lookup_delete_Some in Hid as [_ ?].
Qed.

Lemma drain_due_ok now reg d :
  driver_ok d →
  let d' := (drain_due now reg d).2 in
  driver_ok d' ∧ next_seq d' = next_seq d ∧
  (∀ id, is_Some (reg !! id) → live d' !! id = live d !! id) ∧
  (∀ id s, live d' !! id = Some s → live d !! id = Some s).
Proof.
  intros Hd. unfold drain_due.
  pose proof (drain_loop_ok (length (heap d)) now reg d Hd) as Hok.
  destruct (drain_loop_live (length (heap d)) now reg d) as (Hn & Hk & Hsub).
  destruct (drain_loop _ now reg d) as [fired d']. simpl in *. split_and!; try done.
  by apply (driver_ok_sub d').
Qed.
End DriverInvariant.

(** ** The whole scheduler *)
Section WholeScheduler.
Context `{UrlLibrary, Idna, IdHasher}.
Implicit Types (s : Scheduler) (reg : gmap Uuid ScheduledTarget.t).
#[local] Arguments refresh : simpl never.
#[local] Arguments step : simpl never.

(** A listing names each target once: [listed] is a query by primary key. *)
Definition well_listed (e : event) : Prop :=
  match e with Refreshed (Ok fresh) => NoDup (row_id <$> fresh) | _ => True end.

Definition listed_rows (e : event) : Z :=
  match e with Refreshed (Ok fresh) => Z.of_nat (length fresh) | _ => 0 end.

(** Whether a target is scheduled once the queued diffs are applied. *)
Definition settle (diff : RegistryDiff.t) (id : Uuid) (b : bool) : bool :=
  negb (bool_decide (id ∈ RegistryDiff.removed diff))
  && (b || bool_decide (id ∈ ScheduledTarget.id <$> diff_rows diff)).
Definition settled (qs : list RegistryDiff.t) (id : Uuid) (b : bool) : bool :=
  fold_left (λ b diff, settle diff id b) qs b.

Definition queued_rows (qs : list RegistryDiff.t) : Z :=
  sumZ ((λ diff, Z.of_nat (length (diff_rows diff))) <$> qs).

(** The invariant, after [n] rows were listed. *)
Record sched_ok (n : Z) s : Prop := {
  s_driver : driver_ok (driver s);
  s_rows : next_seq (driver s) + queued_rows (diffs s) ≤ n;
  s_agree : ∀ id, settled (diffs s) id (is_some (live (driver s) !! id))
                  = is_some (registry s !! id);
  s_ids : ∀ id st, registry s !! id = Some st → ScheduledTarget.id st = id;
}.

Lemma settled_mono qs id : settled qs id true = false → settled qs id false = false.
Proof.
  induction qs as [|diff qs IH]; simpl; [done|]. unfold settle.
  destruct (bool_decide (id ∈ RegistryDiff.removed diff)); simpl; [done|].
  destruct (bool_decide _); simpl; [done|]. exact IH.
Qed.

Lemma settled_snoc qs diff id b : settled (qs ++ [diff]) id b = settle diff id (settled qs id b).
Proof. unfold settled. by rewrite fold_left_app. Qed.

Lemma queued_rows_app qs1 qs2 : queued_rows (qs1 ++ qs2) = queued_rows qs1 + queued_rows qs2.
Proof. unfold queued_rows. by rewrite fmap_app, sumZ_app. Qed.

Lemma queued_rows_nonneg qs : 0 ≤ queued_rows qs.
Proof. apply sumZ_nonneg, Forall_fmap, Forall_true. intros diff. simpl. lia. Qed.

(** What a refresh queues matches what it does to the registry. *)
Lemma refresh_settles fresh reg diff reg' id :
  NoDup (row_id <$> fresh) → refresh (Ok fresh) reg = (Ok diff, reg') →
  settle diff id (is_some (reg !! id)) = is_some (reg' !! id).
Proof.
  intros Hnd Hr. destruct (refresh_spec fresh reg Hnd) as [_ (d & m & Hr' & Ha & Hu & Hrem & Hk & Ho)].
  rewrite Hr in Hr'. injection Hr' as <- <-. unfold settle, diff_rows. rewrite Ha, Hu.
  destruct (decide (id ∈ row_id <$> fresh)) as [Hin|Hni].
  - rewrite (bool_decide_false (id ∈ RegistryDiff.removed diff)) by (rewrite Hrem; naive_solver).
    simpl. apply list_elem_of_fmap in Hin as (x & -> & Hx). rewrite Hk by done. simpl.
    destruct (reg !! row_id x) as [e|] eqn:He; simpl; [done|]. apply bool_decide_true.
    rewrite fmap_app. apply elem_of_app. left. rewrite list_elem_of_fmap.
    exists (built x). split; [done|]. apply list_elem_of_fmap_2, elem_of_lfilter. split; [done|].
    unfold is_added. by rewrite He.
  - rewrite Ho by done. case_bool_decide as Hd; [done|]. simpl.
    destruct (reg !! id) as [e|] eqn:He; [exfalso; apply Hd, Hrem; eauto|]. simpl.
    apply bool_decide_false. rewrite <-fmap_app. intros (y & -> & Hy)%list_elem_of_fmap.
    apply list_elem_of_fmap in Hy as (x & -> & Hx). apply Hni.
    apply elem_of_app in Hx as [Hx|Hx]; apply elem_of_lfilter in Hx as [Hx _];
      exact (list_elem_of_fmap_2 row_id _ _ Hx).
Qed.

Lemma refresh_rows_bound fresh reg diff reg' :
  NoDup (row_id <$> fresh) → refresh (Ok fresh) reg = (Ok diff, reg') →
  (length (diff_rows diff) ≤ length fresh)%nat.
Proof.
  intros Hnd Hr. destruct (refresh_spec fresh reg Hnd) as [_ (d & m & Hr' & Ha & Hu & _)].
  rewrite Hr in Hr'. injection Hr' as <- <-. unfold diff_rows. rewrite Ha, Hu, length_app, !length_fmap.
  clear -fresh. induction fresh as [|x fresh IH]; simpl; [lia|].
  assert (is_added reg x && is_updated reg x = false) as Hx.
  { unfold is_added, is_updated. by destruct (reg !! row_id x). }
  destruct (is_added reg x), (is_updated reg x); simpl in *; try done; lia.
Qed.

Lemma refresh_ids fresh reg diff reg' :
  NoDup (row_id <$> fresh) → refresh (Ok fresh) reg = (Ok diff, reg') →
  (∀ id st, reg !! id = Some st → ScheduledTarget.id st = id) →
  ∀ id st, reg' !! id = Some st → ScheduledTarget.id st = id.
Proof.
  intros Hnd Hr Hids. destruct (refresh_spec fresh reg Hnd) as [_ (d & m & Hr' & _ & _ & _ & Hk & Ho)].
  rewrite Hr in Hr'. injection Hr' as <- <-. intros id st Hst.
  destruct (decide (id ∈ row_id <$> fresh)) as [Hin|Hni]; [|by rewrite Ho in Hst].
  apply list_elem_of_fmap in Hin as (x & -> & Hx). rewrite Hk in Hst by done. injection Hst as <-.
  unfold kept. destruct (reg !! row_id x) as [e|] eqn:He; [|done].
  destruct (same_version e (built x)); [by apply Hids|done].
Qed.

Lemma sched_step_ok n e s s' :
  well_listed e → n + listed_rows e ≤ U64_MAX → sched_ok n s → sched_step e s = Some s' →
  sched_ok (n + listed_rows e) s'.
Proof.
  intros Hw Hmax [Hd Hn Ha Hi] Hs. destruct e as [[fresh|er]|now|now c1 c2|f|l]; cbn [sched_step listed_rows] in Hs, Hmax |- *.
  - destruct (refresh (Ok fresh) (registry s)) as [o m] eqn:Hr.
    destruct (refresh_spec fresh (registry s) Hw) as [_ (diff & m' & Hr' & _)].
    rewrite Hr in Hr'. injection Hr' as -> ->. injection Hs as <-.
    pose proof (refresh_rows_bound _ _ _ _ Hw Hr). split; simpl; [done| | |].
    + rewrite queued_rows_app. unfold queued_rows at 2. simpl. lia.
    + intros id. rewrite settled_snoc, Ha.
      by eapply refresh_settles.
    + by eapply refresh_ids.
  - injection Hs as <-. rewrite Z.add_0_r. by split.
  - rewrite Z.add_0_r in *. destruct (diffs s) as [|diff rest] eqn:Hq; [done|]. injection Hs as <-.
    pose proof (queued_rows_nonneg rest).
    change (queued_rows (diff :: rest)) with
      (Z.of_nat (length (diff_rows diff)) + queued_rows rest) in Hn.
    destruct (apply_diff_ok now diff (driver s) Hd ltac:(lia)) as (Hd' & Hn' & Hl).
    split; cbn [driver diffs registry]; [done|lia| |done]. intros id. rewrite <-Ha.
    cbn [settled fold_left]. unfold settled. f_equal. unfold settle.
    destruct (bool_decide_reflect (id ∈ RegistryDiff.removed diff)); cbn [negb andb].
    + apply not_true_iff_false. rewrite is_some_true, Hl. tauto.
    + apply eq_bool_prop_intro. rewrite !Is_true_true, is_some_true, Hl, orb_true_iff,
        is_some_true, bool_decide_eq_true. tauto.
  - rewrite Z.add_0_r in *. destruct (drain_due_ok now (registry s) (driver s) Hd) as (Hd' & Hn' & Hk & Hsub).
    destruct (drain_due now (registry s) (driver s)) as [fired d']. simpl in *.
    destruct (run _ (pool s)) as [[o q]|]; [|done]. injection Hs as <-.
    split; simpl; [done|lia| |done]. intros id. rewrite <-Ha.
    destruct (registry s !! id) as [st|] eqn:Hr; [by rewrite Hk by eauto|].
    destruct (live d' !! id) as [g|] eqn:Hg; [by rewrite (Hsub _ _ Hg)|].
    destruct (live (driver s) !! id) as [g|] eqn:Hg'; [|done].
    specialize (Ha id). rewrite Hg', Hr in Ha. cbn [is_some] in Ha |- *. rewrite Ha. by apply settled_mono.
  - rewrite Z.add_0_r. destruct (step (Sweep f) (pool s)) as [[o q]|]; [|done]. injection Hs as <-. by split; simpl.
  - rewrite Z.add_0_r. destruct (step l (pool s)) as [[o q]|]; [|done]. injection Hs as <-. by split; simpl.
Qed.

Lemma listed_rows_nonneg es : 0 ≤ sumZ (listed_rows <$> es).
Proof.
  apply sumZ_nonneg, Forall_fmap, Forall_true. intros [[]| | | |]; simpl; lia.
Qed.

Lemma sched_run_ok es n s s' :
  Forall well_listed es → n + sumZ (listed_rows <$> es) ≤ U64_MAX → sched_ok n s →
  sched_run es s = Some s' → sched_ok (n + sumZ (listed_rows <$> es)) s'.
Proof.
  revert n s. induction es as [|e es IH]; intros n s Hw Hmax Hok Hs.
  { simpl in *. injection Hs as <-. by rewrite Z.add_0_r. }
  apply Forall_cons in Hw as [He Hw]. csimpl in Hmax. pose proof (listed_rows_nonneg es). simpl in Hs.
  destruct (sched_step e s) as [s1|] eqn:Hs1; [|done].
  pose proof (sched_step_ok n e s s1 He ltac:(lia) Hok Hs1) as Hok1.
  csimpl. rewrite Z.add_assoc. apply (IH _ s1); [done|lia|done|done].
Qed.

Lemma boot_ok p : sched_ok 0 (boot p).
Proof.
  split; simpl; [apply idle_ok|done| |].
  - intros id. by rewrite !lookup_empty.
  - intros id st Hst. by rewrite lookup_empty in Hst.
Qed.

Definition entry_of (id : Uuid) (g : Z) (e : Due.t) : bool :=
  bool_decide (Due.id e = id) && (Due.seq e =? g).

Lemma one_entry d id g : driver_ok d → live d !! id = Some g → count (entry_of id g) (heap d) = 1.
Proof.
  intros [_ Hnd _ Hl _] Hg. apply Hl in Hg as (e & He & <- & <-).
  apply list_elem_of_split in He as (h1 & h2 & Heq). rewrite Heq in Hnd |- *.
  rewrite fmap_app in Hnd. csimpl in Hnd. apply NoDup_app in Hnd as (_ & Hdis & Hnd).
  apply NoDup_cons in Hnd as [Hni _]. rewrite count_app, count_cons.
  assert (entry_of (Due.id e) (Due.seq e) e = true) as ->.
  { unfold entry_of. rewrite bool_decide_true by done. by rewrite Z.eqb_refl. }
  assert (Hother : ∀ x, Due.seq x ≠ Due.seq e → entry_of (Due.id e) (Due.seq e) x = false).
  { intros x Hx. unfold entry_of. apply andb_false_iff. right. by apply Z.eqb_neq. }
  rewrite !count_none; [done| |]; apply Forall_forall; intros x Hx; apply Hother; intros Heqs.
  - apply Hni. rewrite <-Heqs. by apply list_elem_of_fmap_2.
  - eapply Hdis; [by apply list_elem_of_fmap_2|]. rewrite Heqs. by left.
Qed.

(** What a wake-up does with the entries of a well-formed driver: it fires those of a
    live generation that are due, once per target, and puts back no other. *)
Lemma drain_due_generations now reg d :
  driver_ok d → (∀ id st, reg !! id = Some st → ScheduledTarget.id st = id) → on_time now reg (heap d) →
  let '(fired, d') := drain_due now reg d in
  NoDup (ScheduledTarget.id <$> fired) ∧
  (∀ st, st ∈ fired ↔ ∃ e, e ∈ heap d ∧ Due.at_ e ≤ now ∧ live d !! Due.id e = Some (Due.seq e) ∧
     reg !! Due.id e = Some st) ∧
  (∀ e, e ∈ heap d' → now < Due.at_ e ∧
     (live d' !! Due.id e ≠ Some (Due.seq e) → e ∈ heap d)).
Proof.
  intros [Hs Hnd _ _ _] Hids Ht. unfold drain_due.
  pose proof (drain_loop_spec (length (heap d)) now reg d Hs Ht (filter_length_le _ _)) as Hd.
  destruct (drain_loop _ now reg d) as [fired d']. destruct Hd as (-> & _ & Hlate & Hp & _ & Hlive & Hsub). simpl.
  assert (Hfires : ∀ e st, fires reg (live d) e = Some st →
    live d !! Due.id e = Some (Due.seq e) ∧ reg !! Due.id e = Some st).
  { unfold fires. intros e st. by case_bool_decide. }
  split_and!.
  - assert (∀ l : list Due.t, NoDup (Due.seq <$> l) → NoDup (ScheduledTarget.id <$> omap (fires reg (live d)) l)) as Hd.
    { induction l as [|e l IH]; intros Hl; [constructor|]. csimpl in Hl. apply NoDup_cons in Hl as [He Hl]. simpl.
      destruct (fires reg (live d) e) as [st|] eqn:Hst; [|by apply IH]. csimpl. apply NoDup_cons. split; [|by apply IH].
      apply Hfires in Hst as [Hg Hst]. intros (st' & Heq & Hin)%list_elem_of_fmap. apply He.
      apply list_elem_of_omap in Hin as (e' & He' & [Hg' Hst']%Hfires).
      apply list_elem_of_fmap. exists e'. split; [|done].
      rewrite (Hids _ _ Hst), (Hids _ _ Hst') in Heq. rewrite Heq in Hg. congruence. }
    apply Hd. eapply sublist_NoDup; [exact Hnd|]. apply fmap_sublist. generalize (heap d). intros h.
    induction h as [|e h IH]; simpl; [constructor|]. destruct (is_due now e); by constructor.
  - intros st. rewrite list_elem_of_omap. split.
    + intros (e & [He Hdue]%elem_of_lfilter & [Hg Hst]%Hfires). exists e. unfold is_due in Hdue. bool_cases. done.
    + intros (e & He & Hdue & Hg & Hst). exists e. split; [apply elem_of_lfilter; split; [done|unfold is_due; lia]|].
      unfold fires. by rewrite bool_decide_true.
  - intros e He. split; [by apply Hlate|]. intros Hold. rewrite Hp in He.
    apply elem_of_app in He as [[He _]%elem_of_lfilter|He]; [done|].
    apply list_elem_of_omap in He as (e0 & _ & (st & [Hg Hst]%Hfires & ->)%fmap_Some). destruct Hold. simpl.
    rewrite Hlive; [done|by exists st].
Qed.

(** C30: no monitor falls off the schedule, and none is driven twice. Whatever the
    refreshes (fewer than 2^64 rows listed in all), the diffs received, the wake-ups and
    the pool do: once the queued diffs are applied the driver's live targets are
    exactly the registered ones; each live target has exactly one pending entry of its
    current generation; and a wake-up, when no entry is [u32::MAX] intervals late,
    dispatches each target at most once, namely those registered whose entry of the
    current generation is due, and leaves nothing due: entries of a superseded
    generation are never fired and never put back. *)
Theorem registered_means_scheduled_once es p s :
  Forall well_listed es → sumZ (listed_rows <$> es) ≤ U64_MAX →
  sched_run es (boot p) = Some s →
  (∀ id, settled (diffs s) id (is_some (live (driver s) !! id)) = is_some (registry s !! id)) ∧
  (diffs s = [] → ∀ id, is_Some (live (driver s) !! id) ↔ is_Some (registry s !! id)) ∧
  (∀ id g, live (driver s) !! id = Some g → count (entry_of id g) (heap (driver s)) = 1) ∧
  (∀ now, on_time now (registry s) (heap (driver s)) →
     let '(fired, d') := drain_due now (registry s) (driver s) in
     NoDup (ScheduledTarget.id <$> fired) ∧
     (∀ st, st ∈ fired ↔ ∃ e, e ∈ heap (driver s) ∧ Due.at_ e ≤ now ∧
        live (driver s) !! Due.id e = Some (Due.seq e) ∧ registry s !! Due.id e = Some st) ∧
     (∀ e, e ∈ heap d' → now < Due.at_ e ∧
        (live d' !! Due.id e ≠ Some (Due.seq e) → e ∈ heap (driver s)))).
Proof.
  intros Hw Hmax Hs. pose proof (sched_run_ok es 0 _ _ Hw Hmax (boot_ok p) Hs) as [Hd _ Ha Hids].
  split_and!; [done| |intros id g; by apply one_entry|intros now; by apply drain_due_generations].
  intros Hq id. specialize (Ha id). rewrite Hq in Ha. simpl in Ha.
  by rewrite <-!is_some_true, Ha.
Qed.

(** ** What reaches the pool *)
Definition dispatch_free (e : event) : Prop :=
  match e with PoolStep (Dispatch _ _ _) => False | _ => True end.

Definition listing (e : event) : list (OrgId * CheckedTarget.t) :=
  match e with Refreshed (Ok fresh) => fresh | _ => [] end.

Definition came_from (rows : list (OrgId * CheckedTarget.t)) reg : Prop :=
  ∀ id st, reg !! id = Some st → ∃ x, x ∈ rows ∧ st = built x.

Lemma refresh_rows_came_from rows l diff m :
  (∀ x, x ∈ l → x ∈ rows) → came_from rows m →
  came_from rows (fold_left refresh_row l (diff, m)).2.
Proof.
  revert diff m. induction l as [|x l IH]; intros diff m Hin Hm; [done|]. cbn [fold_left].
  rewrite refresh_row_spec. apply IH; [intros y Hy; apply Hin; by right|].
  assert (x ∈ rows) by (apply Hin; by left).
  intros id st [[<- <-]|[_ Hst]]%lookup_insert_Some; [|by eapply Hm]. unfold kept.
  destruct (m !! row_id x) as [e|] eqn:He; [|by exists x].
  destruct (same_version e (built x)); [by eapply Hm|by exists x].
Qed.

Lemma refresh_came_from fresh reg rows :
  came_from rows reg → came_from (rows ++ fresh) (refresh (Ok fresh) reg).2.
Proof.
  intros Hc. unfold refresh.
  assert (came_from (rows ++ fresh) (fold_left refresh_row fresh (RegistryDiff.default, reg)).2) as Hr.
  { apply refresh_rows_came_from; [intros x Hx; apply elem_of_app; by right|].
    intros i t Ht. apply Hc in Ht as (x & ? & ?). exists x. split; [|done].
    apply elem_of_app. by left. }
  destruct (fold_left refresh_row fresh _) as [diff m]. simpl in *.
  intros id st. rewrite delete_all. case_bool_decide; [done|]. apply Hr.
Qed.

Lemma drain_loop_fired fuel now reg d st :
  st ∈ (drain_loop fuel now reg d).1 → ∃ id, reg !! id = Some st.
Proof.
  revert d. induction fuel as [|fuel IH]; intros [h alive nseq sch]; simpl; [by intros ?%not_elem_of_nil|].
  destruct h as [|e rest]; [by intros ?%not_elem_of_nil|].
  destruct (Due.at_ e <=? now); [|by intros ?%not_elem_of_nil].
  pose proof (fire_spec now reg e {| heap := rest; live := alive; next_seq := nseq; scheduled := sch |}) as Hf.
  destruct (fire now reg e _) as [o d1]. destruct Hf as [-> _]. specialize (IH d1).
  destruct (drain_loop fuel now reg d1) as [fired d']. simpl in *. unfold fires.
  case_bool_decide; [|done]. destruct (reg !! Due.id e) as [st'|] eqn:He; [|done].
  intros [->|Hst]%elem_of_cons; eauto.
Qed.

Lemma run_app ls1 ls2 (p : WorkerPool) o1 p1 o2 p2 :
  run ls1 p = Some (o1, p1) → run ls2 p1 = Some (o2, p2) → run (ls1 ++ ls2) p = Some (o1 ++ o2, p2).
Proof.
  revert p o1. induction ls1 as [|l ls1 IH]; intros p o1 Hr1 Hr2; simpl in *.
  { by injection Hr1 as <- <-. }
  destruct (step l p) as [[o q]|]; simpl in *; [|done].
  destruct (run ls1 q) as [[o' q']|] eqn:Hr; simpl in *; [|done]. injection Hr1 as <- <-.
  rewrite (IH q o' Hr Hr2). simpl. by rewrite (assoc_L (++)).
Qed.

Definition genuine (rows : list (OrgId * CheckedTarget.t)) (l : label) : Prop :=
  match l with Dispatch t _ _ => ∃ x, x ∈ rows ∧ t = check_task (built x) | _ => True end.

Lemma sched_step_runs e s s' rows :
  dispatch_free e → came_from rows (registry s) → sched_step e s = Some s' →
  came_from (rows ++ listing e) (registry s') ∧
  ∃ ls o, run ls (pool s) = Some (o, pool s') ∧ Forall (genuine (rows ++ listing e)) ls.
Proof.
  intros Hf Hc Hs.
  destruct e as [[fresh|er]|now|now c1 c2|f|l];
    cbn [sched_step listing] in Hs |- *; rewrite ?app_nil_r.
  - pose proof (refresh_came_from fresh (registry s) rows Hc) as Hc'.
    destruct (refresh (Ok fresh) (registry s)) as [[diff|er] m]; injection Hs as <-; simpl in *;
      (split; [done|exists [], []; split; [done|constructor]]).
  - injection Hs as <-. split; [done|]. exists [], []. split; [done|constructor].
  - destruct (diffs s) as [|diff rest]; [done|]. injection Hs as <-. split; [done|].
    exists [], []. split; [done|constructor].
  - unfold drain_due in Hs.
    pose proof (drain_loop_fired (length (heap (driver s))) now (registry s) (driver s)) as Hfi.
    destruct (drain_loop _ now (registry s) (driver s)) as [fired d']. simpl in *.
    destruct (run _ (pool s)) as [[o q]|] eqn:Hr; [|done]. injection Hs as <-. split; [done|].
    eexists _, _. split; [exact Hr|]. apply Forall_fmap, Forall_forall. intros st Hst.
    apply Hfi in Hst as [id Hst]. apply Hc in Hst as (x & Hx & ->). simpl. eauto.
  - destruct (step (Sweep f) (pool s)) as [[o q]|] eqn:Hr; [|done]. injection Hs as <-. split; [done|].
    exists [Sweep f], (o ++ []). cbn [run]. rewrite Hr. split; [done|]. by constructor.
  - destruct (step l (pool s)) as [[o q]|] eqn:Hr; [|done]. injection Hs as <-. split; [done|].
    exists [l], (o ++ []). cbn [run]. rewrite Hr. split; [done|]. constructor; [|constructor]. by destruct l.
Qed.

Lemma genuine_app rows rows' l : genuine rows l → genuine (rows ++ rows') l.
Proof.
  destruct l; simpl; try done. intros (x & Hx & ->). exists x. split; [|done].
  apply elem_of_app. by left.
Qed.

Lemma sched_run_runs es s s' rows :
  Forall dispatch_free es → came_from rows (registry s) → sched_run es s = Some s' →
  ∃ ls o, run ls (pool s) = Some (o, pool s') ∧ Forall (genuine (rows ++ concat (listing <$> es))) ls.
Proof.
  revert s rows. induction es as [|e es IH]; intros s rows Hf Hc Hs.
  { injection Hs as <-. exists [], []. split; [done|constructor]. }
  apply Forall_cons in Hf as [He Hf]. simpl in Hs.
  destruct (sched_step e s) as [s1|] eqn:Hs1; [|done].
  destruct (sched_step_runs e s s1 rows He Hc Hs1) as (Hc1 & ls1 & o1 & Hr1 & Hg1).
  destruct (IH s1 _ Hf Hc1 Hs) as (ls2 & o2 & Hr2 & Hg2).
  exists (ls1 ++ ls2), (o1 ++ o2). split; [by eapply run_app|]. csimpl. rewrite (assoc_L (++)).
  apply Forall_app. split; [|done]. eapply Forall_impl; [exact Hg1|]. intros l. apply genuine_app.
Qed.

(** A task with the keys of its own target, as one of [rows] lists it. *)
Definition own_keys (rows : list (OrgId * CheckedTarget.t)) (t : CheckTask.t) : Prop :=
  ∃ org x, (org, x) ∈ rows ∧ CheckTask.target t = x ∧ CheckTask.org_id t = org ∧
    CheckTask.host_key t = key_for org (CheckedTarget.check x) ∧
    CheckTask.breaker_key t = host_for_spec (CheckedTarget.check x) ∧
    CheckTask.rdap_tld t = match CheckedTarget.check x with
                           | CheckSpec.DomainExpiry d => HostThrottle.rdap_tld (DomainExpiryCheck.domain d)
                           | _ => None
                           end.

(** A probe against the host and port that its target's own check names. *)
Definition probes_host (key : HostKey) (r : Running) : bool :=
  is_probing r && bool_decide (key_for (CheckTask.org_id (task r)) (CheckedTarget.check (CheckTask.target (task r))) = Some key).

Lemma own_keys_probing rows key r : own_keys rows (task r) → probing key r = probes_host key r.
Proof.
  intros (org & x & _ & <- & <- & Hk & _ & Hr). unfold probing, probes_host. rewrite Hk, Hr.
  destruct (CheckedTarget.check (CheckTask.target (task r))) eqn:E; unfold is_probing; try (by rewrite andb_true_r, andb_comm).
  by rewrite bool_decide_false, andb_false_r.
Qed.

(** C32: what the scheduler makes the pool run. Under any history of a scheduler over a
    new pool, every task that runs is for a target some refresh listed, under the
    organisation it was listed for, and carries the throttle key, the breaker key and
    the registry's domain key of that target's own check; so the pool's limits hold of
    the targets themselves: no more tasks run than the pool has permits, no two are for
    the same target, and no more probe the host and port their checks name, for one
    organisation, than the throttle allows. *)
Theorem scheduler_runs_the_pool es max cfg f hm rm s key :
  0 ≤ max → Forall dispatch_free es → sched_run es (boot (new_pool max cfg f (HostThrottle.new hm rm))) = Some s →
  (∀ r, r ∈ tasks (pool s) → own_keys (concat (listing <$> es)) (task r)) ∧
  Z.of_nat (length (tasks (pool s))) ≤ max ∧ NoDup (ids (tasks (pool s))) ∧
  count (probes_host key) (tasks (pool s)) ≤ clamp_permits hm.
Proof.
  intros Hmax Hf Hs.
  destruct (sched_run_runs es (boot (new_pool max cfg f (HostThrottle.new hm rm))) s [] Hf)
    as (ls & o & Hr & Hg); [|exact Hs|].
  { intros id st Hst. simpl in Hst. by rewrite lookup_empty in Hst. }
  assert (∀ r, r ∈ tasks (pool s) → own_keys (concat (listing <$> es)) (task r)) as Hown.
  { intros r Hin. destruct (run_tasks _ _ _ _ _ Hr Hin) as [(r0 & Hr0 & _)|(now & later & Hl)].
    - simpl in Hr0. by apply elem_of_nil in Hr0.
    - rewrite Forall_forall in Hg. destruct (Hg _ Hl) as ([org x] & Hx & ->). exists org, x. by split_and!. }
  destruct (pool_bounded max cfg f hm rm ls o (pool s) key Hmax Hr) as (Hlen & Hnd & _ & Hthrottle & _).
  split_and!; [done..|]. rewrite <-(count_ext_in (probing key)); [done|].
  intros r Hin. eapply own_keys_probing, Hown, Hin.
Qed.
End WholeScheduler.

(** ** A small history *)
Module SchedulerSample.
#[local] Existing Instance plain_urls.
#[local] Existing Instance plain_names.
#[local] Instance plain_hash : IdHasher := { id_hash := Z.of_N }.
#[local] Arguments refresh_row : simpl never.

Definition tcp_row (id : Uuid) (host : string) : OrgId * CheckedTarget.t :=
  (7%N, {| CheckedTarget.row := PoolSample.row id;
           CheckedTarget.check := CheckSpec.Tcp {| TcpCheck.host := host;
             TcpCheck.port := 5432; TcpCheck.timeout := seconds 3 |} |}).

Definition first_list := [tcp_row 1%N "db.example.com"; tcp_row 2%N "db.example.com"].
(** Monitor 1 probes another host, its row untouched, and 2 is gone. *)
Definition second_list := [tcp_row 1%N "db2.example.com"; tcp_row 3%N "db.example.com"].

Definition resident : gmap Uuid ScheduledTarget.t := (refresh (Ok first_list) ∅).2.
Definition after : result RegistryDiff.t * gmap Uuid ScheduledTarget.t :=
  refresh (Ok second_list) resident.

Lemma second_distinct : NoDup (row_id <$> second_list).
Proof. apply (bool_decide_unpack _). vm_compute. exact I. Qed.

Lemma refresh_is_an_exact_diff_witness :
  ∃ diff m, after = (Ok diff, m) ∧ RegistryDiff.added diff = [built (tcp_row 3%N "db.example.com")]
    ∧ RegistryDiff.updated diff = [] ∧ (2%N ∈ RegistryDiff.removed diff) ∧ m !! 2%N = None.
Proof.
  destruct (refresh_is_an_exact_diff second_list resident second_distinct)
    as (_ & diff & m & Hr & Ha & Hu & Hrem & _ & Hn).
  exists diff, m. split; [exact Hr|]. split; [rewrite Ha; vm_compute; reflexivity|].
  split; [rewrite Hu; vm_compute; reflexivity|].
  assert (2%N ∉ row_id <$> second_list) as Hni by
    (apply (bool_decide_unpack _); vm_compute; exact I).
  split; [|exact (Hn 2%N Hni)]. apply Hrem. split; [|exact Hni].
  eexists. vm_compute. reflexivity.
Defined.

(** The registry keeps the old host of monitor 1. *)
Lemma refresh_trusts_the_version_witness :
  ∃ diff m, after = (Ok diff, m) ∧
    ¬ ∀ x, x ∈ second_list → m !! row_id x = Some (built x).
Proof.
  destruct (refresh_spec second_list resident second_distinct) as (_ & diff & m & Hr & _).
  exists diff, m. split; [exact Hr|]. intros Hall.
  pose proof (proj1 (refresh_trusts_the_version second_list resident diff m second_distinct Hr) Hall
    (tcp_row 1%N "db2.example.com") (built (tcp_row 1%N "db.example.com"))
    ltac:(left) ltac:(vm_compute; reflexivity) ltac:(vm_compute; reflexivity)) as H.
  apply (f_equal ScheduledTarget.breaker_key) in H. vm_compute in H. discriminate H.
Defined.

Definition history : list event :=
  [Refreshed (Ok first_list); DiffReceived 0; Woke (seconds 5) 0 0; PoolStep (FindBreaker 0)].

Definition at_end : Scheduler :=
  match sched_run history (boot PoolSample.start) with Some s => s | None => boot PoolSample.start end.
Lemma history_runs : sched_run history (boot PoolSample.start) = Some at_end.
Proof. vm_compute. reflexivity. Qed.

Lemma history_listed : Forall well_listed history.
Proof. repeat constructor; apply (bool_decide_unpack _); vm_compute; exact I. Qed.

Lemma registered_means_scheduled_once_witness :
  is_Some (registry at_end !! 1%N) ∧
  count (entry_of 1%N 0) (heap (driver at_end)) = 1.
Proof.
  destruct (registered_means_scheduled_once history PoolSample.start at_end history_listed
    ltac:(vm_compute; discriminate) history_runs) as (_ & H & H1 & _).
  split; [apply H; [vm_compute; reflexivity|]|apply H1].
  - eexists. vm_compute. reflexivity.
  - vm_compute. reflexivity.
Defined.

Lemma scheduler_runs_the_pool_witness :
  length (tasks (pool at_end)) = 2%nat ∧
  (∀ r, r ∈ tasks (pool at_end) → own_keys first_list (task r)) ∧
  count (probes_host PoolSample.db) (tasks (pool at_end)) ≤ 1.
Proof.
  destruct (scheduler_runs_the_pool history 2 sample (ResultFanout.new 4) 1 1 at_end PoolSample.db ltac:(lia)
    ltac:(repeat constructor) history_runs) as (Hown & _ & _ & Hthrottle).
  split; [vm_compute; reflexivity|]. split; [exact Hown|exact Hthrottle].
Defined.

Definition scheduled_twice : Driver :=
  apply_diff 0 {| RegistryDiff.added := built <$> first_list; RegistryDiff.updated := [];
                  RegistryDiff.removed := [] |} idle.

Lemma drain_fires_what_is_due_witness :
  ((drain_due (seconds 5) resident scheduled_twice).1 = built <$> first_list) ∧
  ∀ e, e ∈ heap (drain_due (seconds 5) resident scheduled_twice).2 → seconds 5 < Due.at_ e.
Proof.
  assert (heap_sorted (heap scheduled_twice)) as Hs by
    (repeat constructor; vm_compute; exact I).
  assert (on_time (seconds 5) resident (heap scheduled_twice)) as Ht.
  { intros e st He _ Hst.
    assert (ScheduledTarget.interval st = seconds 60) as ->.
    { assert (Forall (λ e, resident !! Due.id e = Some st →
        ScheduledTarget.interval st = seconds 60) (heap scheduled_twice)) as Hall.
      { repeat constructor; intros H; vm_compute in H; injection H as <-; reflexivity. }
      rewrite Forall_forall in Hall. by apply (Hall e). }
    assert (Forall (λ e, 0 ≤ Due.at_ e) (heap scheduled_twice)) as Hall by
      (repeat constructor; vm_compute; discriminate).
    rewrite Forall_forall in Hall. specialize (Hall e He).
    unfold seconds, NANOS, U32_MAX. split; lia. }
  pose proof (drain_fires_what_is_due (seconds 5) resident scheduled_twice Hs Ht) as H.
  destruct (drain_due _ _ _) as [fired d']. destruct H as (H & Hl & _). split; [|exact Hl].
  rewrite H. vm_compute. reflexivity.
Defined.
End SchedulerSample.
