(* ===== verification/Batcher.v ===== *)
(** * The result batcher

    src/pipeline/batcher.rs: the task that empties the queue the worker pool
    fills ([Pool.ResultFanout]) and writes it to the sink in batches.

    One event per turn of the [select!] loop. The sink is the environment: an
    event that flushes carries what [write_batch] answered. Metrics other than
    the counts of dropped results, and the timer, are left out. *)

From S2P Require Import Prelude Domain Pool.

Definition MAX_FLUSH_RETRIES : Z := 3.
Definition MAX_BUFFER_MULT : Z := 8.

(** What became of results: written as one batch, pushed out of a full buffer,
    or dropped with their batch after the last retry. *)
Inductive fate :=
| Written (batch : list CheckResult.t)
| BufferOverflow (oldest : option CheckResult.t)
| RetriesExhausted (batch : list CheckResult.t).

Module ResultBatcher.
Record t := {
  rx : ResultFanout.t;
  batch_size : Z;
  buffer : list CheckResult.t;
  retry_attempts : Z;
  stopped : bool;
  fates : list fate;
}.

Definition new (rx : ResultFanout.t) (batch_size : Z) : t := {|
  rx := rx; batch_size := batch_size; buffer := []; retry_attempts := 0;
  stopped := false; fates := [] |}.

Definition max_buffer (b : t) : Z := sat_mul_u64 (batch_size b) MAX_BUFFER_MULT.
Definition buffered (b : t) : Z := Z.of_nat (length (buffer b)).

Definition set_rx (v : ResultFanout.t) (b : t) : t := {|
  rx := v; batch_size := batch_size b; buffer := buffer b; retry_attempts := retry_attempts b;
  stopped := stopped b; fates := fates b |}.
Definition stop (b : t) : t := {|
  rx := rx b; batch_size := batch_size b; buffer := buffer b; retry_attempts := retry_attempts b;
  stopped := true; fates := fates b |}.

(** [pop_front] of an empty buffer drops nothing, and is counted all the same. *)
Definition push_capped (r : CheckResult.t) (b : t) : t :=
  let full := max_buffer b <=? buffered b in {|
  rx := rx b; batch_size := batch_size b;
  buffer := (if full then tail (buffer b) else buffer b) ++ [r];
  retry_attempts := retry_attempts b; stopped := stopped b;
  fates := if full then fates b ++ [BufferOverflow (head (buffer b))] else fates b |}.

Definition flush (written : bool) (b : t) : t :=
  if written then {|
    rx := rx b; batch_size := batch_size b; buffer := []; retry_attempts := 0;
    stopped := stopped b; fates := fates b ++ [Written (buffer b)] |}
  else
    let attempts := Z.min (retry_attempts b + 1) U32_MAX in
    if MAX_FLUSH_RETRIES <=? attempts then {|
      rx := rx b; batch_size := batch_size b; buffer := []; retry_attempts := 0;
      stopped := stopped b; fates := fates b ++ [RetriesExhausted (buffer b)] |}
    else {|
      rx := rx b; batch_size := batch_size b; buffer := buffer b; retry_attempts := attempts;
      stopped := stopped b; fates := fates b |}.

Definition flush_nonempty (written : bool) (b : t) : t :=
  match buffer b with [] => b | _ => flush written b end.

(** [drain]: [try_recv] until the queue is empty. *)
Fixpoint drain_n (fuel : nat) (b : t) : t :=
  match fuel with
  | O => b
  | S fuel =>
      match ResultFanout.receive (rx b) with
      | (Some r, q) => drain_n fuel (push_capped r (set_rx q b))
      | (None, _) => b
      end
  end.
Definition drain (b : t) : t := drain_n (length (ResultFanout.queue (rx b))) b.

Inductive event :=
| Queued (r : CheckResult.t)
| SendersGone
| Received (written : bool)
| Ticked (written : bool)
| Shutdown (written : bool).

(** [run]: one turn of the loop, [None] when that branch is not ready. The
    senders' events only touch the queue. *)
Definition step (e : event) (b : t) : option t :=
  match e with
  | Queued r => Some (set_rx (ResultFanout.dispatch r (rx b)).2 b)
  | SendersGone => Some (set_rx {| ResultFanout.queue := ResultFanout.queue (rx b);
      ResultFanout.capacity := ResultFanout.capacity (rx b); ResultFanout.closed := true;
      ResultFanout.storage_dropped := ResultFanout.storage_dropped (rx b) |} b)
  | Received written =>
      if stopped b then None
      else
        match ResultFanout.receive (rx b) with
        | (Some r, q) =>
            let b := push_capped r (set_rx q b) in
            Some (if batch_size b <=? buffered b then flush written b else b)
        | (None, _) =>
            if ResultFanout.closed (rx b) then Some (stop (flush_nonempty written b)) else None
        end
  | Ticked written => if stopped b then None else Some (flush_nonempty written b)
  | Shutdown written => if stopped b then None else Some (stop (flush_nonempty written (drain b)))
  end.

Fixpoint run (es : list event) (b : t) : option t :=
  match es with
  | [] => Some b
  | e :: es => b ← step e b; run es b
  end.
End ResultBatcher.
Import ResultBatcher.

(** ** Every result has one fate *)
Section Fates.
Implicit Types (b : ResultBatcher.t) (r : CheckResult.t).

Definition fate_results (f : fate) : list CheckResult.t :=
  match f with
  | Written l | RetriesExhausted l => l
  | BufferOverflow o => match o with Some r => [r] | None => [] end
  end.
Definition settled_results b : list CheckResult.t := concat (fate_results <$> fates b).

(** Everything the batcher was handed, in the order it took it. *)
Definition handed b : list CheckResult.t :=
  settled_results b ++ buffer b ++ ResultFanout.queue (rx b).

Lemma settled_results_snoc b fs f :
  fates b = fs ++ [f] → settled_results b = concat (fate_results <$> fs) ++ fate_results f.
Proof. unfold settled_results. intros ->. rewrite fmap_app, concat_app. simpl. by rewrite app_nil_r. Qed.

Lemma push_capped_handed r q b :
  ResultFanout.queue (rx b) = r :: ResultFanout.queue q →
  handed (push_capped r (set_rx q b)) = handed b.
Proof.
  intros Hq. unfold handed. rewrite Hq. unfold push_capped.
  destruct (_ <=? _); simpl; [|by rewrite <-!(assoc_L (++))].
  erewrite settled_results_snoc by done. unfold settled_results. simpl.
  destruct (buffer b) as [|x l]; simpl; rewrite <-!(assoc_L (++)); done.
Qed.

Lemma flush_handed w b : handed (flush w b) = handed b.
Proof.
  unfold handed, flush. destruct w; [|destruct (_ <=? _); [|done]];
    erewrite settled_results_snoc by done; by rewrite <-(assoc_L (++)).
Qed.

Lemma flush_nonempty_handed w b : handed (flush_nonempty w b) = handed b.
Proof. unfold flush_nonempty. destruct (buffer b) eqn:Hb; [done|apply flush_handed]. Qed.

Lemma receive_spec f :
  ResultFanout.receive f = (None, f) ∧ ResultFanout.queue f = [] ∨
  ∃ r q, ResultFanout.receive f = (Some r, q) ∧ ResultFanout.queue f = r :: ResultFanout.queue q ∧
    ResultFanout.closed q = ResultFanout.closed f.
Proof.
  unfold ResultFanout.receive. destruct (ResultFanout.queue f) as [|r l]; [by left|right; eauto].
Qed.

Lemma drain_n_spec n b :
  length (ResultFanout.queue (rx b)) = n →
  handed (drain_n n b) = handed b ∧ ResultFanout.queue (rx (drain_n n b)) = [] ∧
  batch_size (drain_n n b) = batch_size b ∧ retry_attempts (drain_n n b) = retry_attempts b.
Proof.
  revert b. induction n as [|n IH]; intros b Hn; simpl; [by apply nil_length_inv in Hn|].
  destruct (receive_spec (rx b)) as [[_ Hq]|(r & q & -> & Hq & _)]; rewrite Hq in Hn; [done|].
  destruct (IH (push_capped r (set_rx q b))) as (Hh & He & Hs & Hr); [simpl in *; lia|].
  by rewrite Hh, push_capped_handed.
Qed.

Definition queued (e : event) (b : ResultBatcher.t) : list CheckResult.t :=
  match e with
  | Queued r => if (ResultFanout.dispatch r (rx b)).1 then [r] else []
  | _ => []
  end.

(** The results the queue accepted in the course of a run. *)
Fixpoint accepted (es : list event) b : list CheckResult.t :=
  match es with
  | [] => []
  | e :: es => queued e b ++ match step e b with Some b => accepted es b | None => [] end
  end.

Lemma step_handed e b b' : step e b = Some b' → handed b' = handed b ++ queued e b.
Proof.
  intros Hs. destruct e as [r| |w|w|w]; simpl in Hs |- *.
  - injection Hs as <-. unfold handed, ResultFanout.dispatch. simpl.
    destruct (_ || _); simpl; [by rewrite app_nil_r|by rewrite !(assoc_L (++))].
  - injection Hs as <-. unfold handed. simpl. by rewrite app_nil_r.
  - rewrite app_nil_r. destruct (stopped b); [done|].
    destruct (receive_spec (rx b)) as [[Hrv _]|(r & q & Hrv & Hq & _)]; rewrite Hrv in Hs.
    + destruct (ResultFanout.closed (rx b)); [|done]. injection Hs as <-. apply flush_nonempty_handed.
    + injection Hs as <-. destruct (_ <=? _); rewrite ?flush_handed; by apply push_capped_handed.
  - rewrite app_nil_r. destruct (stopped b); [done|]. injection Hs as <-. apply flush_nonempty_handed.
  - rewrite app_nil_r. destruct (stopped b); [done|]. injection Hs as <-.
    change (handed (stop ?x)) with (handed x). rewrite flush_nonempty_handed.
    by apply drain_n_spec.
Qed.

Lemma run_handed es b b' : run es b = Some b' → handed b' = handed b ++ accepted es b.
Proof.
  revert b. induction es as [|e es IH]; intros b Hr; simpl in *.
  { injection Hr as <-. by rewrite app_nil_r. }
  destruct (step e b) as [b1|] eqn:Hs; simpl in Hr; [|done].
  rewrite (IH b1 Hr), (step_handed e b b1 Hs). by rewrite <-(assoc_L (++)).
Qed.

(** The batcher loses and invents nothing. In every run, the results that
    were written, pushed out or dropped after retries, followed by those in the
    buffer and those in the queue, are exactly the results the queue accepted,
    each once and in the order they came; so batches are written in order. *)
Theorem batches_partition_the_queue es rx0 n b :
  ResultFanout.queue rx0 = [] → run es (new rx0 n) = Some b →
  concat (fate_results <$> fates b) ++ buffer b ++ ResultFanout.queue (rx b)
    = accepted es (new rx0 n).
Proof.
  intros Hq Hr. apply run_handed in Hr. unfold handed in Hr at 2. simpl in Hr. by rewrite Hq in Hr.
Qed.
End Fates.

(** ** How much is held back *)
Section Bounds.
Implicit Types (b : ResultBatcher.t) (r : CheckResult.t).

(** Each failed flush leaves room for one more result. A buffer of more than
    [I64_MAX] results cannot be allocated. *)
Record held_ok b : Prop := {
  h_size : 1 ≤ batch_size b ≤ I64_MAX;
  h_retries : 0 ≤ retry_attempts b < MAX_FLUSH_RETRIES;
  h_buffer : stopped b = false → buffered b ≤ batch_size b - 1 + retry_attempts b;
}.

Lemma flush_retries w b :
  0 ≤ retry_attempts b < MAX_FLUSH_RETRIES →
  let b' := flush w b in
  batch_size b' = batch_size b ∧ 0 ≤ retry_attempts b' < MAX_FLUSH_RETRIES ∧
  (buffer b' = [] ∨ buffer b' = buffer b ∧ retry_attempts b' = retry_attempts b + 1).
Proof.
  unfold MAX_FLUSH_RETRIES, flush, U32_MAX. intros Hr. destruct w; simpl; [split_and!; [done|lia..|by left]|].
  rewrite (Z.min_l (retry_attempts b + 1)) by lia. unfold MAX_FLUSH_RETRIES.
  destruct (_ <=? _) eqn:Hm; bool_cases; simpl; (split_and!; [done|lia|lia|auto]).
Qed.

Lemma flush_nonempty_retries w b :
  0 ≤ retry_attempts b < MAX_FLUSH_RETRIES →
  let b' := flush_nonempty w b in
  batch_size b' = batch_size b ∧ 0 ≤ retry_attempts b' < MAX_FLUSH_RETRIES ∧
  (buffer b' = [] ∨ buffer b' = buffer b ∧ retry_attempts b' = retry_attempts b + 1).
Proof.
  unfold flush_nonempty. intros Hr. destruct (buffer b) as [|r l] eqn:Hb; [by rewrite Hb; auto|].
  rewrite <-Hb. by apply flush_retries.
Qed.

Lemma held_rx q b : held_ok b → held_ok (set_rx q b).
Proof. intros [Hs Hr Hb]. by split. Qed.

Lemma push_room r b :
  held_ok b → stopped b = false → buffered b < max_buffer b ∧
  push_capped r b = {| rx := rx b; batch_size := batch_size b; buffer := buffer b ++ [r];
    retry_attempts := retry_attempts b; stopped := false; fates := fates b |}.
Proof.
  intros [Hs Hr Hb] Hst. specialize (Hb Hst). unfold MAX_FLUSH_RETRIES in *.
  assert (buffered b < max_buffer b) as Hlt.
  { unfold max_buffer, sat_mul_u64, MAX_BUFFER_MULT, U64_MAX, I64_MAX, buffered in *. lia. }
  split; [done|]. unfold push_capped. destruct (_ <=? _) eqn:Hf; bool_cases; [lia|]. by rewrite Hst.
Qed.

Definition fate_overflow (f : fate) : bool :=
  match f with BufferOverflow _ => true | _ => false end.

Lemma step_held e b b' : held_ok b → step e b = Some b' → held_ok b'.
Proof.
  intros Hok Hs. pose proof Hok as [Hsz Hr Hb]. destruct e as [r| |w|w|w]; simpl in Hs.
  - injection Hs as <-. by split.
  - injection Hs as <-. by split.
  - destruct (stopped b) eqn:Hst; [done|].
    destruct (receive_spec (rx b)) as [[Hrv _]|(r & q & Hrv & _ & _)]; rewrite Hrv in Hs.
    + destruct (ResultFanout.closed (rx b)); [|done]. injection Hs as <-.
      destruct (flush_nonempty_retries w b Hr) as (Hz & Hr' & _). split; simpl; [by rewrite Hz|done|done].
    + injection Hs as <-.
      destruct (push_room r _ (held_rx q b Hok) Hst) as [_ ->]. specialize (Hb eq_refl).
      cbn [set_rx rx batch_size buffer retry_attempts fates]. set (b1 := ResultBatcher.Build_t _ _ _ _ _ _).
      assert (buffered b1 = buffered b + 1) as Hlen by
        (unfold buffered; simpl; rewrite length_app; simpl; lia).
      destruct (_ <=? _) eqn:Hf; bool_cases.
      * destruct (flush_retries w b1 Hr) as (Hz & Hr' & Hbuf). change (batch_size b1) with (batch_size b) in *.
        change (retry_attempts b1) with (retry_attempts b) in *.
        split; rewrite ?Hz; [done|done|]. intros _. unfold buffered in *.
        destruct Hbuf as [->|[-> ->]]; cbn [length]; lia.
      * split; [done|done|]. intros _. unfold b1 at 2 3. cbn [batch_size retry_attempts]. lia.
  - destruct (stopped b) eqn:Hst; [done|]. injection Hs as <-. specialize (Hb eq_refl).
    destruct (flush_nonempty_retries w b Hr) as (Hz & Hr' & Hbuf).
    split; rewrite ?Hz; [done|done|]. intros _. unfold buffered in *.
    destruct Hbuf as [->|[-> ->]]; simpl; lia.
  - destruct (stopped b) eqn:Hst; [done|]. injection Hs as <-.
    destruct (drain_n_spec _ b eq_refl) as (_ & _ & Hz & Hra).
    destruct (flush_nonempty_retries w (drain b)) as (Hz' & Hr' & _); [unfold drain; by rewrite Hra|].
    split; simpl; [|done|done]. rewrite Hz'. unfold drain. by rewrite Hz.
Qed.

Lemma run_held es b b' : held_ok b → run es b = Some b' → held_ok b'.
Proof.
  revert b. induction es as [|e es IH]; intros b Hb Hr; simpl in Hr; [by injection Hr as <-|].
  destruct (step e b) as [b1|] eqn:Hs; simpl in Hr; [|done]. by eapply IH, Hr; eapply step_held.
Qed.

Lemma flush_size w b : batch_size (flush_nonempty w b) = batch_size b ∧ batch_size (flush w b) = batch_size b.
Proof.
  assert (batch_size (flush w b) = batch_size b) by
    (unfold flush; destruct w; [done|]; by destruct (_ <=? _)).
  unfold flush_nonempty. by destruct (buffer b).
Qed.

Lemma step_size e b b' : step e b = Some b' → batch_size b' = batch_size b.
Proof.
  intros Hs. destruct e as [r| |w|w|w]; simpl in Hs.
  - by injection Hs as <-.
  - by injection Hs as <-.
  - destruct (stopped b); [done|].
    destruct (receive_spec (rx b)) as [[Hrv _]|(r & q & Hrv & _ & _)]; rewrite Hrv in Hs.
    + destruct (ResultFanout.closed (rx b)); [|done]. injection Hs as <-. apply (flush_size w b).
    + injection Hs as <-. destruct (_ <=? _); [|done].
      by rewrite (proj2 (flush_size w _)).
  - destruct (stopped b); [done|]. injection Hs as <-. apply flush_size.
  - destruct (stopped b); [done|]. injection Hs as <-. simpl.
    rewrite (proj1 (flush_size w _)). by apply drain_n_spec.
Qed.

Lemma run_size es b b' : run es b = Some b' → batch_size b' = batch_size b.
Proof.
  revert b. induction es as [|e es IH]; intros b Hr; simpl in Hr; [by injection Hr as <-|].
  destruct (step e b) as [b1|] eqn:Hs; simpl in Hr; [|done].
  by rewrite (IH b1 Hr), (step_size e b b1).
Qed.

Lemma new_held rx n : 1 ≤ n ≤ I64_MAX → held_ok (new rx n).
Proof. intros Hn. split; simpl; [done|done|]. intros _. unfold buffered. simpl. lia. Qed.

Definition is_shutdown (e : event) : bool := match e with Shutdown _ => true | _ => false end.

Lemma flush_fates w b f :
  f ∈ fates (flush w b) → f ∈ fates b ∨ f = Written (buffer b) ∨ f = RetriesExhausted (buffer b).
Proof.
  unfold flush. destruct w; [|destruct (_ <=? _)]; simpl;
    rewrite ?elem_of_app, ?list_elem_of_singleton; tauto.
Qed.

Lemma flush_nonempty_overflow w b f :
  f ∈ fates (flush_nonempty w b) → fate_overflow f = true → f ∈ fates b.
Proof.
  unfold flush_nonempty. destruct (buffer b); [done|].
  intros [?|[->| ->]]%flush_fates; done.
Qed.

Lemma step_overflow e b b' f :
  held_ok b → is_shutdown e = false → step e b = Some b' →
  f ∈ fates b' → fate_overflow f = true → f ∈ fates b.
Proof.
  intros Hok He Hs Hf Ho. destruct e as [r| |w|w|w]; simpl in Hs; [| | | |done].
  - by injection Hs as <-.
  - by injection Hs as <-.
  - destruct (stopped b) eqn:Hst; [done|].
    destruct (receive_spec (rx b)) as [[Hrv _]|(r & q & Hrv & _ & _)]; rewrite Hrv in Hs.
    + destruct (ResultFanout.closed (rx b)); [|done]. injection Hs as <-.
      by apply (flush_nonempty_overflow w b).
    + injection Hs as <-.
      destruct (push_room r _ (held_rx q b Hok) Hst) as [_ Hp]. rewrite Hp in Hf.
      destruct (_ <=? _) in Hf; [|done]. by apply flush_fates in Hf as [?|[->| ->]].
  - destruct (stopped b); [done|]. injection Hs as <-. by apply (flush_nonempty_overflow w b).
Qed.

Lemma run_overflow es b b' f :
  held_ok b → existsb is_shutdown es = false → run es b = Some b' →
  f ∈ fates b' → fate_overflow f = true → f ∈ fates b.
Proof.
  revert b. induction es as [|e es IH]; intros b Hb He Hr Hf Ho; simpl in *; [by injection Hr as <-|].
  apply orb_false_iff in He as [He1 He2].
  destruct (step e b) as [b1|] eqn:Hs; simpl in Hr; [|done].
  eapply (step_overflow e b b1); [done|done|done| |done].
  eapply (IH b1); [by eapply step_held|done..].
Qed.

(** Little is held back. With a batch size of at least one, a running batcher
    never holds more than [batch_size + 1] results, however long the sink fails
    and however fast results come: a third failed flush gives the batch up, and
    every result past the batch size is a flush. So before the shutdown the cap
    of eight batches is never reached and nothing is pushed out. *)
Theorem batcher_holds_one_batch es rx0 n b :
  1 ≤ n ≤ I64_MAX → run es (new rx0 n) = Some b → stopped b = false →
  buffered b ≤ n + 1 ∧ 0 ≤ retry_attempts b < MAX_FLUSH_RETRIES ∧
  (existsb is_shutdown es = false → ∀ o, BufferOverflow o ∉ fates b).
Proof.
  intros Hn Hr Hst. pose proof (run_held _ _ _ (new_held rx0 n Hn) Hr) as [Hz Hre Hb].
  assert (batch_size b = n) as Hbs by (by apply run_size in Hr).
  specialize (Hb Hst). unfold MAX_FLUSH_RETRIES in *. split_and!; [lia|lia|lia|].
  intros Hes o Ho.
  pose proof (run_overflow es _ _ _ (new_held rx0 n Hn) Hes Hr Ho eq_refl) as Hno. simpl in Hno.
  by apply not_elem_of_nil in Hno.
Qed.
End Bounds.

(** ** A sink that fails *)
Section FailingSink.
Implicit Types (b : ResultBatcher.t).

(** The results a fate counts under [storage_dropped]. *)
Definition counted_dropped (f : fate) : Z :=
  match f with
  | Written _ => 0
  | BufferOverflow _ => 1
  | RetriesExhausted l => Z.of_nat (length l)
  end.
Definition storage_dropped b : Z := sumZ (counted_dropped <$> fates b).

(** What a flush does. A sink that takes the batch gets the whole buffer, in
    order, and the retries start afresh; one that fails leaves the buffer as it
    is and uses up one retry, and the third failure in a row drops the whole
    buffer, counting each of its results. So with a working sink one tick
    empties the buffer, and with a failing one three ticks do. *)
Theorem ticks_settle_the_buffer b w :
  stopped b = false → buffer b ≠ [] → 0 ≤ retry_attempts b < MAX_FLUSH_RETRIES →
  ∃ b', step (Ticked w) b = Some b' ∧
    (w = true → fates b' = fates b ++ [Written (buffer b)] ∧ buffer b' = [] ∧
                retry_attempts b' = 0 ∧ storage_dropped b' = storage_dropped b) ∧
    (w = false → retry_attempts b = 2 →
       fates b' = fates b ++ [RetriesExhausted (buffer b)] ∧ buffer b' = [] ∧
       retry_attempts b' = 0 ∧ storage_dropped b' = storage_dropped b + buffered b) ∧
    (w = false → retry_attempts b < 2 →
       fates b' = fates b ∧ buffer b' = buffer b ∧ retry_attempts b' = retry_attempts b + 1).
Proof.
  intros Hst Hne Hr. simpl. rewrite Hst. eexists. split; [reflexivity|].
  assert (flush_nonempty w b = flush w b) as -> by (unfold flush_nonempty; by destruct (buffer b)).
  unfold flush, storage_dropped, MAX_FLUSH_RETRIES, U32_MAX in *.
  rewrite (Z.min_l (retry_attempts b + 1)) by lia. split_and!; intros ->.
  - simpl. rewrite fmap_app, sumZ_app. simpl. split_and!; [done..|lia].
  - intros Hr2. rewrite Hr2. simpl. rewrite fmap_app, sumZ_app. simpl. unfold buffered.
    split_and!; [done..|lia].
  - intros Hr2. destruct (_ <=? _) eqn:Hm; bool_cases; [lia|]. simpl. by split_and!.
Qed.

Lemma drain_fits n b :
  length (ResultFanout.queue (rx b)) = n → Z.of_nat n + buffered b ≤ max_buffer b →
  fates (drain_n n b) = fates b ∧ buffer (drain_n n b) = buffer b ++ ResultFanout.queue (rx b).
Proof.
  revert b. induction n as [|n IH]; intros b Hn Hm; simpl.
  { apply nil_length_inv in Hn. by rewrite Hn, app_nil_r. }
  destruct (receive_spec (rx b)) as [[_ Hq]|(r & q & -> & Hq & _)]; rewrite Hq in Hn; [done|].
  unfold push_capped, max_buffer, buffered in *. simpl. rewrite Hq.
  destruct (_ <=? _) eqn:Hf; bool_cases; [lia|]. simpl in Hn.
  destruct (IH {| rx := q; batch_size := batch_size b; buffer := buffer b ++ [r];
    retry_attempts := retry_attempts b; stopped := stopped b; fates := fates b |}) as [-> ->];
    simpl; [lia|rewrite length_app; simpl; lia|]. by rewrite <-(assoc_L (++)).
Qed.

(** The last flush has no retry. On shutdown the queue is drained into the
    buffer; if the sink then fails and it is not the third failure in a row,
    the batcher stops with results that are neither written nor counted as
    dropped. *)
Theorem shutdown_may_lose_uncounted b :
  1 ≤ batch_size b ≤ I64_MAX → stopped b = false →
  0 ≤ retry_attempts b → retry_attempts b + 1 < MAX_FLUSH_RETRIES →
  Z.of_nat (length (ResultFanout.queue (rx b))) + buffered b ≤ batch_size b →
  ∃ b', step (Shutdown false) b = Some b' ∧ stopped b' = true ∧ fates b' = fates b ∧
    storage_dropped b' = storage_dropped b ∧
    buffer b' = buffer b ++ ResultFanout.queue (rx b) ∧ ∀ w, step (Ticked w) b' = None.
Proof.
  intros Hz Hst Hr0 Hr Hroom. simpl. rewrite Hst. eexists. split; [reflexivity|].
  destruct (drain_fits _ b eq_refl) as [Hf Hb].
  { unfold max_buffer, sat_mul_u64, MAX_BUFFER_MULT, U64_MAX, I64_MAX in *. lia. }
  destruct (drain_n_spec _ b eq_refl) as (_ & _ & _ & Hra). fold (drain b) in *.
  assert (flush_nonempty false (drain b) = drain b ∨ fates (flush_nonempty false (drain b)) = fates b ∧
    buffer (flush_nonempty false (drain b)) = buffer (drain b)) as Hfl.
  { unfold flush_nonempty. destruct (buffer (drain b)) eqn:Hbuf; [by left|right].
    unfold flush, U32_MAX, MAX_FLUSH_RETRIES in *. rewrite Hra, Z.min_l by lia.
    destruct (_ <=? _) eqn:Hm; bool_cases; [lia|]. simpl. by rewrite Hf. }
  unfold storage_dropped. simpl. destruct Hfl as [->|[-> ->]]; rewrite ?Hf, ?Hb; by split_and!.
Qed.
End FailingSink.

(** ** A failing sink, step by step *)
Module BatcherSample.
Definition result_ (n : Z) : CheckResult.t := CheckResult.error_with_elapsed 1%N 7%N n 5 "timeout".
Definition start : t := new (ResultFanout.new 8) 2.

(** Two results fill the batch and its flush fails; a third comes. *)
Definition outage : list event :=
  [Queued (result_ 1); Queued (result_ 2); Queued (result_ 3);
   Received true; Received false; Received false].
Definition behind : t := match run outage start with Some b => b | None => start end.
Lemma outage_runs : run outage start = Some behind.
Proof. vm_compute. reflexivity. Qed.

Lemma batches_partition_the_queue_witness :
  buffer behind = [result_ 1; result_ 2; result_ 3] ∧ fates behind = [] ∧
  accepted outage start = [result_ 1; result_ 2; result_ 3].
Proof.
  pose proof (batches_partition_the_queue outage (ResultFanout.new 8) 2 behind eq_refl outage_runs) as H.
  split; [vm_compute; reflexivity|]. split; [vm_compute; reflexivity|].
  transitivity (concat (fate_results <$> fates behind) ++ buffer behind
                ++ ResultFanout.queue (rx behind)); [exact (eq_sym H)|vm_compute; reflexivity].
Defined.

Lemma batcher_holds_one_batch_witness : buffered behind ≤ 3 ∧ retry_attempts behind = 2.
Proof.
  destruct (batcher_holds_one_batch outage (ResultFanout.new 8) 2 behind
    ltac:(unfold I64_MAX; lia) outage_runs eq_refl) as [H _].
  split; [exact H|vm_compute; reflexivity].
Defined.

Lemma ticks_settle_the_buffer_witness :
  ∃ b, step (Ticked false) behind = Some b ∧ storage_dropped b = 3.
Proof.
  destruct (ticks_settle_the_buffer behind false eq_refl ltac:(discriminate)
    ltac:(vm_compute; split; [discriminate|reflexivity])) as (b & Hs & _ & H & _).
  exists b. split; [exact Hs|]. destruct (H eq_refl eq_refl) as (_ & _ & _ & Hd).
  rewrite Hd. vm_compute. reflexivity.
Defined.

Definition waiting : t :=
  match run [Queued (result_ 1); Queued (result_ 2); Received true] start with
  | Some b => b | None => start end.

Lemma shutdown_may_lose_uncounted_witness :
  ∃ b, step (Shutdown false) waiting = Some b ∧ buffer b = [result_ 1; result_ 2] ∧
    storage_dropped b = 0.
Proof.
  destruct (shutdown_may_lose_uncounted waiting ltac:(vm_compute; split; discriminate) eq_refl
    ltac:(vm_compute; discriminate) ltac:(vm_compute; reflexivity) ltac:(vm_compute; discriminate))
    as (b & Hs & _ & _ & Hd & Hb & _).
  exists b. split; [exact Hs|]. split; [rewrite Hb; vm_compute; reflexivity|].
  rewrite Hd. vm_compute. reflexivity.
Defined.
End BatcherSample.
