(* ===== verification/Interpolate.v ===== *)
(** * Variables and their interpolation

    src/domain/variable.rs (keys and resolved values), src/worker/interpolate.rs
    (the [{{ key }}] scanner, the per-field secret policy and the checks it
    rewrites) and the pull of src/storage/admin.rs that resolves a region's
    targets ([resolve_target_variables]).

    Strings are UTF-8 bytes. The scanner steps over whole characters, and slicing
    a [str] inside one panics; its positions are after an ASCII byte or a whole
    character, so the slices of the model are those of the code. A [HashMap]'s
    iteration order is a parameter, [HashOrder]. *)

From Stdlib Require Import Ascii.
From S2P Require Import Prelude Text Domain Target CheckSpec Heartbeat.
From S2P Require Import Breaker HostThrottle Pool Scheduler.

(** ** src/domain/variable.rs *)
Definition MAX_VAR_KEY_LEN : nat := 63.

Module ResolvedVar.
Record t := { value : string; is_secret : bool }.
#[global] Instance eq_dec : EqDecision t.
Proof. solve_decision. Defined.
End ResolvedVar.

Abbreviation VarMap := (gmap string ResolvedVar.t).

Module VarKeyError.
Inductive t := Empty | TooLong | LeadingNonAlpha | InvalidChar.
#[global] Instance eq_dec : EqDecision t.
Proof. solve_decision. Defined.
End VarKeyError.

Definition var_key_byte (b : ascii) : bool :=
  is_ascii_lowercase b || is_ascii_digit b || Ascii.eqb b "_"%char.

(** [None] is [Ok(())]. *)
Definition validate_var_key (key : string) : option VarKeyError.t :=
  match key with
  | EmptyString => Some VarKeyError.Empty
  | String b _ =>
      if (MAX_VAR_KEY_LEN <? String.length key)%nat then Some VarKeyError.TooLong
      else if negb (is_ascii_lowercase b) then Some VarKeyError.LeadingNonAlpha
      else if all_chars var_key_byte key then None
      else Some VarKeyError.InvalidChar
  end.

(** ** src/worker/interpolate.rs *)
Module FieldKind.
Inductive t := Url | HeaderValue | Body | Assertion | StepValue.
#[global] Instance eq_dec : EqDecision t.
Proof. solve_decision. Defined.

Definition allows_secret (f : t) : bool :=
  match f with HeaderValue | Body | StepValue => true | Url | Assertion => false end.
Definition label (f : t) : string :=
  match f with
  | Url => "URL" | HeaderValue => "header value" | Body => "body"
  | Assertion => "assertion" | StepValue => "step value"
  end.
End FieldKind.

Module ResolveError.
Inductive t :=
| Unknown (key : string)
| SecretNotAllowed (key : string) (field : FieldKind.t)
| MalformedToken
| InvalidUrl.
#[global] Instance eq_dec : EqDecision t.
Proof. solve_decision. Defined.

(** [Display]. *)
Definition to_string (e : t) : string :=
  match e with
  | Unknown key => "unknown variable: " +:+ key
  | SecretNotAllowed key field =>
      "secret variable " +:+ key +:+ " not allowed in " +:+ FieldKind.label field
  | MalformedToken => "malformed variable reference"
  | InvalidUrl => "variable produced an invalid url"
  end.
End ResolveError.

(** [Result<A, ResolveError>], and [?]. *)
Definition Resolved (A : Type) : Type := ResolveError.t + A.
Definition try_bind {A B} (m : Resolved A) (k : A → Resolved B) : Resolved B :=
  match m with inl e => inl e | inr a => k a end.
Notation "x ←? m ; k" := (try_bind m (λ x, k)) (at level 20, m at level 100, k at level 200).

(** A loop that stops at the first error; [Option::transpose]. *)
Fixpoint try_map {A B} (f : A → Resolved B) (l : list A) : Resolved (list B) :=
  match l with
  | [] => inr []
  | a :: l => b ←? f a; bs ←? try_map f l; inr (b :: bs)
  end.
Definition try_option {A B} (f : A → Resolved B) (o : option A) : Resolved (option B) :=
  match o with None => inr None | Some a => b ←? f a; inr (Some b) end.

(** Where iterating over a [HashMap] starts and goes. *)
Class HashOrder := {
  hash_order : ∀ {A : Type}, gmap string A → list (string * A);
  hash_order_perm : ∀ A (m : gmap string A), hash_order m ≡ₚ map_to_list m;
}.
Definition key_order : HashOrder :=
  {| hash_order A m := map_to_list m; hash_order_perm A m := reflexivity (map_to_list m) |}.

(** The first [}}], as what precedes and what follows it. *)
Fixpoint find_close (s : string) : option (string * string) :=
  match s with
  | EmptyString => None
  | String a s' =>
      if String.prefix "}}" s then Some ("", drop_chars 2 s)
      else match find_close s' with
           | Some (inside, after) => Some (String a inside, after)
           | None => None
           end
  end.

Definition utf8_len (lead : ascii) : nat :=
  let n := nat_of_ascii lead in
  if (n <=? 127)%nat then 1
  else if (192 <=? n)%nat && (n <=? 223)%nat then 2
  else if (224 <=? n)%nat && (n <=? 239)%nat then 3
  else 4.

Fixpoint resolve_from (fuel : nat) (vars : VarMap) (field : FieldKind.t) (s : string)
    : Resolved string :=
  match fuel, s with
  | S fuel, String lead _ =>
      if String.prefix "{{" s then
        match find_close (drop_chars 2 s) with
        | None => inr s
        | Some (inside, after) =>
            let key := str_trim inside in
            if is_some (validate_var_key key) then inl ResolveError.MalformedToken
            else
              match vars !! key with
              | None => inl (ResolveError.Unknown key)
              | Some var =>
                  if ResolvedVar.is_secret var && negb (FieldKind.allows_secret field)
                  then inl (ResolveError.SecretNotAllowed key field)
                  else rest ←? resolve_from fuel vars field after;
                       inr (ResolvedVar.value var +:+ rest)
              end
        end
      else
        rest ←? resolve_from fuel vars field (drop_chars (utf8_len lead) s);
        inr (take_chars (utf8_len lead) s +:+ rest)
  | _, _ => inr ""
  end.

Definition resolve (template : string) (vars : VarMap) (field : FieldKind.t) : Resolved string :=
  resolve_from (String.length template) vars field template.

Fixpoint referenced_keys_from (fuel : nat) (s : string) : list string :=
  match fuel, s with
  | S fuel, String lead _ =>
      match (if String.prefix "{{" s then find_close (drop_chars 2 s) else None) with
      | Some (inside, after) =>
          let key := str_trim inside in
          let keys := referenced_keys_from fuel after in
          if is_some (validate_var_key key) then keys else key :: keys
      | None => referenced_keys_from fuel (drop_chars (utf8_len lead) s)
      end
  | _, _ => []
  end.
Definition referenced_keys (template : string) : list string :=
  referenced_keys_from (String.length template) template.

Definition decode_brace_tokens (s : string) : string :=
  if contains s "%7B%7B" || contains s "%7D%7D"
  then replace "%7D%7D" "}}" (replace "%7B%7B" "{{" s) else s.

(** [Vec::dedup] after a sort. *)
Fixpoint dedup (l : list string) : list string :=
  match l with
  | a :: ((b :: _) as l') => if String.eqb a b then dedup l' else a :: dedup l'
  | _ => l
  end.
Definition sorted_unique (keys : list string) : list string := dedup (sort_by String.leb keys).

Module ResolvedHttp.
Record t := {
  url : string;
  headers : gmap string string;
  body : option string;
  expected_body_contains : option string;
}.
End ResolvedHttp.

Module RepointRisk.
Record t := { url_keys : list string; secret_header_keys : list string }.
End RepointRisk.

Section Checks.
Context `{UrlLibrary, HashOrder}.

Definition uses_vars (check : HttpCheck.t) : bool :=
  let url := url_as_str (HttpCheck.url check) in
  contains url "{{" || contains url "%7B%7B"
  || existsb (λ kv, contains kv.2 "{{") (hash_order (HttpCheck.headers check))
  || is_some_and (λ b, contains b "{{") (HttpCheck.body check)
  || is_some_and (λ a, contains a "{{") (HttpCheck.expected_body_contains check).

Definition resolve_header (vars : VarMap) (kv : string * string) : Resolved (string * string) :=
  v ←? resolve kv.2 vars FieldKind.HeaderValue; inr (kv.1, v).

Definition resolve_http (check : HttpCheck.t) (vars : VarMap) : Resolved ResolvedHttp.t :=
  url ←? resolve (decode_brace_tokens (url_as_str (HttpCheck.url check))) vars FieldKind.Url;
  headers ←? try_map (resolve_header vars) (hash_order (HttpCheck.headers check));
  body ←? try_option (λ b, resolve b vars FieldKind.Body) (HttpCheck.body check);
  assertion ←? try_option (λ a, resolve a vars FieldKind.Assertion)
                 (HttpCheck.expected_body_contains check);
  inr {| ResolvedHttp.url := url; ResolvedHttp.headers := list_to_map headers;
         ResolvedHttp.body := body; ResolvedHttp.expected_body_contains := assertion |}.

Definition resolve_http_spec (check : HttpCheck.t) (vars : VarMap) : Resolved HttpCheck.t :=
  resolved ←? resolve_http check vars;
  match url_parse (ResolvedHttp.url resolved) with
  | None => inl ResolveError.InvalidUrl
  | Some url => inr {|
      HttpCheck.url := url;
      HttpCheck.method := HttpCheck.method check;
      HttpCheck.timeout := HttpCheck.timeout check;
      HttpCheck.follow_redirects := HttpCheck.follow_redirects check;
      HttpCheck.max_redirects := HttpCheck.max_redirects check;
      HttpCheck.expected_status := HttpCheck.expected_status check;
      HttpCheck.expected_body_contains := ResolvedHttp.expected_body_contains resolved;
      HttpCheck.headers := ResolvedHttp.headers resolved;
      HttpCheck.body := ResolvedHttp.body resolved;
      HttpCheck.verify_tls := HttpCheck.verify_tls check;
      HttpCheck.basic_auth := HttpCheck.basic_auth check;
      HttpCheck.bearer_token := HttpCheck.bearer_token check |}
  end.

Definition flow_uses_vars (check : FlowCheck.t) : bool :=
  existsb (λ s, match s with FlowStep.Fill _ value => contains value "{{" | _ => false end)
    (FlowCheck.steps check).

Definition resolve_step (vars : VarMap) (s : FlowStep.t) : Resolved FlowStep.t :=
  match s with
  | FlowStep.Fill selector value =>
      v ←? resolve value vars FieldKind.StepValue; inr (FlowStep.Fill selector v)
  | _ => inr s
  end.

Definition resolve_flow_spec (check : FlowCheck.t) (vars : VarMap) : Resolved FlowCheck.t :=
  steps ←? try_map (resolve_step vars) (FlowCheck.steps check);
  inr {| FlowCheck.start_url := FlowCheck.start_url check; FlowCheck.steps := steps;
         FlowCheck.timeout := FlowCheck.timeout check;
         FlowCheck.step_timeout := FlowCheck.step_timeout check;
         FlowCheck.verify_tls := FlowCheck.verify_tls check |}.

Definition repoint_risk (check : HttpCheck.t) (vars : VarMap) : option RepointRisk.t :=
  let url_src := decode_brace_tokens (url_as_str (HttpCheck.url check)) in
  let url_keys := sorted_unique
    (List.filter (λ k, is_some (vars !! k)) (referenced_keys url_src)) in
  match url_keys with
  | [] => None
  | _ =>
      let secret_header_keys := sorted_unique
        (List.filter (λ k, is_some_and ResolvedVar.is_secret (vars !! k))
           (concat ((λ kv, referenced_keys kv.2) <$> hash_order (HttpCheck.headers check)))) in
      match secret_header_keys with
      | [] => None
      | _ => Some {| RepointRisk.url_keys := url_keys;
                     RepointRisk.secret_header_keys := secret_header_keys |}
      end
  end.

(** ** src/storage/admin.rs: the pull of a region's targets *)
Definition spec_uses_vars (spec : CheckSpec.t) : bool :=
  match spec with
  | CheckSpec.Http h => uses_vars h
  | CheckSpec.Flow f => flow_uses_vars f
  | _ => false
  end.

Definition resolve_spec (spec : CheckSpec.t) (vars : VarMap) : Resolved CheckSpec.t :=
  match spec with
  | CheckSpec.Http http => c ←? resolve_http_spec http vars; inr (CheckSpec.Http c)
  | CheckSpec.Flow flow => c ←? resolve_flow_spec flow vars; inr (CheckSpec.Flow c)
  | other => inr other
  end.

(** [resolve_map] answers per organisation; one that fails leaves no entry. *)
Fixpoint resolve_targets_loop (maps : gmap OrgId VarMap)
    (targets : list (OrgId * CheckedTarget.t)) : list (OrgId * CheckedTarget.t) :=
  match targets with
  | [] => []
  | (org, target) :: rest =>
      if spec_uses_vars (CheckedTarget.check target) then
        match maps !! org with
        | None => resolve_targets_loop maps rest
        | Some map =>
            match resolve_spec (CheckedTarget.check target) map with
            | inr spec =>
                (org, {| CheckedTarget.row := CheckedTarget.row target;
                         CheckedTarget.check := spec |}) :: resolve_targets_loop maps rest
            | inl _ => resolve_targets_loop maps rest
            end
        end
      else (org, target) :: resolve_targets_loop maps rest
  end.

Definition resolve_target_variables (resolve_map : OrgId → result VarMap)
    (targets : list (OrgId * CheckedTarget.t)) : list (OrgId * CheckedTarget.t) :=
  let orgs := remove_dups
    ((List.filter (λ t, spec_uses_vars (CheckedTarget.check t.2)) targets).*1) in
  match orgs with
  | [] => targets
  | _ =>
      let maps : gmap OrgId VarMap := fold_left (λ maps org,
        match resolve_map org with Ok map => <[org := map]> maps | Err _ => maps end) orgs ∅ in
      resolve_targets_loop maps targets
  end.
End Checks.

Example resolve_ex :
  resolve "https://{{host}}/{{ ver }}/{x}" (<["host" := {| ResolvedVar.value := "{{ver}}";
    ResolvedVar.is_secret := false |}]> (<["ver" := {| ResolvedVar.value := "v2";
    ResolvedVar.is_secret := false |}]> ∅)) FieldKind.Url = inr "https://{{ver}}/v2/{x}".
Proof. vm_compute. reflexivity. Qed.

(** ** The template, cut once *)
Inductive piece := Lit (s : string) | Tok (key : string).

Fixpoint scan_from (fuel : nat) (s : string) : list piece :=
  match fuel, s with
  | S fuel, String lead _ =>
      if String.prefix "{{" s then
        match find_close (drop_chars 2 s) with
        | None => [Lit s]
        | Some (inside, after) => Tok (str_trim inside) :: scan_from fuel after
        end
      else Lit (take_chars (utf8_len lead) s) :: scan_from fuel (drop_chars (utf8_len lead) s)
  | _, _ => []
  end.
Definition scan (template : string) : list piece := scan_from (String.length template) template.

(** What one piece becomes. *)
Definition substitute (vars : VarMap) (field : FieldKind.t) (p : piece) : Resolved string :=
  match p with
  | Lit s => inr s
  | Tok key =>
      if is_some (validate_var_key key) then inl ResolveError.MalformedToken
      else match vars !! key with
           | None => inl (ResolveError.Unknown key)
           | Some var =>
               if ResolvedVar.is_secret var && negb (FieldKind.allows_secret field)
               then inl (ResolveError.SecretNotAllowed key field)
               else inr (ResolvedVar.value var)
           end
  end.
Definition valid_key (p : piece) : option string :=
  match p with
  | Tok key => if is_some (validate_var_key key) then None else Some key
  | Lit _ => None
  end.
Definition concat_all (l : list string) : string := foldr String.append "" l.

Lemma length_drop_chars k s : String.length (drop_chars k s) = (String.length s - k)%nat.
Proof. revert k. induction s as [|a s IH]; intros [|k]; simpl; auto. Qed.

Lemma drop_chars_S k a s : drop_chars (S k) (String a s) = drop_chars k s.
Proof. done. Qed.

Section Scanning.
#[local] Arguments String.prefix : simpl never.
#[local] Arguments String.append : simpl never.
#[local] Arguments utf8_len : simpl never.
#[local] Arguments drop_chars : simpl never.
#[local] Arguments take_chars : simpl never.
#[local] Arguments find_close : simpl never.

Lemma resolve_from_scan n vars f s :
  resolve_from n vars f s
    = parts ←? try_map (substitute vars f) (scan_from n s); inr (concat_all parts).
Proof.
  revert s. induction n as [|n IH]; intros s; [done|]. destruct s as [|a s]; [done|]. simpl.
  destruct (String.prefix "{{" (String a s)).
  - destruct (find_close _) as [[inside after]|]; simpl;
      [|unfold concat_all; simpl; by rewrite append_nil_r].
    destruct (is_some (validate_var_key _)); simpl; [done|].
    destruct (vars !! _) as [v|]; simpl; [|done].
    destruct (_ && _); simpl; [done|]. rewrite IH. by destruct (try_map _ _).
  - rewrite IH. simpl. by destruct (try_map _ _).
Qed.

Lemma find_close_length s inside after :
  find_close s = Some (inside, after) → (String.length after + 2 ≤ String.length s)%nat.
Proof.
  revert inside. induction s as [|a s IH]; intros inside; unfold find_close; fold find_close; [done|].
  destruct (String.prefix _ _) eqn:Hp.
  - intros [= <- <-]. rewrite length_drop_chars. destruct s as [|b s]; [|simpl; lia].
    unfold String.prefix in Hp. by destruct (ascii_dec _ _).
  - destruct (find_close s) as [[i r]|]; [|done]. intros [= <- <-]. simpl. specialize (IH _ eq_refl). lia.
Qed.

Lemma utf8_len_pos a : (1 ≤ utf8_len a)%nat.
Proof. unfold utf8_len. cbv zeta. repeat case_match; lia. Qed.

(** The scan ends: more fuel than the length changes nothing. *)
Lemma scan_from_enough n m s :
  (String.length s ≤ n)%nat → (String.length s ≤ m)%nat → scan_from n s = scan_from m s.
Proof.
  revert m s. induction n as [|n IH]; intros m s Hn Hm.
  { destruct s; simpl in Hn; [by destruct m|lia]. }
  destruct s as [|a s]; [by destruct m|]. simpl in Hn, Hm. destruct m as [|m]; [lia|]. simpl.
  destruct (String.prefix "{{" (String a s)).
  - destruct (find_close _) as [[inside after]|] eqn:Hc; [|done].
    apply find_close_length in Hc. rewrite length_drop_chars in Hc. simpl in Hc. f_equal. apply IH; lia.
  - f_equal. pose proof (utf8_len_pos a).
    apply IH; rewrite length_drop_chars; simpl; lia.
Qed.

Lemma find_close_cons a s : Ascii.eqb a "}" = false → find_close s = None → find_close (String a s) = None.
Proof.
  intros Ha Hs. unfold find_close; fold find_close. rewrite Hs. unfold String.prefix.
  destruct (ascii_dec _ _) as [<-|]; done.
Qed.

Lemma find_close_drop k s : find_close s = None → find_close (drop_chars k s) = None.
Proof.
  revert k. induction s as [|a s IH]; intros [|k] Hs; try done.
  rewrite drop_chars_S. apply IH.
  unfold find_close in Hs; fold find_close in Hs. destruct (String.prefix _ _); [done|].
  by destruct (find_close s) as [[]|].
Qed.

Lemma no_close_no_keys n s : find_close s = None → referenced_keys_from n s = [].
Proof.
  revert s. induction n as [|n IH]; intros [|a s] Hs; simpl; try done.
  rewrite (find_close_drop 2 _ Hs).
  destruct (String.prefix _ _); apply IH; by apply find_close_drop.
Qed.

Lemma prefix_braces a s :
  String.prefix "{{" (String a s) = true → a = "{"%char ∧ ∃ s', s = String "{" s'.
Proof.
  unfold String.prefix. destruct (ascii_dec _ a) as [<-|]; [|done].
  destruct s as [|b s]; [done|]. destruct (ascii_dec _ b) as [<-|]; [|done]. eauto.
Qed.

Lemma referenced_keys_scan n s : referenced_keys_from n s = omap valid_key (scan_from n s).
Proof.
  revert s. induction n as [|n IH]; intros s; [done|]. destruct s as [|a s]; [done|]. simpl.
  destruct (String.prefix "{{" (String a s)) eqn:Hp; [|by rewrite IH].
  destruct (find_close _) as [[inside after]|] eqn:Hc; simpl.
  - rewrite IH. by destruct (is_some _).
  - apply prefix_braces in Hp as (-> & s' & ->). apply no_close_no_keys.
    change (find_close (String "{" s') = None). by apply find_close_cons.
Qed.

(** Interpolation is one pass over the template. Its pieces, literals and
    keys, are cut from the template alone, whatever the variables hold; the
    result is their values joined, and the error, if any, that of the first
    piece that has one: an invalid key, an unknown variable or a secret where
    none may go. A value is never scanned again, and the keys the advisory scan
    reports are the valid ones among the same pieces. *)
Theorem interpolation_is_one_pass template vars field :
  (resolve template vars field
     = parts ←? try_map (substitute vars field) (scan template); inr (concat_all parts)) ∧
  referenced_keys template = omap valid_key (scan template) ∧
  (∀ n, (String.length template ≤ n)%nat →
     resolve_from n vars field template = resolve template vars field).
Proof.
  split_and!.
  - apply resolve_from_scan.
  - apply referenced_keys_scan.
  - intros n Hn. unfold resolve. rewrite !resolve_from_scan. unfold scan.
    by rewrite (scan_from_enough n (String.length template)).
Qed.
End Scanning.

(** ** Secrets *)
Section Secrets.
Context `{UrlLibrary, HashOrder}.
Implicit Types (vars : VarMap) (v : ResolvedVar.t).

(** Two variable maps that differ in the values of secrets only. *)
Definition public_eq v v' : Prop :=
  ResolvedVar.is_secret v = ResolvedVar.is_secret v' ∧
  (ResolvedVar.is_secret v = false → ResolvedVar.value v = ResolvedVar.value v').
Definition same_public vars vars' : Prop := ∀ k, option_Forall2 public_eq (vars !! k) (vars' !! k).

(** Results with the same error, or with values related by [R]. *)
Definition alike {A} (R : A → A → Prop) (x y : Resolved A) : Prop :=
  match x, y with
  | inl e, inl e' => e = e'
  | inr a, inr b => R a b
  | _, _ => False
  end.

Lemma alike_bind {A B} (R : A → A → Prop) (S : B → B → Prop) x y (k k' : A → Resolved B) :
  alike R x y → (∀ a b, R a b → alike S (k a) (k' b)) → alike S (try_bind x k) (try_bind y k').
Proof. destruct x, y; simpl; intros Hx Hk; auto; by subst. Qed.

Lemma alike_try_map {A B} (R : B → B → Prop) (f g : A → Resolved B) l :
  (∀ a, a ∈ l → alike R (f a) (g a)) → alike (Forall2 R) (try_map f l) (try_map g l).
Proof.
  induction l as [|a l IH]; intros Hf; simpl; [constructor|].
  eapply alike_bind; [apply Hf; by left|]. intros b b' Hb.
  eapply alike_bind; [apply IH; intros x Hx; apply Hf; by right|]. intros bs bs' Hbs. by constructor.
Qed.

Lemma alike_try_option {A B} (R : B → B → Prop) (f g : A → Resolved B) o :
  (∀ a, alike R (f a) (g a)) → alike (option_Forall2 R) (try_option f o) (try_option g o).
Proof.
  intros Hf. destruct o as [a|]; simpl; [|constructor].
  eapply alike_bind; [apply Hf|]. intros b b' Hb. by constructor.
Qed.

Lemma substitute_alike vars vars' field p :
  same_public vars vars' →
  alike (λ s s', FieldKind.allows_secret field = false → s = s')
    (substitute vars field p) (substitute vars' field p).
Proof.
  intros Hs. destruct p as [s|key]; simpl; [done|]. destruct (is_some _); [done|].
  specialize (Hs key). destruct (vars !! key) as [v|], (vars' !! key) as [v'|]; inversion Hs; subst; [|done].
  match goal with Hp : public_eq _ _ |- _ => destruct Hp as [Hsec Hval] end.
  rewrite <-Hsec. destruct (ResolvedVar.is_secret v) eqn:Hv; simpl; [|by auto].
  destruct (FieldKind.allows_secret field); simpl; done.
Qed.

Lemma resolve_alike vars vars' field s :
  same_public vars vars' →
  alike (λ s s', FieldKind.allows_secret field = false → s = s')
    (resolve s vars field) (resolve s vars' field).
Proof.
  intros Hs. unfold resolve. rewrite !resolve_from_scan. eapply alike_bind.
  { apply alike_try_map. intros p _. by apply substitute_alike. }
  intros l l' Hl Ha. simpl. induction Hl as [|x y l l' Hxy _ IH]; simpl; [done|].
  by rewrite (Hxy Ha), IH.
Qed.

(** What the probe of a resolved check sends, but for headers and body. *)
Definition leaks_nothing (c c' : HttpCheck.t) : Prop :=
  HttpCheck.url c = HttpCheck.url c' ∧
  HttpCheck.expected_body_contains c = HttpCheck.expected_body_contains c' ∧
  HttpCheck.method c = HttpCheck.method c' ∧
  HttpCheck.expected_status c = HttpCheck.expected_status c' ∧
  dom (HttpCheck.headers c) = dom (HttpCheck.headers c').

(** C34: secrets stay where they may go. Resolving a check against two sets of
    variables that differ only in the values of secrets gives the same error, or
    two checks with the same URL, the same assertion and the same header names:
    neither what can be logged or redirected, nor an error message, depends on a
    secret. A flow's steps differ in the values they type at most. *)
Theorem secrets_stay_in_headers_and_bodies check flow vars vars' :
  same_public vars vars' →
  alike leaks_nothing (resolve_http_spec check vars) (resolve_http_spec check vars') ∧
  alike (λ c c', FlowCheck.start_url c = FlowCheck.start_url c' ∧
           Forall2 (λ s s', match s, s' with
                            | FlowStep.Fill sel _, FlowStep.Fill sel' _ => sel = sel'
                            | _, _ => s = s'
                            end) (FlowCheck.steps c) (FlowCheck.steps c'))
    (resolve_flow_spec flow vars) (resolve_flow_spec flow vars').
Proof.
  intros Hs. split.
  - eapply alike_bind with (R := λ r r', ResolvedHttp.url r = ResolvedHttp.url r' ∧
      ResolvedHttp.expected_body_contains r = ResolvedHttp.expected_body_contains r' ∧
      dom (ResolvedHttp.headers r) = dom (ResolvedHttp.headers r')).
    + unfold resolve_http. eapply alike_bind; [by apply resolve_alike|]. intros url url' Hu.
      eapply alike_bind.
      { apply (alike_try_map (λ h h' : string * string, h.1 = h'.1)). intros kv _.
        unfold resolve_header. eapply alike_bind; [by apply resolve_alike|]. done. }
      intros hs hs' Hh. eapply alike_bind; [apply alike_try_option; intros b; by apply resolve_alike|].
      intros b b' _. eapply alike_bind; [apply alike_try_option; intros a; by apply resolve_alike|].
      intros a a' Ha. simpl. split_and!; [by apply Hu| |].
      * destruct Ha as [x y Hxy|]; [|done]. f_equal. by apply Hxy.
      * rewrite !dom_list_to_map_L. f_equal. clear -Hh. by induction Hh; csimpl; f_equal.
    + intros r r' (Hu & Ha & Hd). rewrite <-Hu. destruct (url_parse _); simpl; [|done].
      by split_and!.
  - eapply alike_bind.
    { apply alike_try_map. intros s _. instantiate (1 := λ s s', match s, s' with
        | FlowStep.Fill sel _, FlowStep.Fill sel' _ => sel = sel' | _, _ => s = s' end).
      destruct s; simpl; try done.
      eapply alike_bind; [by apply resolve_alike|]. done. }
    intros ss ss' Hss. simpl. split; done.
Qed.
End Secrets.

(** ** Checks without variables *)
Section TokenFree.
Context `{UrlLibrary, HashOrder}.

Lemma contains_drop k s needle : contains s needle = false → contains (drop_chars k s) needle = false.
Proof.
  revert k. induction s as [|a s IH]; intros [|k] Hs; try done. rewrite drop_chars_S. apply IH.
  simpl in Hs. by apply orb_false_iff in Hs as [_ Hs].
Qed.

Lemma contains_prefix s needle : contains s needle = false → String.prefix needle s = false.
Proof. destruct s; simpl; by intros [? _]%orb_false_iff. Qed.

Lemma token_free_resolve s vars f : contains s "{{" = false → resolve s vars f = inr s.
Proof.
  unfold resolve. assert (String.length s ≤ String.length s)%nat as Hn by done.
  revert Hn. generalize (String.length s) at 2 3 as n. intros n. revert s.
  induction n as [|n IH]; intros [|a s] Hn Hs; simpl in Hn; try done; [lia|].
  cbn [resolve_from]. rewrite (contains_prefix _ _ Hs).
  pose proof (utf8_len_pos a).
  rewrite IH; [|rewrite length_drop_chars; simpl; lia|by apply contains_drop].
  simpl. by rewrite take_drop_chars.
Qed.

Lemma try_map_id {A} (f : A → Resolved A) l : (∀ a, a ∈ l → f a = inr a) → try_map f l = inr l.
Proof.
  induction l as [|a l IH]; intros Hf; simpl; [done|].
  rewrite (Hf a) by (by left). simpl. rewrite IH; [done|]. intros x Hx. apply Hf. by right.
Qed.

Lemma existsb_false {A} (p : A → bool) l x : existsb p l = false → x ∈ l → p x = false.
Proof.
  intros Hp Hx. destruct (p x) eqn:Hpx; [|done].
  assert (existsb p l = true); [|congruence]. apply existsb_exists. exists x.
  split; [by apply list_elem_of_In|done].
Qed.

Lemma list_to_map_hash_order {A} (m : gmap string A) : list_to_map (hash_order m) = m.
Proof.
  rewrite <-(list_to_map_to_list m) at 2. apply list_to_map_proper; [|apply hash_order_perm].
  rewrite (fmap_Permutation _ _ _ (hash_order_perm A m)). apply NoDup_fst_map_to_list.
Qed.

(** A check without variables is probed as it is stored. When the gate of the
    hot path finds no token in any field (and the URL no lone encoded closing
    braces), resolving against any variables gives the check back unchanged, so
    skipping the resolution skips nothing; the same for a flow. *)
Theorem token_free_checks_are_unchanged check flow vars :
  url_parse (url_as_str (HttpCheck.url check)) = Some (HttpCheck.url check) →
  uses_vars check = false →
  contains (url_as_str (HttpCheck.url check)) "%7D%7D" = false →
  flow_uses_vars flow = false →
  resolve_http_spec check vars = inr check ∧ resolve_flow_spec flow vars = inr flow.
Proof.
  intros Hparse Huses Hclose Hflow. split.
  - unfold uses_vars in Huses.
    apply orb_false_iff in Huses as [Huses Ha]. apply orb_false_iff in Huses as [Huses Hb].
    apply orb_false_iff in Huses as [Huses Hh]. apply orb_false_iff in Huses as [Hu1 Hu2].
    unfold resolve_http_spec, resolve_http, decode_brace_tokens. rewrite Hu2, Hclose. simpl.
    rewrite token_free_resolve by done. simpl. rewrite try_map_id.
    2:{ intros [k v] Hkv. unfold resolve_header. simpl.
        rewrite token_free_resolve; [done|]. exact (existsb_false _ _ (k, v) Hh Hkv). }
    simpl. assert (∀ f o, is_some_and (λ b, contains b "{{") o = false →
      try_option (λ b, resolve b vars f) o = inr o) as Hopt.
    { intros f [b|] Ho; simpl in *; [|done]. by rewrite token_free_resolve. }
    rewrite !Hopt by done. simpl. rewrite Hparse, list_to_map_hash_order. by destruct check.
  - unfold resolve_flow_spec. rewrite try_map_id; [by destruct flow|].
    intros s Hs. destruct s; try done. simpl.
    rewrite token_free_resolve; [done|]. exact (existsb_false _ _ _ Hflow Hs).
Qed.

(** ** The pull *)
Implicit Types (t : OrgId * CheckedTarget.t).

(** What the pull makes of one target. *)
Definition pulled (resolve_map : OrgId → result VarMap) t : option (OrgId * CheckedTarget.t) :=
  if spec_uses_vars (CheckedTarget.check t.2) then
    match resolve_map t.1 with
    | Err _ => None
    | Ok map =>
        match resolve_spec (CheckedTarget.check t.2) map with
        | inr spec => Some (t.1, {| CheckedTarget.row := CheckedTarget.row t.2;
                                    CheckedTarget.check := spec |})
        | inl _ => None
        end
    end
  else Some t.

Lemma maps_lookup resolve_map orgs (m : gmap OrgId VarMap) org :
  fold_left (λ maps org, match resolve_map org with
    | Ok map => <[org := map]> maps | Err _ => maps end) orgs m !! org
  = if bool_decide (org ∈ orgs) then match resolve_map org with Ok map => Some map | Err _ => m !! org end
    else m !! org.
Proof.
  revert m. induction orgs as [|o orgs IH]; intros m; simpl; [done|]. rewrite IH.
  destruct (decide (org = o)) as [->|Hne].
  - rewrite (bool_decide_true (o ∈ o :: orgs)) by left.
    destruct (resolve_map o); simpl; rewrite ?lookup_insert_eq; by destruct (bool_decide _).
  - assert (bool_decide (org ∈ o :: orgs) = bool_decide (org ∈ orgs)) as ->
      by (apply bool_decide_ext; set_solver).
    destruct (resolve_map o); simpl; [|done]. by rewrite lookup_insert_ne.
Qed.

Lemma resolve_targets_loop_spec resolve_map (maps : gmap OrgId VarMap) targets :
  (∀ t, t ∈ targets → spec_uses_vars (CheckedTarget.check t.2) = true →
     maps !! t.1 = ok (resolve_map t.1)) →
  resolve_targets_loop maps targets = omap (pulled resolve_map) targets.
Proof.
  induction targets as [|[org target] rest IH]; intros Hm; [done|]. simpl. unfold pulled at 1. simpl.
  rewrite IH by (intros t Ht; apply Hm; by right).
  destruct (spec_uses_vars _) eqn:Hu; [|done].
  specialize (Hm (org, target) ltac:(left) Hu). simpl in Hm. rewrite Hm.
  destruct (resolve_map org); simpl; [|done]. by destruct (resolve_spec _ _).
Qed.

Lemma resolve_target_variables_spec resolve_map targets :
  resolve_target_variables resolve_map targets = omap (pulled resolve_map) targets.
Proof.
  unfold resolve_target_variables.
  set (users := List.filter _ targets). set (orgs := remove_dups users.*1).
  assert (Horgs : ∀ t, t ∈ targets → spec_uses_vars (CheckedTarget.check t.2) = true → t.1 ∈ orgs).
  { intros t Ht Hu. apply elem_of_remove_dups, list_elem_of_fmap_2, elem_of_lfilter. done. }
  destruct orgs as [|o orgs'] eqn:Ho.
  - symmetry. clearbody users. assert (∀ t, t ∈ targets → pulled resolve_map t = Some t) as Hall.
    { intros t Ht. unfold pulled. destruct (spec_uses_vars _) eqn:Hu; [|done].
      by apply (Horgs t Ht), not_elem_of_nil in Hu. }
    clear -Hall. induction targets as [|t ts IH]; [done|]. simpl. rewrite Hall by left.
    f_equal. apply IH. intros x Hx. apply Hall. by right.
  - rewrite <-Ho in *. apply resolve_targets_loop_spec. intros t Ht Hu.
    rewrite maps_lookup, bool_decide_true by by apply Horgs.
    by destruct (resolve_map t.1).
Qed.
(** One broken target never blinds the region. The pull answers for each
    target on its own, in order: one without variables passes as it is, whatever
    its organisation's variables do; one with variables goes out resolved, and
    is left out exactly when its organisation's
    variables cannot be read or do not resolve it. *)
Theorem pull_drops_only_the_broken resolve_map targets :
  resolve_target_variables resolve_map targets = omap (pulled resolve_map) targets.
Proof. apply resolve_target_variables_spec. Qed.
End TokenFree.

(** ** Keys *)
Section Keys.

(** The storage's pattern [^[a-z][a-z0-9_]{0,62}$]. *)
Definition key_pattern (key : string) : Prop :=
  ∃ b rest, key = String b rest ∧ is_ascii_lowercase b = true ∧
    (String.length rest ≤ 62)%nat ∧ all_chars var_key_byte rest = true.

Lemma validate_var_key_pattern key : validate_var_key key = None ↔ key_pattern key.
Proof.
  unfold validate_var_key, key_pattern, MAX_VAR_KEY_LEN. destruct key as [|b rest].
  { split; [done|]. by intros (? & ? & ? & _). }
  destruct (63 <? _)%nat eqn:Hl; [apply Nat.ltb_lt in Hl|apply Nat.ltb_ge in Hl];
    cbn [String.length] in Hl.
  { split; [done|]. intros (? & ? & [= <- <-] & _ & ? & _). lia. }
  destruct (is_ascii_lowercase b) eqn:Hb; cbn [negb all_chars]; last first.
  { split; [done|]. intros (? & ? & [= <- <-] & ? & _). congruence. }
  assert (var_key_byte b = true) as -> by (unfold var_key_byte; by rewrite Hb).
  destruct (all_chars var_key_byte rest) eqn:Hr; split; try done.
  - intros _. exists b, rest. split_and!; [done|done|lia|done].
  - intros (? & ? & [= <- <-] & _ & _ & ?). congruence.
Qed.
End Keys.

(** ** An edited variable and the scheduler *)
Section Drift.
Context `{UrlLibrary, HashOrder, Idna}.
Implicit Types (t x : OrgId * CheckedTarget.t).

Lemma pulled_row resolve_map t x :
  pulled resolve_map t = Some x → x.1 = t.1 ∧ CheckedTarget.row x.2 = CheckedTarget.row t.2.
Proof.
  unfold pulled. intros Hp. destruct (spec_uses_vars _); [|by injection Hp as <-].
  destruct (resolve_map t.1); [|done]. destruct (resolve_spec _ _); [done|]. by injection Hp as <-.
Qed.

Lemma pull_distinct resolve_map targets :
  NoDup (row_id <$> targets) → NoDup (row_id <$> resolve_target_variables resolve_map targets).
Proof.
  intros Hnd. rewrite resolve_target_variables_spec.
  eapply sublist_NoDup; [exact Hnd|]. clear Hnd.
  induction targets as [|t ts IH]; csimpl; [constructor|].
  destruct (pulled resolve_map t) as [x|] eqn:Hp; csimpl; [|by constructor].
  apply pulled_row in Hp as [_ Hr]. unfold row_id at 1 3. rewrite Hr. by constructor.
Qed.

(** An edited variable does not reach the in-process scheduler. When the rows
    of a region are pulled twice with different variables, the second refresh
    reports no update, and every target of the first pull keeps the check that
    was resolved with the old values: an edit of a variable leaves the rows'
    [updated_at] as it was, and that is what the registry compares. *)
Theorem variable_edits_are_not_refreshed old new targets diff m diff' m' :
  NoDup (row_id <$> targets) →
  refresh (Ok (resolve_target_variables old targets)) ∅ = (Ok diff, m) →
  refresh (Ok (resolve_target_variables new targets)) m = (Ok diff', m') →
  RegistryDiff.updated diff' = [] ∧
  ∀ t x x', t ∈ targets → pulled old t = Some x → pulled new t = Some x' →
    m' !! row_id t = Some (built x).
Proof.
  intros Hnd R1 R2.
  destruct (refresh_spec _ ∅ (pull_distinct old targets Hnd))
    as (_ & d1 & n1 & Hr1 & _ & _ & _ & Hk1 & Ho1).
  destruct (refresh_spec _ m (pull_distinct new targets Hnd))
    as (_ & d2 & n2 & Hr2 & _ & Hu2 & _ & Hk2 & _).
  rewrite R1 in Hr1. rewrite R2 in Hr2. injection Hr1 as <- <-. injection Hr2 as <- <-.
  assert (Hres : ∀ t x, t ∈ targets → pulled old t = Some x → m !! row_id t = Some (built x)).
  { intros t x Ht Hp. pose proof (pulled_row _ _ _ Hp) as [_ Hrow].
    assert (row_id t = row_id x) as -> by (unfold row_id; by rewrite Hrow).
    rewrite Hk1; [|rewrite resolve_target_variables_spec; apply list_elem_of_omap; eauto].
    unfold kept. by rewrite lookup_empty. }
  assert (Hsame : ∀ t x x', pulled old t = Some x → pulled new t = Some x' →
    same_version (built x) (built x') = true).
  { intros t x x' [_ Hx]%pulled_row [_ Hx']%pulled_row. unfold same_version, built,
      ScheduledTarget.build, ScheduledTarget.updated_at, ScheduledTarget.interval. simpl.
    by rewrite Hx, Hx', !Z.eqb_refl. }
  split.
  - rewrite Hu2. rewrite lfilter_nil; [done|]. intros x' Hx'.
    rewrite resolve_target_variables_spec in Hx'. apply list_elem_of_omap in Hx' as (t & Ht & Hp').
    pose proof (pulled_row _ _ _ Hp') as [_ Hrow'].
    assert (row_id x' = row_id t) as Hid by (unfold row_id; by rewrite Hrow').
    unfold is_updated. rewrite Hid. destruct (pulled old t) as [x|] eqn:Hp.
    + rewrite (Hres t x Ht Hp). by rewrite (Hsame t x x').
    + rewrite Ho1; [done|]. rewrite resolve_target_variables_spec.
      intros (y & Hy & (t2 & Ht2 & Hp2)%list_elem_of_omap)%list_elem_of_fmap.
      pose proof (pulled_row _ _ _ Hp2) as [_ Hrow2].
      assert (row_id t = row_id t2) as Hid2 by (rewrite Hy; unfold row_id; by rewrite Hrow2).
      assert (t = t2) as <- by (eapply (NoDup_fmap_inj_elem row_id); eauto). congruence.
  - intros t x x' Ht Hp Hp'. pose proof (pulled_row _ _ _ Hp') as [_ Hrow'].
    assert (row_id x' = row_id t) as Hid by (unfold row_id; by rewrite Hrow').
    rewrite <-Hid, Hk2; [|rewrite resolve_target_variables_spec; apply list_elem_of_omap; eauto].
    unfold kept. rewrite Hid, (Hres t x Ht Hp). by rewrite (Hsame t x x').
Qed.
End Drift.

(** ** An API check with a key *)
Module InterpolateSample.
#[local] Existing Instance plain_urls.
#[local] Existing Instance plain_names.
#[local] Existing Instance key_order.

Definition http (url header : string) : HttpCheck.t := {|
  HttpCheck.url := url : Url; HttpCheck.method := HttpMethod.Get; HttpCheck.timeout := seconds 5;
  HttpCheck.follow_redirects := true; HttpCheck.max_redirects := 5;
  HttpCheck.expected_status := ExpectedStatus.Exact 200;
  HttpCheck.expected_body_contains := None; HttpCheck.headers := {["X-Api-Key" := header]};
  HttpCheck.body := None; HttpCheck.verify_tls := true; HttpCheck.basic_auth := None;
  HttpCheck.bearer_token := None |}.
Definition api : HttpCheck.t := http "https://{{host}}/v1" "{{ key }}".
Definition login (value : string) : FlowCheck.t := {|
  FlowCheck.start_url := "https://app.example.com" : Url;
  FlowCheck.steps := [FlowStep.Fill "#password" value; FlowStep.Click "#go"];
  FlowCheck.timeout := seconds 30; FlowCheck.step_timeout := seconds 5;
  FlowCheck.verify_tls := true |}.

Definition vars (host key : string) : VarMap :=
  {["host" := {| ResolvedVar.value := host; ResolvedVar.is_secret := false |};
    "key" := {| ResolvedVar.value := key; ResolvedVar.is_secret := true |}]}.

Lemma same_but_key : same_public (vars "a.example.com" "k1") (vars "a.example.com" "k2").
Proof.
  intros k. unfold vars. destruct (decide (k = "host")) as [->|Hh].
  { rewrite !lookup_insert_eq. by constructor. }
  rewrite !(lookup_insert_ne _ "host") by done. destruct (decide (k = "key")) as [->|Hk].
  { rewrite !lookup_singleton_eq. by constructor. }
  rewrite !lookup_singleton_ne by done. constructor.
Qed.

Lemma interpolation_is_one_pass_witness :
  resolve_from 40 (vars "a" "{{host}}") FieldKind.HeaderValue "k={{ key }}"
    = resolve "k={{ key }}" (vars "a" "{{host}}") FieldKind.HeaderValue ∧
  resolve "k={{ key }}" (vars "a" "{{host}}") FieldKind.HeaderValue = inr "k={{host}}".
Proof.
  split; [|by vm_compute].
  apply (interpolation_is_one_pass "k={{ key }}" (vars "a" "{{host}}") FieldKind.HeaderValue).
  simpl. lia.
Defined.

Lemma secrets_stay_in_headers_and_bodies_witness :
  alike leaks_nothing (resolve_http_spec api (vars "a.example.com" "k1"))
    (resolve_http_spec api (vars "a.example.com" "k2")) ∧
  resolve_http_spec api (vars "a.example.com" "k2")
    = inr (http "https://a.example.com/v1" "k2").
Proof.
  split; [|vm_compute; reflexivity].
  exact (proj1 (secrets_stay_in_headers_and_bodies api (login "{{key}}") _ _ same_but_key)).
Defined.

Lemma token_free_checks_are_unchanged_witness :
  resolve_http_spec (http "https://a.example.com" "none") ∅ = inr (http "https://a.example.com" "none").
Proof.
  exact (proj1 (token_free_checks_are_unchanged (http "https://a.example.com" "none") (login "x") ∅
    eq_refl eq_refl eq_refl eq_refl)).
Defined.

(** The URL library encodes the spaces of a padded token in the path, and only
    the braces are decoded again. *)
Lemma padded_path_token_is_malformed :
  resolve (decode_brace_tokens "https://a.example.com/%7B%7B%20host%20%7D%7D")
    (vars "b" "k") FieldKind.Url = inl ResolveError.MalformedToken ∧
  resolve "{{ host }}" (vars "b" "k") FieldKind.HeaderValue = inr "b".
Proof. vm_compute. by split. Qed.

Definition api_target : OrgId * CheckedTarget.t :=
  (7%N, {| CheckedTarget.row := PoolSample.row 1%N; CheckedTarget.check := CheckSpec.Http api |}).
Definition region : list (OrgId * CheckedTarget.t) := [api_target].
Definition before (org : OrgId) : result VarMap := Ok (vars "a.example.com" "k").
Definition edited (org : OrgId) : result VarMap := Ok (vars "b.example.com" "k").
Definition first_refresh := refresh (Ok (resolve_target_variables before region)) ∅.
Definition second_refresh := refresh (Ok (resolve_target_variables edited region)) first_refresh.2.

Definition host_of_1 (m : gmap Uuid ScheduledTarget.t) : option string :=
  ScheduledTarget.breaker_key <$> m !! 1%N.

Lemma variable_edits_are_not_refreshed_witness :
  host_of_1 second_refresh.2 = Some "https://a.example.com/v1".
Proof.
  assert (∃ d, first_refresh = (Ok d, first_refresh.2)) as [d1 R1] by
    (eexists; vm_compute; reflexivity).
  assert (∃ d, second_refresh = (Ok d, second_refresh.2)) as [d2 R2] by
    (eexists; vm_compute; reflexivity).
  destruct (variable_edits_are_not_refreshed before edited region d1 first_refresh.2 d2
    second_refresh.2 ltac:(apply (bool_decide_unpack _); vm_compute; exact I) R1 R2) as [_ H].
  assert (∃ x, pulled before api_target = Some x) as [x Hx] by (eexists; vm_compute; reflexivity).
  assert (∃ x, pulled edited api_target = Some x) as [x' Hx'] by (eexists; vm_compute; reflexivity).
  pose proof (H api_target x x' ltac:(left) Hx Hx') as Hm.
  transitivity (ScheduledTarget.breaker_key <$> Some (built x));
    [exact (f_equal (fmap ScheduledTarget.breaker_key) Hm)|].
  vm_compute in Hx. injection Hx as <-. vm_compute. reflexivity.
Defined.
End InterpolateSample.
