(* ===== verification/Redaction.v ===== *)
(** * Redaction

    src/api/redaction.rs: what is masked before a check, a probe's evidence or a
    URL leaves the server: resolved secrets by their text, credentials of a
    check by their place, and URL parameters by their name.

    The rewriting of a parsed URL ([set_username] and its siblings) is a parameter,
    as the URL library is. A key's characters are taken byte by byte: those outside
    ASCII separate words, as they do character by character. *)

From Stdlib Require Import Ascii.
From S2P Require Import Prelude Text Domain CheckSpec Heartbeat.
From S2P Require Import Breaker HostThrottle Pool Scheduler Interpolate.

Definition REDACTED : string := "***".

(** ** Resolved secrets *)
Section Secrets.
Context `{HashOrder}.

Definition secret_values (vars : VarMap) : list string :=
  ResolvedVar.value <$> List.filter
    (λ v, ResolvedVar.is_secret v && (4 <=? String.length (ResolvedVar.value v))%nat)
    ((hash_order vars).*2).
End Secrets.

Definition redact_one (s secret : string) : string :=
  if contains s secret then replace secret REDACTED s else s.
Definition redact_secrets (s : string) (secrets : list string) : string :=
  fold_left redact_one secrets s.

(** ** Parameters of URLs *)
Definition SECRET_KEY_SEGMENTS : list string :=
  ["code"; "state"; "sid"; "jwt"; "pw"; "otp"; "ticket"; "key"; "sig"].
Definition SECRET_PARAMS_CONTAINING : list string :=
  ["token"; "secret"; "password"; "passwd"; "signature"; "assertion"; "session"; "apikey";
   "samlresponse"; "credential"; "bearer"].

Definition is_ascii_alphanumeric (a : ascii) : bool :=
  is_ascii_uppercase a || is_ascii_lowercase a || is_ascii_digit a.

Fixpoint keep_chars (p : ascii → bool) (s : string) : string :=
  match s with
  | EmptyString => ""
  | String a s => if p a then String a (keep_chars p s) else keep_chars p s
  end.
Definition first_char (s : string) : option ascii :=
  match s with EmptyString => None | String a _ => Some a end.

Definition push_word (word : string) (rest : list string) : list string :=
  if String.eqb word "" then rest else word :: rest.

(** The words of what follows [prev], with [word] begun. *)
Fixpoint key_words_from (prev : option ascii) (word s : string) : list string :=
  match s with
  | EmptyString => push_word word []
  | String c s =>
      if negb (is_ascii_alphanumeric c) then push_word word (key_words_from (Some c) "" s)
      else
        let next := first_char s in
        let hump := is_ascii_uppercase c
          && (is_some_and (λ p, is_ascii_lowercase p || is_ascii_digit p) prev
              || (is_some_and is_ascii_uppercase prev && is_some_and is_ascii_lowercase next)) in
        let lower := String (ascii_lower c) "" in
        if hump && negb (String.eqb word "")
        then word :: key_words_from (Some c) lower s
        else key_words_from (Some c) (word +:+ lower) s
  end.
Definition key_words (key : string) : list string := key_words_from None "" key.

Definition is_secret_param (key : string) : bool :=
  let compact := to_ascii_lowercase (keep_chars is_ascii_alphanumeric key) in
  existsb (contains compact) SECRET_PARAMS_CONTAINING
  || existsb (λ w, existsb (String.eqb w) SECRET_KEY_SEGMENTS) (key_words key).

Definition scrub_pair (pair : string) : string :=
  match split_once "="%char pair with
  | Some (k, _) => if is_secret_param k then k +:+ "=" +:+ REDACTED else pair
  | None => pair
  end.
Definition scrub_pairs (pairs : string) : string :=
  join "&" (scrub_pair <$> split_on (Ascii.eqb "&"%char) pairs).

Definition scrub_fragment (fragment : string) : string :=
  match split_once "?"%char fragment with
  | Some (route, params) => route +:+ "?" +:+ scrub_pairs params
  | None => if contains fragment "=" then scrub_pairs fragment else fragment
  end.

(** [head.split_once("://")]. *)
Fixpoint split_scheme (s : string) : option (string * string) :=
  match s with
  | EmptyString => None
  | String a s' =>
      if String.prefix "://" s then Some ("", drop_chars 3 s)
      else match split_scheme s' with Some (k, v) => Some (String a k, v) | None => None end
  end.

(** [rest.split_at(i)] at the first slash. *)
Definition split_path (rest : string) : string * string :=
  match split_once "/"%char rest with
  | Some (authority, path) => (authority, "/" +:+ path)
  | None => (rest, "")
  end.

Definition strip_userinfo (head : string) : string :=
  match split_scheme head with
  | None => head
  | Some (scheme, rest) =>
      let '(authority, path) := split_path rest in
      if existsb (Ascii.eqb "@"%char) (String.list_ascii_of_string authority)
      then scheme +:+ "://" +:+ after_last "@"%char authority +:+ path
      else head
  end.

Section Urls.
Context `{UrlLibrary}.

Definition scrub_url (raw : string) : string :=
  let '(before_fragment, fragment) :=
    match split_once "#"%char raw with Some (b, f) => (b, Some f) | None => (raw, None) end in
  let '(head, query) :=
    match split_once "?"%char before_fragment with
    | Some (h, q) => (h, Some q) | None => (before_fragment, None) end in
  match url_parse raw with
  | None => strip_userinfo head
  | Some _ =>
      strip_userinfo head
      +:+ match query with Some q => "?" +:+ scrub_pairs q | None => "" end
      +:+ match fragment with Some f => "#" +:+ scrub_fragment f | None => "" end
  end.
End Urls.

(** src/domain/agent_wire.rs: what a failed flow left on the page. *)
Module ConsoleLine.
Record t := { level : string; text : string }.
End ConsoleLine.
Module FlowEvidence.
Record t := {
  final_url : option string;
  title : option string;
  text_snippet : option string;
  console : list ConsoleLine.t;
}.
End FlowEvidence.

Definition scrub_flow_evidence `{UrlLibrary} (ev : FlowEvidence.t) (secrets : list string)
    : FlowEvidence.t :=
  let final_url := scrub_url <$> FlowEvidence.final_url ev in
  match secrets with
  | [] => {| FlowEvidence.final_url := final_url; FlowEvidence.title := FlowEvidence.title ev;
             FlowEvidence.text_snippet := FlowEvidence.text_snippet ev;
             FlowEvidence.console := FlowEvidence.console ev |}
  | _ =>
      let scrub s := redact_secrets s secrets in {|
      FlowEvidence.final_url := scrub <$> final_url;
      FlowEvidence.title := scrub <$> FlowEvidence.title ev;
      FlowEvidence.text_snippet := scrub <$> FlowEvidence.text_snippet ev;
      FlowEvidence.console := (λ line, {| ConsoleLine.level := ConsoleLine.level line;
        ConsoleLine.text := scrub (ConsoleLine.text line) |}) <$> FlowEvidence.console ev |}
  end.

(** ** Checks *)
Class UrlRewriting `{UrlLibrary} := {
  clear_userinfo : Url → Url;
  clear_query : Url → Url;
  clear_fragment : Url → Url;
}.

Section Checks.
Context `{UrlRewriting}.

Definition redact_http (http : HttpCheck.t) : HttpCheck.t := {|
  HttpCheck.url := HttpCheck.url http; HttpCheck.method := HttpCheck.method http;
  HttpCheck.timeout := HttpCheck.timeout http;
  HttpCheck.follow_redirects := HttpCheck.follow_redirects http;
  HttpCheck.max_redirects := HttpCheck.max_redirects http;
  HttpCheck.expected_status := HttpCheck.expected_status http;
  HttpCheck.expected_body_contains := HttpCheck.expected_body_contains http;
  HttpCheck.headers := HttpCheck.headers http; HttpCheck.body := HttpCheck.body http;
  HttpCheck.verify_tls := HttpCheck.verify_tls http;
  HttpCheck.basic_auth := (λ _, (REDACTED, REDACTED)) <$> HttpCheck.basic_auth http;
  HttpCheck.bearer_token := (λ _, REDACTED) <$> HttpCheck.bearer_token http |}.

Definition redact_step (s : FlowStep.t) : FlowStep.t :=
  match s with FlowStep.Fill selector _ => FlowStep.Fill selector REDACTED | _ => s end.

Definition redact_flow (flow : FlowCheck.t) : FlowCheck.t := {|
  FlowCheck.start_url := FlowCheck.start_url flow;
  FlowCheck.steps := redact_step <$> FlowCheck.steps flow;
  FlowCheck.timeout := FlowCheck.timeout flow;
  FlowCheck.step_timeout := FlowCheck.step_timeout flow;
  FlowCheck.verify_tls := FlowCheck.verify_tls flow |}.

Definition redact_check (check : CheckSpec.t) : CheckSpec.t :=
  match check with
  | CheckSpec.Http http => CheckSpec.Http (redact_http http)
  | CheckSpec.Flow flow => CheckSpec.Flow (redact_flow flow)
  | _ => check
  end.

Definition strip_url_credentials (url : Url) : Url :=
  clear_fragment (clear_query (clear_userinfo url)).

Definition publish_http (http : HttpCheck.t) : HttpCheck.t := {|
  HttpCheck.url := strip_url_credentials (HttpCheck.url http);
  HttpCheck.method := HttpCheck.method http;
  HttpCheck.timeout := HttpCheck.timeout http;
  HttpCheck.follow_redirects := HttpCheck.follow_redirects http;
  HttpCheck.max_redirects := HttpCheck.max_redirects http;
  HttpCheck.expected_status := HttpCheck.expected_status http;
  HttpCheck.expected_body_contains := HttpCheck.expected_body_contains http;
  HttpCheck.headers := (λ _, REDACTED) <$> HttpCheck.headers http;
  HttpCheck.body := (λ _, REDACTED) <$> HttpCheck.body http;
  HttpCheck.verify_tls := HttpCheck.verify_tls http;
  HttpCheck.basic_auth := HttpCheck.basic_auth http;
  HttpCheck.bearer_token := HttpCheck.bearer_token http |}.

Definition publish_step (s : FlowStep.t) : FlowStep.t :=
  match s with FlowStep.Goto url => FlowStep.Goto (strip_url_credentials url) | _ => s end.

Definition publish_flow (flow : FlowCheck.t) : FlowCheck.t := {|
  FlowCheck.start_url := strip_url_credentials (FlowCheck.start_url flow);
  FlowCheck.steps := publish_step <$> FlowCheck.steps flow;
  FlowCheck.timeout := FlowCheck.timeout flow;
  FlowCheck.step_timeout := FlowCheck.step_timeout flow;
  FlowCheck.verify_tls := FlowCheck.verify_tls flow |}.

Definition redact_check_for_public (check : CheckSpec.t) : CheckSpec.t :=
  match redact_check check with
  | CheckSpec.Http http => CheckSpec.Http (publish_http http)
  | CheckSpec.Flow flow => CheckSpec.Flow (publish_flow flow)
  | check => check
  end.
End Checks.

Example key_words_ex :
  (key_words "oobCode", key_words "SAMLResponse", key_words "X-Api-Key", key_words "codeword")
  = (["oob"; "code"], ["saml"; "response"], ["x"; "api"; "key"], ["codeword"]).
Proof. vm_compute. reflexivity. Qed.

Example scrub_ex :
  scrub_pairs "auth_code=abc&tenant=acme&access_token=t&codeword=keep"
  = "auth_code=***&tenant=acme&access_token=***&codeword=keep".
Proof. vm_compute. reflexivity. Qed.

(** ** No secret is left whole *)
Section NoSecretLeft.

Definition star : ascii := "*"%char.
Definition star_free (s : string) : bool := all_chars (λ a, negb (Ascii.eqb a star)) s.

Lemma prefix_cons a x b s :
  String.prefix (String a x) (String b s) = true ↔ a = b ∧ String.prefix x s = true.
Proof.
  unfold String.prefix; fold String.prefix. destruct (ascii_dec a b) as [->|]; [tauto|].
  split; [done|]. by intros [? _].
Qed.

Lemma replace_S n from to a s :
  replace_fuel (S n) from to (String a s)
    = if String.prefix from (String a s)
      then to +:+ replace_fuel n from to (drop_chars (String.length from) (String a s))
      else String a (replace_fuel n from to s).
Proof. done. Qed.

(** A starless text at the head of the result was at the head of the source, and
    the source does not start with what is replaced. *)
Lemma prefix_replaced n from x s :
  star_free x = true → String.prefix x (replace_fuel n from REDACTED s) = true →
  String.prefix x s = true.
Proof.
  revert x s. induction n as [|n IH]; intros x s Hx Hp; [done|]. destruct s as [|b s]; [done|].
  rewrite replace_S in Hp. destruct x as [|a x]; [by destruct (String b s)|].
  simpl in Hx. apply andb_true_iff in Hx as [Ha Hx].
  destruct (String.prefix from (String b s)).
  - unfold REDACTED in Hp. change ("***" +:+ ?r) with (String star ("**" +:+ r)) in Hp.
    apply prefix_cons in Hp as [-> _]. done.
  - apply prefix_cons in Hp as [-> Hp]. apply prefix_cons. split; [done|]. by apply IH.
Qed.

Lemma contains_cons a s x :
  contains (String a s) x = String.prefix x (String a s) || contains s x.
Proof. done. Qed.

Lemma not_prefix_star x r :
  star_free x = true → x ≠ "" → String.prefix x (String star r) = false.
Proof.
  destruct x as [|a x]; [done|]. intros Hx _. apply not_true_iff_false. intros [-> _]%prefix_cons.
  simpl in Hx. by apply andb_true_iff in Hx as [? _].
Qed.

Lemma contains_stars x r :
  star_free x = true → x ≠ "" → contains (REDACTED +:+ r) x = contains r x.
Proof.
  intros Hx Hne. unfold REDACTED.
  change ("***" +:+ r) with (String star (String star (String star r))).
  rewrite !contains_cons, !not_prefix_star by done. done.
Qed.

Lemma contains_drop_mono k s x : contains (drop_chars k s) x = true → contains s x = true.
Proof.
  intros Hc. destruct (contains s x) eqn:Hs; [done|]. by rewrite (contains_drop k s x Hs) in Hc.
Qed.

(** Replacing creates no occurrence of a starless text. *)
Lemma contains_replaced n from x s :
  star_free x = true → x ≠ "" → contains (replace_fuel n from REDACTED s) x = true →
  contains s x = true.
Proof.
  intros Hx Hne. revert s. induction n as [|n IH]; intros s Hc; [done|].
  destruct s as [|b s]; [done|]. rewrite replace_S in Hc.
  destruct (String.prefix from (String b s)) eqn:Hf.
  - rewrite contains_stars in Hc by done. apply IH in Hc. by apply contains_drop_mono in Hc.
  - rewrite contains_cons in Hc. apply orb_true_iff in Hc as [Hp|Hc].
    + rewrite contains_cons. apply orb_true_iff. left.
      apply (prefix_replaced (S n) from); [done|]. rewrite replace_S, Hf. exact Hp.
    + rewrite contains_cons, (IH s Hc). apply orb_true_r.
Qed.

(** What is replaced does not occur in the result. *)
Lemma replaced_is_gone n x s :
  star_free x = true → x ≠ "" → (String.length s ≤ n)%nat →
  contains (replace_fuel n x REDACTED s) x = false.
Proof.
  intros Hx Hne. revert s. induction n as [|n IH]; intros s Hn.
  { destruct s; [|simpl in Hn; lia]. by destruct x. }
  destruct s as [|b s]; [by destruct x|]. simpl in Hn. rewrite replace_S.
  destruct (String.prefix x (String b s)) eqn:Hf.
  - rewrite contains_stars by done. apply IH. rewrite length_drop_chars.
    destruct x; [done|]. simpl. lia.
  - rewrite contains_cons, IH, orb_false_r by lia. apply not_true_iff_false. intros Hp.
    assert (String.prefix x (String b s) = true); [|congruence].
    apply (prefix_replaced (S n) x); [done|]. by rewrite replace_S, Hf.
Qed.

Lemma redact_one_gone s x :
  star_free x = true → x ≠ "" → contains (redact_one s x) x = false.
Proof.
  intros Hx Hne. unfold redact_one. destruct (contains s x) eqn:Hc; [|done].
  unfold replace. by apply replaced_is_gone.
Qed.

Lemma redact_one_keeps s y x :
  star_free x = true → x ≠ "" → contains s x = false → contains (redact_one s y) x = false.
Proof.
  intros Hx Hne Hs. unfold redact_one. destruct (contains s y); [|done].
  apply not_true_iff_false. intros Hc. unfold replace in Hc.
  apply contains_replaced in Hc; [congruence|done|done].
Qed.

Lemma redact_secrets_keeps s secrets x :
  star_free x = true → x ≠ "" → contains s x = false → contains (redact_secrets s secrets) x = false.
Proof.
  intros Hx Hne. unfold redact_secrets. revert s.
  induction secrets as [|y l IH]; intros s Hs; simpl; [done|]. by apply IH, redact_one_keeps.
Qed.

(** No secret is shown whole. Whatever text a probe captured, after the
    redaction it contains none of the org's secrets of four bytes or more (written
    without asterisks), however many there are, in whatever order they are struck
    out, and however they overlap. *)
Theorem no_secret_survives_whole `{HashOrder} vars v s :
  (∃ k, vars !! k = Some v) → ResolvedVar.is_secret v = true →
  (4 ≤ String.length (ResolvedVar.value v))%nat → star_free (ResolvedVar.value v) = true →
  contains (redact_secrets s (secret_values vars)) (ResolvedVar.value v) = false.
Proof.
  intros [k Hk] Hsec Hlen Hstar.
  assert (ResolvedVar.value v ∈ secret_values vars) as Hin.
  { unfold secret_values. apply list_elem_of_fmap_2, elem_of_lfilter. split.
    - apply list_elem_of_fmap. exists (k, v). split; [done|].
      rewrite hash_order_perm. by apply elem_of_map_to_list.
    - rewrite Hsec. by apply Nat.leb_le. }
  assert (ResolvedVar.value v ≠ "") as Hne by (intros Heq; rewrite Heq in Hlen; simpl in Hlen; lia).
  apply list_elem_of_split in Hin as (l1 & l2 & Heq). rewrite Heq.
  unfold redact_secrets. rewrite fold_left_app. simpl.
  apply redact_secrets_keeps; [done|done|]. by apply redact_one_gone.
Qed.
End NoSecretLeft.

(** A secret that begins another is struck out of it, and the rest stays. *)
Lemma longer_secret_leaks_its_tail :
  redact_secrets "key abcdefgh!" ["abcd"; "abcdefgh"] = "key ***efgh!" ∧
  redact_secrets "key abcdefgh!" ["abcdefgh"; "abcd"] = "key ***!".
Proof. vm_compute. by split. Qed.

(** ** Pairs *)
Section Pairs.
#[local] Arguments String.append : simpl nomatch.

Lemma split_on_cons p s : ∃ w ws, split_on p s = w :: ws.
Proof.
  destruct s as [|a s]; simpl; [eauto|]. destruct (p a); [eauto|].
  destruct (split_on p s); eauto.
Qed.

Lemma join_split s : join "&" (split_on (Ascii.eqb "&"%char) s) = s.
Proof.
  induction s as [|a s IH]; [done|]. cbn [split_on].
  destruct (split_on_cons (Ascii.eqb "&"%char) s) as (w & ws & Hw). rewrite Hw in IH |- *.
  destruct (Ascii.eqb_spec "&"%char a) as [<-|Hne].
  - change (join "&" ("" :: w :: ws)) with ("&" +:+ join "&" (w :: ws)). by rewrite IH.
  - destruct ws as [|v vs].
    + simpl in *. by rewrite IH.
    + change (join "&" (String a w :: v :: vs)) with (String a (join "&" (w :: v :: vs))).
      by rewrite IH.
Qed.

Definition plain_pair (pair : string) : bool :=
  match split_once "="%char pair with Some (k, _) => negb (is_secret_param k) | None => true end.

(** A URL keeps what is no credential, byte for byte. A pair list none of
    whose keys reads like a credential comes back unchanged. *)
Theorem scrub_keeps_plain_pairs pairs :
  forallb plain_pair (split_on (Ascii.eqb "&"%char) pairs) = true → scrub_pairs pairs = pairs.
Proof.
  intros Hall. unfold scrub_pairs.
  assert (scrub_pair <$> split_on (Ascii.eqb "&"%char) pairs = split_on (Ascii.eqb "&"%char) pairs) as ->.
  { rewrite forallb_forall in Hall. rewrite <-(list_fmap_id (split_on _ pairs)) at 2.
    apply list_fmap_ext. intros i p Hp. apply list_elem_of_lookup_2, list_elem_of_In, Hall in Hp.
    unfold scrub_pair, plain_pair in *. destruct (split_once _ p) as [[k v]|]; [|done].
    by destruct (is_secret_param k). }
  apply join_split.
Qed.
End Pairs.

(** ** Checks shown outside *)
Section Public.
Context `{UrlRewriting}.

(** Two checks of one shape: they differ in credentials only. *)
Definition same_but_credentials (c c' : CheckSpec.t) : Prop :=
  match c, c' with
  | CheckSpec.Http h, CheckSpec.Http h' =>
      strip_url_credentials (HttpCheck.url h) = strip_url_credentials (HttpCheck.url h') ∧
      HttpCheck.method h = HttpCheck.method h' ∧ HttpCheck.timeout h = HttpCheck.timeout h' ∧
      HttpCheck.follow_redirects h = HttpCheck.follow_redirects h' ∧
      HttpCheck.max_redirects h = HttpCheck.max_redirects h' ∧
      HttpCheck.expected_status h = HttpCheck.expected_status h' ∧
      HttpCheck.expected_body_contains h = HttpCheck.expected_body_contains h' ∧
      dom (HttpCheck.headers h) = dom (HttpCheck.headers h') ∧
      is_some (HttpCheck.body h) = is_some (HttpCheck.body h') ∧
      HttpCheck.verify_tls h = HttpCheck.verify_tls h' ∧
      is_some (HttpCheck.basic_auth h) = is_some (HttpCheck.basic_auth h') ∧
      is_some (HttpCheck.bearer_token h) = is_some (HttpCheck.bearer_token h')
  | CheckSpec.Flow f, CheckSpec.Flow f' =>
      strip_url_credentials (FlowCheck.start_url f) = strip_url_credentials (FlowCheck.start_url f') ∧
      Forall2 (λ s s', match s, s' with
        | FlowStep.Fill sel _, FlowStep.Fill sel' _ => sel = sel'
        | FlowStep.Goto u, FlowStep.Goto u' => strip_url_credentials u = strip_url_credentials u'
        | _, _ => s = s'
        end) (FlowCheck.steps f) (FlowCheck.steps f') ∧
      FlowCheck.timeout f = FlowCheck.timeout f' ∧
      FlowCheck.step_timeout f = FlowCheck.step_timeout f' ∧
      FlowCheck.verify_tls f = FlowCheck.verify_tls f'
  | _, _ => c = c'
  end.

Lemma masked_option {A} (x : A) (o o' : option A) :
  is_some o = is_some o' → (λ _, x) <$> o = (λ _, x) <$> o'.
Proof. by destruct o, o'. Qed.

Lemma masked_headers (m m' : gmap string string) (x : string) :
  dom m = dom m' → (λ _, x) <$> m = (λ _, x) <$> m'.
Proof.
  intros Hd. apply map_eq. intros k. rewrite !lookup_fmap.
  assert (is_Some (m !! k) ↔ is_Some (m' !! k)) as Hiff by (by rewrite <-!elem_of_dom, Hd).
  destruct (m !! k), (m' !! k); simpl; try done; exfalso; apply (is_Some_None (A := string)); naive_solver.
Qed.

(** The public view shows no credential. Two checks that differ only in their
    credentials (header values, body, basic auth, bearer token, typed values,
    and the userinfo, query and fragment of their URLs) look the same to a viewer
    outside the organisation. *)
Theorem public_view_hides_credentials c c' :
  same_but_credentials c c' → redact_check_for_public c = redact_check_for_public c'.
Proof.
  destruct c as [h| | | | | | |f], c' as [h'| | | | | | |f']; simpl; try done; try congruence.
  - intros (Hu & Hm & Ht & Hfr & Hmr & Hes & Hea & Hh & Hb & Hv & Hba & Hbt).
    unfold redact_check_for_public, redact_check, publish_http, redact_http. simpl.
    rewrite Hu, Hm, Ht, Hfr, Hmr, Hes, Hea, Hv.
    by rewrite (masked_headers _ _ _ Hh), (masked_option _ _ _ Hb), (masked_option _ _ _ Hba),
      (masked_option _ _ _ Hbt).
  - intros (Hu & Hs & Ht & Hst & Hv).
    unfold redact_check_for_public, redact_check, publish_flow, redact_flow. simpl.
    rewrite Hu, Ht, Hst, Hv. do 2 f_equal.
    induction Hs as [|s s' l l' Hss _ IH]; csimpl; [done|]. rewrite IH. f_equal.
    destruct s, s'; simpl in *; congruence.
Qed.
End Public.

(** ** A check shared outside *)
Module RedactionSample.
#[local] Existing Instance plain_urls.
#[local] Existing Instance key_order.
#[local] Instance keep_urls : UrlRewriting :=
  {| clear_userinfo u := u; clear_query u := u; clear_fragment u := u |}.

Lemma no_secret_survives_whole_witness :
  contains (redact_secrets "token=hunter22; again hunter22" (secret_values
    (InterpolateSample.vars "a" "hunter22"))) "hunter22" = false.
Proof.
  apply (no_secret_survives_whole (InterpolateSample.vars "a" "hunter22")
    {| ResolvedVar.value := "hunter22"; ResolvedVar.is_secret := true |}).
  - exists "key". vm_compute. reflexivity.
  - reflexivity.
  - simpl. lia.
  - reflexivity.
Defined.

Lemma scrub_keeps_plain_pairs_witness : scrub_pairs "tenant=acme&page=2" = "tenant=acme&page=2".
Proof. apply (scrub_keeps_plain_pairs "tenant=acme&page=2"). vm_compute. reflexivity. Defined.

Lemma public_view_hides_credentials_witness :
  redact_check_for_public (CheckSpec.Http (InterpolateSample.http "https://a.example.com" "k1"))
    = redact_check_for_public (CheckSpec.Http (InterpolateSample.http "https://a.example.com" "k2")).
Proof.
  apply (public_view_hides_credentials
    (CheckSpec.Http (InterpolateSample.http "https://a.example.com" "k1"))
    (CheckSpec.Http (InterpolateSample.http "https://a.example.com" "k2"))).
  repeat split; vm_compute; reflexivity.
Defined.
End RedactionSample.
