(* ===== verification/Plans.v ===== *)
(** * Plans

    src/domain/quota.rs (the plan row, its windows and the TTL stamps), the merge
    of overrides and add-ons of src/quotas/service.rs ([resolve]), and
    src/quotas/effective.rs (the floor a plan puts under intervals, the region
    caps of the pull).

    The caps are [i32]s, as Z with their range; queries and caches are left out:
    [resolve] starts from the rows they read. *)

From S2P Require Import Prelude Text Domain Target CheckSpec.

(** ** src/domain/quota.rs *)
Module Plan.
Record t := {
  id : string;
  name : string;
  description : string;
  max_targets : Z;
  min_check_interval_secs : Z;
  retention_days : Z;
  raw_days : Z;
  evidence_days : Z;
  max_members : Z;
  max_pending_invitations : Z;
  max_api_tokens_per_user : Z;
  max_public_components : Z;
  max_status_pages : Z;
  max_share_links_per_monitor : Z;
  max_shared_monitors : Z;
  max_maintenance_windows : Z;
  max_notification_channels : Z;
  max_escalation_policies : Z;
  max_on_call_schedules : Z;
  max_logo_size_bytes : Z;
  max_regions : Z;
  max_orgs : Z;
  api_writes_per_minute : Z;
  api_reads_per_minute : Z;
  bulk_ops_per_minute : Z;
  test_now_per_minute : Z;
  check_now_per_minute : Z;
  custom_domain_enabled : bool;
  white_label_enabled : bool;
  sms_alerts_enabled : bool;
  incident_narration_enabled : bool;
  on_call_enabled : bool;
  max_flow_checks : Z;
  max_flow_steps : Z;
  is_listed : bool;
  created_at : DateTime;
  updated_at : DateTime;
}.

Definition RAW_MAX_DAYS : Z := 90.
Definition HISTORY_MAX_DAYS : Z := 395.
Definition history_window_days (p : t) : Z := Z.min (retention_days p) HISTORY_MAX_DAYS.
Definition raw_window_days (p : t) : Z := Z.min (raw_days p) RAW_MAX_DAYS.
End Plan.

Module PlanLimits.
Record t := {
  max_targets : Z;
  min_check_interval_secs : Z;
  retention_days : Z;
  max_members : Z;
  max_pending_invitations : Z;
  max_api_tokens_per_user : Z;
  max_public_components : Z;
  max_status_pages : Z;
  max_maintenance_windows : Z;
  max_notification_channels : Z;
  max_logo_size_bytes : Z;
}.
End PlanLimits.

Definition limits (p : Plan.t) : PlanLimits.t := {|
  PlanLimits.max_targets := Plan.max_targets p;
  PlanLimits.min_check_interval_secs := Plan.min_check_interval_secs p;
  PlanLimits.retention_days := Plan.retention_days p;
  PlanLimits.max_members := Plan.max_members p;
  PlanLimits.max_pending_invitations := Plan.max_pending_invitations p;
  PlanLimits.max_api_tokens_per_user := Plan.max_api_tokens_per_user p;
  PlanLimits.max_public_components := Plan.max_public_components p;
  PlanLimits.max_status_pages := Plan.max_status_pages p;
  PlanLimits.max_maintenance_windows := Plan.max_maintenance_windows p;
  PlanLimits.max_notification_channels := Plan.max_notification_channels p;
  PlanLimits.max_logo_size_bytes := Plan.max_logo_size_bytes p |}.

(** [as u16] keeps sixteen bits. *)
Definition U16 : Z := 65536.
Definition raw_ttl_days (raw_days : Z) : Z := clamp 1 Plan.RAW_MAX_DAYS raw_days mod U16.
Definition evidence_ttl_days (evidence_days raw_days : Z) : Z :=
  let row := raw_ttl_days raw_days in clamp 1 row evidence_days mod U16.

(** ** src/quotas/service.rs *)
Module PlanOverrides.
Record t := {
  max_targets : option Z;
  min_check_interval_secs : option Z;
  retention_days : option Z;
  max_members : option Z;
  max_pending_invitations : option Z;
  max_api_tokens_per_user : option Z;
  max_public_components : option Z;
  max_status_pages : option Z;
  max_share_links_per_monitor : option Z;
  max_shared_monitors : option Z;
  max_maintenance_windows : option Z;
  max_notification_channels : option Z;
  max_escalation_policies : option Z;
  max_on_call_schedules : option Z;
  max_regions : option Z;
  max_logo_size_bytes : option Z;
  max_orgs : option Z;
}.
End PlanOverrides.

(** An override is a [u32], a cap an [i32]. *)
Definition take_cap (v : option Z) (cur : Z) : Z :=
  match v with Some x => if x <=? I32_MAX then x else I32_MAX | None => cur end.

Definition apply_overrides (p : Plan.t) (ov : PlanOverrides.t) : Plan.t := {|
    Plan.id := Plan.id p;
    Plan.name := Plan.name p;
    Plan.description := Plan.description p;
    Plan.max_targets := take_cap (PlanOverrides.max_targets ov) (Plan.max_targets p);
    Plan.min_check_interval_secs := take_cap (PlanOverrides.min_check_interval_secs ov) (Plan.min_check_interval_secs p);
    Plan.retention_days := take_cap (PlanOverrides.retention_days ov) (Plan.retention_days p);
    Plan.raw_days := Plan.raw_days p;
    Plan.evidence_days := Plan.evidence_days p;
    Plan.max_members := take_cap (PlanOverrides.max_members ov) (Plan.max_members p);
    Plan.max_pending_invitations := take_cap (PlanOverrides.max_pending_invitations ov) (Plan.max_pending_invitations p);
    Plan.max_api_tokens_per_user := take_cap (PlanOverrides.max_api_tokens_per_user ov) (Plan.max_api_tokens_per_user p);
    Plan.max_public_components := take_cap (PlanOverrides.max_public_components ov) (Plan.max_public_components p);
    Plan.max_status_pages := take_cap (PlanOverrides.max_status_pages ov) (Plan.max_status_pages p);
    Plan.max_share_links_per_monitor := take_cap (PlanOverrides.max_share_links_per_monitor ov) (Plan.max_share_links_per_monitor p);
    Plan.max_shared_monitors := take_cap (PlanOverrides.max_shared_monitors ov) (Plan.max_shared_monitors p);
    Plan.max_maintenance_windows := take_cap (PlanOverrides.max_maintenance_windows ov) (Plan.max_maintenance_windows p);
    Plan.max_notification_channels := take_cap (PlanOverrides.max_notification_channels ov) (Plan.max_notification_channels p);
    Plan.max_escalation_policies := take_cap (PlanOverrides.max_escalation_policies ov) (Plan.max_escalation_policies p);
    Plan.max_on_call_schedules := take_cap (PlanOverrides.max_on_call_schedules ov) (Plan.max_on_call_schedules p);
    Plan.max_logo_size_bytes := take_cap (PlanOverrides.max_logo_size_bytes ov) (Plan.max_logo_size_bytes p);
    Plan.max_regions := take_cap (PlanOverrides.max_regions ov) (Plan.max_regions p);
    Plan.max_orgs := take_cap (PlanOverrides.max_orgs ov) (Plan.max_orgs p);
    Plan.api_writes_per_minute := Plan.api_writes_per_minute p;
    Plan.api_reads_per_minute := Plan.api_reads_per_minute p;
    Plan.bulk_ops_per_minute := Plan.bulk_ops_per_minute p;
    Plan.test_now_per_minute := Plan.test_now_per_minute p;
    Plan.check_now_per_minute := Plan.check_now_per_minute p;
    Plan.custom_domain_enabled := Plan.custom_domain_enabled p;
    Plan.white_label_enabled := Plan.white_label_enabled p;
    Plan.sms_alerts_enabled := Plan.sms_alerts_enabled p;
    Plan.incident_narration_enabled := Plan.incident_narration_enabled p;
    Plan.on_call_enabled := Plan.on_call_enabled p;
    Plan.max_flow_checks := Plan.max_flow_checks p;
    Plan.max_flow_steps := Plan.max_flow_steps p;
    Plan.is_listed := Plan.is_listed p;
    Plan.created_at := Plan.created_at p;
    Plan.updated_at := Plan.updated_at p |}.

Module Addons.
Record t := {
  extra_targets : Z;
  extra_status_pages : Z;
  extra_members : Z;
  extra_shared_monitors : Z;
  extra_notification_channels : Z;
}.
Definition default : t := {| extra_targets := 0; extra_status_pages := 0; extra_members := 0; extra_shared_monitors := 0;
  extra_notification_channels := 0 |}.
End Addons.

(** [i64] addition saturates; what is no [i32] becomes [i32::MAX]. *)
Definition add_cap (cur extra : Z) : Z :=
  let s := Z.min (cur + Z.max extra 0) I64_MAX in
  if s <=? I32_MAX then s else I32_MAX.

Definition apply_addons (p : Plan.t) (a : Addons.t) : Plan.t := {|
    Plan.id := Plan.id p;
    Plan.name := Plan.name p;
    Plan.description := Plan.description p;
    Plan.max_targets := add_cap (Plan.max_targets p) (Addons.extra_targets a);
    Plan.min_check_interval_secs := Plan.min_check_interval_secs p;
    Plan.retention_days := Plan.retention_days p;
    Plan.raw_days := Plan.raw_days p;
    Plan.evidence_days := Plan.evidence_days p;
    Plan.max_members := add_cap (Plan.max_members p) (Addons.extra_members a);
    Plan.max_pending_invitations := Plan.max_pending_invitations p;
    Plan.max_api_tokens_per_user := Plan.max_api_tokens_per_user p;
    Plan.max_public_components := Plan.max_public_components p;
    Plan.max_status_pages := add_cap (Plan.max_status_pages p) (Addons.extra_status_pages a);
    Plan.max_share_links_per_monitor := Plan.max_share_links_per_monitor p;
    Plan.max_shared_monitors := add_cap (Plan.max_shared_monitors p) (Addons.extra_shared_monitors a);
    Plan.max_maintenance_windows := Plan.max_maintenance_windows p;
    Plan.max_notification_channels := add_cap (Plan.max_notification_channels p) (Addons.extra_notification_channels a);
    Plan.max_escalation_policies := Plan.max_escalation_policies p;
    Plan.max_on_call_schedules := Plan.max_on_call_schedules p;
    Plan.max_logo_size_bytes := Plan.max_logo_size_bytes p;
    Plan.max_regions := Plan.max_regions p;
    Plan.max_orgs := Plan.max_orgs p;
    Plan.api_writes_per_minute := Plan.api_writes_per_minute p;
    Plan.api_reads_per_minute := Plan.api_reads_per_minute p;
    Plan.bulk_ops_per_minute := Plan.bulk_ops_per_minute p;
    Plan.test_now_per_minute := Plan.test_now_per_minute p;
    Plan.check_now_per_minute := Plan.check_now_per_minute p;
    Plan.custom_domain_enabled := Plan.custom_domain_enabled p;
    Plan.white_label_enabled := Plan.white_label_enabled p;
    Plan.sms_alerts_enabled := Plan.sms_alerts_enabled p;
    Plan.incident_narration_enabled := Plan.incident_narration_enabled p;
    Plan.on_call_enabled := Plan.on_call_enabled p;
    Plan.max_flow_checks := Plan.max_flow_checks p;
    Plan.max_flow_steps := Plan.max_flow_steps p;
    Plan.is_listed := Plan.is_listed p;
    Plan.created_at := Plan.created_at p;
    Plan.updated_at := Plan.updated_at p |}.

(** The effective plan of [resolve]: overrides, then add-ons, then the two floors. *)
Definition floor_plan (p : Plan.t) : Plan.t := {|
    Plan.id := Plan.id p;
    Plan.name := Plan.name p;
    Plan.description := Plan.description p;
    Plan.max_targets := Plan.max_targets p;
    Plan.min_check_interval_secs := Plan.min_check_interval_secs p;
    Plan.retention_days := Plan.retention_days p;
    Plan.raw_days := Plan.raw_days p;
    Plan.evidence_days := Plan.evidence_days p;
    Plan.max_members := Plan.max_members p;
    Plan.max_pending_invitations := Plan.max_pending_invitations p;
    Plan.max_api_tokens_per_user := Plan.max_api_tokens_per_user p;
    Plan.max_public_components := Plan.max_public_components p;
    Plan.max_status_pages := Plan.max_status_pages p;
    Plan.max_share_links_per_monitor := Plan.max_share_links_per_monitor p;
    Plan.max_shared_monitors := Plan.max_shared_monitors p;
    Plan.max_maintenance_windows := Plan.max_maintenance_windows p;
    Plan.max_notification_channels := Plan.max_notification_channels p;
    Plan.max_escalation_policies := Plan.max_escalation_policies p;
    Plan.max_on_call_schedules := Plan.max_on_call_schedules p;
    Plan.max_logo_size_bytes := Plan.max_logo_size_bytes p;
    Plan.max_regions := Z.max (Plan.max_regions p) 1;
    Plan.max_orgs := Z.max (Plan.max_orgs p) 1;
    Plan.api_writes_per_minute := Plan.api_writes_per_minute p;
    Plan.api_reads_per_minute := Plan.api_reads_per_minute p;
    Plan.bulk_ops_per_minute := Plan.bulk_ops_per_minute p;
    Plan.test_now_per_minute := Plan.test_now_per_minute p;
    Plan.check_now_per_minute := Plan.check_now_per_minute p;
    Plan.custom_domain_enabled := Plan.custom_domain_enabled p;
    Plan.white_label_enabled := Plan.white_label_enabled p;
    Plan.sms_alerts_enabled := Plan.sms_alerts_enabled p;
    Plan.incident_narration_enabled := Plan.incident_narration_enabled p;
    Plan.on_call_enabled := Plan.on_call_enabled p;
    Plan.max_flow_checks := Plan.max_flow_checks p;
    Plan.max_flow_steps := Plan.max_flow_steps p;
    Plan.is_listed := Plan.is_listed p;
    Plan.created_at := Plan.created_at p;
    Plan.updated_at := Plan.updated_at p |}.

Definition effective_plan (base : Plan.t) (ov : option PlanOverrides.t) (a : Addons.t) : Plan.t :=
  let p := match ov with Some ov => apply_overrides base ov | None => base end in
  floor_plan (apply_addons p a).

(** [account_addons]: one row per type, unknown types ignored. *)
Definition addon_row (a : Addons.t) (row : string * Z) : Addons.t :=
  let '(kind, qty) := row in
  if String.eqb kind "extra_targets" then {|
    Addons.extra_targets := qty; Addons.extra_status_pages := Addons.extra_status_pages a;
    Addons.extra_members := Addons.extra_members a; Addons.extra_shared_monitors := Addons.extra_shared_monitors a;
    Addons.extra_notification_channels := Addons.extra_notification_channels a |}
  else if String.eqb kind "extra_status_pages" then {|
    Addons.extra_targets := Addons.extra_targets a; Addons.extra_status_pages := qty;
    Addons.extra_members := Addons.extra_members a; Addons.extra_shared_monitors := Addons.extra_shared_monitors a;
    Addons.extra_notification_channels := Addons.extra_notification_channels a |}
  else if String.eqb kind "extra_members" then {|
    Addons.extra_targets := Addons.extra_targets a; Addons.extra_status_pages := Addons.extra_status_pages a;
    Addons.extra_members := qty; Addons.extra_shared_monitors := Addons.extra_shared_monitors a;
    Addons.extra_notification_channels := Addons.extra_notification_channels a |}
  else if String.eqb kind "extra_shared_monitors" then {|
    Addons.extra_targets := Addons.extra_targets a; Addons.extra_status_pages := Addons.extra_status_pages a;
    Addons.extra_members := Addons.extra_members a; Addons.extra_shared_monitors := qty;
    Addons.extra_notification_channels := Addons.extra_notification_channels a |}
  else if String.eqb kind "extra_notification_channels" then {|
    Addons.extra_targets := Addons.extra_targets a; Addons.extra_status_pages := Addons.extra_status_pages a;
    Addons.extra_members := Addons.extra_members a; Addons.extra_shared_monitors := Addons.extra_shared_monitors a;
    Addons.extra_notification_channels := qty |}
  else a.
Definition account_addons (rows : list (string * Z)) : Addons.t :=
  fold_left addon_row rows Addons.default.

(** The plan of a server without a plans table, made at [now]. *)
Definition unlimited_plan (now : DateTime) : Plan.t := {|
    Plan.id := "self-host";
    Plan.name := "Self-host";
    Plan.description := "Unlimited (no plans table)";
    Plan.max_targets := I32_MAX;
    Plan.min_check_interval_secs := 1;
    Plan.retention_days := I32_MAX;
    Plan.raw_days := I32_MAX;
    Plan.evidence_days := I32_MAX;
    Plan.max_members := I32_MAX;
    Plan.max_pending_invitations := I32_MAX;
    Plan.max_api_tokens_per_user := I32_MAX;
    Plan.max_public_components := I32_MAX;
    Plan.max_status_pages := I32_MAX;
    Plan.max_share_links_per_monitor := I32_MAX;
    Plan.max_shared_monitors := I32_MAX;
    Plan.max_maintenance_windows := I32_MAX;
    Plan.max_notification_channels := I32_MAX;
    Plan.max_escalation_policies := I32_MAX;
    Plan.max_on_call_schedules := I32_MAX;
    Plan.max_logo_size_bytes := I32_MAX;
    Plan.max_regions := I32_MAX;
    Plan.max_orgs := I32_MAX;
    Plan.api_writes_per_minute := I32_MAX;
    Plan.api_reads_per_minute := I32_MAX;
    Plan.bulk_ops_per_minute := I32_MAX;
    Plan.test_now_per_minute := I32_MAX;
    Plan.check_now_per_minute := I32_MAX;
    Plan.custom_domain_enabled := false;
    Plan.white_label_enabled := false;
    Plan.sms_alerts_enabled := true;
    Plan.incident_narration_enabled := true;
    Plan.on_call_enabled := true;
    Plan.max_flow_checks := 0;
    Plan.max_flow_steps := 30;
    Plan.is_listed := false;
    Plan.created_at := now;
    Plan.updated_at := now |}.

(** [AppError::quota_exceeded] of src/error.rs. *)
Definition quota_exceeded (quota : string) (current limit : Z) (plan : string) : AppError :=
  QuotaExceeded "QUOTA_EXCEEDED"
    (quota +:+ " limit reached: " +:+ show current +:+ " of " +:+ show limit
     +:+ " used on the " +:+ plan +:+ " plan.") quota current limit plan.

(** [check_pooled]: [n] more in the account's pool, or a block. An account without
    a plan has no cap; the audit row of a block is left out. *)
Definition check_pooled (quota : string) (cap : Plan.t → Z) (resolved : result (option Plan.t))
    (counted : result Z) (n : Z) : result unit :=
  match resolved with
  | Err e => Err e
  | Ok None => Ok tt
  | Ok (Some p) =>
      let limit := cap p in
      match counted with
      | Err e => Err e
      | Ok current =>
          if limit <? current + n then Err (quota_exceeded quota current limit (Plan.id p))
          else Ok tt
      end
  end.

(** ** src/quotas/effective.rs *)
Definition governed_interval (requested : Duration) (p : Plan.t) (kind : string) : Duration :=
  let plan_floor := Z.max (Plan.min_check_interval_secs p) 0 in
  Z.max requested (seconds (Z.max plan_floor (min_interval_secs_for_kind kind))).

(** An organisation whose plan did not resolve is [None]. *)
Abbreviation PlanMap := (gmap OrgId (option Plan.t)).

(** [resolve_plans]; [lookup] is [limit_for_org]. *)
Definition resolve_plans (lookup : OrgId → result Plan.t) (orgs : list OrgId) : PlanMap :=
  fold_left (λ plans org,
    match plans !! org with
    | Some _ => plans
    | None => <[org := ok (lookup org)]> plans
    end) orgs ∅.

Section Govern.
Context `{UrlLibrary}.

Definition set_interval (d : Duration) (t : CheckedTarget.t) : CheckedTarget.t :=
  let r := CheckedTarget.row t in {|
  CheckedTarget.row := {|
    Target.id := Target.id r; Target.name := Target.name r; Target.interval := d;
    Target.enabled := Target.enabled r; Target.tags := Target.tags r;
    Target.alerts := Target.alerts r; Target.alert_confirmations := Target.alert_confirmations r;
    Target.notify_recovery := Target.notify_recovery r;
    Target.renotify_interval_secs := Target.renotify_interval_secs r;
    Target.region_policy := Target.region_policy r; Target.group_name := Target.group_name r;
    Target.owner_user_id := Target.owner_user_id r; Target.created_at := Target.created_at r;
    Target.updated_at := Target.updated_at r; Target.plan_hold_at := Target.plan_hold_at r |};
  CheckedTarget.check := CheckedTarget.check t |}.

Definition govern_one (plans : PlanMap) (x : OrgId * CheckedTarget.t) : OrgId * CheckedTarget.t :=
  let '(org, target) := x in
  if CheckSpec.is_passive (CheckedTarget.check target) then x
  else
    match plans !! org with
    | Some (Some p) =>
        (org, set_interval (governed_interval (Target.interval (CheckedTarget.row target)) p
                              (CheckSpec.kind (CheckedTarget.check target))) target)
    | _ => x
    end.
Definition govern_with (plans : PlanMap) (targets : list (OrgId * CheckedTarget.t))
    : list (OrgId * CheckedTarget.t) := govern_one plans <$> targets.
Definition govern (lookup : OrgId → result Plan.t) (targets : list (OrgId * CheckedTarget.t))
    : list (OrgId * CheckedTarget.t) := govern_with (resolve_plans lookup targets.*1) targets.
End Govern.

(** [RegionCaps]: two arrays, paired position by position by [unnest]. *)
Module RegionCaps.
Record t := { org_ids : list OrgId; limits : list Z }.
Definition default : t := {| org_ids := []; limits := [] |}.
Definition push (caps : t) (e : OrgId * option Plan.t) : t :=
  match e.2 with
  | Some p => {| org_ids := org_ids caps ++ [e.1]; limits := limits caps ++ [Plan.max_regions p] |}
  | None => caps
  end.
Definition from (plans : PlanMap) : t := fold_left push (map_to_list plans) default.
End RegionCaps.

(** ** Bounds *)
Section Bounds.
Implicit Types (p : Plan.t).

Definition is_i32 (x : Z) : Prop := - 2147483648 ≤ x ≤ I32_MAX.

Lemma take_cap_i32 v cur : is_i32 cur → (∀ x, v = Some x → 0 ≤ x) → is_i32 (take_cap v cur).
Proof.
  unfold take_cap, is_i32, I32_MAX. intros Hc Hv. destruct v as [x|]; [|done].
  specialize (Hv x eq_refl). destruct (_ <=? _) eqn:Hx; bool_cases; lia.
Qed.

Lemma add_cap_bounds cur extra :
  is_i32 cur → cur ≤ add_cap cur extra ∧ is_i32 (add_cap cur extra) ∧
  (cur + Z.max extra 0 ≤ I32_MAX → add_cap cur extra = cur + Z.max extra 0).
Proof.
  unfold add_cap, is_i32, I32_MAX, I64_MAX. intros Hc. cbv zeta.
  destruct (_ <=? _) eqn:Hs; bool_cases; lia.
Qed.

Lemma cap_ok eff replaced extra :
  eff = add_cap replaced extra → is_i32 replaced →
  replaced ≤ eff ∧ is_i32 eff ∧ (replaced + Z.max extra 0 ≤ I32_MAX → eff = replaced + Z.max extra 0).
Proof. intros ->. apply add_cap_bounds. Qed.

(** The caps a row of add-ons may raise. *)
Definition billed_caps : list ((Plan.t → Z) * (Addons.t → Z) * (PlanOverrides.t → option Z)) :=
  [(Plan.max_targets, Addons.extra_targets, PlanOverrides.max_targets);
   (Plan.max_status_pages, Addons.extra_status_pages, PlanOverrides.max_status_pages);
   (Plan.max_members, Addons.extra_members, PlanOverrides.max_members);
   (Plan.max_shared_monitors, Addons.extra_shared_monitors, PlanOverrides.max_shared_monitors);
   (Plan.max_notification_channels, Addons.extra_notification_channels,
    PlanOverrides.max_notification_channels)].

(** How the effective plan is put together. For each cap that add-ons raise,
    the override (if it names the cap) replaces the plan's value, the add-on is
    added on top, never takes away, and the sum stays an [i32]: no quantity, not
    even a negative or an enormous one, can shrink or wrap a cap. The plan always
    allows one region and one organisation. *)
Theorem addons_never_shrink_a_cap base ov a :
  Forall (λ c, is_i32 (c.1.1 base) ∧
    ∀ o x, ov = Some o → c.2 o = Some x → 0 ≤ x) billed_caps →
  Forall (λ c, let '(cap, extra, named) := c in
    let replaced := take_cap (ov ≫= named) (cap base) in
    replaced ≤ cap (effective_plan base ov a) ∧ is_i32 (cap (effective_plan base ov a)) ∧
    (replaced + Z.max (extra a) 0 ≤ I32_MAX →
     cap (effective_plan base ov a) = replaced + Z.max (extra a) 0)) billed_caps ∧
  1 ≤ Plan.max_regions (effective_plan base ov a) ∧ 1 ≤ Plan.max_orgs (effective_plan base ov a).
Proof.
  intros Hall. split; [|split; apply Z.le_max_r].
  unfold billed_caps in *. rewrite !Forall_cons in Hall |- *.
  destruct Hall as ((Hb1 & Ho1) & (Hb2 & Ho2) & (Hb3 & Ho3) & (Hb4 & Ho4) & (Hb5 & Ho5) & _).
  assert (∀ cap named, is_i32 (cap base) →
    (∀ o x, ov = Some o → named o = Some x → 0 ≤ x) →
    is_i32 (take_cap (ov ≫= named) (cap base : Z))) as Htake.
  { intros cap named Hb Ho. apply take_cap_i32; [done|]. intros x Hx.
    destruct ov as [o|]; [|done]. by apply (Ho o). }
  do 5 (split; [eapply cap_ok; [by destruct ov|by apply Htake]|]). done.
Qed.

Lemma raw_ttl_bounds raw : 1 ≤ raw_ttl_days raw ≤ 90.
Proof.
  unfold raw_ttl_days, U16, clamp, Plan.RAW_MAX_DAYS.
  rewrite Z.mod_small; lia.
Qed.

(** A stored row always expires, and its evidence never outlives it. Whatever
    the plan's columns hold, the TTL stamp of a row is between one and ninety days
    and that of a failed flow's page between one day and the row's own. *)
Theorem ttl_stamps_in_range evidence raw :
  1 ≤ evidence_ttl_days evidence raw ≤ raw_ttl_days raw ∧ raw_ttl_days raw ≤ 90 ∧
  (1 ≤ raw ≤ 90 → raw_ttl_days raw = raw) ∧
  (1 ≤ evidence ≤ raw_ttl_days raw → evidence_ttl_days evidence raw = evidence).
Proof.
  pose proof (raw_ttl_bounds raw) as Hr. unfold evidence_ttl_days. cbv zeta.
  assert (clamp 1 (raw_ttl_days raw) evidence mod U16 = clamp 1 (raw_ttl_days raw) evidence) as ->
    by (apply Z.mod_small; unfold clamp, U16; lia).
  unfold clamp. split_and!; try lia. intros Hraw. unfold raw_ttl_days, U16, clamp, Plan.RAW_MAX_DAYS.
  rewrite Z.mod_small; lia.
Qed.
End Bounds.

(** ** Intervals *)
Section Intervals.
Context `{UrlLibrary}.
Implicit Types (x : OrgId * CheckedTarget.t).

Definition interval x : Duration := Target.interval (CheckedTarget.row x.2).
Definition kind_of x : string := CheckSpec.kind (CheckedTarget.check x.2).

Lemma resolve_plans_lookup lookup orgs org :
  resolve_plans lookup orgs !! org = if bool_decide (org ∈ orgs) then Some (ok (lookup org)) else None.
Proof.
  unfold resolve_plans.
  assert (∀ (m : PlanMap), (∀ o v, m !! o = Some v → v = ok (lookup o)) →
    fold_left (λ plans org, match plans !! org with Some _ => plans
      | None => <[org := ok (lookup org)]> plans end) orgs m !! org
    = if bool_decide (org ∈ orgs) then Some (ok (lookup org)) else m !! org) as Hg.
  { induction orgs as [|o orgs IH]; intros m Hm; simpl; [done|].
    rewrite IH; [|intros o' v; destruct (m !! o) eqn:Ho; [apply Hm|];
      intros [[<- <-]|[_ Hv]]%lookup_insert_Some; [done|by apply Hm]].
    destruct (decide (org = o)) as [->|Hne].
    - rewrite (bool_decide_true (o ∈ o :: orgs)) by left. case_bool_decide; [done|].
      destruct (m !! o) as [v|] eqn:Ho; [by rewrite Ho, (Hm _ _ Ho)|by rewrite lookup_insert_eq].
    - assert (bool_decide (org ∈ o :: orgs) = bool_decide (org ∈ orgs)) as ->
        by (apply bool_decide_ext; set_solver).
      destruct (m !! o); [done|]. by rewrite lookup_insert_ne. }
  rewrite Hg; [by destruct (bool_decide _)|]. intros o v Hv. by rewrite lookup_empty in Hv.
Qed.

(** What the plan does to a pull. Every target comes back in its place with
    nothing but its interval changed; an active one of an organisation whose plan
    resolved runs no faster than the plan and its kind allow, and no slower than
    that or its own rate demands; a heartbeat, and any target of an organisation
    whose plan did not resolve, keeps the stored interval. Governing again changes
    nothing. *)
Theorem governed_targets_keep_the_floor lookup targets :
  Forall2 (λ x y,
    y.1 = x.1 ∧ set_interval (interval x) y.2 = x.2 ∧
    (CheckSpec.is_passive (CheckedTarget.check x.2) = true → y = x) ∧
    (ok (lookup x.1) = None → y = x) ∧
    (∀ p, ok (lookup x.1) = Some p → CheckSpec.is_passive (CheckedTarget.check x.2) = false →
       interval y = Z.max (interval x)
         (seconds (Z.max (Z.max (Plan.min_check_interval_secs p) 0)
                     (min_interval_secs_for_kind (kind_of x))))))
    targets (govern lookup targets) ∧
  govern lookup (govern lookup targets) = govern lookup targets.
Proof.
  set (plans := resolve_plans lookup targets.*1).
  assert (Hone : ∀ x, x ∈ targets → plans !! x.1 = Some (ok (lookup x.1))).
  { intros x Hx. unfold plans. rewrite resolve_plans_lookup, bool_decide_true; [done|].
    by apply list_elem_of_fmap_2. }
  assert (Hfst : (govern lookup targets).*1 = targets.*1).
  { unfold govern, govern_with. rewrite <-list_fmap_compose. apply list_fmap_ext.
    intros i [org t] _. simpl. destruct (CheckSpec.is_passive _); [done|].
    by destruct (_ !! org) as [[]|]. }
  split.
  - unfold govern, govern_with. fold plans. apply Forall2_fmap_r, Forall_Forall2_diag, Forall_forall.
    intros [org t] Hx. specialize (Hone _ Hx). simpl in Hone.
    unfold govern_one, compose. cbv beta iota. rewrite Hone.
    assert (set_interval (interval (org, t)) t = t) as Hself.
    { unfold set_interval, interval. simpl. by destruct t as [[] ?]. }
    destruct (CheckSpec.is_passive _) eqn:Hp; simpl.
    { by split_and!. }
    destruct (ok (lookup org)) as [p|] eqn:Hok; simpl.
    + split_and!; try done. intros ? [= <-] _. done.
    + split_and!; try done.
  - unfold govern at 1. rewrite Hfst. fold plans. unfold govern_with.
    unfold govern, govern_with. fold plans. rewrite <-list_fmap_compose. apply list_fmap_ext.
    intros i [org t] Hx%list_elem_of_lookup_2. specialize (Hone _ Hx). simpl in Hone.
    simpl. destruct (CheckSpec.is_passive _) eqn:Hp; simpl; [by rewrite Hp|].
    rewrite Hone. destruct (ok (lookup org)) as [p|]; simpl; rewrite Hp, Hone; [|done].
    unfold set_interval. simpl. do 3 f_equal. unfold governed_interval. lia.
Qed.

(** C40: the region caps cannot slip. The two arrays the query pairs position by
    position have the same length, and pair exactly the organisations whose plan
    resolved with their caps. *)
Theorem region_caps_pair_up (plans : PlanMap) :
  length (RegionCaps.org_ids (RegionCaps.from plans)) = length (RegionCaps.limits (RegionCaps.from plans)) ∧
  ∀ org n, (org, n) ∈ zip (RegionCaps.org_ids (RegionCaps.from plans)) (RegionCaps.limits (RegionCaps.from plans)) ↔
    ∃ p, plans !! org = Some (Some p) ∧ Plan.max_regions p = n.
Proof.
  unfold RegionCaps.from.
  assert (∀ l caps, length (RegionCaps.org_ids caps) = length (RegionCaps.limits caps) →
    let caps' := fold_left RegionCaps.push l caps in
    length (RegionCaps.org_ids caps') = length (RegionCaps.limits caps') ∧
    zip (RegionCaps.org_ids caps') (RegionCaps.limits caps')
      = zip (RegionCaps.org_ids caps) (RegionCaps.limits caps)
        ++ omap (λ e : OrgId * option Plan.t, (λ p, (e.1, Plan.max_regions p)) <$> e.2) l) as Hfold.
  { induction l as [|[o v] l IH]; intros caps Hl; simpl; [by rewrite app_nil_r|].
    destruct v as [p|]; cbn [RegionCaps.push snd fst].
    - destruct (IH {| RegionCaps.org_ids := RegionCaps.org_ids caps ++ [o];
        RegionCaps.limits := RegionCaps.limits caps ++ [Plan.max_regions p] |}) as [IH1 IH2];
        [simpl; rewrite !length_app; simpl; lia|].
      split; [done|]. rewrite IH2. simpl. rewrite zip_with_app by done. simpl.
      by rewrite <-(assoc_L (++)).
    - by apply IH. }
  destruct (Hfold (map_to_list plans) RegionCaps.default eq_refl) as [Hlen Hzip].
  split; [done|]. intros org n. rewrite Hzip. simpl. rewrite list_elem_of_omap. split.
  - intros ([o [p|]] & Hin & Heq); [|done]. simpl in Heq. injection Heq as -> <-.
    apply elem_of_map_to_list in Hin. by exists p.
  - intros (p & Hp & <-). exists (org, Some p). split; [by apply elem_of_map_to_list|done].
Qed.
End Intervals.

Module PlanSample.
(** A plan of ten monitors, with an add-on of five more and an override of nothing. *)
Definition ten : Plan.t := apply_overrides (unlimited_plan 0)
  {| PlanOverrides.max_targets := Some 10; PlanOverrides.min_check_interval_secs := Some 60;
     PlanOverrides.retention_days := Some 30; PlanOverrides.max_members := Some 3;
     PlanOverrides.max_pending_invitations := None; PlanOverrides.max_api_tokens_per_user := None;
     PlanOverrides.max_public_components := None; PlanOverrides.max_status_pages := Some 1;
     PlanOverrides.max_share_links_per_monitor := None; PlanOverrides.max_shared_monitors := Some 0;
     PlanOverrides.max_maintenance_windows := None; PlanOverrides.max_notification_channels := Some 5;
     PlanOverrides.max_escalation_policies := None; PlanOverrides.max_on_call_schedules := None;
     PlanOverrides.max_regions := Some 0; PlanOverrides.max_logo_size_bytes := None;
     PlanOverrides.max_orgs := None |}.
Definition five_more : Addons.t := account_addons [("extra_targets", 5); ("extra_seats", 9); ("extra_members", -4)].

Example fifteen :
  Plan.max_targets (effective_plan ten None five_more) = 15 ∧
  Plan.max_members (effective_plan ten None five_more) = 3.
Proof. by vm_compute. Qed.
Example reading_the_cap :
  check_pooled "monitors" Plan.max_targets (Ok (Some (effective_plan ten None five_more))) (Ok 14) 1 = Ok tt ∧
  check_pooled "monitors" Plan.max_targets (Ok (Some (effective_plan ten None five_more))) (Ok 14) 2
    = Err (QuotaExceeded "QUOTA_EXCEEDED"
        "monitors limit reached: 14 of 15 used on the self-host plan." "monitors" 14 15 "self-host").
Proof. by vm_compute. Qed.

Lemma addons_never_shrink_a_cap_witness :
  1 ≤ Plan.max_regions (effective_plan ten None five_more).
Proof.
  destruct (addons_never_shrink_a_cap ten None five_more) as (_ & Hr & _); [|exact Hr].
  unfold billed_caps. rewrite !Forall_cons.
  do 5 (split; [split; [split; apply Z.leb_le; reflexivity|intros o x [=]]|]). constructor.
Defined.
End PlanSample.
