(* ===== verification/PlanHolds.v ===== *)
(** * Plan holds

    src/quotas/holds.rs: what an account keeps when its plan no longer covers
    everything it has. The reconcile is SQL: its [row_number()] over a total order
    (the id breaks ties) is one more than the number of rows that sort before, and
    its filtered [count] a count. A reconcile is one transaction under the
    account's lock, so its statements see the pool alone; the lock, the audit rows
    and the query that finds the accounts to sweep are left out. *)

From S2P Require Import Prelude Text Domain Target CheckSpec Plans.

(** The columns of [targets] and [status_pages] the holds concern. *)
Module PoolRow.
Record t := {
  id : Uuid;
  org_id : OrgId;
  is_flow : bool;
  enabled : bool;
  created_at : DateTime;
  plan_keep : bool;
  plan_hold_at : option DateTime;
  updated_at : DateTime;
}.
#[global] Instance eq_dec : EqDecision t.
Proof. solve_decision. Defined.

Definition held (r : t) : bool := is_some (plan_hold_at r).
End PoolRow.

(** [ORDER BY kept DESC, enabled DESC, created_at ASC, id ASC]: strictly before. *)
Definition bool_lt (a b : bool) : bool := negb a && b.
Definition before (a b : PoolRow.t) : bool :=
  bool_lt (PoolRow.plan_keep b) (PoolRow.plan_keep a)
  || (Bool.eqb (PoolRow.plan_keep a) (PoolRow.plan_keep b)
      && (bool_lt (PoolRow.enabled b) (PoolRow.enabled a)
          || (Bool.eqb (PoolRow.enabled a) (PoolRow.enabled b)
              && ((PoolRow.created_at a <? PoolRow.created_at b)
                  || ((PoolRow.created_at a =? PoolRow.created_at b)
                      && (PoolRow.id a <? PoolRow.id b)%N))))).

(** [row_number()] of [r] among the rows of its partition. *)
Definition row_number (partition : list PoolRow.t) (r : PoolRow.t) : Z :=
  1 + count (λ x, before x r) partition.

(** ** [reconcile_targets] *)
Definition picked (pool : list PoolRow.t) : bool := existsb PoolRow.plan_keep pool.
Definition over (cap : Z) (pool : list PoolRow.t) : bool := cap <? Z.of_nat (length pool).
Definition flows (pool : list PoolRow.t) : list PoolRow.t := List.filter PoolRow.is_flow pool.

(** A NULL rank (a row that is no flow) is held by no flow cap. *)
Definition flow_held (max_flow : Z) (pool : list PoolRow.t) (r : PoolRow.t) : bool :=
  PoolRow.is_flow r && (max_flow <? row_number (flows pool) r).

Definition rank (max_flow : Z) (pool : list PoolRow.t) (r : PoolRow.t) : Z :=
  row_number (List.filter (λ x, Bool.eqb (flow_held max_flow pool x) (flow_held max_flow pool r)) pool) r.

Definition want_target (max_flow max_targets : Z) (pool : list PoolRow.t) (r : PoolRow.t) : bool :=
  flow_held max_flow pool r || (max_targets <? rank max_flow pool r)
  || (picked pool && negb (PoolRow.plan_keep r)
      && (over max_targets pool || (PoolRow.is_flow r && over max_flow (flows pool)))).

(** ** [reconcile_status_pages] *)
Definition want_page (max_pages : Z) (pool : list PoolRow.t) (r : PoolRow.t) : bool :=
  (max_pages <? row_number pool r)
  || (picked pool && over max_pages pool && negb (PoolRow.plan_keep r)).

(** The [UPDATE]: a row moves when what is wanted is not what is. *)
Definition moves (want : PoolRow.t → bool) (r : PoolRow.t) : bool :=
  negb (Bool.eqb (want r) (PoolRow.held r)).
Definition apply_hold (now : DateTime) (want : PoolRow.t → bool) (r : PoolRow.t) : PoolRow.t :=
  if moves want r then {|
    PoolRow.id := PoolRow.id r; PoolRow.org_id := PoolRow.org_id r;
    PoolRow.is_flow := PoolRow.is_flow r; PoolRow.enabled := PoolRow.enabled r;
    PoolRow.created_at := PoolRow.created_at r; PoolRow.plan_keep := PoolRow.plan_keep r;
    PoolRow.plan_hold_at := if want r then Some now else None;
    PoolRow.updated_at := now |}
  else r.

(** ** [forget_spent_pick] and [set_keep] *)
Definition set_kept (keep : PoolRow.t → bool) (r : PoolRow.t) : PoolRow.t := {|
  PoolRow.id := PoolRow.id r; PoolRow.org_id := PoolRow.org_id r;
  PoolRow.is_flow := PoolRow.is_flow r; PoolRow.enabled := PoolRow.enabled r;
  PoolRow.created_at := PoolRow.created_at r; PoolRow.plan_keep := keep r;
  PoolRow.plan_hold_at := PoolRow.plan_hold_at r; PoolRow.updated_at := PoolRow.updated_at r |}.

Definition forget_target_pick (max_flow max_targets : Z) (pool : list PoolRow.t) : list PoolRow.t :=
  if over max_targets pool || over max_flow (flows pool) then pool
  else set_kept (λ _, false) <$> pool.
Definition forget_page_pick (max_pages : Z) (pool : list PoolRow.t) : list PoolRow.t :=
  if over max_pages pool then pool else set_kept (λ _, false) <$> pool.

Module Account.
Record t := { targets : list PoolRow.t; status_pages : list PoolRow.t }.
End Account.

Definition set_keep (targets status_pages : option (list Uuid)) (a : Account.t) : Account.t :=
  let answer keep pool :=
    match keep with
    | None => pool
    | Some ids => set_kept (λ r, bool_decide (PoolRow.id r ∈ ids)) <$> pool
    end in
  {| Account.targets := answer targets (Account.targets a);
     Account.status_pages := answer status_pages (Account.status_pages a) |}.

(** ** [reconcile_account] *)
Module Reconciled.
Record t := { held : nat; released : nat }.
Definition changed (r : t) : bool := (0 <? held r)%nat || (0 <? released r)%nat.
End Reconciled.

Definition tally (want : PoolRow.t → bool) (pool : list PoolRow.t) : Reconciled.t :=
  let moved := List.filter (moves want) pool in {|
  Reconciled.held := length (List.filter want moved);
  Reconciled.released := length (List.filter (λ r, negb (want r)) moved) |}.

Definition reconcile_account (plan : Plan.t) (now : DateTime) (a : Account.t)
    : Reconciled.t * Account.t :=
  let max_flow := Plan.max_flow_checks plan in
  let max_targets := Plan.max_targets plan in
  let max_pages := Plan.max_status_pages plan in
  let want_t := want_target max_flow max_targets (Account.targets a) in
  let want_p := want_page max_pages (Account.status_pages a) in
  let t := tally want_t (Account.targets a) in
  let p := tally want_p (Account.status_pages a) in
  ({| Reconciled.held := Reconciled.held t + Reconciled.held p;
      Reconciled.released := Reconciled.released t + Reconciled.released p |},
   {| Account.targets := forget_target_pick max_flow max_targets
                           (apply_hold now want_t <$> Account.targets a);
      Account.status_pages := forget_page_pick max_pages
                                (apply_hold now want_p <$> Account.status_pages a) |}).

(** ** Ranking *)
Section Ranking.
Implicit Types (pool : list PoolRow.t) (r x : PoolRow.t).

Definition before_key r : Z * Z * Z * N :=
  (if PoolRow.plan_keep r then 0 else 1, if PoolRow.enabled r then 0 else 1,
   PoolRow.created_at r, PoolRow.id r).
Definition key_lt (a b : Z * Z * Z * N) : Prop :=
  let '(k, e, c, i) := a in let '(k', e', c', i') := b in
  k < k' ∨ k = k' ∧ (e < e' ∨ e = e' ∧ (c < c' ∨ c = c' ∧ (i < i')%N)).

Lemma before_spec a b : before a b = true ↔ key_lt (before_key a) (before_key b).
Proof.
  unfold before, before_key, key_lt, bool_lt.
  destruct (PoolRow.plan_keep a), (PoolRow.plan_keep b), (PoolRow.enabled a), (PoolRow.enabled b);
    simpl; rewrite ?orb_true_iff, ?andb_true_iff, ?Z.ltb_lt, ?Z.eqb_eq, ?N.ltb_lt; lia.
Qed.

Lemma before_irrefl a : before a a = false.
Proof. apply not_true_iff_false. rewrite before_spec. unfold before_key, key_lt. lia. Qed.

Lemma before_trans a b c : before a b = true → before b c = true → before a c = true.
Proof. rewrite !before_spec. unfold before_key, key_lt. lia. Qed.

Lemma before_total a b :
  PoolRow.id a ≠ PoolRow.id b → before a b = false → before b a = true.
Proof.
  intros Hid. rewrite <-not_true_iff_false, !before_spec. unfold before_key, key_lt.
  destruct (PoolRow.plan_keep a), (PoolRow.plan_keep b), (PoolRow.enabled a), (PoolRow.enabled b); lia.
Qed.

Lemma row_number_perm l l' r : l ≡ₚ l' → row_number l r = row_number l' r.
Proof. intros Hp. unfold row_number. by rewrite (count_perm _ _ _ Hp). Qed.

(** A row that sorts before all others takes the first number. *)
Lemma row_number_head x l m :
  (∀ y, y ∈ l → before x y = true) →
  count (λ r, row_number (x :: l) r <=? m) (x :: l)
    = (if 1 <=? m then 1 else 0) + count (λ r, row_number l r <=? m - 1) l.
Proof.
  intros Hx. rewrite count_cons. f_equal.
  - unfold row_number. rewrite count_cons, before_irrefl, count_none; [done|].
    apply Forall_forall. intros y Hy%Hx. apply not_true_iff_false. intros Hyx.
    pose proof (before_trans _ _ _ Hy Hyx). by rewrite before_irrefl in *.
  - apply count_ext_in. intros y Hy. unfold row_number. rewrite count_cons, Hx by done.
    apply eq_bool_prop_intro. rewrite !Is_true_true, !Z.leb_le. lia.
Qed.

Definition sorted_rows : list PoolRow.t → list PoolRow.t := sort_by (λ a b, negb (before b a)).

Lemma sorted_rows_strict l :
  NoDup (PoolRow.id <$> l) → StronglySorted (λ a b, before a b = true) (sorted_rows l).
Proof.
  intros Hnd. assert (StronglySorted (λ a b, negb (before b a)) (sorted_rows l)) as Hs.
  { apply sort_by_sorted.
    - intros x y Hxy%negb_false_iff. apply negb_true_iff, not_true_iff_false. intros Hyx.
      pose proof (before_trans _ _ _ Hxy Hyx) as Hc. by rewrite before_irrefl in Hc.
    - intros x y z Hxy%negb_true_iff Hyz%negb_true_iff. apply negb_true_iff.
      apply not_true_iff_false in Hxy, Hyz. apply not_true_iff_false.
      rewrite before_spec in Hxy, Hyz |- *. unfold before_key, key_lt in *. lia. }
  assert (NoDup (PoolRow.id <$> sorted_rows l)) as Hnd'.
  { unfold sorted_rows. by rewrite (sort_by_perm (λ a b, negb (before b a)) l). }
  clear Hnd. induction Hs as [|x s _ IH Hx]; [constructor|].
  csimpl in Hnd'. apply NoDup_cons in Hnd' as [Hni Hnd']. constructor; [by apply IH|].
  rewrite Forall_forall in Hx |- *. intros y Hy. specialize (Hx y Hy).
  apply Is_true_true, negb_true_iff in Hx. destruct (before x y) eqn:Hxy; [done|].
  rewrite before_total in Hx; [done| |done]. intros Heq. apply Hni. rewrite Heq.
  by apply list_elem_of_fmap_2.
Qed.

(** Of the rows of a pool, exactly the first [m] have a number up to [m]. *)
Lemma row_number_count l m :
  NoDup (PoolRow.id <$> l) →
  count (λ r, row_number l r <=? m) l = Z.min (Z.of_nat (length l)) (Z.max m 0).
Proof.
  intros Hnd. pose proof (sorted_rows_strict l Hnd) as Hs.
  assert (sorted_rows l ≡ₚ l) as Hp by apply sort_by_perm.
  rewrite <-(count_perm _ _ _ Hp), <-(Permutation_length Hp).
  rewrite (count_ext_in _ (λ r, row_number (sorted_rows l) r <=? m)) by
    (intros r _; by rewrite (row_number_perm _ _ r Hp)).
  clear Hp Hnd. revert m. induction Hs as [|x s _ IH Hx]; intros m.
  { unfold count. simpl. lia. }
  rewrite Forall_forall in Hx. rewrite row_number_head by done. rewrite IH. cbn [length].
  destruct (1 <=? m) eqn:Hm; bool_cases; lia.
Qed.

Lemma row_number_le_count l r p :
  (∀ x, x ∈ l → before x r = true → p x = true) → r ∈ l → p r = true →
  row_number l r ≤ count p l.
Proof.
  intros Hp Hr Hpr. unfold row_number.
  apply list_elem_of_split in Hr as (l1 & l2 & ->).
  rewrite !count_app, !count_cons, before_irrefl, Hpr.
  assert (∀ l', (∀ x, x ∈ l' → before x r = true → p x = true) →
    count (λ x, before x r) l' ≤ count p l') as Hle.
  { induction l' as [|y l' IH]; intros Hl; [done|]. rewrite !count_cons.
    assert (count (λ x, before x r) l' ≤ count p l') by (apply IH; intros x Hx; apply Hl; by right).
    specialize (Hl y ltac:(left)). destruct (before y r); [rewrite Hl by done; lia|].
    destruct (p y); lia. }
  assert (count (λ x, before x r) l1 ≤ count p l1) by
    (apply Hle; intros x Hx; apply Hp, elem_of_app; by left).
  assert (count (λ x, before x r) l2 ≤ count p l2) by
    (apply Hle; intros x Hx; apply Hp, elem_of_app; right; by right).
  lia.
Qed.
End Ranking.

(** ** What a reconcile serves *)
Section Reconcile.
Implicit Types (pool : list PoolRow.t) (r x : PoolRow.t) (a : Account.t).

Definition serving (want : PoolRow.t → bool) r : bool := negb (want r).
Definition served r : bool := negb (PoolRow.held r).
Definition distinct a : Prop :=
  NoDup (PoolRow.id <$> Account.targets a) ∧ NoDup (PoolRow.id <$> Account.status_pages a).

Lemma count_and (p q : PoolRow.t → bool) l :
  count (λ r, p r && q r) l = count q (List.filter p l).
Proof.
  induction l as [|x l IH]; [done|]. rewrite count_cons, IH. cbn [List.filter].
  destruct (p x); [by rewrite count_cons|done].
Qed.

Lemma count_impl (p q : PoolRow.t → bool) l :
  (∀ x, x ∈ l → p x = true → q x = true) → count p l ≤ count q l.
Proof.
  induction l as [|x l IH]; intros Hpq; [done|]. rewrite !count_cons.
  assert (count p l ≤ count q l) by (apply IH; intros y Hy; apply Hpq; by right).
  specialize (Hpq x ltac:(left)). destruct (p x); [rewrite Hpq by done; lia|destruct (q x); lia].
Qed.

Lemma NoDup_ids_filter p l : NoDup (PoolRow.id <$> l) → NoDup (PoolRow.id <$> List.filter p l).
Proof. apply NoDup_lfilter_fmap. Qed.

Lemma rank_unheld mf pool r :
  flow_held mf pool r = false →
  rank mf pool r = row_number (List.filter (λ x, negb (flow_held mf pool x)) pool) r.
Proof.
  intros Hr. unfold rank. by rewrite Hr.
Qed.

Lemma serving_targets mf mt pool :
  NoDup (PoolRow.id <$> pool) →
  count (serving (want_target mf mt pool)) pool ≤ Z.max mt 0 ∧
  count (λ r, PoolRow.is_flow r && serving (want_target mf mt pool) r) pool ≤ Z.max mf 0.
Proof.
  intros Hnd. split.
  - transitivity (count (λ r, negb (flow_held mf pool r) &&
      (row_number (List.filter (λ x, negb (flow_held mf pool x)) pool) r <=? mt)) pool).
    + apply count_impl. intros r _. unfold serving, want_target. rewrite negb_true_iff, !orb_false_iff.
      intros [[Hf Hr] _]. rewrite Hf. simpl. rewrite (rank_unheld mf pool r Hf) in Hr.
      by apply Z.leb_le, Z.ltb_ge.
    + rewrite count_and, row_number_count by (by apply NoDup_ids_filter). lia.
  - transitivity (count (λ r, PoolRow.is_flow r && (row_number (flows pool) r <=? mf)) pool).
    + apply count_impl. intros r _. rewrite !andb_true_iff. intros [Hf Hw]. split; [done|].
      unfold serving, want_target in Hw. rewrite negb_true_iff, !orb_false_iff in Hw.
      destruct Hw as [[Hh _] _]. unfold flow_held in Hh. rewrite Hf in Hh. simpl in Hh.
      by apply Z.leb_le, Z.ltb_ge.
    + rewrite count_and. unfold flows. rewrite row_number_count by (by apply NoDup_ids_filter). lia.
Qed.

Lemma serving_pages mp pool :
  NoDup (PoolRow.id <$> pool) → count (serving (want_page mp pool)) pool ≤ Z.max mp 0.
Proof.
  intros Hnd. transitivity (count (λ r, row_number pool r <=? mp) pool).
  - apply count_impl. intros r _. unfold serving, want_page. rewrite negb_true_iff, orb_false_iff.
    intros [Hr _]. by apply Z.leb_le, Z.ltb_ge.
  - rewrite row_number_count by done. lia.
Qed.

Lemma held_applied now want r : PoolRow.held (apply_hold now want r) = want r.
Proof.
  unfold apply_hold, moves. destruct (Bool.eqb_spec (want r) (PoolRow.held r)) as [->|]; simpl; [done|].
  unfold PoolRow.held. simpl. by destruct (want r).
Qed.

Lemma served_applied now want pool (p : PoolRow.t → bool) :
  (∀ r, p (apply_hold now want r) = p r) →
  count (λ r, p r && served r) (apply_hold now want <$> pool) = count (λ r, p r && serving want r) pool.
Proof.
  intros Hp. rewrite count_fmap. apply count_ext_in. intros r _. unfold served, serving.
  by rewrite held_applied, Hp.
Qed.

Lemma served_kept keep pool (p : PoolRow.t → bool) :
  (∀ r, p (set_kept keep r) = p r) →
  count (λ r, p r && served r) (set_kept keep <$> pool) = count (λ r, p r && served r) pool.
Proof. intros Hp. rewrite count_fmap. apply count_ext_in. intros r _. by rewrite Hp. Qed.

Lemma served_forgotten mf mt pool (p : PoolRow.t → bool) :
  (∀ r, p (set_kept (λ _, false) r) = p r) →
  count (λ r, p r && served r) (forget_target_pick mf mt pool) = count (λ r, p r && served r) pool.
Proof. intros Hp. unfold forget_target_pick. destruct (_ || _); [done|]. by apply served_kept. Qed.

Lemma served_forgotten_page mp pool :
  count served (forget_page_pick mp pool) = count served pool.
Proof. unfold forget_page_pick. destruct (over _ _); [done|]. apply (served_kept _ _ (λ _, true)). done. Qed.

Lemma flow_applied now want r : PoolRow.is_flow (apply_hold now want r) = PoolRow.is_flow r.
Proof. unfold apply_hold. by destruct (moves want r). Qed.

(** What the plan never touches. *)
Definition same_row r r' : Prop :=
  PoolRow.id r' = PoolRow.id r ∧ PoolRow.org_id r' = PoolRow.org_id r ∧
  PoolRow.is_flow r' = PoolRow.is_flow r ∧ PoolRow.enabled r' = PoolRow.enabled r ∧
  PoolRow.created_at r' = PoolRow.created_at r.

Lemma same_row_reconciled now want (forget : list PoolRow.t → list PoolRow.t) pool :
  (forget (apply_hold now want <$> pool) = apply_hold now want <$> pool ∨
   forget (apply_hold now want <$> pool) = set_kept (λ _, false) <$> (apply_hold now want <$> pool)) →
  Forall2 same_row pool (forget (apply_hold now want <$> pool)).
Proof.
  assert (∀ r, same_row r (apply_hold now want r)) as Ha.
  { intros r. unfold apply_hold. by destruct (moves want r). }
  intros [->| ->]; rewrite <-?list_fmap_compose; apply Forall2_fmap_r, Forall_Forall2_diag, Forall_true;
    intros r; apply (Ha r).
Qed.

Lemma forget_target_cases mf mt pool :
  forget_target_pick mf mt pool = pool ∨ forget_target_pick mf mt pool = set_kept (λ _, false) <$> pool.
Proof. unfold forget_target_pick. destruct (_ || _); auto. Qed.
Lemma forget_page_cases mp pool :
  forget_page_pick mp pool = pool ∨ forget_page_pick mp pool = set_kept (λ _, false) <$> pool.
Proof. unfold forget_page_pick. destruct (over _ _); auto. Qed.

(** The plan's caps bind. After a reconcile an account is served no more
    monitors, no more flow monitors and no more status pages than its plan sells;
    and no row is deleted, moved, or switched on or off: a hold is not a pause. *)
Theorem reconcile_respects_the_caps plan now a :
  distinct a →
  let a' := (reconcile_account plan now a).2 in
  count served (Account.targets a') ≤ Z.max (Plan.max_targets plan) 0 ∧
  count (λ r, PoolRow.is_flow r && served r) (Account.targets a') ≤ Z.max (Plan.max_flow_checks plan) 0 ∧
  count served (Account.status_pages a') ≤ Z.max (Plan.max_status_pages plan) 0 ∧
  Forall2 same_row (Account.targets a) (Account.targets a') ∧
  Forall2 same_row (Account.status_pages a) (Account.status_pages a').
Proof.
  intros [Ht Hp]. simpl.
  destruct (serving_targets (Plan.max_flow_checks plan) (Plan.max_targets plan) _ Ht) as [H1 H2].
  pose proof (serving_pages (Plan.max_status_pages plan) _ Hp) as H3. split_and!.
  - rewrite (served_forgotten _ _ _ (λ _, true)), served_applied by done. exact H1.
  - rewrite served_forgotten by done. rewrite served_applied by apply flow_applied. exact H2.
  - rewrite served_forgotten_page, (served_applied _ _ _ (λ _, true)) by done. exact H3.
  - apply (same_row_reconciled now _ (forget_target_pick _ _)), forget_target_cases.
  - apply (same_row_reconciled now _ (forget_page_pick _)), forget_page_cases.
Qed.

(** *** Within the caps *)
Lemma row_number_bound l r : r ∈ l → row_number l r ≤ Z.of_nat (length l).
Proof.
  intros Hr. etrans; [apply (row_number_le_count l r (λ _, true)); done|].
  rewrite count_all; [done|]. by apply Forall_true.
Qed.

Lemma covered_targets mf mt pool r :
  over mt pool = false → over mf (flows pool) = false → r ∈ pool →
  want_target mf mt pool r = false.
Proof.
  unfold over. intros Ht Hf Hr. unfold want_target. unfold over. rewrite Ht, Hf, andb_false_r.
  assert (flow_held mf pool r = false) as Hfl.
  { unfold flow_held. destruct (PoolRow.is_flow r) eqn:Hir; [|done]. simpl.
    assert (r ∈ flows pool) as Hin by (by apply elem_of_lfilter).
    apply row_number_bound in Hin. bool_cases. apply Z.ltb_ge. lia. }
  rewrite Hfl, rank_unheld by done. simpl. rewrite ?orb_false_r, ?andb_false_r, ?orb_false_r.
  assert (r ∈ List.filter (λ x, negb (flow_held mf pool x)) pool) as Hin by
    (apply elem_of_lfilter; by rewrite Hfl).
  apply row_number_bound in Hin. bool_cases.
  pose proof (filter_length_le (λ x, negb (flow_held mf pool x)) pool). apply Z.ltb_ge. lia.
Qed.

Lemma covered_pages mp pool r : over mp pool = false → r ∈ pool → want_page mp pool r = false.
Proof.
  unfold want_page, over. intros Hp Hr. rewrite Hp, andb_false_r, orb_false_r.
  apply row_number_bound in Hr. bool_cases. apply Z.ltb_ge. lia.
Qed.

(** *** Running again *)
Definition same_key r r' : Prop := before_key r' = before_key r ∧ PoolRow.is_flow r' = PoolRow.is_flow r.

Lemma before_congr f x y :
  (∀ r, same_key r (f r)) → before (f x) (f y) = before x y.
Proof.
  intros Hf. apply eq_bool_prop_intro. rewrite !Is_true_true, !before_spec.
  by rewrite (proj1 (Hf x)), (proj1 (Hf y)).
Qed.

Lemma row_number_congr f l r :
  (∀ r, same_key r (f r)) → row_number (f <$> l) (f r) = row_number l r.
Proof.
  intros Hf. unfold row_number. rewrite count_fmap. f_equal. apply count_ext_in.
  intros x _. by apply before_congr.
Qed.

Lemma kept_congr r r' : same_key r r' → PoolRow.plan_keep r' = PoolRow.plan_keep r.
Proof. intros [Hk _]. unfold before_key in Hk. destruct (PoolRow.plan_keep r), (PoolRow.plan_keep r'); congruence. Qed.

Lemma flows_congr f l : (∀ r, same_key r (f r)) → flows (f <$> l) = f <$> flows l.
Proof.
  intros Hf. unfold flows. rewrite lfilter_fmap. f_equal. apply lfilter_ext. intros x _. apply Hf.
Qed.

Lemma picked_congr f l : (∀ r, same_key r (f r)) → picked (f <$> l) = picked l.
Proof.
  intros Hf. unfold picked. induction l as [|x l IH]; [done|]. csimpl.
  by rewrite IH, (kept_congr x (f x)).
Qed.

Lemma want_target_congr f mf mt l r :
  (∀ r, same_key r (f r)) → want_target mf mt (f <$> l) (f r) = want_target mf mt l r.
Proof.
  intros Hf. assert (∀ x, flow_held mf (f <$> l) (f x) = flow_held mf l x) as Hfh.
  { intros x. unfold flow_held. rewrite flows_congr, row_number_congr by done. by rewrite (proj2 (Hf x)). }
  unfold want_target, rank, over. rewrite Hfh, picked_congr, flows_congr, !length_fmap by done.
  rewrite lfilter_fmap.
  rewrite (lfilter_ext _ (λ x, Bool.eqb (flow_held mf l x) (flow_held mf l r))) by
    (intros x _; by rewrite Hfh).
  by rewrite row_number_congr, (kept_congr r (f r)), (proj2 (Hf r)) by done.
Qed.

Lemma want_page_congr f mp l r :
  (∀ r, same_key r (f r)) → want_page mp (f <$> l) (f r) = want_page mp l r.
Proof.
  intros Hf. unfold want_page, over.
  by rewrite row_number_congr, picked_congr, length_fmap, (kept_congr r (f r)) by done.
Qed.

Lemma same_key_applied now want r : same_key r (apply_hold now want r).
Proof. unfold apply_hold. by destruct (moves want r). Qed.

Lemma settled_again now want pool :
  (∀ r, r ∈ pool → PoolRow.held r = want r) →
  apply_hold now want <$> pool = pool ∧
  tally want pool = {| Reconciled.held := 0; Reconciled.released := 0 |}.
Proof.
  intros Hs. assert (∀ r, r ∈ pool → moves want r = false) as Hm.
  { intros r Hr. unfold moves. rewrite (Hs r Hr). by destruct (want r). }
  split.
  - rewrite <-(list_fmap_id pool) at 2. apply list_fmap_ext. intros i r Hr%list_elem_of_lookup_2.
    unfold apply_hold. by rewrite (Hm r Hr).
  - unfold tally. by rewrite (lfilter_nil _ _ Hm).
Qed.

Lemma forgotten_again pool :
  set_kept (λ _, false) <$> (set_kept (λ _, false) <$> pool) = set_kept (λ _, false) <$> pool.
Proof. by rewrite <-list_fmap_compose. Qed.

(** The targets, a second time. *)
Lemma reconcile_targets_again mf mt now now' pool :
  let want := want_target mf mt pool in
  let pool' := forget_target_pick mf mt (apply_hold now want <$> pool) in
  let want' := want_target mf mt pool' in
  tally want' pool' = {| Reconciled.held := 0; Reconciled.released := 0 |} ∧
  forget_target_pick mf mt (apply_hold now' want' <$> pool') = pool'.
Proof.
  cbv zeta. set (want := want_target mf mt pool).
  assert (∀ l (f : PoolRow.t → PoolRow.t), (∀ r, PoolRow.is_flow (f r) = PoolRow.is_flow r) →
    over mt (f <$> l) = over mt l ∧ over mf (flows (f <$> l)) = over mf (flows l)) as Hover.
  { intros l f Hf. unfold over, flows. rewrite lfilter_fmap, !length_fmap.
    rewrite (lfilter_ext _ PoolRow.is_flow) by (intros x _; apply Hf). done. }
  destruct (Hover pool (apply_hold now want) (λ r, flow_applied now want r)) as [Ho1 Ho2].
  unfold forget_target_pick. rewrite Ho1, Ho2.
  destruct (over mt pool || over mf (flows pool)) eqn:Ho.
  - set (pool' := apply_hold now want <$> pool).
    destruct (settled_again now' (want_target mf mt pool') pool') as [Hs1 Hs2].
    { intros r (x & -> & Hx)%list_elem_of_fmap. rewrite held_applied. symmetry.
      apply want_target_congr. intros r. apply same_key_applied. }
    split; [done|]. rewrite Hs1. fold pool' in Ho1, Ho2. by rewrite Ho1, Ho2, Ho.
  - apply orb_false_iff in Ho as [Hot Hof].
    set (pool' := set_kept (λ _, false) <$> (apply_hold now want <$> pool)).
    destruct (Hover (apply_hold now want <$> pool) (set_kept (λ _, false)) (λ _, eq_refl)) as [Ho3 Ho4].
    fold pool' in Ho3, Ho4. rewrite Ho1, Hot in Ho3. rewrite Ho2, Hof in Ho4.
    destruct (settled_again now' (want_target mf mt pool') pool') as [Hs1 Hs2].
    { intros r Hr. rewrite (covered_targets mf mt pool' r Ho3 Ho4 Hr).
      apply list_elem_of_fmap in Hr as (y & -> & Hy). apply list_elem_of_fmap in Hy as (x & -> & Hx).
      change (PoolRow.held (apply_hold now want x) = false). rewrite held_applied.
      by apply covered_targets. }
    split; [done|]. rewrite Hs1, Ho3, Ho4. simpl. apply forgotten_again.
Qed.

Lemma reconcile_pages_again mp now now' pool :
  let want := want_page mp pool in
  let pool' := forget_page_pick mp (apply_hold now want <$> pool) in
  let want' := want_page mp pool' in
  tally want' pool' = {| Reconciled.held := 0; Reconciled.released := 0 |} ∧
  forget_page_pick mp (apply_hold now' want' <$> pool') = pool'.
Proof.
  cbv zeta. set (want := want_page mp pool).
  assert (∀ l (f : PoolRow.t → PoolRow.t), over mp (f <$> l) = over mp l) as Hover.
  { intros l f. unfold over. by rewrite length_fmap. }
  unfold forget_page_pick. rewrite Hover. destruct (over mp pool) eqn:Ho.
  - set (pool' := apply_hold now want <$> pool).
    destruct (settled_again now' (want_page mp pool') pool') as [Hs1 Hs2].
    { intros r (x & -> & Hx)%list_elem_of_fmap. rewrite held_applied. symmetry.
      apply want_page_congr. intros r. apply same_key_applied. }
    split; [done|]. rewrite Hs1. unfold pool'. by rewrite Hover, Ho.
  - set (pool' := set_kept (λ _, false) <$> (apply_hold now want <$> pool)).
    assert (over mp pool' = false) as Ho' by (unfold pool'; by rewrite !Hover).
    destruct (settled_again now' (want_page mp pool') pool') as [Hs1 Hs2].
    { intros r Hr. rewrite (covered_pages mp pool' r Ho' Hr).
      apply list_elem_of_fmap in Hr as (y & -> & Hy). apply list_elem_of_fmap in Hy as (x & -> & Hx).
      change (PoolRow.held (apply_hold now want x) = false). rewrite held_applied.
      by apply covered_pages. }
    split; [done|]. rewrite Hs1, Ho'. apply forgotten_again.
Qed.

(** C33: a repeat run is a no-op. A second reconcile with the same plan, whenever
    it comes, moves no row, reports no change and leaves the account as it found
    it: the first converged in one shot. *)
Theorem reconcile_converges_in_one_run plan now now' a :
  let a' := (reconcile_account plan now a).2 in
  reconcile_account plan now' a'
    = ({| Reconciled.held := 0; Reconciled.released := 0 |}, a').
Proof.
  simpl. unfold reconcile_account. cbn [Account.targets Account.status_pages].
  destruct (reconcile_targets_again (Plan.max_flow_checks plan) (Plan.max_targets plan) now now'
    (Account.targets a)) as [H1 H2].
  destruct (reconcile_pages_again (Plan.max_status_pages plan) now now' (Account.status_pages a))
    as [H3 H4].
  by rewrite H1, H2, H3, H4.
Qed.

(** *** Picks *)
Lemma kept_before pool r x :
  PoolRow.plan_keep r = true → before x r = true → PoolRow.plan_keep x = true.
Proof.
  intros Hr. rewrite before_spec. unfold before_key, key_lt. rewrite Hr.
  destruct (PoolRow.plan_keep x); [done|]. lia.
Qed.

Lemma picked_true pool : picked pool = true ↔ ∃ r, r ∈ pool ∧ PoolRow.plan_keep r = true.
Proof.
  unfold picked. rewrite existsb_exists. split; intros (r & Hr & ?); exists r; split; try done;
    by apply list_elem_of_In.
Qed.

(** A pick binds in both directions. When an account over its monitor cap has
    picked no more than the plan sells, exactly the monitors it picked are served,
    even if that leaves seats free; likewise its status pages. *)
Theorem pick_is_authoritative mf mt mp targets pages :
  (picked targets = true → over mt targets = true →
   count PoolRow.plan_keep targets ≤ mt →
   count PoolRow.plan_keep (flows targets) ≤ mf →
   ∀ r, r ∈ targets → want_target mf mt targets r = negb (PoolRow.plan_keep r)) ∧
  (picked pages = true → over mp pages = true → count PoolRow.plan_keep pages ≤ mp →
   ∀ r, r ∈ pages → want_page mp pages r = negb (PoolRow.plan_keep r)).
Proof.
  split.
  - intros Hp Ho Hk Hkf r Hr. unfold want_target. rewrite Hp, Ho.
    destruct (PoolRow.plan_keep r) eqn:Hkr; [|by rewrite orb_true_r]. simpl. rewrite orb_false_r.
    assert (flow_held mf targets r = false) as Hfl.
    { unfold flow_held. destruct (PoolRow.is_flow r) eqn:Hir; [|done]. simpl. apply Z.ltb_ge.
      etrans; [|exact Hkf]. apply row_number_le_count; [|by apply elem_of_lfilter|done].
      intros x _. by apply kept_before. }
    rewrite Hfl, rank_unheld by done. simpl. apply Z.ltb_ge.
    transitivity (count PoolRow.plan_keep (List.filter (λ x, negb (flow_held mf targets x)) targets)).
    + apply row_number_le_count; [|apply elem_of_lfilter; by rewrite Hfl|done].
      intros x _. by apply kept_before.
    + rewrite <-count_and. etrans; [|exact Hk]. apply count_impl. intros x _.
      by intros [_ ?]%andb_true_iff.
  - intros Hp Ho Hk r Hr. unfold want_page. rewrite Hp, Ho.
    destruct (PoolRow.plan_keep r) eqn:Hkr; [|by rewrite orb_true_r]. simpl. rewrite orb_false_r.
    apply Z.ltb_ge. etrans; [|exact Hk]. apply row_number_le_count; [|done|done].
    intros x _. by apply kept_before.
Qed.

Lemma unpicked_pages mp pool :
  NoDup (PoolRow.id <$> pool) → picked pool = false →
  count (serving (want_page mp pool)) pool = Z.min (Z.of_nat (length pool)) (Z.max mp 0).
Proof.
  intros Hnd Hp. rewrite <-row_number_count by done. apply count_ext_in. intros r _.
  unfold serving, want_page. rewrite Hp. simpl. rewrite orb_false_r.
  apply eq_bool_prop_intro. rewrite !Is_true_true, negb_true_iff, Z.ltb_ge, Z.leb_le. done.
Qed.

(** A pick of nothing is no pick. Saving an empty list for a resource is meant
    as "keep none of these", but it leaves no row marked, and the reconcile then
    falls back to its default order: it serves as many status pages as the plan
    sells. *)
Theorem empty_pick_keeps_pages plan now a :
  NoDup (PoolRow.id <$> Account.status_pages a) →
  count served (Account.status_pages
    (reconcile_account plan now (set_keep None (Some []) a)).2)
  = Z.min (Z.of_nat (length (Account.status_pages a))) (Z.max (Plan.max_status_pages plan) 0).
Proof.
  intros Hnd. simpl. rewrite served_forgotten_page.
  set (pool := set_kept _ <$> Account.status_pages a).
  rewrite (served_applied now _ pool (λ _, true)) by done.
  change (count (λ r, true && serving (want_page (Plan.max_status_pages plan) pool) r) pool)
    with (count (serving (want_page (Plan.max_status_pages plan) pool)) pool).
  rewrite unpicked_pages.
  - unfold pool. by rewrite length_fmap.
  - unfold pool. rewrite <-list_fmap_compose. exact Hnd.
  - apply not_true_iff_false. intros (r & (x & -> & _)%list_elem_of_fmap & Hk)%picked_true.
  simpl in Hk. discriminate.
Qed.
End Reconcile.

Module HoldSample.
Import Plans.PlanSample.
Definition row (i : Uuid) (flow kept : bool) (at_ : DateTime) : PoolRow.t := {|
  PoolRow.id := i; PoolRow.org_id := 9%N; PoolRow.is_flow := flow; PoolRow.enabled := true;
  PoolRow.created_at := at_; PoolRow.plan_keep := kept; PoolRow.plan_hold_at := None;
  PoolRow.updated_at := at_ |}.
(** Eleven monitors on a plan of ten (which sells no flow), two pages on a plan of one. *)
Definition account : Account.t := {|
  Account.targets := [row 1%N true false 1; row 2%N false false 2; row 3%N false false 3;
    row 4%N false false 4; row 5%N false false 5; row 6%N false false 6; row 7%N false false 7;
    row 8%N false false 8; row 9%N false false 9; row 10%N false false 10; row 11%N false false 11;
    row 12%N false true 12];
  Account.status_pages := [row 1%N false false 1; row 2%N false false 2] |}.

(** The flow goes first, then what was not picked. *)
Example held_monitors :
  PoolRow.id <$> filter (λ r, PoolRow.held r) (Account.targets (reconcile_account ten 100 account).2)
    = [1; 2; 3; 4; 5; 6; 7; 8; 9; 10; 11]%N ∧
  (reconcile_account ten 100 account).1 = {| Reconciled.held := 12; Reconciled.released := 0 |}.
Proof. by vm_compute. Qed.

Lemma account_distinct : distinct account.
Proof. split; apply (bool_decide_unpack _); by vm_compute. Qed.

Lemma reconcile_respects_the_caps_witness :
  count served (Account.status_pages (reconcile_account ten 100 account).2) ≤ 1.
Proof. apply (reconcile_respects_the_caps ten 100 account account_distinct). Defined.

Lemma pick_is_authoritative_witness :
  want_target 0 10 (Account.targets account) (row 2%N false false 2) = true.
Proof.
  destruct (pick_is_authoritative 0 10 1 (Account.targets account) (Account.status_pages account))
    as [Ht _].
  rewrite Ht; [done|by vm_compute..|]. apply (bool_decide_unpack _). by vm_compute.
Defined.

Lemma empty_pick_keeps_pages_witness :
  count served (Account.status_pages (reconcile_account ten 100 (set_keep None (Some []) account)).2) = 1.
Proof. rewrite (empty_pick_keeps_pages ten 100 account (proj2 account_distinct)). by vm_compute. Defined.
End HoldSample.
