(* ===== verification/OnCall.v ===== *)
(** * On-call schedules

    src/domain/on_call.rs (schedules and the pure resolver), the in-memory
    [OnCallStore] of src/storage/on_call.rs and the validation of
    src/api/handlers/on_call.rs. [chrono-tz] is a parameter: a zone gives its
    offset at an instant and the instants a local time stands for.

    A local time ([NaiveDateTime]) is in nanoseconds since local 1970; its date
    is the number of days and its time the rest. *)

From S2P Require Import Prelude Text Domain.

(** ** The chrono-tz crate *)
Module LocalResult.
Inductive t := Single (x : DateTime) | Ambiguous (earliest latest : DateTime) | None_.
Definition earliest (r : t) : option DateTime :=
  match r with Single x => Some x | Ambiguous x _ => Some x | None_ => None end.
End LocalResult.

Class TimeZones := {
  Tz : Type;
  UTC : Tz;
  tz_from_str : string → option Tz;
  offset_from_utc : Tz → DateTime → Duration;
  from_local_datetime : Tz → Z → LocalResult.t;
}.

Definition with_timezone `{TimeZones} (tz : Tz) (at_ : DateTime) : Z := at_ + offset_from_utc tz at_.
Definition time_naive (local : Z) : Duration := local mod DAY.
Definition and_time (date : Z) (time : Duration) : Z := date * DAY + time.

(** ** src/domain/on_call.rs *)
Module OnCallParticipant.
Record t := { id : Uuid; user_id : UserId; position : Z }.
#[global] Instance eq_dec : EqDecision t.
Proof. solve_decision. Defined.
End OnCallParticipant.

Module OnCallLayer.
Record t := {
  id : Uuid;
  name : option string;
  rotation_type : RotationType.t;
  rotation_length_secs : Z;
  handoff_at : DateTime;
  layer_order : Z;
  created_at : DateTime;
  participants : list OnCallParticipant.t;
}.
#[global] Instance eq_dec : EqDecision t.
Proof. solve_decision. Defined.
End OnCallLayer.

Module OnCallOverride.
Record t := {
  id : Uuid;
  user_id : UserId;
  starts_at : DateTime;
  ends_at : DateTime;
  created_by : option UserId;
  created_at : DateTime;
}.
#[global] Instance eq_dec : EqDecision t.
Proof. solve_decision. Defined.
End OnCallOverride.

Module OnCallSchedule.
Record t := {
  id : Uuid;
  name : string;
  timezone : string;
  created_at : DateTime;
  updated_at : DateTime;
}.
#[global] Instance eq_dec : EqDecision t.
Proof. solve_decision. Defined.
End OnCallSchedule.

Module OnCallScheduleDetail.
Record t := {
  schedule : OnCallSchedule.t;
  layers : list OnCallLayer.t;
  overrides : list OnCallOverride.t;
}.
#[global] Instance eq_dec : EqDecision t.
Proof. solve_decision. Defined.
End OnCallScheduleDetail.

Module OnCallScheduleSummary.
Record t := {
  id : Uuid;
  name : string;
  timezone : string;
  layer_count : Z;
  created_at : DateTime;
  updated_at : DateTime;
}.
End OnCallScheduleSummary.

Module NewOnCallLayer.
Record t := {
  name : option string;
  rotation_type : RotationType.t;
  rotation_length_secs : Z;
  handoff_at : DateTime;
  layer_order : Z;
  participants : list UserId;
}.
End NewOnCallLayer.

Module NewOnCallSchedule.
Record t := { name : string; timezone : string; layers : list NewOnCallLayer.t }.
End NewOnCallSchedule.

Module NewOnCallOverride.
Record t := { user_id : UserId; starts_at : DateTime; ends_at : DateTime }.
End NewOnCallOverride.

Section Resolver.
Context `{TimeZones}.

(** The steps tried in a gap, in minutes. *)
Fixpoint step_forward (tz : Tz) (naive : Z) (steps : list Z) : option DateTime :=
  match steps with
  | [] => None
  | mins :: steps =>
      match LocalResult.earliest (from_local_datetime tz (naive + seconds (mins * 60))) with
      | Some dt => Some dt
      | None => step_forward tz naive steps
      end
  end.

Definition local_to_utc (tz : Tz) (naive : Z) : DateTime :=
  match from_local_datetime tz naive with
  | LocalResult.Single dt => dt
  | LocalResult.Ambiguous earliest _ => earliest
  | LocalResult.None_ =>
      match step_forward tz naive [60; 120; 180; 240] with
      | Some dt => dt
      | None => naive - offset_from_utc tz naive
      end
  end.

Definition rotation_index (layer : OnCallLayer.t) (tz : Tz) (at_ : DateTime) : Z :=
  match OnCallLayer.rotation_type layer with
  | RotationType.Custom =>
      let secs := num_seconds (at_ - OnCallLayer.handoff_at layer) in
      let len := Z.max (OnCallLayer.rotation_length_secs layer) 1 in
      if secs <? 0 then 0 else Z.quot secs len
  | RotationType.Daily | RotationType.Weekly =>
      let period_days := Z.max (Z.quot (OnCallLayer.rotation_length_secs layer) 86400) 1 in
      let anchor_local := with_timezone tz (OnCallLayer.handoff_at layer) in
      let now_local := with_timezone tz at_ in
      let anchor_date := date_naive anchor_local in
      let now_date := date_naive now_local in
      if now_date <? anchor_date then 0
      else
        let handoff_today := local_to_utc tz (and_time now_date (time_naive anchor_local)) in
        let days := now_date - anchor_date in
        let days := if at_ <? handoff_today then days - 1 else days in
        if days <? 0 then 0 else Z.quot days period_days
  end.

(** [ps[slot]]; the slot is in range, [rem_euclid] by the length. *)
Definition layer_on_call (layer : OnCallLayer.t) (tz : Tz) (at_ : DateTime) : option UserId :=
  match OnCallLayer.participants layer with
  | [] => None
  | participants =>
      let ps := sort_by_key OnCallParticipant.position participants in
      let slot := rotation_index layer tz at_ mod Z.of_nat (length ps) in
      OnCallParticipant.user_id <$> ps !! Z.to_nat slot
  end.

Definition covers (at_ : DateTime) (o : OnCallOverride.t) : bool :=
  (OnCallOverride.starts_at o <=? at_) && (at_ <? OnCallOverride.ends_at o).

(** The order of the stack: the highest [layer_order], then the oldest. *)
Definition layer_le (a b : OnCallLayer.t) : bool :=
  match Z.compare (OnCallLayer.layer_order b) (OnCallLayer.layer_order a) with
  | Lt => true
  | Gt => false
  | Eq => OnCallLayer.created_at a <=? OnCallLayer.created_at b
  end.

Fixpoint first_on_call (tz : Tz) (at_ : DateTime) (ranked : list OnCallLayer.t) : list UserId :=
  match ranked with
  | [] => []
  | layer :: ranked =>
      match layer_on_call layer tz at_ with
      | Some uid => [uid]
      | None => first_on_call tz at_ ranked
      end
  end.

Definition has_participants (l : OnCallLayer.t) : bool :=
  match OnCallLayer.participants l with [] => false | _ => true end.

Definition resolve_on_call (schedule : OnCallSchedule.t) (layers : list OnCallLayer.t)
    (overrides : list OnCallOverride.t) (at_ : DateTime) : list UserId :=
  match List.filter (covers at_) overrides with
  | [] =>
      let tz := default UTC (tz_from_str (OnCallSchedule.timezone schedule)) in
      first_on_call tz at_ (sort_by layer_le (List.filter has_participants layers))
  | covering =>
      fold_left push_new
        (OnCallOverride.user_id <$> sort_by_key OnCallOverride.starts_at covering) []
  end.
End Resolver.

(** ** src/api/handlers/on_call.rs *)
Section Validation.
Context `{TimeZones, UnicodeText}.

Definition MAX_NAME : nat := 100.
Definition MAX_LAYERS : nat := 10.
Definition MAX_PARTICIPANTS : nat := 50.
Definition DAY_SECS : Z := 86400.
Definition WEEK_SECS : Z := 7 * DAY_SECS.

Definition invalid (msg : string) : AppError := Unprocessable "ON_CALL_SCHEDULE_INVALID" msg.

Definition validate_layer (layer : NewOnCallLayer.t) : result unit :=
  let len := NewOnCallLayer.rotation_length_secs layer in
  if len <=? 0 then Err (invalid "rotation length must be positive")
  else if bool_decide (NewOnCallLayer.rotation_type layer = RotationType.Daily)
          && negb (Z.rem len DAY_SECS =? 0) then
    Err (invalid "a daily rotation length must be a whole number of days")
  else if bool_decide (NewOnCallLayer.rotation_type layer = RotationType.Weekly)
          && negb (Z.rem len WEEK_SECS =? 0) then
    Err (invalid "a weekly rotation length must be a whole number of weeks")
  else
    match NewOnCallLayer.participants layer with
    | [] => Err (invalid "each layer needs at least one participant")
    | ps => if (MAX_PARTICIPANTS <? length ps)%nat
            then Err (invalid "too many participants in one layer") else Ok tt
    end.

Fixpoint validate_layers (layers : list NewOnCallLayer.t) : result unit :=
  match layers with
  | [] => Ok tt
  | layer :: layers =>
      match validate_layer layer with Ok _ => validate_layers layers | Err e => Err e end
  end.

Definition validate (new : NewOnCallSchedule.t) : result unit :=
  let name := trim (NewOnCallSchedule.name new) in
  if negb (non_empty name) then Err (invalid "schedule name is required")
  else if (MAX_NAME <? String.length name)%nat then Err (invalid "schedule name is too long")
  else if is_none (tz_from_str (NewOnCallSchedule.timezone new))
    then Err (invalid "timezone must be a known IANA name")
  else if (MAX_LAYERS <? length (NewOnCallSchedule.layers new))%nat
    then Err (invalid "too many layers")
  else validate_layers (NewOnCallSchedule.layers new).

Definition validate_override (new : NewOnCallOverride.t) : result unit :=
  if NewOnCallOverride.ends_at new <=? NewOnCallOverride.starts_at new
  then Err (invalid "override end must be after its start") else Ok tt.
End Validation.

(** ** src/storage/on_call.rs, in memory *)
Module MemSchedule.
Record t := { org : OrgId; detail : OnCallScheduleDetail.t; deleted : bool }.
Definition id (e : t) : Uuid := OnCallSchedule.id (OnCallScheduleDetail.schedule (detail e)).
Definition name (e : t) : string := OnCallSchedule.name (OnCallScheduleDetail.schedule (detail e)).
End MemSchedule.

Module MemState.
Record t := { schedules : list MemSchedule.t; members : list (OrgId * UserId) }.
End MemState.

Class HasOnCall (W : Type) := {
  on_call_state : W → MemState.t;
  set_on_call : MemState.t → W → W;
}.

Definition name_taken : AppError :=
  Unprocessable "ON_CALL_SCHEDULE_NAME_TAKEN" "an on-call schedule with this name already exists".
Definition not_member : AppError :=
  Unprocessable "ON_CALL_SCHEDULE_INVALID"
    "schedule references a user who is not a member of this organization".
Definition quota_exceeded : AppError :=
  Unprocessable "ON_CALL_SCHEDULE_QUOTA_EXCEEDED" "on-call schedule limit reached for this plan".

Section Store.
Context {W : Type} `{HasRuntime W, HasOnCall W, TimeZones}.

Definition state_ : M W MemState.t := gets on_call_state.
Definition put_schedules (f : list MemSchedule.t → list MemSchedule.t) : M W unit :=
  modify (λ w, set_on_call {| MemState.schedules := f (MemState.schedules (on_call_state w));
                              MemState.members := MemState.members (on_call_state w) |} w).

Definition live_in (org : OrgId) (e : MemSchedule.t) : bool :=
  bool_decide (MemSchedule.org e = org) && negb (MemSchedule.deleted e).
Definition found (org : OrgId) (id : Uuid) (e : MemSchedule.t) : bool :=
  live_in org e && bool_decide (MemSchedule.id e = id).
Definition named (org : OrgId) (name : string) (e : MemSchedule.t) : bool :=
  live_in org e && String.eqb (MemSchedule.name e) name.

Definition is_member (g : MemState.t) (org : OrgId) (user : UserId) : bool :=
  existsb (λ m, bool_decide (m = (org, user))) (MemState.members g).

Definition assert_members (g : MemState.t) (org : OrgId) (new : NewOnCallSchedule.t)
    : result unit :=
  if forallb (is_member g org)
       (concat (NewOnCallLayer.participants <$> NewOnCallSchedule.layers new))
  then Ok tt else Err not_member.

(** The participants of a layer, numbered from [pos]. *)
Fixpoint make_participants (pos : Z) (users : list UserId) : M W (list OnCallParticipant.t) :=
  match users with
  | [] => mret []
  | user :: users =>
      id ← now_v7;
      rest ← make_participants (pos + 1) users;
      mret ({| OnCallParticipant.id := id; OnCallParticipant.user_id := user;
               OnCallParticipant.position := pos |} :: rest)
  end.

Fixpoint make_layers (now : DateTime) (layers : list NewOnCallLayer.t)
    : M W (list OnCallLayer.t) :=
  match layers with
  | [] => mret []
  | l :: layers =>
      id ← now_v7;
      participants ← make_participants 0 (NewOnCallLayer.participants l);
      rest ← make_layers now layers;
      mret ({| OnCallLayer.id := id;
               OnCallLayer.name := NewOnCallLayer.name l;
               OnCallLayer.rotation_type := NewOnCallLayer.rotation_type l;
               OnCallLayer.rotation_length_secs := NewOnCallLayer.rotation_length_secs l;
               OnCallLayer.handoff_at := NewOnCallLayer.handoff_at l;
               OnCallLayer.layer_order := NewOnCallLayer.layer_order l;
               OnCallLayer.created_at := now;
               OnCallLayer.participants := participants |} :: rest)
  end.

Definition materialise (id : Uuid) (new : NewOnCallSchedule.t) (now : DateTime)
    : M W OnCallScheduleDetail.t :=
  layers ← make_layers now (NewOnCallSchedule.layers new);
  mret {| OnCallScheduleDetail.schedule := {|
            OnCallSchedule.id := id;
            OnCallSchedule.name := NewOnCallSchedule.name new;
            OnCallSchedule.timezone := NewOnCallSchedule.timezone new;
            OnCallSchedule.created_at := now;
            OnCallSchedule.updated_at := now |};
          OnCallScheduleDetail.layers := layers;
          OnCallScheduleDetail.overrides := [] |}.

Definition list_schedules (org : OrgId) : M W (list OnCallScheduleSummary.t) :=
  g ← state_;
  mret ((λ e, let d := MemSchedule.detail e in
    let s := OnCallScheduleDetail.schedule d in {|
    OnCallScheduleSummary.id := OnCallSchedule.id s;
    OnCallScheduleSummary.name := OnCallSchedule.name s;
    OnCallScheduleSummary.timezone := OnCallSchedule.timezone s;
    OnCallScheduleSummary.layer_count := Z.of_nat (length (OnCallScheduleDetail.layers d));
    OnCallScheduleSummary.created_at := OnCallSchedule.created_at s;
    OnCallScheduleSummary.updated_at := OnCallSchedule.updated_at s |})
    <$> List.filter (live_in org) (MemState.schedules g)).

Definition get_schedule (org : OrgId) (id : Uuid) : M W (option OnCallScheduleDetail.t) :=
  g ← state_;
  mret (MemSchedule.detail <$> List.find (found org id) (MemState.schedules g)).

Definition create_schedule (org : OrgId) (new : NewOnCallSchedule.t) (max_schedules : Z)
    : M W OnCallScheduleDetail.t :=
  g ← state_;
  if existsb (named org (NewOnCallSchedule.name new)) (MemState.schedules g) then throw name_taken
  else if max_schedules <=? count (live_in org) (MemState.schedules g) then throw quota_exceeded
  else
    match assert_members g org new with
    | Err e => throw e
    | Ok _ =>
        id ← now_v7;
        now ← utc_now;
        detail ← materialise id new now;
        _ ← put_schedules (λ v, v ++ [{| MemSchedule.org := org; MemSchedule.detail := detail;
                                         MemSchedule.deleted := false |}]);
        mret detail
    end.

Definition set_detail (d : OnCallScheduleDetail.t) (e : MemSchedule.t) : MemSchedule.t :=
  {| MemSchedule.org := MemSchedule.org e; MemSchedule.detail := d;
     MemSchedule.deleted := MemSchedule.deleted e |}.

Definition replace_schedule (org : OrgId) (id : Uuid) (new : NewOnCallSchedule.t)
    : M W (option OnCallScheduleDetail.t) :=
  g ← state_;
  if existsb (λ e, named org (NewOnCallSchedule.name new) e
                   && negb (bool_decide (MemSchedule.id e = id))) (MemState.schedules g)
  then throw name_taken
  else
    match List.find (found org id) (MemState.schedules g) with
    | None => mret None
    | Some e =>
        match assert_members g org new with
        | Err err => throw err
        | Ok _ =>
            now ← utc_now;
            d ← materialise id new now;
            let s := OnCallScheduleDetail.schedule d in
            let old := MemSchedule.detail e in
            let detail := {|
              OnCallScheduleDetail.schedule := {|
                OnCallSchedule.id := OnCallSchedule.id s;
                OnCallSchedule.name := OnCallSchedule.name s;
                OnCallSchedule.timezone := OnCallSchedule.timezone s;
                OnCallSchedule.created_at :=
                  OnCallSchedule.created_at (OnCallScheduleDetail.schedule old);
                OnCallSchedule.updated_at := OnCallSchedule.updated_at s |};
              OnCallScheduleDetail.layers := OnCallScheduleDetail.layers d;
              OnCallScheduleDetail.overrides := OnCallScheduleDetail.overrides old |} in
            _ ← put_schedules (update_first (found org id) (set_detail detail));
            mret (Some detail)
        end
    end.

Definition delete_schedule (org : OrgId) (id : Uuid) : M W bool :=
  g ← state_;
  match List.find (found org id) (MemState.schedules g) with
  | Some _ =>
      _ ← put_schedules (update_first (found org id) (λ e,
            {| MemSchedule.org := MemSchedule.org e; MemSchedule.detail := MemSchedule.detail e;
               MemSchedule.deleted := true |}));
      mret true
  | None => mret false
  end.

Definition set_overrides (f : list OnCallOverride.t → list OnCallOverride.t)
    (e : MemSchedule.t) : MemSchedule.t :=
  let d := MemSchedule.detail e in
  set_detail {| OnCallScheduleDetail.schedule := OnCallScheduleDetail.schedule d;
                OnCallScheduleDetail.layers := OnCallScheduleDetail.layers d;
                OnCallScheduleDetail.overrides := f (OnCallScheduleDetail.overrides d) |} e.

Definition add_override (org : OrgId) (schedule_id : Uuid) (created_by : option UserId)
    (new : NewOnCallOverride.t) : M W (option OnCallOverride.t) :=
  g ← state_;
  if negb (is_member g org (NewOnCallOverride.user_id new)) then throw not_member
  else
    id ← now_v7;
    now ← utc_now;
    let ov := {|
      OnCallOverride.id := id;
      OnCallOverride.user_id := NewOnCallOverride.user_id new;
      OnCallOverride.starts_at := NewOnCallOverride.starts_at new;
      OnCallOverride.ends_at := NewOnCallOverride.ends_at new;
      OnCallOverride.created_by := created_by;
      OnCallOverride.created_at := now |} in
    match List.find (found org schedule_id) (MemState.schedules g) with
    | Some _ =>
        _ ← put_schedules (update_first (found org schedule_id) (set_overrides (λ os, os ++ [ov])));
        mret (Some ov)
    | None => mret None
    end.

Definition delete_override (org : OrgId) (schedule_id override_id : Uuid) : M W bool :=
  g ← state_;
  match List.find (found org schedule_id) (MemState.schedules g) with
  | None => mret false
  | Some e =>
      let keep := List.filter (λ o, negb (bool_decide (OnCallOverride.id o = override_id))) in
      let os := OnCallScheduleDetail.overrides (MemSchedule.detail e) in
      _ ← put_schedules (update_first (found org schedule_id) (set_overrides keep));
      mret (negb (length (keep os) =? length os)%nat)
  end.

(** The trait's [resolve_now]. *)
Definition resolve_now (org : OrgId) (schedule_id : Uuid) (at_ : DateTime) : M W (list UserId) :=
  d ← get_schedule org schedule_id;
  mret match d with
       | Some d => resolve_on_call (OnCallScheduleDetail.schedule d)
                     (OnCallScheduleDetail.layers d) (OnCallScheduleDetail.overrides d) at_
       | None => []
       end.
End Store.
