(* ===== verification/OnCallRota.v ===== *)
(** * Who is on call

    Theorems about the resolver of [OnCall]: rotations hand over at the same wall
    clock time, overrides win, and the order in which rows are loaded does not
    matter. *)

From S2P Require Import Prelude Text Domain OnCall.

(** ** Handoffs *)
Section Handoffs.
Context `{TimeZones}.

(** What the calendar arithmetic needs of a zone: its dates do not run backwards
    (no clock is set back across midnight), and a local time is resolved to an
    instant of its own date (no gap swallows the end of a day). *)
Record calendar_ok (tz : Tz) : Prop := {
  dates_mono : ∀ a b, a ≤ b → date_naive (with_timezone tz a) ≤ date_naive (with_timezone tz b);
  own_date : ∀ n, date_naive (with_timezone tz (local_to_utc tz n)) = date_naive n;
}.

(** The handoff of local day [n]: the anchor's time of day on it. *)
Definition handoff_on (layer : OnCallLayer.t) (tz : Tz) (n : Z) : DateTime :=
  let anchor := with_timezone tz (OnCallLayer.handoff_at layer) in
  local_to_utc tz (and_time (date_naive anchor + n) (time_naive anchor)).
Definition period_days (layer : OnCallLayer.t) : Z :=
  Z.max (Z.quot (OnCallLayer.rotation_length_secs layer) 86400) 1.

Lemma date_and_time d local : date_naive (and_time d (time_naive local)) = d.
Proof.
  unfold date_naive, and_time, time_naive. pose proof (Z.mod_pos_bound local DAY ltac:(done)).
  rewrite Z.div_add_l by done. rewrite (Z.div_small (local mod DAY)) by done. lia.
Qed.

Lemma handoff_date layer tz n :
  calendar_ok tz →
  date_naive (with_timezone tz (handoff_on layer tz n))
    = date_naive (with_timezone tz (OnCallLayer.handoff_at layer)) + n.
Proof. intros [_ Hd]. unfold handoff_on. by rewrite Hd, date_and_time. Qed.

Lemma later_date tz a b :
  calendar_ok tz → date_naive (with_timezone tz a) < date_naive (with_timezone tz b) → a < b.
Proof. intros [Hm _] Hlt. destruct (Z.le_gt_cases b a) as [Hle|]; [|lia]. apply Hm in Hle. lia. Qed.

Lemma handoff_mono layer tz n m :
  calendar_ok tz → n ≤ m → handoff_on layer tz n ≤ handoff_on layer tz m.
Proof.
  intros Hc Hnm. destruct (decide (n = m)) as [->|]; [lia|].
  pose proof (handoff_date layer tz n Hc). pose proof (handoff_date layer tz m Hc).
  pose proof (later_date tz (handoff_on layer tz n) (handoff_on layer tz m) Hc). lia.
Qed.

(** The index, in days: the last local day whose handoff has been. *)
Lemma rotation_index_days layer tz at_ :
  calendar_ok tz → OnCallLayer.rotation_type layer ≠ RotationType.Custom →
  ∃ D, handoff_on layer tz D ≤ at_ < handoff_on layer tz (D + 1) ∧
    rotation_index layer tz at_ = if D <? 0 then 0 else D / period_days layer.
Proof.
  intros Hc Ht. set (d0 := date_naive (with_timezone tz (OnCallLayer.handoff_at layer))).
  set (d := date_naive (with_timezone tz at_)).
  pose proof (handoff_date layer tz (d - d0 - 1) Hc) as H1.
  pose proof (handoff_date layer tz (d - d0 + 1) Hc) as H2.
  assert (handoff_on layer tz (d - d0 - 1) < at_) by (apply (later_date tz); [done|]; subst d0 d; lia).
  assert (at_ < handoff_on layer tz (d - d0 + 1)) by (apply (later_date tz); [done|]; subst d0 d; lia).
  assert (handoff_on layer tz (d - d0) =
    local_to_utc tz (and_time d (time_naive (with_timezone tz (OnCallLayer.handoff_at layer))))) as Htoday.
  { unfold handoff_on. cbv zeta. fold d0. by replace (d0 + (d - d0)) with d by lia. }
  assert (Hp : 0 < period_days layer) by (unfold period_days; lia).
  set (D := if at_ <? handoff_on layer tz (d - d0) then d - d0 - 1 else d - d0).
  exists D. split.
  { subst D. destruct (at_ <? handoff_on layer tz (d - d0)) eqn:Hlt; bool_cases.
    - replace (d - d0 - 1 + 1) with (d - d0) by lia. lia.
    - lia. }
  unfold rotation_index. cbv zeta. fold d0 d (period_days layer). rewrite <-Htoday.
  assert ((if d <? d0 then 0 else
           if (if at_ <? handoff_on layer tz (d - d0) then d - d0 - 1 else d - d0) <? 0 then 0 else
           (if at_ <? handoff_on layer tz (d - d0) then d - d0 - 1 else d - d0) ÷ period_days layer)
          = if D <? 0 then 0 else D / period_days layer) as Hi.
  { fold D. destruct (D <? 0) eqn:Hneg; bool_cases.
    - by destruct (d <? d0).
    - assert (D ≤ d - d0) by (subst D; destruct (at_ <? _); lia).
      destruct (d <? d0) eqn:Hd; bool_cases; [lia|]. apply Z.quot_div_nonneg; lia. }
  by destruct (OnCallLayer.rotation_type layer).
Qed.

(** A daily or weekly rotation hands over at the anchor's wall clock time.
    With [handoff k] the anchor's time of day, in the schedule's zone, [k]
    periods of whole local days after the anchor's date, the index of an instant
    is the [i] with [handoff i ≤ at < handoff (i + 1)], whatever the clocks did
    in between; before the first handoff it is 0. *)
Theorem rotation_hands_over_at_wall_clock layer tz at_ :
  calendar_ok tz → OnCallLayer.rotation_type layer ≠ RotationType.Custom →
  let handoff k := handoff_on layer tz (k * period_days layer) in
  let i := rotation_index layer tz at_ in
  0 ≤ i ∧ (handoff 0 ≤ at_ → handoff i ≤ at_ < handoff (i + 1)) ∧ (at_ < handoff 0 → i = 0).
Proof.
  intros Hc Ht. cbv zeta. destruct (rotation_index_days layer tz at_ Hc Ht) as (D & [Hlo Hhi] & ->).
  assert (Hp : 0 < period_days layer) by (unfold period_days; lia).
  rewrite Z.mul_0_l. destruct (D <? 0) eqn:Hneg; bool_cases.
  - split; [lia|]. split; [|done]. intros H0.
    pose proof (handoff_mono layer tz (D + 1) 0 Hc ltac:(lia)). lia.
  - split; [by apply Z.div_pos|]. split.
    + intros _. pose proof (Z.mul_div_le D _ Hp). pose proof (Z.mul_succ_div_gt D _ Hp).
      split; [etrans; [apply handoff_mono; [done|]|exact Hlo]; lia|].
      eapply Z.lt_le_trans; [exact Hhi|]. apply handoff_mono; [done|]. lia.
    + intros H0. pose proof (handoff_mono layer tz 0 D Hc ltac:(lia)). lia.
Qed.
End Handoffs.

(** ** The resolver *)
Section Resolving.
Context `{TimeZones}.
Implicit Types (layers : list OnCallLayer.t) (os : list OnCallOverride.t).

Lemma rotation_index_nonneg layer tz at_ : 0 ≤ rotation_index layer tz at_.
Proof.
  unfold rotation_index. cbv zeta.
  destruct (OnCallLayer.rotation_type layer); repeat case_match; bool_cases; try lia;
    apply Z.quot_pos; lia.
Qed.

(** A layer with participants always has one on call. *)
Lemma layer_on_call_covers layer tz at_ :
  has_participants layer = true →
  ∃ p, p ∈ OnCallLayer.participants layer ∧ layer_on_call layer tz at_ = Some (OnCallParticipant.user_id p).
Proof.
  unfold has_participants, layer_on_call. destruct (OnCallLayer.participants layer) as [|p0 ps] eqn:Hps; [done|].
  intros _. set (sorted := sort_by_key _ _).
  assert (length sorted = S (length ps)) as Hlen by (unfold sorted, sort_by_key; by rewrite length_sort_by).
  pose proof (Z.mod_pos_bound (rotation_index layer tz at_) (Z.of_nat (length sorted)) ltac:(lia)).
  destruct (lookup_lt_is_Some_2 sorted
    (Z.to_nat (rotation_index layer tz at_ mod Z.of_nat (length sorted)))) as [p Hp]; [lia|].
  exists p. rewrite Hp. split; [|done]. apply list_elem_of_lookup_2 in Hp.
  by apply elem_of_sort_by_key in Hp.
Qed.

Lemma first_on_call_head tz at_ layer rest :
  has_participants layer = true →
  ∃ u, first_on_call tz at_ (layer :: rest) = [u] ∧ layer_on_call layer tz at_ = Some u.
Proof.
  intros Hl. destruct (layer_on_call_covers layer tz at_ Hl) as (p & _ & Hp).
  exists (OnCallParticipant.user_id p). simpl. by rewrite Hp.
Qed.

Lemma push_all_spec (l out : list UserId) :
  NoDup out →
  NoDup (fold_left push_new l out) ∧ ∀ u, u ∈ fold_left push_new l out ↔ u ∈ out ∨ u ∈ l.
Proof.
  revert out. induction l as [|x l IH]; intros out Hout; simpl.
  { split; [done|]. intros u. rewrite elem_of_nil. tauto. }
  destruct (IH (push_new out x)) as [Hnd Hin].
  { unfold push_new. case_bool_decide; [done|]. apply NoDup_app. split_and!; [done| |apply NoDup_singleton].
    intros y Hy ->%list_elem_of_singleton. done. }
  split; [done|]. intros u. rewrite Hin, elem_of_cons. unfold push_new.
  case_bool_decide as Hx; [|rewrite elem_of_app, list_elem_of_singleton; tauto].
  split; [tauto|]. intros [?|[->|?]]; auto.
Qed.

(** The order of the stack. *)
Definition layer_key (l : OnCallLayer.t) : Z * Z :=
  (OnCallLayer.layer_order l, OnCallLayer.created_at l).

Lemma layer_le_spec a b :
  layer_le a b = true ↔
  OnCallLayer.layer_order b < OnCallLayer.layer_order a ∨
  OnCallLayer.layer_order b = OnCallLayer.layer_order a ∧
    OnCallLayer.created_at a ≤ OnCallLayer.created_at b.
Proof.
  unfold layer_le. destruct (Z.compare_spec (OnCallLayer.layer_order b) (OnCallLayer.layer_order a)).
  - rewrite Z.leb_le. split; [by right|]. intros [?|[_ ?]]; [lia|done].
  - split; [by left|done].
  - split; [done|]. intros [?|[? _]]; lia.
Qed.

Lemma layer_le_total a b : layer_le a b = false → layer_le b a = true.
Proof. rewrite <-not_true_iff_false, !layer_le_spec. lia. Qed.
Lemma layer_le_trans a b c : layer_le a b = true → layer_le b c = true → layer_le a c = true.
Proof. rewrite !layer_le_spec. lia. Qed.

Lemma overrides_win_then_the_top_layer_spec schedule layers os at_ :
  let who := resolve_on_call schedule layers os at_ in
  let tz := default UTC (tz_from_str (OnCallSchedule.timezone schedule)) in
  (existsb (covers at_) os = true →
     NoDup who ∧ ∀ u, u ∈ who ↔ ∃ o, o ∈ os ∧ covers at_ o = true ∧ OnCallOverride.user_id o = u) ∧
  (existsb (covers at_) os = false →
     (who = [] ∧ ∀ l, l ∈ layers → OnCallLayer.participants l = []) ∨
     ∃ l u, l ∈ layers ∧ who = [u] ∧ layer_on_call l tz at_ = Some u ∧
       ∀ l', l' ∈ layers → OnCallLayer.participants l' ≠ [] → layer_le l l' = true).
Proof.
  cbv zeta. unfold resolve_on_call.
  assert (Hcov : existsb (covers at_) os = true ↔ List.filter (covers at_) os ≠ []).
  { rewrite existsb_exists. split.
    - intros (o & Ho%list_elem_of_In & Hc) Hnil.
      assert (o ∈ List.filter (covers at_) os) as Hin by (by apply elem_of_lfilter).
      rewrite Hnil in Hin. by apply not_elem_of_nil in Hin.
    - destruct (List.filter (covers at_) os) as [|o l] eqn:Hf; [done|]. intros _.
      assert (o ∈ List.filter (covers at_) os) as [Ho Hc]%elem_of_lfilter by (rewrite Hf; by left).
      exists o. split; [by apply list_elem_of_In|done]. }
  split.
  - intros Hc%Hcov. destruct (List.filter (covers at_) os) as [|o l] eqn:Hf; [done|].
    rewrite <-Hf. destruct (push_all_spec
      (OnCallOverride.user_id <$> sort_by_key OnCallOverride.starts_at (List.filter (covers at_) os)) [])
      as [Hnd Hin]; [constructor|].
    split; [done|]. intros u. rewrite Hin, elem_of_nil, list_elem_of_fmap.
    split.
    + intros [[]|(x & -> & [Hx Hcx]%elem_of_sort_by_key%elem_of_lfilter)]. eauto.
    + intros (x & Hx & Hcx & <-). right. exists x. split; [done|].
      by apply elem_of_sort_by_key, elem_of_lfilter.
  - intros Hc. assert (List.filter (covers at_) os = []) as ->.
    { destruct (List.filter (covers at_) os) eqn:Hf; [done|].
      assert (existsb (covers at_) os = true) by (by apply Hcov). congruence. }
    pose proof (sort_by_sorted layer_le layer_le_total layer_le_trans
      (List.filter has_participants layers)) as Hs.
    pose proof (λ x, elem_of_sort_by layer_le x (List.filter has_participants layers)) as Hel.
    destruct (sort_by layer_le (List.filter has_participants layers)) as [|l rest].
    + left. split; [done|]. intros l Hl. destruct (OnCallLayer.participants l) eqn:Hp; [done|].
      exfalso. apply (not_elem_of_nil l), Hel, elem_of_lfilter. unfold has_participants. by rewrite Hp.
    + right. assert (l ∈ List.filter has_participants layers) as [Hl Hlp]%elem_of_lfilter
        by (apply Hel; by left).
      destruct (first_on_call_head (default UTC (tz_from_str (OnCallSchedule.timezone schedule)))
        at_ l rest Hlp) as (u & -> & Hu).
      exists l, u. split_and!; [done|done|done|]. intros l' Hl' Hne.
      assert (l' ∈ l :: rest) as Hin.
      { apply Hel, elem_of_lfilter. split; [done|]. unfold has_participants.
        by destruct (OnCallLayer.participants l'). }
      apply elem_of_cons in Hin as [->|Hin]; [apply layer_le_spec; lia|].
      apply StronglySorted_inv in Hs as [_ Hall]. rewrite Forall_forall in Hall.
      by apply Is_true_true, Hall.
Qed.

(** What the resolver answers. Overrides that cover the instant win, and then
    exactly their users are on call, each once. Otherwise one person is: the one
    the topmost layer that has participants puts in its current slot; and nobody
    only if no layer has participants. *)
Theorem overrides_win_then_the_top_layer schedule layers os at_ :
  let who := resolve_on_call schedule layers os at_ in
  let tz := default UTC (tz_from_str (OnCallSchedule.timezone schedule)) in
  (existsb (covers at_) os = true →
     NoDup who ∧ ∀ u, u ∈ who ↔ ∃ o, o ∈ os ∧ covers at_ o = true ∧ OnCallOverride.user_id o = u) ∧
  (existsb (covers at_) os = false →
     (who = [] ∧ ∀ l, l ∈ layers → OnCallLayer.participants l = []) ∨
     ∃ l u, l ∈ layers ∧ who = [u] ∧ layer_on_call l tz at_ = Some u ∧
       ∀ l', l' ∈ layers → OnCallLayer.participants l' ≠ [] → layer_le l l' = true).
Proof. apply overrides_win_then_the_top_layer_spec. Qed.

Lemma sort_by_unique {A} (le : A → A → bool) l l' :
  (∀ x y, le x y = false → le y x = true) →
  (∀ x y z, le x y = true → le y z = true → le x z = true) →
  (∀ x y, x ∈ l → y ∈ l → le x y = true → le y x = true → x = y) →
  l ≡ₚ l' → sort_by le l = sort_by le l'.
Proof.
  intros Htot Htr Hasym Hp. apply (StronglySorted_unique_strong le).
  - intros x y Hx%elem_of_sort_by Hy%elem_of_sort_by Hxy%Is_true_true Hyx%Is_true_true.
    apply Hasym; [done|by rewrite Hp|done|done].
  - by apply sort_by_sorted.
  - by apply sort_by_sorted.
  - by rewrite !sort_by_perm.
Qed.

(** Rows may be handed over in any order. If no two layers with participants
    agree in both their order and their creation time, and no two overrides start
    at the same time, the answer is the same for every order of the rows. *)
Theorem rows_in_any_order schedule layers layers' os os' at_ :
  layers ≡ₚ layers' → os ≡ₚ os' →
  NoDup (layer_key <$> List.filter has_participants layers) →
  NoDup (OnCallOverride.starts_at <$> os) →
  resolve_on_call schedule layers os at_ = resolve_on_call schedule layers' os' at_.
Proof.
  intros Hl Ho Hkl Hko. unfold resolve_on_call.
  pose proof (lfilter_perm (covers at_) _ _ Ho) as Hf.
  assert (sort_by layer_le (List.filter has_participants layers)
    = sort_by layer_le (List.filter has_participants layers')) as ->.
  { apply sort_by_unique; [apply layer_le_total|apply layer_le_trans| |by apply lfilter_perm].
    intros x y Hx Hy Hxy Hyx. apply (NoDup_fmap_inj_elem layer_key _ _ _ Hkl Hx Hy).
    apply layer_le_spec in Hxy, Hyx. unfold layer_key. f_equal; lia. }
  assert (sort_by_key OnCallOverride.starts_at (List.filter (covers at_) os)
    = sort_by_key OnCallOverride.starts_at (List.filter (covers at_) os')) as Hs.
  { apply sort_by_unique; [intros; bool_cases; apply Z.leb_le; lia|
      intros; bool_cases; apply Z.leb_le; lia| |done].
    intros x y [Hx _]%elem_of_lfilter [Hy _]%elem_of_lfilter Hxy Hyx.
    apply (NoDup_fmap_inj_elem _ _ _ _ Hko Hx Hy). bool_cases. lia. }
  destruct (List.filter (covers at_) os) as [|o l] eqn:H1, (List.filter (covers at_) os') as [|o' l'] eqn:H2.
  - done.
  - by apply Permutation_nil_cons in Hf.
  - by apply Permutation_sym, Permutation_nil_cons in Hf.
  - by rewrite Hs.
Qed.
End Resolving.

(** ** A spring in New York *)
Module RotaSample.

(** 2026-03-08T07:00Z: the clocks go from 02:00 to 03:00. *)
Definition JUMP : DateTime := seconds 1772953200.
Definition hours (h : Z) : Duration := seconds (h * 3600).

Definition new_york_local (n : Z) : LocalResult.t :=
  if n + hours 5 <? JUMP then LocalResult.Single (n + hours 5)
  else if JUMP <=? n + hours 4 then LocalResult.Single (n + hours 4)
  else LocalResult.None_.

(** UTC and, around that spring, New York. *)
#[global] Instance zones : TimeZones := {|
  Tz := bool; UTC := false;
  tz_from_str s := if String.eqb s "UTC" then Some false
                   else if String.eqb s "America/New_York" then Some true else None;
  offset_from_utc tz at_ := if tz then (if at_ <? JUMP then 0 - hours 5 else 0 - hours 4) else 0;
  from_local_datetime tz n := if tz then new_york_local n else LocalResult.Single n |}.

Definition new_york : Tz := true.

Lemma new_york_ok : calendar_ok new_york.
Proof.
  split.
  - intros a b Hab. unfold date_naive, with_timezone, offset_from_utc, zones, new_york.
    apply Z.div_le_mono; [done|]. unfold hours, seconds, NANOS, JUMP, seconds, NANOS.
    destruct (a <? _) eqn:Ha, (b <? _) eqn:Hb; bool_cases; lia.
  - intros n. unfold date_naive, local_to_utc, with_timezone, new_york. cbn [from_local_datetime offset_from_utc zones].
    unfold new_york_local.
    assert (∀ x, (JUMP <=? x) = true → (x <? JUMP) = false) as Hge by (intros; bool_cases; apply Z.ltb_ge; lia).
    destruct (n + hours 5 <? JUMP) eqn:H5.
    { rewrite H5. f_equal. lia. }
    destruct (JUMP <=? n + hours 4) eqn:H4.
    { rewrite (Hge _ H4). f_equal. lia. }
    cbn [step_forward from_local_datetime zones]. unfold new_york_local.
    change (seconds (60 * 60)) with (hours 1).
    assert ((n + hours 1 + hours 5 <? JUMP) = false) as ->.
    { bool_cases. apply Z.ltb_ge. unfold hours, seconds, NANOS in *. lia. }
    assert ((JUMP <=? n + hours 1 + hours 4) = true) as H1.
    { bool_cases. apply Z.leb_le. unfold hours, seconds, NANOS in *. lia. }
    rewrite H1. cbn [LocalResult.earliest]. rewrite (Hge _ H1).
    bool_cases. unfold DAY, hours, JUMP, seconds, NANOS in *.
    transitivity 20520; [symmetry; apply Z.div_unique with (r := n + 3600000000000 - 20520 * 86400000000000); lia|].
    apply Z.div_unique with (r := n - 20520 * 86400000000000); lia.
Qed.

(** Daily at 09:00 local, from the 6th of March. *)
Definition daily : OnCallLayer.t := {|
  OnCallLayer.id := 1%N; OnCallLayer.name := None;
  OnCallLayer.rotation_type := RotationType.Daily; OnCallLayer.rotation_length_secs := 86400;
  OnCallLayer.handoff_at := JUMP - seconds 86400 - hours 17; OnCallLayer.layer_order := 0;
  OnCallLayer.created_at := 0;
  OnCallLayer.participants := [
    {| OnCallParticipant.id := 1%N; OnCallParticipant.user_id := 1%N; OnCallParticipant.position := 0 |};
    {| OnCallParticipant.id := 2%N; OnCallParticipant.user_id := 2%N; OnCallParticipant.position := 1 |}] |}.

(** The third handoff, on the 9th, is at 13:00Z: an hour less than three days on. *)
Lemma rotation_hands_over_at_wall_clock_witness :
  handoff_on daily new_york (3 * period_days daily) = JUMP + hours 30 ∧
  rotation_index daily new_york (JUMP + hours 30) = 3 ∧
  rotation_index daily new_york (JUMP + hours 30 - 1) = 2 ∧
  handoff_on daily new_york (2 * period_days daily) ≤ JUMP + hours 30 - 1.
Proof.
  split; [vm_compute; reflexivity|]. split; [vm_compute; reflexivity|].
  split; [vm_compute; reflexivity|].
  destruct (rotation_hands_over_at_wall_clock daily new_york (JUMP + hours 30 - 1) new_york_ok
    ltac:(discriminate)) as (_ & H & _).
  assert (rotation_index daily new_york (JUMP + hours 30 - 1) = 2) as Hi by (vm_compute; reflexivity).
  rewrite Hi in H. apply H. vm_compute. discriminate.
Defined.

(** A local time in the gap is not taken to the jump but as far past it. *)
Lemma gap_lands_past_the_jump :
  local_to_utc new_york (JUMP - hours 5 + seconds 1800) = JUMP + seconds 1800.
Proof. vm_compute. reflexivity. Qed.

Definition over (id user : Uuid) (from to : Z) : OnCallOverride.t := {|
  OnCallOverride.id := id; OnCallOverride.user_id := user; OnCallOverride.starts_at := from;
  OnCallOverride.ends_at := to; OnCallOverride.created_by := None;
  OnCallOverride.created_at := 0 |}.
Definition plan : OnCallSchedule.t := {|
  OnCallSchedule.id := 9%N; OnCallSchedule.name := "primary"; OnCallSchedule.timezone := "UTC";
  OnCallSchedule.created_at := 0; OnCallSchedule.updated_at := 0 |}.

Lemma rows_in_any_order_witness :
  resolve_on_call plan [daily] [over 1%N 5%N 0 10; over 2%N 6%N 3 8] 4
    = resolve_on_call plan [daily] [over 2%N 6%N 3 8; over 1%N 5%N 0 10] 4 ∧
  resolve_on_call plan [daily] [over 2%N 6%N 3 8; over 1%N 5%N 0 10] 4 = [5%N; 6%N].
Proof.
  split; [|vm_compute; reflexivity].
  apply (rows_in_any_order plan [daily] [daily] _ _ 4); [reflexivity|apply Permutation_swap| |];
    apply (bool_decide_unpack _); vm_compute; exact I.
Defined.

(** Layers saved together have one creation time, so it breaks no tie between
    them: the answer follows the order the rows come in. *)
Definition same_order (id user : Uuid) : OnCallLayer.t := {|
  OnCallLayer.id := id; OnCallLayer.name := None; OnCallLayer.rotation_type := RotationType.Custom;
  OnCallLayer.rotation_length_secs := 3600; OnCallLayer.handoff_at := 0; OnCallLayer.layer_order := 0;
  OnCallLayer.created_at := 0;
  OnCallLayer.participants := [{| OnCallParticipant.id := id; OnCallParticipant.user_id := user;
    OnCallParticipant.position := 0 |}] |}.
Lemma tied_layers_follow_row_order :
  resolve_on_call plan [same_order 1%N 1%N; same_order 2%N 2%N] [] 5 = [1%N] ∧
  resolve_on_call plan [same_order 2%N 2%N; same_order 1%N 1%N] [] 5 = [2%N].
Proof. vm_compute. by split. Qed.
End RotaSample.
