(* ===== verification/OnCallSchedules.v ===== *)
(** * The on-call store's invariants

    Theorems on the in-memory store of [OnCall], taken as a sequence of calls:
    names stay unique, everybody on a schedule is a member of its organisation,
    and a schedule that passed validation always has somebody on call. *)

From S2P Require Import Prelude Text Domain OnCall OnCallRota.

(** ** The store on its own *)
Module OnCallWorld.
Record t := { state : MemState.t; clock_reads : nat; ids_drawn : nat }.

#[global] Instance runtime `{Environment} : HasRuntime t := {
  utc_now := λ w, (Ok (clock (clock_reads w)),
    {| state := state w; clock_reads := S (clock_reads w); ids_drawn := ids_drawn w |});
  now_v7 := λ w, (Ok (fresh (ids_drawn w)),
    {| state := state w; clock_reads := clock_reads w; ids_drawn := S (ids_drawn w) |});
}.
#[global] Instance on_call : HasOnCall t := {
  on_call_state := state;
  set_on_call g w := {| state := g; clock_reads := clock_reads w; ids_drawn := ids_drawn w |};
}.
Definition init : t :=
  {| state := {| MemState.schedules := []; MemState.members := [] |};
     clock_reads := 0; ids_drawn := 0 |}.

(** [add_member]. *)
Definition add_member (org : OrgId) (user : UserId) (w : t) : t :=
  {| state := {| MemState.schedules := MemState.schedules (state w);
                 MemState.members := MemState.members (state w) ++ [(org, user)] |};
     clock_reads := clock_reads w; ids_drawn := ids_drawn w |}.
End OnCallWorld.
Import OnCallWorld.

Section Calls.
Context `{Environment, TimeZones, UnicodeText}.
Implicit Types (w : OnCallWorld.t) (e : MemSchedule.t).

Inductive Cmd :=
| AddMember (org : OrgId) (user : UserId)
| Create (org : OrgId) (new : NewOnCallSchedule.t) (max_schedules : Z)
| Replace (org : OrgId) (id : Uuid) (new : NewOnCallSchedule.t)
| Delete (org : OrgId) (id : Uuid)
| AddOverride (org : OrgId) (schedule_id : Uuid) (by_ : option UserId) (new : NewOnCallOverride.t)
| DeleteOverride (org : OrgId) (schedule_id override_id : Uuid).

Definition after w (c : Cmd) : OnCallWorld.t :=
  match c with
  | AddMember org user => add_member org user w
  | Create org new max => (create_schedule org new max w).2
  | Replace org id new => (replace_schedule org id new w).2
  | Delete org id => (delete_schedule org id w).2
  | AddOverride org sid by_ new => (add_override org sid by_ new w).2
  | DeleteOverride org sid oid => (delete_override org sid oid w).2
  end.

Inductive reachable : OnCallWorld.t → Prop :=
| reach_init : reachable init
| reach_step w c : reachable w → reachable (after w c).

(** Everybody a schedule can put on call. *)
Definition people (d : OnCallScheduleDetail.t) : list UserId :=
  (OnCallParticipant.user_id <$> concat (OnCallLayer.participants <$> OnCallScheduleDetail.layers d))
  ++ (OnCallOverride.user_id <$> OnCallScheduleDetail.overrides d).

Definition live e : bool := negb (MemSchedule.deleted e).
Definition name_key e : OrgId * string := (MemSchedule.org e, MemSchedule.name e).
Definition vec w : list MemSchedule.t := MemState.schedules (state w).

Definition staffed (g : MemState.t) e : Prop :=
  ∀ u, u ∈ people (MemSchedule.detail e) → is_member g (MemSchedule.org e) u = true.

Record store_ok w : Prop := {
  ok_drawn : ∀ e, e ∈ vec w → ∃ k, (k < ids_drawn w)%nat ∧ MemSchedule.id e = fresh k;
  ok_ids : NoDup (MemSchedule.id <$> vec w);
  ok_names : NoDup (name_key <$> List.filter live (vec w));
  ok_staffed : ∀ e, e ∈ vec w → staffed (state w) e;
}.

(** *** Building a schedule *)
Lemma make_participants_run pos users w :
  ∃ ps n, make_participants pos users w =
      (Ok ps, {| state := state w; clock_reads := clock_reads w; ids_drawn := n |}) ∧
    (ids_drawn w ≤ n)%nat ∧ OnCallParticipant.user_id <$> ps = users.
Proof.
  revert pos w. induction users as [|u users IH]; intros pos w.
  { exists [], (ids_drawn w). by destruct w. }
  simpl. unfold mbind, M_bind. simpl.
  destruct (IH (pos + 1) {| state := state w; clock_reads := clock_reads w;
    ids_drawn := S (ids_drawn w) |}) as (ps & n & Hrun & Hn & Hu). rewrite Hrun. simpl in *.
  eexists _, n. split; [reflexivity|]. split; [lia|]. csimpl. by rewrite Hu.
Qed.

Definition built_from (now : DateTime) (l : NewOnCallLayer.t) (x : OnCallLayer.t) : Prop :=
  OnCallParticipant.user_id <$> OnCallLayer.participants x = NewOnCallLayer.participants l ∧
  OnCallLayer.rotation_type x = NewOnCallLayer.rotation_type l ∧
  OnCallLayer.rotation_length_secs x = NewOnCallLayer.rotation_length_secs l ∧
  OnCallLayer.handoff_at x = NewOnCallLayer.handoff_at l ∧
  OnCallLayer.layer_order x = NewOnCallLayer.layer_order l ∧
  OnCallLayer.created_at x = now.

Lemma make_layers_run now ls w :
  ∃ xs n, make_layers now ls w =
      (Ok xs, {| state := state w; clock_reads := clock_reads w; ids_drawn := n |}) ∧
    (ids_drawn w ≤ n)%nat ∧ Forall2 (built_from now) ls xs.
Proof.
  revert w. induction ls as [|l ls IH]; intros w.
  { exists [], (ids_drawn w). destruct w. split; [done|]. split; [done|constructor]. }
  simpl. unfold mbind, M_bind. simpl.
  destruct (make_participants_run 0 (NewOnCallLayer.participants l) {| state := state w;
    clock_reads := clock_reads w; ids_drawn := S (ids_drawn w) |}) as (ps & n & -> & Hn & Hu).
  simpl in *. destruct (IH {| state := state w; clock_reads := clock_reads w; ids_drawn := n |})
    as (xs & n' & -> & Hn' & Hxs). simpl in *.
  eexists _, n'. split; [reflexivity|]. split; [lia|]. constructor; [|done].
  by split_and!.
Qed.

Lemma materialise_run id new now w :
  ∃ d n, materialise id new now w =
      (Ok d, {| state := state w; clock_reads := clock_reads w; ids_drawn := n |}) ∧
    (ids_drawn w ≤ n)%nat ∧
    OnCallScheduleDetail.schedule d = {| OnCallSchedule.id := id;
      OnCallSchedule.name := NewOnCallSchedule.name new;
      OnCallSchedule.timezone := NewOnCallSchedule.timezone new;
      OnCallSchedule.created_at := now; OnCallSchedule.updated_at := now |} ∧
    OnCallScheduleDetail.overrides d = [] ∧
    Forall2 (built_from now) (NewOnCallSchedule.layers new) (OnCallScheduleDetail.layers d).
Proof.
  unfold materialise, mbind, M_bind. destruct (make_layers_run now (NewOnCallSchedule.layers new) w)
    as (xs & n & -> & Hn & Hxs). eexists _, n. by split_and!.
Qed.

Lemma built_people now ls xs :
  Forall2 (built_from now) ls xs →
  OnCallParticipant.user_id <$> concat (OnCallLayer.participants <$> xs)
    = concat (NewOnCallLayer.participants <$> ls).
Proof.
  induction 1 as [|l x ls xs (Hu & _) _ IH]; csimpl; [done|].
  by rewrite fmap_app, Hu, IH.
Qed.

Lemma assert_members_true g org new :
  assert_members g org new = Ok tt →
  ∀ u, u ∈ concat (NewOnCallLayer.participants <$> NewOnCallSchedule.layers new) →
    is_member g org u = true.
Proof.
  unfold assert_members. destruct (forallb _ _) eqn:Hf; [|done]. intros _ u Hu.
  rewrite forallb_forall in Hf. apply Hf. by apply list_elem_of_In.
Qed.

Lemma assert_members_cases g org new :
  assert_members g org new = Ok tt ∨ assert_members g org new = Err not_member.
Proof. unfold assert_members. destruct (forallb _ _); auto. Qed.

(** *** How a call moves the vector *)
Inductive move w : OnCallWorld.t → Prop :=
| move_none k n :
    (ids_drawn w ≤ n)%nat →
    move w {| state := state w; clock_reads := k; ids_drawn := n |}
| move_member org u : move w (add_member org u w)
| move_add e k n :
    (ids_drawn w < n)%nat → MemSchedule.id e = fresh (ids_drawn w) →
    existsb (named (MemSchedule.org e) (MemSchedule.name e)) (vec w) = false →
    MemSchedule.deleted e = false → staffed (state w) e →
    move w {| state := {| MemState.schedules := vec w ++ [e];
                          MemState.members := MemState.members (state w) |};
              clock_reads := k; ids_drawn := n |}
| move_edit p f e k n :
    (ids_drawn w ≤ n)%nat → List.find p (vec w) = Some e →
    MemSchedule.id (f e) = MemSchedule.id e → MemSchedule.org (f e) = MemSchedule.org e →
    (MemSchedule.deleted e = true → MemSchedule.deleted (f e) = true) →
    (staffed (state w) e → staffed (state w) (f e)) →
    (MemSchedule.name (f e) = MemSchedule.name e ∨
     ∀ x, x ∈ vec w → live x = true → MemSchedule.id x ≠ MemSchedule.id e → name_key x ≠ name_key (f e)) →
    move w {| state := {| MemState.schedules := update_first p f (vec w);
                          MemState.members := MemState.members (state w) |};
              clock_reads := k; ids_drawn := n |}.

Lemma move_refl w : move w w.
Proof. destruct w. by apply move_none. Qed.

Lemma named_false org name v x :
  existsb (named org name) v = false → x ∈ v → live x = true → name_key x ≠ (org, name).
Proof.
  intros Hv Hx Hl Heq. unfold name_key in Heq. injection Heq as Ho Hn.
  assert (existsb (named org name) v = true); [|congruence].
  apply existsb_exists. exists x. split; [by apply list_elem_of_In|].
  unfold named, live_in. unfold live in Hl. rewrite bool_decide_true, Hl by done. simpl.
  by apply String.eqb_eq.
Qed.

Lemma found_true org id e :
  found org id e = true ↔ MemSchedule.org e = org ∧ MemSchedule.deleted e = false ∧ MemSchedule.id e = id.
Proof.
  unfold found, live_in. rewrite !andb_true_iff, negb_true_iff, !bool_decide_eq_true. tauto.
Qed.

Lemma staffed_detail g e e' :
  MemSchedule.org e' = MemSchedule.org e →
  (∀ u, u ∈ people (MemSchedule.detail e') → u ∈ people (MemSchedule.detail e) ∨
     is_member g (MemSchedule.org e) u = true) →
  staffed g e → staffed g e'.
Proof. intros Ho Hp Hs u Hu. rewrite Ho. destruct (Hp u Hu) as [?|?]; [by apply Hs|done]. Qed.

Lemma create_moves org new max w : move w (create_schedule org new max w).2.
Proof.
  unfold create_schedule, mbind, M_bind. simpl.
  fold (vec w). destruct (existsb _ _) eqn:Hn; [apply move_refl|].
  destruct (max <=? _); [apply move_refl|].
  destruct (assert_members_cases (state w) org new) as [Ha|Ha]; rewrite Ha;
    [|apply move_refl].
  simpl. destruct (materialise_run (fresh (ids_drawn w)) new (clock (clock_reads w))
    {| state := state w; clock_reads := S (clock_reads w); ids_drawn := S (ids_drawn w) |})
    as (d & n & -> & Hd & Hs & Ho & Hl). simpl in *.
  apply move_add; unfold MemSchedule.id, MemSchedule.name, staffed; simpl; rewrite ?Hs; simpl;
    [lia|done|done|done|].
  intros u Hu. apply (assert_members_true _ _ _ Ha).
  unfold people in Hu. rewrite Ho, app_nil_r in Hu. by rewrite (built_people _ _ _ Hl) in Hu.
Qed.

Lemma replace_moves org id new w : move w (replace_schedule org id new w).2.
Proof.
  unfold replace_schedule, mbind, M_bind. simpl. fold (vec w).
  destruct (existsb _ _) eqn:Hn; [apply move_refl|].
  destruct (List.find _ _) as [e|] eqn:Hf; [|apply move_refl].
  destruct (assert_members_cases (state w) org new) as [Ha|Ha]; rewrite Ha;
    [|apply move_refl].
  simpl. destruct (materialise_run id new (clock (clock_reads w))
    {| state := state w; clock_reads := S (clock_reads w); ids_drawn := ids_drawn w |})
    as (d & n & -> & Hd & Hs & Ho & Hl). simpl in *.
  destruct (find_Some_elem _ _ _ Hf) as [_ (Horg & Hdel & Hid)%found_true].
  eapply move_edit; [exact Hd|exact Hf|..]; simpl.
  - unfold MemSchedule.id at 1. simpl. by rewrite Hs.
  - done.
  - done.
  - apply staffed_detail; [done|]. intros u Hu. unfold people in *. simpl in Hu.
    rewrite (built_people _ _ _ Hl) in Hu. apply elem_of_app in Hu as [Hu|Hu].
    + right. rewrite Horg. by apply (assert_members_true _ _ _ Ha).
    + left. apply elem_of_app. by right.
  - right. intros x Hx Hlx Hne Heq. unfold name_key, MemSchedule.name at 2 in Heq. simpl in Heq.
    rewrite Hs in Heq. simpl in Heq. injection Heq as Ho' Hn'.
    assert (existsb (λ e, named org (NewOnCallSchedule.name new) e
      && negb (bool_decide (MemSchedule.id e = id))) (vec w) = true); [|congruence].
    apply existsb_exists. exists x. split; [by apply list_elem_of_In|].
    unfold named, live_in. unfold live in Hlx. rewrite Hlx, Hn', String.eqb_refl.
    rewrite !bool_decide_true, bool_decide_false by congruence. done.
Qed.

Lemma delete_moves org id w : move w (delete_schedule org id w).2.
Proof.
  unfold delete_schedule, mbind, M_bind. simpl. fold (vec w).
  destruct (List.find _ _) as [e|] eqn:Hf; [|apply move_refl].
  simpl. eapply move_edit; [done|exact Hf|done|done|done|done|by left].
Qed.

Lemma override_people f e :
  (∀ u, u ∈ people (MemSchedule.detail (set_overrides f e)) ↔
     u ∈ OnCallParticipant.user_id <$> concat (OnCallLayer.participants <$>
           OnCallScheduleDetail.layers (MemSchedule.detail e)) ∨
     u ∈ OnCallOverride.user_id <$> f (OnCallScheduleDetail.overrides (MemSchedule.detail e))).
Proof. intros u. unfold people. simpl. by rewrite elem_of_app. Qed.

Lemma add_override_moves org sid by_ new w : move w (add_override org sid by_ new w).2.
Proof.
  unfold add_override, mbind, M_bind. simpl. fold (vec w).
  destruct (is_member _ _ _) eqn:Hm; [|apply move_refl]. simpl.
  destruct (List.find _ _) as [e|] eqn:Hf; simpl; [|apply move_none; lia].
  destruct (find_Some_elem _ _ _ Hf) as [_ (Horg & _)%found_true].
  eapply move_edit; [lia|exact Hf|done|done|done| |by left].
  apply staffed_detail; [done|]. intros u Hu%override_people. unfold people. rewrite elem_of_app.
  destruct Hu as [Hu|Hu]; [by auto|]. rewrite fmap_app in Hu. apply elem_of_app in Hu as [Hu|Hu]; [auto|].
  csimpl in Hu. apply list_elem_of_singleton in Hu as ->. right. by rewrite Horg.
Qed.

Lemma delete_override_moves org sid oid w : move w (delete_override org sid oid w).2.
Proof.
  unfold delete_override, mbind, M_bind. simpl. fold (vec w).
  destruct (List.find _ _) as [e|] eqn:Hf; [|apply move_refl].
  simpl. eapply move_edit; [done|exact Hf|done|done|done| |by left].
  apply staffed_detail; [done|]. intros u Hu%override_people. left. unfold people. rewrite elem_of_app.
  destruct Hu as [Hu|Hu]; [by left|]. right. apply list_elem_of_fmap in Hu as (o & -> & [Ho _]%elem_of_lfilter).
  by apply list_elem_of_fmap_2.
Qed.

Lemma after_moves w c : move w (after w c).
Proof.
  destruct c; simpl; auto using move_member, create_moves, replace_moves, delete_moves,
    add_override_moves, delete_override_moves.
Qed.
(** *** Who a schedule answers with *)
Lemma resolve_on_call_people (d : OnCallScheduleDetail.t) at_ u :
  u ∈ resolve_on_call (OnCallScheduleDetail.schedule d) (OnCallScheduleDetail.layers d)
        (OnCallScheduleDetail.overrides d) at_ → u ∈ people d.
Proof.
  unfold people. rewrite elem_of_app.
  destruct (overrides_win_then_the_top_layer_spec (OnCallScheduleDetail.schedule d)
    (OnCallScheduleDetail.layers d) (OnCallScheduleDetail.overrides d) at_) as [Ho Hr].
  destruct (existsb (covers at_) (OnCallScheduleDetail.overrides d)).
  - destruct (Ho eq_refl) as [_ Hin]. intros (o & Hoin & _ & <-)%Hin. right.
    by apply list_elem_of_fmap_2.
  - destruct (Hr eq_refl) as [[-> _]|(l & v & Hl & -> & Hu & _)]; [by intros ?%not_elem_of_nil|].
    intros ->%list_elem_of_singleton. left.
    assert (has_participants l = true) as Hp.
    { unfold layer_on_call in Hu. unfold has_participants. by destruct (OnCallLayer.participants l). }
    destruct (layer_on_call_covers l (default UTC (tz_from_str
      (OnCallSchedule.timezone (OnCallScheduleDetail.schedule d)))) at_ Hp) as (p & Hpin & Heq). rewrite Heq in Hu.
    injection Hu as <-. apply list_elem_of_fmap_2. apply list_elem_of_In, in_concat.
    exists (OnCallLayer.participants l). split; [|by apply list_elem_of_In].
    apply list_elem_of_In. by apply list_elem_of_fmap_2.
Qed.

Lemma validate_layers_true ls l :
  validate_layers ls = Ok tt → l ∈ ls → validate_layer l = Ok tt.
Proof.
  induction ls as [|x ls IH]; simpl; [by intros _ ?%not_elem_of_nil|].
  destruct (validate_layer x) as [[]|] eqn:Hx; [|done].
  intros Hls [->|Hl]%elem_of_cons; [done|by apply IH].
Qed.

Lemma validate_true new l :
  validate new = Ok tt → l ∈ NewOnCallSchedule.layers new → NewOnCallLayer.participants l ≠ [].
Proof.
  unfold validate. cbv zeta. repeat (case_match; [done|]).
  intros Hv Hl. pose proof (validate_layers_true _ _ Hv Hl) as Hok. unfold validate_layer in Hok.
  cbv zeta in Hok. destruct (_ <=? 0); [done|]. destruct (_ && _); [done|]. destruct (_ && _); [done|].
  by destruct (NewOnCallLayer.participants l).
Qed.

Lemma valid_layers_cover schedule now new xs at_ :
  validate new = Ok tt → NewOnCallSchedule.layers new ≠ [] →
  Forall2 (built_from now) (NewOnCallSchedule.layers new) xs →
  ∃ u, resolve_on_call schedule xs [] at_ = [u].
Proof.
  intros Hv Hne Hb.
  destruct (overrides_win_then_the_top_layer_spec schedule xs [] at_) as [_ Hr].
  destruct (Hr eq_refl) as [[_ Hnone]|(l & u & _ & Hu & _)]; [|by exists u].
  destruct (NewOnCallSchedule.layers new) as [|n ls] eqn:Hls; [done|].
  destruct xs as [|x xs]; [inversion Hb|]. apply Forall2_cons in Hb as [(Hp & _) _].
  assert (NewOnCallLayer.participants n = []) as Hn.
  { rewrite <-Hp, (Hnone x) by left. done. }
  apply (validate_true new n Hv) in Hn; [done|]. rewrite Hls. left.
Qed.

Lemma create_run w org new max d w' :
  create_schedule org new max w = (Ok d, w') →
  ∃ e k n, w' = {| state := {| MemState.schedules := vec w ++ [e];
                               MemState.members := MemState.members (state w) |};
                   clock_reads := k; ids_drawn := n |} ∧
    OnCallSchedule.id (OnCallScheduleDetail.schedule d) = fresh (ids_drawn w) ∧
    MemSchedule.detail e = d ∧ MemSchedule.deleted e = false ∧ MemSchedule.org e = org ∧
    OnCallScheduleDetail.overrides d = [] ∧
    Forall2 (built_from (clock (clock_reads w))) (NewOnCallSchedule.layers new)
      (OnCallScheduleDetail.layers d).
Proof.
  unfold create_schedule, mbind, M_bind. simpl.
  fold (vec w). destruct (existsb _ _); [done|]. destruct (max <=? _); [done|].
  destruct (assert_members_cases (state w) org new) as [Ha|Ha]; rewrite Ha; [|done].
  simpl. destruct (materialise_run (fresh (ids_drawn w)) new (clock (clock_reads w))
    {| state := state w; clock_reads := S (clock_reads w); ids_drawn := S (ids_drawn w) |})
    as (x & n & -> & Hd & Hs & Ho & Hl). simpl in *. intros [= <- <-].
  eexists _, _, _. split; [reflexivity|]. rewrite Hs. by split_and!.
Qed.
End Calls.

Section Middle.
Context {A : Type} (l1 l2 : list A) (y : A).
Lemma elem_of_mid x : x ∈ l1 ++ l2 → x ∈ l1 ++ y :: l2.
Proof. rewrite !elem_of_app, elem_of_cons. tauto. Qed.
Lemma elem_of_the_mid : y ∈ l1 ++ y :: l2.
Proof. rewrite elem_of_app, elem_of_cons. auto. Qed.
Lemma elem_of_edited x : x ∈ l1 ++ y :: l2 → x = y ∨ x ∈ l1 ++ l2.
Proof. rewrite !elem_of_app, elem_of_cons. tauto. Qed.
End Middle.

Lemma find_app_r {A} (p : A → bool) (l l' : list A) :
  (∀ x, x ∈ l → p x = false) → List.find p (l ++ l') = List.find p l'.
Proof.
  induction l as [|x l IH]; intros Hl; simpl; [done|]. rewrite (Hl x) by left.
  apply IH. intros y Hy. apply Hl. by right.
Qed.

Lemma find_split {A} (p : A → bool) f (l : list A) x :
  List.find p l = Some x →
  ∃ l1 l2, l = l1 ++ x :: l2 ∧ update_first p f l = l1 ++ f x :: l2.
Proof.
  induction l as [|y l IH]; simpl; [done|]. destruct (p y) eqn:Hp.
  - intros [= ->]. by exists [], l.
  - intros (l1 & l2 & -> & Hu)%IH. exists (y :: l1), l2. simpl. by rewrite Hu.
Qed.

(** ** The invariant *)
Section Invariant.
Context `{EnvironmentLaws, TimeZones, UnicodeText}.
Implicit Types (w : OnCallWorld.t) (e : MemSchedule.t).

Lemma init_ok : store_ok init.
Proof. split; simpl; [|constructor|constructor|]; intros e He; by apply not_elem_of_nil in He. Qed.

Lemma staffed_mono g g' e :
  (∀ m, m ∈ MemState.members g → m ∈ MemState.members g') → staffed g e → staffed g' e.
Proof.
  intros Hm Hs u Hu. specialize (Hs u Hu). unfold is_member in *.
  apply existsb_exists in Hs as (m & Hin%list_elem_of_In & Hb). apply existsb_exists.
  exists m. split; [|done]. apply list_elem_of_In. by apply Hm.
Qed.

Lemma live_names_edit l1 l2 e e' :
  (MemSchedule.deleted e = true → MemSchedule.deleted e' = true) →
  MemSchedule.org e' = MemSchedule.org e →
  (MemSchedule.name e' = MemSchedule.name e ∨
   ∀ x, x ∈ l1 ++ l2 → live x = true → name_key x ≠ name_key e') →
  NoDup (name_key <$> List.filter live (l1 ++ e :: l2)) →
  NoDup (name_key <$> List.filter live (l1 ++ e' :: l2)).
Proof.
  intros Hdel Ho Hn Hnd. rewrite lfilter_app, fmap_app in Hnd |- *. cbn [List.filter] in *.
  destruct (live e') eqn:Hle'; last first.
  { destruct (live e); [|done]. csimpl in Hnd.
    eapply sublist_NoDup; [exact Hnd|]. apply sublist_app; [done|]. by apply sublist_cons. }
  assert (live e = true) as Hle.
  { unfold live in *. destruct (MemSchedule.deleted e); [by rewrite Hdel in Hle'|done]. }
  rewrite Hle in Hnd. csimpl in *. destruct Hn as [Hn|Hn].
  { by replace (name_key e') with (name_key e) by (unfold name_key; by rewrite Ho, Hn). }
  rewrite <-Permutation_middle in Hnd |- *. apply NoDup_cons in Hnd as [_ Hnd].
  apply NoDup_cons. split; [|done]. rewrite <-fmap_app, <-lfilter_app.
  intros (x & Heq & [Hx Hlx]%elem_of_lfilter)%list_elem_of_fmap. by eapply Hn.
Qed.

Lemma move_ok w w' : store_ok w → move w w' → store_ok w'.
Proof.
  intros [Hd Hi Hn Hs] Hm. destruct Hm as [k n Hk|org u|e k n Hk Hid Hname Hdel Hst|p f e k n Hk Hf Hid Ho Hdel Hst Hnm].
  - split; [|done|done|done]. intros e He. destruct (Hd e He) as (j & ? & ?). exists j. split; [simpl; lia|done].
  - split; [done|done|done|]. intros e He. eapply staffed_mono; [|by apply Hs].
    intros m Hm. simpl. apply elem_of_app. by left.
  - split; unfold vec in *; simpl in *.
    + intros x [Hx|Hx%list_elem_of_singleton]%elem_of_app.
      * destruct (Hd x Hx) as (j & ? & ?). exists j. split; [lia|done].
      * subst x. exists (ids_drawn w). split; [lia|done].
    + rewrite fmap_app. apply NoDup_app. split_and!; [done| |apply NoDup_singleton].
      intros i (x & -> & Hx)%list_elem_of_fmap Hin. csimpl in Hin. apply list_elem_of_singleton in Hin.
      destruct (Hd x Hx) as (j & Hj & Hxj). rewrite Hid, Hxj in Hin. apply fresh_inj in Hin. lia.
    + rewrite lfilter_app, fmap_app. cbn [List.filter]. unfold live at 2. rewrite Hdel. csimpl.
      apply NoDup_app. split_and!; [done| |apply NoDup_singleton].
      intros i (x & -> & [Hx Hlx]%elem_of_lfilter)%list_elem_of_fmap Hin%list_elem_of_singleton.
      by apply (named_false _ _ _ x Hname Hx Hlx).
    + intros x [Hx|Hx%list_elem_of_singleton]%elem_of_app; [by apply Hs|by subst x].
  - destruct (find_split p f _ _ Hf) as (l1 & l2 & Hl & Hu). unfold vec in *.
    split; unfold vec; cbn [state MemState.schedules]; rewrite Hu; rewrite Hl in Hd, Hi, Hn, Hs, Hnm.
    + intros x Hx. cbn [ids_drawn].
      assert (∃ j, (j < ids_drawn w)%nat ∧ MemSchedule.id x = fresh j) as (j & ? & ?).
      { apply elem_of_edited in Hx as [->|Hx]; [rewrite Hid; apply Hd, elem_of_the_mid|].
        by apply Hd, elem_of_mid. }
      exists j. split; [lia|done].
    + rewrite fmap_app in Hi |- *. csimpl in *. by rewrite Hid.
    + eapply live_names_edit; [exact Hdel|done| |exact Hn].
      destruct Hnm as [?|Hnm]; [by left|right]. intros x Hx Hlx.
      apply Hnm; [by apply elem_of_mid|done|].
      intros Heq. rewrite fmap_app in Hi. csimpl in Hi. rewrite <-Permutation_middle in Hi.
      apply NoDup_cons in Hi as [Hni _]. apply Hni. rewrite <-Heq, <-fmap_app.
      by apply list_elem_of_fmap_2.
    + intros x Hx. apply elem_of_edited in Hx as [->|Hx]; [apply Hst, Hs, elem_of_the_mid|].
      by apply Hs, elem_of_mid.
Qed.

Lemma reachable_ok w : reachable w → store_ok w.
Proof. induction 1 as [|w c _ IH]; [apply init_ok|]. eapply move_ok, after_moves. exact IH. Qed.

(** Nobody outside the organisation is ever paged. In every reachable store
    the live schedules of an organisation have distinct names, and whoever a
    schedule puts on call at any time, by rotation or by override, is a member of
    the organisation that owns it. *)
Theorem only_members_are_on_call w org id at_ users :
  reachable w → (resolve_now org id at_ w).1 = Ok users →
  NoDup (name_key <$> List.filter live (vec w)) ∧
  ∀ u, u ∈ users → is_member (state w) org u = true.
Proof.
  intros [_ _ Hn Hs]%reachable_ok Hr. split; [done|].
  unfold resolve_now, get_schedule, mbind, M_bind in Hr. simpl in Hr. injection Hr as <-.
  intros u Hu. fold (vec w) in Hu. destruct (List.find _ (vec w)) as [e|] eqn:Hf; simpl in Hu;
    [|by apply not_elem_of_nil in Hu].
  destruct (find_Some_elem _ _ _ Hf) as [He (Ho & _)%found_true]. rewrite <-Ho. apply (Hs e He).
  by eapply resolve_on_call_people.
Qed.

(** A schedule always has somebody on call. One that passed the handler's
    validation with at least one layer, once created, answers every instant
    with exactly one person, a member of the organisation. *)
Theorem created_schedule_always_covers w w' org new max d at_ :
  reachable w → validate new = Ok tt → NewOnCallSchedule.layers new ≠ [] →
  create_schedule org new max w = (Ok d, w') →
  ∃ u, resolve_now org (OnCallSchedule.id (OnCallScheduleDetail.schedule d)) at_ w' = (Ok [u], w') ∧
    is_member (state w') org u = true.
Proof.
  intros Hw Hv Hne Hc. pose proof (reachable_ok w Hw) as Hok.
  assert (reachable w') as Hw' by (replace w' with (after w (Create org new max)) by (simpl; by rewrite Hc);
    by constructor).
  destruct (create_run _ _ _ _ _ _ Hc) as (e & k & n & Heqw & Hid & He & Hdel & Ho & Hb).
  assert (List.find (found org (OnCallSchedule.id (OnCallScheduleDetail.schedule d))) (vec w') = Some e) as Hf.
  { unfold vec. rewrite Heqw. simpl. rewrite find_app_r.
    - cbn. assert (found org (OnCallSchedule.id (OnCallScheduleDetail.schedule d)) e = true) as ->; [|done].
      apply found_true. split_and!; [done|done|]. unfold MemSchedule.id. by rewrite He.
    - intros x Hx. apply not_true_iff_false. rewrite found_true. intros (_ & _ & Hxid).
      destruct (ok_drawn _ Hok x Hx) as (j & Hj & Hxj). rewrite Hxj, Hid in Hxid.
      apply fresh_inj in Hxid. lia. }
  assert (∃ u, resolve_on_call (OnCallScheduleDetail.schedule d) (OnCallScheduleDetail.layers d)
    (OnCallScheduleDetail.overrides d) at_ = [u]) as [u Hu].
  { destruct Hb as [-> Hb]. by eapply valid_layers_cover. }
  exists u. assert (resolve_now org (OnCallSchedule.id (OnCallScheduleDetail.schedule d)) at_ w'
    = (Ok [u], w')) as Hr.
  { unfold resolve_now, get_schedule, mbind, M_bind. simpl. fold (vec w'). rewrite Hf. simpl.
    by rewrite He, Hu. }
  split; [done|]. destruct (reachable_ok _ Hw') as [_ _ _ Hs].
  rewrite <-Ho. apply (Hs e); [by eapply find_Some_elem|]. rewrite He.
  eapply resolve_on_call_people with (at_ := at_). rewrite Hu. by left.
Qed.
End Invariant.

(** ** A first schedule *)
Module ScheduleSample.
#[local] Existing Instance Concrete.env.
#[local] Existing Instance Concrete.env_laws.
#[local] Existing Instance plain_text.

Definition primary : NewOnCallSchedule.t := {|
  NewOnCallSchedule.name := "primary"; NewOnCallSchedule.timezone := "America/New_York";
  NewOnCallSchedule.layers := [{|
    NewOnCallLayer.name := None; NewOnCallLayer.rotation_type := RotationType.Daily;
    NewOnCallLayer.rotation_length_secs := 86400;
    NewOnCallLayer.handoff_at := RotaSample.JUMP - seconds 86400;
    NewOnCallLayer.layer_order := 0; NewOnCallLayer.participants := [1%N; 2%N] |}] |}.

Lemma primary_valid : validate primary = Ok tt.
Proof. vm_compute. reflexivity. Qed.

Definition staffed_world : OnCallWorld.t := after (after init (AddMember 7%N 1%N)) (AddMember 7%N 2%N).
Lemma staffed_reachable : reachable staffed_world.
Proof. apply reach_step, reach_step, reach_init. Qed.

Definition created := create_schedule 7%N primary 5 staffed_world.

Lemma created_schedule_always_covers_witness :
  ∃ d u, created.1 = Ok d ∧
    resolve_now 7%N (OnCallSchedule.id (OnCallScheduleDetail.schedule d)) RotaSample.JUMP created.2
      = (Ok [u], created.2) ∧ is_member (state created.2) 7%N u = true.
Proof.
  assert (∃ d, created = (Ok d, created.2)) as [d Hd] by (eexists; vm_compute; reflexivity).
  destruct (created_schedule_always_covers staffed_world created.2 7%N primary 5 d RotaSample.JUMP
    staffed_reachable primary_valid ltac:(discriminate) Hd) as (u & Hr & Hm).
  exists d, u. split; [exact (f_equal fst Hd)|]. split; [exact Hr|exact Hm].
Defined.

Lemma only_members_are_on_call_witness :
  (resolve_now 7%N 1%N RotaSample.JUMP created.2).1 = Ok [2%N] ∧
  is_member (state created.2) 7%N 2%N = true.
Proof.
  assert ((resolve_now 7%N 1%N RotaSample.JUMP created.2).1 = Ok [2%N]) as Hr by
    (vm_compute; reflexivity).
  split; [exact Hr|].
  destruct (only_members_are_on_call created.2 7%N 1%N RotaSample.JUMP [2%N]
    (reach_step _ (Create 7%N primary 5) staffed_reachable) Hr) as [_ H].
  apply H. left.
Defined.
End ScheduleSample.
