(* ===== verification/WriterDecide.v ===== *)
(** * The incident writer's decision

    src/public_status/incident_writer/decide.rs: what the recent per-region
    check results say should open or close. Pure: no store and no clock. *)

From S2P Require Import Prelude Domain.

Module OpenIncident.
Record t := {
  id : Uuid;
  target_id : Uuid;
  started_at : DateTime;
  region : option string;
}.
#[global] Instance eq_dec : EqDecision t.
Proof. solve_decision. Defined.
End OpenIncident.

Module NewOpenIncident.
Record t := {
  target_id : Uuid;
  started_at : DateTime;
  status_at_start : CheckStatus.t;
  check_count : Z;
  error_sample : option string;
  region : option string;
  regions_down : list string;
  regions_up : list string;
}.
#[global] Instance eq_dec : EqDecision t.
Proof. solve_decision. Defined.
End NewOpenIncident.

Module Action.
Inductive t :=
| None_
| Open (new : NewOpenIncident.t)
| Close (incident_id : Uuid) (ended_at : DateTime).
#[global] Instance eq_dec : EqDecision t.
Proof. solve_decision. Defined.
End Action.

Record Verdict := {
  v_region : string;
  v_bad : list CheckResult.t;
  v_good : list CheckResult.t;
}.

Local Abbreviation status_bad r := (CheckStatus.is_bad (CheckResult.status r)).

Definition trailing_bad_run (results : list CheckResult.t) : list CheckResult.t :=
  let split := match rposition (λ r, negb (status_bad r)) results with
               | Some i => S i
               | None => 0%nat
               end in
  drop split results.

Definition trailing_good_run (results : list CheckResult.t) : list CheckResult.t :=
  let split := match rposition (λ r, status_bad r) results with
               | Some i => S i
               | None => 0%nat
               end in
  drop split results.

(** [v.bad[0].timestamp]; only asked of a verdict whose run is not empty. *)
Definition first_ts (l : list CheckResult.t) : DateTime :=
  match l with r :: _ => CheckResult.timestamp r | [] => 0 end.

Definition same_diagnosis (a b : CheckDiagnostic.t) : bool :=
  bool_decide (CheckDiagnostic.kind a = CheckDiagnostic.kind b) &&
  bool_decide (CheckDiagnostic.confidence a = CheckDiagnostic.confidence b) &&
  bool_decide (CheckDiagnostic.provider a = CheckDiagnostic.provider b).

(** Newest failure of each bad region, with its diagnostic when it has one. *)
Definition diagnosed (bad : list Verdict) : list (CheckResult.t * CheckDiagnostic.t) :=
  omap (λ v, last (v_bad v) ≫= λ r, (λ d, (r, d)) <$> CheckResult.diagnostic r) bad.

Definition first_error (bad : list Verdict) : option string :=
  head (omap CheckResult.error (concat (v_bad <$> bad))).

Definition incident_error_sample (bad : list Verdict) (reporting_regions quorum : Z)
    : option string :=
  let ds := diagnosed bad in
  let agree (d : CheckDiagnostic.t) := count (λ o, same_diagnosis o.2 d) ds in
  match max_by_key (λ c : CheckResult.t * CheckDiagnostic.t, agree c.2) ds with
  | Some (sample, diagnostic) =>
      let matching_regions := agree diagnostic in
      if quorum <=? matching_regions then
        Some (join " · "
          (option_list (CheckResult.error sample)
           ++ [CheckDiagnostic.summary diagnostic; CheckDiagnostic.guidance diagnostic]
           ++ (if 1 <? reporting_regions
               then [show matching_regions +:+ "/" +:+ show reporting_regions
                     +:+ " reporting regions agree"]
               else [])))
      else first_error bad
  | None => first_error bad
  end.

Definition verdict_of (g : string * list CheckResult.t) : Verdict := {|
  v_region := g.1;
  v_bad := trailing_bad_run g.2;
  v_good := trailing_good_run g.2;
|}.

Definition decide_multi (target_id : Uuid) (opens : list OpenIncident.t)
    (by_region : list (string * list CheckResult.t)) (confirmations quorum : Z)
    : list Action.t :=
  let threshold := Z.max confirmations 1 in
  let run_len (l : list CheckResult.t) := Z.of_nat (length l) in
  let verdicts := verdict_of <$> by_region in
  let nverdicts := Z.of_nat (length verdicts) in
  let quorum := clamp 1 (Z.max nverdicts 1) quorum in
  let bad := sort_by_key (λ v, first_ts (v_bad v))
               (List.filter (λ v, threshold <=? run_len (v_bad v)) verdicts) in
  let combined := List.find (λ i, is_none (OpenIncident.region i)) opens in
  match combined with
  | None =>
      if quorum <=? Z.of_nat (length bad) then
        match bad !! Z.to_nat (quorum - 1), bad !! 0%nat with
        | Some trigger, Some origin =>
            let status_at_start :=
              default CheckStatus.Down
                (max_by_key CheckStatus.severity_rank
                   (concat ((λ v, CheckResult.status <$> v_bad v) <$> bad))) in
            [Action.Open {|
              NewOpenIncident.target_id := target_id;
              NewOpenIncident.started_at := first_ts (v_bad trigger);
              NewOpenIncident.status_at_start := status_at_start;
              NewOpenIncident.check_count := wrap_u32 (run_len (v_bad origin));
              NewOpenIncident.error_sample := incident_error_sample bad nverdicts quorum;
              NewOpenIncident.region := None;
              NewOpenIncident.regions_down :=
                List.filter (λ r, negb (String.eqb r "")) (v_region <$> bad);
              NewOpenIncident.regions_up :=
                v_region <$>
                  List.filter (λ v, (run_len (v_bad v) <? threshold)
                                    && negb (String.eqb (v_region v) "")) verdicts;
            |}]
        | _, _ => []
        end
      else []
  | Some inc =>
      if Z.of_nat (length bad) <? quorum then
        match max_opt ((λ v, first_ts (v_good v)) <$>
                         List.filter (λ v, threshold <=? run_len (v_good v)) verdicts) with
        | Some ended =>
            if OpenIncident.started_at inc <? ended
            then [Action.Close (OpenIncident.id inc) ended] else []
        | None => []
        end
      else []
  end.

(** Single-region convenience, in a module so that it does not shadow the
    decision procedures of the libraries. *)
Module SingleRegion.
Definition decide (open : option OpenIncident.t) (results : list CheckResult.t)
  (flap_threshold : Z) : Action.t :=
match results with
| [] => Action.None_
| r :: _ =>
    default Action.None_
      (head (decide_multi (CheckResult.target_id r) (option_list open)
               [("", results)] flap_threshold 1))
end.
End SingleRegion.

(** ** Trailing runs *)

(** The maximal suffix on which [p] holds, as the code computes it. *)
Definition trailing_run {A} (p : A → bool) (l : list A) : list A :=
  drop (match rposition (λ x, negb (p x)) l with Some i => S i | None => 0%nat end) l.

Section TrailingRun.
Context {A : Type} (p : A → bool).

Lemma trailing_run_all l : Forall (λ x, p x = true) (trailing_run p l).
Proof.
  unfold trailing_run. apply Forall_forall. intros x Hx.
  destruct (rposition _ l) as [i|] eqn:Hr.
  - apply rposition_Some in Hr as [_ Hall]. by apply negb_false_iff, Hall.
  - rewrite drop_0 in Hx. apply rposition_None with (x := x) in Hr; [|done].
    by apply negb_false_iff.
Qed.

(** A suffix of length [n] is all-[p] exactly when the run reaches it. *)
Lemma trailing_run_length l n :
  (n ≤ length (trailing_run p l))%nat ↔
  (n ≤ length l)%nat ∧ Forall (λ x, p x = true) (drop (length l - n) l).
Proof.
  pose proof (trailing_run_all l) as Hall. unfold trailing_run in *.
  destruct (rposition _ l) as [i|] eqn:Hr.
  - apply rposition_Some in Hr as [(x & Hx & Hneg) _].
    pose proof (lookup_lt_Some _ _ _ Hx) as Hlt.
    rewrite length_drop. split.
    + intros Hn. split; [lia|].
      replace (length l - n)%nat with (S i + (length l - n - S i))%nat by lia.
      rewrite <-drop_drop. by apply Forall_drop.
    + intros [Hn Hp]. destruct (Nat.le_gt_cases n (length l - S i)%nat) as [|Hgt]; [done|].
      exfalso. rewrite Forall_forall in Hp.
      assert (x ∈ drop (length l - n) l) as Hin.
      { apply list_elem_of_lookup. exists (i - (length l - n))%nat.
        rewrite lookup_drop. rewrite <-Hx. f_equal. lia. }
      specialize (Hp x Hin). by rewrite Hp in Hneg.
  - rewrite drop_0 in *. split; [|tauto]. intros Hn. split; [done|].
    by apply Forall_drop.
Qed.
End TrailingRun.

Lemma trailing_bad_run_eq l :
  trailing_bad_run l = trailing_run (λ r, CheckStatus.is_bad (CheckResult.status r)) l.
Proof. done. Qed.

Lemma trailing_good_run_eq l :
  trailing_good_run l
  = trailing_run (λ r, negb (CheckStatus.is_bad (CheckResult.status r))) l.
Proof.
  unfold trailing_good_run, trailing_run.
  replace (rposition (λ x, negb (negb (status_bad x))) l)
    with (rposition (λ r, status_bad r) l); [done|].
  induction l as [|x l IH]; simpl; [done|]. by rewrite IH, negb_involutive.
Qed.

(** ** The decision, region by region *)

(** A region whose last [threshold] results are all bad, resp. all good. *)
Definition confirmed_bad (confirmations : Z) (g : string * list CheckResult.t) : bool :=
  Z.max confirmations 1 <=? Z.of_nat (length (trailing_bad_run g.2)).
Definition sustained_good (confirmations : Z) (g : string * list CheckResult.t) : bool :=
  Z.max confirmations 1 <=? Z.of_nat (length (trailing_good_run g.2)).

Definition bad_onset (g : string * list CheckResult.t) : DateTime :=
  first_ts (trailing_bad_run g.2).
Definition good_onset (g : string * list CheckResult.t) : DateTime :=
  first_ts (trailing_good_run g.2).

Definition effective_quorum (by_region : list (string * list CheckResult.t)) (quorum : Z) : Z :=
  clamp 1 (Z.max (Z.of_nat (length by_region)) 1) quorum.

Definition combined_open (opens : list OpenIncident.t) : option OpenIncident.t :=
  List.find (λ i, is_none (OpenIncident.region i)) opens.

Lemma confirmed_bad_iff c g :
  confirmed_bad c g = true ↔
  let n := Z.to_nat (Z.max c 1) in
  (n ≤ length g.2)%nat ∧
  Forall (λ r, CheckStatus.is_bad (CheckResult.status r) = true)
    (drop (length g.2 - n) g.2).
Proof.
  unfold confirmed_bad. rewrite Z.leb_le, trailing_bad_run_eq. cbv zeta.
  rewrite <-trailing_run_length. lia.
Qed.

(** A region cannot be confirmed bad and sustained good at once. *)
Lemma bad_not_good c g : confirmed_bad c g = true → sustained_good c g = false.
Proof.
  intros Hb. apply not_true_is_false. intros Hg.
  apply confirmed_bad_iff in Hb as [Hlen Hb]. unfold sustained_good in Hg.
  rewrite Z.leb_le, trailing_good_run_eq in Hg.
  assert (Z.to_nat (Z.max c 1) ≤ length (trailing_run (λ r,
    negb (CheckStatus.is_bad (CheckResult.status r))) g.2))%nat as Hg' by lia.
  apply trailing_run_length in Hg' as [_ Hgood].
  set (n := Z.to_nat (Z.max c 1)) in *. assert (0 < n)%nat by lia.
  destruct (drop (length g.2 - n) g.2) as [|r l] eqn:Hd.
  - apply (f_equal length) in Hd. rewrite length_drop in Hd. simpl in Hd. lia.
  - apply Forall_cons in Hb as [Hb _]. apply Forall_cons in Hgood as [Hg' _].
    by rewrite Hb in Hg'.
Qed.

Section Decision.
Context (by_region : list (string * list CheckResult.t)) (c q : Z).

Let confirmed := List.filter (confirmed_bad c) by_region.

(** The code's sorted list of bad verdicts is the confirmed regions, sorted. *)
Lemma bad_verdicts_perm :
  sort_by_key (λ v, first_ts (v_bad v))
    (List.filter (λ v, Z.max c 1 <=? Z.of_nat (length (v_bad v))) (verdict_of <$> by_region))
  ≡ₚ verdict_of <$> confirmed.
Proof.
  rewrite sort_by_key_perm. unfold confirmed, confirmed_bad.
  clear. induction by_region as [|g l IH]; csimpl; [done|].
  destruct (_ <=? _); csimpl; [by apply Permutation_skip | done].
Qed.

Lemma sustained_verdicts :
  (λ v, first_ts (v_good v)) <$>
    List.filter (λ v, Z.max c 1 <=? Z.of_nat (length (v_good v))) (verdict_of <$> by_region)
  = good_onset <$> List.filter (sustained_good c) by_region.
Proof.
  unfold sustained_good. clear. induction by_region as [|g l IH]; csimpl; [done|].
  destruct (_ <=? _); csimpl; [by f_equal | done].
Qed.

Lemma effective_quorum_pos : 1 ≤ effective_quorum by_region q.
Proof. unfold effective_quorum, clamp. lia. Qed.

(** The statuses of every result of every confirmed region's bad run. *)
Definition confirmed_statuses : list CheckStatus.t :=
  concat ((λ g, CheckResult.status <$> trailing_bad_run g.2)
            <$> List.filter (confirmed_bad c) by_region).

Lemma confirmed_statuses_bad s : s ∈ confirmed_statuses → CheckStatus.is_bad s = true.
Proof.
  unfold confirmed_statuses. rewrite list_elem_of_In, in_concat.
  intros (ss & Hss%list_elem_of_In & Hs%list_elem_of_In).
  apply list_elem_of_fmap in Hss as (g & -> & _).
  apply list_elem_of_fmap in Hs as (r & -> & Hr).
  rewrite trailing_bad_run_eq in Hr.
  pose proof (trailing_run_all (λ r, CheckStatus.is_bad (CheckResult.status r)) g.2) as Hall.
  rewrite Forall_forall in Hall. by apply Hall.
Qed.
End Decision.

(** What an opened incident records: the [q]-th onset of the confirmed regions
    and the worst status of their runs. *)
Definition opens_as (target_id : Uuid) (by_region : list (string * list CheckResult.t))
    (c q : Z) (new : NewOpenIncident.t) : Prop :=
  let confirmed := List.filter (confirmed_bad c) by_region in
  NewOpenIncident.target_id new = target_id ∧
  NewOpenIncident.region new = None ∧
  (∃ g, g ∈ confirmed ∧ NewOpenIncident.started_at new = bad_onset g) ∧
  count (λ g, bad_onset g <? NewOpenIncident.started_at new) confirmed
    < q ≤ count (λ g, bad_onset g <=? NewOpenIncident.started_at new) confirmed ∧
  NewOpenIncident.status_at_start new ∈ confirmed_statuses by_region c ∧
  (∀ s, s ∈ confirmed_statuses by_region c →
     CheckStatus.severity_rank s
       ≤ CheckStatus.severity_rank (NewOpenIncident.status_at_start new)) ∧
  (∀ r, r ∈ NewOpenIncident.regions_down new ↔
     r ≠ "" ∧ ∃ results, (r, results) ∈ confirmed) ∧
  (∀ r, r ∈ NewOpenIncident.regions_up new ↔
     r ≠ "" ∧ ∃ results, (r, results) ∈ by_region ∧ confirmed_bad c (r, results) = false).

Lemma elem_of_concat_fmap {A B} (f : A → list B) l x :
  x ∈ concat (f <$> l) ↔ ∃ a, a ∈ l ∧ x ∈ f a.
Proof.
  rewrite list_elem_of_In, in_concat. split.
  - intros (ys & (a & -> & Ha)%list_elem_of_In%list_elem_of_fmap & Hx%list_elem_of_In). eauto.
  - intros (a & Ha & Hx). exists (f a). rewrite <-!list_elem_of_In. split; [|done].
    by apply list_elem_of_fmap_2.
Qed.

Section OpenClose.
Context (tid : Uuid) (opens : list OpenIncident.t).
Context (by_region : list (string * list CheckResult.t)) (c q : Z).

Let confirmed := List.filter (confirmed_bad c) by_region.
Let Q := effective_quorum by_region q.
Let bad := sort_by_key (λ v, first_ts (v_bad v))
    (List.filter (λ v, Z.max c 1 <=? Z.of_nat (length (v_bad v))) (verdict_of <$> by_region)).

Lemma elem_of_bad v : v ∈ bad ↔ ∃ g, g ∈ confirmed ∧ v = verdict_of g.
Proof.
  unfold bad. rewrite (bad_verdicts_perm by_region c). fold confirmed.
  rewrite list_elem_of_fmap. naive_solver.
Qed.

Lemma bad_statuses s :
  s ∈ concat ((λ v, CheckResult.status <$> v_bad v) <$> bad)
  ↔ s ∈ confirmed_statuses by_region c.
Proof.
  unfold confirmed_statuses. rewrite !elem_of_concat_fmap. fold confirmed. split.
  - intros (v & (g & Hg & ->)%elem_of_bad & Hs). eauto.
  - intros (g & Hg & Hs). exists (verdict_of g). split; [|done]. apply elem_of_bad. eauto.
Qed.

Lemma regions_down_iff r :
  r ∈ List.filter (λ r, negb (String.eqb r "")) (v_region <$> bad) ↔
  r ≠ "" ∧ ∃ results, (r, results) ∈ confirmed.
Proof.
  rewrite elem_of_lfilter, negb_true_iff, String.eqb_neq, list_elem_of_fmap.
  split.
  - intros [(v & -> & ([r' l] & Hg & ->)%elem_of_bad) Hne]. simpl in *. eauto.
  - intros [Hne [l Hl]]. split; [|done]. exists (verdict_of (r, l)). split; [done|].
    apply elem_of_bad. eauto.
Qed.

Lemma regions_up_iff r :
  r ∈ v_region <$> List.filter (λ v, (Z.of_nat (length (v_bad v)) <? Z.max c 1)
                              && negb (String.eqb (v_region v) "")) (verdict_of <$> by_region) ↔
  r ≠ "" ∧ ∃ results, (r, results) ∈ by_region ∧ confirmed_bad c (r, results) = false.
Proof.
  rewrite list_elem_of_fmap. unfold confirmed_bad. split.
  - intros (v & -> & Hv). apply elem_of_lfilter in Hv as [Hin Hv].
    apply list_elem_of_fmap in Hin as ([r' l] & -> & Hin). simpl in *. bool_cases.
    split; [by apply String.eqb_neq|]. exists l. split; [done|]. by apply Z.leb_gt.
  - intros [Hne (l & Hl & Hc)]. exists (verdict_of (r, l)). split; [done|].
    apply elem_of_lfilter. split; [by apply list_elem_of_fmap_2|]. simpl in *. bool_cases.
    apply andb_true_iff. split; [by apply Z.ltb_lt|]. by apply negb_true_iff, String.eqb_neq.
Qed.

(** The worst status over the confirmed runs exists: no run is empty. *)
Lemma worst_bad_status g :
  g ∈ confirmed →
  ∃ w, max_by_key CheckStatus.severity_rank
         (concat ((λ v, CheckResult.status <$> v_bad v) <$> bad)) = Some w ∧
       w ∈ confirmed_statuses by_region c ∧
       ∀ s, s ∈ confirmed_statuses by_region c →
         CheckStatus.severity_rank s ≤ CheckStatus.severity_rank w.
Proof.
  intros Hg. destruct (max_by_key _ _) as [w|] eqn:Hw.
  - exists w. apply max_by_key_Some in Hw as [Hin Hmax]. split_and!; [done|..].
    + by apply bad_statuses.
    + intros s Hs. by apply Hmax, bad_statuses.
  - exfalso. apply max_by_key_None in Hw. apply elem_of_lfilter in Hg as Hg'.
    destruct Hg' as [_ Hlen]. unfold confirmed_bad in Hlen. bool_cases.
    destruct (trailing_bad_run g.2) as [|r l] eqn:Hr; [simpl in Hlen; lia|].
    apply (not_elem_of_nil (CheckResult.status r)). rewrite <-Hw. apply bad_statuses.
    unfold confirmed_statuses. apply elem_of_concat_fmap. exists g. rewrite Hr.
    split; [done|]. by left.
Qed.

Lemma decide_multi_open :
  combined_open opens = None → Q ≤ Z.of_nat (length confirmed) →
  ∃ new, decide_multi tid opens by_region c q = [Action.Open new] ∧
         opens_as tid by_region c Q new.
Proof.
  unfold combined_open. intros Hc Hq.
  pose proof (bad_verdicts_perm by_region c) as Hperm. fold confirmed in Hperm.
  pose proof (effective_quorum_pos by_region q) as Hpos. fold Q in Hpos.
  unfold decide_multi. rewrite Hc. cbv zeta. rewrite length_fmap.
  fold bad in Hperm |- *. fold (effective_quorum by_region q). fold Q.
  assert (length bad = length confirmed) as Hlen by (by rewrite Hperm, length_fmap).
  rewrite Hlen. rewrite (proj2 (Z.leb_le _ _) Hq).
  destruct (bad !! Z.to_nat (Q - 1)) as [trigger|] eqn:Ht.
  2:{ apply lookup_ge_None in Ht. lia. }
  destruct (bad !! 0%nat) as [origin|] eqn:Ho; [|apply lookup_ge_None in Ho; lia].
  eexists. split; [reflexivity|]. unfold opens_as. simpl. fold confirmed.
  destruct (proj1 (elem_of_bad _) (list_elem_of_lookup_2 _ _ _ Ht)) as (g & Hg & ->).
  split_and!; [done|done|by eauto|..].
  1,2: pose proof (sorted_order_statistic (λ v, first_ts (v_bad v)) bad _ _
      (sort_by_key_sorted _ _) Ht) as Hstat;
    rewrite !(count_perm _ _ _ Hperm), !count_fmap in Hstat; simpl in Hstat;
    unfold bad_onset; change (v_bad (verdict_of g)) with (trailing_bad_run g.2); lia.
  all: try (by intros r; first [apply regions_down_iff | apply regions_up_iff]).
  all: destruct (worst_bad_status g Hg) as (w & Hw & Hin & Hmax); rewrite Hw; simpl; auto.
Qed.

(** Below the quorum nothing opens; with a combined incident open the only
    write is its close, and only on a recovery that began after it. *)
Lemma decide_multi_quiet :
  combined_open opens = None → Z.of_nat (length confirmed) < Q →
  decide_multi tid opens by_region c q = [].
Proof.
  unfold combined_open. intros Hc Hq.
  pose proof (bad_verdicts_perm by_region c) as Hperm. fold confirmed bad in Hperm.
  unfold decide_multi. rewrite Hc. cbv zeta. rewrite length_fmap.
  fold bad (effective_quorum by_region q) Q.
  assert (length bad = length confirmed) as -> by (by rewrite Hperm, length_fmap).
  by rewrite (proj2 (Z.leb_gt _ _) Hq).
Qed.

Lemma decide_multi_close inc :
  combined_open opens = Some inc →
  decide_multi tid opens by_region c q =
    if Z.of_nat (length confirmed) <? Q then
      match max_opt (good_onset <$> List.filter (sustained_good c) by_region) with
      | Some ended => if OpenIncident.started_at inc <? ended
                      then [Action.Close (OpenIncident.id inc) ended] else []
      | None => []
      end
    else [].
Proof.
  unfold combined_open. intros Hc.
  pose proof (bad_verdicts_perm by_region c) as Hperm. fold confirmed bad in Hperm.
  unfold decide_multi. rewrite Hc. cbv zeta. rewrite length_fmap, sustained_verdicts.
  fold bad (effective_quorum by_region q) Q.
  by assert (length bad = length confirmed) as -> by (by rewrite Hperm, length_fmap).
Qed.
End OpenClose.

(** ** The decision's contract *)

Lemma is_bad_iff s : CheckStatus.is_bad s = true ↔ s ∈ [CheckStatus.Down; CheckStatus.Degraded; CheckStatus.Error].
Proof. rewrite !elem_of_cons, elem_of_nil. destruct s; naive_solver. Qed.

(** C4: with no combined incident open, the decision opens one exactly when at
    least the (clamped) quorum of regions each end in a full run of bad checks, of
    any status but up: down, error or degraded, so that a run of throttled or
    rate-limited checks counts like any other. It then opens exactly one region-independent incident, dated at the
    quorum-th onset of the confirmed regions, with the worst status any
    confirmed run holds, listing the confirmed regions as down and the others
    as up. With a combined incident open it never opens; it closes that one
    only, exactly when the confirmed regions are below the quorum and some
    region has a full run of good checks that began after the incident, at the
    latest such recovery. *)
Theorem decide_multi_spec (tid : Uuid) (opens : list OpenIncident.t)
    (by_region : list (string * list CheckResult.t)) (c q : Z) :
  let confirmed := List.filter (confirmed_bad c) by_region in
  let recoveries := good_onset <$> List.filter (sustained_good c) by_region in
  let Q := effective_quorum by_region q in
  let actions := decide_multi tid opens by_region c q in
  (∀ g, g ∈ confirmed ↔ g ∈ by_region ∧ (Z.to_nat (Z.max c 1) ≤ length g.2)%nat ∧
     Forall (λ r, CheckResult.status r ∈ [CheckStatus.Down; CheckStatus.Degraded; CheckStatus.Error])
       (drop (length g.2 - Z.to_nat (Z.max c 1)) g.2)) ∧
  match combined_open opens with
  | None =>
      if bool_decide (Q ≤ Z.of_nat (length confirmed))
      then ∃ new, actions = [Action.Open new] ∧ opens_as tid by_region c Q new
      else actions = []
  | Some inc =>
      (actions = [] ∨ ∃ e, actions = [Action.Close (OpenIncident.id inc) e]) ∧
      ∀ e, actions = [Action.Close (OpenIncident.id inc) e] ↔
        Z.of_nat (length confirmed) < Q ∧ OpenIncident.started_at inc < e ∧
        e ∈ recoveries ∧ ∀ e', e' ∈ recoveries → e' ≤ e
  end.
Proof.
  cbv zeta. split.
  { intros g. rewrite elem_of_lfilter, confirmed_bad_iff. cbv zeta.
    assert (∀ l : list CheckResult.t, Forall (λ r, CheckStatus.is_bad (CheckResult.status r) = true) l ↔
      Forall (λ r, CheckResult.status r ∈ [CheckStatus.Down; CheckStatus.Degraded; CheckStatus.Error]) l) as Hbad.
    { intros l. rewrite !Forall_forall. by setoid_rewrite is_bad_iff. }
    rewrite Hbad. tauto. }
  destruct (combined_open opens) as [inc|] eqn:Hc.
  - rewrite (decide_multi_close _ _ _ _ _ _ Hc).
    destruct (_ <? effective_quorum _ _) eqn:Hq; bool_cases; [|naive_solver lia].
    destruct (max_opt _) as [m|] eqn:Hm.
    + apply max_opt_Some in Hm as [Hin Hmax].
      destruct (_ <? m) eqn:Hs; bool_cases.
      * split; [eauto|]. intros e. split; [intros [= <-]; auto|].
        intros (_ & _ & He & Hall). do 2 f_equal. apply Z.le_antisymm; auto.
      * split; [auto|]. intros e. split; [done|]. intros (_ & ? & He & _).
        specialize (Hmax e He). lia.
    + apply max_opt_None in Hm. rewrite Hm. split; [auto|]. intros e.
      split; [done|]. intros (_ & _ & He & _). by apply not_elem_of_nil in He.
  - case_bool_decide; [by apply decide_multi_open|]. apply decide_multi_quiet; [done|lia].
Qed.

(** The single-region decision with nothing open opens an incident exactly
    when the last [max(flap_threshold, 1)] results are all bad (so a stream that
    is too short never opens), dated at the first result of the run; otherwise
    it does nothing. *)
Theorem decide_single_spec (results : list CheckResult.t) (flap_threshold : Z) :
  let n := Z.to_nat (Z.max flap_threshold 1) in
  if bool_decide ((n ≤ length results)%nat ∧
       Forall (λ r, CheckStatus.is_bad (CheckResult.status r) = true)
         (drop (length results - n) results))
  then ∃ new, SingleRegion.decide None results flap_threshold = Action.Open new ∧
       NewOpenIncident.started_at new = first_ts (trailing_bad_run results) ∧
       NewOpenIncident.regions_down new = []
  else SingleRegion.decide None results flap_threshold = Action.None_.
Proof.
  cbv zeta. destruct results as [|r0 l]; [rewrite bool_decide_eq_false_2; [done|simpl; lia]|].
  set (results := r0 :: l). change (SingleRegion.decide None results flap_threshold) with
    (default Action.None_ (head (decide_multi (CheckResult.target_id r0) []
       [("", results)] flap_threshold 1))).
  pose proof (confirmed_bad_iff flap_threshold ("", results)) as Hconf. simpl in Hconf.
  assert (effective_quorum [("", results)] 1 = 1) as HQ by done.
  case_bool_decide as Hrun.
  - apply Hconf in Hrun.
    destruct (decide_multi_open (CheckResult.target_id r0) [] [("", results)] flap_threshold 1)
      as (new & Hnew & _ & _ & (g & Hg & Hst) & _ & _ & _ & Hdown & _).
    { done. } { rewrite HQ. simpl. rewrite Hrun. done. }
    exists new. rewrite Hnew. split; [done|].
    apply elem_of_lfilter in Hg as [Hg%list_elem_of_singleton _]. subst g.
    split; [done|]. destruct (NewOpenIncident.regions_down new) as [|d ds]; [done|].
    destruct (proj1 (Hdown d)) as (Hne & rs & Hin); [by left|].
    apply elem_of_lfilter in Hin as [Hin%list_elem_of_singleton _]. by simplify_eq.
  - rewrite decide_multi_quiet; [done..|]. rewrite HQ. simpl.
    destruct (confirmed_bad _ _); [naive_solver | done].
Qed.

(** Two regions down for two checks each, one healthy: a quorum of two opens at
    the second onset, and the healthy region's recovery does not close it. *)
Module WriterExamples.
Definition res (at_ : Z) (s : CheckStatus.t) : CheckResult.t := {|
  CheckResult.target_id := 7%N; CheckResult.org_id := 1%N;
  CheckResult.timestamp := seconds at_; CheckResult.status := s;
  CheckResult.duration_ms := 5; CheckResult.dns_ms := None; CheckResult.connect_ms := None;
  CheckResult.tls_ms := None; CheckResult.ttfb_ms := None; CheckResult.response_code := None;
  CheckResult.response_size := None; CheckResult.diagnostic := None;
  CheckResult.error := None |}.
Definition streams : list (string * list CheckResult.t) :=
  [("eu", [res 0 CheckStatus.Up; res 60 CheckStatus.Down; res 120 CheckStatus.Error]);
   ("us", [res 60 CheckStatus.Up; res 90 CheckStatus.Degraded; res 130 CheckStatus.Degraded]);
   ("ap", [res 60 CheckStatus.Up; res 120 CheckStatus.Up])].

Example opens_at_second_onset :
  (λ a, match a with
        | Action.Open n => (num_seconds (NewOpenIncident.started_at n),
                            NewOpenIncident.status_at_start n,
                            NewOpenIncident.regions_down n, NewOpenIncident.regions_up n)
        | _ => (0, CheckStatus.Up, [], [])
        end) <$> decide_multi 7%N [] streams 2 2
  = [(90, CheckStatus.Down, ["eu"; "us"], ["ap"])].
Proof. vm_compute. reflexivity. Qed.

(** Degraded checks alone, as throttled or rate-limited ones are, open an incident. *)
Lemma degraded_run_opens :
  (λ a, match a with Action.Open n => Some (NewOpenIncident.status_at_start n) | _ => None end)
    <$> decide_multi 7%N [] [("", [res 60 CheckStatus.Degraded; res 120 CheckStatus.Degraded])] 2 1
  = [Some CheckStatus.Degraded].
Proof. vm_compute. reflexivity. Qed.
End WriterExamples.
