(* ===== verification/IncidentWriter.v ===== *)
(** * The incident writer

    src/public_status/incident_writer/mod.rs and memory.rs: the tick that walks
    every enabled target, reads its recent results, decides and writes, against
    the store interfaces; the in-memory store, the in-memory result log and
    target list of src/storage/memory.rs as one world; and what a tick does to
    it. Decisions are those of [WriterDecide]. *)

From S2P Require Import Prelude Domain Target WriterDecide.

(** ** src/storage/traits.rs, src/storage/admin.rs *)
Record TimeRange := { from : DateTime; to : DateTime }.
Definition ClampedRange := TimeRange.
Definition unclamped (range : TimeRange) : ClampedRange := range.

Record PublicTargetCursor := { cursor_org_id : OrgId; cursor_target_id : Uuid }.
Definition cursor_after (org_id : OrgId) (target_id : Uuid) : PublicTargetCursor :=
  {| cursor_org_id := org_id; cursor_target_id := target_id |}.

(** ** src/escalation/engine/mod.rs: [IncidentSignal] *)
Record IncidentSignal := {
  sig_org : OrgId;
  sig_incident : Uuid;
  sig_reason : NotificationReason.t;
}.

(** ** The stores the writer talks to *)
Class IncidentStore (W : Type) := {
  open_for_target : OrgId → Uuid → M W (option OpenIncident.t);
  open_for_pairs : list (OrgId * Uuid) → M W (gmap (OrgId * Uuid) (list OpenIncident.t));
  insert_open : OrgId → NewOpenIncident.t → M W (option Uuid);
  close : OrgId → Uuid → DateTime → M W bool;
}.

Class ResultsStore (W : Type) := {
  recent_results_for_targets :
    list (OrgId * Uuid) → ClampedRange → nat → M W (list (string * CheckResult.t));
}.

Class EnabledTargetStream (W : Type) := {
  next_enabled_target_page :
    option PublicTargetCursor → nat → M W (list (OrgId * Target.t));
}.

(** [mpsc::Sender::try_send]: an error when the channel is full. *)
Class SignalChannel (W : Type) := { try_send : IncidentSignal → M W unit }.

(** ** src/public_status/incident_writer/mod.rs *)
Record IncidentWriterConfig := {
  lookback : Duration;
  max_results_per_tick : nat;
  page_size : nat;
  signals_wired : bool;
}.

(** [IncidentWriterConfig::default], with the signal channel wired. *)
Definition default_config : IncidentWriterConfig := {|
  lookback := seconds 600; max_results_per_tick := 1000; page_size := 256;
  signals_wired := true |}.

Definition LADDER : list Z :=
  [15 * 60; 60 * 60; 6 * 60 * 60; 24 * 60 * 60; 7 * 24 * 60 * 60; 30 * 24 * 60 * 60].

Definition tier_seconds (window : Duration) : Z :=
  let secs := Z.max (num_seconds window) 1 in
  default secs (List.find (λ t, secs <=? t) LADDER).

(** [interval.as_secs() * 2 * confirmations] in u64, cast to i64. *)
Definition lookback_for (cfg : IncidentWriterConfig) (target : Target.t) : Duration :=
  let confirmations := Z.max (Target.alert_confirmations target) 1 in
  let wrap_u64 x := x mod (U64_MAX + 1) in
  let needed := seconds (wrap_i64 (wrap_u64 (wrap_u64 (num_seconds (Target.interval target) * 2)
                                               * confirmations))) in
  Z.max (lookback cfg) needed.

(** The per-region runs [process_target] evaluates: trimmed to the target's own
    window, grouped by region in region order, each ascending by time. *)
Definition regions_of (cfg : IncidentWriterConfig) (target : Target.t)
    (tagged : list (string * CheckResult.t)) (now : DateTime)
    : list (string * list CheckResult.t) :=
  let cutoff := now - lookback_for cfg target in
  let by_region := group_by (List.filter (λ g, cutoff <=? CheckResult.timestamp g.2) tagged) in
  (λ g, (g.1, sort_by_key CheckResult.timestamp g.2)) <$> btree_by String.leb by_region.

Definition writer_actions (cfg : IncidentWriterConfig) (target : Target.t)
    (open : list OpenIncident.t) (tagged : list (string * CheckResult.t)) (now : DateTime)
    : list Action.t :=
  let by_region := regions_of cfg target tagged now in
  let confirmations := Z.max (Target.alert_confirmations target) 1 in
  let quorum := RegionIncidentPolicy.required (Target.region_policy target)
                  (Z.of_nat (length by_region)) in
  decide_multi (Target.id target) open by_region confirmations quorum.

Section Writer.
Context {W : Type} `{HasRuntime W, IncidentStore W, ResultsStore W,
  EnabledTargetStream W, SignalChannel W} `{Scheduling}.
Context (cfg : IncidentWriterConfig).

Definition signal (org : OrgId) (incident_id : Uuid) (reason : NotificationReason.t)
    : M W unit :=
  if signals_wired cfg
  then logged (try_send {| sig_org := org; sig_incident := incident_id; sig_reason := reason |})
  else mret tt.

Definition apply_action (org : OrgId) (action : Action.t) : M W unit :=
  match action with
  | Action.None_ => mret tt
  | Action.Open new =>
      id ← insert_open org new;
      match id with
      | Some id => signal org id NotificationReason.Opened
      | None => mret tt
      end
  | Action.Close incident_id ended_at =>
      flipped ← close org incident_id ended_at;
      if flipped : bool then signal org incident_id NotificationReason.Resolved else mret tt
  end.

Definition process_target (org : OrgId) (target : Target.t) (open : list OpenIncident.t)
    (tagged : list (string * CheckResult.t)) (now : DateTime) : M W unit :=
  for_each (writer_actions cfg target open tagged now) (apply_action org).

(** [for (region, r) in rows { out.entry(r.target_id).or_default().push(..) }]. *)
Definition push_rows (out : gmap Uuid (list (string * CheckResult.t)))
    (rows : list (string * CheckResult.t)) : gmap Uuid (list (string * CheckResult.t)) :=
  fold_left (λ out row, push_entry (CheckResult.target_id row.2) row out) rows out.

Definition tiers_of (page : list (OrgId * Target.t)) : list (Z * list (OrgId * Uuid)) :=
  btree_by Z.leb (group_by
    ((λ ot, (tier_seconds (lookback_for cfg ot.2), (ot.1, Target.id ot.2))) <$> page)).

Fixpoint load_tiers (tiers : list (Z * list (OrgId * Uuid))) (now : DateTime)
    (out : gmap Uuid (list (string * CheckResult.t)))
    : M W (gmap Uuid (list (string * CheckResult.t))) :=
  match tiers with
  | [] => mret out
  | (tier_secs, targets) :: tiers =>
      let range := unclamped {| from := now - seconds tier_secs; to := now |} in
      rows ← recent_results_for_targets targets range (max_results_per_tick cfg);
      load_tiers tiers now (push_rows out rows)
  end.

Definition load_page_results (page : list (OrgId * Target.t)) (now : DateTime)
    : M W (gmap Uuid (list (string * CheckResult.t))) :=
  load_tiers (tiers_of page) now ∅.

(** The keyset walk; [None] when the fuel ran out before the last page. A
    target's future makes one store call (the decision holds at most one
    action) and then signals without awaiting, so the pool's interleavings
    are the orders in which those calls land. *)
Fixpoint tick_pages (fuel : nat) (cursor : option PublicTargetCursor) (now : DateTime)
    : M W (option unit) :=
  match fuel with
  | O => mret None
  | S fuel =>
      page ← next_enabled_target_page cursor (page_size cfg);
      match last page with
      | None => mret (Some tt)
      | Some l =>
          let pairs := (λ ot, (ot.1, Target.id ot.2)) <$> page in
          open_map ← open_for_pairs pairs;
          results ← load_page_results page now;
          _ ← for_each (interleave page) (λ ot,
                let open := default [] (open_map !! (ot.1, Target.id ot.2)) in
                let tagged := default [] (results !! Target.id ot.2) in
                logged (process_target ot.1 ot.2 open tagged now));
          tick_pages fuel (Some (cursor_after l.1 (Target.id l.2))) now
      end
  end.

Definition tick_once (fuel : nat) : M W (option unit) :=
  now ← utc_now; tick_pages fuel None now.
End Writer.

(** ** src/public_status/incident_writer/memory.rs *)
Module MemIncident.
Record t := {
  id : Uuid;
  target_id : Uuid;
  started_at : DateTime;
  ended_at : option DateTime;
  status_at_start : CheckStatus.t;
  check_count : Z;
  error_sample : option string;
  region : option string;
  regions_down : list string;
  regions_up : list string;
}.
#[global] Instance eq_dec : EqDecision t.
Proof. solve_decision. Defined.

Definition set_ended_at (v : option DateTime) (x : t) : t := {|
  id := id x; target_id := target_id x; started_at := started_at x; ended_at := v;
  status_at_start := status_at_start x; check_count := check_count x;
  error_sample := error_sample x; region := region x; regions_down := regions_down x;
  regions_up := regions_up x |}.

Definition of_new (id : Uuid) (new : NewOpenIncident.t) : t := {|
  id := id; target_id := NewOpenIncident.target_id new;
  started_at := NewOpenIncident.started_at new; ended_at := None;
  status_at_start := NewOpenIncident.status_at_start new;
  check_count := NewOpenIncident.check_count new;
  error_sample := NewOpenIncident.error_sample new; region := NewOpenIncident.region new;
  regions_down := NewOpenIncident.regions_down new;
  regions_up := NewOpenIncident.regions_up new |}.

Definition is_open (i : t) : bool := is_none (ended_at i).

Definition open_view (i : t) : OpenIncident.t := {|
  OpenIncident.id := id i; OpenIncident.target_id := target_id i;
  OpenIncident.started_at := started_at i; OpenIncident.region := region i |}.

Definition close_row (incident_id : Uuid) (ended : DateTime) (i : t) : t :=
  if bool_decide (id i = incident_id) && is_open i then set_ended_at (Some ended) i else i.
End MemIncident.

Module InMemoryIncidentState.
Record t := {
  by_target : gmap Uuid (list MemIncident.t);
  inserts : Z;
  closes : Z;
}.

Definition rows (s : t) (tid : Uuid) : list MemIncident.t := default [] (by_target s !! tid).

(** [all_for], [insert_count] and [close_count]. *)
Definition all_for (s : t) (target_id : Uuid) : list MemIncident.t := rows s target_id.
Definition insert_count (s : t) : Z := inserts s.
Definition close_count (s : t) : Z := closes s.

Definition open_rows (l : list MemIncident.t) : list OpenIncident.t :=
  MemIncident.open_view <$> List.filter MemIncident.is_open l.

Definition open_for_pairs (pairs : list (OrgId * Uuid)) (s : t)
    : gmap (OrgId * Uuid) (list OpenIncident.t) :=
  fold_left (λ out (p : OrgId * Uuid),
    match by_target s !! p.2 with
    | None => out
    | Some l => let open := open_rows l in
                match open with [] => out | _ => <[p := open]> out end
    end) pairs ∅.

Definition open_for_target (target_id : Uuid) (s : t) : option OpenIncident.t :=
  match by_target s !! target_id with
  | None => None
  | Some l => MemIncident.open_view <$>
                max_by_key MemIncident.started_at (List.filter MemIncident.is_open l)
  end.

(** [id] is the one [now_v7] draws, on the inserting branch only. *)
Definition refuses (new : NewOpenIncident.t) (s : t) : bool :=
  existsb MemIncident.is_open (rows s (NewOpenIncident.target_id new)).

Definition insert (id : Uuid) (new : NewOpenIncident.t) (s : t) : t := {|
  by_target := push_entry (NewOpenIncident.target_id new) (MemIncident.of_new id new) (by_target s);
  inserts := inserts s + 1;
  closes := closes s |}.

(** The bucket [entry(..).or_default()] leaves behind on the refused branch
    is there already: a refusal means the bucket holds an open incident. *)
Definition close (incident_id : Uuid) (ended : DateTime) (s : t) : bool * t :=
  let closed := existsb (λ b, existsb (λ i, bool_decide (MemIncident.id i = incident_id)
                                            && MemIncident.is_open i) b.2)
                  (map_to_list (by_target s)) in
  (closed, {| by_target := map (MemIncident.close_row incident_id ended) <$> by_target s;
              inserts := inserts s;
              closes := if closed then closes s + 1 else closes s |}).
End InMemoryIncidentState.

(** ** The world of an in-memory deployment

    [InMemoryIncidentStore], the result log of [InMemorySink], the list of
    [InMemoryTargetStore] (src/storage/memory.rs), the engine's channel with its
    capacity, and the readings taken from the clock and identifier sources. *)
Module MemWorld.
Record t := {
  incidents : InMemoryIncidentState.t;
  results : list CheckResult.t;
  targets : list Target.t;
  signals : list IncidentSignal;
  capacity : nat;
  clock_reads : nat;
  ids_drawn : nat;
}.
Definition set_incidents v x := {|
  incidents := v; results := results x; targets := targets x; signals := signals x;
  capacity := capacity x; clock_reads := clock_reads x; ids_drawn := ids_drawn x |}.
Definition set_signals v x := {|
  incidents := incidents x; results := results x; targets := targets x; signals := v;
  capacity := capacity x; clock_reads := clock_reads x; ids_drawn := ids_drawn x |}.
Definition set_clock_reads v x := {|
  incidents := incidents x; results := results x; targets := targets x; signals := signals x;
  capacity := capacity x; clock_reads := v; ids_drawn := ids_drawn x |}.
Definition set_ids_drawn v x := {|
  incidents := incidents x; results := results x; targets := targets x; signals := signals x;
  capacity := capacity x; clock_reads := clock_reads x; ids_drawn := v |}.

(** [InMemorySink::recent_results_for_targets]. *)
Definition recent_results (targets : list (OrgId * Uuid)) (range : ClampedRange)
    (per_target_limit : nat) (log : list CheckResult.t) : list (string * CheckResult.t) :=
  let wanted := targets.*2 in
  let by_target := group_by ((λ r, (CheckResult.target_id r, r)) <$>
    List.filter (λ r, bool_decide (CheckResult.target_id r ∈ wanted)
                      && (from range <=? CheckResult.timestamp r)
                      && (CheckResult.timestamp r <? to range)) log) in
  concat ((λ b : Uuid * list CheckResult.t,
    pair "default" <$>
      take per_target_limit (sort_by_key (λ r, - CheckResult.timestamp r) b.2))
    <$> map_to_list by_target).

(** [InMemoryTargetStore::next_enabled_target_page]: one org, the nil one. *)
Definition target_page (after : option PublicTargetCursor) (limit : nat)
    (targets : list Target.t) : list (OrgId * Target.t) :=
  let hits := List.filter (λ t, is_none_or (λ c, N.ltb (cursor_target_id c) (Target.id t)) after)
                (List.filter Target.enabled targets) in
  pair nil_uuid <$> take limit (sort_by_key (λ t, Z.of_N (Target.id t)) hits).

Section Instances.
Context `{Environment}.

#[global] Instance runtime : HasRuntime t := {
  utc_now := λ w, (Ok (clock (clock_reads w)), set_clock_reads (S (clock_reads w)) w);
  now_v7 := λ w, (Ok (fresh (ids_drawn w)), set_ids_drawn (S (ids_drawn w)) w);
}.
End Instances.

#[global] Instance incident_store `{Environment} : IncidentStore t := {
  open_for_target _ tid :=
    gets (λ w, InMemoryIncidentState.open_for_target tid (incidents w));
  open_for_pairs pairs :=
    gets (λ w, InMemoryIncidentState.open_for_pairs pairs (incidents w));
  insert_open _ new :=
    w ← get_world;
    if InMemoryIncidentState.refuses new (incidents w) then mret None
    else id ← now_v7;
         _ ← modify (λ w, set_incidents (InMemoryIncidentState.insert id new (incidents w)) w);
         mret (Some id);
  close _ incident_id ended :=
    λ w, let '(closed, s) := InMemoryIncidentState.close incident_id ended (incidents w) in
         (Ok closed, set_incidents s w);
}.

#[global] Instance results_store : ResultsStore t := {
  recent_results_for_targets targets range limit :=
    gets (λ w, recent_results targets range limit (results w));
}.

#[global] Instance target_stream : EnabledTargetStream t := {
  next_enabled_target_page after limit := gets (λ w, target_page after limit (targets w));
}.

#[global] Instance signal_channel : SignalChannel t := {
  try_send s := λ w,
    if (length (signals w) <? capacity w)%nat then (Ok tt, set_signals (signals w ++ [s]) w)
    else (Err (Other "no available capacity"), w);
}.
End MemWorld.

(** ** Windows *)
Lemma tier_seconds_cover w :
  num_seconds w ≤ tier_seconds w ∧ 1 ≤ tier_seconds w ∧
  (tier_seconds w ∈ LADDER ∨ tier_seconds w = Z.max (num_seconds w) 1).
Proof.
  unfold tier_seconds. set (secs := Z.max _ _). assert (num_seconds w ≤ secs ∧ 1 ≤ secs) by lia.
  destruct (List.find _ LADDER) as [t|] eqn:Hf; simpl; [|split_and!; [lia|lia|by right]].
  apply find_Some_elem in Hf as [Hin Hle]. bool_cases. split_and!; [lia|lia|by left].
Qed.

(** With an interval and a confirmation count whose product fits an [i64],
    a target's window reaches back over twice the confirmations it needs: every
    check that ran one interval apart up to that far back is inside it, and it
    is never below the configured floor. The tier its read is widened to is a
    ladder step or the exact window, and covers the window to the second. *)
Theorem lookback_covers_confirmations (cfg : IncidentWriterConfig) (target : Target.t)
    (now : DateTime) (k : Z) :
  let interval := num_seconds (Target.interval target) in
  let confirmations := Z.max (Target.alert_confirmations target) 1 in
  let window := lookback_for cfg target in
  0 ≤ interval → interval * 2 * confirmations ≤ I64_MAX →
  0 ≤ k ≤ 2 * confirmations →
  now - window ≤ now - k * seconds interval ∧
  lookback cfg ≤ window ∧
  (tier_seconds window ∈ LADDER ∨ tier_seconds window = Z.max (num_seconds window) 1) ∧
  now - seconds (tier_seconds window + 1) < now - window.
Proof.
  cbv zeta. set (iv := num_seconds (Target.interval target)).
  set (c := Z.max _ 1). intros Hiv Hov Hk.
  assert (lookback_for cfg target = Z.max (lookback cfg) (seconds (iv * 2 * c))) as Hw.
  { unfold lookback_for. fold iv c. unfold I64_MAX, U64_MAX in *.
    assert (1 ≤ c) by (unfold c; lia). unfold wrap_i64.
    assert (iv * 2 ≤ iv * 2 * c) by nia.
    rewrite (Z.mod_small (iv * 2)) by lia. rewrite (Z.mod_small (iv * 2 * c)) by lia.
    rewrite Z.mod_small by lia. do 2 f_equal. lia. }
  destruct (tier_seconds_cover (lookback_for cfg target)) as (Hcover & Hone & Hlad).
  split_and!; [..|done|].
  - rewrite Hw. unfold seconds. unfold NANOS. nia.
  - lia.
  - unfold num_seconds in Hcover. unfold seconds, NANOS in *.
    set (w := lookback_for cfg target) in *. destruct (Z.le_gt_cases 0 w) as [Hw0|Hw0]; [|lia].
    rewrite Z.quot_div_nonneg in Hcover by lia.
    pose proof (Z.div_mod w 1000000000 ltac:(lia)).
    pose proof (Z.mod_pos_bound w 1000000000 ltac:(lia)). lia.
Qed.

(** ** Shape of the decision *)

(** What a target's decision can ask for: nothing, one open of that target, or
    the close of an incident among the open ones, after its start. *)
Inductive action_shape (tid : Uuid) (open : list OpenIncident.t) : list Action.t → Prop :=
| shape_nothing : action_shape tid open []
| shape_open new :
    NewOpenIncident.target_id new = tid → NewOpenIncident.region new = None →
    combined_open open = None →
    action_shape tid open [Action.Open new]
| shape_close inc e :
    inc ∈ open → OpenIncident.started_at inc < e → OpenIncident.region inc = None →
    action_shape tid open [Action.Close (OpenIncident.id inc) e].

Lemma decide_multi_shape tid open regions c q :
  action_shape tid open (decide_multi tid open regions c q).
Proof.
  destruct (combined_open open) as [inc|] eqn:Hc.
  - rewrite (decide_multi_close _ _ _ _ _ _ Hc).
    apply find_Some_elem in Hc as [Hin Hreg].
    assert (OpenIncident.region inc = None) by (by destruct (OpenIncident.region inc)).
    repeat case_match; bool_cases; by constructor.
  - destruct (decide (effective_quorum regions q
      ≤ Z.of_nat (length (List.filter (confirmed_bad c) regions)))).
    + destruct (decide_multi_open tid open regions c q Hc) as (new & -> & Hid & Hreg & _); [done|].
      by constructor.
    + rewrite decide_multi_quiet; [constructor|done|lia].
Qed.

(** ** The store's invariant *)
Section StoreInvariant.
Context `{EnvironmentLaws}.
Import InMemoryIncidentState.

(** A row as the writer makes them, with the first [n] identifiers drawn. *)
Record row_wf (n : nat) (tid : Uuid) (i : MemIncident.t) : Prop := {
  row_target : MemIncident.target_id i = tid;
  row_region : MemIncident.region i = None;
  row_drawn : ∃ k, (k < n)%nat ∧ MemIncident.id i = fresh k;
  row_duration : ∀ e, MemIncident.ended_at i = Some e → MemIncident.started_at i < e;
}.

Record store_wf (n : nat) (s : InMemoryIncidentState.t) : Prop := {
  wf_rows : ∀ tid i, i ∈ rows s tid → row_wf n tid i;
  wf_one_open : ∀ tid, (length (List.filter MemIncident.is_open (rows s tid)) ≤ 1)%nat;
  wf_nodup : ∀ tid, NoDup (MemIncident.id <$> rows s tid);
  wf_owner : ∀ t1 t2 i1 i2, i1 ∈ rows s t1 → i2 ∈ rows s t2 →
    MemIncident.id i1 = MemIncident.id i2 → t1 = t2;
}.

Lemma row_wf_mono n m tid i : (n ≤ m)%nat → row_wf n tid i → row_wf m tid i.
Proof.
  intros Hle []. split; [done..| |done]. destruct row_drawn0 as (k & ? & ?).
  exists k. split; [lia|done].
Qed.

Lemma store_wf_empty n : store_wf n {| by_target := ∅; inserts := 0; closes := 0 |}.
Proof.
  split; unfold rows; simpl; intros; rewrite ?lookup_empty in *; simpl in *;
    solve [set_solver | lia | constructor].
Qed.

Lemma rows_insert id new s tid :
  rows (insert id new s) tid =
    rows s tid ++ (if bool_decide (NewOpenIncident.target_id new = tid)
                   then [MemIncident.of_new id new] else []).
Proof.
  unfold rows, insert, push_entry. simpl. rewrite lookup_insert.
  case_bool_decide; case_decide; subst; simpl; try done. by rewrite app_nil_r.
Qed.

Lemma rows_close id e s tid :
  rows (close id e s).2 tid = map (MemIncident.close_row id e) (rows s tid).
Proof.
  unfold rows, close. simpl. rewrite lookup_fmap. by destruct (by_target s !! tid).
Qed.

Lemma close_row_id id e i : MemIncident.id (MemIncident.close_row id e i) = MemIncident.id i.
Proof. unfold MemIncident.close_row. by destruct (_ && _). Qed.

Lemma close_row_other id e i :
  MemIncident.id i ≠ id → MemIncident.close_row id e i = i.
Proof. intros Hne. unfold MemIncident.close_row. by rewrite bool_decide_eq_false_2. Qed.

Lemma close_row_open id e i :
  MemIncident.is_open (MemIncident.close_row id e i) = true →
  MemIncident.is_open i = true.
Proof. unfold MemIncident.close_row. by destruct (_ && _). Qed.

Lemma map_close_ids id e l :
  MemIncident.id <$> map (MemIncident.close_row id e) l = MemIncident.id <$> l.
Proof.
  unfold fmap. change (list_fmap _ _) with (map (A:=MemIncident.t) (B:=Uuid)).
  rewrite map_map. apply map_ext. apply close_row_id.
Qed.

Lemma map_close_other id e l :
  (∀ i, i ∈ l → MemIncident.id i ≠ id) → map (MemIncident.close_row id e) l = l.
Proof.
  intros Hl. induction l as [|i l IH]; simpl; [done|].
  rewrite close_row_other by (apply Hl; by left). f_equal. apply IH.
  intros j Hj. apply Hl. by right.
Qed.

Lemma filter_open_close id e l :
  (length (List.filter MemIncident.is_open (map (MemIncident.close_row id e) l))
   ≤ length (List.filter MemIncident.is_open l))%nat.
Proof.
  induction l as [|i l IH]; simpl; [done|].
  destruct (MemIncident.is_open (MemIncident.close_row id e i)) eqn:Ho.
  - rewrite (close_row_open _ _ _ Ho). simpl. lia.
  - destruct (MemIncident.is_open i); simpl; lia.
Qed.

Lemma refuses_false new s :
  refuses new s = false →
  List.filter MemIncident.is_open (rows s (NewOpenIncident.target_id new)) = [].
Proof.
  unfold refuses. intros Hr. apply lfilter_nil. intros i Hi. apply not_true_is_false.
  intros Ho. apply not_true_iff_false in Hr. apply Hr, existsb_exists. exists i.
  by rewrite <-list_elem_of_In.
Qed.

Lemma store_wf_insert n new s :
  store_wf n s → NewOpenIncident.region new = None → refuses new s = false →
  store_wf (S n) (insert (fresh n) new s).
Proof.
  intros [Hrows Hone Hnd Hown] Hreg Href.
  assert (∀ tid i, i ∈ rows (insert (fresh n) new s) tid →
    i ∈ rows s tid ∨ (NewOpenIncident.target_id new = tid ∧ i = MemIncident.of_new (fresh n) new))
    as Hcases.
  { intros tid i. rewrite rows_insert, elem_of_app. intros [?|Hi]; [by left|].
    case_bool_decide; [|by apply not_elem_of_nil in Hi].
    apply list_elem_of_singleton in Hi. auto. }
  assert (∀ tid i, i ∈ rows s tid → MemIncident.id i ≠ fresh n) as Hfresh.
  { intros tid i Hi. destruct (Hrows _ _ Hi) as [_ _ (k & Hk & ->) _].
    intros Heq%fresh_inj. lia. }
  split.
  - intros tid i [Hi|[Ht ->]]%Hcases; [eapply row_wf_mono; [|by apply Hrows]; lia|].
    split; simpl; try done. exists n. split; [lia|done].
  - intros tid. rewrite rows_insert, lfilter_app, length_app.
    case_bool_decide as Ht; simpl; [|specialize (Hone tid); lia].
    subst tid. rewrite refuses_false by done. done.
  - intros tid. rewrite rows_insert, fmap_app. case_bool_decide; simpl.
    + apply NoDup_app. split_and!; [apply Hnd| |repeat constructor; set_solver].
      intros id (i & -> & Hi)%list_elem_of_fmap Hin%list_elem_of_singleton.
      by apply (Hfresh tid i).
    + by rewrite app_nil_r.
  - intros t1 t2 i1 i2 [H1|[H1 ->]]%Hcases [H2|[H2 ->]]%Hcases Heq; simpl in *.
    + eauto.
    + by destruct (Hfresh _ _ H1).
    + by destruct (Hfresh _ _ H2).
    + congruence.
Qed.

Lemma store_wf_close n id e s :
  store_wf n s →
  (∀ tid i, i ∈ rows s tid → MemIncident.id i = id → MemIncident.started_at i < e) →
  store_wf n (close id e s).2.
Proof.
  intros [Hrows Hone Hnd Hown] He.
  assert (∀ tid i, i ∈ rows (close id e s).2 tid →
    ∃ j, j ∈ rows s tid ∧ i = MemIncident.close_row id e j) as Hcases.
  { intros tid i. rewrite rows_close. intros (j & -> & ?)%list_elem_of_fmap. eauto. }
  split.
  - intros tid i (j & Hj & ->)%Hcases. destruct (Hrows _ _ Hj).
    unfold MemIncident.close_row. destruct (bool_decide _ && _) eqn:Hb; [|by split].
    bool_cases. split; simpl; try done. intros e' [= <-]. eauto.
  - intros tid. rewrite rows_close. specialize (Hone tid).
    pose proof (filter_open_close id e (rows s tid)). lia.
  - intros tid. rewrite rows_close, map_close_ids. done.
  - intros t1 t2 i1 i2 (j1 & Hj1 & ->)%Hcases (j2 & Hj2 & ->)%Hcases.
    rewrite !close_row_id. eauto.
Qed.
End StoreInvariant.

(** ** One target, processed *)

(** What a target's actions do to its own bucket, and the signal they raise. *)
Inductive bucket_step (org : OrgId) : list Action.t → list MemIncident.t → list MemIncident.t →
    list IncidentSignal → Prop :=
| bucket_same l : bucket_step org [] l l []
| bucket_open new id l :
    bucket_step org [Action.Open new] l (l ++ [MemIncident.of_new id new])
      [{| sig_org := org; sig_incident := id; sig_reason := NotificationReason.Opened |}]
| bucket_close id e l :
    bucket_step org [Action.Close id e] l (map (MemIncident.close_row id e) l)
      [{| sig_org := org; sig_incident := id; sig_reason := NotificationReason.Resolved |}].

Section MemTick.
Context `{EnvironmentLaws, Scheduling} (cfg : IncidentWriterConfig).
Import InMemoryIncidentState.

(** The part of [log] that fits the channel. *)
Definition delivered (w : MemWorld.t) (log : list IncidentSignal) : list IncidentSignal :=
  if signals_wired cfg
  then take (MemWorld.capacity w - length (MemWorld.signals w)) log else [].

(** Only incidents, identifiers and signals move; one signal per write is
    offered to the channel, and kept while there is room. *)
Record writes (log : list IncidentSignal) (w w' : MemWorld.t) : Prop := {
  same_results : MemWorld.results w' = MemWorld.results w;
  same_targets : MemWorld.targets w' = MemWorld.targets w;
  same_capacity : MemWorld.capacity w' = MemWorld.capacity w;
  same_clock : MemWorld.clock_reads w' = MemWorld.clock_reads w;
  signals_sent : MemWorld.signals w' = MemWorld.signals w ++ delivered w log;
  one_per_write : Z.of_nat (length log) =
    (inserts (MemWorld.incidents w') - inserts (MemWorld.incidents w))
    + (closes (MemWorld.incidents w') - closes (MemWorld.incidents w));
}.

Lemma writes_nil w : writes [] w w.
Proof.
  split; try done; simpl; [|lia]. unfold delivered.
  destruct (signals_wired cfg); rewrite ?take_nil, ?app_nil_r; done.
Qed.

Lemma writes_trans log1 log2 w1 w2 w3 :
  writes log1 w1 w2 → writes log2 w2 w3 → writes (log1 ++ log2) w1 w3.
Proof.
  intros [] []. split; try congruence; [|rewrite length_app; lia].
  rewrite signals_sent1, signals_sent0, <-app_assoc. f_equal. unfold delivered.
  rewrite signals_sent0, same_capacity0. unfold delivered.
  destruct (signals_wired cfg); [|done].
  rewrite take_app, length_app, length_take. do 2 f_equal. lia.
Qed.

Definition wf (w : MemWorld.t) : Prop :=
  store_wf (MemWorld.ids_drawn w) (MemWorld.incidents w).

Definition bucket (w : MemWorld.t) (tid : Uuid) : list MemIncident.t :=
  rows (MemWorld.incidents w) tid.

Lemma signal_spec org id reason w :
  signal cfg org id reason w =
    (Ok tt, MemWorld.set_signals (MemWorld.signals w ++ delivered w
      [{| sig_org := org; sig_incident := id; sig_reason := reason |}]) w).
Proof.
  unfold signal, delivered. destruct (signals_wired cfg); simpl.
  - unfold logged. simpl. destruct (_ <? _)%nat eqn:Hlt.
    + apply Nat.ltb_lt in Hlt. simpl.
      destruct (_ - _)%nat as [|k] eqn:Hk; [lia|]. simpl. by rewrite take_nil.
    + apply Nat.ltb_ge in Hlt. simpl. replace (_ - _)%nat with 0%nat by lia.
      simpl. rewrite app_nil_r. by destruct w.
  - unfold mret, M_ret. rewrite app_nil_r. by destruct w.
Qed.

Lemma bucket_no_open w tid :
  wf w → combined_open (open_rows (bucket w tid)) = None →
  existsb MemIncident.is_open (bucket w tid) = false.
Proof.
  intros Hwf Hc. apply not_true_is_false. intros (i & Hi & Ho)%existsb_exists.
  apply list_elem_of_In in Hi. destruct (wf_rows _ _ Hwf _ _ Hi) as [_ Hreg _ _].
  destruct (find_is_Some (λ i, is_none (OpenIncident.region i)) (open_rows (bucket w tid))
    (MemIncident.open_view i)) as [y Hy].
  - unfold open_rows. apply list_elem_of_fmap_2. by apply elem_of_lfilter.
  - simpl. by rewrite Hreg.
  - unfold combined_open in Hc. congruence.
Qed.

(** Applying a well-shaped decision to the store. *)
Lemma apply_open_mem org new w :
  wf w → NewOpenIncident.region new = None → refuses new (MemWorld.incidents w) = false →
  let id := fresh (MemWorld.ids_drawn w) in
  let sg := [{| sig_org := org; sig_incident := id; sig_reason := NotificationReason.Opened |}] in
  ∃ w', apply_action cfg org (Action.Open new) w = (Ok tt, w') ∧ writes sg w w' ∧ wf w' ∧
    ∀ tid, bucket w' tid = bucket w tid ++
      (if bool_decide (NewOpenIncident.target_id new = tid)
       then [MemIncident.of_new id new] else []).
Proof.
  intros Hwf Hreg Href id sg. eexists. split_and!.
  - unfold apply_action, insert_open. simpl. unfold mbind, M_bind, get_world. simpl.
    rewrite Href. unfold mret, M_ret, modify. simpl. rewrite signal_spec. reflexivity.
  - split; simpl; try done. lia.
  - unfold wf. simpl. by apply store_wf_insert.
  - intros tid. unfold bucket. simpl. apply rows_insert.
Qed.

Lemma apply_close_mem org tid i e w :
  wf w → i ∈ bucket w tid → MemIncident.is_open i = true → MemIncident.started_at i < e →
  let id := MemIncident.id i in
  let sg := [{| sig_org := org; sig_incident := id; sig_reason := NotificationReason.Resolved |}] in
  ∃ w', apply_action cfg org (Action.Close id e) w = (Ok tt, w') ∧ writes sg w w' ∧ wf w' ∧
    (∀ tid', bucket w' tid' = if bool_decide (tid' = tid)
       then map (MemIncident.close_row id e) (bucket w tid) else bucket w tid').
Proof.
  intros Hwf Hi Ho Hs id sg.
  assert ((close id e (MemWorld.incidents w)).1 = true) as Hclosed.
  { unfold close. simpl. unfold bucket, rows in Hi.
    destruct (by_target _ !! tid) as [l|] eqn:Hl; [|by apply not_elem_of_nil in Hi].
    apply existsb_exists. exists (tid, l). rewrite <-list_elem_of_In. split.
    - by apply elem_of_map_to_list.
    - apply existsb_exists. exists i. rewrite <-list_elem_of_In. simpl in *.
      split; [done|]. by rewrite bool_decide_eq_true_2. }
  destruct (close id e (MemWorld.incidents w)) as [closed s] eqn:Hc. simpl in Hclosed. subst.
  assert (s = (close id e (MemWorld.incidents w)).2) as Hseq by (by rewrite Hc).
  exists (MemWorld.set_signals (MemWorld.signals w ++ delivered w sg)
            (MemWorld.set_incidents s w)). split_and!.
  - unfold apply_action. rewrite (bind_Ok _ _ w true (MemWorld.set_incidents s w)).
    + etransitivity; [apply signal_spec|reflexivity].
    + unfold IncidentWriter.close, MemWorld.incident_store. by rewrite Hc.
  - split; simpl; try done. subst s. unfold close in Hc |- *. simplify_eq/=.
    match goal with H : existsb _ _ = true |- _ => rewrite H end. lia.
  - unfold wf. simpl. subst s. apply store_wf_close; [done|].
    intros tid' i' Hi' Hid.
    assert (tid' = tid) as -> by (by eapply wf_owner).
    assert (i' = i) as ->; [|done].
    eapply NoDup_fmap_inj_elem; [apply (wf_nodup _ _ Hwf tid)|..]; done.
  - intros tid'. unfold bucket. simpl. subst s. rewrite rows_close.
    case_bool_decide; [by subst|]. apply map_close_other. intros j Hj Hid.
    by destruct (wf_owner _ _ Hwf tid' tid j i Hj Hi Hid).
Qed.

Lemma process_target_mem org t tagged now w :
  wf w →
  let acts := writer_actions cfg t (open_rows (bucket w (Target.id t))) tagged now in
  ∃ w' log, process_target cfg org t (open_rows (bucket w (Target.id t))) tagged now w
              = (Ok tt, w') ∧
    writes log w w' ∧ wf w' ∧
    bucket_step org acts (bucket w (Target.id t)) (bucket w' (Target.id t)) log ∧
    ∀ tid, tid ≠ Target.id t → bucket w' tid = bucket w tid.
Proof.
  intros Hwf acts. unfold process_target. fold acts.
  pose proof (decide_multi_shape (Target.id t) (open_rows (bucket w (Target.id t)))
    (regions_of cfg t tagged now) (Z.max (Target.alert_confirmations t) 1)
    (RegionIncidentPolicy.required (Target.region_policy t)
       (Z.of_nat (length (regions_of cfg t tagged now))))) as Hshape.
  change (decide_multi _ _ _ _ _) with acts in Hshape.
  destruct Hshape as [|new Ht Hreg Hc|inc e Hin Hs _].
  - exists w, []. split_and!; [done|apply writes_nil|done|constructor|done].
  - destruct (apply_open_mem org new w Hwf Hreg) as (w' & Hrun & Hw & Hwf' & Hb).
    { unfold refuses. rewrite Ht. by apply bucket_no_open. }
    exists w'. eexists. split_and!; [|exact Hw|done|..].
    + cbn [for_each]. by rewrite (bind_Ok _ _ _ _ _ Hrun).
    + rewrite Hb, Ht, bool_decide_eq_true_2 by done. constructor.
    + intros tid Hne. rewrite Hb, bool_decide_eq_false_2 by congruence. apply app_nil_r.
  - unfold open_rows in Hin. apply list_elem_of_fmap in Hin as (i & -> & Hi).
    apply elem_of_lfilter in Hi as [Hi Ho].
    destruct (apply_close_mem org (Target.id t) i e w) as (w' & Hrun & Hw & Hwf' & Hb);
      [done..|].
    exists w'. eexists. split_and!; [|exact Hw|done|..].
    + cbn [for_each]. by rewrite (bind_Ok _ _ _ _ _ Hrun).
    + rewrite Hb, bool_decide_eq_true_2 by done. constructor.
    + intros tid Hne. rewrite Hb. by rewrite bool_decide_eq_false_2.
Qed.
End MemTick.

(** ** Settling: what was decided is not decided again *)
Section Settle.
Import InMemoryIncidentState.
Context (org tid : Uuid) (regions : list (string * list CheckResult.t)) (c q : Z).

Let quorate := effective_quorum regions q
  ≤ Z.of_nat (length (List.filter (confirmed_bad c) regions)).

Lemma decision_open_quorate open new :
  decide_multi tid open regions c q = [Action.Open new] →
  combined_open open = None ∧ quorate.
Proof.
  destruct (combined_open open) as [inc|] eqn:Hc.
  - rewrite (decide_multi_close _ _ _ _ _ _ Hc). repeat case_match; done.
  - intros Hd. split; [done|]. unfold quorate. apply Z.nlt_ge. intros Hlt.
    by rewrite decide_multi_quiet in Hd.
Qed.

Lemma decision_close_below open id e :
  decide_multi tid open regions c q = [Action.Close id e] →
  ∃ inc, combined_open open = Some inc ∧ id = OpenIncident.id inc ∧ ¬ quorate.
Proof.
  destruct (combined_open open) as [inc|] eqn:Hc.
  - rewrite (decide_multi_close _ _ _ _ _ _ Hc).
    destruct (_ <? _) eqn:Hlt; [|done]. bool_cases.
    repeat case_match; try done. intros [= <- <-]. exists inc.
    split_and!; [done..|]. unfold quorate. lia.
  - pose proof (decide_multi_shape tid open regions c q) as Hs. intros Hd.
    rewrite Hd in Hs. inversion Hs; simplify_eq.
    unfold combined_open in Hc.
    match goal with H : ?i ∈ open |- _ => destruct (find_is_Some
      (λ i, is_none (OpenIncident.region i)) open i H) as [? ?] end; [|congruence].
    match goal with H : OpenIncident.region _ = None |- _ => by rewrite H end.
Qed.

Lemma decision_settles l l' sg :
  (length (List.filter MemIncident.is_open l) ≤ 1)%nat →
  bucket_step org (decide_multi tid (open_rows l) regions c q) l l' sg →
  decide_multi tid (open_rows l') regions c q = [].
Proof.
  intros Hone. destruct (decide_multi tid (open_rows l) regions c q) as [|a acts] eqn:Hd;
    inversion 1; subst.
  - done.
  - pose proof (decide_multi_shape tid (open_rows l) regions c q) as Hs. rewrite Hd in Hs.
    assert (NewOpenIncident.region new = None) as Hreg by (by inversion Hs).
    destruct (decision_open_quorate _ _ Hd) as [Hc Hq].
    unfold quorate in Hq. rewrite (decide_multi_close _ _ _ _ _
      (MemIncident.open_view (MemIncident.of_new id new))).
    + by rewrite (proj2 (Z.ltb_ge _ _) Hq).
    + unfold open_rows. rewrite lfilter_app, fmap_app. simpl.
      fold (open_rows l). unfold combined_open in Hc |- *.
      clear Hd Hs. induction (open_rows l) as [|o os IH]; simpl in *.
      * by rewrite Hreg.
      * destruct (is_none _); [done|by apply IH].
  - destruct (decision_close_below _ _ _ Hd) as (inc & Hc & -> & Hq).
    unfold quorate in Hq. apply decide_multi_quiet; [|lia].
    assert (open_rows (map (MemIncident.close_row (OpenIncident.id inc) e) l) = []) as ->;
      [|done].
    unfold combined_open in Hc. apply find_Some_elem in Hc as [Hin _].
    apply list_elem_of_fmap in Hin as (i & -> & Hi). simpl.
    unfold open_rows. rewrite lfilter_nil; [done|].
    intros j (j' & -> & Hj')%list_elem_of_fmap. apply not_true_is_false. intros Ho.
    assert (j' = i) as ->.
    { pose proof (close_row_open _ _ _ Ho) as Hoj.
      assert (j' ∈ List.filter MemIncident.is_open l) as Hjf by (by apply elem_of_lfilter).
      destruct (List.filter _ l) as [|x [|y f]]; simpl in Hone; [set_solver| |lia].
      apply list_elem_of_singleton in Hi, Hjf. congruence. }
    apply elem_of_lfilter in Hi as [_ Hi]. unfold MemIncident.close_row in Ho.
    rewrite bool_decide_refl, Hi in Ho. done.
Qed.
End Settle.

(** Processing a target is idempotent: in a well-formed store, deciding
    again on the same results after the writes of the first pass, with the open
    incidents read afresh, returns and writes and signals nothing. *)
Theorem process_target_idempotent `{EnvironmentLaws} (cfg : IncidentWriterConfig)
    (org : OrgId) (t : Target.t) (tagged : list (string * CheckResult.t)) (now : DateTime)
    (w w1 : MemWorld.t) :
  let opens w := InMemoryIncidentState.open_rows (bucket w (Target.id t)) in
  wf w →
  (process_target cfg org t (opens w) tagged now w).2 = w1 →
  process_target cfg org t (opens w1) tagged now w1 = (Ok tt, w1).
Proof.
  cbv beta zeta. intros Hwf Hw1.
  destruct (process_target_mem cfg org t tagged now w Hwf)
    as (w' & log & Hrun & _ & _ & Hstep & _).
  rewrite Hrun in Hw1. simpl in Hw1. subst w'. unfold process_target.
  apply decision_settles in Hstep; [|apply (wf_one_open _ _ Hwf)].
  unfold writer_actions. by rewrite Hstep.
Qed.

(** ** What a tick reads *)
Section MemReads.
Import MemWorld.
Context (log : list CheckResult.t).

Definition of_target (tid : Uuid) (row : string * CheckResult.t) : bool :=
  bool_decide (CheckResult.target_id row.2 = tid).

(** The rows of one target inside [range], newest first, cut to the limit. *)
Definition target_rows (tid : Uuid) (range : TimeRange) (limit : nat)
    : list (string * CheckResult.t) :=
  pair "default" <$> take limit (sort_by_key (λ r, - CheckResult.timestamp r)
    (List.filter (λ r, bool_decide (CheckResult.target_id r = tid)
                       && (from range <=? CheckResult.timestamp r)
                       && (CheckResult.timestamp r <? to range)) log)).

Lemma target_rows_of tid range limit row :
  row ∈ target_rows tid range limit → of_target tid row = true.
Proof.
  intros (r & -> & Hr)%list_elem_of_fmap. apply list_elem_of_lookup in Hr as [i Hi].
  apply lookup_take_Some in Hi as [Hi _]. apply list_elem_of_lookup_2 in Hi.
  rewrite elem_of_sort_by_key, elem_of_lfilter in Hi. destruct Hi as [_ Hi].
  bool_cases. by apply bool_decide_eq_true.
Qed.

Lemma recent_results_of_target targets range limit tid :
  List.filter (of_target tid) (recent_results targets range limit log) =
    if bool_decide (tid ∈ targets.*2) then target_rows tid range limit else [].
Proof.
  unfold recent_results. set (kept := List.filter _ log). set (l := _ <$> kept).
  rewrite lfilter_concat.
  assert (∀ k, default [] (group_by l !! k)
               = List.filter (λ r, bool_decide (CheckResult.target_id r = k)) kept) as Hg.
  { intros k. rewrite group_lookup. unfold l. clear. induction kept as [|r rs IH]; csimpl;
      [done|]. destruct (bool_decide _); csimpl; by rewrite IH. }
  set (f := λ b : Uuid * list CheckResult.t, pair "default" <$>
              take limit (sort_by_key (λ r, - CheckResult.timestamp r) b.2)).
  assert (∀ k rs, (k, rs) ∈ map_to_list (group_by l) → k ≠ tid →
    List.filter (of_target tid) (f (k, rs)) = []) as Hother.
  { intros k rs Hin Hne. apply elem_of_map_to_list in Hin. specialize (Hg k).
    rewrite Hin in Hg. simpl in Hg. apply lfilter_nil.
    intros row (r & -> & Hr)%list_elem_of_fmap. simpl in Hr.
    apply list_elem_of_lookup in Hr as [i Hi].
    apply lookup_take_Some in Hi as [Hi _]. apply list_elem_of_lookup_2 in Hi.
    rewrite elem_of_sort_by_key in Hi. subst rs. apply elem_of_lfilter in Hi as [_ Hi].
    unfold of_target. simpl. bool_cases. apply bool_decide_eq_false. congruence. }
  assert (List.filter (λ r, bool_decide (CheckResult.target_id r = tid)) kept =
    if bool_decide (tid ∈ targets.*2) then
      List.filter (λ r, bool_decide (CheckResult.target_id r = tid)
                        && (from range <=? CheckResult.timestamp r)
                        && (CheckResult.timestamp r <? to range)) log else []) as Hkept.
  { unfold kept. rewrite lfilter_lfilter. clear. induction log as [|r rs IH]; simpl;
      [by case_bool_decide|]. rewrite IH.
    destruct (decide (CheckResult.target_id r = tid)) as [<-|Hne].
    - rewrite bool_decide_refl. destruct (bool_decide (_ ∈ _)); simpl; [|done].
      rewrite andb_true_r. by destruct (_ && _).
    - rewrite (bool_decide_eq_false_2 (_ = tid)) by done. rewrite andb_false_r. done. }
  specialize (Hg tid). rewrite Hkept in Hg.
  destruct (group_by l !! tid) as [rs|] eqn:Hl; simpl in Hg.
  - rewrite (concat_unique _ _ (tid, rs)).
    + unfold f. simpl. rewrite Hg. destruct (bool_decide _); [|by destruct limit].
      apply lfilter_all. apply target_rows_of.
    + apply NoDup_map_to_list.
    + by apply elem_of_map_to_list.
    + intros [k ks] Hin Hne. apply Hother; [done|]. intros ->. apply Hne.
      apply elem_of_map_to_list in Hin. congruence.
  - rewrite concat_none.
    + destruct (bool_decide _); [|done]. unfold target_rows. rewrite <-Hg. by destruct limit.
    + intros [k ks] Hin. apply Hother; [done|]. intros ->.
      apply elem_of_map_to_list in Hin. congruence.
Qed.
End MemReads.

Section MemPage.
Context `{EnvironmentLaws} (cfg : IncidentWriterConfig).
Import InMemoryIncidentState.

Lemma push_rows_lookup out rows_ tid :
  default [] (push_rows out rows_ !! tid)
  = default [] (out !! tid) ++ List.filter (of_target tid) rows_.
Proof.
  unfold push_rows. revert out. induction rows_ as [|row l IH]; intros out; simpl;
    [by rewrite app_nil_r|].
  rewrite IH. unfold push_entry, of_target. rewrite lookup_insert.
  destruct (decide (CheckResult.target_id row.2 = tid)) as [->|Hne].
  - rewrite bool_decide_refl. simpl. by rewrite <-app_assoc.
  - by rewrite bool_decide_eq_false_2.
Qed.

Definition tier_range (now : DateTime) (tier : Z) : TimeRange :=
  {| from := now - seconds tier; to := now |}.

Lemma load_tiers_mem tiers now out (w : MemWorld.t) :
  ∃ res, load_tiers cfg tiers now out w = (Ok res, w) ∧
    ∀ tid, default [] (res !! tid) = default [] (out !! tid) ++
      concat ((λ b : Z * list (OrgId * Uuid),
        if bool_decide (tid ∈ b.2.*2)
        then target_rows (MemWorld.results w) tid (tier_range now b.1) (max_results_per_tick cfg)
        else []) <$> tiers).
Proof.
  revert out. induction tiers as [|[tier ts] tiers IH]; intros out.
  - exists out. split; [done|]. intros tid. csimpl. by rewrite app_nil_r.
  - destruct (IH (push_rows out (MemWorld.recent_results ts (tier_range now tier)
      (max_results_per_tick cfg) (MemWorld.results w)))) as (res & Hrun & Hres).
    exists res. split; [exact Hrun|]. intros tid.
    rewrite Hres, push_rows_lookup, recent_results_of_target. csimpl.
    by rewrite <-app_assoc.
Qed.

(** The rows a target's decision is fed: its own, over its tier. *)
Definition mem_tagged (w : MemWorld.t) (t : Target.t) (now : DateTime)
    : list (string * CheckResult.t) :=
  target_rows (MemWorld.results w) (Target.id t)
    (tier_range now (tier_seconds (lookback_for cfg t))) (max_results_per_tick cfg).

(** [tiers_of] groups each target of the page under its tier. *)
Lemma elem_of_tiers_of page tier ts :
  (tier, ts) ∈ tiers_of cfg page →
  ∀ tid, tid ∈ ts.*2 ↔
    ∃ ot, ot ∈ page ∧ Target.id ot.2 = tid ∧ tier_seconds (lookback_for cfg ot.2) = tier.
Proof.
  intros Hin tid. unfold tiers_of in Hin. apply elem_of_btree_by in Hin.
  set (f := λ ot : OrgId * Target.t, (tier_seconds (lookback_for cfg ot.2),
              (ot.1, Target.id ot.2))) in *.
  pose proof (group_lookup (f <$> page) tier) as Hg.
  rewrite Hin in Hg. simpl in Hg. subst ts. rewrite list_elem_of_fmap. split.
  - intros ([o tid'] & -> & ([k v] & Hkv & Hv)%list_elem_of_fmap).
    simpl in Hkv. subst v.
    apply elem_of_lfilter in Hv as [Hv Hk].
    apply list_elem_of_fmap in Hv as (ot & [= -> -> ->] & Hot).
    bool_cases. simpl in *. eauto.
  - intros (ot & Hot & <- & Ht). exists (ot.1, Target.id ot.2). split; [done|].
    apply list_elem_of_fmap. exists (f ot). split; [done|]. apply elem_of_lfilter.
    split; [by apply list_elem_of_fmap_2|]. by apply bool_decide_eq_true.
Qed.

Lemma tiers_of_has page ot :
  ot ∈ page → ∃ ts, (tier_seconds (lookback_for cfg ot.2), ts) ∈ tiers_of cfg page.
Proof.
  intros Hot. unfold tiers_of.
  set (f := λ ot : OrgId * Target.t, (tier_seconds (lookback_for cfg ot.2),
              (ot.1, Target.id ot.2))).
  pose proof (group_lookup (f <$> page) (tier_seconds (lookback_for cfg ot.2))) as Hg.
  destruct (group_by (f <$> page) !! _) as [ts|] eqn:Hl.
  - exists ts. by apply elem_of_btree_by.
  - simpl in Hg. symmetry in Hg. apply fmap_nil_inv in Hg. exfalso.
    apply (not_elem_of_nil (f ot)). rewrite <-Hg. apply elem_of_lfilter.
    split; [by apply list_elem_of_fmap_2|]. by apply bool_decide_eq_true.
Qed.

Lemma load_page_results_mem (page : list (OrgId * Target.t)) now (w : MemWorld.t) :
  NoDup ((λ ot, Target.id ot.2) <$> page) →
  ∃ res, load_page_results cfg page now w = (Ok res, w) ∧
    ∀ ot, ot ∈ page → default [] (res !! Target.id ot.2) = mem_tagged w ot.2 now.
Proof.
  intros Hnd. unfold load_page_results.
  destruct (load_tiers_mem (tiers_of cfg page) now ∅ w) as (res & Hrun & Hres).
  exists res. split; [done|]. intros ot Hot. rewrite Hres, lookup_empty. simpl.
  set (tier := tier_seconds (lookback_for cfg ot.2)).
  destruct (tiers_of_has page ot Hot) as [ts Hts]. fold tier in Hts.
  rewrite (concat_unique _ _ (tier, ts)).
  - rewrite bool_decide_eq_true_2; [done|]. apply (elem_of_tiers_of _ _ _ Hts). eauto.
  - apply NoDup_btree_by.
  - done.
  - intros [tier' ts'] Hin Hne. simpl. rewrite bool_decide_eq_false_2; [done|]. intros Hid.
    apply (elem_of_tiers_of _ _ _ Hin) in Hid as (ot' & Hot' & Hid & <-).
    apply Hne. assert (ot' = ot) as ->.
    { by eapply NoDup_fmap_inj_elem. }
    apply elem_of_btree_by in Hin, Hts. unfold tier in *. congruence.
Qed.
End MemPage.

Section MemTickSpec.
Context `{EnvironmentLaws, Scheduling} (cfg : IncidentWriterConfig).
Import InMemoryIncidentState.

Lemma open_for_pairs_lookup pairs s p :
  default [] (open_for_pairs pairs s !! p)
  = if bool_decide (p ∈ pairs) then open_rows (rows s p.2) else [].
Proof.
  unfold open_for_pairs. set (step := λ out (p : OrgId * Uuid), _).
  assert (∀ out, default [] (fold_left step pairs out !! p) =
    if bool_decide (p ∈ pairs) then
      match open_rows (rows s p.2) with [] => default [] (out !! p) | l => l end
    else default [] (out !! p)) as Hgen.
  { induction pairs as [|p' ps IH]; intros out; [done|]. cbn [fold_left]. rewrite IH.
    assert (p' = p → default [] (step out p' !! p) =
      match open_rows (rows s p.2) with [] => default [] (out !! p) | l => l end) as Hsame.
    { intros ->. unfold step, rows. destruct (by_target s !! p.2) as [l|]; [|done]. simpl.
      destruct (open_rows l); [done|]. by rewrite lookup_insert_eq. }
    assert (p' ≠ p → step out p' !! p = out !! p) as Hother.
    { intros Hne. unfold step. destruct (by_target s !! p'.2) as [l|]; [|done].
      cbv zeta. destruct (open_rows l); [done|]. by rewrite lookup_insert_ne. }
    destruct (decide (p' = p)) as [->|Hne].
    - rewrite Hsame by done. rewrite (bool_decide_eq_true_2 (p ∈ p :: ps)) by (by left).
      case_bool_decide; [|done]. by destruct (open_rows _).
    - rewrite Hother by done. rewrite (bool_decide_ext (p ∈ p' :: ps) (p ∈ ps)); [done|].
      rewrite elem_of_cons. naive_solver. }
  rewrite Hgen, lookup_empty. simpl. case_bool_decide; [|done]. by destruct (open_rows _).
Qed.

(** Targets the stream still has to visit after a cursor. *)
Definition pending (ts : list Target.t) (c : option PublicTargetCursor) : list Target.t :=
  List.filter (λ t, is_none_or (λ c, N.ltb (cursor_target_id c) (Target.id t)) c)
    (List.filter Target.enabled ts).

(** A page holds the pending targets up to its last one; the rest stay. *)
Lemma target_page_split ts c limit last_ page :
  NoDup (Target.id <$> ts) →
  MemWorld.target_page c limit ts = page → last page = Some last_ →
  NoDup (Target.id <$> page.*2) ∧
  (∀ ot, ot ∈ page → ot.1 = nil_uuid) ∧
  (∀ t, t ∈ page.*2 ↔ t ∈ pending ts c ∧ (Target.id t <= Target.id last_.2)%N) ∧
  (∀ t, t ∈ pending ts (Some (cursor_after last_.1 (Target.id last_.2))) ↔
        t ∈ pending ts c ∧ (Target.id last_.2 < Target.id t)%N).
Proof.
  intros Hnd Hpage Hlast. unfold MemWorld.target_page in Hpage. fold (pending ts c) in Hpage.
  set (k := λ t, Z.of_N (Target.id t)) in *. set (S := sort_by_key k (pending ts c)) in *.
  assert (S ≡ₚ pending ts c) as Hperm by apply sort_by_key_perm.
  assert (NoDup (Target.id <$> S)) as HndS.
  { rewrite Hperm. by do 2 apply NoDup_lfilter_fmap. }
  assert (page.*2 = take limit S) as Hsnd.
  { rewrite <-Hpage. clear. induction (take limit S); csimpl; congruence. }
  assert (last_.2 ∈ take limit S) as Hin.
  { rewrite <-Hsnd. apply list_elem_of_fmap_2. by apply last_Some_elem_of. }
  assert (StronglySorted (λ a b, k a ≤ k b) (take limit S ++ drop limit S)) as Hs.
  { rewrite take_drop. apply sort_by_key_sorted. }
  apply StronglySorted_app in Hs as (Hsplit & Htake & _).
  assert (∀ t, t ∈ take limit S → (Target.id t <= Target.id last_.2)%N) as Hle.
  { intros t Ht. apply last_Some in Hlast as [page' Hl].
    rewrite <-Hsnd, Hl, fmap_app in Htake, Ht. simpl in Htake, Ht.
    apply StronglySorted_app in Htake as (Hb & _).
    apply elem_of_app in Ht as [Ht|Ht%list_elem_of_singleton]; [|by subst].
    specialize (Hb t last_.2 Ht ltac:(by left)). unfold k in Hb. lia. }
  assert (∀ t, t ∈ drop limit S → (Target.id last_.2 < Target.id t)%N) as Hgt.
  { intros t Ht. specialize (Hsplit _ t Hin Ht). unfold k in Hsplit.
    assert (Target.id t ≠ Target.id last_.2); [|lia]. intros Heq.
    rewrite <-(take_drop limit S), fmap_app in HndS.
    apply NoDup_app in HndS as (_ & Hdisj & _).
    apply (Hdisj (Target.id t)); [rewrite Heq|]; by apply list_elem_of_fmap_2. }
  assert (∀ t, t ∈ pending ts c ↔ t ∈ take limit S ∨ t ∈ drop limit S) as Hall.
  { intros t. by rewrite <-elem_of_app, take_drop, Hperm. }
  split_and!.
  - rewrite Hsnd. rewrite <-(take_drop limit S), fmap_app in HndS.
    by apply NoDup_app in HndS as [? _].
  - intros ot Hot. rewrite <-Hpage in Hot. by apply list_elem_of_fmap in Hot as (? & -> & _).
  - intros t. rewrite Hsnd, Hall. split; [auto|]. intros [[?|Hd] Hle']; [done|].
    specialize (Hgt t Hd). lia.
  - intros t. assert (t ∈ pending ts (Some (cursor_after last_.1 (Target.id last_.2))) ↔
      t ∈ List.filter Target.enabled ts ∧ (Target.id last_.2 < Target.id t)%N) as ->.
    { unfold pending. rewrite elem_of_lfilter. simpl. by rewrite N.ltb_lt. }
    split; [|intros [Hp ?]; split; [by apply elem_of_lfilter in Hp as [? _]|done]].
    intros [Hen Hlt]. split; [|done]. apply elem_of_lfilter. split; [done|].
    assert (last_.2 ∈ pending ts c) as Hl by (apply Hall; by left).
    apply elem_of_lfilter in Hl as [_ Hl]. clear -Hl Hlt.
    destruct c as [c|]; simpl in *; [|done]. rewrite N.ltb_lt in *. lia.
Qed.

(** What a target's results and open incidents in [w] call for at [now]. *)
Definition target_decision (w : MemWorld.t) (now : DateTime) (t : Target.t) : list Action.t :=
  writer_actions cfg t (open_rows (bucket w (Target.id t))) (mem_tagged cfg w t now) now.

(** Every target of [ts] was processed on the state [w], nothing else moved. *)
Definition processed (ts : list Target.t) (now : DateTime) (w w' : MemWorld.t) : Prop :=
  (∀ t, t ∈ ts → ∃ sg, bucket_step nil_uuid (target_decision w now t)
     (bucket w (Target.id t)) (bucket w' (Target.id t)) sg) ∧
  (∀ tid, (∀ t, t ∈ ts → Target.id t ≠ tid) → bucket w' tid = bucket w tid).

Lemma target_decision_frame log w w' now t :
  writes cfg log w w' → bucket w' (Target.id t) = bucket w (Target.id t) →
  target_decision w' now t = target_decision w now t.
Proof.
  intros Hw Hb. unfold target_decision, mem_tagged. by rewrite Hb, (same_results _ _ _ _ Hw).
Qed.

Lemma processed_app ts1 ts2 now log w1 w2 w3 :
  (∀ t1 t2, t1 ∈ ts1 → t2 ∈ ts2 → Target.id t1 ≠ Target.id t2) →
  writes cfg log w1 w2 →
  processed ts1 now w1 w2 → processed ts2 now w2 w3 → processed (ts1 ++ ts2) now w1 w3.
Proof.
  intros Hdisj Hw [Hp1 Hf1] [Hp2 Hf2]. split.
  - intros t [Ht|Ht]%elem_of_app.
    + rewrite (Hf2 (Target.id t)); [auto|]. intros t2 Ht2 ?. by destruct (Hdisj t t2).
    + assert (bucket w2 (Target.id t) = bucket w1 (Target.id t)) as Hb.
      { apply Hf1. intros t1 Ht1 ?. by destruct (Hdisj t1 t). }
      destruct (Hp2 t Ht) as [sg Hs]. exists sg. rewrite <-Hb.
      by rewrite <-(target_decision_frame _ _ _ _ _ Hw Hb).
  - intros tid Htid. rewrite Hf2, Hf1; [done|..]; intros t Ht; apply Htid;
      apply elem_of_app; auto.
Qed.

Lemma pool_mem (pool : list (OrgId * Target.t)) open_map results now w :
  wf w → NoDup (Target.id <$> pool.*2) → (∀ ot, ot ∈ pool → ot.1 = nil_uuid) →
  (∀ ot, ot ∈ pool →
     default [] (open_map !! (ot.1, Target.id ot.2)) = open_rows (bucket w (Target.id ot.2)) ∧
     default [] (results !! Target.id ot.2) = mem_tagged cfg w ot.2 now) →
  ∃ w' log,
    for_each pool (λ ot,
      logged (process_target cfg ot.1 ot.2
        (default [] ((open_map : gmap (OrgId * Uuid) (list OpenIncident.t))
                       !! (ot.1, Target.id ot.2)))
        (default [] ((results : gmap Uuid _) !! Target.id ot.2)) now)) w = (Ok tt, w') ∧
    writes cfg log w w' ∧ wf w' ∧ processed pool.*2 now w w'.
Proof.
  revert w. induction pool as [|[o t] pool IH]; intros w Hwf Hnd Horg Hin.
  { exists w, []. split_and!; [done|apply writes_nil|done|].
    split; [intros ? []%not_elem_of_nil|done]. }
  destruct (Hin (o, t) ltac:(by left)) as [Ho Ht]. simpl in Ho, Ht.
  assert (o = nil_uuid) as -> by (apply (Horg (o, t)); by left).
  csimpl in Hnd. apply NoDup_cons in Hnd as [Hnew Hnd].
  destruct (process_target_mem cfg nil_uuid t (mem_tagged cfg w t now) now w Hwf)
    as (w1 & log1 & Hrun1 & Hw1 & Hwf1 & Hstep1 & Hframe1).
  assert (∀ ot, ot ∈ pool → Target.id ot.2 ≠ Target.id t) as Hne.
  { intros ot Hot Heq. apply Hnew. rewrite <-Heq. by do 2 apply list_elem_of_fmap_2. }
  destruct (IH w1 Hwf1 Hnd) as (w' & log & Hrun & Hw & Hwf' & Hproc).
  { intros ot Hot. apply Horg. by right. }
  { intros ot Hot. destruct (Hin ot) as [-> ->]; [by right|].
    rewrite Hframe1 by auto. unfold mem_tagged. by rewrite (same_results _ _ _ _ Hw1). }
  exists w', (log1 ++ log). split_and!; [|by eapply writes_trans|done|].
  - cbn [for_each]. rewrite (bind_Ok _ _ w tt w1); [exact Hrun|].
    unfold logged. cbn [fst snd]. by rewrite Ho, Ht, Hrun1.
  - apply (processed_app [t] _ now log1 w w1 w').
    + intros t1 t2 ->%list_elem_of_singleton (ot & -> & Hot)%list_elem_of_fmap Heq.
      by apply (Hne ot Hot).
    + done.
    + split.
      * intros t' ->%list_elem_of_singleton. eauto.
      * intros tid Htid. apply Hframe1. intros ->. by apply (Htid t); [by left|].
    + done.
Qed.

Lemma processed_perm ts1 ts2 now w w' :
  ts1 ≡ₚ ts2 → processed ts2 now w w' → processed ts1 now w w'.
Proof.
  intros Hp [Hproc Hframe]. split.
  - intros t. rewrite Hp. apply Hproc.
  - intros tid Htid. apply Hframe. intros t. rewrite <-Hp. apply Htid.
Qed.

Lemma NoDup_pending ts c : NoDup (Target.id <$> ts) → NoDup (pending ts c).
Proof.
  intros Hnd. apply (NoDup_fmap_1 Target.id). by do 2 apply NoDup_lfilter_fmap.
Qed.

Lemma pending_split ts c c' (ot : OrgId * Target.t) (page : list (OrgId * Target.t)) :
  NoDup (Target.id <$> ts) →
  (∀ t, t ∈ page.*2 ↔ t ∈ pending ts c ∧ (Target.id t <= Target.id ot.2)%N) →
  (∀ t, t ∈ pending ts c' ↔ t ∈ pending ts c ∧ (Target.id ot.2 < Target.id t)%N) →
  NoDup ((λ ot, Target.id ot.2) <$> page) →
  pending ts c ≡ₚ page.*2 ++ pending ts c'.
Proof.
  intros Hnd Hpage Hrest Hndp. apply NoDup_Permutation.
  - by apply NoDup_pending.
  - apply NoDup_app. split_and!; [|intros t Ht%Hpage Ht'%Hrest; lia|by apply NoDup_pending].
    apply (NoDup_fmap_1 Target.id). by rewrite <-list_fmap_compose.
  - intros t. rewrite elem_of_app, Hpage, Hrest. split; [|naive_solver].
    intros Ht. destruct (N.le_gt_cases (Target.id t) (Target.id ot.2)); auto.
Qed.

Lemma tick_pages_mem fuel c now w :
  wf w → NoDup (Target.id <$> MemWorld.targets w) → (0 < page_size cfg)%nat →
  (length (pending (MemWorld.targets w) c) < fuel)%nat →
  ∃ w' log, tick_pages cfg fuel c now w = (Ok (Some tt), w') ∧
    writes cfg log w w' ∧ wf w' ∧ processed (pending (MemWorld.targets w) c) now w w'.
Proof.
  revert c w. induction fuel as [|fuel IH]; intros c w Hwf Hnd Hps Hfuel; [lia|].
  cbn [tick_pages]. set (page := MemWorld.target_page c (page_size cfg) (MemWorld.targets w)).
  rewrite (bind_Ok _ _ w page w) by done.
  destruct (last page) as [lst|] eqn:Hlast.
  2:{ exists w, []. split_and!; [done|apply writes_nil|done|].
      assert (pending (MemWorld.targets w) c = []) as ->.
      { apply last_None in Hlast. apply nil_length_inv. unfold page, MemWorld.target_page in Hlast.
        fold (pending (MemWorld.targets w) c) in Hlast. apply (f_equal length) in Hlast.
        rewrite length_fmap, length_take in Hlast. unfold sort_by_key in Hlast.
        rewrite length_sort_by in Hlast. simpl in Hlast. lia. }
      split; [intros ? []%not_elem_of_nil|done]. }
  destruct (target_page_split _ _ _ _ page Hnd eq_refl Hlast) as (Hndp & Horg & Hpage & Hrest).
  cbv zeta. rewrite (bind_Ok _ _ w (open_for_pairs _ (MemWorld.incidents w)) w) by done.
  destruct (load_page_results_mem cfg page now w) as (results & Hload & Hres).
  { by rewrite <-list_fmap_compose in Hndp. }
  rewrite (bind_Ok _ _ _ _ _ Hload).
  destruct (pool_mem (interleave page)
    (open_for_pairs ((λ ot, (ot.1, Target.id ot.2)) <$> page) (MemWorld.incidents w))
    results now w Hwf) as (w1 & log1 & Hpool & Hw1 & Hwf1 & Hproc1).
  { by rewrite interleave_perm. }
  { intros ot. rewrite interleave_perm. apply Horg. }
  { intros ot. rewrite interleave_perm. intros Hot. split; [|by apply Hres].
    rewrite open_for_pairs_lookup, bool_decide_eq_true_2; [done|].
    by apply (list_elem_of_fmap_2 (λ ot : OrgId * Target.t, (ot.1, Target.id ot.2))). }
  rewrite (bind_Ok _ _ _ _ _ Hpool).
  assert (MemWorld.targets w1 = MemWorld.targets w) as Hts by apply (same_targets _ _ _ _ Hw1).
  set (c' := Some (cursor_after lst.1 (Target.id lst.2))) in *.
  assert (pending (MemWorld.targets w) c ≡ₚ page.*2 ++ pending (MemWorld.targets w) c') as Hsplit.
  { apply (pending_split _ _ _ lst); [done|apply Hpage|apply Hrest|].
    by rewrite <-list_fmap_compose in Hndp. }
  destruct (IH c' w1 Hwf1) as (w' & log & Hrun & Hw & Hwf' & Hproc).
  { by rewrite Hts. } { done. }
  { rewrite Hts. rewrite Hsplit, length_app in Hfuel.
    enough (0 < length page.*2)%nat by lia. rewrite length_fmap.
    destruct page; [done|simpl; lia]. }
  exists w', (log1 ++ log). split_and!; [done|by eapply writes_trans|done|].
  eapply processed_perm; [exact Hsplit|].
  eapply processed_app; [|exact Hw1| |by rewrite <-Hts].
  - intros t1 t2 Ht1%Hpage Ht2%Hrest Heq. lia.
  - by eapply processed_perm; [|exact Hproc1]; rewrite interleave_perm.
Qed.
End MemTickSpec.

(** C5: a tick over the in-memory deployment with distinct target identifiers,
    a page size of at least one and fuel for one page per enabled target (plus
    the empty one) terminates without error, whatever order the pools finish
    in. Each enabled target's bucket moves exactly as its own decision on its
    own results says: nothing, one appended open incident, or its open incident
    closed; no other bucket changes; results and targets are untouched; one
    signal per write is offered to the channel and kept while there is room;
    and the store stays well-formed, in particular with at most one open
    incident per target and every closed incident longer than nothing. *)
Theorem tick_once_spec `{EnvironmentLaws, Scheduling} (cfg : IncidentWriterConfig)
    (fuel : nat) (w : MemWorld.t) :
  let now := clock (MemWorld.clock_reads w) in
  let enabled := List.filter Target.enabled (MemWorld.targets w) in
  wf w → NoDup (Target.id <$> MemWorld.targets w) → (0 < page_size cfg)%nat →
  (length enabled < fuel)%nat →
  ∃ w' log, tick_once cfg fuel w = (Ok (Some tt), w') ∧
    processed cfg enabled now w w' ∧ wf w' ∧
    MemWorld.results w' = MemWorld.results w ∧ MemWorld.targets w' = MemWorld.targets w ∧
    MemWorld.signals w' = MemWorld.signals w ++ delivered cfg w log ∧
    Z.of_nat (length log) =
      (InMemoryIncidentState.inserts (MemWorld.incidents w')
         - InMemoryIncidentState.inserts (MemWorld.incidents w))
      + (InMemoryIncidentState.closes (MemWorld.incidents w')
         - InMemoryIncidentState.closes (MemWorld.incidents w)).
Proof.
  cbv zeta. intros Hwf Hnd Hps Hfuel. set (now := clock _).
  set (w0 := MemWorld.set_clock_reads (S (MemWorld.clock_reads w)) w).
  assert (pending (MemWorld.targets w0) None
          = List.filter Target.enabled (MemWorld.targets w)) as Hpend.
  { unfold pending. simpl. by apply lfilter_all. }
  destruct (tick_pages_mem cfg fuel None now w0) as (w' & log & Hrun & Hw & Hwf' & Hproc);
    [done..|by rewrite Hpend|].
  exists w', log. rewrite Hpend in Hproc.
  split_and!; [exact Hrun|exact Hproc|done|apply (same_results _ _ _ _ Hw)
    |apply (same_targets _ _ _ _ Hw)|apply (signals_sent _ _ _ _ Hw)
    |apply (one_per_write _ _ _ _ Hw)].
Qed.

(** ** The theorems at a concrete deployment *)
Module WriterWitness.
#[local] Existing Instances Concrete.env Concrete.env_laws Concrete.in_order.

Definition target : Target.t := {|
  Target.id := 7%N; Target.name := "api"; Target.interval := seconds 60;
  Target.enabled := true; Target.tags := []; Target.alerts := [];
  Target.alert_confirmations := 2; Target.notify_recovery := true;
  Target.renotify_interval_secs := 0; Target.region_policy := RegionIncidentPolicy.Any;
  Target.group_name := None; Target.owner_user_id := None; Target.created_at := 0;
  Target.updated_at := 0; Target.plan_hold_at := None |}.

Definition world : MemWorld.t := {|
  MemWorld.incidents := {| InMemoryIncidentState.by_target := ∅;
    InMemoryIncidentState.inserts := 0; InMemoryIncidentState.closes := 0 |};
  MemWorld.results := [WriterExamples.res 800 CheckStatus.Up;
                       WriterExamples.res 860 CheckStatus.Down;
                       WriterExamples.res 920 CheckStatus.Error];
  MemWorld.targets := [target]; MemWorld.signals := []; MemWorld.capacity := 8;
  MemWorld.clock_reads := 0; MemWorld.ids_drawn := 0 |}.

Lemma world_wf : wf world.
Proof. apply store_wf_empty. Qed.

Lemma lookback_covers_confirmations_witness :
  seconds 1000 - lookback_for default_config target ≤ seconds 1000 - 4 * seconds 60 ∧
  lookback_for default_config target = seconds 600.
Proof.
  split; [|reflexivity].
  apply (lookback_covers_confirmations default_config target (seconds 1000) 4);
    vm_compute; repeat split; discriminate.
Defined.

Lemma process_target_idempotent_witness :
  let tagged := mem_tagged default_config world target (seconds 1000) in
  let w1 := (process_target default_config nil_uuid target [] tagged (seconds 1000) world).2 in
  length (bucket w1 7%N) = 1%nat ∧
  process_target default_config nil_uuid target
    (InMemoryIncidentState.open_rows (bucket w1 7%N)) tagged (seconds 1000) w1 = (Ok tt, w1).
Proof.
  split; [vm_compute; reflexivity|].
  apply (process_target_idempotent default_config nil_uuid target
    (mem_tagged default_config world target (seconds 1000)) (seconds 1000) world).
  - apply world_wf.
  - reflexivity.
Defined.

Lemma tick_once_spec_witness :
  (MemIncident.started_at <$> bucket (tick_once default_config 2 world).2 7%N = [seconds 860]) ∧
  ∃ w' log, tick_once default_config 2 world = (Ok (Some tt), w') ∧
    processed default_config [target] (seconds 1000) world w' ∧
    MemWorld.signals w' = delivered default_config world log.
Proof.
  split; [vm_compute; reflexivity|].
  destruct (tick_once_spec default_config 2 world) as (w' & log & Hrun & Hp & _ & _ & _ & Hs & _).
  - apply world_wf.
  - apply NoDup_singleton.
  - vm_compute. lia.
  - vm_compute. lia.
  - exists w', log. split; [exact Hrun|]. split; [exact Hp|exact Hs].
Defined.
End WriterWitness.
