(* ===== verification/IncidentOps.v ===== *)
(** * Operational incident storage: the interface

    src/storage/incident_ops/mod.rs: who acts, what a lifecycle call answers,
    the console filter, the rows of the engine's scans, the acknowledge link's
    proof, and the trait every store implements (a class over the world). *)

From Stdlib Require Import Ascii.
From S2P Require Import Prelude Text Domain Incident.

(** ** Actors and outcomes *)
Module Actor.
Inductive t := System | User (u : UserId) | Mcp (u : UserId) | Link.
#[global] Instance eq_dec : EqDecision t.
Proof. solve_decision. Defined.

Definition actor_type (a : t) : ActorType.t :=
  match a with
  | System => ActorType.System
  | User _ => ActorType.User
  | Mcp _ => ActorType.Mcp
  | Link => ActorType.Link
  end.

Definition user_id (a : t) : option UserId :=
  match a with
  | System | Link => None
  | User u | Mcp u => Some u
  end.
End Actor.

Module LifecycleOutcome.
Inductive t :=
| Updated (incident : OpsIncident.t)
| NotFound
| IllegalTransition (e : TransitionError)
| Stale.
End LifecycleOutcome.

(** ** The console's filter *)
Module IncidentSort.
Inductive t := Recent | Oldest | Severity.
#[global] Instance eq_dec : EqDecision t.
Proof. solve_decision. Defined.

Definition from_key (key : string) : t :=
  if String.eqb key "oldest" then Oldest
  else if String.eqb key "severity" then Severity
  else Recent.
End IncidentSort.

Module IncidentOpsFilter.
Record t := {
  state : option IncidentState.t;
  severity : option IncidentSeverity.t;
  assignee : option UserId;
  query : option string;
  sort : IncidentSort.t;
  limit : option nat;
  offset : nat;
}.
End IncidentOpsFilter.

Module IncidentStateCounts.
Record t := { triggered : Z; acknowledged : Z; resolved : Z }.
Definition zero : t := {| triggered := 0; acknowledged := 0; resolved := 0 |}.

Definition total (c : t) : Z := triggered c + acknowledged c + resolved c.

Definition for_state (c : t) (state : option IncidentState.t) : Z :=
  match state with
  | Some IncidentState.Triggered => triggered c
  | Some IncidentState.Acknowledged => acknowledged c
  | Some IncidentState.Resolved => resolved c
  | None => total c
  end.

(** [match i.state { .. => c.triggered += 1, .. }]. *)
Definition tally (c : t) (s : IncidentState.t) : t :=
  match s with
  | IncidentState.Triggered =>
      {| triggered := triggered c + 1; acknowledged := acknowledged c; resolved := resolved c |}
  | IncidentState.Acknowledged =>
      {| triggered := triggered c; acknowledged := acknowledged c + 1; resolved := resolved c |}
  | IncidentState.Resolved =>
      {| triggered := triggered c; acknowledged := acknowledged c; resolved := resolved c + 1 |}
  end.
End IncidentStateCounts.

(** ** Rows of the engine's scans *)
Module PendingNotification.
Record t := {
  id : Uuid;
  org : OrgId;
  incident_id : Uuid;
  channel_id : option Uuid;
  transport : string;
  reason : NotificationReason.t;
  attempt : Z;
}.
End PendingNotification.

Module EmergencyAck.
Record t := {
  id : Uuid;
  org : OrgId;
  incident_id : Uuid;
  channel_id : Uuid;
  receipt : string;
  generation : Z;
}.
End EmergencyAck.

Module DueIncident.
Record t := {
  id : Uuid;
  org : OrgId;
  target_id : option Uuid;
  escalation_policy_id : option Uuid;
  escalation_level : Z;
  escalation_round : Z;
}.

Definition of_incident (i : OpsIncident.t) : t := {|
  id := OpsIncident.id i; org := nil_uuid; target_id := OpsIncident.target_id i;
  escalation_policy_id := OpsIncident.escalation_policy_id i;
  escalation_level := OpsIncident.escalation_level i;
  escalation_round := OpsIncident.escalation_round i |}.
End DueIncident.

(** ** Reporting (src/domain/incident.rs) *)
Record MetricBucket := { key : string; bucket_count : Z }.
Record MonitorIncidentCount := { mic_target_id : Uuid; mic_count : Z }.

(** A mean is kept as its sum and its count: the floating-point quotient is
    left to the reader. *)
Module IncidentMetrics.
Record t := {
  window_days : Z;
  total : Z;
  mtta_secs : option (Z * Z);
  mttr_secs : option (Z * Z);
  by_severity : list MetricBucket;
  by_state : list MetricBucket;
  auto_resolved : Z;
  human_resolved : Z;
  top_monitors : list MonitorIncidentCount;
}.
End IncidentMetrics.

Definition opening_update_message `{UnicodeText} (title description : option string) : string :=
  let non_blank (s : string) := negb (String.eqb (trim s) "") in
  let keep (o : option string) :=
    match o with Some s => if non_blank s then Some s else None | None => None end in
  default "We are investigating this incident."
    (trim <$> match keep description with Some d => Some d | None => keep title end).

Definition AUTO_RESOLVED_MESSAGE : string :=
  "Automatically resolved — monitoring checks have recovered.".

Definition INCIDENT_DETAIL_ROW_CAP : nat := 500.

(** ** The acknowledge link's proof *)
Definition ACK_LINK_TTL_SECS : Z := 7 * 24 * 60 * 60.

(** The 16 bytes of a [Uuid], most significant first. *)
Fixpoint be_bytes (n : nat) (x : N) : string :=
  match n with
  | O => ""
  | S n => String (Ascii.ascii_of_N ((x / 256 ^ N.of_nat n) mod 256)) (be_bytes n x)
  end.
Definition uuid_bytes (u : Uuid) : string := be_bytes 16 u.

(** [DateTime::timestamp]: whole seconds, rounding down. *)
Definition timestamp (t : DateTime) : Z := t / NANOS.

(** src/auth/mac.rs, over a keyed hash of the concatenated parts; the rendering
    of a [Uuid] in a URL is the uuid crate's. *)
Class LinkPrimitives := {
  hmac_hex : string → string → string;
  render_uuid : Uuid → string;
}.

Section AckLink.
Context `{LinkPrimitives}.

Definition hmac_sha256_hex (key : string) (parts : list string) : string :=
  hmac_hex key (foldr String.append "" parts).

Definition ack_message (org : OrgId) (incident_id channel_id : Uuid)
    (generation expires_at : Z) : list string :=
  let gen_exp := show generation +:+ ":" +:+ show expires_at in
  [uuid_bytes org; uuid_bytes incident_id; uuid_bytes channel_id; gen_exp].

Definition incident_ack_token (secret : string) (org : OrgId) (incident_id channel_id : Uuid)
    (generation expires_at : Z) : string :=
  hmac_sha256_hex secret (ack_message org incident_id channel_id generation expires_at).

Definition verify_incident_ack (secret : string) (org : OrgId)
    (incident_id channel_id : Uuid) (generation expires_at : Z) (presented : string) : bool :=
  String.eqb (incident_ack_token secret org incident_id channel_id generation expires_at)
    presented.

Definition incident_ack_url (base_url secret : string) (org : OrgId)
    (incident_id channel_id : Uuid) (generation : Z) (now : DateTime) : option string :=
  let base := trim_end_matches "/"%char base_url in
  if String.eqb base "" || String.eqb secret "" then None
  else
    let exp := timestamp now + ACK_LINK_TTL_SECS in
    let mac := incident_ack_token secret org incident_id channel_id generation exp in
    Some (base +:+ "/incident/ack?o=" +:+ render_uuid org +:+ "&i=" +:+ render_uuid incident_id
          +:+ "&c=" +:+ render_uuid channel_id +:+ "&g=" +:+ show generation
          +:+ "&e=" +:+ show exp +:+ "&t=" +:+ mac).
End AckLink.

(** ** The store's contract: [IncidentOpsStore] *)
Class IncidentOpsStore (W : Type) := {
  get : OrgId → Uuid → M W (option OpsIncident.t);
  list_incidents : OrgId → IncidentOpsFilter.t → M W (list OpsIncident.t);
  count_incidents : OrgId → IncidentOpsFilter.t → M W Z;
  counts_by_state : OrgId → IncidentOpsFilter.t → M W IncidentStateCounts.t;
  metrics : OrgId → Z → M W IncidentMetrics.t;
  declare : OrgId → NewManualIncident.t → Actor.t → M W OpsIncident.t;
  acknowledge : OrgId → Uuid → Actor.t → option string → option Z → M W LifecycleOutcome.t;
  generation : OrgId → Uuid → M W (option Z);
  resolve : OrgId → Uuid → Actor.t → option string → M W LifecycleOutcome.t;
  auto_resolve : OrgId → Uuid → M W LifecycleOutcome.t;
  reopen : OrgId → Uuid → Actor.t → option string → M W LifecycleOutcome.t;
  assign : OrgId → Uuid → option UserId → Actor.t → M W (option OpsIncident.t);
  publish : OrgId → Uuid → option string → option string → Actor.t → M W (option OpsIncident.t);
  unpublish : OrgId → Uuid → Actor.t → M W (option OpsIncident.t);
  add_note : OrgId → Uuid → Actor.t → string → M W (option IncidentEvent.t);
  timeline : OrgId → Uuid → M W (list IncidentEvent.t);
  append_event : OrgId → Uuid → IncidentEventKind.t → Actor.t → option string → M W unit;
  notifications_for : OrgId → Uuid → M W (list IncidentNotification.t);
  record_notification : NewIncidentNotification.t → M W Uuid;
  pending_notifications : DateTime → nat → Z → M W (list PendingNotification.t);
  mark_notification : OrgId → Uuid → NotificationOutcome.t → M W unit;
  due_emergency_acks : nat → M W (list EmergencyAck.t);
  emergency_acks_for_incident : OrgId → Uuid → M W (list EmergencyAck.t);
  mark_acked : OrgId → Uuid → DateTime → M W unit;
  clear_receipt : OrgId → Uuid → M W unit;
  begin_escalation : OrgId → Uuid → Uuid → Z → option DateTime → M W bool;
  record_escalation : OrgId → Uuid → Z → Z → option DateTime → M W bool;
  due_for_escalation : DateTime → nat → Z → M W (list DueIncident.t);
  due_for_reconcile : DateTime * DateTime → nat → M W (list DueIncident.t);
  due_for_renotify : DateTime → nat → M W (list DueIncident.t);
  bump_renotify_count : OrgId → Uuid → M W unit;
  due_for_maintenance_release : nat → M W (list DueIncident.t);
  opens_since : OrgId → Uuid → DateTime → M W Z;
  flapping_targets : OrgId → DateTime → Z → M W (gset Uuid);
  due_for_flap_release : DateTime → Duration → nat → M W (list DueIncident.t);
}.

(** ** What an acknowledge link is bound to *)
Section AckMessage.
Lemma be_bytes_length n x : String.length (be_bytes n x) = n.
Proof. induction n as [|n IH]; simpl; congruence. Qed.

Lemma be_bytes_mod_inj n x y :
  be_bytes n x = be_bytes n y → (x mod 256 ^ N.of_nat n = y mod 256 ^ N.of_nat n)%N.
Proof.
  induction n as [|n IH]; intros Heq; [by rewrite !N.mod_1_r|].
  cbn [be_bytes] in Heq. injection Heq as Hb Hrest. specialize (IH Hrest).
  apply (f_equal N_of_ascii) in Hb. rewrite !Ascii.N_ascii_embedding in Hb
    by (apply N.mod_lt; done).
  rewrite Nat2N.inj_succ, N.pow_succ_r', (N.mul_comm 256).
  rewrite !N.Div0.mod_mul_r. by rewrite IH, Hb.
Qed.

Lemma uuid_bytes_inj x y :
  (x < 2 ^ 128)%N → (y < 2 ^ 128)%N → uuid_bytes x = uuid_bytes y → x = y.
Proof.
  intros Hx Hy Heq%be_bytes_mod_inj.
  change (256 ^ N.of_nat 16)%N with (2 ^ 128)%N in Heq.
  by rewrite !N.mod_small in Heq.
Qed.

Lemma append_String a (s t : string) : String a s +:+ t = String a (s +:+ t).
Proof. done. Qed.

(** Prefixes of the same length split a concatenation. *)
Lemma append_inj_length a b s t :
  String.length a = String.length b → a +:+ s = b +:+ t → a = b ∧ s = t.
Proof.
  revert b. induction a as [|c a IH]; intros [|d b] Hl Heq; try done.
  rewrite !append_String in Heq.
  injection Heq as -> Heq. injection Hl as Hl. by destruct (IH b Hl Heq) as [-> ->].
Qed.

Fixpoint free_of (c : Ascii.ascii) (s : string) : bool :=
  match s with
  | EmptyString => true
  | String a s => negb (Ascii.eqb a c) && free_of c s
  end.

Lemma append_inj_sep c a b s t :
  free_of c a = true → free_of c b = true →
  a +:+ String c s = b +:+ String c t → a = b ∧ s = t.
Proof.
  revert b. induction a as [|x a IH]; intros [|y b] Ha Hb Heq;
    rewrite ?append_String in Heq; simpl in Ha, Hb; injection Heq; intros; simplify_eq.
  - done.
  - by rewrite Ascii.eqb_refl in Hb.
  - by rewrite Ascii.eqb_refl in Ha.
  - apply andb_prop in Ha as [_ Ha], Hb as [_ Hb].
    by destruct (IH b Ha Hb) as [-> ->].
Qed.

Lemma free_of_digits x s :
  free_of ":"%char s = true → free_of ":"%char (pretty_N_go x s) = true.
Proof.
  revert s. induction (N.lt_wf_0 x) as [x _ IH]; intros s Hs.
  assert (x = 0 ∨ 0 < x)%N as [->|?] by lia; [done|].
  rewrite pretty_N_go_step by done. apply IH; [by apply N.div_lt|].
  simpl. rewrite Hs. unfold pretty_N_char. by repeat case_match.
Qed.

Lemma free_of_show z : free_of ":"%char (show z) = true.
Proof.
  unfold show, pretty, pretty_Z, pretty, pretty_positive, pretty_N.
  destruct z; [done|..]; simpl; by apply free_of_digits.
Qed.

Lemma ack_message_inj o i c g e o' i' c' g' e' :
  Forall (λ u, (u < 2 ^ 128)%N) [o; i; c; o'; i'; c'] →
  foldr String.append "" (ack_message o i c g e)
  = foldr String.append "" (ack_message o' i' c' g' e') →
  (o, i, c, g, e) = (o', i', c', g', e').
Proof.
  intros Hb Heq. rewrite !Forall_cons in Hb. destruct Hb as (? & ? & ? & ? & ? & ? & _).
  cbn [ack_message foldr] in Heq.
  apply append_inj_length in Heq as [Ho Heq]; [|by unfold uuid_bytes; rewrite !be_bytes_length].
  apply append_inj_length in Heq as [Hi Heq]; [|by unfold uuid_bytes; rewrite !be_bytes_length].
  apply append_inj_length in Heq as [Hc Heq]; [|by unfold uuid_bytes; rewrite !be_bytes_length].
  apply uuid_bytes_inj in Ho, Hi, Hc; try done. subst.
  rewrite !append_nil_r in Heq. change (":" +:+ show e) with (String ":" (show e)) in Heq.
  change (":" +:+ show e') with (String ":" (show e')) in Heq.
  apply append_inj_sep in Heq as [Hg He]; [|apply free_of_show..].
  unfold show in Hg, He. by simplify_eq.
Qed.
End AckMessage.

(** C38: for identifiers of 128 bits and a keyed hash without collisions, a
    presented token verifies for an (organisation, incident, channel, episode,
    expiry) exactly when it was minted for that same tuple under the same
    secret: a link from before a reopen, for another channel or with a moved
    expiry is refused. Minting and verifying agree. *)
Theorem ack_token_binds_episode `{LinkPrimitives} (secret : string)
    (org incident channel org' incident' channel' : Uuid) (g e g' e' : Z)
    (collision_free : ∀ m m', hmac_hex secret m = hmac_hex secret m' → m = m')
    (uuids : Forall (λ u, (u < 2 ^ 128)%N) [org; incident; channel; org'; incident'; channel']) :
  verify_incident_ack secret org incident channel g e
    (incident_ack_token secret org' incident' channel' g' e') = true ↔
  (org, incident, channel, g, e) = (org', incident', channel', g', e').
Proof.
  unfold verify_incident_ack. rewrite String.eqb_eq.
  unfold incident_ack_token, hmac_sha256_hex. split.
  - intros Heq%collision_free. by apply ack_message_inj.
  - by intros [= -> -> -> -> ->].
Qed.

Lemma ack_token_binds_episode_witness :
  let H : LinkPrimitives :=
    {| hmac_hex k m := k +:+ m; render_uuid u := show (Z.of_N u) |} in
  verify_incident_ack "key" 1%N 2%N 3%N 0 1700000000
    (incident_ack_token "key" 1%N 2%N 3%N 0 1700000000) = true ∧
  verify_incident_ack "key" 1%N 2%N 3%N 1 1700000000
    (incident_ack_token "key" 1%N 2%N 3%N 0 1700000000) ≠ true.
Proof.
  intros H.
  assert (∀ m m', hmac_hex "key" m = hmac_hex "key" m' → m = m') as Hc
    by (intros m m' Heq; by apply (append_inj_length _ _ _ _ eq_refl) in Heq as [_ ?]).
  split.
  - apply (ack_token_binds_episode "key" 1%N 2%N 3%N 1%N 2%N 3%N 0 1700000000 0 1700000000 Hc);
      [repeat constructor | reflexivity].
  - intros Hv. apply (ack_token_binds_episode "key" 1%N 2%N 3%N 1%N 2%N 3%N 1 1700000000 0 1700000000 Hc) in Hv;
      [discriminate | repeat constructor].
Defined.
