(* ===== verification/IncidentOpsMem.v ===== *)
(** * The in-memory incident store

    src/storage/incident_ops/memory.rs: [InMemoryIncidentOpsStore], every method
    of [IncidentOpsStore] over a state of incidents, timeline events, paging
    rows and reminder counts. A world that carries such a state, a clock and an
    identifier source is given the whole interface. *)

From S2P Require Import Prelude Text Domain Incident IncidentOps.

Record MemState := {
  incidents : list OpsIncident.t;
  events : list IncidentEvent.t;
  notifications : list (OrgId * IncidentNotification.t);
  renotify_counts : gmap Uuid Z;
}.

Definition empty_state : MemState :=
  {| incidents := []; events := []; notifications := []; renotify_counts := ∅ |}.
Definition set_incidents (v : list OpsIncident.t) (s : MemState) : MemState := {|
  incidents := v; events := events s; notifications := notifications s;
  renotify_counts := renotify_counts s |}.
Definition set_events (v : list IncidentEvent.t) (s : MemState) : MemState := {|
  incidents := incidents s; events := v; notifications := notifications s;
  renotify_counts := renotify_counts s |}.
Definition set_notifications (v : list (OrgId * IncidentNotification.t)) (s : MemState)
    : MemState := {|
  incidents := incidents s; events := events s; notifications := v;
  renotify_counts := renotify_counts s |}.
Definition set_renotify_counts (v : gmap Uuid Z) (s : MemState) : MemState := {|
  incidents := incidents s; events := events s; notifications := notifications s;
  renotify_counts := v |}.

(** A world with an incident store in it. *)
Class HasOps (W : Type) := {
  ops_state : W → MemState;
  set_ops : MemState → W → W;
}.
Class HasOpsLaws (W : Type) `{HasOps W} := {
  ops_set : ∀ s w, ops_state (set_ops s w) = s;
}.

Local Abbreviation has_id x := (λ i, bool_decide (OpsIncident.id i = x)).

(** ** Free functions *)
Definition reopens_before (state : MemState) (incident_id : Uuid) (at_ : DateTime) : Z :=
  count (λ e, bool_decide (IncidentEvent.incident_id e = incident_id)
              && bool_decide (IncidentEvent.kind e = IncidentEventKind.Reopened)
              && (IncidentEvent.occurred_at e <=? at_)) (events state).

Definition sev_rank (s : IncidentSeverity.t) : Z :=
  match s with
  | IncidentSeverity.Critical => 3
  | IncidentSeverity.Major => 2
  | IncidentSeverity.Minor => 1
  end.

Section Query.
Context `{UnicodeText}.

Definition in_mem_matches_query (inc : OpsIncident.t) (needle : option string) : bool :=
  is_none_or (λ n, is_some_and (λ t, contains (to_lowercase t) n) (OpsIncident.title inc)) needle.

(** [filter.query.as_deref().filter(|s| !s.is_empty()).map(str::to_lowercase)]. *)
Definition needle_of (f : IncidentOpsFilter.t) : option string :=
  match IncidentOpsFilter.query f with
  | Some q => if String.eqb q "" then None else Some (to_lowercase q)
  | None => None
  end.

Definition matches_but_state (f : IncidentOpsFilter.t) (i : OpsIncident.t) : bool :=
  is_none_or (λ s, bool_decide (OpsIncident.severity i = s)) (IncidentOpsFilter.severity f)
  && is_none_or (λ u, bool_decide (OpsIncident.assigned_to i = Some u))
       (IncidentOpsFilter.assignee f)
  && in_mem_matches_query i (needle_of f).

Definition matches (f : IncidentOpsFilter.t) (i : OpsIncident.t) : bool :=
  is_none_or (λ s, bool_decide (OpsIncident.state i = s)) (IncidentOpsFilter.state f)
  && matches_but_state f i.
End Query.

(** The comparison of each sort order. *)
Definition sort_le (s : IncidentSort.t) (a b : OpsIncident.t) : bool :=
  match s with
  | IncidentSort.Recent => OpsIncident.started_at b <=? OpsIncident.started_at a
  | IncidentSort.Oldest => OpsIncident.started_at a <=? OpsIncident.started_at b
  | IncidentSort.Severity =>
      let ra := sev_rank (OpsIncident.severity a) in
      let rb := sev_rank (OpsIncident.severity b) in
      (rb <? ra) || ((rb =? ra) && (OpsIncident.started_at b <=? OpsIncident.started_at a))
  end.

(** Counting by a key: [*counts.entry(key_of(i)).or_default() += 1]. *)
Definition counts_by {K A} `{Countable K} (key_of : A → K) (l : list A) : list (K * Z) :=
  (λ kv, (kv.1, Z.of_nat (length kv.2)))
    <$> map_to_list (group_by ((λ a, (key_of a, a)) <$> l)).

(** Largest count first, ties by ascending key. *)
Definition count_desc {K} (le : K → K → bool) (a b : K * Z) : bool :=
  (b.2 <? a.2) || ((b.2 =? a.2) && le a.1 b.1).

Definition tally_by (key_of : OpsIncident.t → string) (l : list OpsIncident.t)
    : list MetricBucket :=
  (λ kv, {| key := kv.1; bucket_count := kv.2 |})
    <$> sort_by (count_desc String.leb) (counts_by key_of l).

Definition mean (vals : list Z) : option (Z * Z) :=
  match vals with [] => None | _ => Some (sumZ vals, Z.of_nat (length vals)) end.

Definition metrics_over (window_days : Z) (in_window : list OpsIncident.t)
    : IncidentMetrics.t :=
  let since_start (i : OpsIncident.t) (t : DateTime) :=
    num_seconds (t - OpsIncident.started_at i) in
  let resolved (by_user : bool) := count (λ i,
    bool_decide (OpsIncident.state i = IncidentState.Resolved)
    && Bool.eqb (is_some (OpsIncident.resolved_by i)) by_user) in_window in
  {| IncidentMetrics.window_days := window_days;
     IncidentMetrics.total := Z.of_nat (length in_window);
     IncidentMetrics.mtta_secs := mean (omap (λ i,
       since_start i <$> OpsIncident.acknowledged_at i) in_window);
     IncidentMetrics.mttr_secs := mean (omap (λ i,
       since_start i <$> OpsIncident.ended_at i) in_window);
     IncidentMetrics.by_severity := tally_by (λ i, IncidentSeverity.as_db_str (OpsIncident.severity i)) in_window;
     IncidentMetrics.by_state := tally_by (λ i, IncidentState.as_db_str (OpsIncident.state i)) in_window;
     IncidentMetrics.auto_resolved := resolved false;
     IncidentMetrics.human_resolved := resolved true;
     IncidentMetrics.top_monitors := take 10
       ((λ kv, {| mic_target_id := kv.1; mic_count := kv.2 |})
          <$> sort_by (count_desc N.leb)
                (counts_by id (omap OpsIncident.target_id in_window))) |}.

(** ** Scans over a state *)
Definition is_pending (now : DateTime) (max_attempts : Z) (n : IncidentNotification.t) : bool :=
  bool_decide (IncidentNotification.status n = NotificationStatus.Failed
               ∨ IncidentNotification.status n = NotificationStatus.Queued)
  && (IncidentNotification.attempt n <? max_attempts)
  && is_none_or (λ t, t <=? now) (IncidentNotification.next_attempt_at n).

Definition pending_of (org : OrgId) (n : IncidentNotification.t) : PendingNotification.t := {|
  PendingNotification.id := IncidentNotification.id n;
  PendingNotification.org := org;
  PendingNotification.incident_id := IncidentNotification.incident_id n;
  PendingNotification.channel_id := IncidentNotification.channel_id n;
  PendingNotification.transport := IncidentNotification.transport n;
  PendingNotification.reason := IncidentNotification.reason n;
  PendingNotification.attempt := IncidentNotification.attempt n |}.

(** A sent emergency page, not yet acknowledged, with its receipt and channel. *)
Definition emergency_ack_of (s : MemState) (row : OrgId * IncidentNotification.t)
    : option EmergencyAck.t :=
  let '(org, n) := row in
  if bool_decide (IncidentNotification.status n = NotificationStatus.Sent)
     && is_none (IncidentNotification.acked_at n)
  then
    match IncidentNotification.provider_receipt n, IncidentNotification.channel_id n with
    | Some receipt, Some channel => Some {|
        EmergencyAck.id := IncidentNotification.id n;
        EmergencyAck.org := org;
        EmergencyAck.incident_id := IncidentNotification.incident_id n;
        EmergencyAck.channel_id := channel;
        EmergencyAck.receipt := receipt;
        EmergencyAck.generation := reopens_before s (IncidentNotification.incident_id n)
          (default (IncidentNotification.created_at n) (IncidentNotification.sent_at n)) |}
    | _, _ => None
    end
  else None.

(** The claiming loop: due rows are returned and leased until the limit. *)
Fixpoint claim (now lease_to : DateTime) (limit : nat) (l : list OpsIncident.t)
    : list DueIncident.t * list OpsIncident.t :=
  match l with
  | [] => ([], [])
  | i :: l' =>
      if bool_decide (OpsIncident.state i = IncidentState.Triggered)
         && is_some_and (λ t, t <=? now) (OpsIncident.next_escalation_at i)
      then
        match limit with
        | O => ([], l)
        | S limit =>
            let '(due, l'') := claim now lease_to limit l' in
            (DueIncident.of_incident i :: due,
             OpsIncident.set_next_escalation_at (Some lease_to) i :: l'')
        end
      else
        let '(due, l'') := claim now lease_to limit l' in (due, i :: l'')
  end.

Definition never_paged (s : MemState) (since cutoff : DateTime) (i : OpsIncident.t) : bool :=
  bool_decide (OpsIncident.state i = IncidentState.Triggered)
  && (OpsIncident.started_at i <=? cutoff)
  && (since <=? OpsIncident.started_at i)
  && is_none (OpsIncident.escalation_policy_id i)
  && is_none (OpsIncident.next_escalation_at i)
  && negb (existsb (λ n, bool_decide (IncidentNotification.incident_id n.2 = OpsIncident.id i))
             (notifications s)).

(** The newest channel-less marker of an incident with this transport. *)
Definition marker_at (s : MemState) (transport : string) (id : Uuid) : option DateTime :=
  max_opt ((λ n, IncidentNotification.created_at n.2) <$>
    List.filter (λ n : OrgId * IncidentNotification.t,
      bool_decide (IncidentNotification.incident_id n.2 = id)
      && is_none (IncidentNotification.channel_id n.2)
      && String.eqb (IncidentNotification.transport n.2) transport) (notifications s)).

Definition row_after (s : MemState) (id : Uuid) (at_ : DateTime) : bool :=
  existsb (λ n : OrgId * IncidentNotification.t,
    bool_decide (IncidentNotification.incident_id n.2 = id)
    && (at_ <? IncidentNotification.created_at n.2)) (notifications s).

Definition maintenance_held (s : MemState) (i : OpsIncident.t) : bool :=
  bool_decide (OpsIncident.state i = IncidentState.Triggered)
  && is_some (OpsIncident.target_id i)
  && is_some_and (λ t, negb (row_after s (OpsIncident.id i) t))
       (marker_at s "maintenance" (OpsIncident.id i)).

Definition flap_held (s : MemState) (cutoff : DateTime) (i : OpsIncident.t) : bool :=
  bool_decide (OpsIncident.state i = IncidentState.Triggered)
  && is_some_and (λ t, (t <=? cutoff) && negb (row_after s (OpsIncident.id i) t))
       (marker_at s "damped" (OpsIncident.id i)).

Definition counted_open (since : DateTime) (i : OpsIncident.t) : bool :=
  (since <=? OpsIncident.started_at i)
  && negb (bool_decide (OpsIncident.origin i = IncidentOrigin.Manual)).

(** ** Lifecycle operations *)
Section Ops.
Context {W : Type} `{HasRuntime W, HasOps W}.

Definition state_ : M W MemState := gets ops_state.
Definition put (f : MemState → MemState) : M W unit :=
  modify (λ w, set_ops (f (ops_state w)) w).

Definition find_incident (id : Uuid) : M W (option OpsIncident.t) :=
  s ← state_; mret (List.find (has_id id) (incidents s)).

Definition known (id : Uuid) (s : MemState) : bool := existsb (has_id id) (incidents s).

Definition push_event (incident_id : Uuid) (kind : IncidentEventKind.t) (actor : Actor.t)
    (message : option string) : M W unit :=
  id ← now_v7;
  now ← utc_now;
  put (λ s, set_events (events s ++ [{|
    IncidentEvent.id := id;
    IncidentEvent.incident_id := incident_id;
    IncidentEvent.occurred_at := now;
    IncidentEvent.kind := kind;
    IncidentEvent.actor_type := Actor.actor_type actor;
    IncidentEvent.actor_id := Actor.user_id actor;
    IncidentEvent.detail := "{}";
    IncidentEvent.message := message |}]) s).

Definition reopen_count (incident_id : Uuid) : M W Z :=
  now ← utc_now; s ← state_; mret (reopens_before s incident_id now).

Definition mem_generation (id : Uuid) : M W (option Z) :=
  s ← state_;
  if known id s then n ← reopen_count id; mret (Some n) else mret None.

(** [g.incidents[idx] = inc], with [idx] the position of [id]. *)
Definition write_incident (id : Uuid) (inc : OpsIncident.t) : M W unit :=
  put (λ s, set_incidents (update_first (has_id id) (λ _, inc) (incidents s)) s).

Definition apply (id : Uuid) (transition : IncidentTransition) (kind : IncidentEventKind.t)
    (actor : Actor.t) (note : option string) (expect_generation : option Z)
    (mutate : OpsIncident.t → M W OpsIncident.t) : M W LifecycleOutcome.t :=
  found ← find_incident id;
  match found with
  | None => mret LifecycleOutcome.NotFound
  | Some inc =>
      stale ← match expect_generation with
              | Some expected => n ← reopen_count id; mret (negb (n =? expected))
              | None => mret false
              end;
      if stale : bool then mret LifecycleOutcome.Stale
      else
        match next_state (OpsIncident.state inc) transition with
        | inr err => mret (LifecycleOutcome.IllegalTransition err)
        | inl to =>
            updated ← (if bool_decide (OpsIncident.state inc = to) then mret inc
                       else inc ← mutate inc;
                            now ← utc_now;
                            let inc := OpsIncident.set_updated_at now inc in
                            _ ← write_incident id inc;
                            mret inc);
            _ ← push_event id kind actor note;
            mret (LifecycleOutcome.Updated updated)
        end
  end.

(** [o.get_or_insert_with(Utc::now)]. *)
Definition or_now (o : option DateTime) : M W (option DateTime) :=
  match o with
  | Some t => mret (Some t)
  | None => now ← utc_now; mret (Some now)
  end.

Definition mem_acknowledge (id : Uuid) (actor : Actor.t) (note : option string)
    (expect_generation : option Z) : M W LifecycleOutcome.t :=
  apply id Acknowledge IncidentEventKind.Acknowledged actor note expect_generation (λ i,
    at_ ← or_now (OpsIncident.acknowledged_at i);
    let by_ := match OpsIncident.acknowledged_by i with
               | None => Actor.user_id actor
               | some => some
               end in
    mret (OpsIncident.set_next_escalation_at None
            (OpsIncident.set_acknowledged_by by_
               (OpsIncident.set_acknowledged_at at_
                  (OpsIncident.set_state IncidentState.Acknowledged i))))).

Definition resolve_mutation (resolved_by : option UserId) (i : OpsIncident.t)
    : M W OpsIncident.t :=
  ended ← or_now (OpsIncident.ended_at i);
  mret (OpsIncident.set_next_escalation_at None
          (OpsIncident.set_resolved_by resolved_by
             (OpsIncident.set_ended_at ended
                (OpsIncident.set_state IncidentState.Resolved i)))).

Definition mem_resolve (id : Uuid) (actor : Actor.t) (note : option string)
    : M W LifecycleOutcome.t :=
  apply id Resolve IncidentEventKind.Resolved actor note None
    (resolve_mutation (Actor.user_id actor)).

Definition mem_auto_resolve (id : Uuid) : M W LifecycleOutcome.t :=
  apply id AutoResolve IncidentEventKind.Resolved Actor.System None None
    (resolve_mutation None).

Definition mem_reopen (id : Uuid) (actor : Actor.t) (note : option string)
    : M W LifecycleOutcome.t :=
  apply id Reopen IncidentEventKind.Reopened actor note None (λ i,
    mret (OpsIncident.set_escalation_round 0
            (OpsIncident.set_escalation_level 0
               (OpsIncident.set_acknowledged_by None
                  (OpsIncident.set_acknowledged_at None
                     (OpsIncident.set_resolved_by None
                        (OpsIncident.set_ended_at None
                           (OpsIncident.set_state IncidentState.Triggered i)))))))).

Definition mem_declare (new : NewManualIncident.t) (actor : Actor.t) : M W OpsIncident.t :=
  now ← utc_now;
  id ← now_v7;
  let inc := {|
    OpsIncident.id := id;
    OpsIncident.target_id := NewManualIncident.target_id new;
    OpsIncident.title := NewManualIncident.title new;
    OpsIncident.state := IncidentState.Triggered;
    OpsIncident.severity := NewManualIncident.severity new;
    OpsIncident.urgency := NewManualIncident.urgency new;
    OpsIncident.origin := IncidentOrigin.Manual;
    OpsIncident.visibility := IncidentVisibility.Internal;
    OpsIncident.paging_enabled := NewManualIncident.notify new;
    OpsIncident.counts_as_downtime := NewManualIncident.counts_as_downtime new;
    OpsIncident.started_at := now;
    OpsIncident.ended_at := None;
    OpsIncident.acknowledged_at := None;
    OpsIncident.acknowledged_by := None;
    OpsIncident.assigned_to := None;
    OpsIncident.resolved_by := None;
    OpsIncident.escalation_policy_id := None;
    OpsIncident.escalation_level := 0;
    OpsIncident.escalation_round := 0;
    OpsIncident.next_escalation_at := None;
    OpsIncident.check_count := 0;
    OpsIncident.error_sample := None;
    OpsIncident.regions_down := [];
    OpsIncident.regions_up := [];
    OpsIncident.created_at := now;
    OpsIncident.updated_at := now |} in
  _ ← put (λ s, set_incidents (incidents s ++ [inc]) s);
  _ ← push_event id IncidentEventKind.Triggered actor None;
  mret inc.

(** The shape [assign], [publish] and [unpublish] share: edit, stamp, log. *)
Definition edit_and_log (id : Uuid) (edit : OpsIncident.t → OpsIncident.t)
    (kind : IncidentEventKind.t) (actor : Actor.t) : M W (option OpsIncident.t) :=
  found ← find_incident id;
  match found with
  | None => mret None
  | Some inc =>
      now ← utc_now;
      let updated := OpsIncident.set_updated_at now (edit inc) in
      _ ← write_incident id updated;
      _ ← push_event id kind actor None;
      mret (Some updated)
  end.

Definition mem_assign (id : Uuid) (assignee : option UserId) (actor : Actor.t)
    : M W (option OpsIncident.t) :=
  edit_and_log id (OpsIncident.set_assigned_to assignee)
    (if is_some assignee then IncidentEventKind.Assigned else IncidentEventKind.Unassigned)
    actor.

Definition mem_publish (id : Uuid) (_public_title _public_description : option string)
    (actor : Actor.t) : M W (option OpsIncident.t) :=
  edit_and_log id (OpsIncident.set_visibility IncidentVisibility.Public)
    IncidentEventKind.Published actor.

Definition mem_unpublish (id : Uuid) (actor : Actor.t) : M W (option OpsIncident.t) :=
  edit_and_log id (OpsIncident.set_visibility IncidentVisibility.Internal)
    IncidentEventKind.Unpublished actor.

Definition mem_add_note (id : Uuid) (actor : Actor.t) (message : string)
    : M W (option IncidentEvent.t) :=
  s ← state_;
  if known id s then
    _ ← push_event id IncidentEventKind.Note actor (Some message);
    s ← state_;
    mret (last (events s))
  else mret None.

Definition mem_timeline (id : Uuid) : M W (list IncidentEvent.t) :=
  s ← state_;
  mret (take INCIDENT_DETAIL_ROW_CAP (sort_by_key IncidentEvent.occurred_at
          (List.filter (λ e, bool_decide (IncidentEvent.incident_id e = id)) (events s)))).

Definition mem_append_event (id : Uuid) (kind : IncidentEventKind.t) (actor : Actor.t)
    (message : option string) : M W unit :=
  s ← state_;
  if known id s then push_event id kind actor message else mret tt.

(** *** Reading the console *)
Context `{UnicodeText}.

Definition mem_list (f : IncidentOpsFilter.t) : M W (list OpsIncident.t) :=
  s ← state_;
  mret (take (default 100%nat (IncidentOpsFilter.limit f))
          (drop (IncidentOpsFilter.offset f)
             (sort_by (sort_le (IncidentOpsFilter.sort f))
                (List.filter (matches f) (incidents s))))).

Definition mem_count (f : IncidentOpsFilter.t) : M W Z :=
  s ← state_; mret (count (matches f) (incidents s)).

Definition mem_counts_by_state (f : IncidentOpsFilter.t) : M W IncidentStateCounts.t :=
  s ← state_;
  mret (fold_left (λ c i, IncidentStateCounts.tally c (OpsIncident.state i))
          (List.filter (matches_but_state f) (incidents s)) IncidentStateCounts.zero).

Definition mem_metrics (window_days : Z) : M W IncidentMetrics.t :=
  now ← utc_now;
  s ← state_;
  let since := now - clamp 1 365 window_days * seconds 86400 in
  mret (metrics_over window_days
          (List.filter (λ i, since <=? OpsIncident.started_at i) (incidents s))).
End Ops.

(** ** The paging log and the escalation bookkeeping *)
Section Paging.
Context {W : Type} `{HasRuntime W, HasOps W}.

Definition mem_notifications_for (id : Uuid) : M W (list IncidentNotification.t) :=
  s ← state_;
  mret (snd <$> List.filter (λ n : OrgId * IncidentNotification.t,
          bool_decide (IncidentNotification.incident_id n.2 = id)) (notifications s)).

Definition mem_record_notification (n : NewIncidentNotification.t) : M W Uuid :=
  id ← now_v7;
  now ← utc_now;
  let row := {|
    IncidentNotification.id := id;
    IncidentNotification.incident_id := NewIncidentNotification.incident_id n;
    IncidentNotification.escalation_level := NewIncidentNotification.escalation_level n;
    IncidentNotification.target_user_id := NewIncidentNotification.target_user_id n;
    IncidentNotification.channel_id := NewIncidentNotification.channel_id n;
    IncidentNotification.transport := NewIncidentNotification.transport n;
    IncidentNotification.reason := NewIncidentNotification.reason n;
    IncidentNotification.status := NewIncidentNotification.status n;
    IncidentNotification.attempt := NewIncidentNotification.attempt n;
    IncidentNotification.error := NewIncidentNotification.error n;
    IncidentNotification.created_at := now;
    IncidentNotification.sent_at := NewIncidentNotification.sent_at n;
    IncidentNotification.next_attempt_at := None;
    IncidentNotification.provider_receipt := None;
    IncidentNotification.acked_at := None |} in
  _ ← put (λ s, set_notifications (notifications s ++ [(NewIncidentNotification.org n, row)]) s);
  mret id.

Definition mem_pending_notifications (now : DateTime) (limit : nat) (max_attempts : Z)
    : M W (list PendingNotification.t) :=
  s ← state_;
  mret ((λ n, pending_of n.1 n.2) <$>
    take limit (List.filter (λ n, is_pending now max_attempts n.2) (notifications s))).

(** [notifications.iter_mut().find(|(o, n)| *o == org && n.id == id)]. *)
Definition own_row (org : OrgId) (id : Uuid) (n : OrgId * IncidentNotification.t) : bool :=
  bool_decide (n.1 = org) && bool_decide (IncidentNotification.id n.2 = id).
Definition edit_row (org : OrgId) (id : Uuid)
    (f : IncidentNotification.t → IncidentNotification.t) : M W unit :=
  put (λ s, set_notifications
         (update_first (own_row org id) (λ n, (n.1, f n.2)) (notifications s)) s).

Definition apply_outcome (o : NotificationOutcome.t) (n : IncidentNotification.t)
    : IncidentNotification.t :=
  let n := IncidentNotification.set_next_attempt_at (NotificationOutcome.next_attempt_at o)
    (IncidentNotification.set_sent_at (NotificationOutcome.sent_at o)
       (IncidentNotification.set_error (NotificationOutcome.error o)
          (IncidentNotification.set_attempt (NotificationOutcome.attempt o)
             (IncidentNotification.set_status (NotificationOutcome.status o) n)))) in
  match NotificationOutcome.provider_receipt o with
  | Some r => IncidentNotification.set_provider_receipt (Some r) n
  | None => n
  end.

Definition mem_mark_notification (org : OrgId) (id : Uuid) (o : NotificationOutcome.t)
    : M W unit := edit_row org id (apply_outcome o).

Definition mem_due_emergency_acks (limit : nat) : M W (list EmergencyAck.t) :=
  s ← state_; mret (take limit (omap (emergency_ack_of s) (notifications s))).

Definition mem_emergency_acks_for_incident (org : OrgId) (incident_id : Uuid)
    : M W (list EmergencyAck.t) :=
  s ← state_;
  mret (omap (emergency_ack_of s)
    (List.filter (λ n, bool_decide (n.1 = org)
       && bool_decide (IncidentNotification.incident_id n.2 = incident_id)) (notifications s))).

Definition mem_mark_acked (org : OrgId) (id : Uuid) (acked_at : DateTime) : M W unit :=
  edit_row org id (IncidentNotification.set_acked_at (Some acked_at)).

Definition mem_clear_receipt (org : OrgId) (id : Uuid) : M W unit :=
  edit_row org id (IncidentNotification.set_provider_receipt None).

(** Find a triggered incident by id and edit it; whether there was one. *)
Definition triggered_id (id : Uuid) (i : OpsIncident.t) : bool :=
  bool_decide (OpsIncident.id i = id)
  && bool_decide (OpsIncident.state i = IncidentState.Triggered).
Definition edit_triggered (id : Uuid) (f : OpsIncident.t → OpsIncident.t) : M W bool :=
  s ← state_;
  match List.find (triggered_id id) (incidents s) with
  | Some _ =>
      _ ← put (λ s, set_incidents (update_first (triggered_id id) f (incidents s)) s);
      mret true
  | None => mret false
  end.

Definition mem_begin_escalation (id policy_id : Uuid) (level : Z)
    (next_at : option DateTime) : M W bool :=
  edit_triggered id (λ i,
    OpsIncident.set_next_escalation_at next_at
      (OpsIncident.set_escalation_round 0
         (OpsIncident.set_escalation_level level
            (OpsIncident.set_escalation_policy_id (Some policy_id) i)))).

Definition mem_record_escalation (id : Uuid) (level round : Z) (next_at : option DateTime)
    : M W bool :=
  edit_triggered id (λ i,
    OpsIncident.set_next_escalation_at next_at
      (OpsIncident.set_escalation_round round (OpsIncident.set_escalation_level level i))).

Definition mem_due_for_escalation (now : DateTime) (limit : nat) (lease_secs : Z)
    : M W (list DueIncident.t) :=
  let lease_to := now + seconds (Z.max lease_secs 1) in
  s ← state_;
  let '(due, l) := claim now lease_to limit (incidents s) in
  _ ← put (set_incidents l);
  mret due.

Definition mem_due_for_reconcile (window : DateTime * DateTime) (limit : nat)
    : M W (list DueIncident.t) :=
  let '(since, cutoff) := window in
  s ← state_;
  mret (DueIncident.of_incident <$>
    take limit (List.filter (never_paged s since cutoff) (incidents s))).

Definition mem_due_for_renotify (_now : DateTime) (_limit : nat) : M W (list DueIncident.t) :=
  mret [].

Definition mem_bump_renotify_count (id : Uuid) : M W unit :=
  put (λ s, set_renotify_counts
         (<[id := default 0 (renotify_counts s !! id) + 1]> (renotify_counts s)) s).

(** The test double's [renotify_count]. *)
Definition mem_renotify_count (id : Uuid) : M W Z :=
  s ← state_; mret (default 0 (renotify_counts s !! id)).

Definition mem_due_for_maintenance_release (limit : nat) : M W (list DueIncident.t) :=
  s ← state_;
  mret (DueIncident.of_incident <$>
    take limit (sort_by_key (λ i, default 0 (marker_at s "maintenance" (OpsIncident.id i)))
      (List.filter (maintenance_held s) (incidents s)))).

Definition mem_due_for_flap_release (now : DateTime) (hold : Duration) (limit : nat)
    : M W (list DueIncident.t) :=
  s ← state_;
  mret (DueIncident.of_incident <$>
    take limit (List.filter (flap_held s (now - hold)) (incidents s))).

Definition mem_flapping_targets (since : DateTime) (min_opens : Z) : M W (gset Uuid) :=
  if min_opens =? 0 then mret ∅
  else
    s ← state_;
    mret (list_to_set (fst <$> List.filter (λ kv, min_opens <=? kv.2)
      (counts_by (λ t : Uuid, t)
         (omap OpsIncident.target_id (List.filter (counted_open since) (incidents s)))))).

Definition mem_opens_since (target_id : Uuid) (since : DateTime) : M W Z :=
  s ← state_;
  mret (Z.min U32_MAX (count (λ i, bool_decide (OpsIncident.target_id i = Some target_id)
                                   && counted_open since i) (incidents s))).

(** [seed]. *)
Definition seed (incident : OpsIncident.t) : M W unit :=
  put (λ s, set_incidents (incidents s ++ [incident]) s).
End Paging.

(** ** The implementation of the interface *)
#[global] Instance mem_ops_store {W} `{HasRuntime W, HasOps W, UnicodeText}
  : IncidentOpsStore W := {
  get _ id := find_incident id;
  list_incidents _ f := mem_list f;
  count_incidents _ f := mem_count f;
  counts_by_state _ f := mem_counts_by_state f;
  metrics _ d := mem_metrics d;
  declare _ new actor := mem_declare new actor;
  acknowledge _ id actor note g := mem_acknowledge id actor note g;
  generation _ id := mem_generation id;
  resolve _ id actor note := mem_resolve id actor note;
  auto_resolve _ id := mem_auto_resolve id;
  reopen _ id actor note := mem_reopen id actor note;
  assign _ id a actor := mem_assign id a actor;
  publish _ id t d actor := mem_publish id t d actor;
  unpublish _ id actor := mem_unpublish id actor;
  add_note _ id actor m := mem_add_note id actor m;
  timeline _ id := mem_timeline id;
  append_event _ id k actor m := mem_append_event id k actor m;
  notifications_for _ id := mem_notifications_for id;
  record_notification n := mem_record_notification n;
  pending_notifications now limit m := mem_pending_notifications now limit m;
  mark_notification org id o := mem_mark_notification org id o;
  due_emergency_acks limit := mem_due_emergency_acks limit;
  emergency_acks_for_incident org id := mem_emergency_acks_for_incident org id;
  mark_acked org id at_ := mem_mark_acked org id at_;
  clear_receipt org id := mem_clear_receipt org id;
  begin_escalation _ id p l n := mem_begin_escalation id p l n;
  record_escalation _ id l r n := mem_record_escalation id l r n;
  due_for_escalation now limit lease := mem_due_for_escalation now limit lease;
  due_for_reconcile window limit := mem_due_for_reconcile window limit;
  due_for_renotify now limit := mem_due_for_renotify now limit;
  bump_renotify_count _ id := mem_bump_renotify_count id;
  due_for_maintenance_release limit := mem_due_for_maintenance_release limit;
  opens_since _ t since := mem_opens_since t since;
  flapping_targets _ since m := mem_flapping_targets since m;
  due_for_flap_release now hold limit := mem_due_for_flap_release now hold limit;
}.

(** ** The store on its own: its state and the readings taken *)
Module OpsWorld.
Record t := { state : MemState; clock_reads : nat; ids_drawn : nat }.

#[global] Instance runtime `{Environment} : HasRuntime t := {
  utc_now := λ w, (Ok (clock (clock_reads w)),
    {| state := state w; clock_reads := S (clock_reads w); ids_drawn := ids_drawn w |});
  now_v7 := λ w, (Ok (fresh (ids_drawn w)),
    {| state := state w; clock_reads := clock_reads w; ids_drawn := S (ids_drawn w) |});
}.

#[global] Instance has_ops : HasOps t := {
  ops_state := state;
  set_ops s w := {| state := s; clock_reads := clock_reads w; ids_drawn := ids_drawn w |};
}.

Definition init : t := {| state := empty_state; clock_reads := 0; ids_drawn := 0 |}.
End OpsWorld.
