(* ===== verification/IncidentLifecycle.v ===== *)
(** * The incident lifecycle

    Theorems on the in-memory store of [IncidentOpsMem]: its calls as commands,
    the well-formedness every reachable state has, the abstract machine it
    refines (per incident: a phase and an episode number), leases, org scoping,
    the console's reads and the reporting totals. *)

From S2P Require Import Prelude Text Domain Incident IncidentOps IncidentOpsMem.

Import OpsWorld.
Local Abbreviation has_id x := (λ i, bool_decide (OpsIncident.id i = x)).

(** ** Worlds, in closed form *)
Section Worlds.
Context `{Environment}.

Definition tick (k : nat) (w : t) : t :=
  {| state := state w; clock_reads := k + clock_reads w; ids_drawn := ids_drawn w |}.

Definition now_of (w : t) : DateTime := clock (clock_reads w).

Definition log_event (id : Uuid) (kind : IncidentEventKind.t) (actor : Actor.t)
    (message : option string) (w : t) : t := {|
  state := set_events (events (state w) ++ [{|
    IncidentEvent.id := fresh (ids_drawn w); IncidentEvent.incident_id := id;
    IncidentEvent.occurred_at := now_of w; IncidentEvent.kind := kind;
    IncidentEvent.actor_type := Actor.actor_type actor;
    IncidentEvent.actor_id := Actor.user_id actor;
    IncidentEvent.detail := "{}"; IncidentEvent.message := message |}]) (state w);
  clock_reads := S (clock_reads w); ids_drawn := S (ids_drawn w) |}.

Definition with_incidents (l : list OpsIncident.t) (w : t) : t :=
  set_ops (set_incidents l (state w)) w.

Definition written (id : Uuid) (inc : OpsIncident.t) (w : t) : t :=
  with_incidents (update_first (has_id id) (λ _, inc) (incidents (state w))) w.

Definition found (w : t) (id : Uuid) : option OpsIncident.t :=
  List.find (has_id id) (incidents (state w)).

Lemma push_event_run id kind actor m w :
  push_event id kind actor m w = (Ok tt, log_event id kind actor m w).
Proof. done. Qed.

Lemma reopen_count_run id w :
  reopen_count id w = (Ok (reopens_before (state w) id (now_of w)), tick 1 w).
Proof. done. Qed.

Lemma known_found id w : known id (state w) = is_some (found w id).
Proof.
  unfold known, found. induction (incidents (state w)) as [|i l IH]; simpl; [done|].
  destruct (bool_decide _); simpl; auto.
Qed.

(** Readings a pinned acknowledgement takes before deciding. *)
Definition reads (g : option Z) : nat :=
  match g with Some _ => 1 | None => 0 end.

Definition pinned_ok (g : option Z) (w : t) (id : Uuid) : Prop :=
  match g with
  | Some e => reopens_before (state w) id (now_of w) = e
  | None => True
  end.

#[global] Instance pinned_ok_dec g w id : Decision (pinned_ok g w id).
Proof. destruct g; simpl; apply _. Defined.

(** What [apply] answers, case by case. *)
Inductive apply_result (id : Uuid) (tr : IncidentTransition) (kind : IncidentEventKind.t)
    (actor : Actor.t) (note : option string) (g : option Z)
    (mutate : OpsIncident.t → M t OpsIncident.t) (w : t) : LifecycleOutcome.t → t → Prop :=
| ar_missing :
    found w id = None →
    apply_result id tr kind actor note g mutate w LifecycleOutcome.NotFound w
| ar_stale inc :
    found w id = Some inc → ¬ pinned_ok g w id →
    apply_result id tr kind actor note g mutate w LifecycleOutcome.Stale (tick 1 w)
| ar_illegal inc err :
    found w id = Some inc → pinned_ok g w id →
    next_state (OpsIncident.state inc) tr = inr err →
    apply_result id tr kind actor note g mutate w
      (LifecycleOutcome.IllegalTransition err) (tick (reads g) w)
| ar_unmoved inc :
    found w id = Some inc → pinned_ok g w id →
    next_state (OpsIncident.state inc) tr = inl (OpsIncident.state inc) →
    apply_result id tr kind actor note g mutate w
      (LifecycleOutcome.Updated inc) (log_event id kind actor note (tick (reads g) w))
| ar_moved inc to inc' j :
    found w id = Some inc → pinned_ok g w id →
    next_state (OpsIncident.state inc) tr = inl to → OpsIncident.state inc ≠ to →
    let w1 := tick (j + reads g) w in
    mutate inc (tick (reads g) w) = (Ok inc', w1) →
    let inc'' := OpsIncident.set_updated_at (now_of w1) inc' in
    apply_result id tr kind actor note g mutate w
      (LifecycleOutcome.Updated inc'')
      (log_event id kind actor note (written id inc'' (tick 1 w1))).

(** A mutation that only reads the clock. *)
Definition only_ticks (mutate : OpsIncident.t → M t OpsIncident.t) : Prop :=
  ∀ i w, ∃ i' j, mutate i w = (Ok i', tick j w).

Lemma apply_run id tr kind actor note g mutate w :
  only_ticks mutate →
  ∃ out w', apply id tr kind actor note g mutate w = (Ok out, w') ∧
    apply_result id tr kind actor note g mutate w out w'.
Proof.
  intros Hmut. unfold apply. rewrite (bind_Ok _ _ w (found w id) w) by done.
  destruct (found w id) as [inc|] eqn:Hf; [|eexists _, _; split; [done|by constructor]].
  destruct (decide (pinned_ok g w id)) as [Hpin|Hpin].
  2:{ destruct g as [e|]; [|done]. eexists _, _. split; [|by econstructor].
      rewrite (bind_Ok _ _ w true (tick 1 w)); [done|].
      rewrite (bind_Ok _ _ _ _ _ (reopen_count_run id w)). unfold mret, M_ret.
      by rewrite (proj2 (Z.eqb_neq _ _) Hpin). }
  rewrite (bind_Ok _ _ w false (tick (reads g) w)).
  2:{ destruct g as [e|]; [|by destruct w].
      rewrite (bind_Ok _ _ _ _ _ (reopen_count_run id w)). unfold mret, M_ret.
      by rewrite (proj2 (Z.eqb_eq _ _) Hpin). }
  destruct (next_state (OpsIncident.state inc) tr) as [to|err] eqn:Hn.
  2:{ eexists _, _. split; [done|]. by econstructor. }
  case_bool_decide as Hto.
  - subst to. eexists _, _. split; [done|]. by econstructor.
  - destruct (Hmut inc (tick (reads g) w)) as (inc' & j & Hm).
    assert (tick j (tick (reads g) w) = tick (j + reads g) w) as Htick.
    { unfold tick. simpl. f_equal. lia. }
    rewrite Htick in Hm. eexists _, _. split; [|by eapply ar_moved].
    erewrite bind_Ok; [|rewrite (bind_Ok _ _ _ _ _ Hm); reflexivity]. reflexivity.
Qed.

Lemma or_now_run o w :
  ∃ k, or_now o w = (Ok (Some (default (now_of w) o)), tick k w) ∧ (k ≤ 1)%nat.
Proof.
  destruct o as [x|]; [exists 0%nat|exists 1%nat]; (split; [|lia]); [|done].
  by destruct w.
Qed.
End Worlds.

(** ** Commands: the store's mutating calls *)
Inductive Cmd :=
| CDeclare (new : NewManualIncident.t) (actor : Actor.t)
| CAcknowledge (id : Uuid) (actor : Actor.t) (note : option string) (g : option Z)
| CResolve (id : Uuid) (actor : Actor.t) (note : option string)
| CAutoResolve (id : Uuid)
| CReopen (id : Uuid) (actor : Actor.t) (note : option string)
| CAssign (id : Uuid) (assignee : option UserId) (actor : Actor.t)
| CPublish (id : Uuid) (title description : option string) (actor : Actor.t)
| CUnpublish (id : Uuid) (actor : Actor.t)
| CAddNote (id : Uuid) (actor : Actor.t) (message : string)
| CAppendEvent (id : Uuid) (kind : IncidentEventKind.t) (actor : Actor.t) (m : option string)
| CRecord (n : NewIncidentNotification.t)
| CMark (org : OrgId) (id : Uuid) (o : NotificationOutcome.t)
| CMarkAcked (org : OrgId) (id : Uuid) (at_ : DateTime)
| CClearReceipt (org : OrgId) (id : Uuid)
| CBegin (id policy : Uuid) (level : Z) (next_at : option DateTime)
| CAdvance (id : Uuid) (level round : Z) (next_at : option DateTime)
| CClaim (now : DateTime) (limit : nat) (lease : Z)
| CBumpRenotify (id : Uuid).

(** What a lifecycle command answered. *)
Section Run.
Context `{Environment, UnicodeText}.

Definition quietly {A} (m : M t A) : M t (option LifecycleOutcome.t) := _ ← m; mret None.
Definition answered (m : M t LifecycleOutcome.t) : M t (option LifecycleOutcome.t) :=
  o ← m; mret (Some o).

Definition run (c : Cmd) : M t (option LifecycleOutcome.t) :=
  let org := nil_uuid in
  match c with
  | CDeclare new actor => quietly (declare org new actor)
  | CAcknowledge id actor note g => answered (acknowledge org id actor note g)
  | CResolve id actor note => answered (resolve org id actor note)
  | CAutoResolve id => answered (auto_resolve org id)
  | CReopen id actor note => answered (reopen org id actor note)
  | CAssign id a actor => quietly (assign org id a actor)
  | CPublish id ti de actor => quietly (publish org id ti de actor)
  | CUnpublish id actor => quietly (unpublish org id actor)
  | CAddNote id actor m => quietly (add_note org id actor m)
  | CAppendEvent id k actor m => quietly (append_event org id k actor m)
  | CRecord n => quietly (record_notification n)
  | CMark o id out => quietly (mark_notification o id out)
  | CMarkAcked o id at_ => quietly (mark_acked o id at_)
  | CClearReceipt o id => quietly (clear_receipt o id)
  | CBegin id p l n => quietly (begin_escalation org id p l n)
  | CAdvance id l r n => quietly (record_escalation org id l r n)
  | CClaim now limit lease => quietly (due_for_escalation now limit lease)
  | CBumpRenotify id => quietly (bump_renotify_count org id)
  end.

Definition after (w : t) (c : Cmd) : t := (run c w).2.
Definition answer (w : t) (c : Cmd) : option LifecycleOutcome.t :=
  match (run c w).1 with Ok o => o | Err _ => None end.

(** States the store can be in. *)
Inductive reachable : t → Prop :=
| reach_init : reachable init
| reach_step w c : reachable w → reachable (after w c).
End Run.

(** ** Well-formed incidents and states *)
Section WellFormed.
Context `{EnvironmentLaws}.

(** A row with [n] clock readings and [m] identifiers behind it. *)
Record incident_wf (n m : nat) (i : OpsIncident.t) : Prop := {
  wf_drawn : ∃ k, (k < m)%nat ∧ OpsIncident.id i = fresh k;
  wf_started : ∃ k, (k < n)%nat ∧ OpsIncident.started_at i = clock k;
  wf_resolved_ended :
    OpsIncident.state i = IncidentState.Resolved ↔ is_Some (OpsIncident.ended_at i);
  wf_triggered_unacked : OpsIncident.state i = IncidentState.Triggered →
    OpsIncident.acknowledged_at i = None ∧ OpsIncident.acknowledged_by i = None;
  wf_acked_at : OpsIncident.state i = IncidentState.Acknowledged →
    is_Some (OpsIncident.acknowledged_at i);
  wf_resolver : is_Some (OpsIncident.resolved_by i) →
    OpsIncident.state i = IncidentState.Resolved;
  wf_timer : is_Some (OpsIncident.next_escalation_at i) →
    OpsIncident.state i = IncidentState.Triggered;
  wf_ended_after : ∀ e, OpsIncident.ended_at i = Some e → OpsIncident.started_at i ≤ e;
  wf_acked_after : ∀ a, OpsIncident.acknowledged_at i = Some a → OpsIncident.started_at i ≤ a;
}.

Record state_wf (w : t) : Prop := {
  wf_ids : NoDup (OpsIncident.id <$> incidents (state w));
  wf_incidents : ∀ i, i ∈ incidents (state w) → incident_wf (clock_reads w) (ids_drawn w) i;
  wf_event_order : StronglySorted
    (λ a b, IncidentEvent.occurred_at a ≤ IncidentEvent.occurred_at b) (events (state w));
  wf_event_past : ∀ e, e ∈ events (state w) →
    ∃ k, (k < clock_reads w)%nat ∧ IncidentEvent.occurred_at e = clock k;
  wf_event_incident : ∀ e, e ∈ events (state w) →
    is_Some (found w (IncidentEvent.incident_id e));
  wf_rows : NoDup ((λ n, IncidentNotification.id n.2) <$> notifications (state w));
  wf_rows_drawn : ∀ n, n ∈ notifications (state w) →
    ∃ k, (k < ids_drawn w)%nat ∧ IncidentNotification.id n.2 = fresh k;
}.

Lemma incident_wf_mono n m n' m' i :
  (n ≤ n')%nat → (m ≤ m')%nat → incident_wf n m i → incident_wf n' m' i.
Proof.
  intros Hn Hm []. split; try done.
  - destruct wf_drawn0 as (k & ? & ?). exists k. split; [lia|done].
  - destruct wf_started0 as (k & ? & ?). exists k. split; [lia|done].
Qed.

Lemma state_wf_init : state_wf init.
Proof.
  split; simpl; try (by intros ? ?%not_elem_of_nil);
    [apply NoDup_nil_2|constructor|apply NoDup_nil_2].
Qed.

Lemma found_incidents_eq (w w' : t) id :
  incidents (state w') = incidents (state w) → found w' id = found w id.
Proof. unfold found. by intros ->. Qed.

Lemma state_wf_tick k w : state_wf w → state_wf (tick k w).
Proof.
  intros []. split; simpl; try done.
  - intros i Hi. eapply incident_wf_mono; [| |by apply wf_incidents0]; lia.
  - intros e He. destruct (wf_event_past0 e He) as (j & ? & ?). exists j. split; [lia|done].
Qed.

Lemma state_wf_log id kind actor m w :
  state_wf w → is_Some (found w id) → state_wf (log_event id kind actor m w).
Proof.
  intros [] Hk. split; simpl; try done.
  - intros i Hi. eapply incident_wf_mono; [| |by apply wf_incidents0]; lia.
  - apply StronglySorted_app. split_and!; [|done|repeat constructor].
    intros e1 e2 He1 ->%list_elem_of_singleton. simpl.
    destruct (wf_event_past0 e1 He1) as (k & Hlt & ->). apply clock_mono. lia.
  - intros e [He| ->%list_elem_of_singleton]%elem_of_app.
    + destruct (wf_event_past0 e He) as (k & ? & ?). exists k. split; [lia|done].
    + exists (clock_reads w). split; [lia|done].
  - intros e [He| ->%list_elem_of_singleton]%elem_of_app; [by apply wf_event_incident0|done].
  - intros n Hn. destruct (wf_rows_drawn0 n Hn) as (k & ? & ?). exists k. split; [lia|done].
Qed.

(** Replacing rows by rows with the same identifiers. *)
Lemma state_wf_incidents l w :
  state_wf w → OpsIncident.id <$> l = OpsIncident.id <$> incidents (state w) →
  (∀ i, i ∈ l → incident_wf (clock_reads w) (ids_drawn w) i) →
  state_wf (with_incidents l w).
Proof.
  intros [] Hids Hwf. split; simpl; try done.
  - by rewrite Hids.
  - intros e He. destruct (wf_event_incident0 e He) as [i Hi].
    apply find_Some_elem in Hi as [Hin Hid]. bool_cases.
    assert (OpsIncident.id i ∈ OpsIncident.id <$> l) as Hl
      by (rewrite Hids; by apply list_elem_of_fmap_2).
    apply list_elem_of_fmap in Hl as (j & Hj & Hjl).
    unfold found. simpl. destruct (find_is_Some (has_id (IncidentEvent.incident_id e)) l j)
      as [x ->]; [done| |by eexists].
    apply bool_decide_eq_true. congruence.
Qed.

Lemma found_In w id inc :
  found w id = Some inc → inc ∈ incidents (state w) ∧ OpsIncident.id inc = id.
Proof. intros Hf. apply find_Some_elem in Hf as [? ?]. by bool_cases. Qed.

Lemma found_wf w id inc :
  state_wf w → found w id = Some inc → incident_wf (clock_reads w) (ids_drawn w) inc.
Proof. intros Hwf [? _]%found_In. by apply wf_incidents. Qed.

Lemma state_wf_written id inc w :
  state_wf w → OpsIncident.id inc = id →
  incident_wf (clock_reads w) (ids_drawn w) inc → state_wf (written id inc w).
Proof.
  intros Hwf Hid Hinc. apply state_wf_incidents; [done|..].
  - apply (map_update_first OpsIncident.id). intros x Hx. bool_cases. congruence.
  - intros i Hi. apply elem_of_update_first in Hi as [Hi|(x & _ & _ & ->)]; [|done].
    by apply wf_incidents.
Qed.

Lemma found_written w id inc id' :
  OpsIncident.id inc = id → is_Some (found w id) →
  found (written id inc w) id' = if bool_decide (id' = id) then Some inc else found w id'.
Proof.
  intros Hid [old Hold]. unfold found, written. simpl. case_bool_decide; subst.
  - rewrite find_update_first by (intros; apply bool_decide_eq_true; congruence).
    unfold found in Hold. by rewrite Hold.
  - apply find_update_first_other. intros x Hx. bool_cases.
    split; apply bool_decide_eq_false; congruence.
Qed.
End WellFormed.

(** ** Mutations of the lifecycle *)
Section Mutations.
Context `{EnvironmentLaws}.

(** A mutation that reaches the transition's phase and keeps rows sound. *)
Record sound_mutation (tr : IncidentTransition) (mutate : OpsIncident.t → M t OpsIncident.t)
    : Prop := {
  sm_ticks : only_ticks mutate;
  sm_id : ∀ i w i' w', mutate i w = (Ok i', w') → OpsIncident.id i' = OpsIncident.id i;
  sm_phase : ∀ i w i' w' to, mutate i w = (Ok i', w') →
    next_state (OpsIncident.state i) tr = inl to → OpsIncident.state i ≠ to →
    OpsIncident.state i' = to;
  sm_wf : ∀ i w i' w' to, mutate i w = (Ok i', w') →
    next_state (OpsIncident.state i) tr = inl to → OpsIncident.state i ≠ to →
    incident_wf (clock_reads w) (ids_drawn w) i →
    incident_wf (clock_reads w') (ids_drawn w') i';
}.

Lemma started_before n m i k : (n ≤ k)%nat → incident_wf n m i → OpsIncident.started_at i ≤ clock k.
Proof. intros Hk [_ (j & Hj & ->)]. apply clock_mono. lia. Qed.

(** Enough: a closed form that reads the clock once, sound at any instant
    after the incident started. *)
Lemma sound_closed tr mutate (f : DateTime → OpsIncident.t → OpsIncident.t) :
  (∀ i w, ∃ k, mutate i w = (Ok (f (now_of w) i), tick k w)) →
  (∀ x i, OpsIncident.id (f x i) = OpsIncident.id i) →
  (∀ x i to, next_state (OpsIncident.state i) tr = inl to → OpsIncident.state i ≠ to →
     OpsIncident.state (f x i) = to) →
  (∀ x i n m to, next_state (OpsIncident.state i) tr = inl to → OpsIncident.state i ≠ to →
     OpsIncident.started_at i ≤ x → incident_wf n m i → incident_wf n m (f x i)) →
  sound_mutation tr mutate.
Proof.
  intros Hrun Hid Hphase Hwf. split.
  - intros i w. destruct (Hrun i w) as (k & Hr). eauto.
  - intros i w i' w' Hr'. destruct (Hrun i w) as (k & Hr). rewrite Hr in Hr'.
    simplify_eq. apply Hid.
  - intros i w i' w' to Hr' Hn Hne. destruct (Hrun i w) as (k & Hr). rewrite Hr in Hr'.
    simplify_eq. eauto.
  - intros i w i' w' to Hr' Hn Hne Hi. destruct (Hrun i w) as (k & Hr).
    rewrite Hr in Hr'. simplify_eq. eapply Hwf; [done..| |].
    + by eapply started_before.
    + eapply incident_wf_mono; [| |exact Hi]; simpl; lia.
Qed.

Lemma sound_acknowledge actor :
  sound_mutation Acknowledge (λ i,
    at_ ← or_now (OpsIncident.acknowledged_at i);
    let by_ := match OpsIncident.acknowledged_by i with
               | None => Actor.user_id actor
               | some => some
               end in
    mret (OpsIncident.set_next_escalation_at None
            (OpsIncident.set_acknowledged_by by_
               (OpsIncident.set_acknowledged_at at_
                  (OpsIncident.set_state IncidentState.Acknowledged i))))).
Proof.
  eapply sound_closed.
  - intros i w. destruct (or_now_run (OpsIncident.acknowledged_at i) w) as (k & Hk & _).
    exists k. rewrite (bind_Ok _ _ _ _ _ Hk). unfold mret, M_ret. do 2 f_equal.
    instantiate (1 := λ x i, OpsIncident.set_next_escalation_at None
            (OpsIncident.set_acknowledged_by
               (match OpsIncident.acknowledged_by i with
                | None => Actor.user_id actor | some => some end)
               (OpsIncident.set_acknowledged_at
                  (Some (default x (OpsIncident.acknowledged_at i)))
                  (OpsIncident.set_state IncidentState.Acknowledged i)))). done.
  - done.
  - intros x i to Hn Hne. simpl. destruct (OpsIncident.state i); by simplify_eq/=.
  - intros x i n m to Hn Hne Hst [].
    assert (OpsIncident.state i = IncidentState.Triggered) as Htr
      by (destruct (OpsIncident.state i); by simplify_eq/=).
    destruct (wf_triggered_unacked0 Htr) as [Ha Hb].
    assert (OpsIncident.ended_at i = None) as He.
    { apply eq_None_not_Some. rewrite <-wf_resolved_ended0, Htr. done. }
    assert (OpsIncident.resolved_by i = None) as Hr.
    { apply eq_None_not_Some. intros Hr%wf_resolver0. congruence. }
    split; simpl; rewrite ?He, ?Ha, ?Hr; simpl; try done; try (by intros [? ?]).
    by intros a [= <-].
Qed.

Lemma sound_resolve by_ tr :
  tr = Resolve ∨ tr = AutoResolve → sound_mutation tr (resolve_mutation by_).
Proof.
  intros Htr. eapply sound_closed.
  - intros i w. destruct (or_now_run (OpsIncident.ended_at i) w) as (k & Hk & _).
    exists k. unfold resolve_mutation. rewrite (bind_Ok _ _ _ _ _ Hk).
    unfold mret, M_ret. do 2 f_equal.
    instantiate (1 := λ x i, OpsIncident.set_next_escalation_at None
       (OpsIncident.set_resolved_by by_
          (OpsIncident.set_ended_at (Some (default x (OpsIncident.ended_at i)))
             (OpsIncident.set_state IncidentState.Resolved i)))). done.
  - done.
  - intros x i to Hn Hne. simpl.
    destruct Htr as [-> | ->], (OpsIncident.state i); by simplify_eq/=.
  - intros x i n m to Hn Hne Hst []. split; simpl; try done; try (by intros [? ?]).
    intros e [= <-]. destruct (OpsIncident.ended_at i) eqn:He; simpl; auto.
Qed.

Lemma sound_reopen :
  sound_mutation Reopen (λ i,
    mret (OpsIncident.set_escalation_round 0
            (OpsIncident.set_escalation_level 0
               (OpsIncident.set_acknowledged_by None
                  (OpsIncident.set_acknowledged_at None
                     (OpsIncident.set_resolved_by None
                        (OpsIncident.set_ended_at None
                           (OpsIncident.set_state IncidentState.Triggered i)))))))).
Proof.
  eapply sound_closed.
  - intros i w. exists 0%nat. unfold mret, M_ret. destruct w. do 2 f_equal.
    instantiate (1 := λ _ i, _). reflexivity.
  - done.
  - intros x i to Hn Hne. simpl. destruct (OpsIncident.state i); by simplify_eq/=.
  - intros x i n m to Hn Hne Hst []. by split; simpl; try done; try (by intros [? ?]).
Qed.

Lemma incident_wf_updated n m at_ i :
  incident_wf n m i → incident_wf n m (OpsIncident.set_updated_at at_ i).
Proof. intros []. by split. Qed.

Lemma found_tick k w id : found (tick k w) id = found w id.
Proof. done. Qed.

Lemma state_wf_apply id tr kind actor note g mutate w out w' :
  sound_mutation tr mutate → state_wf w →
  apply_result id tr kind actor note g mutate w out w' → state_wf w'.
Proof.
  intros [_ Hid _ Hmwf] Hwf Hr. destruct Hr as [|inc|inc err|inc|inc to inc' j Hf _ Hn Hne w1 Hm].
  - done.
  - by apply state_wf_tick.
  - by apply state_wf_tick.
  - apply state_wf_log; [by apply state_wf_tick|]. rewrite found_tick. by eexists.
  - assert (OpsIncident.id inc' = id) as Hid'.
    { rewrite (Hid _ _ _ _ Hm). by apply found_In in Hf as [_ ?]. }
    assert (incident_wf (clock_reads w1) (ids_drawn w1) inc') as Hwf'.
    { eapply Hmwf; [exact Hm|done..|]. eapply incident_wf_mono; [| |by eapply found_wf];
        simpl; lia. }
    apply state_wf_log.
    + apply state_wf_written; [|done|].
      * do 2 apply (state_wf_tick _ _). done.
      * apply incident_wf_updated. eapply incident_wf_mono; [| |exact Hwf']; simpl; lia.
    + rewrite found_written; [|done|by eexists]. rewrite bool_decide_refl. by eexists.
Qed.
End Mutations.

(** ** Every command keeps the state well-formed *)
Section Commands.
Context `{EnvironmentLaws, UnicodeText}.

Lemma answered_run m out w w' :
  m w = (Ok out, w') → answered m w = (Ok (Some out), w').
Proof. intros Hm. unfold answered. by rewrite (bind_Ok _ _ _ _ _ Hm). Qed.

Lemma quietly_run {A} (m : M t A) a w w' : m w = (Ok a, w') → quietly m w = (Ok None, w').
Proof. intros Hm. unfold quietly. by rewrite (bind_Ok _ _ _ _ _ Hm). Qed.

(** The lifecycle commands, as applications of a sound mutation. *)
Inductive lifecycle_cmd : Cmd → Uuid → IncidentTransition → option Z → Prop :=
| lc_ack id actor note g : lifecycle_cmd (CAcknowledge id actor note g) id Acknowledge g
| lc_resolve id actor note : lifecycle_cmd (CResolve id actor note) id Resolve None
| lc_auto id : lifecycle_cmd (CAutoResolve id) id AutoResolve None
| lc_reopen id actor note : lifecycle_cmd (CReopen id actor note) id Reopen None.

Lemma lifecycle_run c id tr g w :
  lifecycle_cmd c id tr g →
  ∃ kind actor note mutate out w', run c w = (Ok (Some out), w') ∧
    sound_mutation tr mutate ∧
    apply_result id tr kind actor note g mutate w out w' ∧
    (kind = IncidentEventKind.Reopened ↔ tr = Reopen).
Proof.
  intros Hc. destruct Hc as [id actor note g|id actor note|id|id actor note]; cbn [run].
  - destruct (apply_run id Acknowledge IncidentEventKind.Acknowledged actor note g _ w
      (sm_ticks _ _ (sound_acknowledge actor))) as (out & w' & Hrun & Hr).
    do 4 eexists. exists out, w'. split; [by apply answered_run|].
    split; [apply sound_acknowledge|]. split; [exact Hr|done].
  - destruct (apply_run id Resolve IncidentEventKind.Resolved actor note None _ w
      (sm_ticks _ _ (sound_resolve (Actor.user_id actor) Resolve ltac:(by left))))
      as (out & w' & Hrun & Hr).
    do 4 eexists. exists out, w'. split; [by apply answered_run|].
    split; [apply sound_resolve; by left|]. split; [exact Hr|done].
  - destruct (apply_run id AutoResolve IncidentEventKind.Resolved Actor.System None None _ w
      (sm_ticks _ _ (sound_resolve None AutoResolve ltac:(by right))))
      as (out & w' & Hrun & Hr).
    do 4 eexists. exists out, w'. split; [by apply answered_run|].
    split; [apply sound_resolve; by right|]. split; [exact Hr|done].
  - destruct (apply_run id Reopen IncidentEventKind.Reopened actor note None _ w
      (sm_ticks _ _ sound_reopen)) as (out & w' & Hrun & Hr).
    do 4 eexists. exists out, w'. split; [by apply answered_run|].
    split; [apply sound_reopen|]. split; [exact Hr|done].
Qed.

(** *** The other commands in closed form *)
Definition after_declare (inc : OpsIncident.t) (actor : Actor.t) (w : t) : t :=
  let w1 := {| state := state w; clock_reads := S (clock_reads w);
               ids_drawn := S (ids_drawn w) |} in
  log_event (fresh (ids_drawn w)) IncidentEventKind.Triggered actor None
    (with_incidents (incidents (state w) ++ [inc]) w1).

Lemma declare_run new actor w :
  ∃ inc, run (CDeclare new actor) w = (Ok None, after_declare inc actor w) ∧
    OpsIncident.id inc = fresh (ids_drawn w) ∧ OpsIncident.state inc = IncidentState.Triggered ∧
    incident_wf (S (clock_reads w)) (S (ids_drawn w)) inc.
Proof.
  eexists. split_and!; [reflexivity|done|done|]. split; simpl; try done; try (by intros [? ?]).
  - exists (ids_drawn w). split; [lia|done].
  - exists (clock_reads w). split; [lia|done].
Qed.

Lemma edit_and_log_run id edit kind actor w :
  edit_and_log id edit kind actor w =
    match found w id with
    | None => (Ok None, w)
    | Some inc =>
        let updated := OpsIncident.set_updated_at (now_of w) (edit inc) in
        (Ok (Some updated), log_event id kind actor None (written id updated (tick 1 w)))
    end.
Proof.
  unfold edit_and_log. rewrite (bind_Ok _ _ w (found w id) w) by done.
  by destruct (found w id).
Qed.

Lemma add_note_run id actor m w :
  mem_add_note id actor m w =
    match found w id with
    | None => (Ok None, w)
    | Some _ =>
        let w' := log_event id IncidentEventKind.Note actor (Some m) w in
        (Ok (last (events (state w'))), w')
    end.
Proof.
  unfold mem_add_note. rewrite (bind_Ok _ _ w (state w) w) by done.
  rewrite known_found. by destruct (found w id).
Qed.

Lemma append_event_run id kind actor m w :
  mem_append_event id kind actor m w =
    match found w id with
    | None => (Ok tt, w)
    | Some _ => (Ok tt, log_event id kind actor m w)
    end.
Proof.
  unfold mem_append_event. rewrite (bind_Ok _ _ w (state w) w) by done.
  rewrite known_found. by destruct (found w id).
Qed.

Lemma edit_triggered_run id f w :
  edit_triggered id f w =
    match List.find (triggered_id id) (incidents (state w)) with
    | Some _ => (Ok true, with_incidents (update_first (triggered_id id) f (incidents (state w))) w)
    | None => (Ok false, w)
    end.
Proof.
  unfold edit_triggered. rewrite (bind_Ok _ _ w (state w) w) by done.
  by destruct (List.find _ _).
Qed.

Lemma claim_run now limit lease w :
  mem_due_for_escalation now limit lease w =
    let r := claim now (now + seconds (Z.max lease 1)) limit (incidents (state w)) in
    (Ok r.1, with_incidents r.2 w).
Proof.
  unfold mem_due_for_escalation. rewrite (bind_Ok _ _ w (state w) w) by done.
  by destruct (claim _ _ _ _).
Qed.

(** *** Preservation, command by command *)
Lemma state_wf_add inc w :
  state_wf w → OpsIncident.id inc = fresh (ids_drawn w) →
  incident_wf (S (clock_reads w)) (S (ids_drawn w)) inc →
  state_wf (with_incidents (incidents (state w) ++ [inc])
    {| state := state w; clock_reads := S (clock_reads w); ids_drawn := S (ids_drawn w) |}).
Proof.
  intros [] Hid Hinc. split; simpl; try done.
  - rewrite fmap_app. apply NoDup_app. split_and!; [done| |apply NoDup_singleton].
    intros id (i & -> & Hi)%list_elem_of_fmap Hin%list_elem_of_singleton.
    destruct (wf_incidents0 i Hi) as [(k & Hk & Heq)].
    rewrite Heq, Hid in Hin. apply fresh_inj in Hin. lia.
  - intros i [Hi| ->%list_elem_of_singleton]%elem_of_app; [|done].
    eapply incident_wf_mono; [| |by apply wf_incidents0]; lia.
  - intros e He. destruct (wf_event_past0 e He) as (k & ? & ?). exists k. split; [lia|done].
  - intros e He. destruct (wf_event_incident0 e He) as [i Hi].
    unfold found in *. simpl. apply find_Some_elem in Hi as [Hin Hb].
    destruct (find_is_Some (has_id (IncidentEvent.incident_id e))
      (incidents (state w) ++ [inc]) i) as [x ->]; [set_solver|done|by eexists].
  - intros n Hn. destruct (wf_rows_drawn0 n Hn) as (k & ? & ?). exists k. split; [lia|done].
Qed.

Lemma state_wf_edit_row org id f w :
  (∀ n, IncidentNotification.id (f n) = IncidentNotification.id n) →
  state_wf w → state_wf (edit_row org id f w).2.
Proof.
  intros Hf []. unfold edit_row, put, modify. simpl.
  split; simpl; try done.
  - rewrite fmap_update_first; [done|]. intros n _. apply Hf.
  - intros n [Hn|(x & Hx & _ & ->)]%elem_of_update_first; simpl; [auto|].
    rewrite Hf. auto.
Qed.

Lemma state_wf_record n w : state_wf w → state_wf (mem_record_notification n w).2.
Proof.
  intros []. unfold mem_record_notification, put, modify. simpl. split; simpl; try done.
  - intros i Hi. eapply incident_wf_mono; [| |by apply wf_incidents0]; lia.
  - intros e He. destruct (wf_event_past0 e He) as (k & ? & ?). exists k. split; [lia|done].
  - rewrite fmap_app. apply NoDup_app. split_and!; [done| |apply NoDup_singleton].
    intros id (m & -> & Hm)%list_elem_of_fmap Hin%list_elem_of_singleton.
    destruct (wf_rows_drawn0 m Hm) as (k & Hk & Heq). simpl in Hin.
    rewrite Heq in Hin. apply fresh_inj in Hin. lia.
  - intros m [Hm| ->%list_elem_of_singleton]%elem_of_app.
    + destruct (wf_rows_drawn0 m Hm) as (k & ? & ?). exists k. split; [lia|done].
    + exists (ids_drawn w). split; [lia|done].
Qed.

Lemma incident_wf_timer n m i policy level round next :
  OpsIncident.state i = IncidentState.Triggered → incident_wf n m i →
  incident_wf n m (OpsIncident.set_next_escalation_at next
    (OpsIncident.set_escalation_round round (OpsIncident.set_escalation_level level
       (OpsIncident.set_escalation_policy_id policy i)))).
Proof. intros Hs []. by split. Qed.

Lemma state_wf_edit_triggered id f w :
  (∀ i, OpsIncident.id (f i) = OpsIncident.id i) →
  (∀ i n m, OpsIncident.state i = IncidentState.Triggered → incident_wf n m i →
     incident_wf n m (f i)) →
  state_wf w → state_wf (edit_triggered id f w).2.
Proof.
  intros Hid Hf Hwf. rewrite edit_triggered_run.
  destruct (List.find _ _) eqn:Hfind; [|done]. simpl. apply state_wf_incidents; [done|..].
  - apply (map_update_first OpsIncident.id). auto.
  - intros i [Hi|(x & Hx & Htr & ->)]%elem_of_update_first; [by apply wf_incidents|].
    unfold triggered_id in Htr. bool_cases. apply Hf; [done|]. by apply wf_incidents.
Qed.

Lemma claim_ids now lease limit l :
  OpsIncident.id <$> (claim now lease limit l).2 = OpsIncident.id <$> l.
Proof.
  revert limit. induction l as [|i l IH]; intros limit; [done|]. cbn [claim].
  destruct (_ && _); [destruct limit as [|limit]; [done|]|];
    specialize (IH limit); destruct (claim now lease limit l); csimpl in *; by rewrite IH.
Qed.

(** Where the claimed list's rows come from. *)
Lemma elem_of_claim now lease limit l i :
  i ∈ (claim now lease limit l).2 →
  i ∈ l ∨ ∃ j, j ∈ l ∧ OpsIncident.state j = IncidentState.Triggered ∧
               i = OpsIncident.set_next_escalation_at (Some lease) j.
Proof.
  revert limit. induction l as [|j l IH]; intros limit; [by left|]. cbn [claim].
  destruct (bool_decide _ && _) eqn:Hdue; [destruct limit as [|limit]; [by left|]|];
    specialize (IH limit); destruct (claim now lease limit l) as [d l'];
    simpl in *; intros [->|Hi]%elem_of_cons; bool_cases.
  - right. exists j. set_solver.
  - destruct (IH Hi) as [?|(x & ? & ? & ?)]; [set_solver|right; exists x; set_solver].
  - set_solver.
  - destruct (IH Hi) as [?|(x & ? & ? & ?)]; [set_solver|right; exists x; set_solver].
Qed.

Lemma state_wf_claim now lease limit w :
  state_wf w → state_wf (with_incidents (claim now lease limit (incidents (state w))).2 w).
Proof.
  intros Hwf. apply state_wf_incidents; [done|apply claim_ids|].
  intros i [Hi|(j & Hj & Hs & ->)]%elem_of_claim; [by apply wf_incidents|].
  destruct (wf_incidents w Hwf j Hj). by split.
Qed.

Lemma state_wf_edit_log id edit kind actor w :
  (∀ i, OpsIncident.id (edit i) = OpsIncident.id i) →
  (∀ i n m, incident_wf n m i → incident_wf n m (edit i)) →
  state_wf w → state_wf (edit_and_log id edit kind actor w).2.
Proof.
  intros Hid Hedit Hwf. rewrite edit_and_log_run.
  destruct (found w id) as [inc|] eqn:Hf; [|done].
  destruct (found_In _ _ _ Hf) as [Hin Hinc]. cbv zeta. cbn [snd].
  assert (OpsIncident.id (OpsIncident.set_updated_at (now_of w) (edit inc)) = id) as Hsame
    by (etransitivity; [apply (Hid inc)|exact Hinc]).
  apply state_wf_log.
  - apply state_wf_written; [by apply state_wf_tick|done|].
    apply incident_wf_updated, Hedit. eapply incident_wf_mono; [| |by eapply found_wf];
      simpl; lia.
  - rewrite found_written, bool_decide_refl; [by eexists|done|by eexists].
Qed.

(** Each call keeps the state well-formed. *)
Lemma state_wf_after c w : state_wf w → state_wf (after w c).
Proof.
  intros Hwf. unfold after.
  assert (∀ id tr g, lifecycle_cmd c id tr g → state_wf (run c w).2) as Hlife.
  { intros id tr g Hc. destruct (lifecycle_run _ _ _ _ w Hc)
      as (kind & actor & note & mutate & out & w' & -> & Hm & Hr & _).
    by eapply state_wf_apply. }
  assert (∀ A (m : M t A), (∃ a, (m w).1 = Ok a) → state_wf (m w).2 →
    state_wf (quietly m w).2) as Hq.
  { intros A m [a Ha] Hm. destruct (m w) as [r w1] eqn:Hmw. simpl in *. subst r.
    by rewrite (quietly_run _ _ _ _ Hmw). }
  assert (∀ id edit kind actor, (∀ i, OpsIncident.id (edit i) = OpsIncident.id i) →
    (∀ i n m, incident_wf n m i → incident_wf n m (edit i)) →
    state_wf (quietly (edit_and_log id edit kind actor) w).2) as Hlog.
  { intros id edit kind actor Hid Hedit. apply Hq; [|by apply state_wf_edit_log].
    rewrite edit_and_log_run. case_match; eauto. }
  destruct c; try (by eapply Hlife; constructor); cbn [run].
  - destruct (declare_run new actor w) as (inc & Hrun & Hid & _ & Hinc).
    cbn [run] in Hrun. rewrite Hrun. simpl. apply state_wf_log; [by apply state_wf_add|].
    unfold found. simpl. destruct (find_is_Some (has_id (fresh (ids_drawn w)))
      (incidents (state w) ++ [inc]) inc) as [x ->]; [set_solver| |by eexists].
    by apply bool_decide_eq_true.
  - apply (Hlog id (OpsIncident.set_assigned_to assignee)); [done|]. by intros ??? []; split.
  - apply (Hlog id (OpsIncident.set_visibility IncidentVisibility.Public)); [done|]. by intros ??? []; split.
  - apply (Hlog id (OpsIncident.set_visibility IncidentVisibility.Internal)); [done|]. by intros ??? []; split.
  - simpl. apply Hq; rewrite add_note_run; destruct (found w id) eqn:Hf; simpl; eauto.
    apply state_wf_log; [done|]. rewrite Hf. by eexists.
  - simpl. apply Hq; rewrite append_event_run; destruct (found w id) eqn:Hf; simpl; eauto.
    apply state_wf_log; [done|]. rewrite Hf. by eexists.
  - apply Hq; [by eexists|]. by apply state_wf_record.
  - apply Hq; [by eexists|]. apply state_wf_edit_row; [|done]. intros i.
    unfold apply_outcome. by destruct (NotificationOutcome.provider_receipt o).
  - apply Hq; [by eexists|]. by apply state_wf_edit_row.
  - apply Hq; [by eexists|]. by apply state_wf_edit_row.
  - apply Hq; [simpl; unfold mem_begin_escalation; rewrite edit_triggered_run;
      case_match; eauto|].
    apply state_wf_edit_triggered; [done| |done]. intros i n m. by apply incident_wf_timer.
  - apply Hq; [simpl; unfold mem_record_escalation; rewrite edit_triggered_run;
      case_match; eauto|].
    apply state_wf_edit_triggered; [done| |done]. intros i n m Hs [].
    by split.
  - simpl. apply Hq; rewrite claim_run; simpl; [eauto|]. by apply state_wf_claim.
  - apply Hq; [by eexists|]. by destruct Hwf.
Qed.
End Commands.

(** ** The abstract machine *)

(** All an acknowledgement has to know of an incident: the phase it is in and
    which episode, counted by its reopens. *)
Record Life := { phase : IncidentState.t; episode : Z }.

Inductive AbsAnswer :=
| AUpdated (to : IncidentState.t)
| ANotFound
| AIllegal (e : TransitionError)
| AStale.

Definition abs_answer (o : LifecycleOutcome.t) : AbsAnswer :=
  match o with
  | LifecycleOutcome.Updated i => AUpdated (OpsIncident.state i)
  | LifecycleOutcome.NotFound => ANotFound
  | LifecycleOutcome.IllegalTransition e => AIllegal e
  | LifecycleOutcome.Stale => AStale
  end.

(** Where a lifecycle call takes an incident: an open one can be acknowledged,
    any can be resolved, only a resolved one can be reopened. *)
Definition spec_phase (tr : IncidentTransition) (p : IncidentState.t) : option IncidentState.t :=
  let resolved := bool_decide (p = IncidentState.Resolved) in
  match tr with
  | Acknowledge => if resolved then None else Some IncidentState.Acknowledged
  | Resolve | AutoResolve => Some IncidentState.Resolved
  | Reopen => if resolved then Some IncidentState.Triggered else None
  end.

(** One lifecycle call on one incident, as the contract has it. *)
Definition spec_transition (tr : IncidentTransition) (g : option Z) (l : option Life)
    : AbsAnswer * option Life :=
  match l with
  | None => (ANotFound, None)
  | Some x =>
      if match g with Some e => negb (episode x =? e) | None => false end then (AStale, l)
      else
        match spec_phase tr (phase x) with
        | None => (AIllegal {| err_from := phase x; err_transition := tr |}, l)
        | Some to =>
            (AUpdated to,
             Some {| phase := to;
                     episode := episode x + (if bool_decide (tr = Reopen) then 1 else 0) |})
        end
  end.

Lemma next_state_spec p tr :
  next_state p tr =
    match spec_phase tr p with
    | Some to => inl to
    | None => inr {| err_from := p; err_transition := tr |}
    end.
Proof. by destruct p, tr. Qed.

Lemma spec_transition_table tr g x :
  spec_transition tr g (Some x) =
    if match g with Some e => negb (episode x =? e) | None => false end then (AStale, Some x)
    else
      match next_state (phase x) tr with
      | inr err => (AIllegal err, Some x)
      | inl to =>
          (AUpdated to,
           Some {| phase := to;
                   episode := episode x + (if bool_decide (tr = Reopen) then 1 else 0) |})
      end.
Proof. unfold spec_transition. rewrite next_state_spec. by destruct (spec_phase _ _). Qed.

(** The abstraction: read off the stored row and the timeline. *)
Definition is_reopen (id : Uuid) (e : IncidentEvent.t) : bool :=
  bool_decide (IncidentEvent.incident_id e = id)
  && bool_decide (IncidentEvent.kind e = IncidentEventKind.Reopened).
Definition episodes (w : t) (id : Uuid) : Z := count (is_reopen id) (events (state w)).
Definition life (w : t) (id : Uuid) : option Life :=
  (λ i, {| phase := OpsIncident.state i; episode := episodes w id |}) <$> found w id.

Section Refinement.
Context `{EnvironmentLaws, UnicodeText}.

(** No event is in the future, so the dated count is the whole count. *)
Lemma reopens_before_now w id :
  state_wf w → reopens_before (state w) id (now_of w) = episodes w id.
Proof.
  intros Hwf. unfold reopens_before, episodes, count, is_reopen. do 2 f_equal.
  pose proof (wf_event_past w Hwf) as Hpast.
  induction (events (state w)) as [|e l IH]; simpl; [done|].
  rewrite IH by (intros; apply Hpast; by right).
  destruct (Hpast e) as (k & Hk & ->); [by left|].
  assert (clock k ≤ now_of w) as Hle by (apply clock_mono; lia).
  by rewrite (proj2 (Z.leb_le _ _) Hle), andb_true_r.
Qed.

Lemma life_tick k w id : life (tick k w) id = life w id.
Proof. done. Qed.

Definition next_episode (x : Life) : Life := {| phase := phase x; episode := episode x + 1 |}.

Lemma life_log id kind actor m w id' :
  life (log_event id kind actor m w) id' =
    (λ x, {| phase := phase x; episode := episode x +
      (if bool_decide (id = id') && bool_decide (kind = IncidentEventKind.Reopened)
       then 1 else 0) |}) <$> life w id'.
Proof.
  unfold life, found, episodes. simpl. rewrite count_app, count_cons.
  change (count (is_reopen id') []) with 0. unfold is_reopen at 2. simpl.
  destruct (List.find _ _); simpl; [|done]. do 2 f_equal. lia.
Qed.

Lemma life_written w id inc id' :
  OpsIncident.id inc = id → is_Some (found w id) →
  life (written id inc w) id' =
    if bool_decide (id' = id) then Some {| phase := OpsIncident.state inc; episode := episodes w id |}
    else life w id'.
Proof.
  intros Hid Hk. unfold life at 1. rewrite found_written by done.
  case_bool_decide; subst; simpl; [done|]. by unfold life, episodes, written.
Qed.

Lemma pinned_ok_episode w g id :
  state_wf w → pinned_ok g w id ↔
    match g with Some e => negb (episodes w id =? e) | None => false end = false.
Proof.
  intros Hwf. destruct g as [e|]; simpl; [|done].
  rewrite reopens_before_now by done. rewrite negb_false_iff. by rewrite Z.eqb_eq.
Qed.

Local Ltac on_life Hf :=
  unfold life; rewrite Hf; cbn -[spec_transition]; rewrite ?spec_transition_table; simpl.

Lemma refine_apply id tr kind actor note g mutate w out w' :
  sound_mutation tr mutate → (kind = IncidentEventKind.Reopened ↔ tr = Reopen) →
  state_wf w → apply_result id tr kind actor note g mutate w out w' →
  (abs_answer out, life w' id) = spec_transition tr g (life w id) ∧
  ∀ id', id' ≠ id → life w' id' = life w id'.
Proof.
  intros [_ Hid Hphase _] Hkind Hwf Hr.
  destruct Hr as [Hf|inc Hf Hp|inc err Hf Hp Hn|inc Hf Hp Hn|inc to inc' j Hf Hp Hn Hne w1 Hm].
  - split; [|done]. unfold life. by rewrite Hf.
  - split; [|done]. rewrite life_tick. on_life Hf.
    rewrite pinned_ok_episode in Hp by done.
    apply not_false_is_true in Hp. by rewrite Hp.
  - split; [|done]. rewrite life_tick. on_life Hf.
    apply pinned_ok_episode in Hp; [|done]. by rewrite Hp, Hn.
  - split; [|intros id' Hne; rewrite life_log, bool_decide_eq_false_2 by done; simpl].
    + rewrite life_log, bool_decide_refl. unfold life at 1.
      rewrite found_tick, Hf. simpl. on_life Hf.
      apply pinned_ok_episode in Hp; [|done]. rewrite Hp, Hn.
      do 4 f_equal. by rewrite (bool_decide_ext _ _ Hkind).
    + rewrite life_tick. destruct (life w id') as [[p e]|]; simpl; [|done].
      by rewrite Z.add_0_r.
  - assert (OpsIncident.id inc' = id) as Hid'.
    { rewrite (Hid _ _ _ _ Hm). by apply found_In in Hf as [_ ?]. }
    split.
    + rewrite life_log, bool_decide_refl. rewrite life_written, bool_decide_refl;
        [|done|by eexists]. simpl. on_life Hf.
      apply pinned_ok_episode in Hp; [|done]. rewrite Hp, Hn.
      rewrite (Hphase _ _ _ _ _ Hm Hn Hne).
      by rewrite (bool_decide_ext _ _ Hkind).
    + intros id' Hne'. rewrite life_log, bool_decide_eq_false_2 by done. simpl.
      rewrite life_written, bool_decide_eq_false_2; [|(done || by eexists)..].
      unfold w1. rewrite !life_tick. destruct (life w id') as [[p e]|]; simpl; [|done].
      by rewrite Z.add_0_r.
Qed.
End Refinement.

Section Theorems.
Context `{EnvironmentLaws, UnicodeText}.

Lemma reachable_wf w : reachable w → state_wf w.
Proof. induction 1; [apply state_wf_init | by apply state_wf_after]. Qed.

Lemma lifecycle_refined c id tr g w :
  lifecycle_cmd c id tr g → state_wf w →
  (abs_answer <$> answer w c, life (after w c) id) =
    (Some (spec_transition tr g (life w id)).1, (spec_transition tr g (life w id)).2) ∧
  ∀ id', id' ≠ id → life (after w c) id' = life w id'.
Proof.
  intros Hc Hwf.
  destruct (lifecycle_run _ _ _ _ w Hc) as (kind & actor & note & mutate & out & w' & Hrun &
    Hm & Hr & Hkind).
  destruct (refine_apply _ _ _ _ _ _ _ _ _ _ Hm Hkind Hwf Hr) as [Hspec Hother].
  unfold answer, after. rewrite Hrun. simpl. split; [|done].
  by rewrite <-Hspec.
Qed.

(** *** Commands outside the lifecycle *)
Lemma life_same_rows w w' :
  events (state w') = events (state w) →
  (∀ id, OpsIncident.state <$> found w' id = OpsIncident.state <$> found w id) →
  ∀ id, life w' id = life w id.
Proof.
  intros He Hf id. unfold life, episodes. rewrite He. specialize (Hf id).
  destruct (found w' id), (found w id); simpl in *; congruence.
Qed.

Lemma find_update_first_fmap {A B} (g : A → B) (p q : A → bool) f l :
  (∀ x, p x = true → q (f x) = q x ∧ g (f x) = g x) →
  g <$> List.find q (update_first p f l) = g <$> List.find q l.
Proof.
  intros Hf. induction l as [|x l IH]; simpl; [done|].
  destruct (p x) eqn:Hp; simpl.
  - destruct (Hf x Hp) as [-> Hg]. destruct (q x); simpl; congruence.
  - by destruct (q x).
Qed.

Lemma found_update_first w p f id :
  (∀ x, OpsIncident.id (f x) = OpsIncident.id x) →
  (∀ x, OpsIncident.state (f x) = OpsIncident.state x) →
  OpsIncident.state <$> found (with_incidents (update_first p f (incidents (state w))) w) id
  = OpsIncident.state <$> found w id.
Proof.
  intros Hid Hs. unfold found. simpl. apply find_update_first_fmap.
  intros x _. by rewrite Hid, Hs.
Qed.

Lemma found_claim now lease limit w id :
  OpsIncident.state <$>
    found (with_incidents (claim now lease limit (incidents (state w))).2 w) id
  = OpsIncident.state <$> found w id.
Proof.
  unfold found. simpl. generalize (incidents (state w)). intros l. revert limit.
  induction l as [|i l IH]; intros limit; [done|]. cbn [claim].
  destruct (_ && _); [destruct limit as [|limit]; [done|]|];
    specialize (IH limit); destruct (claim now lease limit l) as [d l']; simpl in *;
    by destruct (bool_decide _).
Qed.

(** Commands that are not lifecycle calls and open nothing; an appended event
    is not the reopen marker (the engine appends [Notified] and [Escalated]). *)
Definition leaves_life (c : Cmd) : bool :=
  match c with
  | CDeclare _ _ | CAcknowledge _ _ _ _ | CResolve _ _ _ | CAutoResolve _ | CReopen _ _ _ => false
  | CAppendEvent _ kind _ _ => negb (bool_decide (kind = IncidentEventKind.Reopened))
  | _ => true
  end.

Lemma life_log_other id kind actor m w id' :
  kind ≠ IncidentEventKind.Reopened → life (log_event id kind actor m w) id' = life w id'.
Proof.
  intros Hk. rewrite life_log, (bool_decide_eq_false_2 (kind = _)), andb_false_r by done.
  destruct (life w id') as [[p e]|]; simpl; [|done]. by rewrite Z.add_0_r.
Qed.

Lemma life_edit_and_log id edit kind actor w id' :
  kind ≠ IncidentEventKind.Reopened →
  (∀ i, OpsIncident.id (edit i) = OpsIncident.id i) →
  (∀ i, OpsIncident.state (edit i) = OpsIncident.state i) →
  life (quietly (edit_and_log id edit kind actor) w).2 id' = life w id'.
Proof.
  intros Hk Hid Hs.
  destruct (edit_and_log id edit kind actor w) as [r w1] eqn:Hrun.
  rewrite edit_and_log_run in Hrun. destruct (found w id) as [inc|] eqn:Hf.
  - injection Hrun as <- <-. erewrite quietly_run by (by rewrite edit_and_log_run, Hf).
    simpl. rewrite life_log_other by done. destruct (found_In _ _ _ Hf) as [_ Hinc].
    rewrite life_written; [|by etransitivity; [apply (Hid inc)|]|by eexists].
    case_bool_decide; [|done]. subst id'. unfold life. rewrite Hf. simpl. by rewrite Hs.
  - injection Hrun as <- <-. by erewrite quietly_run by (by rewrite edit_and_log_run, Hf).
Qed.

(** An event of any kind appended to a timeline by hand. *)
Lemma life_append id kind actor m w id' :
  life (after w (CAppendEvent id kind actor m)) id' =
    if bool_decide (id' = id) && bool_decide (kind = IncidentEventKind.Reopened)
    then next_episode <$> life w id' else life w id'.
Proof.
  unfold after. simpl. destruct (found w id) as [inc|] eqn:Hf.
  - erewrite quietly_run by (by rewrite append_event_run, Hf). cbn [snd]. rewrite life_log.
    rewrite (bool_decide_ext (id = id') (id' = id)) by done.
    destruct (_ && _), (life w id') as [[p e]|]; simpl; by rewrite ?Z.add_0_r.
  - erewrite quietly_run by (by rewrite append_event_run, Hf). cbn [snd].
    case_bool_decide; [subst|done]. unfold life. rewrite Hf. simpl. by case_bool_decide.
Qed.

Lemma life_unchanged c w id : leaves_life c = true → life (after w c) id = life w id.
Proof.
  intros Hl. unfold after. destruct c; try discriminate Hl; cbn [run].
  - apply (life_edit_and_log id0 (OpsIncident.set_assigned_to assignee));
      [by destruct assignee|done|done].
  - by apply (life_edit_and_log id0 (OpsIncident.set_visibility IncidentVisibility.Public)
      IncidentEventKind.Published actor).
  - by apply (life_edit_and_log id0 (OpsIncident.set_visibility IncidentVisibility.Internal)
      IncidentEventKind.Unpublished actor).
  - simpl. destruct (found w id0) as [inc|] eqn:Hf.
    + erewrite quietly_run by (by rewrite add_note_run, Hf). by apply life_log_other.
    + by erewrite quietly_run by (by rewrite add_note_run, Hf).
  - simpl in Hl |- *. bool_cases. destruct (found w id0) as [inc|] eqn:Hf.
    + erewrite quietly_run by (by rewrite append_event_run, Hf). by apply life_log_other.
    + by erewrite quietly_run by (by rewrite append_event_run, Hf).
  - done.
  - done.
  - done.
  - done.
  - simpl. unfold mem_begin_escalation.
    destruct (List.find (triggered_id id0) (incidents (state w))) eqn:Hf.
    + erewrite quietly_run by (by rewrite edit_triggered_run, Hf). simpl.
      apply life_same_rows; [done|]. intros id'. by apply found_update_first.
    + by erewrite quietly_run by (by rewrite edit_triggered_run, Hf).
  - simpl. unfold mem_record_escalation.
    destruct (List.find (triggered_id id0) (incidents (state w))) eqn:Hf.
    + erewrite quietly_run by (by rewrite edit_triggered_run, Hf). simpl.
      apply life_same_rows; [done|]. intros id'. by apply found_update_first.
    + by erewrite quietly_run by (by rewrite edit_triggered_run, Hf).
  - simpl. erewrite quietly_run by apply claim_run. simpl.
    apply life_same_rows; [done|]. intros id'. apply found_claim.
  - done.
Qed.

(** A declared incident starts its first episode, and no other one moves. *)
Lemma life_declare new actor w :
  state_wf w →
  life w (fresh (ids_drawn w)) = None ∧
  life (after w (CDeclare new actor)) (fresh (ids_drawn w))
    = Some {| phase := IncidentState.Triggered; episode := 0 |} ∧
  ∀ id, id ≠ fresh (ids_drawn w) → life (after w (CDeclare new actor)) id = life w id.
Proof.
  intros Hwf. unfold after.
  destruct (declare_run new actor w) as (inc & -> & Hid & Hs & _). cbn [snd].
  unfold after_declare.
  assert (found w (fresh (ids_drawn w)) = None) as Hnone.
  { destruct (found w _) as [i|] eqn:Hf; [|done]. destruct (found_In _ _ _ Hf) as [Hin Heq].
    destruct (wf_incidents w Hwf i Hin) as [(k & Hk & Hfr)].
    rewrite Hfr in Heq. apply fresh_inj in Heq. lia. }
  assert (∀ id, List.find (has_id id) (incidents (state w) ++ [inc]) =
    match found w id with Some i => Some i
    | None => if bool_decide (fresh (ids_drawn w) = id) then Some inc else None end) as Hfind.
  { intros id. unfold found. induction (incidents (state w)) as [|i l IH]; simpl.
    - by rewrite Hid.
    - destruct (bool_decide (OpsIncident.id i = id)); [done|exact IH]. }
  assert (episodes w (fresh (ids_drawn w)) = 0) as Hzero.
  { unfold episodes, count. rewrite lfilter_nil; [done|]. intros e He.
    unfold is_reopen. destruct (wf_event_incident w Hwf e He) as [i Hi].
    rewrite bool_decide_eq_false_2; [done|]. intros Heq. rewrite Heq in Hi. congruence. }
  split_and!.
  - unfold life. by rewrite Hnone.
  - rewrite life_log_other by done. unfold life, found. simpl.
    rewrite Hfind, Hnone, bool_decide_refl. simpl. rewrite Hs.
    unfold episodes in *. simpl. by rewrite Hzero.
  - intros id Hne. rewrite life_log_other by done. unfold life, found at 1. simpl.
    rewrite Hfind, (bool_decide_eq_false_2 (fresh _ = id)) by done.
    unfold episodes. simpl. by destruct (found w id).
Qed.

Lemma episode_grows c w id l l' :
  state_wf w → leaves_life c = true ∨ (∃ i tr g, lifecycle_cmd c i tr g) ∨
    (∃ new actor, c = CDeclare new actor) →
  life w id = Some l → life (after w c) id = Some l' → episode l ≤ episode l'.
Proof.
  intros Hwf Hc Hl Hl'. destruct Hc as [Hc|[(i & tr & g & Hc)|(new & actor & ->)]].
  - rewrite life_unchanged in Hl' by done. rewrite Hl in Hl'. by simplify_eq.
  - destruct (lifecycle_refined _ _ _ _ w Hc Hwf) as [Hspec Hother].
    destruct (decide (id = i)) as [->|Hne].
    + apply (f_equal snd) in Hspec. simpl in Hspec. rewrite Hl' in Hspec. rewrite Hl in Hspec.
      unfold spec_transition in Hspec.
      destruct (match g with Some e => negb (episode l =? e) | None => false end);
        [by simplify_eq/=|].
      destruct (spec_phase _ _); simplify_eq/=; [|lia]. case_bool_decide; lia.
    + rewrite Hother in Hl' by done. rewrite Hl in Hl'. by simplify_eq.
  - destruct (life_declare new actor w Hwf) as (Hnone & _ & Hother).
    rewrite Hother in Hl'; [rewrite Hl in Hl'; by simplify_eq|]. intros ->. congruence.
Qed.
End Theorems.

(** States reached by calls the program makes: no caller appends the reopen
    marker by hand. *)
Definition legit (c : Cmd) : Prop :=
  match c with
  | CAppendEvent _ kind _ _ => kind ≠ IncidentEventKind.Reopened
  | _ => True
  end.

Inductive later `{Environment, UnicodeText} : t → t → Prop :=
| later_refl w : later w w
| later_step w w1 c : later w w1 → legit c → later w (after w1 c).

Section MainTheorems.
Context `{EnvironmentLaws, UnicodeText}.

Lemma legit_cases c :
  legit c → leaves_life c = true ∨ (∃ i tr g, lifecycle_cmd c i tr g) ∨
    (∃ new actor, c = CDeclare new actor).
Proof.
  destruct c; simpl; intros Hl; eauto 6 using lifecycle_cmd.
  left. by apply negb_true_iff, bool_decide_eq_false.
Qed.

Lemma later_wf w w' : later w w' → state_wf w → state_wf w'.
Proof. induction 1; [done|]. intros. apply state_wf_after; auto. Qed.

Lemma life_kept c w id l :
  state_wf w → legit c → life w id = Some l → ∃ l', life (after w c) id = Some l'.
Proof.
  intros Hwf Hc%legit_cases Hl. destruct Hc as [Hc|[(i & tr & g & Hc)|(new & actor & ->)]].
  - rewrite life_unchanged by done. eauto.
  - destruct (lifecycle_refined _ _ _ _ w Hc Hwf) as [Hspec Hother].
    destruct (decide (id = i)) as [->|Hne]; [|rewrite Hother by done; eauto].
    apply (f_equal snd) in Hspec. simpl in Hspec. rewrite Hspec, Hl. unfold spec_transition.
    destruct (match g with Some e => negb (episode l =? e) | None => false end); simpl; eauto.
    destruct (spec_phase _ _); simpl; eauto.
  - destruct (life_declare new actor w Hwf) as (Hnone & _ & Hother).
    rewrite Hother; [eauto|]. intros ->. congruence.
Qed.

Lemma later_episode w w' id l :
  later w w' → state_wf w → life w id = Some l →
  ∃ l', life w' id = Some l' ∧ episode l ≤ episode l'.
Proof.
  induction 1 as [|w w1 c Hlater IH Hc]; intros Hwf Hl; [exists l; split; [done|lia]|].
  destruct (IH Hwf Hl) as (l1 & Hl1 & Hle). pose proof (later_wf _ _ Hlater Hwf) as Hwf1.
  destruct (life_kept c w1 id l1 Hwf1 Hc Hl1) as [l' Hl']. exists l'. split; [done|].
  pose proof (episode_grows c w1 id l1 l' Hwf1 (legit_cases c Hc) Hl1 Hl'). lia.
Qed.

Lemma stale_answer w id actor note e l :
  state_wf w → life w id = Some l → episode l ≠ e →
  answer w (CAcknowledge id actor note (Some e)) = Some LifecycleOutcome.Stale ∧
  state (after w (CAcknowledge id actor note (Some e))) = state w.
Proof.
  intros Hwf Hl Hne. unfold answer, after.
  destruct (lifecycle_run _ _ _ _ w (lc_ack id actor note (Some e)))
    as (kind & act & no & mutate & out & w' & -> & _ & Hr & _). simpl.
  assert (¬ pinned_ok (Some e) w id) as Hpin.
  { rewrite pinned_ok_episode by done. unfold life in Hl.
    destruct (found w id); simplify_eq/=. rewrite negb_false_iff, Z.eqb_eq. done. }
  unfold life in Hl. destruct (found w id) as [inc|] eqn:Hf; [|done].
  destruct Hr; first [by split | done | congruence].
Qed.
End MainTheorems.

(** C3: whatever calls were made, from the empty store, in any order, on a clock that
    never steps back and with identifiers that never repeat: incident,
    event and paging-row identifiers stay unique; an incident is resolved
    exactly when it has an end, unacknowledged while triggered, acknowledged
    with an instant, resolved before it can name a resolver, and armed with an
    escalation timer only while triggered; ends and acknowledgements do not
    precede starts; the timeline is in time order and belongs to incidents that
    exist. *)
Theorem reachable_state_wf `{EnvironmentLaws, UnicodeText} (w : t) :
  reachable w → state_wf w.
Proof. apply reachable_wf. Qed.

(** C1: the stored state machine refines the abstract one. On a clock that never steps
    back and with identifiers that never repeat, in a well-formed state: each lifecycle
    call (acknowledge, resolve, auto-resolve, reopen) answers and moves its incident's
    phase and episode as [spec_transition] says of the phase and episode read off the
    rows and the timeline, and moves no other incident; a declaration adds one
    incident, triggered, in episode zero; a reopen marker appended to a timeline by
    hand starts the next episode without moving the phase; and every other call, the
    appending of any other event among them, leaves every phase and episode alone. *)
Theorem lifecycle_refines_spec `{EnvironmentLaws, UnicodeText} (w : t) (c : Cmd) :
  state_wf w →
  (∀ id tr g, lifecycle_cmd c id tr g →
     abs_answer <$> answer w c = Some (spec_transition tr g (life w id)).1 ∧
     life (after w c) id = (spec_transition tr g (life w id)).2 ∧
     ∀ id', id' ≠ id → life (after w c) id' = life w id') ∧
  (∀ new actor, c = CDeclare new actor →
     ∃ id, life w id = None ∧
       life (after w c) id = Some {| phase := IncidentState.Triggered; episode := 0 |} ∧
       ∀ id', id' ≠ id → life (after w c) id' = life w id') ∧
  (∀ id actor m, c = CAppendEvent id IncidentEventKind.Reopened actor m →
     life (after w c) id = next_episode <$> life w id ∧
     ∀ id', id' ≠ id → life (after w c) id' = life w id') ∧
  ((∀ id tr g, ¬ lifecycle_cmd c id tr g) → (∀ new actor, c ≠ CDeclare new actor) →
   (∀ id actor m, c ≠ CAppendEvent id IncidentEventKind.Reopened actor m) →
     ∀ id, life (after w c) id = life w id).
Proof.
  intros Hwf. split_and!.
  - intros id tr g Hl. destruct (lifecycle_refined _ _ _ _ w Hl Hwf) as [Heq Hother].
    by injection Heq as -> ->.
  - intros new actor ->. exists (fresh (ids_drawn w)). by apply life_declare.
  - intros id actor m ->. setoid_rewrite life_append. rewrite !bool_decide_eq_true_2 by done. split; [done|].
    intros id' Hne. by rewrite bool_decide_eq_false_2.
  - intros Hnl Hnd Hna id. apply life_unchanged.
    destruct c; simpl in *; try done; [by destruct (Hnd new actor)|by edestruct Hnl; constructor..|].
    apply negb_true_iff, bool_decide_eq_false. intros ->. by edestruct Hna.
Qed.

(** C9: an acknowledgement pinned to an episode the incident has left is
    refused as stale and changes nothing stored: whatever legitimate calls are
    made before and after a successful reopen, a page from before it can never
    silence the outage that follows. *)
Theorem old_page_never_acknowledges `{EnvironmentLaws, UnicodeText} (w w1 w2 : t) (id : Uuid)
    (l : Life) (reopener actor : Actor.t) (note note' : option string) (inc : OpsIncident.t) :
  state_wf w → life w id = Some l → later w w1 →
  answer w1 (CReopen id reopener note) = Some (LifecycleOutcome.Updated inc) →
  later (after w1 (CReopen id reopener note)) w2 →
  answer w2 (CAcknowledge id actor note' (Some (episode l))) = Some LifecycleOutcome.Stale ∧
  state (after w2 (CAcknowledge id actor note' (Some (episode l)))) = state w2.
Proof.
  intros Hwf Hl Hl1 Hre Hl2.
  destruct (later_episode _ _ _ _ Hl1 Hwf Hl) as (l1 & Hlf1 & Hle1).
  pose proof (later_wf _ _ Hl1 Hwf) as Hwf1.
  destruct (lifecycle_refined _ _ _ _ w1 (lc_reopen id reopener note) Hwf1) as [Hspec _].
  rewrite Hre, Hlf1 in Hspec. unfold spec_transition in Hspec. simpl in Hspec.
  destruct (bool_decide (phase l1 = IncidentState.Resolved)); [|by simplify_eq].
  injection Hspec as _ Hre'.
  destruct (later_episode _ _ _ _ Hl2 (state_wf_after _ _ Hwf1) Hre') as (l2 & Hlf2 & Hle2).
  simpl in Hle2. eapply stale_answer; [|exact Hlf2|lia].
  eapply later_wf; [exact Hl2|]. by apply state_wf_after.
Qed.

(** ** The theorems on a concrete history *)
Module LifecycleWitness.
#[export] Existing Instances Concrete.env Concrete.env_laws plain_text.

Definition manual : NewManualIncident.t := {|
  NewManualIncident.title := Some "checkout down";
  NewManualIncident.severity := IncidentSeverity.Critical;
  NewManualIncident.urgency := IncidentUrgency.High;
  NewManualIncident.target_id := Some 7%N;
  NewManualIncident.visibility := IncidentVisibility.Internal;
  NewManualIncident.notify := true;
  NewManualIncident.counts_as_downtime := true |}.

(** Declared, then resolved by a user. *)
Definition declared : t := after init (CDeclare manual (Actor.User 9%N)).
Definition resolved : t := after declared (CResolve 1%N (Actor.User 9%N) None).
Definition reopened : t := after resolved (CReopen 1%N (Actor.User 9%N) None).

Lemma resolved_reachable : reachable resolved.
Proof. do 2 apply reach_step. apply reach_init. Qed.

Lemma reachable_state_wf_witness :
  state_wf resolved ∧ OpsIncident.state <$> incidents (state resolved) = [IncidentState.Resolved].
Proof.
  split; [|vm_compute; reflexivity].
  apply (reachable_state_wf resolved). apply reach_step, reach_step, reach_init.
Defined.

Lemma lifecycle_refines_spec_witness :
  let c := CReopen 1%N (Actor.User 9%N) None in
  abs_answer <$> answer resolved c = Some (AUpdated IncidentState.Triggered) ∧
  life (after resolved c) 1%N = Some {| phase := IncidentState.Triggered; episode := 1 |}.
Proof.
  destruct (lifecycle_refines_spec resolved (CReopen 1%N (Actor.User 9%N) None)) as [Hl _].
  - apply reachable_wf, resolved_reachable.
  - destruct (Hl 1%N Reopen None (lc_reopen _ _ _)) as (Ha & Hs & _).
    split; [rewrite Ha|rewrite Hs]; vm_compute; reflexivity.
Defined.

Lemma old_page_never_acknowledges_witness :
  life resolved 1%N = Some {| phase := IncidentState.Resolved; episode := 0 |} ∧
  answer reopened (CAcknowledge 1%N Actor.Link None (Some 0)) = Some LifecycleOutcome.Stale.
Proof.
  split; [vm_compute; reflexivity|].
  destruct (answer resolved (CReopen 1%N (Actor.User 9%N) None)) as [[inc| | |]|] eqn:Ha;
    try (vm_compute in Ha; discriminate Ha).
  apply (old_page_never_acknowledges resolved resolved reopened 1%N
    {| phase := IncidentState.Resolved; episode := 0 |} (Actor.User 9%N) Actor.Link None None inc).
  - apply reachable_wf, resolved_reachable.
  - vm_compute. reflexivity.
  - apply later_refl.
  - exact Ha.
  - unfold reopened. apply later_refl.
Defined.
End LifecycleWitness.
