(* ===== verification/IncidentQueries.v ===== *)
(** * The incident store's scans and reads

    Theorems on the in-memory store of [IncidentOpsMem]: the escalation lease,
    the retry queue, org scoping of the paging log, the releases of held pages,
    the timeline, the console's pages and tallies, and the report. *)

From S2P Require Import Prelude Text Domain Incident IncidentOps IncidentOpsMem IncidentLifecycle.

Import OpsWorld.

(** ** The lease *)
Definition due_now (now : DateTime) (i : OpsIncident.t) : bool :=
  bool_decide (OpsIncident.state i = IncidentState.Triggered)
  && is_some_and (λ x, x <=? now) (OpsIncident.next_escalation_at i).

Section Claim.
Context (now lease_to : DateTime).

Lemma claim_due limit l :
  (claim now lease_to limit l).1
  = take limit (DueIncident.of_incident <$> List.filter (due_now now) l).
Proof.
  revert limit. induction l as [|i l IH]; intros limit; [by destruct limit|].
  cbn [claim List.filter]. fold (due_now now i). destruct (due_now now i).
  - destruct limit as [|limit]; [done|]. specialize (IH limit).
    destruct (claim now lease_to limit l) as [d l']. csimpl in *. by rewrite IH.
  - specialize (IH limit). by destruct (claim now lease_to limit l) as [d l'].
Qed.

(** The rows left behind: claimed ones leased, the rest as they were. *)
Lemma claim_rows limit l :
  Forall2 (λ i j, j = i ∨ (due_now now i = true ∧
                  j = OpsIncident.set_next_escalation_at (Some lease_to) i))
    l (claim now lease_to limit l).2.
Proof.
  revert limit. induction l as [|i l IH]; intros limit; [constructor|].
  cbn [claim]. fold (due_now now i). destruct (due_now now i) eqn:Hd.
  - destruct limit as [|limit].
    + simpl. clear. constructor; [by left|]. induction l; constructor; auto.
    + specialize (IH limit). destruct (claim now lease_to limit l) as [d l'].
      constructor; [by right|done].
  - specialize (IH limit). destruct (claim now lease_to limit l) as [d l'].
    constructor; [by left|done].
Qed.

(** A claimed row is not due again before its lease runs out. *)
Lemma claim_leased limit l due id :
  due ∈ (claim now lease_to limit l).1 → DueIncident.id due = id →
  NoDup (OpsIncident.id <$> l) →
  ∀ j now2, j ∈ (claim now lease_to limit l).2 → OpsIncident.id j = id →
    now2 < lease_to → due_now now2 j = false.
Proof.
  revert limit. induction l as [|i l IH]; intros limit Hdue Hid Hnd j now2 Hj Hjid Hlt;
    [by apply not_elem_of_nil in Hj|].
  csimpl in Hnd. apply NoDup_cons in Hnd as [Hnew Hnd]. cbn [claim] in Hdue, Hj.
  fold (due_now now i) in Hdue, Hj.
  assert (∀ lim d, d ∈ (claim now lease_to lim l).1 → ∃ x, x ∈ l ∧
    DueIncident.id d = OpsIncident.id x) as Hfrom.
  { intros lim d. rewrite claim_due. intros (k & Hk)%list_elem_of_lookup.
    apply lookup_take_Some in Hk as [Hk%list_elem_of_lookup_2 _].
    apply list_elem_of_fmap in Hk as (x & -> & Hx). apply elem_of_lfilter in Hx as [Hx _].
    by exists x. }
  assert (∀ lim x, x ∈ (claim now lease_to lim l).2 → OpsIncident.id x ∈ OpsIncident.id <$> l)
    as Hrows.
  { intros lim x Hx. rewrite <-(claim_ids now lease_to lim l). by apply list_elem_of_fmap_2. }
  destruct (due_now now i) eqn:Hd; [destruct limit as [|limit]; [by apply not_elem_of_nil in Hdue|]|].
  - specialize (IH limit). specialize (Hfrom limit). specialize (Hrows limit).
    destruct (claim now lease_to limit l) as [ds l'].
    apply elem_of_cons in Hdue as [->|Hdue], Hj as [->|Hj]; simpl in *.
    + unfold due_now. simpl. rewrite (proj2 (Z.leb_gt _ _) Hlt). apply andb_false_r.
    + destruct Hnew. rewrite Hid, <-Hjid. by apply Hrows.
    + destruct (Hfrom _ Hdue) as (x & Hx & Heq). destruct Hnew.
      rewrite Hjid, <-Hid, Heq. by apply list_elem_of_fmap_2.
    + by eapply IH.
  - specialize (IH limit). specialize (Hfrom limit). specialize (Hrows limit).
    destruct (claim now lease_to limit l) as [ds l']. simpl in *.
    apply elem_of_cons in Hj as [->|Hj]; [|by eapply IH].
    destruct (Hfrom _ Hdue) as (x & Hx & Heq). destruct Hnew.
    rewrite Hjid, <-Hid, Heq. by apply list_elem_of_fmap_2.
Qed.
End Claim.

(** The escalation sweep's claim returns the first [limit] triggered
    incidents whose timer has run out and nothing else, moves only their timers,
    to the end of a lease of at least a second, and until then no other scan
    (of a second engine, say) is given any of them again. *)
Theorem escalation_claim_is_exclusive `{EnvironmentLaws} (w : t) (now now2 : DateTime)
    (limit limit2 : nat) (lease lease2 : Z) :
  state_wf w → now2 < now + seconds (Z.max lease 1) →
  ∃ due w1 due2 w2,
    mem_due_for_escalation now limit lease w = (Ok due, w1) ∧
    mem_due_for_escalation now2 limit2 lease2 w1 = (Ok due2, w2) ∧
    due = take limit (DueIncident.of_incident <$>
            List.filter (due_now now) (incidents (state w))) ∧
    Forall2 (λ i j, j = i ∨ (due_now now i = true ∧ j = OpsIncident.set_next_escalation_at
                               (Some (now + seconds (Z.max lease 1))) i))
      (incidents (state w)) (incidents (state w1)) ∧
    ∀ d d2, d ∈ due → d2 ∈ due2 → DueIncident.id d ≠ DueIncident.id d2.
Proof.
  intros Hwf Hlt. do 4 eexists. split; [apply claim_run|]. split; [apply claim_run|].
  split; [apply claim_due|]. split; [apply claim_rows|]. simpl.
  intros d d2 Hd Hd2 Heq. rewrite claim_due in Hd2. apply list_elem_of_lookup in Hd2 as [k Hk].
  apply lookup_take_Some in Hk as [Hk%list_elem_of_lookup_2 _].
  apply list_elem_of_fmap in Hk as (j & -> & Hj). apply elem_of_lfilter in Hj as [Hj Hdue].
  rewrite (claim_leased now _ limit _ d (DueIncident.id d) Hd eq_refl (wf_ids w Hwf) j now2 Hj)
    in Hdue; done.
Qed.

(** ** The paging log *)
Lemma edit_row_run org id f (w : t) :
  edit_row org id f w = (Ok tt, set_ops (set_notifications
    (update_first (own_row org id) (λ n, (n.1, f n.2)) (notifications (state w))) (state w)) w).
Proof. done. Qed.

(** Marking, acknowledging and clearing the receipt of a paging row change
    at most the row of that identifier in the calling organisation: with an
    identifier of another organisation's row nothing changes, the rows of every
    other organisation and incident are the same, and no row appears or goes. *)
Theorem paging_log_org_scoped `{Environment} (w : t) (org : OrgId) (id : Uuid)
    (f : IncidentNotification.t → IncidentNotification.t) :
  let rows := notifications (state w) in
  let rows' := notifications (state (edit_row org id f w).2) in
  length rows' = length rows ∧
  (∀ o, o ≠ org → List.filter (λ n, bool_decide (n.1 = o)) rows'
                  = List.filter (λ n, bool_decide (n.1 = o)) rows) ∧
  (Forall (λ n, own_row org id n = false) rows → rows' = rows) ∧
  (∀ k n', rows' !! k = Some n' → ∃ n, rows !! k = Some n ∧
     (n' = n ∨ (own_row org id n = true ∧ n' = (n.1, f n.2)))).
Proof.
  cbv zeta. rewrite edit_row_run. cbn [snd]. simpl.
  set (rows := notifications (state w)). split_and!.
  - apply length_update_first.
  - intros o Ho. induction rows as [|n l IH]; simpl; [done|].
    destruct (own_row org id n) eqn:Hn; simpl; [|by rewrite IH].
    unfold own_row in Hn. bool_cases. by rewrite bool_decide_eq_false_2 by congruence.
  - induction 1 as [|n l Hn _ IH]; simpl; [done|]. by rewrite Hn, IH.
  - induction rows as [|n l IH]; intros k n' Hk; simpl in *; [done|].
    destruct (own_row org id n) eqn:Hn, k as [|k]; simpl in *; simplify_eq; eauto.
Qed.

(** The retry sweep is given at most [limit] rows; each is a stored row
    that failed or is queued, under the attempt cap, with its backoff elapsed;
    a row marked with any other status is never given again, whatever the time
    and the cap. *)
Theorem pending_rows_are_due `{Environment} (w : t) (now : DateTime) (limit : nat)
    (cap : Z) :
  ∃ out, mem_pending_notifications now limit cap w = (Ok out, w) ∧
    (length out ≤ limit)%nat ∧
    (∀ p, p ∈ out → ∃ org n, (org, n) ∈ notifications (state w) ∧ p = pending_of org n ∧
       (IncidentNotification.status n = NotificationStatus.Failed
        ∨ IncidentNotification.status n = NotificationStatus.Queued) ∧
       IncidentNotification.attempt n < cap ∧
       ∀ x, IncidentNotification.next_attempt_at n = Some x → x ≤ now) ∧
    (∀ org id o, NotificationOutcome.status o ≠ NotificationStatus.Failed →
       NotificationOutcome.status o ≠ NotificationStatus.Queued →
       state_wf w → (∃ n, (org, n) ∈ notifications (state w) ∧ IncidentNotification.id n = id) →
       ∀ now' limit' cap' out', 
         (mem_pending_notifications now' limit' cap' (mem_mark_notification org id o w).2).1
           = Ok out' →
         ∀ p, p ∈ out' → PendingNotification.id p ≠ id).
Proof.
  assert (∀ l now limit cap p, p ∈ ((λ n : OrgId * IncidentNotification.t,
    pending_of n.1 n.2) <$> take limit (List.filter (λ n, is_pending now cap n.2) l)) →
    ∃ org n, (org, n) ∈ l ∧ p = pending_of org n ∧ is_pending now cap n = true) as Hin.
  { intros l now0 limit0 cap0 p ([org n] & -> & Hn)%list_elem_of_fmap.
    apply list_elem_of_lookup in Hn as [k Hk].
    apply lookup_take_Some in Hk as [Hk%list_elem_of_lookup_2 _].
    apply elem_of_lfilter in Hk as [? ?]. eauto. }
  eexists. split; [reflexivity|]. split_and!.
  - rewrite length_fmap, length_take. lia.
  - intros p (org & n & Hn & -> & Hp)%Hin. exists org, n. unfold is_pending in Hp. bool_cases.
    split_and!; [done..|]. intros x Hx.
    match goal with H : is_none_or _ _ = true |- _ => rewrite Hx in H; simpl in H end.
    by bool_cases.
  - intros org id o Hf Hqd Hwf (n0 & Hn0 & Hid0) now' limit' cap' out' Hrun p Hp Hpid.
    unfold mem_mark_notification in Hrun. rewrite edit_row_run in Hrun.
    cbn [snd] in Hrun. injection Hrun as <-.
    apply Hin in Hp as (org' & n & Hn & -> & Hpend).
    simpl in Hn.
    pose proof (wf_rows w Hwf) as Hnd.
    induction (notifications (state w)) as [|m l IH]; [by apply not_elem_of_nil in Hn|].
    csimpl in Hnd. apply NoDup_cons in Hnd as [Hnew Hnd]. simpl in Hn.
    destruct (own_row org id m) eqn:Hm.
    + apply elem_of_cons in Hn as [[= -> ->]|Hn].
      * unfold is_pending in Hpend. bool_cases.
        assert (IncidentNotification.status (apply_outcome o m.2) = NotificationOutcome.status o)
          as Hs by (unfold apply_outcome; by destruct (NotificationOutcome.provider_receipt o)).
        rewrite Hs in *. naive_solver.
      * apply Hnew. unfold own_row in Hm. bool_cases. simpl in Hpid.
        apply list_elem_of_fmap. exists (org', n). split; [simpl; congruence|done].
    + apply elem_of_cons in Hn0 as [<-|Hn0].
      { unfold own_row in Hm. simpl in Hm. by rewrite Hid0, !bool_decide_refl in Hm. }
      apply elem_of_cons in Hn as [<-|Hn]; [|by apply IH].
      apply Hnew. simpl in *. apply list_elem_of_fmap. exists (org, n0).
      split; [simpl; congruence|done].
Qed.

(** ** Held pages *)
Lemma marker_at_Some s transport id x :
  marker_at s transport id = Some x ↔
  (∃ n, n ∈ notifications s ∧ IncidentNotification.incident_id n.2 = id ∧
     IncidentNotification.channel_id n.2 = None ∧
     IncidentNotification.transport n.2 = transport ∧ IncidentNotification.created_at n.2 = x) ∧
  (∀ n, n ∈ notifications s → IncidentNotification.incident_id n.2 = id →
     IncidentNotification.channel_id n.2 = None →
     IncidentNotification.transport n.2 = transport → IncidentNotification.created_at n.2 ≤ x).
Proof.
  unfold marker_at. rewrite max_opt_Some, list_elem_of_fmap. split.
  - intros [(n & -> & Hn) Hall]. apply elem_of_lfilter in Hn as [Hn Hb]. bool_cases.
    split.
    + exists n. split_and!; try done; [|by apply String.eqb_eq].
      by destruct (IncidentNotification.channel_id n.2).
    + intros m Hm Hi Hc Ht. apply Hall, list_elem_of_fmap. exists m. split; [done|].
      apply elem_of_lfilter. split; [done|]. rewrite Hc. simpl.
      by rewrite bool_decide_eq_true_2, (proj2 (String.eqb_eq _ _) Ht).
  - intros [(n & Hn & Hi & Hc & Ht & <-) Hall]. split.
    + exists n. split; [done|]. apply elem_of_lfilter. split; [done|]. rewrite Hc. simpl.
      by rewrite bool_decide_eq_true_2, (proj2 (String.eqb_eq _ _) Ht).
    + intros y (m & -> & Hm)%list_elem_of_fmap. apply elem_of_lfilter in Hm as [Hm Hb].
      bool_cases. apply Hall; try done; [|by apply String.eqb_eq].
      by destruct (IncidentNotification.channel_id m.2).
Qed.

Lemma row_after_false s id x :
  row_after s id x = false ↔
  ∀ n, n ∈ notifications s → IncidentNotification.incident_id n.2 = id →
    IncidentNotification.created_at n.2 ≤ x.
Proof.
  unfold row_after. split.
  - intros Hf n Hn Hi. apply Z.nlt_ge. intros Hlt. apply not_true_iff_false in Hf. apply Hf.
    apply existsb_exists. exists n. rewrite <-list_elem_of_In. split; [done|].
    by rewrite bool_decide_eq_true_2, (proj2 (Z.ltb_lt _ _) Hlt).
  - intros Hall. apply not_true_iff_false. intros (n & Hn & Hb)%existsb_exists.
    rewrite <-list_elem_of_In in Hn. bool_cases. specialize (Hall n Hn). naive_solver lia.
Qed.

(** An incident whose newest paging row is a marker of [transport]. *)
Definition held_by (s : MemState) (transport : string) (id : Uuid) (x : DateTime) : Prop :=
  (∃ n, n ∈ notifications s ∧ IncidentNotification.incident_id n.2 = id ∧
     IncidentNotification.channel_id n.2 = None ∧
     IncidentNotification.transport n.2 = transport ∧ IncidentNotification.created_at n.2 = x) ∧
  ∀ n, n ∈ notifications s → IncidentNotification.incident_id n.2 = id →
    IncidentNotification.created_at n.2 ≤ x.

Lemma held_by_marker s transport id x :
  marker_at s transport id = Some x ∧ row_after s id x = false ↔ held_by s transport id x.
Proof.
  rewrite marker_at_Some, row_after_false. unfold held_by. naive_solver.
Qed.

Lemma elem_of_take_due limit (f : OpsIncident.t → DueIncident.t) l d :
  d ∈ f <$> take limit l → ∃ i, i ∈ l ∧ d = f i.
Proof.
  intros (i & -> & Hi)%list_elem_of_fmap. apply list_elem_of_lookup in Hi as [k Hk].
  apply lookup_take_Some in Hk as [Hk%list_elem_of_lookup_2 _]. eauto.
Qed.

(** The two releases hand back only incidents still triggered whose newest
    paging row of any kind is the hold's own marker: a damped hold at least
    [hold] old, or a maintenance hold of an incident with a monitor, oldest hold
    first. One page of any kind after the hold takes the incident out of both. *)
Theorem held_releases `{Environment} (w : t) (now : DateTime) (hold : Duration)
    (limit : nat) :
  ∃ flap maint,
    mem_due_for_flap_release now hold limit w = (Ok flap, w) ∧
    mem_due_for_maintenance_release limit w = (Ok maint, w) ∧
    (length flap ≤ limit)%nat ∧ (length maint ≤ limit)%nat ∧
    (∀ d, d ∈ flap → ∃ i x, i ∈ incidents (state w) ∧ d = DueIncident.of_incident i ∧
       OpsIncident.state i = IncidentState.Triggered ∧
       held_by (state w) "damped" (OpsIncident.id i) x ∧ x ≤ now - hold) ∧
    (∀ d, d ∈ maint → ∃ i x, i ∈ incidents (state w) ∧ d = DueIncident.of_incident i ∧
       OpsIncident.state i = IncidentState.Triggered ∧ is_Some (OpsIncident.target_id i) ∧
       held_by (state w) "maintenance" (OpsIncident.id i) x) ∧
    (∀ a b d e x y, maint !! a = Some d → maint !! b = Some e → (a < b)%nat →
       held_by (state w) "maintenance" (DueIncident.id d) x →
       held_by (state w) "maintenance" (DueIncident.id e) y → x ≤ y).
Proof.
  eexists _, _. split; [reflexivity|]. split; [reflexivity|]. split_and!.
  - rewrite length_fmap, length_take. lia.
  - rewrite length_fmap, length_take. lia.
  - intros d (i & Hi & ->)%elem_of_take_due. apply elem_of_lfilter in Hi as [Hi Hh].
    unfold flap_held in Hh. bool_cases.
    match goal with H : is_some_and _ _ = true |- _ =>
      apply is_some_and_true in H as (x & Hm & Hx) end.
    bool_cases. exists i, x. split_and!; try done. by apply held_by_marker.
  - intros d (i & Hi & ->)%elem_of_take_due. rewrite elem_of_sort_by_key in Hi.
    apply elem_of_lfilter in Hi as [Hi Hh]. unfold maintenance_held in Hh. bool_cases.
    match goal with H : is_some_and _ _ = true |- _ =>
      apply is_some_and_true in H as (x & Hm & Hx) end.
    bool_cases. exists i, x. split_and!; try done; [|by apply held_by_marker].
    destruct (OpsIncident.target_id i); [by eexists|done].
  - intros a b d e x y Ha Hb Hlt [Hx _]%held_by_marker [Hy _]%held_by_marker.
    rewrite list_lookup_fmap in Ha, Hb.
    destruct (take limit _ !! a) as [i|] eqn:Hi; simplify_eq/=.
    destruct (take limit _ !! b) as [j|] eqn:Hj; simplify_eq/=.
    apply lookup_take_Some in Hi as [Hi _], Hj as [Hj _].
    pose proof (sort_by_key_sorted (λ i, default 0 (marker_at (state w) "maintenance"
      (OpsIncident.id i))) (List.filter (maintenance_held (state w)) (incidents (state w)))) as Hs.
    pose proof (sorted_lookup _ _ a b i j Hs Hi Hj Hlt) as Hle. simpl in Hle.
    by rewrite Hx, Hy in Hle.
Qed.

(** ** The timeline *)
Lemma StronglySorted_lfilter {A} (R : A → A → Prop) p l :
  StronglySorted R l → StronglySorted R (List.filter p l).
Proof.
  induction 1 as [|x l Hl IH Hx]; simpl; [constructor|]. destruct (p x); [|done].
  constructor; [done|]. rewrite Forall_forall in *. intros y Hy.
  apply elem_of_lfilter in Hy as [Hy _]. auto.
Qed.

(** An incident's timeline is its own events, oldest first, in the order
    they were recorded, cut at 500; nothing of another incident is in it, and
    up to the cap nothing of its own is missing. *)
Theorem timeline_is_recorded_order `{EnvironmentLaws} (w : t) (id : Uuid) :
  state_wf w →
  let own := List.filter (λ e, bool_decide (IncidentEvent.incident_id e = id))
               (events (state w)) in
  ∃ out, mem_timeline id w = (Ok out, w) ∧ out = take 500 own ∧
    StronglySorted (λ a b, IncidentEvent.occurred_at a ≤ IncidentEvent.occurred_at b) out ∧
    ((length own ≤ 500)%nat → out = own).
Proof.
  intros Hwf own. eexists. split; [reflexivity|].
  assert (StronglySorted (λ a b, IncidentEvent.occurred_at a ≤ IncidentEvent.occurred_at b) own)
    as Hs by (apply StronglySorted_lfilter; apply (wf_event_order w Hwf)).
  rewrite sort_by_key_id by exact Hs. unfold INCIDENT_DETAIL_ROW_CAP. split; [done|]. split.
  - rewrite <-(take_drop 500 own) in Hs. by apply StronglySorted_app in Hs as (_ & Hs & _).
  - intros Hlen. by rewrite take_ge.
Qed.

(** ** The console *)
Section Console.
Context `{Environment, UnicodeText}.

Lemma sort_le_total s a b : sort_le s a b = false → sort_le s b a = true.
Proof.
  destruct s; simpl; intros Hf; [bool_cases; apply Z.leb_le; lia..|].
  rewrite orb_false_iff, andb_false_iff, Z.ltb_ge, Z.eqb_neq, Z.leb_gt in Hf.
  rewrite orb_true_iff, andb_true_iff, Z.ltb_lt, Z.eqb_eq, Z.leb_le. lia.
Qed.

Lemma sort_le_trans s a b c :
  sort_le s a b = true → sort_le s b c = true → sort_le s a c = true.
Proof.
  destruct s; simpl; intros Hab Hbc; [bool_cases; apply Z.leb_le; lia..|].
  rewrite orb_true_iff, andb_true_iff, Z.ltb_lt, Z.eqb_eq, Z.leb_le in *. lia.
Qed.

(** The console's whole list: what its pages are cut from. *)
Definition console (f : IncidentOpsFilter.t) (s : MemState) : list OpsIncident.t :=
  sort_by (sort_le (IncidentOpsFilter.sort f)) (List.filter (matches f) (incidents s)).

Definition page_of (f : IncidentOpsFilter.t) (n k : nat) : IncidentOpsFilter.t := {|
  IncidentOpsFilter.state := IncidentOpsFilter.state f;
  IncidentOpsFilter.severity := IncidentOpsFilter.severity f;
  IncidentOpsFilter.assignee := IncidentOpsFilter.assignee f;
  IncidentOpsFilter.query := IncidentOpsFilter.query f;
  IncidentOpsFilter.sort := IncidentOpsFilter.sort f;
  IncidentOpsFilter.limit := Some n;
  IncidentOpsFilter.offset := k * n |}.

Definition in_state (s : IncidentState.t) (f : IncidentOpsFilter.t) : IncidentOpsFilter.t := {|
  IncidentOpsFilter.state := Some s;
  IncidentOpsFilter.severity := IncidentOpsFilter.severity f;
  IncidentOpsFilter.assignee := IncidentOpsFilter.assignee f;
  IncidentOpsFilter.query := IncidentOpsFilter.query f;
  IncidentOpsFilter.sort := IncidentOpsFilter.sort f;
  IncidentOpsFilter.limit := IncidentOpsFilter.limit f;
  IncidentOpsFilter.offset := IncidentOpsFilter.offset f |}.

Lemma pages_concat {A} (l : list A) n m :
  (length l ≤ m * n)%nat →
  concat ((λ k, take n (drop (k * n) l)) <$> seq 0 m) = l.
Proof.
  assert (∀ k, concat ((λ k, take n (drop (k * n) l)) <$> seq k m)
               = take (m * n) (drop (k * n) l)) as Hgen.
  { induction m as [|m IH]; intros k; [by rewrite take_0|]. csimpl. rewrite IH.
    replace (S k * n)%nat with (k * n + n)%nat by lia. rewrite <-drop_drop.
    generalize (drop (k * n) l). intros l'. clear.
    rewrite <-(take_drop n l') at 3. rewrite take_app, length_take.
    destruct (Nat.le_gt_cases n (length l')).
    - rewrite Nat.min_l, take_take, Nat.min_r by lia. f_equal. f_equal. lia.
    - rewrite (drop_ge l') by lia. rewrite !take_nil, !app_nil_r, take_take.
      by rewrite Nat.min_r by lia. }
  intros Hlen. rewrite Hgen, drop_0. by apply take_ge.
Qed.

Lemma tally_fold l c s :
  IncidentStateCounts.for_state
    (fold_left (λ c i, IncidentStateCounts.tally c (OpsIncident.state i)) l c) (Some s)
  = IncidentStateCounts.for_state c (Some s)
    + count (λ i, bool_decide (OpsIncident.state i = s)) l.
Proof.
  revert c. induction l as [|i l IH]; intros c; cbn [fold_left].
  - unfold count. simpl. lia.
  - rewrite IH, count_cons. destruct (OpsIncident.state i), s; simpl; lia.
Qed.

Lemma count_lfilter {A} (p q : A → bool) l :
  count p (List.filter q l) = count (λ x, p x && q x) l.
Proof.
  induction l as [|x l IH]; [done|]. cbn [List.filter]. rewrite count_cons, <-IH.
  destruct (q x); [rewrite count_cons|]; destruct (p x); simpl; lia.
Qed.

Lemma count_ext {A} (p q : A → bool) l : (∀ x, p x = q x) → count p l = count q l.
Proof.
  intros Heq. induction l as [|x l IH]; [done|]. by rewrite !count_cons, IH, Heq.
Qed.
End Console.

(** The console adds up. Pages of [n] rows, taken until they cover the
    count, list every matching incident exactly once, in the chosen order, and
    nothing else; the count is their number; and each tab's tally is the count
    its own filter gives, the tabs summing to the count with no state chosen. *)
Theorem console_pages_add_up `{Environment, UnicodeText} (w : t) (org : OrgId)
    (f : IncidentOpsFilter.t) (n m : nat) :
  ∃ total tallies,
    count_incidents org f w = (Ok total, w) ∧
    counts_by_state org f w = (Ok tallies, w) ∧
    (∀ s, ∃ k, count_incidents org (in_state s f) w = (Ok k, w) ∧
       IncidentStateCounts.for_state tallies (Some s) = k) ∧
    (IncidentOpsFilter.state f = None → IncidentStateCounts.for_state tallies None = total) ∧
    (total ≤ Z.of_nat (m * n) →
       let pages := (λ k, list_incidents org (page_of f n k) w) <$> seq 0 m in
       ∃ rows, pages = (λ r, (Ok r, w)) <$> rows ∧
         concat rows ≡ₚ List.filter (matches f) (incidents (state w)) ∧
         StronglySorted (sort_le (IncidentOpsFilter.sort f)) (concat rows)).
Proof.
  exists (count (matches f) (incidents (state w))), (fold_left
    (λ c i, IncidentStateCounts.tally c (OpsIncident.state i))
    (List.filter (matches_but_state f) (incidents (state w))) IncidentStateCounts.zero).
  split; [reflexivity|]. split; [reflexivity|].
  assert (∀ s, IncidentStateCounts.for_state (fold_left
    (λ c i, IncidentStateCounts.tally c (OpsIncident.state i))
    (List.filter (matches_but_state f) (incidents (state w))) IncidentStateCounts.zero) (Some s)
    = count (λ i, bool_decide (OpsIncident.state i = s) && matches_but_state f i)
        (incidents (state w))) as Htab.
  { intros s. rewrite tally_fold, count_lfilter. by destruct s. }
  split_and!.
  - intros s. eexists. split; [reflexivity|]. apply Htab.
  - intros Hnone. change (IncidentStateCounts.for_state ?c None) with
      (IncidentStateCounts.for_state c (Some IncidentState.Triggered)
       + IncidentStateCounts.for_state c (Some IncidentState.Acknowledged)
       + IncidentStateCounts.for_state c (Some IncidentState.Resolved)).
    rewrite !Htab. clear Htab. induction (incidents (state w)) as [|i l IH]; [done|].
    rewrite !count_cons. unfold matches at 1. rewrite Hnone. simpl.
    destruct (matches_but_state f i), (OpsIncident.state i); simpl; lia.
  - intros Hcover pages.
    exists ((λ k, take n (drop (k * n) (console f (state w)))) <$> seq 0 m). split_and!.
    + unfold pages. rewrite <-list_fmap_compose. apply list_fmap_ext. intros i k _. reflexivity.
    + rewrite pages_concat; [apply sort_by_perm|]. unfold console. rewrite length_sort_by.
      unfold count in Hcover. lia.
    + rewrite pages_concat; [apply sort_by_sorted; [apply sort_le_total|apply sort_le_trans]|].
      unfold console. rewrite length_sort_by. unfold count in Hcover. lia.
Qed.

(** ** The report *)
Lemma sumZ_perm l1 l2 : l1 ≡ₚ l2 → sumZ l1 = sumZ l2.
Proof. unfold sumZ. induction 1; simpl; lia. Qed.

Section CountsBy.
Context {K A : Type} `{Countable K} (key_of : A → K).

Definition group_total {V} (m : gmap K (list V)) : Z :=
  sumZ ((λ kv : K * list V, Z.of_nat (length kv.2)) <$> map_to_list m).

Lemma group_total_push {V} (m : gmap K (list V)) k v :
  group_total (push_entry k v m) = group_total m + 1.
Proof.
  unfold group_total, push_entry. rewrite <-insert_delete_eq.
  rewrite (sumZ_perm _ _ (fmap_Permutation _ _ _ (map_to_list_insert (delete k m) k _
    (lookup_delete_eq m k)))). csimpl. rewrite length_app. simpl.
  destruct (m !! k) as [l|] eqn:Hk; simpl.
  - rewrite <-(insert_delete_id m k l Hk) at 2.
    rewrite (sumZ_perm _ _ (fmap_Permutation _ _ _ (map_to_list_insert (delete k m) k l
      (lookup_delete_eq m k)))). csimpl. unfold sumZ. simpl. lia.
  - rewrite delete_id by done. unfold sumZ. simpl. lia.
Qed.

Lemma group_total_by {V} (l : list (K * V)) :
  group_total (group_by l) = Z.of_nat (length l).
Proof.
  unfold group_by.
  enough (∀ m, group_total (fold_left (λ m kv, push_entry kv.1 kv.2 m) l m)
               = group_total m + Z.of_nat (length l)) as ->.
  { unfold group_total. rewrite map_to_list_empty. done. }
  induction l as [|kv l IH]; intros m; cbn [fold_left length]; [lia|].
  rewrite IH, group_total_push. lia.
Qed.

Lemma counts_by_total (l : list A) : sumZ (counts_by key_of l).*2 = Z.of_nat (length l).
Proof.
  unfold counts_by. rewrite <-list_fmap_compose.
  rewrite <-(length_fmap (λ a, (key_of a, a)) l), <-group_total_by. done.
Qed.

Lemma elem_of_counts_by (l : list A) k n :
  (k, n) ∈ counts_by key_of l →
  n = count (λ a, bool_decide (key_of a = k)) l ∧ 0 < n.
Proof.
  unfold counts_by. intros ([k' vs] & [= -> ->] & Hin)%list_elem_of_fmap.
  apply elem_of_map_to_list in Hin.
  pose proof (group_nonempty _ _ _ Hin) as Hne.
  pose proof (group_lookup ((λ a, (key_of a, a)) <$> l) k') as Hg. rewrite Hin in Hg.
  simpl in Hg. subst vs. split; [|destruct (_.*2); [done|simpl; lia]].
  rewrite length_fmap. clear. unfold count. f_equal. induction l as [|a l IH]; csimpl; [done|].
  destruct (bool_decide _); simpl; by rewrite IH.
Qed.

(** Every key that occurs is counted, once. *)
Lemma counts_by_complete (l : list A) a :
  a ∈ l → ∃ n, (key_of a, n) ∈ counts_by key_of l.
Proof.
  intros Ha. unfold counts_by. set (g := group_by _).
  destruct (g !! key_of a) as [vs|] eqn:Hg.
  - exists (Z.of_nat (length vs)). apply list_elem_of_fmap. exists (key_of a, vs).
    split; [done|]. by apply elem_of_map_to_list.
  - pose proof (group_lookup ((λ a, (key_of a, a)) <$> l) (key_of a)) as Hl.
    fold g in Hl. rewrite Hg in Hl. simpl in Hl. symmetry in Hl. apply fmap_nil_inv in Hl.
    exfalso. apply (not_elem_of_nil (key_of a, a)). rewrite <-Hl. apply elem_of_lfilter.
    split; [by apply (list_elem_of_fmap_2 (λ a, (key_of a, a)))|].
    by apply bool_decide_eq_true.
Qed.

Context (le : K → K → bool) (le_total : ∀ x y, le x y = false → le y x = true)
  (le_trans : ∀ x y z, le x y = true → le y z = true → le x z = true).

Lemma count_desc_sorted (l : list (K * Z)) :
  StronglySorted (count_desc le) (sort_by (count_desc le) l).
Proof.
  apply sort_by_sorted.
  - intros [k n] [k' n']. unfold count_desc. simpl.
    rewrite orb_false_iff, andb_false_iff, Z.ltb_ge, Z.eqb_neq.
    rewrite orb_true_iff, andb_true_iff, Z.ltb_lt, Z.eqb_eq.
    intros [? [?|Hle%le_total]]; [lia|]. destruct (Z.eq_dec n n'); [right|left; lia].
    split; [lia|done].
  - intros [k n] [k' n'] [k'' n'']. unfold count_desc. simpl.
    rewrite !orb_true_iff, !andb_true_iff, !Z.ltb_lt, !Z.eqb_eq.
    intros [?|[? ?]] [?|[? ?]]; [left; lia..|right; split; [lia|eauto]].
Qed.
End CountsBy.

Lemma count_desc_le {K} (le : K → K → bool) a b : count_desc le a b → b.2 ≤ a.2.
Proof.
  intros Hc%Is_true_true. unfold count_desc in Hc.
  rewrite orb_true_iff, andb_true_iff, Z.ltb_lt, Z.eqb_eq in Hc. lia.
Qed.

Lemma tally_by_total key_of (l : list OpsIncident.t) :
  sumZ (bucket_count <$> tally_by key_of l) = Z.of_nat (length l).
Proof.
  unfold tally_by. rewrite <-list_fmap_compose, <-(counts_by_total key_of l).
  apply sumZ_perm, fmap_Permutation, sort_by_perm.
Qed.

(** The report adds up over the incidents that started in its window. The
    severity buckets and the state buckets each sum to the total; automatic and
    human resolutions partition the resolved ones; the busiest-monitors list
    holds at most ten, busiest first, each with the exact number of its
    incidents, and no monitor left out of a list shorter than ten, nor any left
    out of a full list with more incidents than one in it. *)
Theorem metrics_add_up `{Environment, UnicodeText} (w : t) (org : OrgId) (window_days : Z) :
  let since := now_of w - clamp 1 365 window_days * seconds 86400 in
  let rows := List.filter (λ i, since <=? OpsIncident.started_at i) (incidents (state w)) in
  let hits m := count (λ t, bool_decide (t = m)) (omap OpsIncident.target_id rows) in
  ∃ r, metrics org window_days w = (Ok r, tick 1 w) ∧
    IncidentMetrics.total r = Z.of_nat (length rows) ∧
    sumZ (bucket_count <$> IncidentMetrics.by_severity r) = IncidentMetrics.total r ∧
    sumZ (bucket_count <$> IncidentMetrics.by_state r) = IncidentMetrics.total r ∧
    IncidentMetrics.auto_resolved r + IncidentMetrics.human_resolved r =
      count (λ i, bool_decide (OpsIncident.state i = IncidentState.Resolved)) rows ∧
    (length (IncidentMetrics.top_monitors r) ≤ 10)%nat ∧
    (∀ b, b ∈ IncidentMetrics.top_monitors r → mic_count b = hits (mic_target_id b)) ∧
    StronglySorted (λ a b, mic_count b ≤ mic_count a) (IncidentMetrics.top_monitors r) ∧
    (∀ i m, i ∈ rows → OpsIncident.target_id i = Some m →
       (∃ b, b ∈ IncidentMetrics.top_monitors r ∧ mic_target_id b = m) ∨
       (length (IncidentMetrics.top_monitors r) = 10%nat ∧
        ∀ b, b ∈ IncidentMetrics.top_monitors r → hits m ≤ mic_count b)).
Proof.
  cbv zeta. set (rows := List.filter _ _). exists (metrics_over window_days rows).
  split; [reflexivity|].
  set (cs := counts_by id (omap OpsIncident.target_id rows)).
  set (sorted := sort_by (count_desc N.leb) cs).
  assert (StronglySorted (count_desc N.leb) sorted) as Hs.
  { apply count_desc_sorted; intros *; rewrite ?N.leb_gt, ?N.leb_le; lia. }
  set (mk := λ kv : Uuid * Z, {| mic_target_id := kv.1; mic_count := kv.2 |}).
  assert (IncidentMetrics.top_monitors (metrics_over window_days rows)
          = mk <$> take 10 sorted) as Htop by (symmetry; apply fmap_take).
  rewrite Htop. split_and!.
  - done.
  - apply tally_by_total.
  - apply tally_by_total.
  - simpl. unfold count. clear. induction rows as [|i l IH]; [done|]. simpl.
    destruct (bool_decide _), (OpsIncident.resolved_by i); simpl in *; lia.
  - rewrite length_fmap, length_take. lia.
  - intros b ([m n] & -> & Hb)%list_elem_of_fmap. apply list_elem_of_lookup in Hb as [k Hk].
    apply lookup_take_Some in Hk as [Hk%list_elem_of_lookup_2 _].
    unfold sorted in Hk. rewrite elem_of_sort_by in Hk.
    by apply elem_of_counts_by in Hk as [-> _].
  - rewrite <-(take_drop 10 sorted) in Hs. apply StronglySorted_app in Hs as (_ & Hs & _).
    clear -Hs. induction Hs as [|kv l Hl IH Hkv]; csimpl; constructor; [done|].
    apply Forall_fmap. eapply Forall_impl; [exact Hkv|]. intros kv'. apply count_desc_le.
  - intros i m Hi Hm.
    destruct (counts_by_complete id (omap OpsIncident.target_id rows) m) as [n Hn].
    { apply list_elem_of_omap. eauto. }
    pose proof (proj1 (elem_of_counts_by _ _ _ _ Hn)) as Hhits. fold cs in Hn. simpl in Hhits.
    rewrite <-(elem_of_sort_by (count_desc N.leb)) in Hn. fold sorted in Hn.
    rewrite <-(take_drop 10 sorted), elem_of_app in Hn. destruct Hn as [Hn|Hn].
    + left. exists (mk (m, n)). split; [by apply list_elem_of_fmap_2|done].
    + right. split.
      * rewrite length_fmap, length_take. apply list_elem_of_lookup in Hn as [k Hk].
        apply lookup_lt_Some in Hk. rewrite length_drop in Hk. apply Nat.min_l.
        enough (∀ x, (k < x - 10 → 10 ≤ x)%nat) as Hx by exact (Hx _ Hk). lia.
      * intros b (kv & -> & Hkv)%list_elem_of_fmap.
        rewrite <-(take_drop 10 sorted) in Hs. apply StronglySorted_app in Hs as (Hs & _).
        specialize (Hs kv (m, n) Hkv Hn). apply count_desc_le in Hs. simpl in *. by subst n.
Qed.

(** ** The theorems on a concrete history *)
Module QueriesWitness.
Import LifecycleWitness.

(** Armed for a rung at once. *)
Definition armed : t := after declared (CBegin 1%N 5%N 1 (Some 0)).

Lemma armed_wf : state_wf armed.
Proof. apply reachable_wf. do 2 apply reach_step. apply reach_init. Qed.

Lemma escalation_claim_is_exclusive_witness :
  let '(r, w1) := mem_due_for_escalation (seconds 2000) 10 60 armed in
  DueIncident.id <$> match r with Ok l => l | Err _ => [] end = [1%N] ∧
  ∃ due w' due2 w2, mem_due_for_escalation (seconds 2000) 10 60 armed = (Ok due, w') ∧
    mem_due_for_escalation (seconds 2059) 10 60 w' = (Ok due2, w2) ∧
    ∀ d d2, d ∈ due → d2 ∈ due2 → DueIncident.id d ≠ DueIncident.id d2.
Proof.
  split; [vm_compute; reflexivity|].
  destruct (escalation_claim_is_exclusive armed (seconds 2000) (seconds 2059) 10 10 60 60)
    as (due & w' & due2 & w2 & H1 & H2 & _ & _ & H3).
  - apply armed_wf.
  - vm_compute. reflexivity.
  - exists due, w', due2, w2. split; [exact H1|]. split; [exact H2|exact H3].
Defined.

Lemma timeline_is_recorded_order_witness :
  ∃ out, mem_timeline 1%N resolved = (Ok out, resolved) ∧
    IncidentEvent.kind <$> out = [IncidentEventKind.Triggered; IncidentEventKind.Resolved].
Proof.
  destruct (timeline_is_recorded_order resolved 1%N (reachable_wf _ resolved_reachable))
    as (out & Hrun & Hout & _).
  exists out. split; [exact Hrun|]. rewrite Hout. vm_compute. reflexivity.
Defined.
End QueriesWitness.
