(* ===== verification/EscalationPolicy.v ===== *)
(** * Escalation policies

    src/domain/escalation_policy.rs: a policy's ladder of steps and [next_step],
    the pure decision of what to page next. The walk the engine makes of it is
    shown to page every rung, in order, as often as the policy says, and stop. *)

From S2P Require Import Prelude Domain.

Module EscalationTarget.
Record t := {
  id : Uuid;
  target_type : EscalationTargetType.t;
  user_id : option Uuid;
  schedule_id : option Uuid;
  channel_id : option Uuid;
}.
#[global] Instance eq_dec : EqDecision t.
Proof. solve_decision. Defined.
End EscalationTarget.

Module EscalationStep.
Record t := {
  id : Uuid;
  level : Z;
  delay_secs : Z;
  targets : list EscalationTarget.t;
}.
#[global] Instance eq_dec : EqDecision t.
Proof. solve_decision. Defined.
End EscalationStep.

Module EscalationPolicy.
Record t := {
  id : Uuid;
  name : string;
  description : option string;
  repeat_count : Z;
  steps : list EscalationStep.t;
  created_at : DateTime;
  updated_at : DateTime;
}.
End EscalationPolicy.

Module EscalationPolicySummary.
Record t := {
  id : Uuid;
  name : string;
  description : option string;
  repeat_count : Z;
  step_count : Z;
  created_at : DateTime;
  updated_at : DateTime;
}.
End EscalationPolicySummary.

Module NewEscalationTarget.
Record t := {
  target_type : EscalationTargetType.t;
  user_id : option Uuid;
  schedule_id : option Uuid;
  channel_id : option Uuid;
}.
End NewEscalationTarget.

Module NewEscalationStep.
Record t := { level : Z; delay_secs : Z; targets : list NewEscalationTarget.t }.
End NewEscalationStep.

Definition default_step_delay : Z := 300.

Module NewEscalationPolicy.
Record t := {
  name : string;
  description : option string;
  repeat_count : Z;
  steps : list NewEscalationStep.t;
}.
End NewEscalationPolicy.

Module EscalationDecision.
Inductive t :=
| Page (level round delay_secs : Z)
| Exhausted.
#[global] Instance eq_dec : EqDecision t.
Proof. solve_decision. Defined.
End EscalationDecision.

Definition next_step (steps : list EscalationStep.t) (repeat_count level round : Z)
    : EscalationDecision.t :=
  match steps with
  | [] => EscalationDecision.Exhausted
  | first :: _ =>
      match List.find (λ s, level <? EscalationStep.level s) steps with
      | Some next =>
          EscalationDecision.Page (EscalationStep.level next) round (EscalationStep.delay_secs next)
      | None =>
          if round <? repeat_count then
            EscalationDecision.Page (EscalationStep.level first) (round + 1)
              (EscalationStep.delay_secs first)
          else EscalationDecision.Exhausted
      end
  end.

(** ** The walk

    What the engine does with the decisions: page, wait, ask again from the rung
    just paged, until exhausted ([None] when the fuel runs out first). *)
Fixpoint walk (fuel : nat) (steps : list EscalationStep.t) (repeat_count level round : Z)
    : option (list (Z * Z)) :=
  match fuel with
  | O => None
  | S fuel =>
      match next_step steps repeat_count level round with
      | EscalationDecision.Exhausted => Some []
      | EscalationDecision.Page level round _ =>
          cons (level, round) <$> walk fuel steps repeat_count level round
      end
  end.

(** What a policy promises: every rung in order, once per round. *)
Definition ladder (steps : list EscalationStep.t) (round : Z) : list (Z * Z) :=
  (λ s, (EscalationStep.level s, round)) <$> steps.
Fixpoint rounds (steps : list EscalationStep.t) (n : nat) (round : Z) : list (Z * Z) :=
  match n with
  | O => []
  | S n => ladder steps round ++ rounds steps n (round + 1)
  end.

Lemma rounds_nil n round : rounds [] n round = [].
Proof. revert round. induction n as [|n IH]; intros round; [done|]. apply IH. Qed.

Definition ascending (steps : list EscalationStep.t) : Prop :=
  StronglySorted (λ a b, EscalationStep.level a < EscalationStep.level b) steps.

Section Walk.
Context (steps : list EscalationStep.t) (repeat_count : Z).
Context (Hasc : ascending steps) (Hne : steps ≠ []).

Lemma find_next pre s post level :
  steps = pre ++ s :: post →
  (∀ p, p ∈ pre → EscalationStep.level p ≤ level) → level < EscalationStep.level s →
  List.find (λ s, level <? EscalationStep.level s) steps = Some s.
Proof.
  intros -> Hpre Hs. clear Hasc Hne. induction pre as [|p pre IH]; simpl.
  - by rewrite (proj2 (Z.ltb_lt _ _) Hs).
  - rewrite (proj2 (Z.ltb_ge _ _)) by (apply Hpre; by left).
    apply IH. intros q Hq. apply Hpre. by right.
Qed.

Lemma find_none level :
  (∀ p, p ∈ steps → EscalationStep.level p ≤ level) →
  List.find (λ s, level <? EscalationStep.level s) steps = None.
Proof.
  clear Hasc Hne. induction steps as [|p l IH]; intros Hall; simpl; [done|].
  rewrite (proj2 (Z.ltb_ge _ _)) by (apply Hall; by left).
  apply IH. intros q Hq. apply Hall. by right.
Qed.

Lemma nonempty : ∃ first rest, steps = first :: rest.
Proof. destruct steps as [|f r]; [done|eauto]. Qed.

Lemma next_step_nonempty first rest level round :
  steps = first :: rest →
  next_step steps repeat_count level round =
    match List.find (λ s, level <? EscalationStep.level s) steps with
    | Some next => EscalationDecision.Page (EscalationStep.level next) round
                     (EscalationStep.delay_secs next)
    | None => if round <? repeat_count then
                EscalationDecision.Page (EscalationStep.level first) (round + 1)
                  (EscalationStep.delay_secs first)
              else EscalationDecision.Exhausted
    end.
Proof. by intros ->. Qed.

(** From any rung, the rest of the round, then the rounds that are left. *)
Lemma walk_rest n pre post level round fuel :
  steps = pre ++ post →
  (∀ p, p ∈ pre → EscalationStep.level p ≤ level) →
  (∀ p, p ∈ post → level < EscalationStep.level p) →
  n = Z.to_nat (repeat_count - round) →
  (length post + n * length steps < fuel)%nat →
  walk fuel steps repeat_count level round
    = Some (ladder post round ++ rounds steps n (round + 1)).
Proof.
  revert n pre post level round.
  induction fuel as [|fuel IH]; intros n pre post level round Heq Hpre Hpost Hn Hfuel; [lia|].
  destruct nonempty as (first & rest & Hsteps).
  cbn [walk]. rewrite (next_step_nonempty first rest) by done. destruct post as [|s post].
  - rewrite app_nil_r in Heq. rewrite find_none by (rewrite Heq; exact Hpre).
    destruct (round <? repeat_count) eqn:Hr; bool_cases.
    + destruct n as [|n]; [lia|].
      rewrite (IH n [first] rest (EscalationStep.level first) (round + 1)).
      * cbn [rounds]. rewrite Hsteps at 2. done.
      * by rewrite Hsteps.
      * intros p ->%list_elem_of_singleton. lia.
      * pose proof Hasc as Hs. rewrite Hsteps in Hs. apply StronglySorted_inv in Hs as [_ Hall].
        rewrite Forall_forall in Hall. exact Hall.
      * lia.
      * assert (length steps = S (length rest)) by (by rewrite Hsteps). simpl in *. lia.
    + destruct n as [|n]; [done|lia].
  - rewrite (find_next pre s post) by (done || apply Hpost; by left).
    rewrite (IH n (pre ++ [s]) post (EscalationStep.level s) round); [done|..].
    + by rewrite <-app_assoc.
    + intros p [Hp| ->%list_elem_of_singleton]%elem_of_app; [|lia].
      pose proof Hasc as Hs. unfold ascending in Hs. rewrite Heq in Hs.
      apply StronglySorted_app in Hs as (Hlt & _ & _).
      specialize (Hlt p s Hp ltac:(by left)). lia.
    + intros p Hp. pose proof Hasc as Hs. unfold ascending in Hs. rewrite Heq in Hs.
      apply StronglySorted_app in Hs as (_ & _ & Hs).
      apply StronglySorted_inv in Hs as [_ Hall]. rewrite Forall_forall in Hall. auto.
    + done.
    + simpl in Hfuel. lia.
Qed.
End Walk.

(** Walked from the start, a ladder of ascending positive levels pages
    every rung in order, once plus [repeat_count] times (once for a negative
    count), with the round number of each pass, and then is exhausted; the walk
    takes one decision per page and one more. An empty ladder pages nobody, and
    each decision's delay is the one of the rung it pages. *)
Theorem walk_pages_ladder (steps : list EscalationStep.t) (repeat_count : Z) :
  ascending steps → Forall (λ s, 0 < EscalationStep.level s) steps →
  let n := S (Z.to_nat repeat_count) in
  (∀ fuel, (n * length steps < fuel)%nat →
     walk fuel steps repeat_count 0 0 = Some (rounds steps n 0)) ∧
  length (rounds steps n 0) = (n * length steps)%nat ∧
  (∀ level round l r d,
     next_step steps repeat_count level round = EscalationDecision.Page l r d →
     ∃ s, s ∈ steps ∧ EscalationStep.level s = l ∧ EscalationStep.delay_secs s = d ∧
       round ≤ r ≤ Z.max round repeat_count).
Proof.
  intros Hasc Hpos n. split_and!.
  - intros fuel Hfuel. destruct (decide (steps = [])) as [->|Hne].
    + destruct fuel; [lia|]. by rewrite rounds_nil.
    + rewrite (walk_rest steps repeat_count Hasc Hne (Z.to_nat repeat_count) [] steps);
        [done|done|by intros ? ?%not_elem_of_nil| |f_equal; lia|unfold n in Hfuel; lia].
      by rewrite Forall_forall in Hpos.
  - unfold n. generalize (S (Z.to_nat repeat_count)) 0. intros m.
    induction m as [|m IH]; intros z; [done|]. cbn [rounds].
    rewrite length_app, IH. unfold ladder. rewrite length_fmap. lia.
  - intros level round l r d Hp. unfold next_step in Hp.
    destruct steps as [|first rest]; [done|].
    destruct (List.find _ _) as [s|] eqn:Hf.
    + apply find_Some_elem in Hf as [Hin _]. simplify_eq. exists s. split_and!; try done; lia.
    + destruct (round <? repeat_count) eqn:Hr; [|done]. bool_cases. simplify_eq.
      exists first. split_and!; try done; try lia. by left.
Qed.

Lemma walk_pages_ladder_witness :
  let mk l d := EscalationStep.Build_t (Z.to_N l) l d [] in
  walk 5 [mk 1 300; mk 2 600] 1 0 0 = Some [(1, 0); (2, 0); (1, 1); (2, 1)].
Proof.
  intros mk.
  destruct (walk_pages_ladder [mk 1 300; mk 2 600] 1) as [Hw _].
  - repeat constructor.
  - repeat constructor.
  - apply (Hw 5%nat). vm_compute. lia.
Defined.
