(* ===== verification/EscalationRules.v ===== *)
(** * The escalation engine's rules

    src/escalation/engine/rules.rs: the pure decisions of the engine, which are
    how long to wait before a retry, whether an outage is already being paged,
    who is owed the all-clear, when the flap damper acts and when a queued page
    has gone stale. *)

From S2P Require Import Prelude Text Domain Incident IncidentOps.

(** ** Secrets in errors

    [url::Url::parse] (scheme, host, explicit port) and the trimming of edges
    that are neither alphanumeric (by the Unicode tables) nor [:] nor [/]. *)
Class UrlParser := {
  parse_url : string → option (string * option string * option Z);
  trim_edges : string → string;
}.

Definition redact_token `{UrlParser} (tok : string) : string :=
  if negb (contains tok "://") then tok
  else
    match parse_url (trim_edges tok) with
    | Some (scheme, Some host, port) =>
        scheme +:+ "://" +:+ host +:+ default "" ((λ p, ":" +:+ show p) <$> port)
    | _ => "[redacted-url]"
    end.

Definition redact_secrets `{UrlParser} (msg : string) : string :=
  join " " (redact_token <$> split_whitespace msg).

(** ** Retries *)
Definition retry_delay_secs (attempt base_secs cap_secs max_attempts : Z) : option Z :=
  if wrap_i32 max_attempts <=? attempt then None
  else
    let base := Z.max base_secs 1 in
    let shift := Z.min (Z.max attempt 1 - 1) 16 in
    Some (Z.min (sat_mul_u64 base (Z.shiftl 1 shift)) (Z.max cap_secs base)).

Definition MAX_HINT_SECS : Z := 3600.
Definition RETRY_AFTER : string :=
  byte 34 ("retry_after" +:+ byte 34 ":").

Definition retry_after_hint (error : option string) : option Duration :=
  err ← error;
  rest ← after_first RETRY_AFTER err;
  secs ← parse_i64 (take_digits (trim_start rest));
  Some (seconds (Z.min secs MAX_HINT_SECS)).

(** ** Page targets (src/escalation/engine/mod.rs) *)
Record PageTarget := { pt_channel_id : Uuid; pt_user_id : option UserId }.
#[global] Instance PageTarget_eq_dec : EqDecision PageTarget.
Proof. solve_decision. Defined.

Definition channel_targets (channels : list Uuid) : list PageTarget :=
  (λ c, {| pt_channel_id := c; pt_user_id := None |}) <$> channels.

Definition push_target (out : list PageTarget) (channel_id : Uuid) (user_id : option UserId)
    : list PageTarget :=
  if existsb (λ t, bool_decide (pt_channel_id t = channel_id)) out then out
  else out ++ [{| pt_channel_id := channel_id; pt_user_id := user_id |}].

(** What one round of paging produced. *)
Record Paged := { recorded : Z; delivered : Z }.
Definition paged_default : Paged := {| recorded := 0; delivered := 0 |}.

(** ** The engine's bookkeeping rows *)
Definition DAMPED_TRANSPORT : string := "damped".
Definition RELEASED_TRANSPORT : string := "released".
Definition UNREACHABLE_TRANSPORT : string := "unreachable".
Definition MAINTENANCE_TRANSPORT : string := "maintenance".

Definition is_damper_marker (transport : string) : bool :=
  String.eqb transport DAMPED_TRANSPORT || String.eqb transport RELEASED_TRANSPORT
  || String.eqb transport UNREACHABLE_TRANSPORT || String.eqb transport MAINTENANCE_TRANSPORT.

Module Damper.
Inductive t := Apply | Skip.
#[global] Instance eq_dec : EqDecision t.
Proof. solve_decision. Defined.
End Damper.

Module FlapState.
Inductive t := Steady | Crossing | Damped.
#[global] Instance eq_dec : EqDecision t.
Proof. solve_decision. Defined.
End FlapState.

Definition flap_state (opens max : Z) : FlapState.t :=
  if max =? 0 then FlapState.Steady
  else if opens <? max then FlapState.Steady
  else if opens =? max then FlapState.Crossing
  else FlapState.Damped.

(** ** Episodes, read off the paging log *)
Definition open_side (r : NotificationReason.t) : bool :=
  match r with
  | NotificationReason.Opened | NotificationReason.Reopened | NotificationReason.Escalated => true
  | _ => false
  end.

Definition is_resolution (n : IncidentNotification.t) : bool :=
  bool_decide (IncidentNotification.reason n = NotificationReason.Resolved).

Definition open_episode_active (rows : list IncidentNotification.t) : bool :=
  let last_open :=
    max_opt (IncidentNotification.created_at <$>
      List.filter (λ n, open_side (IncidentNotification.reason n))
        (List.filter (λ n, negb (is_damper_marker (IncidentNotification.transport n))) rows)) in
  let last_resolved :=
    max_opt (IncidentNotification.created_at <$> List.filter is_resolution rows) in
  match last_open, last_resolved with
  | Some o, Some r => r <? o
  | Some _, None => true
  | _, _ => false
  end.

Definition to_channel (cid : Uuid) (n : IncidentNotification.t) : bool :=
  bool_decide (IncidentNotification.channel_id n = Some cid).

(** The body of the loop for a channel seen for the first time. *)
Definition owed_all_clear (rows : list IncidentNotification.t) (cid : Uuid) : bool :=
  let last_open :=
    max_opt (IncidentNotification.created_at <$>
      List.filter (λ n, to_channel cid n && open_side (IncidentNotification.reason n)) rows) in
  match last_open with
  | None => false
  | Some open_at =>
      negb (existsb (λ n, to_channel cid n && is_resolution n
                          && (open_at <=? IncidentNotification.created_at n)) rows)
  end.

Definition resolvable_channels (rows : list IncidentNotification.t) : list Uuid :=
  (fold_left (λ '(out, seen) cid,
     if bool_decide (cid ∈ seen) then (out, seen)
     else (if owed_all_clear rows cid then out ++ [cid] else out, seen ++ [cid]))
   (omap IncidentNotification.channel_id rows) ([], [])).1.

Definition reason_is_stale (reason : NotificationReason.t) (state : IncidentState.t) : bool :=
  match reason with
  | NotificationReason.Opened | NotificationReason.Reopened | NotificationReason.Escalated =>
      bool_decide (state = IncidentState.Resolved)
  | NotificationReason.Reminder => negb (bool_decide (state = IncidentState.Triggered))
  | NotificationReason.Resolved => negb (bool_decide (state = IncidentState.Resolved))
  | NotificationReason.NoData | NotificationReason.DataResumed => false
  end.

(** ** Facts on retries *)
Lemma shiftl_1 n : 0 ≤ n → Z.shiftl 1 n = 2 ^ n.
Proof. intros. rewrite Z.shiftl_mul_pow2 by done. lia. Qed.

Lemma wrap_i32_small x : 0 ≤ x ≤ I32_MAX → wrap_i32 x = x.
Proof.
  unfold wrap_i32, I32_MAX. intros. rewrite Z.mod_small; lia.
Qed.

(** The delay without the machine's width: doubling, up to the cap. *)
Definition backoff (attempt base cap : Z) : Z :=
  Z.min (base * 2 ^ Z.min (attempt - 1) 16) (Z.max cap base).

Lemma retry_delay_backoff attempt base cap max :
  1 ≤ attempt → 0 ≤ base ≤ U64_MAX → cap ≤ U64_MAX → 0 ≤ max ≤ I32_MAX →
  retry_delay_secs attempt base cap max =
    if max <=? attempt then None else Some (backoff attempt (Z.max base 1) cap).
Proof.
  intros Ha Hb Hc Hm. unfold retry_delay_secs. rewrite wrap_i32_small by done.
  destruct (max <=? attempt); [done|]. unfold backoff, sat_mul_u64.
  rewrite (Z.max_l attempt 1) by lia. rewrite shiftl_1 by lia.
  f_equal. unfold U64_MAX in *. lia.
Qed.

Lemma backoff_step attempt base cap :
  1 ≤ attempt → 1 ≤ base →
  base ≤ backoff attempt base cap ≤ Z.max cap base ∧
  backoff attempt base cap ≤ backoff (attempt + 1) base cap ≤ 2 * backoff attempt base cap.
Proof.
  intros Ha Hb. unfold backoff.
  assert (1 ≤ 2 ^ Z.min (attempt - 1) 16) as Hpos by (apply (Z.pow_le_mono_r 2 0); lia).
  assert (2 ^ Z.min (attempt - 1) 16 ≤ 2 ^ Z.min (attempt + 1 - 1) 16
          ≤ 2 * 2 ^ Z.min (attempt - 1) 16) as Hstep.
  { split; [apply Z.pow_le_mono_r; lia|].
    rewrite <-Z.pow_succ_r by lia. apply Z.pow_le_mono_r; lia. }
  revert Hpos Hstep. generalize (2 ^ Z.min (attempt + 1 - 1) 16) (2 ^ Z.min (attempt - 1) 16).
  intros q p Hp [Hq1 Hq2].
  assert (base ≤ base * p ∧ base * p ≤ base * q ∧ base * q ≤ 2 * (base * p)) as Hprod by nia.
  revert Hprod. generalize (base * p) (base * q). lia.
Qed.

(** A failed page is retried while its attempt is under the cap and never
    at or past it. The wait is the base doubled per attempt (sixteen times at
    most) up to the larger of the cap and the base: at least the base, never
    shorter than the wait before it and never more than twice that. No width
    of the arithmetic overflows. *)
Theorem retry_delay_doubles (attempt base cap max : Z) :
  1 ≤ attempt → 0 ≤ base ≤ U64_MAX → 0 ≤ cap ≤ U64_MAX → 0 ≤ max ≤ I32_MAX →
  (retry_delay_secs attempt base cap max = None ↔ max ≤ attempt) ∧
  ∀ s, retry_delay_secs attempt base cap max = Some s →
    s = Z.min (Z.max base 1 * 2 ^ Z.min (attempt - 1) 16) (Z.max cap (Z.max base 1)) ∧
    Z.max base 1 ≤ s ≤ Z.max cap (Z.max base 1) ∧
    ∀ s', retry_delay_secs (attempt + 1) base cap max = Some s' → s ≤ s' ≤ 2 * s.
Proof.
  intros Ha Hb Hc Hm. rewrite !retry_delay_backoff by lia.
  destruct (max <=? attempt) eqn:Hle; bool_cases; [split; [split; [lia|done]|done]|].
  split; [split; [done|lia]|]. intros s [= <-].
  pose proof (backoff_step attempt (Z.max base 1) cap Ha ltac:(lia)) as [Hrange Hstep].
  split_and!; [done|lia|lia|]. intros s' Hs'.
  destruct (max <=? attempt + 1); [done|]. by injection Hs' as <-.
Qed.

Lemma retry_delay_doubles_witness :
  (retry_delay_secs 3 30 3600 5 = None ↔ 5 ≤ 3) ∧
  ∀ s, retry_delay_secs 3 30 3600 5 = Some s →
    s = 120 ∧ 30 ≤ s ≤ 3600 ∧ ∀ s', retry_delay_secs 4 30 3600 5 = Some s' → s ≤ s' ≤ 2 * s.
Proof.
  apply (retry_delay_doubles 3 30 3600 5); unfold U64_MAX, I32_MAX; lia.
Defined.

(** ** Facts on the hint *)
Lemma take_digits_range s : Forall (λ d, 0 ≤ d ≤ 9) (take_digits s).
Proof.
  induction s as [|a s IH]; simpl; [constructor|].
  destruct (is_ascii_digit a) eqn:Hd; [|constructor]. constructor; [|done].
  unfold is_ascii_digit, digit_value in *.
  apply andb_prop in Hd as [?%Nat.leb_le ?%Nat.leb_le]. lia.
Qed.

Lemma decimal_nonneg ds : Forall (λ d, 0 ≤ d ≤ 9) ds → 0 ≤ decimal ds.
Proof.
  unfold decimal. intros H. assert (0 ≤ 0) as Hacc by lia. revert Hacc. generalize 0 at 2 4.
  induction H as [|d ds Hd _ IH]; intros acc Hacc; simpl; [done|]. apply IH. lia.
Qed.

(** What a transport says before, in and after a well-formed hint. *)
Lemma after_first_here needle rest : after_first needle (needle +:+ rest) = Some rest.
Proof.
  assert (String.prefix needle (needle +:+ rest) = true ∧
          drop_chars (String.length needle) (needle +:+ rest) = rest) as [Hp Hd].
  { induction needle as [|a n IH]; simpl; [by destruct rest|].
    destruct IH as [IHp IHd]. destruct (Ascii.ascii_dec a a); [done|congruence]. }
  destruct needle as [|a n]; [by destruct rest|].
  change (String a n +:+ rest) with (String a (n +:+ rest)) in *.
  cbn [after_first]. by rewrite Hp, Hd.
Qed.

(** A transport's own retry hint, when one is read, is between zero and an
    hour whatever the body says; a body naming [retry_after] with a decimal
    that fits an [i64] is read as that many seconds, cut at the hour, and one
    that does not fit, or has no digits, is no hint. *)
Theorem retry_after_hint_bounds (error : option string) :
  (∀ d, retry_after_hint error = Some d → 0 ≤ d ≤ seconds MAX_HINT_SECS) ∧
  ∀ rest, error = Some (RETRY_AFTER +:+ rest) →
    let ds := take_digits (trim_start rest) in
    retry_after_hint error =
      if bool_decide (ds = []) || (I64_MAX <? decimal ds) then None
      else Some (seconds (Z.min (decimal ds) 3600)).
Proof.
  assert (∀ ds, parse_i64 ds = if bool_decide (ds = []) || (I64_MAX <? decimal ds) then None
                               else Some (decimal ds)) as Hparse.
  { intros ds. unfold parse_i64. rewrite Z.leb_antisym. destruct ds as [|d ds]; [done|].
    rewrite bool_decide_eq_false_2 by done. simpl. by destruct (I64_MAX <? _). }
  split_and!.
  - intros d. unfold retry_after_hint. destruct error as [err|]; [|done]. simpl.
    destruct (after_first _ err) as [rest|]; [|done]. simpl. rewrite Hparse.
    destruct (_ || _); [done|]. simpl. intros [= <-].
    pose proof (decimal_nonneg _ (take_digits_range (trim_start rest))).
    unfold seconds, NANOS, MAX_HINT_SECS. lia.
  - intros rest -> ds. unfold retry_after_hint. cbn [mbind option_bind].
    rewrite after_first_here. cbn [mbind option_bind]. rewrite Hparse. unfold ds. by destruct (_ || _).
Qed.

Example discord_hint :
  retry_after_hint (Some (byte 123 (RETRY_AFTER +:+ " 0.5, more"))) = Some 0.
Proof. vm_compute. reflexivity. Qed.

(** ** Facts on page targets *)
Lemma push_target_channels out c u :
  pt_channel_id <$> push_target out c u =
    if bool_decide (c ∈ pt_channel_id <$> out) then pt_channel_id <$> out
    else (pt_channel_id <$> out) ++ [c].
Proof.
  unfold push_target. assert (existsb (λ t, bool_decide (pt_channel_id t = c)) out =
    bool_decide (c ∈ pt_channel_id <$> out)) as ->.
  { induction out as [|t out IH]; [done|]. simpl. rewrite IH.
    repeat case_bool_decide; set_solver. }
  case_bool_decide; [done|]. by rewrite fmap_app.
Qed.

Lemma push_target_NoDup out c u :
  NoDup (pt_channel_id <$> out) → NoDup (pt_channel_id <$> push_target out c u).
Proof.
  intros Hnd. rewrite push_target_channels. case_bool_decide; [done|].
  apply NoDup_app. split_and!; [done|set_solver|by apply NoDup_singleton].
Qed.

Lemma elem_of_push_target out c u t :
  t ∈ push_target out c u →
  t ∈ out ∨ (t = {| pt_channel_id := c; pt_user_id := u |} ∧ c ∉ pt_channel_id <$> out).
Proof.
  unfold push_target. destruct (existsb _ _) eqn:He; [by left|].
  rewrite elem_of_app, list_elem_of_singleton. intros [?| ->]; [by left|]. right. split; [done|].
  intros (t' & -> & Ht')%list_elem_of_fmap. apply not_true_iff_false in He. apply He.
  apply existsb_exists. exists t'. split; [by apply list_elem_of_In|]. by apply bool_decide_eq_true.
Qed.

(** ** Facts on episodes *)

(** A page that opened or carried on an outage; markers are not pages. *)
Definition open_page (n : IncidentNotification.t) : Prop :=
  open_side (IncidentNotification.reason n) = true ∧
  is_damper_marker (IncidentNotification.transport n) = false.
Definition all_clear (n : IncidentNotification.t) : Prop :=
  IncidentNotification.reason n = NotificationReason.Resolved.

Lemma max_created (p : IncidentNotification.t → bool) rows :
  match max_opt (IncidentNotification.created_at <$> List.filter p rows) with
  | None => ∀ n, n ∈ rows → p n = false
  | Some x =>
      (∃ n, n ∈ rows ∧ p n = true ∧ IncidentNotification.created_at n = x) ∧
      ∀ n, n ∈ rows → p n = true → IncidentNotification.created_at n ≤ x
  end.
Proof.
  destruct (max_opt _) as [x|] eqn:Hm.
  - apply max_opt_Some in Hm as [(n & -> & Hn)%list_elem_of_fmap Hmax].
    apply elem_of_lfilter in Hn as [Hn Hp]. split; [by exists n|].
    intros m Hm Hpm. apply Hmax, list_elem_of_fmap. exists m. split; [done|].
    by apply elem_of_lfilter.
  - apply max_opt_None, fmap_nil_inv in Hm. intros n Hn.
    destruct (p n) eqn:Hp; [|done]. exfalso.
    assert (n ∈ List.filter p rows) as Hin by (by apply elem_of_lfilter).
    rewrite Hm in Hin. by apply elem_of_nil in Hin.
Qed.

Lemma is_resolution_true n : is_resolution n = true ↔ all_clear n.
Proof. apply bool_decide_eq_true. Qed.

Lemma open_episode_spec rows :
  open_episode_active rows = true ↔
  ∃ n, n ∈ rows ∧ open_page n ∧
    ∀ m, m ∈ rows → all_clear m →
      IncidentNotification.created_at m < IncidentNotification.created_at n.
Proof.
  unfold open_episode_active. rewrite lfilter_lfilter.
  match goal with |- context [List.filter ?q rows] =>
    match q with (λ _, _) => pose proof (max_created q rows) as Ho end end.
  pose proof (max_created is_resolution rows) as Hr.
  assert (∀ n, open_page n ↔ negb (is_damper_marker (IncidentNotification.transport n))
     && open_side (IncidentNotification.reason n) = true) as Hop.
  { intros n. unfold open_page. destruct (is_damper_marker _), (open_side _); naive_solver. }
  destruct (max_opt _) as [o|].
  2:{ split; [done|]. intros (n & Hn & Hp%Hop & _). specialize (Ho n Hn). simpl in Ho. congruence. }
  destruct Ho as [(n & Hn & Hp & <-) Hmax].
  destruct (max_opt _) as [r|].
  - destruct Hr as [(m & Hm & Hpm%is_resolution_true & <-) Hrmax]. rewrite Z.ltb_lt. split.
    + intros Hlt. exists n. split_and!; [done|by apply Hop|]. intros m' Hm' Hc.
      apply is_resolution_true in Hc. specialize (Hrmax m' Hm' Hc). lia.
    + intros (n' & Hn' & Hp' & Hall). specialize (Hall m Hm Hpm).
      apply Hop in Hp'. specialize (Hmax n' Hn' Hp'). lia.
  - split; [|done]. intros _. exists n. split_and!; [done|by apply Hop|].
    intros m Hm Hc%is_resolution_true. specialize (Hr m Hm). congruence.
Qed.

Lemma owed_all_clear_spec rows c :
  owed_all_clear rows c = true ↔
  ∃ n, n ∈ rows ∧ IncidentNotification.channel_id n = Some c ∧
    open_side (IncidentNotification.reason n) = true ∧
    ∀ m, m ∈ rows → IncidentNotification.channel_id m = Some c → all_clear m →
      IncidentNotification.created_at m < IncidentNotification.created_at n.
Proof.
  unfold owed_all_clear.
  match goal with |- context [List.filter ?q rows] => pose proof (max_created q rows) as Ho end.
  unfold to_channel in *. destruct (max_opt _) as [o|].
  2:{ split; [done|]. intros (n & Hn & Hc & Hp & _). specialize (Ho n Hn). simpl in Ho.
      rewrite (bool_decide_eq_true_2 _ Hc), Hp in Ho. done. }
  destruct Ho as [(n & Hn & Hp & <-) Hmax]. bool_cases.
  rewrite negb_true_iff, <-not_true_iff_false, existsb_exists. split.
  - intros Hno. exists n. split_and!; [done..|]. intros m Hm Hc Hcl.
    apply Z.lt_nge. intros Hge. apply Hno. exists m. split; [by apply list_elem_of_In|].
    apply is_resolution_true in Hcl. rewrite (bool_decide_eq_true_2 _ Hc), Hcl. simpl.
    by apply Z.leb_le.
  - intros (n' & Hn' & Hc' & Hp' & Hall) (m & Hm%list_elem_of_In & Hq).
    apply andb_prop in Hq as [[Hmc%bool_decide_eq_true Hcl%is_resolution_true]%andb_prop
                                Hle%Z.leb_le].
    specialize (Hall m Hm Hmc Hcl). specialize (Hmax n' Hn').
    rewrite (bool_decide_eq_true_2 _ Hc'), Hp' in Hmax. specialize (Hmax eq_refl). lia.
Qed.

Section Resolvable.
Context (rows : list IncidentNotification.t).

Let visit : list Uuid * list Uuid → Uuid → list Uuid * list Uuid := λ '(out, seen) cid,
  if bool_decide (cid ∈ seen) then (out, seen)
  else (if owed_all_clear rows cid then out ++ [cid] else out, seen ++ [cid]).

Lemma visit_inv l out seen out' seen' :
  fold_left visit l (out, seen) = (out', seen') →
  NoDup seen → out = List.filter (owed_all_clear rows) seen →
  NoDup seen' ∧ out' = List.filter (owed_all_clear rows) seen' ∧
  ∀ c, c ∈ seen' ↔ c ∈ seen ∨ c ∈ l.
Proof.
  revert out seen. induction l as [|c l IH]; simpl; intros out seen Hf Hnd Hout.
  - injection Hf as <- <-. set_solver.
  - case_bool_decide as Hin; [destruct (IH _ _ Hf Hnd Hout) as (?&?&Hel)|
      destruct (IH _ _ Hf) as (?&?&Hel)].
    + split_and!; [done..|]. intros x. rewrite Hel. set_solver.
    + apply NoDup_app. split_and!; [done|set_solver|by apply NoDup_singleton].
    + rewrite lfilter_app. simpl. rewrite <-Hout.
      destruct (owed_all_clear _ _); [done|by rewrite app_nil_r].
    + split_and!; [done..|]. intros x. rewrite Hel. set_solver.
Qed.

Lemma resolvable_spec :
  NoDup (resolvable_channels rows) ∧
  ∀ c, c ∈ resolvable_channels rows ↔ owed_all_clear rows c = true.
Proof.
  unfold resolvable_channels.
  destruct (fold_left _ _ _) as [out seen] eqn:Hf.
  destruct (visit_inv _ _ _ _ _ Hf) as (Hnd & -> & Hel); [constructor|done|]. simpl. split.
  - by apply NoDup_lfilter.
  - intros c. rewrite elem_of_lfilter, Hel. split; [tauto|]. intros Ho. split; [|done]. right.
    apply owed_all_clear_spec in Ho as (n & Hn & Hc & _). apply list_elem_of_omap. eauto.
Qed.
End Resolvable.

(** An outage is being paged exactly when some page that opened or carried
    it on is newer than every all-clear; the engine's own markers never count.
    So the first page of an episode makes it active, an all-clear at or after
    every row ends it, and neither reminders nor markers change it. *)
Theorem open_episode_tracks_pages (rows : list IncidentNotification.t) :
  (open_episode_active rows = true ↔
     ∃ n, n ∈ rows ∧ open_page n ∧
       ∀ m, m ∈ rows → all_clear m →
         IncidentNotification.created_at m < IncidentNotification.created_at n) ∧
  (∀ n, open_page n →
     (∀ m, m ∈ rows → all_clear m →
        IncidentNotification.created_at m < IncidentNotification.created_at n) →
     open_episode_active (rows ++ [n]) = true) ∧
  (∀ n, all_clear n →
     (∀ m, m ∈ rows → IncidentNotification.created_at m ≤ IncidentNotification.created_at n) →
     open_episode_active (rows ++ [n]) = false) ∧
  (∀ n, ¬ open_page n → ¬ all_clear n →
     open_episode_active (rows ++ [n]) = open_episode_active rows).
Proof.
  assert (∀ n, open_page n → all_clear n → False) as Hdisj.
  { intros n [Ho _] Hc. unfold all_clear in Hc. by rewrite Hc in Ho. }
  split_and!; [apply open_episode_spec|..].
  - intros n Hn Hall. apply open_episode_spec. exists n. split_and!; [set_solver|done|].
    intros m [Hm| ->%list_elem_of_singleton]%elem_of_app Hc; [auto|]. by destruct (Hdisj n).
  - intros n Hc Hall. apply not_true_iff_false. rewrite open_episode_spec.
    intros (m & [Hm| ->%list_elem_of_singleton]%elem_of_app & Ho & Hlt); [|by destruct (Hdisj n)].
    specialize (Hlt n ltac:(set_solver) Hc). specialize (Hall m Hm). lia.
  - intros n Hno Hnc. apply eq_true_iff_eq. rewrite !open_episode_spec. split.
    + intros (m & [Hm| ->%list_elem_of_singleton]%elem_of_app & Ho & Hlt); [|done].
      exists m. split_and!; [done..|]. intros m' Hm'. apply Hlt. set_solver.
    + intros (m & Hm & Ho & Hlt). exists m. split_and!; [set_solver|done|].
      intros m' [Hm'| ->%list_elem_of_singleton]%elem_of_app Hc; [auto|done].
Qed.

(** The all-clear goes, once per channel, to exactly the channels whose
    last opening page no all-clear has answered; and once every one of them has
    been sent a resolution at or after every row, nobody is owed another. *)
Theorem all_clear_owed_once (rows : list IncidentNotification.t) :
  NoDup (resolvable_channels rows) ∧
  (∀ c, c ∈ resolvable_channels rows ↔
     ∃ n, n ∈ rows ∧ IncidentNotification.channel_id n = Some c ∧
       open_side (IncidentNotification.reason n) = true ∧
       ∀ m, m ∈ rows → IncidentNotification.channel_id m = Some c → all_clear m →
         IncidentNotification.created_at m < IncidentNotification.created_at n) ∧
  ∀ sent,
    (∀ n, n ∈ sent → all_clear n ∧
       ∀ m, m ∈ rows → IncidentNotification.created_at m ≤ IncidentNotification.created_at n) →
    (∀ c, c ∈ resolvable_channels rows →
       ∃ n, n ∈ sent ∧ IncidentNotification.channel_id n = Some c) →
    resolvable_channels (rows ++ sent) = [].
Proof.
  destruct (resolvable_spec rows) as [Hnd Hel]. split_and!; [done| |].
  { intros c. by rewrite Hel, owed_all_clear_spec. }
  intros sent Hsent Hcover. apply elem_of_nil_inv. intros c Hc.
  apply resolvable_spec, owed_all_clear_spec in Hc as (n & [Hn|Hn]%elem_of_app & Hcn & Ho & Hlt).
  2:{ destruct (Hsent n Hn) as [Hcl _]. unfold all_clear in Hcl. by rewrite Hcl in Ho. }
  destruct (Hcover c) as (m & Hm & Hcm).
  { apply Hel, owed_all_clear_spec. exists n. split_and!; [done..|].
    intros m Hm. apply Hlt. set_solver. }
  destruct (Hsent m Hm) as [Hcl Hall].
  specialize (Hlt m ltac:(set_solver) Hcm Hcl). specialize (Hall n Hn). lia.
Qed.
