(* ===== verification/Transports.v ===== *)
(** * Notification channel configurations

    src/domain/notification_channel/: the sixteen transports with their stored
    configurations, the masking of secrets on the way out, the provider-side
    reference, and the ping fields of the chat transports (the markup they
    render and the copy a configuration test quietens). Structural validation
    and the clean-up of pasted values are not modelled. *)

From Stdlib Require Import Ascii.
From S2P Require Import Prelude Text Domain IncidentOps EscalationRules.

(** ** Kinds (mod.rs) *)
Module ChannelKind.
Inductive t :=
| Webhook | Slack | Telegram | TelegramApp | WhatsApp | WhatsAppApp | Discord | MsTeams
| GoogleChat | Email | PagerDuty | Ntfy | Gotify | Pushover | Sms | Mattermost.
#[global] Instance eq_dec : EqDecision t.
Proof. solve_decision. Defined.

Definition ALL : list t :=
  [Webhook; Slack; Telegram; TelegramApp; WhatsApp; WhatsAppApp; Discord; MsTeams;
   GoogleChat; Email; PagerDuty; Ntfy; Gotify; Pushover; Sms; Mattermost].

Definition as_db_str (k : t) : string :=
  match k with
  | Webhook => "webhook"
  | Slack => "slack"
  | Telegram => "telegram"
  | TelegramApp => "telegram_app"
  | WhatsApp => "whatsapp"
  | WhatsAppApp => "whatsapp_app"
  | Discord => "discord"
  | MsTeams => "msteams"
  | GoogleChat => "google_chat"
  | Email => "email"
  | PagerDuty => "pagerduty"
  | Ntfy => "ntfy"
  | Gotify => "gotify"
  | Pushover => "pushover"
  | Sms => "sms"
  | Mattermost => "mattermost"
  end.
End ChannelKind.

(** ** The stored configurations *)
Record WebhookConfig := {
  wh_url : string;
  wh_headers : gmap string string;
  wh_secret : option string;
}.
Record SlackConfig := { sl_webhook_url : string; sl_mention : option string }.
Record TelegramConfig := { tg_bot_token : string; tg_chat_id : string }.
Record TelegramAppConfig := { ta_chat_id : string; ta_chat_title : option string }.
Record WhatsAppConfig := {
  wa_access_token : string;
  wa_phone_number_id : string;
  wa_to : string;
  wa_template_name : string;
  wa_language_code : option string;
}.
Record WhatsAppAppConfig := { wp_phone : string; wp_profile_name : option string }.
Record DiscordConfig := { di_webhook_url : string; di_mention : option string }.
Record MsTeamsConfig := { ms_webhook_url : string }.
Record GoogleChatConfig := { gc_webhook_url : string }.
Record EmailConfig := { em_to : string }.
Record PagerDutyConfig := { pd_routing_key : string }.
Record NtfyConfig := {
  nt_server_url : string;
  nt_topic : string;
  nt_access_token : option string;
}.
Record GotifyConfig := { go_server_url : string; go_token : string }.
Record PushoverConfig := {
  po_token : string;
  po_user : string;
  po_device : option string;
  po_emergency : bool;
}.
Module SmsConfig.
Inductive t :=
| Twilio (to from account_sid auth_token : string)
| Telnyx (to from api_key : string) (messaging_profile_id : option string)
| Vonage (to from api_key api_secret : string)
| Plivo (to from auth_id auth_token : string)
| Sinch (to from service_plan_id api_token region : string).
#[global] Instance eq_dec : EqDecision t.
Proof. solve_decision. Defined.
End SmsConfig.
Record MattermostConfig := { mm_webhook_url : string; mm_mention : option string }.

#[global] Instance WebhookConfig_eq_dec : EqDecision WebhookConfig.
Proof. solve_decision. Defined.
#[global] Instance SlackConfig_eq_dec : EqDecision SlackConfig.
Proof. solve_decision. Defined.
#[global] Instance TelegramConfig_eq_dec : EqDecision TelegramConfig.
Proof. solve_decision. Defined.
#[global] Instance TelegramAppConfig_eq_dec : EqDecision TelegramAppConfig.
Proof. solve_decision. Defined.
#[global] Instance WhatsAppConfig_eq_dec : EqDecision WhatsAppConfig.
Proof. solve_decision. Defined.
#[global] Instance WhatsAppAppConfig_eq_dec : EqDecision WhatsAppAppConfig.
Proof. solve_decision. Defined.
#[global] Instance DiscordConfig_eq_dec : EqDecision DiscordConfig.
Proof. solve_decision. Defined.
#[global] Instance MsTeamsConfig_eq_dec : EqDecision MsTeamsConfig.
Proof. solve_decision. Defined.
#[global] Instance GoogleChatConfig_eq_dec : EqDecision GoogleChatConfig.
Proof. solve_decision. Defined.
#[global] Instance EmailConfig_eq_dec : EqDecision EmailConfig.
Proof. solve_decision. Defined.
#[global] Instance PagerDutyConfig_eq_dec : EqDecision PagerDutyConfig.
Proof. solve_decision. Defined.
#[global] Instance NtfyConfig_eq_dec : EqDecision NtfyConfig.
Proof. solve_decision. Defined.
#[global] Instance GotifyConfig_eq_dec : EqDecision GotifyConfig.
Proof. solve_decision. Defined.
#[global] Instance PushoverConfig_eq_dec : EqDecision PushoverConfig.
Proof. solve_decision. Defined.
#[global] Instance MattermostConfig_eq_dec : EqDecision MattermostConfig.
Proof. solve_decision. Defined.

Module ChannelConfig.
Inductive t :=
| Webhook (c : WebhookConfig)
| Slack (c : SlackConfig)
| Telegram (c : TelegramConfig)
| TelegramApp (c : TelegramAppConfig)
| WhatsApp (c : WhatsAppConfig)
| WhatsAppApp (c : WhatsAppAppConfig)
| Discord (c : DiscordConfig)
| MsTeams (c : MsTeamsConfig)
| GoogleChat (c : GoogleChatConfig)
| Email (c : EmailConfig)
| PagerDuty (c : PagerDutyConfig)
| Ntfy (c : NtfyConfig)
| Gotify (c : GotifyConfig)
| Pushover (c : PushoverConfig)
| Sms (c : SmsConfig.t)
| Mattermost (c : MattermostConfig).
#[global] Instance eq_dec : EqDecision t.
Proof. solve_decision. Defined.

Definition kind (c : t) : ChannelKind.t :=
  match c with
  | Webhook _ => ChannelKind.Webhook
  | Slack _ => ChannelKind.Slack
  | Telegram _ => ChannelKind.Telegram
  | TelegramApp _ => ChannelKind.TelegramApp
  | WhatsApp _ => ChannelKind.WhatsApp
  | WhatsAppApp _ => ChannelKind.WhatsAppApp
  | Discord _ => ChannelKind.Discord
  | MsTeams _ => ChannelKind.MsTeams
  | GoogleChat _ => ChannelKind.GoogleChat
  | Email _ => ChannelKind.Email
  | PagerDuty _ => ChannelKind.PagerDuty
  | Ntfy _ => ChannelKind.Ntfy
  | Gotify _ => ChannelKind.Gotify
  | Pushover _ => ChannelKind.Pushover
  | Sms _ => ChannelKind.Sms
  | Mattermost _ => ChannelKind.Mattermost
  end.
End ChannelConfig.

(** ** Masking *)
Definition MASK : string := "***".

Definition redact_webhook (c : WebhookConfig) : WebhookConfig := {|
  wh_url := MASK; wh_headers := (λ _, MASK) <$> wh_headers c;
  wh_secret := (λ _, MASK) <$> wh_secret c |}.
Definition redact_slack (c : SlackConfig) : SlackConfig :=
  {| sl_webhook_url := MASK; sl_mention := sl_mention c |}.
Definition redact_telegram (c : TelegramConfig) : TelegramConfig :=
  {| tg_bot_token := MASK; tg_chat_id := tg_chat_id c |}.
Definition redact_whatsapp (c : WhatsAppConfig) : WhatsAppConfig := {|
  wa_access_token := MASK; wa_phone_number_id := wa_phone_number_id c; wa_to := wa_to c;
  wa_template_name := wa_template_name c; wa_language_code := wa_language_code c |}.
Definition redact_discord (c : DiscordConfig) : DiscordConfig :=
  {| di_webhook_url := MASK; di_mention := di_mention c |}.
Definition redact_msteams (_ : MsTeamsConfig) : MsTeamsConfig := {| ms_webhook_url := MASK |}.
Definition redact_google_chat (_ : GoogleChatConfig) : GoogleChatConfig :=
  {| gc_webhook_url := MASK |}.
Definition redact_pagerduty (_ : PagerDutyConfig) : PagerDutyConfig := {| pd_routing_key := MASK |}.
Definition redact_ntfy (c : NtfyConfig) : NtfyConfig := {|
  nt_server_url := nt_server_url c; nt_topic := nt_topic c;
  nt_access_token := (λ _, MASK) <$> nt_access_token c |}.
Definition redact_gotify (c : GotifyConfig) : GotifyConfig :=
  {| go_server_url := go_server_url c; go_token := MASK |}.
Definition redact_pushover (c : PushoverConfig) : PushoverConfig := {|
  po_token := MASK; po_user := MASK; po_device := po_device c; po_emergency := po_emergency c |}.
Definition redact_sms (c : SmsConfig.t) : SmsConfig.t :=
  match c with
  | SmsConfig.Twilio to from sid _ => SmsConfig.Twilio to from sid MASK
  | SmsConfig.Telnyx to from _ profile => SmsConfig.Telnyx to from MASK profile
  | SmsConfig.Vonage to from key _ => SmsConfig.Vonage to from key MASK
  | SmsConfig.Plivo to from id _ => SmsConfig.Plivo to from id MASK
  | SmsConfig.Sinch to from plan _ region => SmsConfig.Sinch to from plan MASK region
  end.
Definition redact_mattermost (c : MattermostConfig) : MattermostConfig :=
  {| mm_webhook_url := MASK; mm_mention := mm_mention c |}.

Definition redact_in_place (c : ChannelConfig.t) : ChannelConfig.t :=
  match c with
  | ChannelConfig.Webhook c => ChannelConfig.Webhook (redact_webhook c)
  | ChannelConfig.Slack c => ChannelConfig.Slack (redact_slack c)
  | ChannelConfig.Telegram c => ChannelConfig.Telegram (redact_telegram c)
  | ChannelConfig.TelegramApp c => ChannelConfig.TelegramApp c
  | ChannelConfig.WhatsApp c => ChannelConfig.WhatsApp (redact_whatsapp c)
  | ChannelConfig.WhatsAppApp c => ChannelConfig.WhatsAppApp c
  | ChannelConfig.Discord c => ChannelConfig.Discord (redact_discord c)
  | ChannelConfig.MsTeams c => ChannelConfig.MsTeams (redact_msteams c)
  | ChannelConfig.GoogleChat c => ChannelConfig.GoogleChat (redact_google_chat c)
  | ChannelConfig.Email c => ChannelConfig.Email c
  | ChannelConfig.PagerDuty c => ChannelConfig.PagerDuty (redact_pagerduty c)
  | ChannelConfig.Ntfy c => ChannelConfig.Ntfy (redact_ntfy c)
  | ChannelConfig.Gotify c => ChannelConfig.Gotify (redact_gotify c)
  | ChannelConfig.Pushover c => ChannelConfig.Pushover (redact_pushover c)
  | ChannelConfig.Sms c => ChannelConfig.Sms (redact_sms c)
  | ChannelConfig.Mattermost c => ChannelConfig.Mattermost (redact_mattermost c)
  end.

(** [headers.values()]. *)
Definition header_values (m : gmap string string) : list string := (map_to_list m).*2.

Definition masked (s : string) : bool := String.eqb s MASK.

Definition has_redaction_sentinel (c : ChannelConfig.t) : bool :=
  match c with
  | ChannelConfig.Webhook c =>
      masked (wh_url c) || existsb masked (header_values (wh_headers c))
      || is_some_and masked (wh_secret c)
  | ChannelConfig.Slack c => masked (sl_webhook_url c)
  | ChannelConfig.Telegram c => masked (tg_bot_token c)
  | ChannelConfig.TelegramApp _ => false
  | ChannelConfig.WhatsApp c => masked (wa_access_token c)
  | ChannelConfig.WhatsAppApp _ => false
  | ChannelConfig.Discord c => masked (di_webhook_url c)
  | ChannelConfig.MsTeams c => masked (ms_webhook_url c)
  | ChannelConfig.GoogleChat c => masked (gc_webhook_url c)
  | ChannelConfig.Email _ => false
  | ChannelConfig.PagerDuty c => masked (pd_routing_key c)
  | ChannelConfig.Ntfy c => is_some_and masked (nt_access_token c)
  | ChannelConfig.Gotify c => masked (go_token c)
  | ChannelConfig.Pushover c => masked (po_token c) || masked (po_user c)
  | ChannelConfig.Sms c =>
      match c with
      | SmsConfig.Twilio _ _ _ auth_token | SmsConfig.Plivo _ _ _ auth_token => masked auth_token
      | SmsConfig.Telnyx _ _ api_key _ => masked api_key
      | SmsConfig.Vonage _ _ _ api_secret => masked api_secret
      | SmsConfig.Sinch _ _ _ api_token _ => masked api_token
      end
  | ChannelConfig.Mattermost c => masked (mm_webhook_url c)
  end.

(** ** Per-transport answers *)
Definition abuse_url (c : ChannelConfig.t) : option string :=
  match c with
  | ChannelConfig.Webhook c => Some (wh_url c)
  | ChannelConfig.Slack c => Some (sl_webhook_url c)
  | ChannelConfig.Discord c => Some (di_webhook_url c)
  | ChannelConfig.MsTeams c => Some (ms_webhook_url c)
  | ChannelConfig.GoogleChat c => Some (gc_webhook_url c)
  | ChannelConfig.Ntfy c => Some (nt_server_url c)
  | ChannelConfig.Gotify c => Some (go_server_url c)
  | ChannelConfig.Mattermost c => Some (mm_webhook_url c)
  | ChannelConfig.Telegram _ | ChannelConfig.TelegramApp _ | ChannelConfig.WhatsApp _
  | ChannelConfig.WhatsAppApp _ | ChannelConfig.Email _ | ChannelConfig.PagerDuty _
  | ChannelConfig.Pushover _ | ChannelConfig.Sms _ => None
  end.

Definition operator_managed (c : ChannelConfig.t) : bool :=
  match c with
  | ChannelConfig.TelegramApp _ | ChannelConfig.WhatsAppApp _ => true
  | _ => false
  end.

Definition lifecycle_ref (c : ChannelConfig.t) : option string :=
  match c with
  | ChannelConfig.TelegramApp c => Some (ta_chat_id c)
  | ChannelConfig.WhatsAppApp c => Some (wp_phone c)
  | ChannelConfig.Email c => Some (em_to c)
  | _ => None
  end.

(** ** Mentions (mention.rs) *)
Definition is_separator (a : Ascii.ascii) : bool :=
  existsb (Ascii.eqb a)
    [","%char; " "%char; Ascii.ascii_of_nat 9; Ascii.ascii_of_nat 10; Ascii.ascii_of_nat 13].
Definition tokens (raw : string) : list string :=
  List.filter non_empty (split_on is_separator raw).

Definition without_broadcast (raw : option string) (broadcast : string → bool) : option string :=
  raw ← raw;
  let m := join " " (List.filter (λ t, negb (broadcast t)) (tokens raw)) in
  if non_empty m then Some m else None.

(** The loop of the three markup builders: first occurrences, in order. *)
Definition distinct `{EqDecision A} (l : list A) : list A := fold_left push_new l [].

Definition joined (markup : list string) : option string :=
  match markup with [] => None | _ => Some (join " " markup) end.

(** *** Slack *)
Module SlackMention.
Definition unwrap_markup (token : string) : string :=
  match strip_prefix "<" token ≫= strip_suffix ">" with
  | None => token
  | Some inner =>
      let inner := default inner (head (split_on (Ascii.eqb "|") inner)) in
      let inner := stripped "!subteam^" inner in
      let inner := stripped "!" inner in
      stripped "@" inner
  end.

Definition is_broadcast (token : string) : bool :=
  let t := stripped "@" (unwrap_markup token) in
  eq_ignore_ascii_case t "here" || eq_ignore_ascii_case t "channel".

Definition id_like (s : string) : bool :=
  len_in 9 24 s && all_chars (λ c, is_ascii_uppercase c || is_ascii_digit c) s.

Definition token_markup (token : string) : option string :=
  let t := stripped "@" (unwrap_markup token) in
  if eq_ignore_ascii_case t "here" then Some "<!here>"
  else if eq_ignore_ascii_case t "channel" then Some "<!channel>"
  else if String.prefix "S" t && id_like t then Some ("<!subteam^" +:+ t +:+ ">")
  else if (String.prefix "U" t || String.prefix "W" t) && id_like t
       then Some ("<@" +:+ t +:+ ">")
  else None.

(** The list [mention_markup] builds. *)
Definition pings (mention : option string) : list string :=
  default [] (raw ← mention; Some (distinct (omap token_markup (tokens raw)))).

Definition mention_markup (c : SlackConfig) : option string := joined (pings (sl_mention c)).

Definition quiet_broadcast_mention (c : SlackConfig) : SlackConfig := {|
  sl_webhook_url := sl_webhook_url c;
  sl_mention := without_broadcast (sl_mention c) is_broadcast |}.
End SlackMention.

(** *** Discord *)
Module DiscordMention.
Inductive Mention := Everyone | Here | Role (id : string) | User (id : string).
#[global] Instance Mention_eq_dec : EqDecision Mention.
Proof. solve_decision. Defined.

Definition markup (m : Mention) : string :=
  match m with
  | Everyone => "@everyone"
  | Here => "@here"
  | Role id => "<@&" +:+ id +:+ ">"
  | User id => "<@" +:+ id +:+ ">"
  end.
Definition pings_everyone (m : Mention) : bool :=
  match m with Everyone | Here => true | _ => false end.
Definition role (m : Mention) : option string :=
  match m with Role id => Some id | _ => None end.
Definition user (m : Mention) : option string :=
  match m with User id => Some id | _ => None end.

Definition is_id (s : string) : bool := len_in 17 20 s && all_chars is_ascii_digit s.

Definition parse_token (token : string) : option Mention :=
  let t :=
    match strip_prefix "<@&" token ≫= strip_suffix ">" with
    | Some id => "&" +:+ id
    | None =>
        match strip_prefix "<@" token ≫= strip_suffix ">" with
        | Some t => stripped "!" t
        | None => token
        end
    end in
  let t := stripped "@" t in
  if eq_ignore_ascii_case t "everyone" then Some Everyone
  else if eq_ignore_ascii_case t "here" then Some Here
  else match strip_prefix "&" t with
       | Some id => if is_id id then Some (Role id) else if is_id t then Some (User t) else None
       | None => if is_id t then Some (User t) else None
       end.

Definition is_broadcast (token : string) : bool := is_some_and pings_everyone (parse_token token).

(** The list [mention_targets] builds. *)
Definition targets (mention : option string) : list Mention :=
  default [] (raw ← mention; Some (distinct (omap parse_token (tokens raw)))).

(** Both halves of a ping: the markup it renders and the allow-list. *)
Record t := {
  dm_markup : string;
  dm_everyone : bool;
  dm_roles : list string;
  dm_users : list string;
}.

Definition mention_targets (c : DiscordConfig) : option t :=
  match targets (di_mention c) with
  | [] => None
  | l => Some {| dm_markup := join " " (markup <$> l);
                 dm_everyone := existsb pings_everyone l;
                 dm_roles := omap role l;
                 dm_users := omap user l |}
  end.

Definition quiet_broadcast_mention (c : DiscordConfig) : DiscordConfig := {|
  di_webhook_url := di_webhook_url c;
  di_mention := without_broadcast (di_mention c) is_broadcast |}.
End DiscordMention.

(** *** Mattermost *)
Module MattermostMention.
Definition bare (token : string) : string := stripped "@" token.
Definition is_broadcast (token : string) : bool :=
  let t := bare token in
  String.eqb t "channel" || String.eqb t "here" || String.eqb t "all".
Definition pingable (token : string) : bool :=
  let t := bare token in
  is_broadcast token
  || len_in 1 64 t
     && all_chars (λ c, is_ascii_lowercase c || is_ascii_digit c
                        || existsb (Ascii.eqb c) ["."; "-"; "_"]%char) t.

Definition pings (mention : option string) : list string :=
  default [] (raw ← mention;
    Some (distinct ((λ t, "@" +:+ bare t) <$> List.filter pingable (tokens raw)))).

Definition mention_markup (c : MattermostConfig) : option string := joined (pings (mm_mention c)).

Definition quiet_broadcast_mention (c : MattermostConfig) : MattermostConfig := {|
  mm_webhook_url := mm_webhook_url c;
  mm_mention := without_broadcast (mm_mention c) is_broadcast |}.
End MattermostMention.

(** [ChannelConfig::quieted_for_test]. *)
Definition quieted_for_test (c : ChannelConfig.t) : ChannelConfig.t :=
  match c with
  | ChannelConfig.Slack c => ChannelConfig.Slack (SlackMention.quiet_broadcast_mention c)
  | ChannelConfig.Discord c => ChannelConfig.Discord (DiscordMention.quiet_broadcast_mention c)
  | ChannelConfig.Mattermost c =>
      ChannelConfig.Mattermost (MattermostMention.quiet_broadcast_mention c)
  | c => c
  end.

Example slack_test_quieted :
  SlackMention.pings (sl_mention (SlackMention.quiet_broadcast_mention
    {| sl_webhook_url := ""; sl_mention := Some "@here, S0123456789  <!channel>" |}))
  = ["<!subteam^S0123456789>"].
Proof. vm_compute. reflexivity. Qed.

(** ** Tokens *)
Definition is_token (t : string) : bool :=
  non_empty t && all_chars (λ a, negb (is_separator a)) t.

Lemma split_on_nonempty p s : split_on p s ≠ [].
Proof. destruct s as [|a s]; simpl; [done|]. destruct (p a); [done|]. by destruct (split_on p s). Qed.

Lemma split_on_clean p s : Forall (λ w, all_chars (λ a, negb (p a)) w = true) (split_on p s).
Proof.
  induction s as [|a s IH]; simpl; [by repeat constructor|].
  destruct (p a) eqn:Hp; [by constructor|].
  destruct (split_on p s) as [|w ws]; [by repeat constructor; simpl; rewrite Hp|].
  inversion IH; subst. constructor; [|done]. simpl. rewrite Hp. simpl. done.
Qed.

Lemma tokens_clean raw : Forall (λ t, is_token t = true) (tokens raw).
Proof.
  apply Forall_forall. intros t [Ht Hne]%elem_of_lfilter. unfold is_token. rewrite Hne. simpl.
  by eapply Forall_forall in Ht; [|apply split_on_clean].
Qed.

Lemma split_on_word p w rest :
  all_chars (λ a, negb (p a)) w = true →
  split_on p (w +:+ rest) =
    match split_on p rest with x :: xs => (w +:+ x) :: xs | [] => [w] end.
Proof.
  induction w as [|a w IH]; intros Hw.
  - change ("" +:+ rest) with rest.
    destruct (split_on p rest) eqn:Hs; [by apply split_on_nonempty in Hs|done].
  - simpl in Hw. apply andb_prop in Hw as [Ha Hw]. apply negb_true_iff in Ha.
    rewrite append_String. simpl. rewrite Ha, IH by done.
    destruct (split_on p rest) eqn:Hs; [by apply split_on_nonempty in Hs|].
    by rewrite append_String.
Qed.

Lemma tokens_join ts : Forall (λ t, is_token t = true) ts → tokens (join " " ts) = ts.
Proof.
  unfold tokens. induction 1 as [|t ts Ht Hts IH]; [done|].
  unfold is_token in Ht. apply andb_prop in Ht as [Hne Ht].
  assert (∀ u, (u +:+ "")%string = u) as Hnil by apply append_nil_r.
  destruct ts as [|t' ts].
  - simpl. rewrite <-(Hnil t) at 1. rewrite split_on_word by done. simpl.
    by rewrite Hnil, Hne.
  - change (join " " (t :: t' :: ts)) with (t +:+ (" " +:+ join " " (t' :: ts))).
    rewrite split_on_word by done. rewrite append_String. simpl split_on. cbv iota beta.
    rewrite Hnil. cbn [List.filter]. rewrite Hne. f_equal. exact IH.
Qed.

(** What is left of a mention field after the quietening, as tokens. *)
Lemma tokens_without_broadcast raw b :
  default [] (tokens <$> without_broadcast raw b) =
    List.filter (λ t, negb (b t)) (default [] (tokens <$> raw)).
Proof.
  destruct raw as [raw|]; [|done]. unfold without_broadcast. cbn [mbind option_bind fmap option_fmap option_map default].
  set (ts := List.filter _ (tokens raw)).
  assert (tokens (join " " ts) = ts) as Hj.
  { apply tokens_join, Forall_forall. intros t [Ht _]%elem_of_lfilter.
    by eapply Forall_forall in Ht; [|apply tokens_clean]. }
  destruct (non_empty (join " " ts)) eqn:Hne; [done|].
  unfold non_empty in Hne. apply negb_false_iff, String.eqb_eq in Hne.
  rewrite Hne in Hj. exact Hj.
Qed.

(** ** Distinct entries *)
Section Distinct.
Context {A : Type} `{EqDecision A}.

Lemma push_new_filter (p : A → bool) out x :
  List.filter p (push_new out x) =
    if p x then push_new (List.filter p out) x else List.filter p out.
Proof.
  unfold push_new. destruct (p x) eqn:Hp.
  - assert (bool_decide (x ∈ List.filter p out) = bool_decide (x ∈ out)) as ->.
    { apply bool_decide_ext. rewrite elem_of_lfilter. naive_solver. }
    case_bool_decide; [done|]. rewrite lfilter_app. simpl. by rewrite Hp.
  - case_bool_decide; [done|]. rewrite lfilter_app. simpl. by rewrite Hp, app_nil_r.
Qed.

Lemma distinct_filter (p : A → bool) l :
  distinct (List.filter p l) = List.filter p (distinct l).
Proof.
  unfold distinct. change (@nil A) with (List.filter p []) at 1. generalize (@nil A).
  induction l as [|x l IH]; intros acc; [done|]. simpl. rewrite <-IH, push_new_filter.
  by destruct (p x).
Qed.
End Distinct.

Lemma lfilter_omap {A B} (f : A → option B) (p : A → bool) (q : B → bool) l :
  (∀ x y, f x = Some y → p x = q y) →
  omap f (List.filter p l) = List.filter q (omap f l).
Proof.
  intros Hpq. induction l as [|x l IH]; [done|]. cbn [List.filter]. csimpl.
  destruct (f x) as [y|] eqn:Hf.
  - rewrite (Hpq x y Hf). cbn [List.filter]. destruct (q y); csimpl; [rewrite Hf|]; by rewrite IH.
  - destruct (p x); csimpl; [rewrite Hf|]; done.
Qed.

(** ** The quietened copy *)
Module Quieted.
Definition slack_broadcast (m : string) : bool :=
  String.eqb m "<!here>" || String.eqb m "<!channel>".
Definition mattermost_broadcast (m : string) : bool :=
  String.eqb m "@channel" || String.eqb m "@here" || String.eqb m "@all".

Lemma slack_token t m :
  SlackMention.token_markup t = Some m →
  negb (SlackMention.is_broadcast t) = negb (slack_broadcast m).
Proof.
  unfold SlackMention.token_markup, SlackMention.is_broadcast.
  destruct (eq_ignore_ascii_case _ "here"); [by intros [= <-]|].
  destruct (eq_ignore_ascii_case _ "channel"); [by intros [= <-]|].
  destruct (_ && _); [by intros [= <-]|]. destruct (_ && _); [by intros [= <-]|done].
Qed.

Lemma slack_pings raw :
  SlackMention.pings (without_broadcast raw SlackMention.is_broadcast) =
    List.filter (λ m, negb (slack_broadcast m)) (SlackMention.pings raw).
Proof.
  assert (∀ o, SlackMention.pings o =
    distinct (omap SlackMention.token_markup (default [] (tokens <$> o)))) as Hp by (by intros []).
  rewrite !Hp, tokens_without_broadcast, <-distinct_filter. f_equal.
  apply lfilter_omap, slack_token.
Qed.

Lemma discord_targets raw :
  DiscordMention.targets (without_broadcast raw DiscordMention.is_broadcast) =
    List.filter (λ m, negb (DiscordMention.pings_everyone m)) (DiscordMention.targets raw).
Proof.
  assert (∀ o, DiscordMention.targets o =
    distinct (omap DiscordMention.parse_token (default [] (tokens <$> o)))) as Hp by (by intros []).
  rewrite !Hp, tokens_without_broadcast, <-distinct_filter. f_equal.
  apply lfilter_omap. intros t m Ht. unfold DiscordMention.is_broadcast. by rewrite Ht.
Qed.

Lemma mattermost_pings raw :
  MattermostMention.pings (without_broadcast raw MattermostMention.is_broadcast) =
    List.filter (λ m, negb (mattermost_broadcast m)) (MattermostMention.pings raw).
Proof.
  assert (∀ o, MattermostMention.pings o = distinct
    ((λ t, "@" +:+ MattermostMention.bare t) <$>
       List.filter MattermostMention.pingable (default [] (tokens <$> o)))) as Hp by (by intros []).
  rewrite !Hp, tokens_without_broadcast, <-distinct_filter. f_equal.
  rewrite lfilter_fmap, !lfilter_lfilter. f_equal. apply List.filter_ext. intros t.
  rewrite andb_comm. done.
Qed.

Lemma discord_roles l :
  omap DiscordMention.role (List.filter (λ m, negb (DiscordMention.pings_everyone m)) l) =
    omap DiscordMention.role l ∧
  omap DiscordMention.user (List.filter (λ m, negb (DiscordMention.pings_everyone m)) l) =
    omap DiscordMention.user l ∧
  existsb DiscordMention.pings_everyone
    (List.filter (λ m, negb (DiscordMention.pings_everyone m)) l) = false.
Proof.
  induction l as [|m l (IHr & IHu & IHe)]; [done|].
  destruct m; csimpl; rewrite ?IHr, ?IHu, ?IHe; done.
Qed.
End Quieted.

(** A configuration test pings nobody but the people named. In the copy
    the test uses, a Slack or Mattermost channel renders exactly the pings the
    stored one renders except the ones addressed to the room, in the same
    order; a Discord channel keeps its roles and members in the allow-list and
    never allows everyone. The transport, the destination and every other kind
    of channel are the same. *)
Theorem quieted_test_spares_the_room (c : ChannelConfig.t) :
  ChannelConfig.kind (quieted_for_test c) = ChannelConfig.kind c ∧
  abuse_url (quieted_for_test c) = abuse_url c ∧
  match c, quieted_for_test c with
  | ChannelConfig.Slack c, ChannelConfig.Slack c' =>
      SlackMention.mention_markup c' =
        joined (List.filter (λ m, negb (Quieted.slack_broadcast m))
                  (SlackMention.pings (sl_mention c)))
  | ChannelConfig.Mattermost c, ChannelConfig.Mattermost c' =>
      MattermostMention.mention_markup c' =
        joined (List.filter (λ m, negb (Quieted.mattermost_broadcast m))
                  (MattermostMention.pings (mm_mention c)))
  | ChannelConfig.Discord c, ChannelConfig.Discord c' =>
      let named := List.filter (λ m, negb (DiscordMention.pings_everyone m))
                     (DiscordMention.targets (di_mention c)) in
      DiscordMention.mention_targets c' =
        match named with
        | [] => None
        | _ => Some {|
            DiscordMention.dm_markup := join " " (DiscordMention.markup <$> named);
            DiscordMention.dm_everyone := false;
            DiscordMention.dm_roles :=
              omap DiscordMention.role (DiscordMention.targets (di_mention c));
            DiscordMention.dm_users :=
              omap DiscordMention.user (DiscordMention.targets (di_mention c)) |}
        end
  | c, c' => c' = c
  end.
Proof.
  destruct c as [| c | | | | | c | | | | | | | | | c]; try done; split_and!; try done; simpl.
  - unfold SlackMention.mention_markup. simpl. by rewrite Quieted.slack_pings.
  - unfold DiscordMention.mention_targets. simpl. rewrite Quieted.discord_targets.
    destruct (Quieted.discord_roles (DiscordMention.targets (di_mention c))) as (<- & <- & He).
    destruct (List.filter _ _) as [|m l]; [done|]. simpl in *. by rewrite He.
  - unfold MattermostMention.mention_markup. simpl. by rewrite Quieted.mattermost_pings.
Qed.

(** ** What the mask covers *)

(** The secret-bearing fields of a configuration, present ones only. *)
Definition secrets (c : ChannelConfig.t) : list string :=
  match c with
  | ChannelConfig.Webhook c =>
      wh_url c :: header_values (wh_headers c) ++ option_list (wh_secret c)
  | ChannelConfig.Slack c => [sl_webhook_url c]
  | ChannelConfig.Telegram c => [tg_bot_token c]
  | ChannelConfig.WhatsApp c => [wa_access_token c]
  | ChannelConfig.Discord c => [di_webhook_url c]
  | ChannelConfig.MsTeams c => [ms_webhook_url c]
  | ChannelConfig.GoogleChat c => [gc_webhook_url c]
  | ChannelConfig.PagerDuty c => [pd_routing_key c]
  | ChannelConfig.Ntfy c => option_list (nt_access_token c)
  | ChannelConfig.Gotify c => [go_token c]
  | ChannelConfig.Pushover c => [po_token c; po_user c]
  | ChannelConfig.Sms (SmsConfig.Twilio _ _ _ s | SmsConfig.Telnyx _ _ s _
      | SmsConfig.Vonage _ _ _ s | SmsConfig.Plivo _ _ _ s | SmsConfig.Sinch _ _ _ s _) => [s]
  | ChannelConfig.Mattermost c => [mm_webhook_url c]
  | ChannelConfig.TelegramApp _ | ChannelConfig.WhatsAppApp _ | ChannelConfig.Email _ => []
  end.

Lemma sentinel_iff c : has_redaction_sentinel c = existsb masked (secrets c).
Proof.
  destruct c as [c | | | | | | | | | | | c | | c | [] |]; simpl; rewrite ?orb_false_r; try done.
  - rewrite existsb_app. destruct (wh_secret c); simpl; by rewrite ?orb_false_r, ?orb_assoc.
  - destruct (nt_access_token c); simpl; by rewrite ?orb_false_r.
Qed.

Lemma header_values_const (m : gmap string string) v :
  let m' : gmap string string := (λ _, v) <$> m in
  Forall (λ s, s = v) (header_values m') ∧ length (header_values m') = length (header_values m).
Proof.
  intros m'. unfold header_values, m'. split.
  - apply Forall_forall. intros s ([k s'] & -> & Hks)%list_elem_of_fmap.
    apply elem_of_map_to_list, lookup_fmap_Some in Hks as (? & <- & _). done.
  - rewrite (length_fmap snd), (length_fmap snd), !length_map_to_list. apply map_size_fmap.
Qed.

Lemma redacted_secrets c :
  Forall (λ s, s = MASK) (secrets (redact_in_place c)) ∧
  length (secrets (redact_in_place c)) = length (secrets c).
Proof.
  destruct c as [c | | | | | | | | | | | c | | | [] |]; simpl; try (split; [by repeat constructor|done]).
  - destruct (header_values_const (wh_headers c) MASK) as [Hm Hl]. split.
    + constructor; [done|]. apply Forall_app. split; [done|].
      destruct (wh_secret c); by repeat constructor.
    + rewrite !length_app, Hl. by destruct (wh_secret c).
  - destruct (nt_access_token c); split; by repeat constructor.
Qed.

(** Redaction leaves no secret and is recognised. Every secret-bearing
    field of the redacted copy is the mask, none is added or dropped; the kind,
    the provider reference and the operator flag do not change; redacting twice
    is redacting once. A redacted copy sent back is refused whenever the
    configuration holds any secret, and when it holds none the copy is the
    configuration itself, so a mask is never stored as a credential. *)
Theorem redaction_masks_every_secret (c : ChannelConfig.t) :
  let r := redact_in_place c in
  Forall (λ s, s = MASK) (secrets r) ∧ length (secrets r) = length (secrets c) ∧
  ChannelConfig.kind r = ChannelConfig.kind c ∧ lifecycle_ref r = lifecycle_ref c ∧
  operator_managed r = operator_managed c ∧ redact_in_place r = r ∧
  (has_redaction_sentinel r = true ↔ secrets c ≠ []) ∧ (secrets c = [] → r = c).
Proof.
  destruct (redacted_secrets c) as [Hmask Hlen]. simpl. split_and!; try done.
  - by destruct c as [| | | | | | | | | | | | | | [] |].
  - by destruct c as [| | | | | | | | | | | | | | [] |].
  - by destruct c as [| | | | | | | | | | | | | | [] |].
  - destruct c as [c | | | | | | | | | | | c | | | [] |]; simpl; try done.
    + f_equal. unfold redact_webhook. simpl. f_equal; [|by destruct (wh_secret c)].
      by rewrite <-map_fmap_compose.
    + f_equal. unfold redact_ntfy. simpl. f_equal. by destruct (nt_access_token c).
  - rewrite sentinel_iff. destruct (secrets (redact_in_place c)) as [|s l] eqn:Hs.
    + apply symmetry, nil_length_inv in Hlen. rewrite Hlen. done.
    + inversion Hmask; subst. split; [|done]. intros _ Hnil. by rewrite Hnil in Hlen.
  - intros Hnil. destruct c as [c | | | | | | | | | | | [? ? []] | | | [] |]; simplify_eq/=; done.
Qed.
