(* ===== verification/Channels.v ===== *)
(** * Notification channels

    src/domain/notification_channel/mod.rs (the channel and the questions asked
    of it) and src/storage/notification_channels.rs (the store's contract as a
    class, its in-memory implementation, and who hears about a monitor). *)

From S2P Require Import Prelude Text Domain Target IncidentOps EscalationRules Transports.

(** ** The channel *)
Module WriteSource.
Inductive t := Ui | Api | Terraform.
#[global] Instance eq_dec : EqDecision t.
Proof. solve_decision. Defined.
End WriteSource.

Module NotificationChannel.
Record t := {
  id : Uuid;
  name : string;
  kind : ChannelKind.t;
  config : ChannelConfig.t;
  enabled : bool;
  disabled_reason : option string;
  verified_at : option DateTime;
  consecutive_failures : Z;
  failing_since : option DateTime;
  last_delivered_at : option DateTime;
  auto_bind_tags : list string;
  created_at : DateTime;
  updated_at : DateTime;
  write_source : WriteSource.t;
}.
#[global] Instance eq_dec : EqDecision t.
Proof. solve_decision. Defined.

Definition set_name (v : string) (x : t) : t := {|
  id := id x; name := v; kind := kind x; config := config x; enabled := enabled x;
  disabled_reason := disabled_reason x; verified_at := verified_at x; consecutive_failures :=
  consecutive_failures x; failing_since := failing_since x; last_delivered_at :=
  last_delivered_at x; auto_bind_tags := auto_bind_tags x; created_at := created_at x;
  updated_at := updated_at x; write_source := write_source x |}.
Definition set_kind (v : ChannelKind.t) (x : t) : t := {|
  id := id x; name := name x; kind := v; config := config x; enabled := enabled x;
  disabled_reason := disabled_reason x; verified_at := verified_at x; consecutive_failures :=
  consecutive_failures x; failing_since := failing_since x; last_delivered_at :=
  last_delivered_at x; auto_bind_tags := auto_bind_tags x; created_at := created_at x;
  updated_at := updated_at x; write_source := write_source x |}.
Definition set_config (v : ChannelConfig.t) (x : t) : t := {|
  id := id x; name := name x; kind := kind x; config := v; enabled := enabled x;
  disabled_reason := disabled_reason x; verified_at := verified_at x; consecutive_failures :=
  consecutive_failures x; failing_since := failing_since x; last_delivered_at :=
  last_delivered_at x; auto_bind_tags := auto_bind_tags x; created_at := created_at x;
  updated_at := updated_at x; write_source := write_source x |}.
Definition set_enabled (v : bool) (x : t) : t := {|
  id := id x; name := name x; kind := kind x; config := config x; enabled := v;
  disabled_reason := disabled_reason x; verified_at := verified_at x; consecutive_failures :=
  consecutive_failures x; failing_since := failing_since x; last_delivered_at :=
  last_delivered_at x; auto_bind_tags := auto_bind_tags x; created_at := created_at x;
  updated_at := updated_at x; write_source := write_source x |}.
Definition set_disabled_reason (v : option string) (x : t) : t := {|
  id := id x; name := name x; kind := kind x; config := config x; enabled := enabled x;
  disabled_reason := v; verified_at := verified_at x; consecutive_failures :=
  consecutive_failures x; failing_since := failing_since x; last_delivered_at :=
  last_delivered_at x; auto_bind_tags := auto_bind_tags x; created_at := created_at x;
  updated_at := updated_at x; write_source := write_source x |}.
Definition set_verified_at (v : option DateTime) (x : t) : t := {|
  id := id x; name := name x; kind := kind x; config := config x; enabled := enabled x;
  disabled_reason := disabled_reason x; verified_at := v; consecutive_failures :=
  consecutive_failures x; failing_since := failing_since x; last_delivered_at :=
  last_delivered_at x; auto_bind_tags := auto_bind_tags x; created_at := created_at x;
  updated_at := updated_at x; write_source := write_source x |}.
Definition set_consecutive_failures (v : Z) (x : t) : t := {|
  id := id x; name := name x; kind := kind x; config := config x; enabled := enabled x;
  disabled_reason := disabled_reason x; verified_at := verified_at x; consecutive_failures :=
  v; failing_since := failing_since x; last_delivered_at := last_delivered_at x;
  auto_bind_tags := auto_bind_tags x; created_at := created_at x; updated_at := updated_at x;
  write_source := write_source x |}.
Definition set_failing_since (v : option DateTime) (x : t) : t := {|
  id := id x; name := name x; kind := kind x; config := config x; enabled := enabled x;
  disabled_reason := disabled_reason x; verified_at := verified_at x; consecutive_failures :=
  consecutive_failures x; failing_since := v; last_delivered_at := last_delivered_at x;
  auto_bind_tags := auto_bind_tags x; created_at := created_at x; updated_at := updated_at x;
  write_source := write_source x |}.
Definition set_last_delivered_at (v : option DateTime) (x : t) : t := {|
  id := id x; name := name x; kind := kind x; config := config x; enabled := enabled x;
  disabled_reason := disabled_reason x; verified_at := verified_at x; consecutive_failures :=
  consecutive_failures x; failing_since := failing_since x; last_delivered_at := v;
  auto_bind_tags := auto_bind_tags x; created_at := created_at x; updated_at := updated_at x;
  write_source := write_source x |}.
Definition set_auto_bind_tags (v : list string) (x : t) : t := {|
  id := id x; name := name x; kind := kind x; config := config x; enabled := enabled x;
  disabled_reason := disabled_reason x; verified_at := verified_at x; consecutive_failures :=
  consecutive_failures x; failing_since := failing_since x; last_delivered_at :=
  last_delivered_at x; auto_bind_tags := v; created_at := created_at x; updated_at :=
  updated_at x; write_source := write_source x |}.
Definition set_updated_at (v : DateTime) (x : t) : t := {|
  id := id x; name := name x; kind := kind x; config := config x; enabled := enabled x;
  disabled_reason := disabled_reason x; verified_at := verified_at x; consecutive_failures :=
  consecutive_failures x; failing_since := failing_since x; last_delivered_at :=
  last_delivered_at x; auto_bind_tags := auto_bind_tags x; created_at := created_at x;
  updated_at := v; write_source := write_source x |}.
Definition set_write_source (v : WriteSource.t) (x : t) : t := {|
  id := id x; name := name x; kind := kind x; config := config x; enabled := enabled x;
  disabled_reason := disabled_reason x; verified_at := verified_at x; consecutive_failures :=
  consecutive_failures x; failing_since := failing_since x; last_delivered_at :=
  last_delivered_at x; auto_bind_tags := auto_bind_tags x; created_at := created_at x;
  updated_at := updated_at x; write_source := v |}.
End NotificationChannel.

Section ChannelQuestions.
Context `{UnicodeText}.

(** [matches_folded] and [tag_rule_matches]. *)
Definition matches_folded (rule folded_tags : list string) : bool :=
  existsb (λ r, bool_decide (to_lowercase r ∈ folded_tags)) rule.

Definition tag_rule_matches (rule monitor_tags : list string) : bool :=
  match rule, monitor_tags with
  | [], _ | _, [] => false
  | _, _ => matches_folded rule (to_lowercase <$> monitor_tags)
  end.

Definition awaiting_verification (c : NotificationChannel.t) : bool :=
  bool_decide (NotificationChannel.kind c = ChannelKind.Email)
  && is_none (NotificationChannel.verified_at c).

Definition can_deliver (c : NotificationChannel.t) : bool :=
  NotificationChannel.enabled c && negb (awaiting_verification c).

Definition auto_binds (c : NotificationChannel.t) (tags : list string) : bool :=
  tag_rule_matches (NotificationChannel.auto_bind_tags c) tags.

Definition failure_run_reached (consecutive_failures limit : Z) : bool :=
  (0 <? limit)
  && ((if limit <=? I32_MAX then limit else I32_MAX) <=? consecutive_failures).

Definition is_failing (c : NotificationChannel.t) (limit : Z) : bool :=
  NotificationChannel.enabled c && negb (awaiting_verification c)
  && failure_run_reached (NotificationChannel.consecutive_failures c) limit.
End ChannelQuestions.

Module NewNotificationChannel.
Record t := {
  name : string;
  config : ChannelConfig.t;
  enabled : bool;
  auto_bind_tags : list string;
}.
End NewNotificationChannel.

Module NotificationChannelUpdate.
Record t := {
  name : option string;
  config : option ChannelConfig.t;
  enabled : option bool;
  auto_bind_tags : option (list string);
}.
End NotificationChannelUpdate.

Record ChannelHealth := {
  ch_consecutive_failures : Z;
  ch_failing_since : option DateTime;
}.

(** ** The store's contract: [NotificationChannelStore] *)
Definition FAILURE_ALERT_COOLDOWN : Duration := seconds (24 * 60 * 60).

Class NotificationChannelStore (W : Type) := {
  create_channel : OrgId → NewNotificationChannel.t → WriteSource.t → Z →
    M W NotificationChannel.t;
  seed_owner_email : OrgId → string → Z → M W (option NotificationChannel.t);
  list_channels : OrgId → M W (list NotificationChannel.t);
  get_channel : OrgId → Uuid → M W (option NotificationChannel.t);
  update_channel : OrgId → Uuid → NotificationChannelUpdate.t → WriteSource.t →
    M W (option NotificationChannel.t);
  delete_channel : OrgId → Uuid → M W bool;
  disable_by_external_ref : ChannelKind.t → string → string → M W Z;
  count_by_external_ref : ChannelKind.t → string → M W Z;
  record_delivery_outcome : OrgId → Uuid → bool → M W ChannelHealth;
  claim_failure_alert : OrgId → Uuid → M W (option DateTime);
  release_failure_alert : OrgId → Uuid → DateTime → M W unit;
  existing_channel_ids : OrgId → list Uuid → M W (list Uuid);
  set_verified : OrgId → Uuid → DateTime → M W bool;
  disable_self_service : Uuid → string → M W bool;
  auto_bound_ids : OrgId → list string → M W (list Uuid);
}.

(** [paging_channel_ids]: the bound channels, then the rule's, once each. *)
Definition paging_channel_ids `{NotificationChannelStore W} (org : OrgId) (target : Target.t)
    : M W (list Uuid) :=
  auto ← auto_bound_ids org (Target.tags target);
  mret (fold_left push_new auto (binding_channel_id <$> Target.alerts target)).

(** ** The in-memory store *)
Module MemEntry.
Record t := {
  org : OrgId;
  external_ref : option string;
  notified_at : option DateTime;
  ch : NotificationChannel.t;
}.
#[global] Instance eq_dec : EqDecision t.
Proof. solve_decision. Defined.

Definition set_ch (v : NotificationChannel.t) (x : t) : t :=
  {| org := org x; external_ref := external_ref x; notified_at := notified_at x; ch := v |}.
Definition set_notified_at (v : option DateTime) (x : t) : t :=
  {| org := org x; external_ref := external_ref x; notified_at := v; ch := ch x |}.
Definition set_external_ref (v : option string) (x : t) : t :=
  {| org := org x; external_ref := v; notified_at := notified_at x; ch := ch x |}.
Definition id (x : t) : Uuid := NotificationChannel.id (ch x).
Definition name (x : t) : string := NotificationChannel.name (ch x).
End MemEntry.

(** A world that holds the store's vector. *)
Class HasChannels (W : Type) := {
  entries : W → list MemEntry.t;
  set_entries : list MemEntry.t → W → W;
}.

Definition in_org (org : OrgId) (e : MemEntry.t) : bool := bool_decide (MemEntry.org e = org).
Definition owns (org : OrgId) (id : Uuid) (e : MemEntry.t) : bool :=
  in_org org e && bool_decide (MemEntry.id e = id).
Definition named (org : OrgId) (name : string) (e : MemEntry.t) : bool :=
  in_org org e && String.eqb (MemEntry.name e) name.
Definition carries (kind : ChannelKind.t) (external_ref : string) (e : MemEntry.t) : bool :=
  bool_decide (NotificationChannel.kind (MemEntry.ch e) = kind)
  && bool_decide (MemEntry.external_ref e = Some external_ref).

Definition name_taken : AppError :=
  Unprocessable "CHANNEL_NAME_TAKEN" "a notification channel with this name already exists".
Definition quota_exceeded : AppError :=
  Unprocessable "CHANNEL_QUOTA_EXCEEDED" "notification channel limit reached for this plan".

Definition entry_of (org : OrgId) (c : NotificationChannel.t) : MemEntry.t := {|
  MemEntry.org := org;
  MemEntry.external_ref := lifecycle_ref (NotificationChannel.config c);
  MemEntry.notified_at := None;
  MemEntry.ch := c |}.

Section Store.
Context {W : Type} `{HasRuntime W, HasChannels W, UnicodeText}.

Definition entries_ : M W (list MemEntry.t) := gets entries.
Definition put_entries (f : list MemEntry.t → list MemEntry.t) : M W unit :=
  modify (λ w, set_entries (f (entries w)) w).
(** [let entry = iter_mut().find(p)], then the writes through it. *)
Definition edit_entry (p : MemEntry.t → bool) (f : MemEntry.t → MemEntry.t) : M W unit :=
  put_entries (update_first p f).

Definition mem_create_channel (org : OrgId) (new : NewNotificationChannel.t)
    (source : WriteSource.t) (max_channels : Z) : M W NotificationChannel.t :=
  g ← entries_;
  if existsb (named org (NewNotificationChannel.name new)) g then throw name_taken
  else if max_channels <=? count (in_org org) g then throw quota_exceeded
  else
    now ← utc_now;
    id ← now_v7;
    let c := {|
      NotificationChannel.id := id;
      NotificationChannel.name := NewNotificationChannel.name new;
      NotificationChannel.kind := ChannelConfig.kind (NewNotificationChannel.config new);
      NotificationChannel.config := NewNotificationChannel.config new;
      NotificationChannel.enabled := NewNotificationChannel.enabled new;
      NotificationChannel.disabled_reason := None;
      NotificationChannel.verified_at := None;
      NotificationChannel.consecutive_failures := 0;
      NotificationChannel.failing_since := None;
      NotificationChannel.last_delivered_at := None;
      NotificationChannel.auto_bind_tags := NewNotificationChannel.auto_bind_tags new;
      NotificationChannel.created_at := now;
      NotificationChannel.updated_at := now;
      NotificationChannel.write_source := source |} in
    _ ← put_entries (λ g, g ++ [entry_of org c]);
    mret c.

Definition mem_seed_owner_email (org : OrgId) (address : string) (max_channels : Z)
    : M W (option NotificationChannel.t) :=
  let address := to_ascii_lowercase (trim address) in
  g ← entries_;
  if existsb (named org address) g || (max_channels <=? count (in_org org) g) then mret None
  else
    now ← utc_now;
    id ← now_v7;
    let c := {|
      NotificationChannel.id := id;
      NotificationChannel.name := address;
      NotificationChannel.kind := ChannelKind.Email;
      NotificationChannel.config := ChannelConfig.Email {| em_to := address |};
      NotificationChannel.enabled := true;
      NotificationChannel.disabled_reason := None;
      NotificationChannel.verified_at := Some now;
      NotificationChannel.consecutive_failures := 0;
      NotificationChannel.failing_since := None;
      NotificationChannel.last_delivered_at := None;
      NotificationChannel.auto_bind_tags := [];
      NotificationChannel.created_at := now;
      NotificationChannel.updated_at := now;
      NotificationChannel.write_source := WriteSource.Ui |} in
    _ ← put_entries (λ g, g ++ [entry_of org c]);
    mret (Some c).

Definition mem_list_channels (org : OrgId) : M W (list NotificationChannel.t) :=
  g ← entries_;
  mret (sort_by (λ a b, String.leb (NotificationChannel.name a) (NotificationChannel.name b))
    (MemEntry.ch <$> List.filter (in_org org) g)).

Definition mem_get_channel (org : OrgId) (id : Uuid) : M W (option NotificationChannel.t) :=
  g ← entries_; mret (MemEntry.ch <$> List.find (owns org id) g).

Definition mem_auto_bound_ids (org : OrgId) (tags : list string) : M W (list Uuid) :=
  g ← entries_;
  mret (MemEntry.id <$> List.filter (λ e, in_org org e && auto_binds (MemEntry.ch e) tags) g).

(** The field writes of [update], in order. *)
Definition apply_update (update : NotificationChannelUpdate.t) (e : MemEntry.t) : MemEntry.t :=
  let e := match NotificationChannelUpdate.name update with
           | Some name => MemEntry.set_ch (NotificationChannel.set_name name (MemEntry.ch e)) e
           | None => e
           end in
  let e := match NotificationChannelUpdate.config update with
           | Some cfg =>
               if bool_decide (cfg = NotificationChannel.config (MemEntry.ch e)) then e
               else
                 let e := MemEntry.set_external_ref (lifecycle_ref cfg) e in
                 MemEntry.set_ch
                   (NotificationChannel.set_verified_at None
                      (NotificationChannel.set_config cfg
                         (NotificationChannel.set_kind (ChannelConfig.kind cfg) (MemEntry.ch e)))) e
           | None => e
           end in
  let e := match NotificationChannelUpdate.auto_bind_tags update with
           | Some tags =>
               MemEntry.set_ch (NotificationChannel.set_auto_bind_tags tags (MemEntry.ch e)) e
           | None => e
           end in
  match NotificationChannelUpdate.enabled update with
  | Some enabled =>
      let was_disabled := negb (NotificationChannel.enabled (MemEntry.ch e)) in
      let e := MemEntry.set_ch (NotificationChannel.set_enabled enabled (MemEntry.ch e)) e in
      let e := if enabled
               then MemEntry.set_ch (NotificationChannel.set_disabled_reason None (MemEntry.ch e)) e
               else e in
      if enabled && was_disabled
      then MemEntry.set_notified_at None
             (MemEntry.set_ch
                (NotificationChannel.set_failing_since None
                   (NotificationChannel.set_consecutive_failures 0 (MemEntry.ch e))) e)
      else e
  | None => e
  end.

Definition mem_update_channel (org : OrgId) (id : Uuid) (update : NotificationChannelUpdate.t)
    (source : WriteSource.t) : M W (option NotificationChannel.t) :=
  g ← entries_;
  if is_some_and (λ name, existsb (λ e, named org name e && negb (owns org id e)) g)
       (NotificationChannelUpdate.name update)
  then throw name_taken
  else
    match List.find (owns org id) g with
    | None => mret None
    | Some entry =>
        let entry := apply_update update entry in
        now ← utc_now;
        let c := NotificationChannel.set_updated_at now
                   (NotificationChannel.set_write_source source (MemEntry.ch entry)) in
        _ ← edit_entry (owns org id) (λ _, MemEntry.set_ch c entry);
        mret (Some c)
    end.

Definition mem_delete_channel (org : OrgId) (id : Uuid) : M W bool :=
  g ← entries_;
  let g' := List.filter (λ e, negb (owns org id e)) g in
  _ ← put_entries (λ _, g');
  mret (length g' <? length g)%nat.

(** [e.ch.enabled = false; ...], shared by the two provider-side stops. *)
Definition switched_off (reason : string) (now : DateTime) (e : MemEntry.t) : MemEntry.t :=
  MemEntry.set_ch
    (NotificationChannel.set_updated_at now
       (NotificationChannel.set_verified_at None
          (NotificationChannel.set_disabled_reason (Some reason)
             (NotificationChannel.set_enabled false (MemEntry.ch e))))) e.

Fixpoint disable_each (kind : ChannelKind.t) (external_ref reason : string) (g : list MemEntry.t)
    : M W (Z * list MemEntry.t) :=
  match g with
  | [] => mret (0, [])
  | e :: g =>
      e' ← (if carries kind external_ref e && NotificationChannel.enabled (MemEntry.ch e)
            then now ← utc_now; mret (1, switched_off reason now e)
            else mret (0, e));
      rest ← disable_each kind external_ref reason g;
      mret (e'.1 + rest.1, e'.2 :: rest.2)
  end.

Definition mem_disable_by_external_ref (kind : ChannelKind.t) (external_ref reason : string)
    : M W Z :=
  g ← entries_;
  flipped ← disable_each kind external_ref reason g;
  _ ← put_entries (λ _, flipped.2);
  mret flipped.1.

Definition mem_count_by_external_ref (kind : ChannelKind.t) (external_ref : string) : M W Z :=
  g ← entries_; mret (count (carries kind external_ref) g).

Definition mem_record_delivery_outcome (org : OrgId) (id : Uuid) (delivered : bool)
    : M W ChannelHealth :=
  g ← entries_;
  match List.find (owns org id) g with
  | None => mret {| ch_consecutive_failures := 0; ch_failing_since := None |}
  | Some entry =>
      let c := MemEntry.ch entry in
      c ← (if delivered
           then now ← utc_now;
                mret (NotificationChannel.set_last_delivered_at (Some now)
                        (NotificationChannel.set_failing_since None
                           (NotificationChannel.set_consecutive_failures 0 c)))
           else since ← match NotificationChannel.failing_since c with
                        | Some since => mret since
                        | None => utc_now
                        end;
                mret (NotificationChannel.set_failing_since (Some since)
                        (NotificationChannel.set_consecutive_failures
                           (wrap_i32 (NotificationChannel.consecutive_failures c + 1)) c)));
      _ ← edit_entry (owns org id) (λ _, MemEntry.set_ch c entry);
      mret {| ch_consecutive_failures := NotificationChannel.consecutive_failures c;
              ch_failing_since := NotificationChannel.failing_since c |}
  end.

Definition mem_claim_failure_alert (org : OrgId) (id : Uuid) : M W (option DateTime) :=
  g ← entries_;
  match List.find (owns org id) g with
  | None => mret None
  | Some entry =>
      now ← utc_now;
      if is_none (NotificationChannel.failing_since (MemEntry.ch entry))
         || is_some_and (λ at_, now - FAILURE_ALERT_COOLDOWN <=? at_) (MemEntry.notified_at entry)
      then mret None
      else
        _ ← edit_entry (owns org id) (MemEntry.set_notified_at (Some now));
        mret (Some now)
  end.

Definition mem_release_failure_alert (org : OrgId) (id : Uuid) (claimed : DateTime) : M W unit :=
  edit_entry (λ e, owns org id e && bool_decide (MemEntry.notified_at e = Some claimed))
    (MemEntry.set_notified_at None).

Definition mem_existing_channel_ids (org : OrgId) (ids : list Uuid) : M W (list Uuid) :=
  g ← entries_; mret (List.filter (λ id, existsb (owns org id) g) ids).

Definition verifiable (org : OrgId) (id : Uuid) (expected : DateTime) (e : MemEntry.t) : bool :=
  owns org id e && bool_decide (NotificationChannel.kind (MemEntry.ch e) = ChannelKind.Email)
  && bool_decide (NotificationChannel.updated_at (MemEntry.ch e) = expected).

Definition mem_set_verified (org : OrgId) (id : Uuid) (expected_updated_at : DateTime) : M W bool :=
  g ← entries_;
  match List.find (verifiable org id expected_updated_at) g with
  | None => mret false
  | Some e =>
      verified ← utc_now;
      now ← utc_now;
      _ ← edit_entry (verifiable org id expected_updated_at) (λ _,
            MemEntry.set_ch (NotificationChannel.set_updated_at now
              (NotificationChannel.set_verified_at (Some verified) (MemEntry.ch e))) e);
      mret true
  end.

Definition live (channel_id : Uuid) (e : MemEntry.t) : bool :=
  bool_decide (MemEntry.id e = channel_id) && NotificationChannel.enabled (MemEntry.ch e).

Definition mem_disable_self_service (channel_id : Uuid) (reason : string) : M W bool :=
  g ← entries_;
  match List.find (live channel_id) g with
  | None => mret false
  | Some e =>
      now ← utc_now;
      _ ← edit_entry (live channel_id) (λ _, switched_off reason now e);
      mret true
  end.
End Store.

#[global] Instance mem_channel_store {W} `{HasRuntime W, HasChannels W, UnicodeText}
  : NotificationChannelStore W := {
  create_channel org new source m := mem_create_channel org new source m;
  seed_owner_email org address m := mem_seed_owner_email org address m;
  list_channels org := mem_list_channels org;
  get_channel org id := mem_get_channel org id;
  update_channel org id u source := mem_update_channel org id u source;
  delete_channel org id := mem_delete_channel org id;
  disable_by_external_ref k r reason := mem_disable_by_external_ref k r reason;
  count_by_external_ref k r := mem_count_by_external_ref k r;
  record_delivery_outcome org id d := mem_record_delivery_outcome org id d;
  claim_failure_alert org id := mem_claim_failure_alert org id;
  release_failure_alert org id c := mem_release_failure_alert org id c;
  existing_channel_ids org ids := mem_existing_channel_ids org ids;
  set_verified org id e := mem_set_verified org id e;
  disable_self_service id reason := mem_disable_self_service id reason;
  auto_bound_ids org tags := mem_auto_bound_ids org tags;
}.

(** ** The store on its own *)
Module ChannelWorld.
Record t := { vec : list MemEntry.t; clock_reads : nat; ids_drawn : nat }.

#[global] Instance runtime `{Environment} : HasRuntime t := {
  utc_now := λ w, (Ok (clock (clock_reads w)),
    {| vec := vec w; clock_reads := S (clock_reads w); ids_drawn := ids_drawn w |});
  now_v7 := λ w, (Ok (fresh (ids_drawn w)),
    {| vec := vec w; clock_reads := clock_reads w; ids_drawn := S (ids_drawn w) |});
}.

#[global] Instance has_channels : HasChannels t := {
  entries := vec;
  set_entries v w := {| vec := v; clock_reads := clock_reads w; ids_drawn := ids_drawn w |};
}.

Definition init : t := {| vec := []; clock_reads := 0; ids_drawn := 0 |}.
End ChannelWorld.
