(* ===== verification/ChannelStore.v ===== *)
(** * The channel store's invariants

    Theorems on the in-memory [NotificationChannelStore] of [Channels], taken as
    a sequence of calls: what every reachable store looks like, that a call for
    one organisation leaves the others alone, and that the owners are mailed
    about a failing channel at most once a day. *)

From S2P Require Import Prelude Text Domain Incident IncidentOps EscalationRules Transports Channels.

Import ChannelWorld.

(** ** Calls *)
Inductive Cmd :=
| CCreate (org : OrgId) (new : NewNotificationChannel.t) (source : WriteSource.t) (cap : Z)
| CSeed (org : OrgId) (address : string) (cap : Z)
| CUpdate (org : OrgId) (id : Uuid) (u : NotificationChannelUpdate.t) (source : WriteSource.t)
| CDelete (org : OrgId) (id : Uuid)
| CDisableRef (kind : ChannelKind.t) (external_ref reason : string)
| CDelivered (org : OrgId) (id : Uuid) (delivered : bool)
| CClaim (org : OrgId) (id : Uuid)
| CRelease (org : OrgId) (id : Uuid) (claimed : DateTime)
| CVerify (org : OrgId) (id : Uuid) (expected : DateTime)
| CStop (id : Uuid) (reason : string).

(** The organisation a call is made for; the provider's events and the signed
    stop link have none. *)
Definition scope (c : Cmd) : option OrgId :=
  match c with
  | CCreate org _ _ _ | CSeed org _ _ | CUpdate org _ _ _ | CDelete org _ | CDelivered org _ _
  | CClaim org _ | CRelease org _ _ | CVerify org _ _ => Some org
  | CDisableRef _ _ _ | CStop _ _ => None
  end.

Section Run.
Context `{Environment, UnicodeText}.

Definition after (w : t) (c : Cmd) : t :=
  match c with
  | CCreate org new source cap => (create_channel org new source cap w).2
  | CSeed org address cap => (seed_owner_email org address cap w).2
  | CUpdate org id u source => (update_channel org id u source w).2
  | CDelete org id => (delete_channel org id w).2
  | CDisableRef kind r reason => (disable_by_external_ref kind r reason w).2
  | CDelivered org id d => (record_delivery_outcome org id d w).2
  | CClaim org id => (claim_failure_alert org id w).2
  | CRelease org id claimed => (release_failure_alert org id claimed w).2
  | CVerify org id e => (set_verified org id e w).2
  | CStop id reason => (disable_self_service id reason w).2
  end.

Inductive reachable : t → Prop :=
| reach_init : reachable init
| reach_step w c : reachable w → reachable (after w c).

(** What holds of each row on its own. *)
Definition row_ok (e : MemEntry.t) : Prop :=
  let c := MemEntry.ch e in
  NotificationChannel.kind c = ChannelConfig.kind (NotificationChannel.config c) ∧
  MemEntry.external_ref e = lifecycle_ref (NotificationChannel.config c) ∧
  (NotificationChannel.failing_since c = None → NotificationChannel.consecutive_failures c = 0) ∧
  (is_some (NotificationChannel.verified_at c) = true →
   NotificationChannel.kind c = ChannelKind.Email).

Definition key (e : MemEntry.t) : OrgId * string := (MemEntry.org e, MemEntry.name e).

Record store_wf (w : t) : Prop := {
  wf_ids : NoDup (MemEntry.id <$> vec w);
  wf_ids_drawn : ∀ e, e ∈ vec w → ∃ k, (k < ids_drawn w)%nat ∧ MemEntry.id e = fresh k;
  wf_names : NoDup (key <$> vec w);
  wf_rows : Forall row_ok (vec w);
}.

(** How a call can move the vector. *)
Inductive move (w : t) : t → Prop :=
| move_none k :
    move w {| vec := vec w; clock_reads := k; ids_drawn := ids_drawn w |}
| move_add org c k :
    existsb (named org (NotificationChannel.name c)) (vec w) = false →
    NotificationChannel.id c = fresh (ids_drawn w) → row_ok (entry_of org c) →
    move w {| vec := vec w ++ [entry_of org c]; clock_reads := k; ids_drawn := S (ids_drawn w) |}
| move_edit p e e' k :
    List.find p (vec w) = Some e →
    MemEntry.id e' = MemEntry.id e → MemEntry.org e' = MemEntry.org e →
    (row_ok e → row_ok e') →
    (MemEntry.name e' = MemEntry.name e ∨
     ∀ x, x ∈ vec w → MemEntry.id x ≠ MemEntry.id e → key x ≠ key e') →
    move w {| vec := update_first p (λ _, e') (vec w); clock_reads := k; ids_drawn := ids_drawn w |}
| move_map v k :
    Forall2 (λ e e', MemEntry.id e' = MemEntry.id e ∧ key e' = key e ∧ (row_ok e → row_ok e'))
      (vec w) v →
    move w {| vec := v; clock_reads := k; ids_drawn := ids_drawn w |}
| move_drop p k :
    move w {| vec := List.filter p (vec w); clock_reads := k; ids_drawn := ids_drawn w |}.

Lemma disable_each_run kind r reason g w :
  ∃ n v k, disable_each kind r reason g w = (Ok (n, v),
      {| vec := vec w; clock_reads := k; ids_drawn := ids_drawn w |}) ∧
    Forall2 (λ e e', MemEntry.id e' = MemEntry.id e ∧ key e' = key e ∧ (row_ok e → row_ok e')) g v.
Proof.
  revert w. induction g as [|e g IH]; intros w; simpl.
  - exists 0, [], (clock_reads w). split; [by destruct w|constructor].
  - unfold mbind, M_bind at 1. destruct (_ && _).
    + simpl. destruct (IH {| vec := vec w; clock_reads := S (clock_reads w);
        ids_drawn := ids_drawn w |}) as (n & v & k & Hrun & Hall).
      unfold mbind, M_bind. rewrite Hrun. eexists _, _, _. split; [done|].
      constructor; [|done]. split_and!; [done..|]. unfold row_ok. simpl. naive_solver.
    + simpl. destruct (IH w) as (n & v & k & Hrun & Hall).
      unfold mbind, M_bind. rewrite Hrun. eexists _, _, _. split; [done|].
      by constructor.
Qed.

Lemma edit_run p f w :
  edit_entry p f w = (Ok tt, {| vec := update_first p f (vec w); clock_reads := clock_reads w;
                                ids_drawn := ids_drawn w |}).
Proof. done. Qed.

Lemma owns_true org id e : owns org id e = true ↔ MemEntry.org e = org ∧ MemEntry.id e = id.
Proof. unfold owns, in_org. rewrite andb_true_iff, !bool_decide_eq_true. done. Qed.

(** An edit by a function is an edit by its value on the row found. *)
Lemma move_edit_by w p f k :
  (∀ e, p e = true → MemEntry.id (f e) = MemEntry.id e ∧ key (f e) = key e ∧
                     (row_ok e → row_ok (f e))) →
  move w {| vec := update_first p f (vec w); clock_reads := k; ids_drawn := ids_drawn w |}.
Proof.
  intros Hf. destruct (List.find p (vec w)) as [e|] eqn:He.
  - rewrite (update_first_found _ _ _ _ He). apply find_Some_elem in He as Hpe. destruct Hpe as [_ Hpe].
    destruct (Hf e Hpe) as (Hid & [= Horg Hname] & Hok).
    eapply move_edit; eauto.
  - rewrite find_None_update_first by done. apply move_none.
Qed.

Lemma apply_update_key u e :
  MemEntry.id (apply_update u e) = MemEntry.id e ∧ MemEntry.org (apply_update u e) = MemEntry.org e ∧
  MemEntry.name (apply_update u e) = default (MemEntry.name e) (NotificationChannelUpdate.name u).
Proof.
  destruct u as [[name|] [config|] [[]|] [tags|]], e as [o r n c];
    unfold apply_update, MemEntry.id, MemEntry.name; simpl; repeat case_match; done.
Qed.

Lemma apply_update_ok u e : row_ok e → row_ok (apply_update u e).
Proof.
  intros (Hk & Hr & Hf & Hv).
  destruct u as [name [config|] [[]|] [tags|]], e as [o r n c]; unfold apply_update, row_ok;
    simpl in *; repeat case_match; naive_solver.
Qed.

(** Evaluate a call on this world. *)
Local Ltac run :=
  cbv [mbind M_bind mret M_ret entries_ gets put_entries edit_entry modify throw utc_now now_v7
       ChannelWorld.runtime entries set_entries ChannelWorld.has_channels]; simpl.
Local Ltac unmoved :=
  match goal with |- move ?w _ =>
    let v := fresh in let k := fresh in let d := fresh in
    destruct w as [v k d]; exact (move_none (Build_t v k d) k) end.

Lemma move_create org new source cap w : move w (mem_create_channel org new source cap w).2.
Proof.
  unfold mem_create_channel. run. destruct (existsb (named _ _) _) eqn:Hn; run; [unmoved|].
  destruct (cap <=? _); run; [unmoved|].
  apply move_add; [done..|]. unfold row_ok. simpl. naive_solver.
Qed.

Lemma move_seed org address cap w : move w (mem_seed_owner_email org address cap w).2.
Proof.
  unfold mem_seed_owner_email. run.
  destruct (existsb (named _ _) _) eqn:Hn; run; [unmoved|].
  destruct (cap <=? _); run; [unmoved|].
  apply move_add; [done..|]. unfold row_ok. simpl. naive_solver.
Qed.

Lemma move_update org id u source w : move w (mem_update_channel org id u source w).2.
Proof.
  unfold mem_update_channel. run. destruct (is_some_and _ _) eqn:Hn; run; [unmoved|].
  destruct (List.find (A:=MemEntry.t) _ _) as [e|] eqn:He; run; [|unmoved].
  destruct (apply_update_key u e) as (Hid & Horg & Hname).
  pose proof (apply_update_ok u e) as Hok.
  apply find_Some_elem in He as Hown. destruct Hown as [_ [Ho Hi]%owns_true].
  apply (move_edit w _ e); [done|done|done| |].
  - intros (?&?&?&?)%Hok. done.
  - destruct (NotificationChannelUpdate.name u) as [name|] eqn:Hu; [|by left]. right.
    simpl in Hn, Hname. intros x Hx Hne [= Hxo Hxn].
    apply not_true_iff_false in Hn. apply Hn, existsb_exists. exists x.
    split; [by apply list_elem_of_In|]. unfold named, owns, in_org.
    assert (MemEntry.name x = name) as -> by (rewrite Hxn; exact Hname).
    assert (MemEntry.org x = org) as -> by (rewrite Hxo; simpl; congruence).
    rewrite bool_decide_refl, String.eqb_refl. simpl.
    rewrite bool_decide_eq_false_2; [done|]. by rewrite <-Hi.
Qed.

Lemma move_delivered org id d w : move w (mem_record_delivery_outcome org id d w).2.
Proof.
  unfold mem_record_delivery_outcome. run.
  destruct (List.find (A:=MemEntry.t) _ _) as [e|] eqn:He; run; [|unmoved].
  destruct d; run; [|destruct (NotificationChannel.failing_since _); run];
    (apply (move_edit w _ e); [done|done|done| |by left]); unfold row_ok; naive_solver.
Qed.

Lemma move_claim org id w : move w (mem_claim_failure_alert org id w).2.
Proof.
  unfold mem_claim_failure_alert. run.
  destruct (List.find (A:=MemEntry.t) _ _) as [e|] eqn:He; run; [|unmoved].
  destruct (_ || _); run; [apply move_none|]. by apply move_edit_by.
Qed.

Lemma move_verify org id x w : move w (mem_set_verified org id x w).2.
Proof.
  unfold mem_set_verified. run.
  destruct (List.find (A:=MemEntry.t) _ _) as [e|] eqn:He; run; [|unmoved].
  apply find_Some_elem in He as Hv. destruct Hv as [_ Hv]. unfold verifiable in Hv. bool_cases.
  apply (move_edit w _ e); [done|done|done| |by left]. unfold row_ok. simpl. naive_solver.
Qed.

Lemma move_stop id reason w : move w (mem_disable_self_service id reason w).2.
Proof.
  unfold mem_disable_self_service. run.
  destruct (List.find (A:=MemEntry.t) _ _) as [e|] eqn:He; run; [|unmoved].
  apply (move_edit w _ e); [done|done|done| |by left]. unfold row_ok. simpl. naive_solver.
Qed.

Lemma move_after w c : move w (after w c).
Proof.
  destruct c; run; auto using move_create, move_seed, move_update, move_delivered, move_claim,
    move_verify, move_stop.
  - apply move_drop.
  - destruct (disable_each_run kind external_ref reason (vec w) w) as (n & v & k & Hrun & Hall).
    unfold mem_disable_by_external_ref. rewrite (bind_Ok _ _ w (vec w) w) by done.
    rewrite (bind_Ok _ _ _ _ _ Hrun). run. by apply move_map.
  - by apply move_edit_by.
Qed.

(** *** The invariant *)
Lemma fmap_update_edit {B} (g : MemEntry.t → B) p e' l e :
  List.find p l = Some e → g e' = g e → g <$> update_first p (λ _, e') l = g <$> l.
Proof.
  intros Hf Hg. induction l as [|x l IH]; simpl in *; [done|].
  destruct (p x); csimpl; [by simplify_eq; rewrite Hg|]. by rewrite IH.
Qed.

Lemma split_first {A} (p : A → bool) l e :
  List.find p l = Some e → ∃ l1 l2, l = l1 ++ e :: l2 ∧
    ∀ e', update_first p (λ _, e') l = l1 ++ e' :: l2.
Proof.
  induction l as [|x l IH]; simpl; [done|]. destruct (p x) eqn:Hp.
  - intros [= ->]. exists [], l. split; [done|]. done.
  - intros (l1 & l2 & -> & Hu)%IH. exists (x :: l1), l2. split; [done|]. intros e'. by rewrite Hu.
Qed.

Lemma named_key org name l :
  existsb (named org name) l = false → (org, name) ∉ key <$> l.
Proof.
  intros Hn (x & [= -> ->] & Hx)%list_elem_of_fmap. apply not_true_iff_false in Hn. apply Hn.
  apply existsb_exists. exists x. split; [by apply list_elem_of_In|].
  unfold named, in_org. by rewrite bool_decide_refl, String.eqb_refl.
Qed.

Lemma Forall2_fmap_eq {A B} (R : A → A → Prop) (g : A → B) l v :
  Forall2 R l v → (∀ e e', R e e' → g e' = g e) → g <$> v = g <$> l.
Proof. induction 1; intros Hg; csimpl; [done|]. f_equal; eauto. Qed.

Lemma store_wf_init : store_wf init.
Proof. split; simpl; [constructor| |constructor|constructor]. intros e He. by apply elem_of_nil in He. Qed.
Context `{!EnvironmentLaws}.

Lemma store_wf_add w org c k :
  store_wf w → existsb (named org (NotificationChannel.name c)) (vec w) = false →
  NotificationChannel.id c = fresh (ids_drawn w) → row_ok (entry_of org c) →
  store_wf {| vec := vec w ++ [entry_of org c]; clock_reads := k; ids_drawn := S (ids_drawn w) |}.
Proof.
  intros [Hids Hdrawn Hnames Hrows] Hn Hid Hok. split; simpl.
  - rewrite fmap_app. apply NoDup_app. split_and!; [done| |by apply NoDup_singleton].
    intros x (y & -> & Hy)%list_elem_of_fmap Hx%list_elem_of_singleton.
    destruct (Hdrawn y Hy) as (j & Hj & Hyj). rewrite Hyj in Hx.
    unfold MemEntry.id in Hx. simpl in Hx. rewrite Hid in Hx. apply fresh_inj in Hx. lia.
  - intros x [Hx| ->%list_elem_of_singleton]%elem_of_app.
    + destruct (Hdrawn x Hx) as (j & Hj & ->). exists j. split; [lia|done].
    + exists (ids_drawn w). split; [lia|done].
  - rewrite fmap_app. apply NoDup_app. split_and!; [done| |by apply NoDup_singleton].
    intros x Hx Hxe%list_elem_of_singleton. rewrite Hxe in Hx. by apply named_key in Hn.
  - apply Forall_app. split; [done|]. by constructor.
Qed.

(** A renamed row keeps the keys distinct when no other row has the new one. *)
Lemma keys_edited l1 e e' l2 :
  NoDup (MemEntry.id <$> l1 ++ e :: l2) → NoDup (key <$> l1 ++ e :: l2) →
  (∀ x, x ∈ l1 ++ e :: l2 → MemEntry.id x ≠ MemEntry.id e → key x ≠ key e') →
  NoDup (key <$> l1 ++ e' :: l2).
Proof.
  rewrite !fmap_app, !fmap_cons.
  intros (_ & Hidj & [Hid2 _]%NoDup_cons)%NoDup_app
    (Hn1 & Hdisj & [_ Hn2]%NoDup_cons)%NoDup_app Hfree.
  assert (∀ x, x ∈ l1 ++ l2 → key x ≠ key e') as Hnew.
  { intros x Hx. apply Hfree; [set_solver|]. intros Heqid.
    apply elem_of_app in Hx as [Hx|Hx].
    - apply (Hidj (MemEntry.id x)); [by apply list_elem_of_fmap_2|]. rewrite Heqid. by left.
    - apply Hid2. rewrite <-Heqid. by apply list_elem_of_fmap_2. }
  apply NoDup_app. split_and!; [done| |].
  - intros x Hx [->|Hx2]%elem_of_cons; [|by apply (Hdisj x Hx); right].
    apply list_elem_of_fmap in Hx as (y & Hy & Hyl). by apply (Hnew y); [set_solver|].
  - apply NoDup_cons. split; [|done]. intros (y & Hy & Hyl)%list_elem_of_fmap.
    by apply (Hnew y); [set_solver|].
Qed.

Lemma store_wf_edit w p e e' k :
  store_wf w → List.find p (vec w) = Some e →
  MemEntry.id e' = MemEntry.id e → MemEntry.org e' = MemEntry.org e → (row_ok e → row_ok e') →
  (MemEntry.name e' = MemEntry.name e ∨
   ∀ x, x ∈ vec w → MemEntry.id x ≠ MemEntry.id e → key x ≠ key e') →
  store_wf {| vec := update_first p (λ _, e') (vec w); clock_reads := k; ids_drawn := ids_drawn w |}.
Proof.
  intros [Hids Hdrawn Hnames Hrows] Hf Hid Horg Hok Hname.
  apply find_Some_elem in Hf as Hin. destruct Hin as [Hin Hp]. split; simpl.
  - by erewrite fmap_update_edit.
  - intros x [Hx|(y & Hy & _ & ->)]%elem_of_update_first; [eauto|]. rewrite Hid. eauto.
  - destruct Hname as [Hname|Hfree].
    { erewrite fmap_update_edit; [done|done|]. unfold key. by rewrite Horg, Hname. }
    destruct (split_first _ _ _ Hf) as (l1 & l2 & Hl & Hu). rewrite Hu.
    rewrite Hl in Hids, Hnames, Hfree. by eapply keys_edited.
  - apply Forall_forall. intros x [Hx|(y & Hy & _ & ->)]%elem_of_update_first.
    + by eapply Forall_forall in Hrows.
    + apply Hok. by eapply Forall_forall in Hrows.
Qed.

Lemma store_wf_move w w' : store_wf w → move w w' → store_wf w'.
Proof.
  intros Hwf Hm. destruct Hm as [k|org c k Hn Hid Hok|p e e' k Hf Hid Horg Hok Hname|v k Hall|p k].
  - destruct Hwf. by split.
  - by apply store_wf_add.
  - by eapply store_wf_edit.
  - destruct Hwf as [Hids Hdrawn Hnames Hrows]. split; simpl.
    + by rewrite (Forall2_fmap_eq _ MemEntry.id _ _ Hall) by (intros ??(?&?&?); done).
    + intros x Hx. apply list_elem_of_lookup in Hx as [i Hi].
      destruct (Forall2_lookup_r _ _ _ _ _ Hall Hi) as (y & Hy & Hxid & _).
      rewrite Hxid. apply Hdrawn. by eapply list_elem_of_lookup_2.
    + by rewrite (Forall2_fmap_eq _ key _ _ Hall) by (intros ??(?&?&?); done).
    + clear -Hall Hrows. induction Hall as [|x y l v (_ & _ & Hxy) _ IH]; [constructor|].
      inversion Hrows; subst. constructor; auto.
  - destruct Hwf as [Hids Hdrawn Hnames Hrows]. split; simpl.
    + by apply NoDup_lfilter_fmap.
    + intros x [Hx _]%elem_of_lfilter. eauto.
    + by apply NoDup_lfilter_fmap.
    + apply Forall_forall. intros x [Hx _]%elem_of_lfilter. by eapply Forall_forall in Hrows.
Qed.

Lemma reachable_store_wf w : reachable w → store_wf w.
Proof.
  induction 1 as [|w c _ IH]; [apply store_wf_init|].
  eapply store_wf_move; [exact IH|apply move_after].
Qed.
End Run.

(** ** What a call may touch *)
Definition touches (c : Cmd) (e : MemEntry.t) : bool :=
  match c with
  | CCreate org _ _ _ | CSeed org _ _ => in_org org e
  | CUpdate org id _ _ | CDelete org id | CDelivered org id _ | CClaim org id
  | CRelease org id _ | CVerify org id _ => owns org id e
  | CDisableRef kind r _ => carries kind r e
  | CStop id _ => bool_decide (MemEntry.id e = id)
  end.

Section Touch.
Context `{Environment, UnicodeText}.

Local Ltac run :=
  cbv [mbind M_bind mret M_ret entries_ gets put_entries edit_entry modify throw utc_now now_v7
       ChannelWorld.runtime entries set_entries ChannelWorld.has_channels]; simpl.

Lemma lfilter_update_first {A} (q p : A → bool) f l :
  (∀ x, p x = true → q x = false ∧ q (f x) = false) →
  List.filter q (update_first p f l) = List.filter q l.
Proof.
  intros Hp. induction l as [|x l IH]; [done|]. simpl. destruct (p x) eqn:Hx.
  - destruct (Hp x Hx) as [Hq Hq']. simpl. by rewrite Hq, Hq'.
  - simpl. by rewrite IH.
Qed.

(** The same for the one row the call found. *)
Lemma lfilter_edit {A} (q p : A → bool) e e' l :
  List.find p l = Some e → q e = false → q e' = false →
  List.filter q (update_first p (λ _, e') l) = List.filter q l.
Proof.
  intros (l1 & l2 & -> & ->)%split_first Hq Hq'. rewrite !lfilter_app. simpl. by rewrite Hq, Hq'.
Qed.

Lemma lfilter_disabled kind r reason g w :
  ∃ n v k, disable_each kind r reason g w = (Ok (n, v),
      {| vec := vec w; clock_reads := k; ids_drawn := ids_drawn w |}) ∧
    List.filter (λ e, negb (carries kind r e)) v = List.filter (λ e, negb (carries kind r e)) g.
Proof.
  revert w. induction g as [|e g IH]; intros w; simpl.
  - exists 0, [], (clock_reads w). split; [by destruct w|done].
  - unfold mbind, M_bind at 1. destruct (carries kind r e) eqn:Hc; simpl.
    + destruct (NotificationChannel.enabled _); simpl.
      * destruct (IH {| vec := vec w; clock_reads := S (clock_reads w);
          ids_drawn := ids_drawn w |}) as (n & v & k & Hrun & Hall).
        unfold mbind, M_bind. rewrite Hrun. eexists _, _, _. split; [done|]. simpl.
        change (carries kind r (switched_off _ _ e)) with (carries kind r e). by rewrite Hc.
      * destruct (IH w) as (n & v & k & Hrun & Hall).
        unfold mbind, M_bind. rewrite Hrun. eexists _, _, _. split; [done|]. simpl. by rewrite Hc.
    + destruct (IH w) as (n & v & k & Hrun & Hall).
      unfold mbind, M_bind. rewrite Hrun. eexists _, _, _. split; [done|]. simpl. rewrite Hc. simpl.
      by rewrite Hall.
Qed.

Lemma owns_same org id e e' :
  MemEntry.id e' = MemEntry.id e → MemEntry.org e' = MemEntry.org e → owns org id e' = owns org id e.
Proof. intros Hid Horg. unfold owns, in_org. by rewrite Hid, Horg. Qed.

Lemma touched_create org c l :
  List.filter (λ e, negb (in_org org e)) (l ++ [entry_of org c]) =
    List.filter (λ e, negb (in_org org e)) l.
Proof.
  rewrite lfilter_app. simpl. unfold in_org at 2. simpl. by rewrite bool_decide_refl, app_nil_r.
Qed.

Lemma touched_owned org id p e e' l :
  List.find p l = Some e → owns org id e = true →
  MemEntry.id e' = MemEntry.id e → MemEntry.org e' = MemEntry.org e →
  List.filter (λ e, negb (owns org id e)) (update_first p (λ _, e') l) =
    List.filter (λ e, negb (owns org id e)) l.
Proof.
  intros Hf Ho Hid Horg. eapply lfilter_edit; [exact Hf| |]; [by rewrite Ho|].
  by rewrite (owns_same _ _ e e'), Ho.
Qed.

Local Ltac found e He :=
  destruct (List.find (A:=MemEntry.t) _ _) as [e|] eqn:He; run; [|done];
  pose proof (proj2 (find_Some_elem _ _ _ He)).

Lemma untouched w c :
  List.filter (λ e, negb (touches c e)) (vec (after w c)) =
    List.filter (λ e, negb (touches c e)) (vec w).
Proof.
  destruct c; simpl touches; unfold after.
  - unfold create_channel, mem_channel_store, mem_create_channel. run.
    destruct (existsb (named _ _) _); [done|]. destruct (_ <=? _); [done|]. apply touched_create.
  - unfold seed_owner_email, mem_channel_store, mem_seed_owner_email. run.
    destruct (_ || _); [done|]. apply touched_create.
  - unfold update_channel, mem_channel_store, mem_update_channel. run.
    destruct (is_some_and _ _); [done|]. found e He.
    destruct (apply_update_key u e) as (Hid & Horg & _). by eapply touched_owned.
  - unfold delete_channel, mem_channel_store, mem_delete_channel. run.
    rewrite lfilter_lfilter. apply List.filter_ext. intros e. by destruct (owns _ _ e).
  - destruct (lfilter_disabled kind external_ref reason (vec w) w) as (n & v & k & Hrun & Hall).
    unfold disable_by_external_ref, mem_channel_store, mem_disable_by_external_ref.
    rewrite (bind_Ok _ _ w (vec w) w) by done. rewrite (bind_Ok _ _ _ _ _ Hrun). run. done.
  - unfold record_delivery_outcome, mem_channel_store, mem_record_delivery_outcome. run.
    found e He. destruct delivered; run; [|destruct (NotificationChannel.failing_since _); run];
      by eapply touched_owned.
  - unfold claim_failure_alert, mem_channel_store, mem_claim_failure_alert. run.
    found e He. destruct (_ || _); run; [done|]. apply lfilter_update_first. intros x Hx.
    rewrite (owns_same _ _ x (MemEntry.set_notified_at _ x)) by done. by rewrite Hx.
  - unfold release_failure_alert, mem_channel_store, mem_release_failure_alert. run.
    apply lfilter_update_first. intros x [Hx _]%andb_prop.
    rewrite (owns_same _ _ x (MemEntry.set_notified_at _ x)) by done. by rewrite Hx.
  - unfold set_verified, mem_channel_store, mem_set_verified. run. found e He.
    eapply touched_owned; [exact He| |done..]. unfold verifiable in *. by bool_cases.
  - unfold disable_self_service, mem_channel_store, mem_disable_self_service. run. found e He.
    unfold live in *. bool_cases.
    eapply lfilter_edit; [exact He|by rewrite bool_decide_eq_true_2|by rewrite bool_decide_eq_true_2].
Qed.
End Touch.

(** ** The day between two mails *)

(** Calls that leave the channel's report stamp in force: no deletion, no
    switching back on, and no release but of a claim older than the stamp. *)
Definition spares (org : OrgId) (id : Uuid) (stamp : DateTime) (c : Cmd) : Prop :=
  match c with
  | CUpdate o i u _ => o = org → i = id → NotificationChannelUpdate.enabled u ≠ Some true
  | CDelete o i => o = org → i ≠ id
  | CRelease o i claimed => o = org → i = id → claimed < stamp
  | _ => True
  end.

Inductive spaced `{Environment, UnicodeText} (org : OrgId) (id : Uuid) (stamp : DateTime)
    : t → t → Prop :=
| spaced_refl w : spaced org id stamp w w
| spaced_step w c w' :
    spares org id stamp c → spaced org id stamp (after w c) w' → spaced org id stamp w w'.

Section Cooldown.
Context `{Environment, UnicodeText} (org : OrgId) (id : Uuid) (stamp : DateTime).

Local Ltac run :=
  cbv [mbind M_bind mret M_ret entries_ gets put_entries edit_entry modify throw utc_now now_v7
       ChannelWorld.runtime entries set_entries ChannelWorld.has_channels]; simpl.

(** The row is there and carries a stamp at or after [stamp]. *)
Definition stamped (l : list MemEntry.t) : Prop :=
  ∃ e t, List.find (owns org id) l = Some e ∧ MemEntry.notified_at e = Some t ∧ stamp ≤ t.

Lemma stamped_app l l' : stamped l → stamped (l ++ l').
Proof.
  intros (e & t & Hf & Hn). exists e, t. split; [|done]. clear Hn.
  induction l as [|x l IH]; simpl in *; [done|]. destruct (owns org id x); auto.
Qed.

Lemma stamped_edit p e0 e0' l :
  List.find p l = Some e0 → MemEntry.id e0' = MemEntry.id e0 → MemEntry.org e0' = MemEntry.org e0 →
  (owns org id e0 = true → ∀ t, MemEntry.notified_at e0 = Some t → stamp ≤ t →
     ∃ t', MemEntry.notified_at e0' = Some t' ∧ stamp ≤ t') →
  stamped l → stamped (update_first p (λ _, e0') l).
Proof.
  intros (l1 & l2 & -> & ->)%split_first Hid Horg Hstamp (e & t & Hf & Hn & Ht).
  pose proof (owns_same org id e0 e0' Hid Horg) as Hown.
  induction l1 as [|x l1 IH]; simpl in *.
  - destruct (owns org id e0) eqn:Ho.
    + simplify_eq. destruct (Hstamp eq_refl _ Hn Ht) as (t' & ? & ?).
      exists e0', t'. simpl. by rewrite Hown.
    + exists e, t. simpl. by rewrite Hown.
  - unfold stamped. simpl. destruct (owns org id x); [|by apply IH]. simplify_eq. by exists e, t.
Qed.

Lemma stamped_filter p l :
  (∀ x, owns org id x = true → p x = true) → stamped l → stamped (List.filter p l).
Proof.
  intros Hp (e & t & Hf & Hn). exists e, t. split; [|done]. clear Hn.
  induction l as [|x l IH]; simpl in *; [done|]. destruct (owns org id x) eqn:Ho.
  - rewrite (Hp x Ho). simpl. by rewrite Ho.
  - destruct (p x); simpl; [rewrite Ho|]; auto.
Qed.

Lemma stamped_disabled kind r reason g w :
  stamped g →
  ∃ n v k, disable_each kind r reason g w = (Ok (n, v),
      {| vec := vec w; clock_reads := k; ids_drawn := ids_drawn w |}) ∧ stamped v.
Proof.
  intros Hst.
  assert (∀ g w, ∃ n v k, disable_each kind r reason g w = (Ok (n, v),
      {| vec := vec w; clock_reads := k; ids_drawn := ids_drawn w |}) ∧
      Forall2 (λ e e', owns org id e' = owns org id e ∧
                       MemEntry.notified_at e' = MemEntry.notified_at e) g v) as Heach.
  { clear g w Hst. induction g as [|e g IH]; intros w; simpl.
    - exists 0, [], (clock_reads w). split; [by destruct w|constructor].
    - unfold mbind, M_bind at 1. destruct (_ && _); simpl.
      + destruct (IH {| vec := vec w; clock_reads := S (clock_reads w);
          ids_drawn := ids_drawn w |}) as (n & v & k & Hrun & Hall).
        unfold mbind, M_bind. rewrite Hrun. eexists _, _, _. split; [done|]. by constructor.
      + destruct (IH w) as (n & v & k & Hrun & Hall).
        unfold mbind, M_bind. rewrite Hrun. eexists _, _, _. split; [done|]. by constructor. }
  destruct (Heach g w) as (n & v & k & Hrun & Hall). exists n, v, k. split; [done|]. clear Heach Hrun.
  destruct Hst as (e & t & Hf & Hn & Ht). revert e Hf Hn.
  induction Hall as [|x y g v [Ho Hs] _ IH]; intros e Hf Hn; simpl in *; [done|].
  unfold stamped. simpl. rewrite Ho. destruct (owns org id x); [|by apply (IH e)].
  simplify_eq. exists y, t. by rewrite Hs.
Qed.

Lemma stamped_after c w : spares org id stamp c → stamped (vec w) → stamped (vec (after w c)).
Proof.
  intros Hsp Hst. destruct c; unfold after; simpl in Hsp.
  - unfold create_channel, mem_channel_store, mem_create_channel. run.
    destruct (existsb (named _ _) _); [done|]. destruct (_ <=? _); [done|]. by apply stamped_app.
  - unfold seed_owner_email, mem_channel_store, mem_seed_owner_email. run.
    destruct (_ || _); [done|]. by apply stamped_app.
  - unfold update_channel, mem_channel_store, mem_update_channel. run.
    destruct (is_some_and _ _); [done|].
    destruct (List.find (A:=MemEntry.t) _ _) as [e|] eqn:He; run; [|done].
    destruct (apply_update_key u e) as (Hid & Horg & _).
    eapply stamped_edit; [exact He|done|done| |done].
    intros [Ho Hi]%owns_true t0 Hn Ht. exists t0. split; [|done].
    pose proof (proj2 (find_Some_elem _ _ _ He)) as [Ho' Hi']%owns_true. simpl.
    assert (NotificationChannelUpdate.enabled u ≠ Some true) as Hen by (apply Hsp; congruence).
    destruct u as [name config [[]|] tags], e as [o r n0 ch]; unfold apply_update; simpl in *;
      repeat (case_match; simplify_eq/=); done.
  - unfold delete_channel, mem_channel_store, mem_delete_channel. run.
    apply stamped_filter; [|done]. intros x [Ho Hi]%owns_true. apply negb_true_iff.
    apply not_true_iff_false. intros [Ho' Hi']%owns_true. apply Hsp; congruence.
  - destruct (stamped_disabled kind external_ref reason (vec w) w Hst) as (n & v & k & Hrun & Hall).
    unfold disable_by_external_ref, mem_channel_store, mem_disable_by_external_ref.
    rewrite (bind_Ok _ _ w (vec w) w) by done. rewrite (bind_Ok _ _ _ _ _ Hrun). run. done.
  - unfold record_delivery_outcome, mem_channel_store, mem_record_delivery_outcome. run.
    destruct (List.find (A:=MemEntry.t) _ _) as [e|] eqn:He; run; [|done].
    destruct delivered; run; [|destruct (NotificationChannel.failing_since _); run];
      (eapply stamped_edit; [exact He|done|done|eauto|done]).
  - unfold claim_failure_alert, mem_channel_store, mem_claim_failure_alert. run.
    destruct (List.find (A:=MemEntry.t) _ _) as [e|] eqn:He; run; [|done].
    destruct (_ || _) eqn:Hb; run; [done|].
    rewrite (update_first_found _ _ _ _ He). eapply stamped_edit; [exact He|done|done| |done].
    intros _ t0 Hn Ht. eexists. split; [done|]. rewrite Hn in Hb.
    apply orb_false_iff in Hb as [_ Hb]. simpl in Hb. unfold FAILURE_ALERT_COOLDOWN, seconds, NANOS in Hb.
    apply Z.leb_gt in Hb. lia.
  - unfold release_failure_alert, mem_channel_store, mem_release_failure_alert. run.
    destruct (List.find (λ e, owns org0 id0 e && bool_decide (MemEntry.notified_at e = Some claimed))
      (vec w)) as [e|] eqn:He; [|by rewrite find_None_update_first].
    rewrite (update_first_found _ _ _ _ He). eapply stamped_edit; [exact He|done|done| |done].
    intros [Ho Hi]%owns_true t0 Hn Ht.
    apply find_Some_elem in He as [_ [[Ho' Hi']%owns_true Hc%bool_decide_eq_true]%andb_prop].
    assert (claimed < stamp) by (apply Hsp; congruence). simplify_eq. lia.
  - unfold set_verified, mem_channel_store, mem_set_verified. run.
    destruct (List.find (A:=MemEntry.t) _ _) as [e|] eqn:He; run; [|done].
    eapply stamped_edit; [exact He|done|done|eauto|done].
  - unfold disable_self_service, mem_channel_store, mem_disable_self_service. run.
    destruct (List.find (A:=MemEntry.t) _ _) as [e|] eqn:He; run; [|done].
    eapply stamped_edit; [exact He|done|done|eauto|done].
Qed.

Lemma stamped_spaced w w' : spaced org id stamp w w' → stamped (vec w) → stamped (vec w').
Proof. induction 1 as [|w c w' Hsp _ IH]; [done|]. intros Hst. by apply IH, stamped_after. Qed.

(** What a claim answers. *)
Lemma claim_alert_run w :
  claim_failure_alert org id w =
    match List.find (owns org id) (vec w) with
    | None => (Ok None, w)
    | Some e =>
        let now := clock (clock_reads w) in
        let w' v := {| vec := v; clock_reads := S (clock_reads w); ids_drawn := ids_drawn w |} in
        if is_none (NotificationChannel.failing_since (MemEntry.ch e))
           || is_some_and (λ at_, now - FAILURE_ALERT_COOLDOWN <=? at_) (MemEntry.notified_at e)
        then (Ok None, w' (vec w))
        else (Ok (Some now),
              w' (update_first (owns org id) (MemEntry.set_notified_at (Some now)) (vec w)))
    end.
Proof.
  unfold claim_failure_alert, mem_channel_store, mem_claim_failure_alert. run.
  destruct (List.find _ _) as [e|]; [|done]. run. by destruct (_ || _).
Qed.

Lemma claimed_stamped w :
  (claim_failure_alert org id w).1 = Ok (Some stamp) → stamped (vec (after w (CClaim org id))).
Proof.
  simpl. change (mem_claim_failure_alert org id w) with (claim_failure_alert org id w).
  rewrite claim_alert_run. destruct (List.find _ _) as [e|] eqn:He; [|done].
  simpl. destruct (_ || _); [done|]. simpl. intros [= Hnow].
  exists (MemEntry.set_notified_at (Some stamp) e), stamp. split_and!; [|done|lia].
  rewrite Hnow, find_update_first, He; [done|]. intros x Hx.
  by rewrite (owns_same _ _ x (MemEntry.set_notified_at _ x)).
Qed.
End Cooldown.

(** ** The theorems *)
Lemma count_entry org c l :
  count (in_org org) (l ++ [entry_of org c]) = count (in_org org) l + 1.
Proof. rewrite count_app, count_cons. unfold in_org at 2. simpl. by rewrite bool_decide_refl. Qed.


(** In every store the calls can reach, channel identifiers are unique and
    no two channels of an organisation share a name; each row's kind and
    provider reference are those of its stored configuration, only email
    channels are ever verified, and a channel with no failing run counts no
    failures. A creation is refused, changing nothing, exactly when the name is
    taken or the plan is full; otherwise it adds the one channel, which is then
    found, and leaves the organisation within its cap. *)
Theorem channels_stay_distinct `{EnvironmentLaws, UnicodeText} (w : t) (org : OrgId)
    (new : NewNotificationChannel.t) (source : WriteSource.t) (cap : Z) :
  reachable w →
  store_wf w ∧
  match create_channel org new source cap w with
  | (Err e, w') =>
      w' = w ∧
      ((e = name_taken ∧ (org, NewNotificationChannel.name new) ∈ (key <$> vec w)) ∨
       (e = quota_exceeded ∧ cap ≤ count (in_org org) (vec w)))
  | (Ok c, w') =>
      ((org, NewNotificationChannel.name new) ∉ (key <$> vec w)) ∧
      count (in_org org) (vec w') = count (in_org org) (vec w) + 1 ∧
      count (in_org org) (vec w') ≤ cap ∧
      NotificationChannel.name c = NewNotificationChannel.name new ∧
      NotificationChannel.config c = NewNotificationChannel.config new ∧
      (get_channel org (NotificationChannel.id c) w').1 = Ok (Some c)
  end.
Proof.
  intros Hwf%reachable_store_wf. split; [done|].
  unfold create_channel, mem_channel_store, mem_create_channel.
  rewrite (bind_Ok _ _ w (vec w) w) by done.
  destruct (existsb (named _ _) _) eqn:Hn.
  { simpl. split; [done|]. left. split; [done|].
    apply existsb_exists in Hn as (x & Hx%list_elem_of_In & Hp). unfold named, in_org in Hp.
    bool_cases. apply list_elem_of_fmap. exists x. split; [|done].
    unfold key. f_equal; [done|]. by apply symmetry, String.eqb_eq. }
  destruct (cap <=? _) eqn:Hcap; bool_cases; [by split; [|right]|]. simpl.
  split; [by apply named_key|]. rewrite count_entry. split_and!; [done|lia|done|done|].
  - do 2 f_equal. set (c := {| NotificationChannel.id := _ |}).
    assert (List.find (owns org (fresh (ids_drawn w))) (vec w ++ [entry_of org c]) =
            Some (entry_of org c)) as Hfind; [|by unfold c in *; rewrite Hfind].
    pose proof (wf_ids_drawn w Hwf) as Hids. clear -Hids H0.
    induction (vec w) as [|x l IH]; simpl.
    + unfold owns, in_org. simpl. by rewrite !bool_decide_refl.
    + destruct (owns org _ x) eqn:Ho; [|by apply IH; intros; apply Hids; right].
      apply owns_true in Ho as [_ Ho]. destruct (Hids x) as (k & Hk & Hx); [by left|].
      rewrite Hx in Ho. apply fresh_inj in Ho. lia.
Qed.

(** A call changes only its own rows. Whatever the call, every row it is
    not about is the same after it, in the same order: a call made for an
    organisation reaches no other organisation's channels, and none but the one
    named; a provider's event reaches only the channels of that kind carrying
    that reference; a stop link reaches one channel. *)
Theorem channel_calls_are_scoped `{Environment, UnicodeText} (w : t) (c : Cmd) :
  List.filter (λ e, negb (touches c e)) (vec (after w c)) =
    List.filter (λ e, negb (touches c e)) (vec w) ∧
  match scope c with
  | Some org => ∀ e, MemEntry.org e ≠ org → touches c e = false
  | None => True
  end.
Proof.
  split; [apply untouched|].
  destruct c; simpl; try done; intros e Ho; unfold owns, in_org; by rewrite bool_decide_eq_false_2.
Qed.

(** The owners are mailed about a failing channel at most once a day. After
    a claim at [t1], whatever calls follow (deliveries that fail or land, edits,
    provider stops, releases of older claims), a later claim that is granted is
    more than [FAILURE_ALERT_COOLDOWN] after it, unless the channel was
    switched back on, deleted, or the claim itself released. *)
Theorem failure_alert_cooldown `{Environment, UnicodeText} (w w2 : t) (org : OrgId) (id : Uuid)
    (t1 t2 : DateTime) :
  (claim_failure_alert org id w).1 = Ok (Some t1) →
  spaced org id t1 (after w (CClaim org id)) w2 →
  (claim_failure_alert org id w2).1 = Ok (Some t2) →
  t1 + FAILURE_ALERT_COOLDOWN < t2.
Proof.
  intros Hc Hsp Hc2.
  destruct (stamped_spaced _ _ _ _ _ Hsp (claimed_stamped _ _ _ _ Hc)) as (e & t & He & Hn & Ht).
  rewrite claim_alert_run, He in Hc2. simpl in Hc2. rewrite Hn in Hc2. simpl in Hc2.
  destruct (is_none _); [done|]. simpl in Hc2.
  destruct (_ <=? t) eqn:Hle; bool_cases; [done|]. simpl in Hc2. simplify_eq/=. lia.
Qed.

(** ** The theorems on concrete histories *)
Module ChannelWitness.
#[export] Existing Instance plain_text.

(** Half a day between readings of the clock. *)
Definition slow_env : Environment := {|
  clock n := seconds (43200 * Z.of_nat n);
  fresh n := N.of_nat (S n);
|}.
Lemma slow_env_laws : @EnvironmentLaws slow_env.
Proof. split; simpl; unfold seconds, NANOS; [|intros n m H]; lia. Qed.
#[export] Existing Instances slow_env slow_env_laws.

Definition ops_webhook : NewNotificationChannel.t := {|
  NewNotificationChannel.name := "ops";
  NewNotificationChannel.config :=
    ChannelConfig.PagerDuty {| pd_routing_key := "R0123456789abcdef0123456789abcde" |};
  NewNotificationChannel.enabled := true;
  NewNotificationChannel.auto_bind_tags := [] |}.

Definition created : t := after init (CCreate 7%N ops_webhook WriteSource.Api 5).
Definition failing : t := after created (CDelivered 7%N 1%N false).
Definition reported : t := after failing (CClaim 7%N 1%N).
Definition later : t :=
  after (after reported (CDelivered 7%N 1%N true)) (CDelivered 7%N 1%N false).

Lemma channels_stay_distinct_witness :
  store_wf created ∧ (create_channel 7%N ops_webhook WriteSource.Api 5 created).1 = Err name_taken.
Proof.
  assert (reachable created) as Hr by (apply reach_step, reach_init).
  pose proof (channels_stay_distinct created 7%N ops_webhook WriteSource.Api 5 Hr) as [Hwf _].
  split; [exact Hwf|reflexivity].
Defined.

Lemma failure_alert_cooldown_witness :
  seconds (43200 * 2) + FAILURE_ALERT_COOLDOWN < seconds (43200 * 5).
Proof.
  apply (failure_alert_cooldown failing later 7%N 1%N); [reflexivity| |vm_compute; reflexivity].
  unfold later, reported.
  apply (spaced_step _ _ _ _ (CDelivered 7%N 1%N true)); [exact I|].
  apply (spaced_step _ _ _ _ (CDelivered 7%N 1%N false)); [exact I|]. apply spaced_refl.
Defined.
End ChannelWitness.
