(* ===== verification/Engine.v ===== *)
(** * The escalation engine

    src/escalation/engine/: the worker that turns lifecycle signals and sweeps
    into pages. Every method is here, generic over the stores it calls (classes
    over the world) and over the transports. A call is one step of the world.
    [page_with] (every signal, the reconcile scan, the middle of a release) and
    [renotify_one] hold their incident's page lock from the first read to the last
    write; what a release reads before and after and its marker, the steps of the
    ladder, the retries and the receipt polls take no lock, and interleavings with
    them are outside the model. The pool of a sweep is some order of its entries.
    Logging and metrics are left out. *)

From Stdlib Require Import Ascii.
From S2P Require Import Prelude Text Domain Incident Target IncidentOps EscalationPolicy.
From S2P Require Import EscalationRules Transports Channels.

(** ** What the worker calls *)
Class EscalationPolicyStore (W : Type) := {
  resolve_for_target : OrgId → Uuid → M W (option Uuid);
  get_policy : OrgId → Uuid → M W (option EscalationPolicy.t);
}.
Class OnCallStore (W : Type) := { resolve_now : OrgId → Uuid → DateTime → M W (list UserId) }.
Class ContactStore (W : Type) := { contacts_for_user : OrgId → UserId → M W (list Uuid) }.
Class TargetStore (W : Type) := { get_target : OrgId → Uuid → M W (option Target.t) }.
Class MaintenanceStore (W : Type) := { store_alerts_suppressed : OrgId → Uuid → M W bool }.
Class OrgDirectory (W : Type) := {
  owner_emails : OrgId → M W (list string);
  display_name : OrgId → M W (option string);
}.

(** src/notifier/event.rs. *)
Module IncidentNotice.
Record t := {
  incident_id : Uuid;
  reason : NotificationReason.t;
  monitor_name : option string;
  title : option string;
  severity : IncidentSeverity.t;
  urgency : IncidentUrgency.t;
  origin : IncidentOrigin.t;
  started_at : DateTime;
  ended_at : option DateTime;
  error_sample : option string;
  regions_down : list string;
  regions_up : list string;
  url : option string;
  note : option string;
}.
End IncidentNotice.

(** A receipt's state at the provider (src/notifier/pushover.rs). *)
Record ReceiptState := { acknowledged_ : bool; expired_ : bool }.

(** The transports: building and driving a notifier answers the receipt taken,
    or the text of what went wrong. *)
Class Notifier (W : Type) := {
  notify_incident : OrgId → NotificationChannel.t → option string → IncidentNotice.t →
    W → (option string + string) * W;
  poll_receipt : string → string → M W ReceiptState;
  cancel_receipt : string → string → M W unit;
}.

(** The roster cache (a library's), the random source and the detached task. *)
Class OnCallCache (W : Type) := {
  cache_get : OrgId * Uuid → M W (option (list UserId));
  cache_insert : OrgId * Uuid → list UserId → M W unit;
}.
Class Jitter (W : Type) := { rand_u64 : Z → M W Z }.

Module FailingChannelMail.
Record t := {
  org : OrgId;
  channel_id : Uuid;
  channel_name : string;
  transport : string;
  consecutive_failures : Z;
  failing_since : option DateTime;
  last_error : option string;
}.
End FailingChannelMail.
Class MailTasks (W : Type) := { spawn_mail : FailingChannelMail.t → M W unit }.

(** How much of a scan a sweep gets through: the work done is the first part of
    the list, at least the first [SWEEP_CONCURRENCY] entries, finishing in some
    order. *)
Definition SWEEP_CONCURRENCY : nat := 8.
Class SweepPool := {
  started : ∀ {A : Type}, list A → list A;
  started_prefix : ∀ A (l : list A), ∃ n,
    (Nat.min SWEEP_CONCURRENCY (length l) ≤ n)%nat ∧ started l ≡ₚ take n l;
}.

(** ** Configuration (src/config/ops.rs) *)
Module EscalationConfig.
Record t := {
  enabled : bool;
  tick_interval_secs : Z;
  max_pages_per_tick : Z;
  max_attempts : Z;
  channel_failure_limit : Z;
  retry_backoff_base_secs : Z;
  retry_backoff_cap_secs : Z;
  reconcile_window_secs : Z;
  flap_window_secs : Z;
  flap_max_opens : Z;
  flap_hold_secs : Z;
}.
Definition default : t := {|
  enabled := false; tick_interval_secs := 15; max_pages_per_tick := 500; max_attempts := 5;
  channel_failure_limit := 3; retry_backoff_base_secs := 30; retry_backoff_cap_secs := 3600;
  reconcile_window_secs := 3600; flap_window_secs := 3600; flap_max_opens := 5;
  flap_hold_secs := 600 |}.
End EscalationConfig.

Record WorkerConfig := {
  cfg : EscalationConfig.t;
  base_url : string;
  incident_ack_secret : string;
  email_configured : bool;
}.

(** ** Text *)

Definition truncate_chars (s : string) (max_chars : nat) : string :=
  if (chars_count s <=? max_chars)%nat then s
  else chars_take (max_chars - 1) s +:+ "…".
Definition MAX_MAIL_ERROR_CHARS : nat := 400.

Definition div_ceil (a b : Z) : Z := (a + b - 1) / b.
(** [chrono::Duration::seconds(x as i64)] of a [u64]. *)
Definition secs_i64 (x : Z) : Duration := seconds (wrap_i64 x).

(** [self.cfg.max_pages_per_tick.max(1) as usize]. *)
Definition page_limit (c : EscalationConfig.t) : nat :=
  Z.to_nat (Z.max (EscalationConfig.max_pages_per_tick c) 1).

(** The engine's own rows. *)
Definition marker (org : OrgId) (incident_id : Uuid) (transport : string)
    (reason : NotificationReason.t) : NewIncidentNotification.t := {|
  NewIncidentNotification.org := org;
  NewIncidentNotification.incident_id := incident_id;
  NewIncidentNotification.escalation_level := None;
  NewIncidentNotification.target_user_id := None;
  NewIncidentNotification.channel_id := None;
  NewIncidentNotification.transport := transport;
  NewIncidentNotification.reason := reason;
  NewIncidentNotification.status := NotificationStatus.Suppressed;
  NewIncidentNotification.attempt := 0;
  NewIncidentNotification.error := None;
  NewIncidentNotification.sent_at := None |}.

(** A call whose error is part of its answer. *)
Definition total {W A} (m : W → A * W) : M W A := λ w, let '(a, w') := m w in (Ok a, w').

Section Worker.
Context {W : Type} `{HasRuntime W, IncidentOpsStore W, NotificationChannelStore W,
  EscalationPolicyStore W, OnCallStore W, ContactStore W, TargetStore W, MaintenanceStore W,
  Notifier W, OnCallCache W, Jitter W, MailTasks W}.
Context `{LinkPrimitives, UrlParser, SweepPool}.
Context (wc : WorkerConfig).

(** *** mod.rs *)
Definition retry_backoff (attempt : Z) : M W (option DateTime) :=
  match retry_delay_secs attempt (EscalationConfig.retry_backoff_base_secs (cfg wc))
          (EscalationConfig.retry_backoff_cap_secs (cfg wc))
          (EscalationConfig.max_attempts (cfg wc)) with
  | None => mret None
  | Some secs =>
      jitter ← rand_u64 (secs / 2 + 1);
      now ← utc_now;
      mret (Some (now + secs_i64 (secs + jitter)))
  end.

Definition retry_backoff_hinted (attempt : Z) (error : option string) : M W (option DateTime) :=
  at_ ← retry_backoff attempt;
  match at_, retry_after_hint error with
  | None, _ => mret None
  | Some at_, Some wait => now ← utc_now; mret (Some (Z.max at_ (now + wait)))
  | Some at_, None => mret (Some at_)
  end.

(** *** deliver.rs *)
Definition deep_link (id : Uuid) : option string :=
  let base := trim_end_matches "/"%char (base_url wc) in
  if String.eqb base "" then None else Some (base +:+ "/incidents/" +:+ render_uuid id).

Definition notice (inc : OpsIncident.t) (target : Target.t) (reason : NotificationReason.t)
    (note : option string) : IncidentNotice.t := {|
  IncidentNotice.incident_id := OpsIncident.id inc;
  IncidentNotice.reason := reason;
  IncidentNotice.monitor_name := Some (Target.name target);
  IncidentNotice.title := OpsIncident.title inc;
  IncidentNotice.severity := OpsIncident.severity inc;
  IncidentNotice.urgency := OpsIncident.urgency inc;
  IncidentNotice.origin := OpsIncident.origin inc;
  IncidentNotice.started_at := OpsIncident.started_at inc;
  IncidentNotice.ended_at := OpsIncident.ended_at inc;
  IncidentNotice.error_sample := OpsIncident.error_sample inc;
  IncidentNotice.regions_down := OpsIncident.regions_down inc;
  IncidentNotice.regions_up := OpsIncident.regions_up inc;
  IncidentNotice.url := deep_link (OpsIncident.id inc);
  IncidentNotice.note := note |}.

Definition push_ack (org : OrgId) (channel : NotificationChannel.t) (n : IncidentNotice.t)
    : M W (option string) :=
  if negb (bool_decide (NotificationChannel.kind channel = ChannelKind.Ntfy))
     || bool_decide (IncidentNotice.reason n = NotificationReason.Resolved)
     || String.eqb (base_url wc) "" || String.eqb (incident_ack_secret wc) ""
  then mret None
  else
    g ← catch (generation org (IncidentNotice.incident_id n));
    match g with
    | Ok (Some g) =>
        now ← utc_now;
        mret (incident_ack_url (base_url wc) (incident_ack_secret wc) org
                (IncidentNotice.incident_id n) (NotificationChannel.id channel) g now)
    | Ok None | Err _ => mret None
    end.

Definition deliver (org : OrgId) (channel : NotificationChannel.t) (n : IncidentNotice.t)
    : M W (NotificationStatus.t * option string * option string) :=
  ack ← push_ack org channel n;
  answer ← total (notify_incident org channel ack n);
  mret match answer with
       | inl receipt => (NotificationStatus.Sent, None, receipt)
       | inr err => (NotificationStatus.Failed, Some (redact_secrets err), None)
       end.

Definition rebuild_notice (org : OrgId) (incident_id channel_id : Uuid)
    (reason : NotificationReason.t)
    : M W (option (IncidentNotice.t * NotificationChannel.t * IncidentState.t)) :=
  incident ← get org incident_id;
  match incident with
  | None => mret None
  | Some incident =>
      match OpsIncident.target_id incident with
      | None => mret None
      | Some target_id =>
          target ← get_target org target_id;
          match target with
          | None => mret None
          | Some target =>
              channel ← get_channel org channel_id;
              mret ((λ channel,
                (notice incident target reason None, channel, OpsIncident.state incident))
                <$> channel)
          end
      end
  end.

Definition resolve_on_call (org : OrgId) (schedule_id : Uuid) (at_ : DateTime)
    : M W (list UserId) :=
  cached ← cache_get (org, schedule_id);
  match cached with
  | Some users => mret users
  | None =>
      users ← resolve_now org schedule_id at_;
      _ ← match users with
          | [] => mret tt
          | _ => cache_insert (org, schedule_id) users
          end;
      mret users
  end.

Definition page_user (org : OrgId) (user : UserId) (out : list PageTarget)
    : M W (list PageTarget) :=
  contacts ← contacts_for_user org user;
  mret (fold_left (λ out cid, push_target out cid (Some user)) contacts out).

Fixpoint page_users (org : OrgId) (users : list UserId) (out : list PageTarget)
    : M W (list PageTarget) :=
  match users with
  | [] => mret out
  | user :: users => out ← page_user org user out; page_users org users out
  end.

Fixpoint resolve_each (org : OrgId) (at_ : DateTime) (targets : list EscalationTarget.t)
    (out : list PageTarget) : M W (list PageTarget) :=
  match targets with
  | [] => mret out
  | t :: targets =>
      out ← match EscalationTarget.target_type t with
            | EscalationTargetType.Channel =>
                mret match EscalationTarget.channel_id t with
                     | Some cid => push_target out cid None
                     | None => out
                     end
            | EscalationTargetType.User =>
                match EscalationTarget.user_id t with
                | Some uid => page_user org uid out
                | None => mret out
                end
            | EscalationTargetType.Schedule =>
                match EscalationTarget.schedule_id t with
                | Some sid => users ← resolve_on_call org sid at_; page_users org users out
                | None => mret out
                end
            end;
      resolve_each org at_ targets out
  end.

Definition resolve_targets (org : OrgId) (policy : EscalationPolicy.t) (level : Z)
    (at_ : DateTime) : M W (list PageTarget) :=
  match List.find (λ s, EscalationStep.level s =? level) (EscalationPolicy.steps policy) with
  | None => mret []
  | Some step => resolve_each org at_ (EscalationStep.targets step) []
  end.

(** *** sweep.rs: paging *)
Definition record_channel_health (org : OrgId) (channel : NotificationChannel.t)
    (status : NotificationStatus.t) (next_attempt_at : option DateTime) (error : option string)
    : M W unit :=
  if awaiting_verification channel then mret tt
  else
    match status, next_attempt_at with
    | NotificationStatus.Sent, _ | NotificationStatus.Failed, None =>
        let delivered := bool_decide (status = NotificationStatus.Sent) in
        health ← catch (record_delivery_outcome org (NotificationChannel.id channel) delivered);
        match health with
        | Err _ => mret tt
        | Ok health =>
            if delivered
               || negb (failure_run_reached (ch_consecutive_failures health)
                          (EscalationConfig.channel_failure_limit (cfg wc)))
               || negb (email_configured wc)
            then mret tt
            else spawn_mail {|
              FailingChannelMail.org := org;
              FailingChannelMail.channel_id := NotificationChannel.id channel;
              FailingChannelMail.channel_name := NotificationChannel.name channel;
              FailingChannelMail.transport :=
                ChannelKind.as_db_str (NotificationChannel.kind channel);
              FailingChannelMail.consecutive_failures := ch_consecutive_failures health;
              FailingChannelMail.failing_since := ch_failing_since health;
              FailingChannelMail.last_error :=
                (λ e, truncate_chars e MAX_MAIL_ERROR_CHARS) <$> error |}
        end
    | _, _ => mret tt
    end.

Definition sent_stamp (status : NotificationStatus.t) : M W (option DateTime) :=
  if bool_decide (status = NotificationStatus.Sent)
  then now ← utc_now; mret (Some now) else mret None.

(** One attempt at a recorded row: the send, or the failure an unverified
    address is given instead; the backoff; the channel's run; the row's mark.
    The tail of the loop of [page_channels] and of [retry_one]. *)
Definition attempt_row (org : OrgId) (channel : NotificationChannel.t) (n : IncidentNotice.t)
    (row : Uuid) (attempt : Z) : M W NotificationStatus.t :=
  out ← (if awaiting_verification channel
         then mret (NotificationStatus.Failed, Some "email address not verified", None)
         else deliver org channel n);
  let '(status, error, receipt) := out in
  next_attempt_at ← (if bool_decide (status = NotificationStatus.Failed)
                     then retry_backoff_hinted attempt error else mret None);
  _ ← record_channel_health org channel status next_attempt_at error;
  sent_at ← sent_stamp status;
  _ ← mark_notification org row {|
        NotificationOutcome.status := status;
        NotificationOutcome.attempt := attempt;
        NotificationOutcome.error := error;
        NotificationOutcome.sent_at := sent_at;
        NotificationOutcome.next_attempt_at := next_attempt_at;
        NotificationOutcome.provider_receipt := receipt |};
  mret status.

Fixpoint page_channels (org : OrgId) (incident_id : Uuid) (n : IncidentNotice.t)
    (reason : NotificationReason.t) (level : Z) (targets : list PageTarget) (paged : Paged)
    : M W Paged :=
  match targets with
  | [] => mret paged
  | t :: targets =>
      channel ← get_channel org (pt_channel_id t);
      match channel with
      | None => page_channels org incident_id n reason level targets paged
      | Some channel =>
          if negb (NotificationChannel.enabled channel)
          then page_channels org incident_id n reason level targets paged
          else
            row ← record_notification {|
                NewIncidentNotification.org := org;
                NewIncidentNotification.incident_id := incident_id;
                NewIncidentNotification.escalation_level := Some level;
                NewIncidentNotification.target_user_id := pt_user_id t;
                NewIncidentNotification.channel_id := Some (pt_channel_id t);
                NewIncidentNotification.transport :=
                  ChannelKind.as_db_str (NotificationChannel.kind channel);
                NewIncidentNotification.reason := reason;
                NewIncidentNotification.status := NotificationStatus.Queued;
                NewIncidentNotification.attempt := 1;
                NewIncidentNotification.error := None;
                NewIncidentNotification.sent_at := None |};
            status ← attempt_row org channel n row 1;
            let paged := {|
              recorded := recorded paged + 1;
              delivered := delivered paged
                + (if bool_decide (status = NotificationStatus.Sent) then 1 else 0) |} in
            page_channels org incident_id n reason level targets paged
      end
  end.

Definition log_paged (org : OrgId) (incident_id : Uuid) (reason : NotificationReason.t)
    (paged : Z) : M W unit :=
  if paged =? 0 then mret tt
  else
    let kind := match reason with
                | NotificationReason.Escalated => IncidentEventKind.Escalated
                | _ => IncidentEventKind.Notified
                end in
    append_event org incident_id kind Actor.System
      (Some ("paged " +:+ show paged +:+ " channel(s): " +:+ NotificationReason.as_db_str reason)).

Definition note_empty_rung (org : OrgId) (incident_id : Uuid) (level : Z) : M W unit :=
  append_event org incident_id IncidentEventKind.Escalated Actor.System
    (Some ("escalation level " +:+ show level +:+
           " reached no channel — check the policy's targets")).
(** *** episode.rs *)
Definition alerts_suppressed (org : OrgId) (target_id : Uuid) : M W bool :=
  r ← catch (store_alerts_suppressed org target_id);
  mret match r with Ok b => b | Err _ => false end.

Definition flap_state_of (org : OrgId) (target : Target.t) : M W FlapState.t :=
  let max := EscalationConfig.flap_max_opens (cfg wc) in
  if max =? 0 then mret FlapState.Steady
  else
    now ← utc_now;
    let since := now - secs_i64 (Z.max (EscalationConfig.flap_window_secs (cfg wc)) 1) in
    opens ← catch (opens_since org (Target.id target) since);
    mret match opens with
         | Ok n => flap_state n max
         | Err _ => FlapState.Steady
         end.

Definition flap_notice : string :=
  "Flapping: " +:+ show (EscalationConfig.flap_max_opens (cfg wc)) +:+ " failures in "
  +:+ show (div_ceil (EscalationConfig.flap_window_secs (cfg wc)) 60)
  +:+ "m, further alerts held unless an outage lasts "
  +:+ show (div_ceil (EscalationConfig.flap_hold_secs (cfg wc)) 60) +:+ "m.".

Definition note_flap_engaged (org : OrgId) (incident_id : Uuid) (target : Target.t) : M W unit :=
  append_event org incident_id IncidentEventKind.Notified Actor.System
    (Some (quoted (Target.name target) +:+ " has opened "
           +:+ show (EscalationConfig.flap_max_opens (cfg wc)) +:+ " incidents within "
           +:+ show (div_ceil (EscalationConfig.flap_window_secs (cfg wc)) 60)
           +:+ " minutes — alerts for further opens are held until it settles")).

Definition record_unreachable (org : OrgId) (incident_id : Uuid) (reason : NotificationReason.t)
    : M W unit :=
  _ ← record_notification (marker org incident_id UNREACHABLE_TRANSPORT reason); mret tt.

Definition hold (org : OrgId) (incident_id : Uuid) (reason : NotificationReason.t) : M W unit :=
  _ ← record_notification (marker org incident_id DAMPED_TRANSPORT reason);
  append_event org incident_id IncidentEventKind.Note Actor.System
    (Some ("alert held: the monitor is flapping. It pages anyway if this incident is still open in "
           +:+ show (div_ceil (EscalationConfig.flap_hold_secs (cfg wc)) 60) +:+ " minutes")).

Definition hold_for_maintenance (org : OrgId) (incident_id : Uuid)
    (reason : NotificationReason.t) : M W unit :=
  _ ← record_notification (marker org incident_id MAINTENANCE_TRANSPORT reason);
  append_event org incident_id IncidentEventKind.Note Actor.System
    (Some ("alert held: the monitor is in a maintenance window. It pages "
           +:+ "when the window ends if this incident is still open")).

(** The application token of a Pushover channel. *)
Definition pushover_receipts (org : OrgId) (channel_id : Uuid) : M W (option string) :=
  channel ← get_channel org channel_id;
  mret match channel with
       | Some c => match NotificationChannel.config c with
                   | ChannelConfig.Pushover p => Some (po_token p)
                   | _ => None
                   end
       | None => None
       end.

Definition cancel_one (org : OrgId) (ack : EmergencyAck.t) : M W unit :=
  client ← catch (pushover_receipts org (EmergencyAck.channel_id ack));
  match client with
  | Ok None => logged (clear_receipt org (EmergencyAck.id ack))
  | Ok (Some token) =>
      r ← catch (cancel_receipt token (EmergencyAck.receipt ack));
      match r with
      | Err _ => mret tt
      | Ok _ => logged (clear_receipt org (EmergencyAck.id ack))
      end
  | Err _ => mret tt
  end.

Definition cancel_emergency (org : OrgId) (incident_id : Uuid) : M W unit :=
  acks ← catch (emergency_acks_for_incident org incident_id);
  match acks with
  | Err _ => mret tt
  | Ok acks => for_each acks (cancel_one org)
  end.

Definition notify_resolution (org : OrgId) (incident : OpsIncident.t) (target : Target.t)
    : M W unit :=
  _ ← cancel_emergency org (OpsIncident.id incident);
  if negb (Target.notify_recovery target) then mret tt
  else
    rows ← notifications_for org (OpsIncident.id incident);
    match resolvable_channels rows with
    | [] => mret tt
    | channels =>
        let n := notice incident target NotificationReason.Resolved None in
        paged ← page_channels org (OpsIncident.id incident) n NotificationReason.Resolved
                  (OpsIncident.escalation_level incident) (channel_targets channels) paged_default;
        log_paged org (OpsIncident.id incident) NotificationReason.Resolved (delivered paged)
    end.

(** Page the rung the policy starts at, or the bound channels without one. *)
Definition page_first_rung (org : OrgId) (incident : OpsIncident.t) (target : Target.t)
    (reason : NotificationReason.t) (n : IncidentNotice.t) : M W unit :=
  let id := OpsIncident.id incident in
  policy_id ← resolve_for_target org (Target.id target);
  match policy_id with
  | Some policy_id =>
      policy ← get_policy org policy_id;
      match policy with
      | None => mret tt
      | Some policy =>
          match next_step (EscalationPolicy.steps policy) (EscalationPolicy.repeat_count policy)
                  0 0 with
          | EscalationDecision.Page level _ delay_secs =>
              now ← utc_now;
              targets ← resolve_targets org policy level now;
              _ ← match targets with [] => note_empty_rung org id level | _ => mret tt end;
              paged ← page_channels org id n reason level targets paged_default;
              now ← utc_now;
              _ ← begin_escalation org id policy_id level (Some (now + seconds delay_secs));
              log_paged org id reason (delivered paged)
          | EscalationDecision.Exhausted =>
              _ ← begin_escalation org id policy_id 0 None; mret tt
          end
      end
  | None =>
      channels ← paging_channel_ids org target;
      paged ← page_channels org id n reason 0 (channel_targets channels) paged_default;
      _ ← log_paged org id reason (delivered paged);
      if recorded paged =? 0 then record_unreachable org id reason else mret tt
  end.

Definition open_episode (org : OrgId) (incident : OpsIncident.t) (target : Target.t)
    (reason : NotificationReason.t) (damper : Damper.t) : M W unit :=
  let id := OpsIncident.id incident in
  already ← notifications_for org id;
  if open_episode_active already then mret tt
  else if bool_decide (damper = Damper.Skip)
          && negb (bool_decide (OpsIncident.state incident = IncidentState.Triggered))
  then mret tt
  else
    let operator_declared := bool_decide (OpsIncident.origin incident = IncidentOrigin.Manual) in
    suppressed ← (if operator_declared then mret false
                  else alerts_suppressed org (Target.id target));
    if suppressed : bool then hold_for_maintenance org id reason
    else
      flap ← (if bool_decide (damper = Damper.Apply) && negb operator_declared
              then flap_state_of org target else mret FlapState.Steady);
      match flap with
      | FlapState.Damped => hold org id reason
      | FlapState.Crossing =>
          _ ← note_flap_engaged org id target;
          page_first_rung org incident target reason
            (notice incident target reason (Some flap_notice))
      | FlapState.Steady =>
          page_first_rung org incident target reason (notice incident target reason None)
      end.

Definition page_with (org : OrgId) (incident_id : Uuid) (reason : NotificationReason.t)
    (damper : Damper.t) : M W unit :=
  incident ← get org incident_id;
  match incident with
  | None => mret tt
  | Some incident =>
      match OpsIncident.target_id incident with
      | None => mret tt
      | Some target_id =>
          target ← get_target org target_id;
          match target with
          | None => mret tt
          | Some target =>
              if (negb (Target.enabled target) || is_some (Target.plan_hold_at target))
                 && negb (bool_decide (reason = NotificationReason.Resolved))
              then mret tt
              else
                match reason with
                | NotificationReason.Opened => open_episode org incident target reason damper
                | NotificationReason.Reopened =>
                    _ ← cancel_emergency org (OpsIncident.id incident);
                    open_episode org incident target reason damper
                | NotificationReason.Resolved => notify_resolution org incident target
                | NotificationReason.Escalated | NotificationReason.Reminder
                | NotificationReason.NoData | NotificationReason.DataResumed => mret tt
                end
          end
      end
  end.

Definition page (org : OrgId) (incident_id : Uuid) (reason : NotificationReason.t) : M W unit :=
  page_with org incident_id reason Damper.Apply.

(** *** episode.rs: receipts *)
Definition page_is_spent (ack : EmergencyAck.t) : M W bool :=
  incident ← catch (get (EmergencyAck.org ack) (EmergencyAck.incident_id ack));
  match incident with
  | Ok None => mret true
  | Err _ => mret false
  | Ok (Some incident) =>
      if negb (bool_decide (OpsIncident.state incident = IncidentState.Triggered))
      then mret true
      else
        current ← catch (generation (EmergencyAck.org ack) (EmergencyAck.incident_id ack));
        if match current with
           | Ok (Some current) => negb (current =? EmergencyAck.generation ack)
           | Ok None | Err _ => false
           end
        then mret true
        else
          match OpsIncident.target_id incident with
          | None => mret false
          | Some target_id =>
              target ← catch (get_target (EmergencyAck.org ack) target_id);
              mret match target with
                   | Ok (Some t) => negb (Target.enabled t) || is_some (Target.plan_hold_at t)
                   | Ok None | Err _ => false
                   end
          end
  end.

(** [let _ = self.ops.mark_acked(org, id, Utc::now()).await]. *)
Definition mark_acked_now (ack : EmergencyAck.t) : M W unit :=
  now ← utc_now; logged (mark_acked (EmergencyAck.org ack) (EmergencyAck.id ack) now).

Definition poll_one_ack (ack : EmergencyAck.t) : M W unit :=
  let org := EmergencyAck.org ack in
  let retire := logged (clear_receipt org (EmergencyAck.id ack)) in
  client ← catch (pushover_receipts org (EmergencyAck.channel_id ack));
  match client with
  | Ok None => retire
  | Err _ => mret tt
  | Ok (Some token) =>
      state ← catch (poll_receipt token (EmergencyAck.receipt ack));
      match state with
      | Err _ => mret tt
      | Ok state =>
          if acknowledged_ state then
            outcome ← catch (acknowledge org (EmergencyAck.incident_id ack) Actor.Link
                               (Some "Acknowledged in Pushover")
                               (Some (EmergencyAck.generation ack)));
            match outcome with
            | Ok (LifecycleOutcome.Updated _) =>
                _ ← mark_acked_now ack;
                cancel_emergency org (EmergencyAck.incident_id ack)
            | Ok LifecycleOutcome.NotFound | Ok (LifecycleOutcome.IllegalTransition _)
            | Ok LifecycleOutcome.Stale => mark_acked_now ack
            | Err _ => mret tt
            end
          else if expired_ state then retire
          else
            spent ← page_is_spent ack;
            if spent : bool then
              r ← catch (cancel_receipt token (EmergencyAck.receipt ack));
              match r with Err _ => mret tt | Ok _ => retire end
            else mret tt
      end
  end.

(** *** episode.rs: the deferred releases *)

(** [max_by_key]: the last of the newest. *)
Definition newest_held (rows : list IncidentNotification.t) : option IncidentNotification.t :=
  fold_left (λ best n,
    match best with
    | Some b => if IncidentNotification.created_at n <? IncidentNotification.created_at b
                then Some b else Some n
    | None => Some n
    end)
    (List.filter (λ n, String.eqb (IncidentNotification.transport n) DAMPED_TRANSPORT
                       || String.eqb (IncidentNotification.transport n) MAINTENANCE_TRANSPORT)
       rows) None.

Definition held_reason (org : OrgId) (incident_id : Uuid) : M W NotificationReason.t :=
  rows ← catch (notifications_for org incident_id);
  mret match rows with
       | Ok rows => default NotificationReason.Opened
                      (IncidentNotification.reason <$> newest_held rows)
       | Err _ => NotificationReason.Opened
       end.

Definition release_one (d : DueIncident.t) : M W unit :=
  let org := DueIncident.org d in
  let id := DueIncident.id d in
  before ← notifications_for org id;
  reason ← held_reason org id;
  _ ← page_with org id reason Damper.Skip;
  after ← notifications_for org id;
  if existsb (λ n, negb (bool_decide (IncidentNotification.id n
                                      ∈ IncidentNotification.id <$> before))) after
  then mret tt
  else _ ← record_notification (marker org id RELEASED_TRANSPORT reason); mret tt.

(** [let due = match scan.await { Ok(d) => d, Err(_) => return }], then the pool
    over what was scanned; an entry's error is logged. *)
Definition sweep_over {A} (scan : M W (list A)) (step : A → M W unit) : M W unit :=
  due ← catch scan;
  match due with
  | Err _ => mret tt
  | Ok due => for_each (started due) (λ d, logged (step d))
  end.

Definition reconcile_one (d : DueIncident.t) : M W unit :=
  page (DueIncident.org d) (DueIncident.id d) NotificationReason.Opened.

Definition reconcile : M W unit :=
  now ← utc_now;
  let grace := secs_i64 (Z.max (EscalationConfig.tick_interval_secs (cfg wc)) 1) in
  let window := secs_i64 (Z.max (EscalationConfig.reconcile_window_secs (cfg wc)) 1) in
  sweep_over (due_for_reconcile (now - window, now - grace) (page_limit (cfg wc))) reconcile_one.

Definition release_held : M W unit :=
  let hold := secs_i64 (Z.max (EscalationConfig.flap_hold_secs (cfg wc)) 1) in
  now ← utc_now;
  sweep_over (due_for_flap_release now hold (page_limit (cfg wc))) release_one.

Definition release_maintenance : M W unit :=
  sweep_over (due_for_maintenance_release (page_limit (cfg wc))) release_one.

Definition poll_acks : M W unit :=
  sweep_over (due_emergency_acks (page_limit (cfg wc))) poll_one_ack.

(** *** sweep.rs: the ladder *)
Definition SUPPRESSED_ESCALATION_RETRY_SECS : Z := 60.

(** Leave the incident on the rung it is on, with the timer where it is put. *)
Definition stay_on_rung (d : DueIncident.t) (next_at : option DateTime) : M W unit :=
  _ ← record_escalation (DueIncident.org d) (DueIncident.id d)
        (DueIncident.escalation_level d) (DueIncident.escalation_round d) next_at;
  mret tt.

(** The [Page] arm of [escalate_one]. *)
Definition page_next_rung (d : DueIncident.t) (policy : EscalationPolicy.t)
    (level round delay_secs : Z) : M W unit :=
  let org := DueIncident.org d in
  let id := DueIncident.id d in
  incident ← get org id;
  match incident with
  | None => mret tt
  | Some incident =>
      match OpsIncident.target_id incident with
      | None => mret tt
      | Some target_id =>
          target ← get_target org target_id;
          match target with
          | None => mret tt
          | Some target =>
              quiet ← (if negb (Target.enabled target) then mret true
                       else alerts_suppressed org (Target.id target));
              if quiet : bool then
                now ← utc_now;
                stay_on_rung d (Some (now + seconds SUPPRESSED_ESCALATION_RETRY_SECS))
              else
                let n := notice incident target NotificationReason.Escalated None in
                now ← utc_now;
                targets ← resolve_targets org policy level now;
                _ ← match targets with [] => note_empty_rung org id level | _ => mret tt end;
                paged ← page_channels org id n NotificationReason.Escalated level targets
                          paged_default;
                now ← utc_now;
                _ ← record_escalation org id level round (Some (now + seconds delay_secs));
                log_paged org id NotificationReason.Escalated (delivered paged)
          end
      end
  end.

Definition escalate_one (d : DueIncident.t) : M W unit :=
  match DueIncident.escalation_policy_id d with
  | None => stay_on_rung d None
  | Some policy_id =>
      policy ← get_policy (DueIncident.org d) policy_id;
      match policy with
      | None => stay_on_rung d None
      | Some policy =>
          match next_step (EscalationPolicy.steps policy) (EscalationPolicy.repeat_count policy)
                  (DueIncident.escalation_level d) (DueIncident.escalation_round d) with
          | EscalationDecision.Page level round delay_secs =>
              page_next_rung d policy level round delay_secs
          | EscalationDecision.Exhausted =>
              _ ← stay_on_rung d None;
              append_event (DueIncident.org d) (DueIncident.id d) IncidentEventKind.Escalated
                Actor.System (Some "escalation policy exhausted")
          end
      end
  end.

Definition escalate_due : M W unit :=
  let lease := Z.max (wrap_i64 (Z.max (EscalationConfig.tick_interval_secs (cfg wc)) 1) * 2) 60 in
  now ← utc_now;
  sweep_over (due_for_escalation now (page_limit (cfg wc)) lease) escalate_one.

(** *** sweep.rs: reminders *)
Definition renotify_one (d : DueIncident.t) : M W unit :=
  let org := DueIncident.org d in
  let id := DueIncident.id d in
  incident ← get org id;
  match incident with
  | None => mret tt
  | Some incident =>
      if negb (bool_decide (OpsIncident.state incident = IncidentState.Triggered)) then mret tt
      else
        match OpsIncident.target_id incident with
        | None => mret tt
        | Some target_id =>
            target ← get_target org target_id;
            match target with
            | None => mret tt
            | Some target =>
                if negb (Target.enabled target) || (Target.renotify_interval_secs target =? 0)
                then mret tt
                else
                  suppressed ← alerts_suppressed org target_id;
                  if suppressed : bool then mret tt
                  else
                    rows ← notifications_for org id;
                    match resolvable_channels rows with
                    | [] => mret tt
                    | channels =>
                        let n := notice incident target NotificationReason.Reminder None in
                        paged ← page_channels org id n NotificationReason.Reminder
                                  (OpsIncident.escalation_level incident)
                                  (channel_targets channels) paged_default;
                        _ ← (if 0 <? recorded paged then bump_renotify_count org id
                             else mret tt);
                        log_paged org id NotificationReason.Reminder (delivered paged)
                    end
            end
        end
  end.

Definition renotify_due : M W unit :=
  now ← utc_now;
  sweep_over (due_for_renotify now (page_limit (cfg wc))) renotify_one.

(** *** sweep.rs: retries *)
Definition finished (status : NotificationStatus.t) (attempt : Z) (error : string)
    (next_attempt_at : option DateTime) : NotificationOutcome.t := {|
  NotificationOutcome.status := status;
  NotificationOutcome.attempt := attempt;
  NotificationOutcome.error := Some error;
  NotificationOutcome.sent_at := None;
  NotificationOutcome.next_attempt_at := next_attempt_at;
  NotificationOutcome.provider_receipt := None |}.

Definition retry_one (p : PendingNotification.t) : M W unit :=
  let org := PendingNotification.org p in
  let row := PendingNotification.id p in
  let reason := PendingNotification.reason p in
  let next_attempt := PendingNotification.attempt p + 1 in
  rebuilt ← match PendingNotification.channel_id p with
            | Some cid => rebuild_notice org (PendingNotification.incident_id p) cid reason
            | None => mret None
            end;
  match rebuilt with
  | None =>
      next_attempt_at ← retry_backoff next_attempt;
      mark_notification org row
        (finished NotificationStatus.Failed next_attempt
           "channel, monitor or incident no longer exists" next_attempt_at)
  | Some (n, channel, state) =>
      if negb (NotificationChannel.enabled channel) then
        mark_notification org row
          (finished NotificationStatus.Suppressed next_attempt
             "channel was turned off before the retry landed" None)
      else if reason_is_stale reason state then
        mark_notification org row
          (finished NotificationStatus.Suppressed next_attempt
             "incident state moved on before the retry landed" None)
      else _ ← attempt_row org channel n row next_attempt; mret tt
  end.

Definition retry_pending : M W unit :=
  let max_attempts := wrap_i32 (EscalationConfig.max_attempts (cfg wc)) in
  now ← utc_now;
  sweep_over (pending_notifications now (page_limit (cfg wc)) max_attempts) retry_one.

(** *** episode.rs: [sweep] *)
Definition sweep : M W unit :=
  _ ← reconcile;
  _ ← release_held;
  _ ← release_maintenance;
  _ ← escalate_due;
  _ ← renotify_due;
  _ ← retry_pending;
  poll_acks.

End Worker.

(** ** The mail about a failing channel (sweep.rs: [FailingChannelMail])

    The template's fields; the sender, a mail service's, says whether it took
    the message. *)
Module ChannelFailing.
Record t := {
  channel_name : string;
  transport : string;
  org_name : option string;
  consecutive_failures : Z;
  failing_secs : option Z;
  last_error : option string;
  channel_url : option string;
}.
End ChannelFailing.
Class MailSender (W : Type) := { send_mail : string → ChannelFailing.t → W → bool * W }.

Section OwnerMail.
Context {W : Type} `{HasRuntime W, NotificationChannelStore W, OrgDirectory W, MailSender W}.
Context `{LinkPrimitives}.
Context (base_url : string).

Definition channel_edit_url (channel_id : Uuid) : option string :=
  let base := trim_end_matches "/"%char base_url in
  if String.eqb base "" then None
  else Some (base +:+ "/settings/notifications/" +:+ render_uuid channel_id +:+ "/edit").

Definition failing_secs_of (m : FailingChannelMail.t) : M W (option Z) :=
  match FailingChannelMail.failing_since m with
  | None => mret None
  | Some since => now ← utc_now; mret (Some (num_seconds (now - since)))
  end.

(** The loop of [send_to]: every owner is tried, whatever the others' fate. *)
Fixpoint send_each (template : ChannelFailing.t) (recipients : list string) (told : bool)
    : M W bool :=
  match recipients with
  | [] => mret told
  | to_ :: recipients =>
      sent ← total (send_mail to_ template);
      send_each template recipients (if sent : bool then true else told)
  end.

Definition send_to (m : FailingChannelMail.t) (recipients : list string) : M W bool :=
  org_name ← catch (display_name (FailingChannelMail.org m));
  failing_secs ← failing_secs_of m;
  send_each {|
    ChannelFailing.channel_name := FailingChannelMail.channel_name m;
    ChannelFailing.transport := FailingChannelMail.transport m;
    ChannelFailing.org_name := match org_name with Ok n => n | Err _ => None end;
    ChannelFailing.consecutive_failures := FailingChannelMail.consecutive_failures m;
    ChannelFailing.failing_secs := failing_secs;
    ChannelFailing.last_error := FailingChannelMail.last_error m;
    ChannelFailing.channel_url := channel_edit_url (FailingChannelMail.channel_id m) |}
    recipients false.

Definition claim_and_send (m : FailingChannelMail.t) : M W unit :=
  let org := FailingChannelMail.org m in
  let id := FailingChannelMail.channel_id m in
  recipients ← catch (owner_emails org);
  match recipients with
  | Err _ | Ok [] => mret tt
  | Ok recipients =>
      claimed ← catch (claim_failure_alert org id);
      match claimed with
      | Ok None | Err _ => mret tt
      | Ok (Some claimed) =>
          told ← send_to m recipients;
          if told : bool then mret tt
          else logged (release_failure_alert org id claimed)
      end
  end.
End OwnerMail.
