(* ===== verification/EngineWorld.v ===== *)
(** * The engine on the in-memory stores

    A world for the worker of [Engine]: the in-memory incident and channel
    stores, what was sent, mailed and cancelled, and oracles for everything the
    engine only asks (policies, rosters, contacts, monitors, maintenance, the
    transports' answers), each of which may change with time. The core lemma
    says what one attempt at a page does to this world. *)

From Stdlib Require Import Ascii.
From S2P Require Import Prelude Text Domain Incident Target IncidentOps IncidentOpsMem.
From S2P Require Import EscalationPolicy EscalationRules Transports Channels Engine.

(** ** The world *)

(** A page handed to a transport, with the length of the paging log then. *)
Record Sent := { sent_channel : Uuid; sent_notice : IncidentNotice.t; log_length : nat }.

Module World.
Record t := {
  state : MemState;
  vec : list MemEntry.t;
  clock_reads : nat;
  ids_drawn : nat;
  sends : list Sent;
  mails : list FailingChannelMail.t;
  rosters : gmap (OrgId * Uuid) (list UserId);
  cancelled : list string;
}.

Definition set_state (v : MemState) (w : t) : t := {|
  state := v; vec := vec w; clock_reads := clock_reads w; ids_drawn := ids_drawn w;
  sends := sends w; mails := mails w; rosters := rosters w; cancelled := cancelled w |}.
Definition set_vec (v : list MemEntry.t) (w : t) : t := {|
  state := state w; vec := v; clock_reads := clock_reads w; ids_drawn := ids_drawn w;
  sends := sends w; mails := mails w; rosters := rosters w; cancelled := cancelled w |}.
Definition tick (w : t) : t := {|
  state := state w; vec := vec w; clock_reads := S (clock_reads w); ids_drawn := ids_drawn w;
  sends := sends w; mails := mails w; rosters := rosters w; cancelled := cancelled w |}.
Definition draw (w : t) : t := {|
  state := state w; vec := vec w; clock_reads := clock_reads w; ids_drawn := S (ids_drawn w);
  sends := sends w; mails := mails w; rosters := rosters w; cancelled := cancelled w |}.
Definition add_send (c : Uuid) (n : IncidentNotice.t) (w : t) : t := {|
  state := state w; vec := vec w; clock_reads := clock_reads w; ids_drawn := ids_drawn w;
  sends := sends w ++ [{| sent_channel := c; sent_notice := n;
                          log_length := length (notifications (state w)) |}]; mails := mails w; rosters := rosters w;
  cancelled := cancelled w |}.
Definition add_mail (m : FailingChannelMail.t) (w : t) : t := {|
  state := state w; vec := vec w; clock_reads := clock_reads w; ids_drawn := ids_drawn w;
  sends := sends w; mails := mails w ++ [m]; rosters := rosters w; cancelled := cancelled w |}.
Definition add_roster (k : OrgId * Uuid) (v : list UserId) (w : t) : t := {|
  state := state w; vec := vec w; clock_reads := clock_reads w; ids_drawn := ids_drawn w;
  sends := sends w; mails := mails w; rosters := <[k := v]> (rosters w);
  cancelled := cancelled w |}.
Definition add_cancel (r : string) (w : t) : t := {|
  state := state w; vec := vec w; clock_reads := clock_reads w; ids_drawn := ids_drawn w;
  sends := sends w; mails := mails w; rosters := rosters w;
  cancelled := cancelled w ++ [r] |}.
End World.

(** What the engine asks of the rest of the system, by the reading of the clock
    it asks at. *)
Class Surroundings := {
  policy_bound : nat → OrgId → Uuid → result (option Uuid);
  policy_at : nat → OrgId → Uuid → result (option EscalationPolicy.t);
  on_call_at : nat → OrgId → Uuid → result (list UserId);
  contacts_at : nat → OrgId → UserId → result (list Uuid);
  target_at : nat → OrgId → Uuid → result (option Target.t);
  in_maintenance : nat → OrgId → Uuid → result bool;
  transport_answer : nat → NotificationChannel.t → option string → IncidentNotice.t →
    option string + string;
  receipt_state : nat → string → string → result ReceiptState;
  cancel_answer : nat → string → string → result unit;
  random : nat → Z → Z;
}.

Section Instances.
Context `{Environment, Surroundings}.
Import World.

#[global] Instance world_runtime : HasRuntime t := {
  utc_now := λ w, (Ok (clock (clock_reads w)), tick w);
  now_v7 := λ w, (Ok (fresh (ids_drawn w)), draw w);
}.
#[global] Instance world_ops : HasOps t := { ops_state := state; set_ops := set_state }.
#[global] Instance world_channels : HasChannels t := { entries := vec; set_entries := set_vec }.
#[global] Instance world_policies : EscalationPolicyStore t := {
  resolve_for_target org id := λ w, (policy_bound (clock_reads w) org id, w);
  get_policy org id := λ w, (policy_at (clock_reads w) org id, w);
}.
#[global] Instance world_on_call : OnCallStore t :=
  { resolve_now org id _ := λ w, (on_call_at (clock_reads w) org id, w) }.
#[global] Instance world_contacts : ContactStore t :=
  { contacts_for_user org u := λ w, (contacts_at (clock_reads w) org u, w) }.
#[global] Instance world_targets : TargetStore t :=
  { get_target org id := λ w, (target_at (clock_reads w) org id, w) }.
#[global] Instance world_maintenance : MaintenanceStore t :=
  { store_alerts_suppressed org id := λ w, (in_maintenance (clock_reads w) org id, w) }.
#[global] Instance world_notifier : Notifier t := {
  notify_incident _ c ack n := λ w,
    (transport_answer (clock_reads w) c ack n, add_send (NotificationChannel.id c) n w);
  poll_receipt token r := λ w, (receipt_state (clock_reads w) token r, w);
  cancel_receipt token r := λ w, (cancel_answer (clock_reads w) token r, add_cancel r w);
}.
#[global] Instance world_cache : OnCallCache t := {
  cache_get k := λ w, (Ok (rosters w !! k), w);
  cache_insert k v := λ w, (Ok tt, add_roster k v w);
}.
#[global] Instance world_jitter : Jitter t :=
  { rand_u64 n := λ w, (Ok (random (clock_reads w) n), w) }.
#[global] Instance world_mail : MailTasks t := { spawn_mail m := λ w, (Ok tt, add_mail m w) }.
End Instances.

(** ** What paging leaves alone *)

(** A channel without the run of its deliveries. *)
Definition identity (c : NotificationChannel.t) : NotificationChannel.t :=
  NotificationChannel.set_last_delivered_at None
    (NotificationChannel.set_failing_since None
       (NotificationChannel.set_consecutive_failures 0 c)).
Definition entry_identity (e : MemEntry.t) : OrgId * NotificationChannel.t :=
  (MemEntry.org e, identity (MemEntry.ch e)).
Definition channels_of (w : World.t) : list (OrgId * NotificationChannel.t) :=
  entry_identity <$> World.vec w.
Definition channel_at (w : World.t) (org : OrgId) (id : Uuid) : option NotificationChannel.t :=
  snd <$> List.find (λ e, bool_decide (e.1 = org) && bool_decide (NotificationChannel.id e.2 = id))
            (channels_of w).

(** Time has passed, pages may have gone out, mail tasks may have been spawned;
    the stores hold what they held, the delivery runs apart. *)
Record aside (w w' : World.t) : Prop := {
  aside_state : World.state w' = World.state w;
  aside_channels : channels_of w' = channels_of w;
  aside_ids : World.ids_drawn w' = World.ids_drawn w;
  aside_clock : (World.clock_reads w ≤ World.clock_reads w')%nat;
  aside_cancelled : World.cancelled w' = World.cancelled w;
}.

#[global] Instance aside_preorder : PreOrder aside.
Proof.
  split; [by split|]. intros w1 w2 w3 [] []. split; try congruence. lia.
Qed.

(** [aside], with nothing sent. *)
Definition unheard (w w' : World.t) : Prop := aside w w' ∧ World.sends w' = World.sends w.
#[global] Instance unheard_preorder : PreOrder unheard.
Proof.
  split; [by split|]. intros w1 w2 w3 [] []. split; [by transitivity w2|congruence].
Qed.

Lemma unheard_tick w : unheard w (World.tick w).
Proof. repeat split; simpl; lia. Qed.
#[export] Hint Resolve unheard_tick : steps.

Lemma find_fmap {A B} (g : A → B) (p : B → bool) (l : list A) :
  List.find p (g <$> l) = g <$> List.find (λ x, p (g x)) l.
Proof. induction l as [|x l IH]; csimpl; [done|]. by destruct (p (g x)). Qed.

Section Attempts.
Context `{Environment, Surroundings, LinkPrimitives, UrlParser, UnicodeText, SweepPool}.
Context (wc : WorkerConfig).
Import World.

(** Evaluate the monad and the oracles on this world. *)
Local Ltac run :=
  cbv [mbind M_bind mret M_ret throw get_world modify gets catch logged utc_now now_v7
       world_runtime world_ops world_channels world_policies world_targets world_maintenance
       world_notifier world_cache world_jitter world_mail rand_u64 ops_state set_ops entries
       set_entries total notify_incident spawn_mail]; simpl.

Lemma get_channel_run org id w :
  ∃ c, get_channel org id w = (Ok c, w) ∧ identity <$> c = channel_at w org id.
Proof.
  eexists. split; [done|]. unfold channel_at, channels_of.
  rewrite find_fmap, <-!option_fmap_compose. unfold owns, in_org, MemEntry.id. simpl.
  by destruct (List.find (A:=MemEntry.t) _ _).
Qed.

Lemma record_delivery_unheard org id d : steps_in unheard (record_delivery_outcome org id d).
Proof.
  intros w. cbn [record_delivery_outcome mem_channel_store]. unfold mem_record_delivery_outcome, entries_, edit_entry, put_entries.
  run. destruct (List.find (A:=MemEntry.t) _ _) as [e|] eqn:He; run; [|reflexivity].
  assert (∀ e' : MemEntry.t, entry_identity e' = entry_identity e →
    entry_identity <$> update_first (owns org id) (λ _, e') (vec w) = entry_identity <$> vec w) as Hid.
  { intros e' Hid. clear -He Hid. induction (vec w) as [|x l IH]; simpl in *; [done|].
    destruct (owns org id x); rewrite !fmap_cons; [by injection He as ->; rewrite Hid|]. by rewrite IH. }
  destruct d; run; [|destruct (NotificationChannel.failing_since _); run];
    (repeat split; simpl; [|lia]; apply Hid; by destruct e as [? ? ? []]).
Qed.

Lemma generation_run org id w :
  ∃ g w', generation org id w = (Ok g, w') ∧ unheard w w'.
Proof.
  cbn [generation mem_ops_store]. unfold mem_generation, state_, reopen_count. run.
  destruct (known id (state w)); eexists _, _; (split; [reflexivity|]);
    auto with steps; reflexivity.
Qed.

Lemma push_ack_unheard org ch n :
  ∀ w, ∃ a w', push_ack wc org ch n w = (Ok a, w') ∧ unheard w w'.
Proof.
  intros w. unfold push_ack. destruct (_ || _); [by eexists _, _|].
  destruct (generation_run org (IncidentNotice.incident_id n) w) as (g & w1 & Hg & Hu).
  unfold mbind, M_bind, catch. rewrite Hg. destruct g; run; eexists _, _; (split; [done|]); [|done].
  transitivity w1; [done|apply unheard_tick].
Qed.

(** What one attempt came to. *)
Record attempted (awaiting : bool) (attempt : Z) (o : NotificationOutcome.t) : Prop := {
  at_attempt : NotificationOutcome.attempt o = attempt;
  at_status : NotificationOutcome.status o = NotificationStatus.Sent
            ∨ NotificationOutcome.status o = NotificationStatus.Failed;
  at_awaiting : awaiting = true → NotificationOutcome.status o = NotificationStatus.Failed;
  at_error : is_Some (NotificationOutcome.error o)
           ↔ NotificationOutcome.status o = NotificationStatus.Failed;
  at_sent : is_Some (NotificationOutcome.sent_at o)
          ↔ NotificationOutcome.status o = NotificationStatus.Sent;
  at_retry : is_Some (NotificationOutcome.next_attempt_at o)
           ↔ NotificationOutcome.status o = NotificationStatus.Failed
             ∧ attempt < wrap_i32 (EscalationConfig.max_attempts (cfg wc));
  at_receipt : is_Some (NotificationOutcome.provider_receipt o) →
    NotificationOutcome.status o = NotificationStatus.Sent;
}.

(** The send of one attempt, as the world logs it. *)
Definition send_of (ch : NotificationChannel.t) (n : IncidentNotice.t) (w : t) : Sent := {|
  sent_channel := NotificationChannel.id ch; sent_notice := n;
  log_length := length (notifications (state w)) |}.

Lemma deliver_run org ch n w :
  ∃ st err rc w', deliver wc org ch n w = (Ok (st, err, rc), w') ∧ aside w w' ∧
    sends w' = sends w ++ [send_of ch n w] ∧
    ((st = NotificationStatus.Sent ∧ err = None)
     ∨ (st = NotificationStatus.Failed ∧ is_Some err ∧ rc = None)).
Proof.
  destruct (push_ack_unheard org ch n w) as (a & w1 & Hack & [Haside Hsends]).
  unfold deliver. rewrite (bind_Ok _ _ _ _ _ Hack). run.
  destruct (transport_answer _ ch a n) as [rc|err]; eexists _, _, _, _; (split; [done|]);
    (split_and!; [by destruct Haside; split|simpl; rewrite Hsends; unfold send_of;
      by rewrite (aside_state _ _ Haside)|eauto]).
Qed.

Lemma backoff_run attempt error w :
  ∃ at_ w', retry_backoff_hinted wc attempt error w = (Ok at_, w') ∧ unheard w w' ∧
    (is_Some at_ ↔ attempt < wrap_i32 (EscalationConfig.max_attempts (cfg wc))).
Proof.
  unfold retry_backoff_hinted, retry_backoff, retry_delay_secs.
  destruct (wrap_i32 _ <=? attempt) eqn:Hmax; bool_cases; run.
  - eexists _, _. split_and!; [done|reflexivity|]. rewrite is_Some_alt. lia.
  - destruct (retry_after_hint error) as [wait|]; run; eexists _, _; (split_and!; [done| |split; [done|by eexists]]).
    + transitivity (tick w); auto with steps.
    + auto with steps.
Qed.

Lemma backoff_none attempt w :
  ∃ at_ w', retry_backoff wc attempt w = (Ok at_, w') ∧ unheard w w' ∧
    (is_Some at_ ↔ attempt < wrap_i32 (EscalationConfig.max_attempts (cfg wc))).
Proof.
  unfold retry_backoff, retry_delay_secs.
  destruct (wrap_i32 _ <=? attempt) eqn:Hmax; bool_cases; run; eexists _, _.
  - split_and!; [done|reflexivity|]. rewrite is_Some_alt. lia.
  - split_and!; [done|auto with steps|]. split; [done|by eexists].
Qed.

Lemma sent_stamp_run st w :
  ∃ at_ w', sent_stamp st w = (Ok at_, w') ∧ unheard w w' ∧
    (is_Some at_ ↔ st = NotificationStatus.Sent).
Proof.
  unfold sent_stamp. case_bool_decide; run; eexists _, _; (split_and!; [done|auto with steps|]).
  - split; [done|by eexists].
  - reflexivity.
  - rewrite is_Some_alt. naive_solver.
Qed.

Lemma health_run org ch st at_ err w :
  ∃ w', record_channel_health wc org ch st at_ err w = (Ok tt, w') ∧ unheard w w'.
Proof.
  assert (∀ d, ∃ w',
    (health ← catch (record_delivery_outcome org (NotificationChannel.id ch) d);
     match health with
     | Err _ => mret tt
     | Ok health =>
         if d || negb (failure_run_reached (ch_consecutive_failures health)
                         (EscalationConfig.channel_failure_limit (cfg wc)))
              || negb (email_configured wc)
         then mret tt
         else spawn_mail {|
              FailingChannelMail.org := org;
              FailingChannelMail.channel_id := NotificationChannel.id ch;
              FailingChannelMail.channel_name := NotificationChannel.name ch;
              FailingChannelMail.transport :=
                ChannelKind.as_db_str (NotificationChannel.kind ch);
              FailingChannelMail.consecutive_failures := ch_consecutive_failures health;
              FailingChannelMail.failing_since := ch_failing_since health;
              FailingChannelMail.last_error :=
                (λ e, truncate_chars e MAX_MAIL_ERROR_CHARS) <$> err |}
     end) w = (Ok tt, w') ∧ unheard w w') as Htail.
  { intros d. pose proof (record_delivery_unheard org (NotificationChannel.id ch) d w) as Hu.
    unfold mbind, M_bind, catch. destruct (record_delivery_outcome _ _ _ w) as [[h|e] w1];
      simpl in Hu; [|by eexists].
    destruct (_ || _); eexists; (split; [done|]); [done|].
    destruct Hu as [[] ?]. by repeat split. }
  unfold record_channel_health.
  destruct (awaiting_verification ch), st, at_; try (by exists w); apply Htail.
Qed.

(** The row's mark, on a world. *)
Definition marked (org : OrgId) (row : Uuid) (o : NotificationOutcome.t) (w : t) : t :=
  set_state (set_notifications
    (update_first (own_row org row) (λ n, (n.1, apply_outcome o n.2))
       (notifications (state w))) (state w)) w.

Lemma attempt_row_run org ch n row attempt w :
  ∃ o w', attempt_row wc org ch n row attempt w = (Ok (NotificationOutcome.status o), w') ∧
    attempted (awaiting_verification ch) attempt o ∧ aside (marked org row o w) w' ∧
    sends w' = sends w ++ (if awaiting_verification ch then []
                           else [send_of ch n w]).
Proof.
  assert (∃ st err rc w1,
    (if awaiting_verification ch
     then mret (NotificationStatus.Failed, Some "email address not verified", None)
     else deliver wc org ch n) w = (Ok (st, err, rc), w1) ∧ aside w w1 ∧
    sends w1 = sends w ++ (if awaiting_verification ch then []
                           else [send_of ch n w]) ∧
    (awaiting_verification ch = true → st = NotificationStatus.Failed) ∧
    ((st = NotificationStatus.Sent ∧ err = None)
     ∨ (st = NotificationStatus.Failed ∧ is_Some err ∧ rc = None))) as Hout.
  { destruct (awaiting_verification ch).
    - eexists _, _, _, _. split_and!; [done|done|by rewrite app_nil_r|done|eauto].
    - destruct (deliver_run org ch n w) as (st & err & rc & w1 & ?&?&?&?). by eexists _, _, _, _. }
  destruct Hout as (st & err & rc & w1 & Hout & Ha1 & Hs1 & Hawait & Hcase).
  unfold attempt_row. rewrite (bind_Ok _ _ _ _ _ Hout).
  assert (∃ at_ w2, (if bool_decide (st = NotificationStatus.Failed)
      then retry_backoff_hinted wc attempt err else mret None) w1 = (Ok at_, w2) ∧ unheard w1 w2 ∧
      (is_Some at_ ↔ st = NotificationStatus.Failed
                    ∧ attempt < wrap_i32 (EscalationConfig.max_attempts (cfg wc)))) as Hat.
  { case_bool_decide; [destruct (backoff_run attempt err w1) as (at_ & w2 & ? & ? & Hb)|];
      eexists _, _; (split_and!; [done|done|]); unfold is_Some in *; naive_solver. }
  destruct Hat as (at_ & w2 & Hat & [Ha2 Hs2] & Hnext). rewrite (bind_Ok _ _ _ _ _ Hat).
  destruct (health_run org ch st at_ err w2) as (w3 & Hh & [Ha3 Hs3]).
  rewrite (bind_Ok _ _ _ _ _ Hh).
  destruct (sent_stamp_run st w3) as (sent & w4 & Hst & [Ha4 Hs4] & Hsent).
  rewrite (bind_Ok _ _ _ _ _ Hst).
  assert (aside w w4) as [] by (by transitivity w1; [|transitivity w2; [|transitivity w3]]).
  eexists {| NotificationOutcome.status := st; NotificationOutcome.attempt := attempt;
    NotificationOutcome.error := err; NotificationOutcome.sent_at := sent;
    NotificationOutcome.next_attempt_at := at_; NotificationOutcome.provider_receipt := rc |}, _.
  split; [reflexivity|]. split_and!; simpl.
  - split; simpl; try done; unfold is_Some in *; naive_solver.
  - split; simpl; try done. by rewrite aside_state0.
  - congruence.
Qed.
End Attempts.
