(* ===== verification/EngineTargets.v ===== *)
(** * Who a rung pages

    [resolve_targets] of src/escalation/engine/deliver.rs in the world of
    [EngineWorld]: a policy's level is resolved to exactly the channels its
    targets name (directly, through a responder's contacts, or through whoever
    is on call), each of them once. *)

From S2P Require Import Prelude Text Domain Incident IncidentOps EscalationPolicy.
From S2P Require Import EscalationRules Transports Channels Engine EngineWorld.
Import World.

(** ** Lists of page targets *)

(** [out'] is [out] with the targets of [P] whose channel was not there yet. *)
Record adds (P : PageTarget → Prop) (out out' : list PageTarget) : Prop := {
  adds_nodup : NoDup (pt_channel_id <$> out) → NoDup (pt_channel_id <$> out');
  adds_channels : ∀ c, c ∈ pt_channel_id <$> out' ↔
    c ∈ pt_channel_id <$> out ∨ ∃ t, P t ∧ pt_channel_id t = c;
  adds_from : ∀ t, t ∈ out' → t ∈ out ∨ P t;
}.

Lemma adds_none P out : (∀ t, ¬ P t) → adds P out out.
Proof. intros HP. split; [done| |by left]. intros c. split; [by left|]. naive_solver. Qed.

Lemma adds_trans P Q R o1 o2 o3 :
  adds P o1 o2 → adds Q o2 o3 → (∀ t, R t ↔ P t ∨ Q t) → adds R o1 o3.
Proof.
  intros [] [] HR. split; [tauto| |].
  - intros c. rewrite adds_channels1, adds_channels0. setoid_rewrite HR. naive_solver.
  - intros t Ht. rewrite HR. destruct (adds_from1 t Ht) as [Ht'|]; [|tauto].
    destruct (adds_from0 t Ht'); tauto.
Qed.

Lemma adds_as P R o o' : adds P o o' → (∀ t, R t ↔ P t) → adds R o o'.
Proof.
  intros [] HR. split; [done| |].
  - intros c. rewrite adds_channels0. by setoid_rewrite HR.
  - intros t. rewrite HR. auto.
Qed.

Lemma adds_push out c u :
  adds (λ t, t = {| pt_channel_id := c; pt_user_id := u |}) out (push_target out c u).
Proof.
  split; [apply push_target_NoDup| |].
  - intros c'. rewrite push_target_channels. case_bool_decide; set_solver.
  - intros t [?|[-> _]]%elem_of_push_target; [by left|by right].
Qed.

Lemma adds_contacts cs u out :
  adds (λ t, pt_channel_id t ∈ cs ∧ pt_user_id t = Some u) out
    (fold_left (λ out cid, push_target out cid (Some u)) cs out).
Proof.
  revert out. induction cs as [|c cs IH]; intros out; simpl.
  - apply adds_none. intros t [Ht _]. by apply elem_of_nil in Ht.
  - eapply adds_trans; [apply adds_push|apply IH|]. intros [c' u']. simpl.
    rewrite elem_of_cons. naive_solver.
Qed.

Section Resolution.
Context `{Environment, Surroundings}.

(** Who the engine takes to be on call. *)
Definition roster (w : World.t) (org : OrgId) (schedule : Uuid) : result (list UserId) :=
  match rosters w !! (org, schedule) with
  | Some users => Ok users
  | None => on_call_at (clock_reads w) org schedule
  end.

(** [t] is a page to [user]. *)
Definition pages_user (w : World.t) (org : OrgId) (user : UserId) (t : PageTarget) : Prop :=
  ∃ cs, contacts_at (clock_reads w) org user = Ok cs ∧
    pt_channel_id t ∈ cs ∧ pt_user_id t = Some user.

Definition names (w : World.t) (org : OrgId) (tgt : EscalationTarget.t) (t : PageTarget)
    : Prop :=
  match EscalationTarget.target_type tgt with
  | EscalationTargetType.Channel =>
      EscalationTarget.channel_id tgt = Some (pt_channel_id t) ∧ pt_user_id t = None
  | EscalationTargetType.User =>
      ∃ user, EscalationTarget.user_id tgt = Some user ∧ pages_user w org user t
  | EscalationTargetType.Schedule =>
      ∃ schedule users user, EscalationTarget.schedule_id tgt = Some schedule ∧
        roster w org schedule = Ok users ∧ user ∈ users ∧ pages_user w org user t
  end.

(** Resolving reads, and may remember a roster it read. *)
Record consulted (w w' : World.t) : Prop := {
  co_world : w' = {| state := state w; vec := vec w; clock_reads := clock_reads w;
    ids_drawn := ids_drawn w; sends := sends w; mails := mails w; rosters := rosters w';
    cancelled := cancelled w |};
  co_roster : ∀ org s users, roster w org s = Ok users → roster w' org s = Ok users;
  co_roster_back : ∀ org s users, roster w' org s = Ok users → roster w org s = Ok users;
}.

#[global] Instance consulted_preorder : PreOrder consulted.
Proof.
  split; [intros []; by split|]. intros w1 w2 w3 [E1 ??] [E2 ??].
  split; eauto. rewrite E1 in E2. exact E2.
Qed.

Lemma consulted_names w w' org tgt t :
  consulted w w' → names w' org tgt t ↔ names w org tgt t.
Proof.
  intros [Hw ??]. unfold names, pages_user.
  assert (clock_reads w' = clock_reads w) as -> by (by rewrite Hw).
  destruct (EscalationTarget.target_type tgt); [done|naive_solver|done].
Qed.

Lemma page_user_run org user out w :
  page_user org user out w =
    match contacts_at (clock_reads w) org user with
    | Ok cs => (Ok (fold_left (λ out cid, push_target out cid (Some user)) cs out), w)
    | Err e => (Err e, w)
    end.
Proof. unfold page_user, mbind, M_bind. simpl. by destruct (contacts_at _ _ _). Qed.

Lemma pages_user_contacts w org user cs t :
  contacts_at (clock_reads w) org user = Ok cs →
  pages_user w org user t ↔ pt_channel_id t ∈ cs ∧ pt_user_id t = Some user.
Proof. intros Hcs. unfold pages_user. rewrite Hcs. split; [naive_solver|by exists cs]. Qed.

Lemma page_users_run org users out out' w w' :
  page_users org users out w = (Ok out', w') →
  w' = w ∧ adds (λ t, ∃ user, user ∈ users ∧ pages_user w org user t) out out'.
Proof.
  revert out. induction users as [|user users IH]; intros out; cbn [page_users].
  - intros [= <- <-]. split; [done|]. apply adds_none. intros t (u & Hu & _).
    by apply elem_of_nil in Hu.
  - intros Hrun. apply bind_inv_Ok in Hrun as (out1 & w1 & Hone & Hrest). rewrite page_user_run in Hone.
    destruct (contacts_at _ _ _) as [cs|] eqn:Hcs; [|done]. injection Hone as <- <-.
    destruct (IH _ Hrest) as [-> Hadds]. split; [done|].
    eapply adds_trans; [apply adds_contacts|exact Hadds|]. intros t.
    setoid_rewrite elem_of_cons. rewrite <-(pages_user_contacts _ _ _ _ _ Hcs). split.
    + intros (u & [->|Hu] & Hp); [by left|right; by exists u].
    + intros [Hp|(u & Hu & Hp)]; [exists user|exists u]; (split; [auto|done]).
Qed.

Lemma resolve_on_call_run org s at_ users w w' :
  resolve_on_call org s at_ w = (Ok users, w') → consulted w w' ∧ roster w org s = Ok users.
Proof.
  unfold resolve_on_call, mbind, M_bind, roster. simpl.
  destruct (rosters w !! (org, s)) as [us|] eqn:Hc; simpl.
  { intros [= <- <-]. by split. }
  destruct (on_call_at _ _ _) as [[|u us]|e] eqn:Hus; simpl; [|..]; intros [= <- <-].
  { by split. }
  split; [|done]. split; [done|..]; unfold roster; simpl; intros org' s' users';
    (destruct (decide ((org, s) = (org', s'))) as [[= <- <-]|Hne];
      [rewrite lookup_insert_eq, Hc; congruence|by rewrite lookup_insert_ne]).
Qed.

Lemma resolve_each_run org at_ targets out out' w w' :
  resolve_each org at_ targets out w = (Ok out', w') →
  consulted w w' ∧ adds (λ t, ∃ tgt, tgt ∈ targets ∧ names w org tgt t) out out'.
Proof.
  revert out w. induction targets as [|tgt targets IH]; intros out w; cbn [resolve_each].
  { intros [= <- <-]. split; [done|]. apply adds_none. intros t (u & Hu & _).
    by apply elem_of_nil in Hu. }
  intros Hrun. apply bind_inv_Ok in Hrun as (out1 & w1 & Hone & Hrest).
  assert (consulted w w1 ∧ adds (names w org tgt) out out1) as [Hc Hadd].
  { unfold names. destruct (EscalationTarget.target_type tgt).
    - destruct (EscalationTarget.user_id tgt) as [user|].
      + rewrite page_user_run in Hone. destruct (contacts_at _ _ _) as [cs|] eqn:Hcs; [|done].
        injection Hone as <- <-. split; [done|].
        eapply adds_as; [apply adds_contacts|].
        intros t. rewrite <-(pages_user_contacts _ _ _ _ _ Hcs). naive_solver.
      + injection Hone as <- <-. split; [done|]. apply adds_none. naive_solver.
    - destruct (EscalationTarget.schedule_id tgt) as [s|].
      + apply bind_inv_Ok in Hone as (users & w2 & Hcall & Hus).
        apply resolve_on_call_run in Hcall as [Hc Hr].
        apply page_users_run in Hus as [-> Hadd]. split; [done|].
        eapply adds_as; [exact Hadd|]. intros t.
        unfold pages_user. assert (clock_reads w2 = clock_reads w) as ->
          by (by rewrite (co_world _ _ Hc)). split.
        * intros (s' & us & u & [= <-] & Hr' & Hu & Hp). rewrite Hr in Hr'.
          injection Hr' as <-. by exists u.
        * intros (u & Hu & Hp). by exists s, users, u.
      + injection Hone as <- <-. split; [done|]. apply adds_none. naive_solver.
    - injection Hone as <- <-. split; [done|].
      destruct (EscalationTarget.channel_id tgt) as [cid|]; [|apply adds_none; naive_solver].
      eapply adds_as; [apply adds_push|].
      intros [c u]. simpl. naive_solver. }
  destruct (IH _ _ Hrest) as [Hc2 Hadd2]. split; [by transitivity w1|].
  eapply adds_trans; [exact Hadd|exact Hadd2|]. intros t. cbv beta. 
  pose proof (λ tgt, consulted_names _ _ org tgt t Hc) as Hn. setoid_rewrite Hn.
  setoid_rewrite elem_of_cons. naive_solver.
Qed.

Lemma rung_consulted org policy level at_ w out w' :
  resolve_targets org policy level at_ w = (Ok out, w') → consulted w w'.
Proof.
  unfold resolve_targets. destruct (List.find _ _); [|by intros [= _ <-]].
  by intros [? _]%resolve_each_run.
Qed.
End Resolution.

(** A rung resolves to exactly the channels its level's targets name, in a
    channel target, through the contacts of a responder, or through the contacts
    of whoever is on call (the cached roster while there is one), each of them
    once whichever targets share it; a level with no step names nobody. Resolving
    writes nothing but the roster cache, which answers as the schedule did. *)
Theorem rung_resolves_once `{Environment, Surroundings} (org : OrgId)
    (policy : EscalationPolicy.t) (level : Z) (at_ : DateTime) (w w' : World.t)
    (out : list PageTarget) :
  resolve_targets org policy level at_ w = (Ok out, w') →
  NoDup (pt_channel_id <$> out) ∧ consulted w w' ∧
  (∀ t, t ∈ out → ∃ step tgt, step ∈ EscalationPolicy.steps policy ∧
     EscalationStep.level step = level ∧ tgt ∈ EscalationStep.targets step ∧
     names w org tgt t) ∧
  ∀ step, List.find (λ s, EscalationStep.level s =? level) (EscalationPolicy.steps policy)
          = Some step →
    ∀ c, c ∈ pt_channel_id <$> out ↔
      ∃ tgt t, tgt ∈ EscalationStep.targets step ∧ names w org tgt t ∧ pt_channel_id t = c.
Proof.
  unfold resolve_targets. destruct (List.find _ _) as [step|] eqn:Hstep.
  2:{ intros [= <- <-]. split_and!; [by apply NoDup_nil_2|done| |done].
      intros t Ht. by apply elem_of_nil in Ht. }
  intros [Hc [Hnd Hch Hfrom]]%resolve_each_run.
  split_and!; [apply Hnd, NoDup_nil_2|done|..].
  - apply find_Some_elem in Hstep as [Hin Hlevel]. bool_cases. intros t Ht.
    destruct (Hfrom t Ht) as [Hn|(tgt & Htgt & Hn)]; [by apply elem_of_nil in Hn|].
    by exists step, tgt.
  - intros step' [= <-] c. rewrite Hch. split.
    + intros [Hn|(t & (tgt & ? & ?) & ?)]; [by apply elem_of_nil in Hn|by exists tgt, t].
    + intros (tgt & t & ? & ? & ?). right. exists t. split; [by exists tgt|done].
Qed.
