(* ===== verification/EnginePaging.v ===== *)
(** * What a round of paging does

    Theorems on [page_channels] and the episode handlers of
    src/escalation/engine/ in the world of [EngineWorld]: every page sent has a
    row that was recorded before it, a round reaches exactly the enabled
    channels it was given, once each, and the rows it leaves say what came of
    each attempt. *)

From Stdlib Require Import Ascii.
From S2P Require Import Prelude Text Domain Incident Target IncidentOps IncidentOpsMem.
From S2P Require Import EscalationPolicy EscalationRules Transports Channels Engine.
From S2P Require Import EngineWorld.
Import World.

(** The channels a round reaches: its targets' channels that exist and are
    turned on, in the targets' order. *)
Definition reach (w : World.t) (org : OrgId) (t : PageTarget)
    : option (PageTarget * NotificationChannel.t) :=
  c ← channel_at w org (pt_channel_id t);
  if NotificationChannel.enabled c then Some (t, c) else None.
Definition reached (w : World.t) (org : OrgId) (targets : list PageTarget)
    : list (PageTarget * NotificationChannel.t) := omap (reach w org) targets.

(** A channel that is sent to, rather than failed for want of a verified address. *)
Definition sent_to (tc : PageTarget * NotificationChannel.t) : bool :=
  negb (awaiting_verification tc.2).

(** Every paging row was given its identifier by the runtime. *)
Definition rows_drawn `{Environment} (w : World.t) : Prop :=
  ∀ r, r ∈ notifications (state w) →
    ∃ k, (k < ids_drawn w)%nat ∧ IncidentNotification.id r.2 = fresh k.

Definition is_sent (n : IncidentNotification.t) : bool :=
  bool_decide (IncidentNotification.status n = NotificationStatus.Sent).

Section Rounds.
Context `{EnvironmentLaws, Surroundings, LinkPrimitives, UrlParser, UnicodeText, SweepPool}.
Context (wc : WorkerConfig).

(** The row a page to [tc] leaves, its attempt made not before [from]. *)
Record page_row (from : nat) (incident_id : Uuid) (reason : NotificationReason.t) (level : Z)
    (tc : PageTarget * NotificationChannel.t) (n : IncidentNotification.t) : Prop := {
  pr_incident : IncidentNotification.incident_id n = incident_id;
  pr_channel : IncidentNotification.channel_id n = Some (pt_channel_id tc.1);
  pr_user : IncidentNotification.target_user_id n = pt_user_id tc.1;
  pr_level : IncidentNotification.escalation_level n = Some level;
  pr_transport : IncidentNotification.transport n =
    ChannelKind.as_db_str (NotificationChannel.kind tc.2);
  pr_reason : IncidentNotification.reason n = reason;
  pr_attempt : IncidentNotification.attempt n = 1;
  pr_status : IncidentNotification.status n = NotificationStatus.Sent
            ∨ IncidentNotification.status n = NotificationStatus.Failed;
  pr_unverified : sent_to tc = false →
    IncidentNotification.status n = NotificationStatus.Failed;
  pr_error : is_Some (IncidentNotification.error n)
           ↔ IncidentNotification.status n = NotificationStatus.Failed;
  pr_sent : is_Some (IncidentNotification.sent_at n)
          ↔ IncidentNotification.status n = NotificationStatus.Sent;
  pr_retry : is_Some (IncidentNotification.next_attempt_at n)
           ↔ IncidentNotification.status n = NotificationStatus.Failed
             ∧ 1 < wrap_i32 (EscalationConfig.max_attempts (cfg wc));
  pr_time : ∃ k, (from ≤ k)%nat ∧ IncidentNotification.created_at n = clock k;
}.

Lemma page_row_earlier from from' id reason level tc n :
  (from ≤ from')%nat → page_row from' id reason level tc n → page_row from id reason level tc n.
Proof.
  intros Hle []. split; try done. destruct pr_time0 as (k & ? & ?). exists k. split; [lia|done].
Qed.

Lemma channel_at_eq w w' org id :
  channels_of w' = channels_of w → channel_at w' org id = channel_at w org id.
Proof. unfold channel_at. by intros ->. Qed.

Lemma reached_eq w w' org l :
  channels_of w' = channels_of w → reached w' org l = reached w org l.
Proof.
  intros Heq. unfold reached. apply list_omap_ext, Forall_Forall2_diag, Forall_forall.
  intros t _. unfold reach. by rewrite (channel_at_eq _ _ _ _ Heq).
Qed.

Lemma channel_at_id w org id c : channel_at w org id = Some c → NotificationChannel.id c = id.
Proof.
  unfold channel_at. destruct (List.find _ _) as [e|] eqn:He; [|done].
  intros [= <-]. apply find_Some_elem in He as [_ He]. by bool_cases.
Qed.

(** One row, recorded and then attempted. *)
Definition queued (org : OrgId) (id : Uuid) (reason : NotificationReason.t) (level : Z)
    (t : PageTarget) (c : NotificationChannel.t) : NewIncidentNotification.t := {|
  NewIncidentNotification.org := org;
  NewIncidentNotification.incident_id := id;
  NewIncidentNotification.escalation_level := Some level;
  NewIncidentNotification.target_user_id := pt_user_id t;
  NewIncidentNotification.channel_id := Some (pt_channel_id t);
  NewIncidentNotification.transport := ChannelKind.as_db_str (NotificationChannel.kind c);
  NewIncidentNotification.reason := reason;
  NewIncidentNotification.status := NotificationStatus.Queued;
  NewIncidentNotification.attempt := 1;
  NewIncidentNotification.error := None;
  NewIncidentNotification.sent_at := None |}.

Definition page_one (org : OrgId) (id : Uuid) (n : IncidentNotice.t)
    (reason : NotificationReason.t) (level : Z) (t : PageTarget) (c : NotificationChannel.t)
    : M World.t NotificationStatus.t :=
  row ← record_notification (queued org id reason level t c); attempt_row wc org c n row 1.

Lemma update_first_last {A} (p : A → bool) f l x :
  (∀ y, y ∈ l → p y = false) → p x = true → update_first p f (l ++ [x]) = l ++ [f x].
Proof.
  intros Hl Hx. induction l as [|y l IH]; simpl; [by rewrite Hx|].
  rewrite (Hl y ltac:(by left)). f_equal. apply IH. intros z Hz. apply Hl. by right.
Qed.

(** [s] left with one of [rows] for its channel on the log already. *)
Definition logged_before (org : OrgId) (rows : list IncidentNotification.t) (w : World.t)
    (s : Sent) : Prop :=
  ∃ r, r ∈ rows ∧ IncidentNotification.channel_id r = Some (sent_channel s) ∧
    (org, r) ∈ take (log_length s) (notifications (state w)).

(** The stores after [rows] were appended, and what else paging changes. *)
Record grown (w : World.t) (org : OrgId) (rows : list IncidentNotification.t)
    (sent : list (Uuid * IncidentNotice.t)) (w' : World.t) : Prop := {
  gr_state : state w' =
    set_notifications (notifications (state w) ++ (pair org <$> rows)) (state w);
  gr_sends : ∃ new, sends w' = sends w ++ new ∧
    ((λ s, (sent_channel s, sent_notice s)) <$> new) = sent ∧
    Forall (logged_before org rows w') new;
  gr_channels : channels_of w' = channels_of w;
  gr_clock : (clock_reads w ≤ clock_reads w')%nat;
  gr_drawn : rows_drawn w → rows_drawn w';
  gr_cancelled : cancelled w' = cancelled w;
}.

Lemma grown_refl w org : grown w org [] [] w.
Proof.
  split; try done; [|exists []; by rewrite app_nil_r]. simpl. rewrite app_nil_r.
  by destruct (state w).
Qed.

Lemma grown_trans w org r1 s1 w1 r2 s2 w2 :
  grown w org r1 s1 w1 → grown w1 org r2 s2 w2 → grown w org (r1 ++ r2) (s1 ++ s2) w2.
Proof.
  intros [] []. split; try done; try congruence; try lia; [| |by eauto].
  - rewrite gr_state1, gr_state0. simpl. by rewrite fmap_app, app_assoc.
  - destruct gr_sends0 as (n1 & Hs1 & <- & Hl1), gr_sends1 as (n2 & Hs2 & <- & Hl2).
    exists (n1 ++ n2). rewrite Hs2, Hs1, fmap_app, app_assoc. split_and!; [done..|].
    apply Forall_app. split.
    + eapply Forall_impl; [exact Hl1|]. intros s (r & Hr & Hc & Hin). exists r.
      split_and!; [set_solver|done|]. rewrite gr_state1. simpl. rewrite take_app. set_solver.
    + eapply Forall_impl; [exact Hl2|]. intros s (r & Hr & Hc & Hin). exists r.
      split_and!; [set_solver|done..].
Qed.

Lemma page_one_run org id n reason level t c w :
  rows_drawn w → NotificationChannel.id c = pt_channel_id t →
  ∃ row w', page_one org id n reason level t c w
      = (Ok (IncidentNotification.status row), w') ∧
    page_row (clock_reads w) id reason level (t, c) row ∧
    grown w org [row] (if awaiting_verification c then []
                       else [(pt_channel_id t, n)]) w'.
Proof.
  intros Hdrawn Hcid. unfold page_one.
  set (w1 := (mem_record_notification (queued org id reason level t c) w).2).
  rewrite (bind_Ok _ _ w (fresh (ids_drawn w)) w1) by done.
  destruct (attempt_row_run wc org c n (fresh (ids_drawn w)) 1 w1)
    as (o & w' & -> & Ho & [] & Hsends).
  set (row0 := {| IncidentNotification.id := fresh (ids_drawn w);
    IncidentNotification.incident_id := id;
    IncidentNotification.escalation_level := Some level;
    IncidentNotification.target_user_id := pt_user_id t;
    IncidentNotification.channel_id := Some (pt_channel_id t);
    IncidentNotification.transport := ChannelKind.as_db_str (NotificationChannel.kind c);
    IncidentNotification.reason := reason;
    IncidentNotification.status := NotificationStatus.Queued;
    IncidentNotification.attempt := 1; IncidentNotification.error := None;
    IncidentNotification.created_at := clock (clock_reads w);
    IncidentNotification.sent_at := None; IncidentNotification.next_attempt_at := None;
    IncidentNotification.provider_receipt := None; IncidentNotification.acked_at := None |}).
  exists (apply_outcome o row0), w'.
  assert (state w' = set_notifications
    (notifications (state w) ++ [(org, apply_outcome o row0)]) (state w)) as Hstate.
  { rewrite aside_state. unfold marked, w1, set_notifications. simpl. f_equal.
    rewrite update_first_last; [done| |unfold own_row; simpl; by rewrite !bool_decide_refl].
    intros r Hr. unfold own_row. destruct (Hdrawn r Hr) as (k & Hk & ->).
    rewrite (bool_decide_eq_false_2 (fresh k = _)); [by rewrite andb_false_r|].
    intros Heq%fresh_inj. lia. }
  split_and!; [by destruct o as [????? []]|..].
  - destruct Ho. destruct o as [st at_ e s nx []]; simpl in *; split; simpl; try done;
      try (intros Hs; apply at_awaiting; unfold sent_to in Hs; simpl in Hs;
           by destruct (awaiting_verification c)); exists (clock_reads w); (split; [lia|done]).
  - split; try done.
    + exists (if awaiting_verification c then [] else [send_of c n w1]).
      destruct (awaiting_verification c); split_and!; try done; [by rewrite <-Hcid|].
      apply Forall_singleton. exists (apply_outcome o row0). split_and!; [by left|..].
      * simpl. rewrite Hcid. by destruct o as [????? []].
      * rewrite Hstate. simpl. rewrite firstn_all2; [set_solver|].
        by rewrite !length_app.
    + simpl in aside_clock. lia.
    + intros _ r. rewrite Hstate. simpl. unfold rows_drawn. rewrite aside_ids. simpl.
      intros [Hr| ->%list_elem_of_singleton]%elem_of_app.
      * destruct (Hdrawn r Hr) as (k & ? & ?). exists k. split; [lia|done].
      * exists (ids_drawn w). split; [lia|]. by destruct o as [????? []].
Qed.

Lemma bind_assoc {A B C} (m : M World.t A) (f : A → M World.t B) (g : B → M World.t C) w :
  ((m ≫= f) ≫= g) w = (m ≫= λ a, f a ≫= g) w.
Proof. unfold mbind, M_bind. by destruct (m w) as [[] ?]. Qed.

(** A round is its pages, one after the other. *)
Lemma page_channels_cons org id n reason level t targets paged w :
  page_channels wc org id n reason level (t :: targets) paged w =
    match mem_get_channel org (pt_channel_id t) w with
    | (Ok (Some c), _) =>
        if NotificationChannel.enabled c then
          (status ← page_one org id n reason level t c;
           page_channels wc org id n reason level targets {|
             recorded := recorded paged + 1;
             delivered := delivered paged
               + (if bool_decide (status = NotificationStatus.Sent) then 1 else 0) |}) w
        else page_channels wc org id n reason level targets paged w
    | _ => page_channels wc org id n reason level targets paged w
    end.
Proof.
  cbn [page_channels]. destruct (mem_get_channel org (pt_channel_id t) w) as [r w0] eqn:Hg.
  rewrite (bind_Ok _ _ w (MemEntry.ch <$> List.find (owns org (pt_channel_id t)) (vec w)) w)
    by done.
  injection Hg as <- <-. destruct (_ <$> _) as [c|]; [|done].
  destruct (NotificationChannel.enabled c); [|done]. simpl negb. cbv iota.
  unfold page_one. rewrite bind_assoc. done.
Qed.

Lemma reach_run w org t :
  match mem_get_channel org (pt_channel_id t) w with
  | (Ok (Some c), _) =>
      reach w org t = if NotificationChannel.enabled c then Some (t, identity c) else None
  | _ => reach w org t = None
  end.
Proof.
  destruct (get_channel_run org (pt_channel_id t) w) as (c & Hrun & Hid).
  change (mem_get_channel org (pt_channel_id t) w = (Ok c, w)) in Hrun. rewrite Hrun.
  unfold reach. rewrite <-Hid. by destruct c.
Qed.

Lemma reached_cons w org t l :
  reached w org (t :: l) =
    match reach w org t with Some tc => tc :: reached w org l | None => reached w org l end.
Proof. done. Qed.

Lemma page_channels_run org id n reason level targets paged w :
  rows_drawn w → ∃ rows w',
    page_channels wc org id n reason level targets paged w
      = (Ok {| recorded := recorded paged + Z.of_nat (length rows);
               delivered := delivered paged + count is_sent rows |}, w') ∧
    Forall2 (page_row (clock_reads w) id reason level) (reached w org targets) rows ∧
    grown w org rows
      ((λ tc, (pt_channel_id tc.1, n)) <$> List.filter sent_to (reached w org targets)) w'.
Proof.
  revert paged w. induction targets as [|t targets IH]; intros paged w Hdrawn.
  { exists [], w. cbn [page_channels reached omap list_omap length]. split_and!.
    - rewrite !Z.add_0_r. by destruct paged.
    - constructor.
    - apply grown_refl. }
  rewrite page_channels_cons. pose proof (reach_run w org t) as Hr.
  rewrite reached_cons.
  destruct (mem_get_channel _ _ w) as [[[c|]|e] w0]; [|rewrite Hr; by apply IH..].
  destruct (NotificationChannel.enabled c); rewrite Hr; [|by apply IH].
  assert (NotificationChannel.id c = pt_channel_id t) as Hcid.
  { unfold reach in Hr. destruct (channel_at w org _) as [c'|] eqn:Hc; simpl in Hr; [|done].
    apply channel_at_id in Hc. destruct (NotificationChannel.enabled c'); [|done].
    by injection Hr as ->. }
  destruct (page_one_run org id n reason level t c w Hdrawn Hcid) as (row & w1 & Hone & Hrow & Hg).
  rewrite (bind_Ok _ _ _ _ _ Hone).
  destruct (IH {| recorded := recorded paged + 1; delivered := delivered paged
      + (if bool_decide (IncidentNotification.status row = NotificationStatus.Sent)
         then 1 else 0) |} w1) as (rows & w2 & Hrun & Hrows & Hg2).
  { by apply (gr_drawn _ _ _ _ _ Hg). }
  rewrite (reached_eq w w1 org targets) in Hrows, Hg2 by apply Hg.
  exists (row :: rows), w2. rewrite Hrun. split_and!.
  - simpl recorded. simpl delivered. rewrite count_cons. unfold is_sent at 2.
    cbn [length]. do 3 f_equal; lia.
  - constructor; [by destruct Hrow; split|]. eapply Forall2_impl; [exact Hrows|]. intros tc r.
    apply page_row_earlier, Hg.
  - eapply (grown_trans _ _ [row]) in Hg2; [|exact Hg]. cbn [List.filter].
    change (sent_to (t, identity c)) with (negb (awaiting_verification c)).
    by destruct (awaiting_verification c).
Qed.
Lemma reached_targets w org targets :
  fst <$> reached w org targets
  = List.filter (λ t, is_some (reach w org t)) targets.
Proof.
  induction targets as [|t l IH]; [done|]. rewrite reached_cons. cbn [List.filter].
  destruct (reach w org t) as [[t' c]|] eqn:Hr; [|done].
  rewrite fmap_cons, IH. cbn [is_some fst]. f_equal.
  unfold reach in Hr. destruct (channel_at w org _); simpl in Hr; [|done]. by case_match; simplify_eq.
Qed.

Lemma NoDup_reached_channels w org targets :
  NoDup (pt_channel_id <$> targets) →
  NoDup (pt_channel_id <$> (fst <$> List.filter sent_to (reached w org targets))).
Proof.
  intros Hnd. rewrite <-list_fmap_compose. apply NoDup_lfilter_fmap.
  rewrite list_fmap_compose, reached_targets. by apply NoDup_lfilter_fmap.
Qed.
End Rounds.

(** C7: a round of paging always completes and accounts for itself. It leaves one
    new row per target whose channel exists and is on, in order, carrying the
    incident, the reason, the rung and the responder, marked [Sent] or [Failed]
    at attempt one, with an error exactly when it failed and a retry time exactly
    when it failed under the attempt cap; it reports as many recorded and
    delivered as those rows say. The transports are handed the notice for
    exactly the rows of channels that are not awaiting verification, in order,
    once each when the targets are distinct, and each such row was on the log
    before its page left. No incident, event, channel setting or older row is
    touched. *)
Theorem paging_round_accounts `{EnvironmentLaws, Surroundings, LinkPrimitives, UrlParser,
    UnicodeText} (wc : WorkerConfig) (org : OrgId) (id : Uuid) (n : IncidentNotice.t)
    (reason : NotificationReason.t) (level : Z) (targets : list PageTarget) (w : World.t) :
  rows_drawn w →
  ∃ rows new w',
    page_channels wc org id n reason level targets paged_default w
      = (Ok {| recorded := Z.of_nat (length rows); delivered := count is_sent rows |}, w') ∧
    Forall2 (page_row wc (clock_reads w) id reason level) (reached w org targets) rows ∧
    state w' = set_notifications (notifications (state w) ++ (pair org <$> rows)) (state w) ∧
    sends w' = sends w ++ new ∧
    (λ s, (sent_channel s, sent_notice s)) <$> new
      = (λ tc, (pt_channel_id tc.1, n)) <$> List.filter sent_to (reached w org targets) ∧
    (NoDup (pt_channel_id <$> targets) → NoDup (sent_channel <$> new)) ∧
    Forall (logged_before org rows w') new ∧
    channels_of w' = channels_of w ∧ rows_drawn w'.
Proof.
  intros Hdrawn.
  destruct (page_channels_run wc org id n reason level targets paged_default w Hdrawn)
    as (rows & w' & Hrun & Hrows & [Hst (new & Hs & Hnew & Hlog) Hch _ Hd _]).
  exists rows, new, w'. split_and!; try done; [|by apply Hd].
  intros Hnd. assert (sent_channel <$> new = pt_channel_id ∘ fst <$>
    List.filter sent_to (reached w org targets)) as ->.
  { apply (f_equal (fmap fst)) in Hnew. rewrite <-!list_fmap_compose in Hnew. exact Hnew. }
  rewrite list_fmap_compose. apply NoDup_reached_channels. done.
Qed.
