(* ===== verification/EngineEpisodes.v ===== *)
(** * Episodes

    Theorems on the handlers of src/escalation/engine/episode.rs and sweep.rs in
    the world of [EngineWorld]: what a monitor that is off, a maintenance window
    or a flapping monitor does to an alert, how an outage is opened once and
    called off once, how the ladder moves and what a retry does. *)

From Stdlib Require Import Ascii.
From S2P Require Import Prelude Text Domain Incident Target IncidentOps IncidentOpsMem.
From S2P Require Import EscalationPolicy EscalationRules Transports Channels Engine.
From S2P Require Import EngineWorld EngineTargets EnginePaging.
Import World.

(** ** Reading the world *)
Definition incident_at (w : World.t) (id : Uuid) : option OpsIncident.t :=
  List.find (λ i, bool_decide (OpsIncident.id i = id)) (incidents (state w)).
Definition rows_of (w : World.t) (id : Uuid) : list IncidentNotification.t :=
  snd <$> List.filter (λ n : OrgId * IncidentNotification.t,
            bool_decide (IncidentNotification.incident_id n.2 = id)) (notifications (state w)).
(** A monitor the engine must not page about. *)
Definition off (t : Target.t) : bool :=
  negb (Target.enabled t) || is_some (Target.plan_hold_at t).

(** The incident [id] and its monitor, as the engine finds them. *)
Definition watching `{Surroundings} (w : World.t) (org : OrgId) (id : Uuid)
    (inc : OpsIncident.t) (target : Target.t) : Prop :=
  incident_at w id = Some inc ∧
  ∃ tid, OpsIncident.target_id inc = Some tid ∧
    target_at (clock_reads w) org tid = Ok (Some target).

(** Every row is in the past of the clock. *)
Definition rows_past `{Environment} (w : World.t) : Prop :=
  ∀ r, r ∈ notifications (state w) →
    ∃ k, (k < clock_reads w)%nat ∧ IncidentNotification.created_at r.2 = clock k.

Section Reads.
Context `{Environment, Surroundings, LinkPrimitives, UrlParser, UnicodeText}.
Context (wc : WorkerConfig).

Lemma get_run org id w : get org id w = (Ok (incident_at w id), w).
Proof. done. Qed.
Lemma get_target_run org id w : get_target org id w = (target_at (clock_reads w) org id, w).
Proof. done. Qed.
Lemma get_target_ok org id w r : target_at (clock_reads w) org id = Ok r → get_target org id w = (Ok r, w).
Proof. by rewrite get_target_run; intros ->. Qed.
Lemma get_policy_ok org id w r : policy_at (clock_reads w) org id = Ok r → get_policy org id w = (Ok r, w).
Proof. simpl. by intros ->. Qed.
Lemma notifications_for_run org id w : notifications_for org id w = (Ok (rows_of w id), w).
Proof. done. Qed.
Lemma alerts_suppressed_run org tid w :
  alerts_suppressed org tid w =
    (Ok (match in_maintenance (clock_reads w) org tid with Ok b => b | Err _ => false end), w).
Proof. done. Qed.
Lemma utc_now_run w : utc_now w = (Ok (clock (clock_reads w)), tick w).
Proof. done. Qed.
End Reads.

(** Step over a call whose answer is known. *)
Ltac step H := rewrite (bind_Ok _ _ _ _ _ H).

(** ** A monitor that is off *)
Section Off.
Context `{Environment, Surroundings, LinkPrimitives, UrlParser, UnicodeText}.
Context (wc : WorkerConfig).

Lemma page_with_watching org id reason damper w inc target :
  watching w org id inc target →
  page_with wc org id reason damper w =
    (if off target && negb (bool_decide (reason = NotificationReason.Resolved)) then mret tt
     else
       match reason with
       | NotificationReason.Opened => open_episode wc org inc target reason damper
       | NotificationReason.Reopened =>
           _ ← cancel_emergency org (OpsIncident.id inc);
           open_episode wc org inc target reason damper
       | NotificationReason.Resolved => notify_resolution wc org inc target
       | NotificationReason.Escalated | NotificationReason.Reminder
       | NotificationReason.NoData | NotificationReason.DataResumed => mret tt
       end) w.
Proof.
  intros [Hinc (tid & Htid & Ht)]. unfold page_with. step (get_run org id w).
  rewrite Hinc, Htid. by step (get_target_ok _ _ _ _ Ht).
Qed.

(** The engine's [WHERE state = 'triggered'] edits, on a triggered incident. *)
Definition edited (id : Uuid) (f : OpsIncident.t → OpsIncident.t) (w : World.t) : World.t :=
  set_state (set_incidents
    (update_first (λ i, bool_decide (OpsIncident.id i = id)) f (incidents (state w)))
    (state w)) w.

Lemma engine_edit_run id f w inc :
  incident_at w id = Some inc → OpsIncident.state inc = IncidentState.Triggered →
  NoDup (OpsIncident.id <$> incidents (state w)) →
  edit_triggered id f w = (Ok true, edited id f w).
Proof.
  intros Hinc Htr Hnd. unfold edit_triggered, edited, put, state_.
  cbv [mbind M_bind gets modify mret M_ret ops_state set_ops world_ops].
  assert (∀ i, i ∈ incidents (state w) → triggered_id id i = bool_decide (OpsIncident.id i = id))
    as Hsame.
  { intros i Hi. unfold triggered_id. destruct (bool_decide (OpsIncident.id i = id)) eqn:Hid;
      [|done]. bool_cases. apply find_Some_elem in Hinc as [Hin Hincid]. bool_cases.
    assert (i = inc) as -> by (eapply NoDup_fmap_inj_elem; [exact Hnd|done..|congruence]).
    by rewrite Htr. }
  rewrite (find_ext _ _ _ Hsame). unfold incident_at in Hinc. rewrite Hinc.
  by rewrite (update_first_ext _ _ _ _ Hsame).
Qed.

Lemma incident_at_edited id f w inc :
  incident_at w id = Some inc → (∀ i, OpsIncident.id (f i) = OpsIncident.id i) →
  incident_at (edited id f w) id = Some (f inc).
Proof.
  intros Hinc Hid. unfold incident_at, edited. simpl.
  rewrite find_update_first; [unfold incident_at in Hinc; by rewrite Hinc|].
  intros i Hi. bool_cases. apply bool_decide_eq_true. by rewrite Hid.
Qed.
End Off.

(** A monitor that is turned off or held by its plan pages nobody: no signal
    but a resolution does anything for it, whatever the damper says; a reminder
    due for a monitor that is turned off does nothing; and an emergency page
    still sounding for it is spent, so the poll calls it off. *)
Theorem off_monitor_pages_nobody `{Environment, Surroundings, LinkPrimitives, UrlParser,
    UnicodeText} (wc : WorkerConfig) (org : OrgId) (id : Uuid) (inc : OpsIncident.t)
    (target : Target.t) (w : World.t) :
  watching w org id inc target → off target = true →
  (∀ reason damper, reason ≠ NotificationReason.Resolved →
     page_with wc org id reason damper w = (Ok tt, w)) ∧
  (∀ d, DueIncident.org d = org → DueIncident.id d = id → Target.enabled target = false →
     renotify_one wc d w = (Ok tt, w)) ∧
  (∀ ack, EmergencyAck.org ack = org → EmergencyAck.incident_id ack = id →
     (∀ k, target_at k = target_at (clock_reads w)) →
     ∃ w', page_is_spent ack w = (Ok true, w') ∧ unheard w w').
Proof.
  intros Hw Hoff. split_and!.
  - intros reason damper Hreason. rewrite (page_with_watching _ _ _ _ _ _ _ _ Hw), Hoff.
    by rewrite bool_decide_eq_false_2.
  - intros d <- <- Hen. destruct Hw as [Hinc (tid & Htid & Ht)]. unfold renotify_one.
    step (get_run (DueIncident.org d) (DueIncident.id d) w). rewrite Hinc.
    destruct (negb _); [done|]. rewrite Htid.
    step (get_target_ok _ _ _ _ Ht).
    by rewrite Hen.
  - intros ack <- <- Hsteady. destruct Hw as [Hinc (tid & Htid & Ht)]. unfold page_is_spent.
    rewrite (bind_Ok _ _ w (Ok (Some inc)) w) by (by rewrite <-Hinc).
    destruct (negb _); [by exists w|].
    destruct (generation_run (EmergencyAck.org ack) (EmergencyAck.incident_id ack) w)
      as (g & w1 & Hg & Hu).
    rewrite (bind_Ok _ _ w (Ok g) w1) by (unfold catch; by rewrite Hg).
    exists w1. split; [|done]. rewrite Htid.
    destruct (match g with Some _ => _ | None => _ end); [done|].
    rewrite (bind_Ok _ _ w1 (Ok (Some target)) w1); [by rewrite <-Hoff|].
    unfold catch. by rewrite get_target_run, Hsteady, Ht.
Qed.

(** ** Holding an alert *)
Section Holding.
Context `{EnvironmentLaws, Surroundings, LinkPrimitives, UrlParser, UnicodeText}.
Context (wc : WorkerConfig).

(** A timeline entry was written, or not: only events, time and identifiers. *)
Record noted (w w' : World.t) : Prop := {
  no_state : state w' = set_events (events (state w')) (state w);
  no_sends : sends w' = sends w;
  no_vec : vec w' = vec w;
  no_clock : (clock_reads w ≤ clock_reads w')%nat;
  no_ids : (ids_drawn w ≤ ids_drawn w')%nat;
  no_cancelled : cancelled w' = cancelled w;
}.

#[global] Instance noted_preorder : PreOrder noted.
Proof.
  split; [intros w; split; try done; by destruct (state w)|].
  intros w1 w2 w3 [] []. split; try congruence; try lia. rewrite no_state1, no_state0. done.
Qed.

Lemma timeline_append_run org id kind actor m w :
  ∃ w', append_event org id kind actor m w = (Ok tt, w') ∧ noted w w'.
Proof.
  cbn [append_event mem_ops_store]. unfold mem_append_event, state_.
  cbv [mbind M_bind gets mret M_ret ops_state world_ops].
  destruct (known id (state w)); [|by eexists].
  eexists. split; [reflexivity|]. split; simpl; try done; lia.
Qed.

(** One suppressed bookkeeping row was added, and nothing was sent. *)
Record held (org : OrgId) (id : Uuid) (transport : string) (reason : NotificationReason.t)
    (w w' : World.t) : Prop := {
  he_row : ∃ row, notifications (state w') = notifications (state w) ++ [(org, row)] ∧
    IncidentNotification.incident_id row = id ∧
    IncidentNotification.transport row = transport ∧
    IncidentNotification.reason row = reason ∧
    IncidentNotification.channel_id row = None ∧
    IncidentNotification.status row = NotificationStatus.Suppressed ∧
    IncidentNotification.created_at row = clock (clock_reads w);
  he_incidents : incidents (state w') = incidents (state w);
  he_sends : sends w' = sends w;
  he_vec : vec w' = vec w;
}.

Lemma marker_run org id transport reason kind m w :
  ∃ w', (_ ← record_notification (marker org id transport reason);
         append_event org id kind Actor.System m) w = (Ok tt, w') ∧
    held org id transport reason w w'.
Proof.
  set (w1 := (mem_record_notification (marker org id transport reason) w).2).
  rewrite (bind_Ok _ _ w (fresh (ids_drawn w)) w1) by done.
  destruct (timeline_append_run org id kind Actor.System m w1) as (w' & Hrun & []).
  exists w'. split; [done|]. split.
  - rewrite no_state0. eexists. by split_and!.
  - by rewrite no_state0.
  - by rewrite no_sends0.
  - by rewrite no_vec0.
Qed.

Lemma rows_past_tick w : rows_past w → rows_past (tick w).
Proof.
  intros Hpast r Hr. destruct (Hpast r Hr) as (k & Hk & ->). exists k. simpl. split; [lia|done].
Qed.

(** The newest marker is the one just written, and nothing is newer. *)
Lemma held_marker org id transport reason w w' :
  rows_past w → held org id transport reason w w' →
  marker_at (state w') transport id = Some (clock (clock_reads w)) ∧
  row_after (state w') id (clock (clock_reads w)) = false.
Proof.
  intros Hpast [(row & Hn & Hid & Htr & _ & Hch & _ & Hat) _ _ _].
  assert (∀ r, r ∈ notifications (state w') →
    IncidentNotification.created_at r.2 ≤ clock (clock_reads w)) as Hle.
  { intros r. rewrite Hn. intros [Hr| ->%list_elem_of_singleton]%elem_of_app; [|simpl; lia].
    destruct (Hpast r Hr) as (k & Hk & ->). apply clock_mono. lia. }
  split.
  - unfold marker_at. apply max_opt_Some. split.
    + apply list_elem_of_fmap. exists (org, row). split; [done|]. apply elem_of_lfilter.
      split; [rewrite Hn; set_solver|]. simpl.
      by rewrite Hid, Htr, Hch, bool_decide_refl, String.eqb_refl.
    + intros x (r & -> & Hr)%list_elem_of_fmap. apply elem_of_lfilter in Hr as [Hr _]. auto.
  - unfold row_after. apply not_true_iff_false. intros (r & Hr & Hlt)%existsb_exists.
    bool_cases. apply list_elem_of_In in Hr. specialize (Hle r Hr). lia.
Qed.

Lemma open_episode_fresh org inc target reason damper w :
  open_episode_active (rows_of w (OpsIncident.id inc)) = false →
  (damper = Damper.Skip → OpsIncident.state inc = IncidentState.Triggered) →
  OpsIncident.origin inc ≠ IncidentOrigin.Manual →
  open_episode wc org inc target reason damper w =
    (if match in_maintenance (clock_reads w) org (Target.id target) with
        | Ok b => b | Err _ => false end
     then hold_for_maintenance org (OpsIncident.id inc) reason
     else
       flap ← (if bool_decide (damper = Damper.Apply) then flap_state_of wc org target
               else mret FlapState.Steady);
       match flap with
       | FlapState.Damped => hold wc org (OpsIncident.id inc) reason
       | FlapState.Crossing =>
           _ ← note_flap_engaged wc org (OpsIncident.id inc) target;
           page_first_rung wc org inc target reason
             (notice wc inc target reason (Some (flap_notice wc)))
       | FlapState.Steady =>
           page_first_rung wc org inc target reason (notice wc inc target reason None)
       end) w.
Proof.
  intros Hact Hskip Hor. unfold open_episode.
  step (notifications_for_run org (OpsIncident.id inc) w). rewrite Hact.
  assert (bool_decide (damper = Damper.Skip)
          && negb (bool_decide (OpsIncident.state inc = IncidentState.Triggered)) = false) as ->.
  { destruct damper; [done|]. by rewrite (bool_decide_eq_true_2 _ (Hskip eq_refl)). }
  rewrite (bool_decide_eq_false_2 _ Hor). cbn [negb]. rewrite andb_true_r.
  step (alerts_suppressed_run org (Target.id target) w). by destruct (match _ with Ok b => _ | Err _ => _ end).
Qed.

(** The automatic opens of a monitor inside the flap window. *)
Definition recent_opens (w : World.t) (target : Target.t) : Z :=
  Z.min U32_MAX (count (λ i, bool_decide (OpsIncident.target_id i = Some (Target.id target))
      && counted_open (clock (clock_reads w)
           - secs_i64 (Z.max (EscalationConfig.flap_window_secs (cfg wc)) 1)) i)
    (incidents (state w))).

Lemma flap_state_run org target w :
  EscalationConfig.flap_max_opens (cfg wc) ≠ 0 →
  flap_state_of wc org target w =
    (Ok (flap_state (recent_opens w target) (EscalationConfig.flap_max_opens (cfg wc))), tick w).
Proof. intros Hmax. unfold flap_state_of. by rewrite (proj2 (Z.eqb_neq _ _) Hmax). Qed.

Lemma taken_all {A} (f : OpsIncident.t → A) (p : OpsIncident.t → bool) l l' limit x :
  l' ≡ₚ List.filter p l → (length l ≤ limit)%nat → x ∈ l → p x = true → f x ∈ f <$> take limit l'.
Proof.
  intros Hl' Hlen Hx Hp. rewrite firstn_all2.
  - apply list_elem_of_fmap_2. rewrite Hl'. by apply elem_of_lfilter.
  - rewrite Hl'. etransitivity; [|exact Hlen]. apply filter_length_le.
Qed.

Lemma maintenance_release_sees org id reason w w' inc limit :
  rows_past w → held org id MAINTENANCE_TRANSPORT reason w w' →
  incident_at w id = Some inc → OpsIncident.state inc = IncidentState.Triggered →
  is_Some (OpsIncident.target_id inc) → (length (incidents (state w)) ≤ limit)%nat →
  ∃ due, due_for_maintenance_release limit w' = (Ok due, w') ∧ DueIncident.of_incident inc ∈ due.
Proof.
  intros Hpast Hheld Hinc Htr Htid Hlen. eexists. split; [done|].
  apply find_Some_elem in Hinc as [Hin Hid]. bool_cases.
  destruct (held_marker _ _ _ _ _ _ Hpast Hheld) as [Hm Hr]. simpl.
  rewrite (he_incidents _ _ _ _ _ _ Hheld).
  eapply taken_all; [apply sort_by_key_perm|done|done|].
  unfold maintenance_held. change "maintenance" with MAINTENANCE_TRANSPORT. rewrite Hid, Hm.
  simpl. rewrite Hr, (bool_decide_eq_true_2 _ Htr). destruct Htid as [t ->]. done.
Qed.

Lemma flap_release_sees org id reason w w' inc now hold limit :
  rows_past w → held org id DAMPED_TRANSPORT reason w w' →
  incident_at w id = Some inc → OpsIncident.state inc = IncidentState.Triggered →
  clock (clock_reads w) ≤ now - hold → (length (incidents (state w)) ≤ limit)%nat →
  ∃ due, due_for_flap_release now hold limit w' = (Ok due, w') ∧ DueIncident.of_incident inc ∈ due.
Proof.
  intros Hpast Hheld Hinc Htr Hcut Hlen. eexists. split; [done|].
  apply find_Some_elem in Hinc as [Hin Hid]. bool_cases.
  destruct (held_marker _ _ _ _ _ _ Hpast Hheld) as [Hm Hr]. simpl.
  rewrite (he_incidents _ _ _ _ _ _ Hheld). eapply taken_all; [reflexivity|done|done|].
  unfold flap_held. change "damped" with DAMPED_TRANSPORT. rewrite Hid, Hm.
  simpl. rewrite Hr, (bool_decide_eq_true_2 _ Htr), (proj2 (Z.leb_le _ _) Hcut). done.
Qed.
End Holding.

(** A held alert is never a dropped one. When an outage the monitoring opened,
    not yet paged, is signalled while its monitor is in a maintenance window (or,
    outside one, after more opens in the flap window than the damper allows),
    nothing is sent and no incident changes: exactly one suppressed marker is
    added to its log, and the incident is then in the release scan, at once for a
    maintenance hold and from the moment the hold has lasted its time for a flap,
    as long as it is still open and nothing newer was logged. *)
Theorem held_alert_is_kept `{EnvironmentLaws, Surroundings, LinkPrimitives, UrlParser,
    UnicodeText} (wc : WorkerConfig) (org : OrgId) (id : Uuid) (inc : OpsIncident.t)
    (target : Target.t) (w : World.t) :
  rows_past w → watching w org id inc target → off target = false →
  OpsIncident.state inc = IncidentState.Triggered → OpsIncident.origin inc ≠ IncidentOrigin.Manual →
  open_episode_active (rows_of w id) = false →
  let in_window := in_maintenance (clock_reads w) org (Target.id target) in
  let listed (scan : M World.t (list DueIncident.t)) (w' : World.t) :=
    ∃ due, scan w' = (Ok due, w') ∧ DueIncident.of_incident inc ∈ due in
  (in_window = Ok true → ∀ damper, ∃ w',
     page_with wc org id NotificationReason.Opened damper w = (Ok tt, w') ∧
     held org id MAINTENANCE_TRANSPORT NotificationReason.Opened w w' ∧
     ∀ limit, (length (incidents (state w)) ≤ limit)%nat →
       listed (due_for_maintenance_release limit) w') ∧
  (in_window ≠ Ok true →
   0 < EscalationConfig.flap_max_opens (cfg wc) < recent_opens wc w target → ∃ w',
     page wc org id NotificationReason.Opened w = (Ok tt, w') ∧
     held org id DAMPED_TRANSPORT NotificationReason.Opened (tick w) w' ∧
     ∀ now hold limit, clock (S (clock_reads w)) ≤ now - hold →
       (length (incidents (state w)) ≤ limit)%nat →
       listed (due_for_flap_release now hold limit) w').
Proof.
  intros Hpast Hw Hoff Htr Hor Hact in_window listed.
  assert (OpsIncident.id inc = id) as Hid
    by (destruct Hw as [Hinc _]; apply find_Some_elem in Hinc as [_ ?]; by bool_cases).
  pose proof (page_with_watching wc org id NotificationReason.Opened) as Hpage.
  pose proof Hw as [Hinc Htarget]. rewrite <-Hid in Hact. split.
  - intros Hin damper. rewrite (Hpage damper w inc target Hw), Hoff. cbn [andb].
    rewrite open_episode_fresh by done. fold in_window. rewrite Hin, Hid.
    destruct (marker_run org id MAINTENANCE_TRANSPORT NotificationReason.Opened
      IncidentEventKind.Note (Some ("alert held: the monitor is in a maintenance window. It pages "
           +:+ "when the window ends if this incident is still open")) w) as (w' & Hrun & Hheld).
    exists w'. split_and!; [exact Hrun|done|]. intros limit Hlen.
    destruct Htarget as (tid & Htid & _). eapply maintenance_release_sees; eauto.
  - intros Hin [Hpos Hover]. unfold page. rewrite (Hpage Damper.Apply w inc target Hw), Hoff.
    cbn [andb]. rewrite open_episode_fresh by done. fold in_window.
    destruct in_window as [[]|]; [done|..];
    (rewrite bool_decide_eq_true_2 by done;
     rewrite (bind_Ok _ _ _ _ _ (flap_state_run wc org target w ltac:(lia)));
     unfold flap_state; rewrite (proj2 (Z.eqb_neq _ 0)), (proj2 (Z.ltb_ge _ _)),
       (proj2 (Z.eqb_neq _ _)) by lia; rewrite Hid;
     destruct (marker_run org id DAMPED_TRANSPORT NotificationReason.Opened
       IncidentEventKind.Note (Some ("alert held: the monitor is flapping. It pages anyway if this incident is still open in "
           +:+ show (div_ceil (EscalationConfig.flap_hold_secs (cfg wc)) 60) +:+ " minutes"))
       (tick w)) as (w' & Hrun & Hheld);
     exists w'; split_and!; [exact Hrun|done|]; intros now hold limit Hnow Hlen;
     by apply (flap_release_sees org id NotificationReason.Opened (tick w));
       [apply rows_past_tick|..]).
Qed.

(** ** The ladder *)
Section Ladder.
Context `{EnvironmentLaws, Surroundings, LinkPrimitives, UrlParser, UnicodeText}.
Context (wc : WorkerConfig).

Lemma noted_incident w w' id : noted w w' → incident_at w' id = incident_at w id.
Proof. intros []. unfold incident_at. by rewrite no_state0. Qed.
Lemma noted_notifications w w' : noted w w' → notifications (state w') = notifications (state w).
Proof. intros []. by rewrite no_state0. Qed.
Lemma noted_channels w w' : noted w w' → channels_of w' = channels_of w.
Proof. intros []. unfold channels_of. by rewrite no_vec0. Qed.
Lemma noted_drawn w w' : noted w w' → rows_drawn w → rows_drawn w'.
Proof.
  intros Hn Hd r. rewrite (noted_notifications _ _ Hn). intros Hr.
  destruct (Hd r Hr) as (k & ? & ?). destruct Hn. exists k. split; [lia|done].
Qed.
Lemma noted_tick w : noted w (tick w).
Proof. split; simpl; try done; [by destruct (state w)|lia]. Qed.
Lemma consulted_noted w w' : consulted w w' → noted w w'.
Proof.
  intros [Hw _ _]. split; try by rewrite Hw. rewrite Hw. simpl. by destruct (state w).
Qed.
Lemma noted_grown org w w1 rows sent w2 :
  noted w w1 → grown w1 org rows sent w2 →
  state w2 = set_notifications (notifications (state w) ++ (pair org <$> rows))
               (set_events (events (state w1)) (state w)) ∧
  (∃ new, sends w2 = sends w ++ new ∧
     ((λ s, (sent_channel s, sent_notice s)) <$> new) = sent ∧
     Forall (logged_before org rows w2) new) ∧
  channels_of w2 = channels_of w ∧ (clock_reads w ≤ clock_reads w2)%nat.
Proof.
  intros Hn [Hst Hs Hch Hck _ _]. pose proof (noted_channels _ _ Hn).
  destruct Hn. split_and!; [by rewrite Hst, no_state0|by rewrite <-no_sends0|congruence|lia].
Qed.

Lemma log_paged_run org id reason k w :
  ∃ w', log_paged org id reason k w = (Ok tt, w') ∧ noted w w'.
Proof.
  unfold log_paged. destruct (k =? 0); [by eexists|]. apply timeline_append_run.
Qed.

Lemma note_empty_run org id level (targets : list PageTarget) w :
  ∃ w', match targets with [] => note_empty_rung org id level | _ => mret tt end w = (Ok tt, w')
    ∧ noted w w'.
Proof. destruct targets; [apply timeline_append_run|by eexists]. Qed.

(** A rung's timer, level and round. *)
Definition on_rung (level round : Z) (next_at : option DateTime) (i : OpsIncident.t)
    : OpsIncident.t :=
  OpsIncident.set_next_escalation_at next_at
    (OpsIncident.set_escalation_round round (OpsIncident.set_escalation_level level i)).

Lemma record_escalation_run org id level round next_at w inc :
  incident_at w id = Some inc → OpsIncident.state inc = IncidentState.Triggered →
  NoDup (OpsIncident.id <$> incidents (state w)) →
  record_escalation org id level round next_at w
    = (Ok true, edited id (on_rung level round next_at) w).
Proof. apply engine_edit_run. Qed.

Lemma stay_run d inc next_at w w0 :
  noted w w0 → incident_at w (DueIncident.id d) = Some inc →
  OpsIncident.state inc = IncidentState.Triggered → NoDup (OpsIncident.id <$> incidents (state w)) →
  ∃ w1, stay_on_rung d next_at w0 = (Ok tt, w1) ∧ sends w1 = sends w ∧
    notifications (state w1) = notifications (state w) ∧
    incident_at w1 (DueIncident.id d) = Some (on_rung (DueIncident.escalation_level d)
      (DueIncident.escalation_round d) next_at inc).
Proof.
  intros Hn Hinc Htr Hnd. pose proof (noted_incident _ _ (DueIncident.id d) Hn) as Hi.
  unfold stay_on_rung. rewrite Hinc in Hi.
  rewrite (bind_Ok _ _ _ _ _ (record_escalation_run (DueIncident.org d) _ _ _ next_at w0 inc Hi Htr
    ltac:(destruct Hn; by rewrite no_state0))).
  eexists. split; [done|]. split_and!; [by destruct Hn|exact (noted_notifications _ _ Hn)|].
  by apply incident_at_edited.
Qed.

(** [page_next_rung], once the monitor is known not to be quiet. *)
Lemma page_next_rung_run d policy level round delay w inc target targets w1 :
  rows_drawn w → NoDup (OpsIncident.id <$> incidents (state w)) →
  watching w (DueIncident.org d) (DueIncident.id d) inc target →
  OpsIncident.state inc = IncidentState.Triggered → Target.enabled target = true →
  in_maintenance (clock_reads w) (DueIncident.org d) (Target.id target) ≠ Ok true →
  resolve_targets (DueIncident.org d) policy level (clock (clock_reads w)) (tick w)
    = (Ok targets, w1) →
  ∃ rows new w' k,
    page_next_rung wc d policy level round delay w = (Ok tt, w') ∧
    Forall2 (page_row wc (clock_reads w) (DueIncident.id d) NotificationReason.Escalated level)
      (reached w (DueIncident.org d) targets) rows ∧
    notifications (state w') = notifications (state w) ++ (pair (DueIncident.org d) <$> rows) ∧
    sends w' = sends w ++ new ∧
    sent_channel <$> new = pt_channel_id ∘ fst <$>
      List.filter sent_to (reached w (DueIncident.org d) targets) ∧
    (clock_reads w < k)%nat ∧
    incident_at w' (DueIncident.id d)
      = Some (on_rung level round (Some (clock k + seconds delay)) inc).
Proof.
  set (org := DueIncident.org d). set (id := DueIncident.id d).
  intros Hdrawn Hnd [Hinc (tid & Htid & Ht)] Htr Hen Hmaint Hres.
  unfold page_next_rung. step (get_run org id w). rewrite Hinc, Htid.
  step (get_target_ok _ _ _ _ Ht).
  rewrite Hen. cbn [negb]. step (alerts_suppressed_run org (Target.id target) w).
  assert (match in_maintenance (clock_reads w) org (Target.id target) with
          | Ok b => b | Err _ => false end = false) as -> by (by destruct (in_maintenance _ _ _) as [[]|]).
  cbv zeta. step (utc_now_run w). step Hres.
  pose proof (rung_consulted _ _ _ _ _ _ _ Hres) as Hc.
  assert (noted w w1) as Hn1
    by (transitivity (tick w); [apply noted_tick|by apply consulted_noted]).
  destruct (note_empty_run org id level targets w1) as (w2 & Hempty & Hn2). step Hempty.
  pose proof (transitivity Hn1 Hn2 : noted w w2) as Hn.
  set (n := notice wc inc target NotificationReason.Escalated None).
  destruct (page_channels_run wc org id n NotificationReason.Escalated level targets paged_default w2)
    as (rows & w3 & Hrun & Hrows & Hg); [by eapply noted_drawn|].
  step Hrun. destruct (noted_grown _ _ _ _ _ _ Hn Hg) as (Hst & (new & Hs & Hsent & _) & Hch & Hck).
  step (utc_now_run w3).
  assert (incidents (state w3) = incidents (state w)) as Hincs by (by rewrite Hst).
  rewrite (bind_Ok _ _ _ _ _ (record_escalation_run org id level round
    (Some (clock (clock_reads w3) + seconds delay)) (tick w3) inc
    ltac:(unfold incident_at; simpl; rewrite Hincs; exact Hinc) Htr ltac:(simpl; by rewrite Hincs))).
  set (w4 := edited id _ (tick w3)).
  destruct (log_paged_run org id NotificationReason.Escalated
    (delivered {| recorded := recorded paged_default + Z.of_nat (length rows);
                  delivered := delivered paged_default + count is_sent rows |}) w4)
    as (w5 & Hlog & Hn5).
  rewrite (reached_eq w w2) in Hrows, Hsent by (by apply noted_channels).
  exists rows, new, w5, (clock_reads w3). split_and!.
  - exact Hlog.
  - eapply Forall2_impl; [exact Hrows|]. intros tc r. apply page_row_earlier, Hn.
  - rewrite (noted_notifications _ _ Hn5). simpl. by rewrite Hst.
  - destruct Hn5. rewrite no_sends0. exact Hs.
  - apply (f_equal (fmap fst)) in Hsent. rewrite <-!list_fmap_compose in Hsent. exact Hsent.
  - pose proof (gr_clock _ _ _ _ _ Hg). pose proof (no_clock _ _ Hn2).
    assert (clock_reads w1 = S (clock_reads w)) by (by rewrite (co_world _ _ Hc)). lia.
  - rewrite (noted_incident _ _ _ Hn5). apply incident_at_edited; [|done].
    unfold incident_at. simpl. rewrite Hincs. exact Hinc.
Qed.
End Ladder.

(** C6: one step of the ladder does what [next_step] decides, and nothing else
    moves the incident. Past the last rung of the last round it stops: no page,
    the timer cleared, the rung kept. While the monitor is turned off or in
    maintenance it waits: no page, the rung kept, the timer a minute on. Otherwise
    the rung's channels that exist and are on get a row each and the verified
    ones a page each, and the incident moves to that rung and round with its timer
    the step's delay after the paging. A policy that is gone, or a timer armed
    without one, clears the timer and pages nobody. *)
Theorem escalation_step_follows_policy `{EnvironmentLaws, Surroundings, LinkPrimitives, UrlParser,
    UnicodeText} (wc : WorkerConfig) (d : DueIncident.t) (inc : OpsIncident.t) (target : Target.t)
    (w : World.t) :
  let org := DueIncident.org d in
  let id := DueIncident.id d in
  let here next_at := on_rung (DueIncident.escalation_level d) (DueIncident.escalation_round d)
                        next_at inc in
  let stays next_at := ∃ w', escalate_one wc d w = (Ok tt, w') ∧ sends w' = sends w ∧
    notifications (state w') = notifications (state w) ∧ incident_at w' id = Some (here next_at) in
  rows_drawn w → NoDup (OpsIncident.id <$> incidents (state w)) →
  watching w org id inc target → OpsIncident.state inc = IncidentState.Triggered →
  (DueIncident.escalation_policy_id d = None → stays None) ∧
  ∀ pid, DueIncident.escalation_policy_id d = Some pid →
    (policy_at (clock_reads w) org pid = Ok None → stays None) ∧
    ∀ policy, policy_at (clock_reads w) org pid = Ok (Some policy) →
      match next_step (EscalationPolicy.steps policy) (EscalationPolicy.repeat_count policy)
              (DueIncident.escalation_level d) (DueIncident.escalation_round d) with
      | EscalationDecision.Exhausted => stays None
      | EscalationDecision.Page level round delay =>
          (Target.enabled target = false
           ∨ in_maintenance (clock_reads w) org (Target.id target) = Ok true →
             stays (Some (clock (clock_reads w) + seconds 60))) ∧
          (Target.enabled target = true →
           in_maintenance (clock_reads w) org (Target.id target) ≠ Ok true →
           ∀ targets w1, resolve_targets org policy level (clock (clock_reads w)) (tick w)
                         = (Ok targets, w1) →
           ∃ rows new w' k, escalate_one wc d w = (Ok tt, w') ∧
             Forall2 (page_row wc (clock_reads w) id NotificationReason.Escalated level)
               (reached w org targets) rows ∧
             notifications (state w') = notifications (state w) ++ (pair org <$> rows) ∧
             sends w' = sends w ++ new ∧
             sent_channel <$> new
               = pt_channel_id ∘ fst <$> List.filter sent_to (reached w org targets) ∧
             (clock_reads w < k)%nat ∧
             incident_at w' id = Some (on_rung level round (Some (clock k + seconds delay)) inc))
      end.
Proof.
  intros org id here stays Hdrawn Hnd Hw Htr.
  assert (∀ next_at w0, noted w w0 →
    ∃ w1, stay_on_rung d next_at w0 = (Ok tt, w1) ∧ sends w1 = sends w ∧
      notifications (state w1) = notifications (state w) ∧ incident_at w1 id = Some (here next_at))
    as Hstay by (intros; destruct Hw; by eapply stay_run).
  unfold stays, escalate_one. clear stays. split.
  { intros ->. by apply (Hstay None w). }
  intros pid ->. split.
  { intros Hp. step (get_policy_ok _ _ _ _ Hp).
    by apply (Hstay None w). }
  intros policy Hp. step (get_policy_ok _ _ _ _ Hp).
  destruct (next_step _ _ _ _) as [level round delay|].
  - split.
    + intros Hquiet. destruct Hw as [Hinc (tid & Htid & Ht)] eqn:?. unfold page_next_rung.
      step (get_run org id w). rewrite Hinc, Htid. step (get_target_ok _ _ _ _ Ht).
      rewrite (bind_Ok _ _ w true w).
      2:{ destruct Hquiet as [->| Hm]; [done|]. destruct (Target.enabled target); [|done]. simpl.
          rewrite alerts_suppressed_run. fold org. by rewrite Hm. }
      cbv iota. step (utc_now_run w).
      apply (Hstay (Some (clock (clock_reads w) + seconds 60)) (tick w)), noted_tick.
    + intros. by eapply page_next_rung_run.
  - destruct (Hstay None w) as (w1 & Hrun & Hs & Hn & Hi); [done|]. step Hrun.
    destruct (timeline_append_run org id IncidentEventKind.Escalated Actor.System
      (Some "escalation policy exhausted") w1) as (w2 & Hev & Hn2).
    exists w2. split_and!; [done|..].
    + destruct Hn2. congruence.
    + by rewrite (noted_notifications _ _ Hn2).
    + by rewrite (noted_incident _ _ _ Hn2).
Qed.

(** ** Retries *)
Section Retries.
Context `{EnvironmentLaws, Surroundings, LinkPrimitives, UrlParser, UnicodeText}.
Context (wc : WorkerConfig).

(** The attempt cap, as the scan and the backoff read it. *)
Definition cap : Z := wrap_i32 (EscalationConfig.max_attempts (cfg wc)).

(** What the row's page would now be about: the incident and the channel. *)
Definition rebuilt (w : World.t) (p : PendingNotification.t)
    : option (OpsIncident.t * NotificationChannel.t) :=
  cid ← PendingNotification.channel_id p;
  inc ← incident_at w (PendingNotification.incident_id p);
  tid ← OpsIncident.target_id inc;
  _ ← default None (ok (target_at (clock_reads w) (PendingNotification.org p) tid));
  c ← channel_at w (PendingNotification.org p) cid;
  Some (inc, c).

(** A row [o] marks is picked up again only as a failure under the cap whose
    time has come. *)
Definition retried_later (o : NotificationOutcome.t) : Prop :=
  ∀ r now, is_pending now cap (apply_outcome o r) = true →
    NotificationOutcome.status o = NotificationStatus.Failed ∧
    NotificationOutcome.attempt o < cap ∧
    ∃ t, NotificationOutcome.next_attempt_at o = Some t ∧ t ≤ now.

Lemma retried_later_intro o :
  (NotificationOutcome.status o = NotificationStatus.Failed →
   NotificationOutcome.attempt o < cap → is_Some (NotificationOutcome.next_attempt_at o)) →
  NotificationOutcome.status o ≠ NotificationStatus.Queued → retried_later o.
Proof.
  intros Hnext Hq r now. unfold is_pending, apply_outcome.
  assert (∀ n : IncidentNotification.t, IncidentNotification.status (match NotificationOutcome.provider_receipt o with
      | Some rc => IncidentNotification.set_provider_receipt (Some rc) n | None => n end)
      = IncidentNotification.status n
    ∧ IncidentNotification.attempt (match NotificationOutcome.provider_receipt o with
      | Some rc => IncidentNotification.set_provider_receipt (Some rc) n | None => n end)
      = IncidentNotification.attempt n
    ∧ IncidentNotification.next_attempt_at (match NotificationOutcome.provider_receipt o with
      | Some rc => IncidentNotification.set_provider_receipt (Some rc) n | None => n end)
      = IncidentNotification.next_attempt_at n) as Hsame
    by (intros n; by destruct (NotificationOutcome.provider_receipt o)).
  cbv zeta. destruct (Hsame (IncidentNotification.set_next_attempt_at (NotificationOutcome.next_attempt_at o)
    (IncidentNotification.set_sent_at (NotificationOutcome.sent_at o)
       (IncidentNotification.set_error (NotificationOutcome.error o)
          (IncidentNotification.set_attempt (NotificationOutcome.attempt o)
             (IncidentNotification.set_status (NotificationOutcome.status o) r)))))) as (-> & -> & ->).
  simpl. intros [[[Hs|Hs]%bool_decide_eq_true Ha%Z.ltb_lt]%andb_prop Ht]%andb_prop; [|done].
  split_and!; [done..|]. destruct (Hnext Hs Ha) as [t Hnt]. rewrite Hnt in *. simpl in Ht.
  bool_cases. by exists t.
Qed.

Lemma rebuild_run p cid w :
  (∀ tid e, target_at (clock_reads w) (PendingNotification.org p) tid ≠ Err e) →
  PendingNotification.channel_id p = Some cid →
  ∃ r, rebuild_notice wc (PendingNotification.org p) (PendingNotification.incident_id p) cid
         (PendingNotification.reason p) w = (Ok r, w) ∧
    match rebuilt w p with
    | None => r = None
    | Some (inc, c) => ∃ n ch, r = Some (n, ch, OpsIncident.state inc) ∧ identity ch = c ∧
        IncidentNotice.reason n = PendingNotification.reason p
    end.
Proof.
  intros Hlook Hcid. unfold rebuild_notice, rebuilt. rewrite Hcid. cbn [mbind option_bind].
  step (get_run (PendingNotification.org p) (PendingNotification.incident_id p) w).
  destruct (incident_at w _) as [inc|]; cbn [mbind option_bind]; [|by eexists].
  destruct (OpsIncident.target_id inc) as [tid|]; cbn [mbind option_bind]; [|by eexists].
  destruct (target_at _ _ tid) as [target|e] eqn:Ht; [|by apply Hlook in Ht].
  step (get_target_ok _ _ _ _ Ht). cbn [ok default]. destruct target as [target|];
    cbn [mbind option_bind]; [|by eexists].
  destruct (get_channel_run (PendingNotification.org p) cid w) as (c & Hc & <-). step Hc.
  eexists. split; [done|]. destruct c as [c|]; cbn; [by eexists _, _|done].
Qed.

Lemma retry_one_run p w :
  (∀ tid e, target_at (clock_reads w) (PendingNotification.org p) tid ≠ Err e) →
  ∃ o new w', retry_one wc p w = (Ok tt, w') ∧
    state w' = state (marked (PendingNotification.org p) (PendingNotification.id p) o w) ∧
    sends w' = sends w ++ new ∧
    NotificationOutcome.attempt o = PendingNotification.attempt p + 1 ∧ retried_later o ∧
    match rebuilt w p with
    | None => NotificationOutcome.status o = NotificationStatus.Failed ∧ new = []
    | Some (inc, c) =>
        if negb (NotificationChannel.enabled c)
           || reason_is_stale (PendingNotification.reason p) (OpsIncident.state inc)
        then NotificationOutcome.status o = NotificationStatus.Suppressed ∧ new = []
        else attempted wc (awaiting_verification c) (PendingNotification.attempt p + 1) o ∧
             (λ s, (sent_channel s, IncidentNotice.reason (sent_notice s))) <$> new
             = if awaiting_verification c then []
               else [(NotificationChannel.id c, PendingNotification.reason p)]
    end.
Proof.
  intros Hlook. unfold retry_one.
  assert (∃ r, match PendingNotification.channel_id p with
      | Some cid => rebuild_notice wc (PendingNotification.org p)
          (PendingNotification.incident_id p) cid (PendingNotification.reason p)
      | None => mret None end w = (Ok r, w) ∧
    match rebuilt w p with
    | None => r = None
    | Some (inc, c) => ∃ n ch, r = Some (n, ch, OpsIncident.state inc) ∧ identity ch = c ∧
        IncidentNotice.reason n = PendingNotification.reason p
    end) as (r & Hr & Hreb).
  { destruct (PendingNotification.channel_id p) as [cid|] eqn:Hcid; [by apply rebuild_run|].
    exists None. split; [done|]. unfold rebuilt. by rewrite Hcid. }
  step Hr. destruct (rebuilt w p) as [[inc c]|].
  2:{ subst r. destruct (backoff_none wc (PendingNotification.attempt p + 1) w)
        as (at_ & w1 & Hb & [[Hst _ _ _ _] Hs] & Hnext). step Hb.
      eexists (finished NotificationStatus.Failed (PendingNotification.attempt p + 1)
        "channel, monitor or incident no longer exists" at_), [], _. split; [done|].
      split_and!; [simpl; by rewrite Hst|simpl; by rewrite app_nil_r|done| |done|done].
      apply retried_later_intro; simpl; [|done]. intros _ Hlt. by apply Hnext. }
  destruct Hreb as (n & ch & -> & <- & Hreason).
  change (NotificationChannel.enabled (identity ch)) with (NotificationChannel.enabled ch).
  destruct (NotificationChannel.enabled ch); cbn [negb orb].
  2:{ eexists (finished _ _ _ _), [], _. split; [done|].
      split_and!; [done|simpl; by rewrite app_nil_r|done| |done|done].
      by apply retried_later_intro. }
  destruct (reason_is_stale _ _).
  { eexists (finished _ _ _ _), [], _. split; [done|].
    split_and!; [done|simpl; by rewrite app_nil_r|done| |done|done].
    by apply retried_later_intro. }
  destruct (attempt_row_run wc (PendingNotification.org p) ch n (PendingNotification.id p)
    (PendingNotification.attempt p + 1) w) as (o & w' & Hrun & Ho & [Hst _ _ _ _] & Hs).
  step Hrun. eexists o, _, w'. split; [done|]. split_and!; [exact Hst|exact Hs|apply Ho| | |].
  - destruct Ho. apply retried_later_intro; [|by destruct at_status as [-> | ->]].
    intros Hf Hlt. apply at_retry. split; [done|]. by rewrite at_attempt in Hlt.
  - done.
  - change (awaiting_verification (identity ch)) with (awaiting_verification ch).
    destruct (awaiting_verification ch); [done|]. simpl. by rewrite Hreason.
Qed.
End Retries.

(** A retry is one more attempt at the same row and nothing but that row
    changes. The attempt is counted whatever happens; the row is marked failed
    and nothing is sent when its channel, monitor or incident is gone, suppressed
    and nothing is sent when the channel was turned off or the incident's state
    moved past the page's reason; otherwise the channel is sent to once, for that
    same reason, unless its address is unverified. Whatever it came to, the row is
    never picked up again unless it failed, still under the attempt cap, and its
    backoff is over. *)
Theorem retry_is_one_attempt `{EnvironmentLaws, Surroundings, LinkPrimitives, UrlParser,
    UnicodeText} (wc : WorkerConfig) (p : PendingNotification.t) (w : World.t) :
  (∀ tid e, target_at (clock_reads w) (PendingNotification.org p) tid ≠ Err e) →
  ∃ o new w', retry_one wc p w = (Ok tt, w') ∧
    state w' = state (marked (PendingNotification.org p) (PendingNotification.id p) o w) ∧
    sends w' = sends w ++ new ∧ (length new ≤ 1)%nat ∧
    NotificationOutcome.attempt o = PendingNotification.attempt p + 1 ∧
    (∀ r now, is_pending now (cap wc) (apply_outcome o r) = true →
       NotificationOutcome.status o = NotificationStatus.Failed ∧
       PendingNotification.attempt p + 1 < cap wc ∧
       ∃ t, NotificationOutcome.next_attempt_at o = Some t ∧ t ≤ now) ∧
    match rebuilt w p with
    | None => NotificationOutcome.status o = NotificationStatus.Failed ∧ new = []
    | Some (inc, c) =>
        if negb (NotificationChannel.enabled c)
           || reason_is_stale (PendingNotification.reason p) (OpsIncident.state inc)
        then NotificationOutcome.status o = NotificationStatus.Suppressed ∧ new = []
        else attempted wc (awaiting_verification c) (PendingNotification.attempt p + 1) o ∧
             (λ s, (sent_channel s, IncidentNotice.reason (sent_notice s))) <$> new
             = if awaiting_verification c then []
               else [(NotificationChannel.id c, PendingNotification.reason p)]
    end.
Proof.
  intros Hlook. destruct (retry_one_run wc p w Hlook)
    as (o & new & w' & Hrun & Hst & Hs & Ha & Hlater & Hcase).
  exists o, new, w'. split_and!; try done.
  - destruct (rebuilt w p) as [[inc c]|]; [|destruct Hcase as [_ ->]; simpl; lia].
    destruct (_ || _); [destruct Hcase as [_ ->]; simpl; lia|].
    destruct Hcase as [_ Hnew]. apply (f_equal length) in Hnew. rewrite length_fmap in Hnew.
    rewrite Hnew. destruct (awaiting_verification c); simpl; lia.
  - intros r now Hp. destruct (Hlater r now Hp) as (?&Hlt&?). by rewrite Ha in Hlt.
Qed.
