(* ===== verification/EngineAllClear.v ===== *)
(** * Opening an outage once and calling it off once

    Theorems on the paging log as the engine's memory, in the world of
    [EngineWorld]: a resolution reaches exactly who is owed it and leaves nobody
    owed, and a signal repeated for an outage already paged does nothing. *)

From Stdlib Require Import Ascii.
From S2P Require Import Prelude Text Domain Incident Target IncidentOps IncidentOpsMem.
From S2P Require Import EscalationPolicy EscalationRules Transports Channels Engine.
From S2P Require Import EngineWorld EngineTargets EnginePaging EngineEpisodes.
Import World.

(** ** Calling off emergency pages *)

(** A row without its provider's receipt, and a log of such rows. *)
Definition receiptless (n : IncidentNotification.t) : IncidentNotification.t :=
  IncidentNotification.set_provider_receipt None n.
Definition paper (w : World.t) : list (OrgId * IncidentNotification.t) :=
  (λ r, (r.1, receiptless r.2)) <$> notifications (state w).

(** Receipts were retired; nothing else happened but cancels. *)
Record called_off (w w' : World.t) : Prop := {
  ca_incidents : incidents (state w') = incidents (state w);
  ca_paper : paper w' = paper w;
  ca_sends : sends w' = sends w;
  ca_vec : vec w' = vec w;
  ca_clock : clock_reads w' = clock_reads w;
  ca_ids : ids_drawn w' = ids_drawn w;
}.

#[global] Instance called_off_preorder : PreOrder called_off.
Proof. split; [by split|]. intros w1 w2 w3 [] []. split; congruence. Qed.

Section CallingOff.
Context `{Environment, Surroundings, LinkPrimitives, UrlParser, UnicodeText}.

Lemma clear_receipt_run org id w :
  ∃ w', clear_receipt org id w = (Ok tt, w') ∧ called_off w w'.
Proof.
  eexists. split; [reflexivity|]. split; try done. unfold paper. simpl.
  induction (notifications (state w)) as [|r l IH]; [done|]. simpl.
  destruct (own_row org id r); csimpl; [done|]. by rewrite IH.
Qed.

Lemma cancel_one_run org ack w :
  ∃ w', cancel_one org ack w = (Ok tt, w') ∧ called_off w w'.
Proof.
  assert (∀ w0, ∃ w', logged (clear_receipt org (EmergencyAck.id ack)) w0 = (Ok tt, w')
                      ∧ called_off w0 w') as Hclear.
  { intros w0. destruct (clear_receipt_run org (EmergencyAck.id ack) w0) as (w' & Hr & Hc).
    exists w'. unfold logged. by rewrite Hr. }
  unfold cancel_one, pushover_receipts.
  destruct (get_channel_run org (EmergencyAck.channel_id ack) w) as (c & Hc & _).
  rewrite (bind_Ok _ _ w (Ok match c with
     | Some c => match NotificationChannel.config c with
                 | ChannelConfig.Pushover p => Some (po_token p) | _ => None end
     | None => None end) w) by (unfold catch; by step Hc).
  destruct (match c with Some _ => _ | None => _ end) as [token|]; [|apply Hclear].
  unfold mbind, M_bind, catch. simpl. destruct (cancel_answer _ _ _).
  - destruct (Hclear (add_cancel (EmergencyAck.receipt ack) w)) as (w' & Hr & []).
    exists w'. split; [done|]. by split.
  - eexists. split; [done|]. by split.
Qed.

Lemma cancel_emergency_run org id w :
  ∃ w', cancel_emergency org id w = (Ok tt, w') ∧ called_off w w'.
Proof.
  unfold cancel_emergency. erewrite bind_Ok by reflexivity. simpl.
  set (acks := omap _ _). generalize acks. clear acks. intros acks.
  revert w. induction acks as [|ack acks IH]; intros w; cbn [for_each]; [by exists w|].
  destruct (cancel_one_run org ack w) as (w1 & Hrun & Hc). step Hrun.
  destruct (IH w1) as (w2 & Hrun2 & Hc2). exists w2. split; [done|]. by transitivity w1.
Qed.
End CallingOff.

(** ** What the log says does not depend on receipts *)
Lemma omap_receiptless (rows : list IncidentNotification.t) :
  omap IncidentNotification.channel_id (receiptless <$> rows)
  = omap IncidentNotification.channel_id rows.
Proof. induction rows as [|n rows IH]; [done|]. csimpl. by rewrite IH. Qed.

Lemma owed_receiptless (rows : list IncidentNotification.t) c : owed_all_clear (receiptless <$> rows) c = owed_all_clear rows c.
Proof.
  unfold owed_all_clear. rewrite lfilter_fmap, <-list_fmap_compose.
  assert (∀ p : IncidentNotification.t → bool, (∀ n, p (receiptless n) = p n) →
    existsb p (receiptless <$> rows) = existsb p rows) as Hex.
  { intros p Hp. induction rows as [|n rows IH]; [done|]. csimpl. by rewrite Hp, IH. }
  simpl. destruct (max_opt _) as [o|]; [|done]. by rewrite Hex.
Qed.

Lemma resolvable_receiptless (rows : list IncidentNotification.t) :
  resolvable_channels (receiptless <$> rows) = resolvable_channels rows.
Proof.
  unfold resolvable_channels. rewrite omap_receiptless.
  generalize (omap IncidentNotification.channel_id rows) ([] : list Uuid, [] : list Uuid).
  intros l. induction l as [|c l IH]; intros [out seen]; [done|]. simpl.
  rewrite owed_receiptless. apply IH.
Qed.

Lemma rows_of_paper w id :
  receiptless <$> rows_of w id
  = snd <$> List.filter (λ n : OrgId * IncidentNotification.t,
      bool_decide (IncidentNotification.incident_id n.2 = id)) (paper w).
Proof.
  unfold rows_of, paper. rewrite lfilter_fmap, <-!list_fmap_compose. done.
Qed.

Lemma resolvable_called_off w w' id :
  called_off w w' → resolvable_channels (rows_of w' id) = resolvable_channels (rows_of w id).
Proof.
  intros []. rewrite <-(resolvable_receiptless (rows_of w' id)), <-(resolvable_receiptless (rows_of w id)).
  by rewrite !rows_of_paper, ca_paper0.
Qed.

Lemma active_receiptless (rows : list IncidentNotification.t) :
  open_episode_active (receiptless <$> rows) = open_episode_active rows.
Proof. unfold open_episode_active. by rewrite !lfilter_fmap, <-!list_fmap_compose. Qed.

Lemma active_called_off w w' id :
  called_off w w' → open_episode_active (rows_of w' id) = open_episode_active (rows_of w id).
Proof.
  intros []. rewrite <-(active_receiptless (rows_of w' id)), <-(active_receiptless (rows_of w id)).
  by rewrite !rows_of_paper, ca_paper0.
Qed.

Lemma row_ids_called_off w w' id :
  called_off w w' → IncidentNotification.id <$> rows_of w' id = IncidentNotification.id <$> rows_of w id.
Proof.
  intros []. assert (∀ rows : list IncidentNotification.t,
    IncidentNotification.id <$> rows = IncidentNotification.id <$> (receiptless <$> rows)) as Hids.
  { intros rows. by rewrite <-list_fmap_compose. }
  by rewrite (Hids (rows_of w' id)), (Hids (rows_of w id)), !rows_of_paper, ca_paper0.
Qed.

Lemma paper_In w w' r :
  paper w' = paper w → r ∈ notifications (state w') →
  ∃ r', r' ∈ notifications (state w) ∧ r'.1 = r.1 ∧ receiptless r'.2 = receiptless r.2.
Proof.
  intros Hp Hr. assert ((r.1, receiptless r.2) ∈ paper w) as (r' & Heq & ?)%list_elem_of_fmap.
  { rewrite <-Hp. by apply (list_elem_of_fmap_2 (λ r, (r.1, receiptless r.2))). }
  exists r'. pose proof (f_equal fst Heq). pose proof (f_equal snd Heq). by split_and!.
Qed.

Lemma drawn_called_off `{Environment} w w' : called_off w w' → rows_drawn w → rows_drawn w'.
Proof.
  intros Hc Hd r Hr. destruct (paper_In _ _ _ (ca_paper _ _ Hc) Hr) as (r' & Hr' & _ & Heq).
  destruct (Hd r' Hr') as (k & ? & Hk). exists k. rewrite (ca_ids _ _ Hc). split; [done|].
  rewrite <-Hk. by injection Heq.
Qed.

Lemma past_called_off `{Environment} w w' : called_off w w' → rows_past w → rows_past w'.
Proof.
  intros Hc Hd r Hr. destruct (paper_In _ _ _ (ca_paper _ _ Hc) Hr) as (r' & Hr' & _ & Heq).
  destruct (Hd r' Hr') as (k & ? & Hk). exists k. rewrite (ca_clock _ _ Hc). split; [done|].
  rewrite <-Hk. by injection Heq.
Qed.

(** ** The all-clear *)
Section AllClear.
Context `{EnvironmentLaws, Surroundings, LinkPrimitives, UrlParser, UnicodeText}.
Context (wc : WorkerConfig).

(** Who is owed the all-clear and can be reached. *)
Definition owed (w : World.t) (org : OrgId) (id : Uuid)
    : list (PageTarget * NotificationChannel.t) :=
  reached w org (channel_targets (resolvable_channels (rows_of w id))).

Lemma rows_of_appended (w w' : World.t) org id rows :
  notifications (state w') = notifications (state w) ++ (pair org <$> rows) →
  Forall (λ r, IncidentNotification.incident_id r = id) rows →
  rows_of w' id = rows_of w id ++ rows.
Proof.
  intros Hn Hid. unfold rows_of. rewrite Hn, lfilter_app, fmap_app. f_equal.
  rewrite lfilter_all.
  - rewrite <-list_fmap_compose. apply list_fmap_id.
  - intros x (r & -> & Hr)%list_elem_of_fmap. simpl. apply bool_decide_eq_true.
    by eapply Forall_forall in Hid.
Qed.

(** The resolution of a monitor that announces recoveries, in closed form. *)
Lemma resolution_run org id w inc target :
  rows_drawn w → watching w org id inc target → Target.notify_recovery target = true →
  ∃ w0 rows new w', page wc org id NotificationReason.Resolved w = (Ok tt, w') ∧
    called_off w w0 ∧ rows_drawn w' ∧
    Forall2 (page_row wc (clock_reads w) id NotificationReason.Resolved
               (OpsIncident.escalation_level inc)) (owed w org id) rows ∧
    incidents (state w') = incidents (state w) ∧
    notifications (state w') = notifications (state w0) ++ (pair org <$> rows) ∧
    sends w' = sends w ++ new ∧
    ((λ s, (sent_channel s, sent_notice s)) <$> new)
      = (λ tc, (pt_channel_id tc.1, notice wc inc target NotificationReason.Resolved None))
          <$> List.filter sent_to (owed w org id) ∧
    channels_of w' = channels_of w.
Proof.
  intros Hd Hw Hrec. pose proof Hw as [Hinc _].
  assert (OpsIncident.id inc = id) as Hid
    by (apply find_Some_elem in Hinc as [_ ?]; by bool_cases).
  unfold page. rewrite (page_with_watching _ _ _ _ _ _ _ _ Hw).
  rewrite bool_decide_eq_true_2, andb_false_r by done.
  unfold notify_resolution. rewrite Hid.
  destruct (cancel_emergency_run org id w) as (w0 & Hcancel & Hc). step Hcancel.
  rewrite Hrec. cbn [negb]. step (notifications_for_run org id w0).
  assert (reached w0 org (channel_targets (resolvable_channels (rows_of w0 id))) = owed w org id)
    as Howed.
  { rewrite (resolvable_called_off _ _ id Hc). apply reached_eq. unfold channels_of.
    by rewrite (ca_vec _ _ Hc). }
  assert (rows_drawn w0) as Hd0 by by eapply drawn_called_off.
  destruct (resolvable_channels (rows_of w0 id)) as [|c l] eqn:Hl.
  { exists w0, [], [], w0. rewrite <-Howed. split_and!; try done;
      [apply Hc|by rewrite app_nil_r|by rewrite app_nil_r; apply Hc|].
    unfold channels_of. by rewrite (ca_vec _ _ Hc). }
  set (n := notice wc inc target NotificationReason.Resolved None).
  destruct (page_channels_run wc org id n NotificationReason.Resolved
    (OpsIncident.escalation_level inc) (channel_targets (c :: l)) paged_default w0 Hd0)
    as (rows & w1 & Hrun & Hrows & [Hst (new & Hs & Hnew & _) Hch Hck Hdr _]).
  rewrite Howed in Hrows, Hnew. cbv zeta. step Hrun.
  destruct (log_paged_run org id NotificationReason.Resolved
    (delivered {| recorded := recorded paged_default + Z.of_nat (length rows);
                  delivered := delivered paged_default + count is_sent rows |}) w1)
    as (w2 & Hlog & Hn).
  exists w0, rows, new, w2. rewrite <-(ca_clock _ _ Hc). split_and!; try done.
  - apply (noted_drawn _ _ Hn), Hdr, Hd0.
  - rewrite (no_state _ _ Hn). simpl. rewrite Hst. apply Hc.
  - rewrite (noted_notifications _ _ Hn), Hst. done.
  - rewrite (no_sends _ _ Hn), Hs. by rewrite (ca_sends _ _ Hc).
  - rewrite (noted_channels _ _ Hn), Hch. unfold channels_of. by rewrite (ca_vec _ _ Hc).
Qed.

Lemma page_rows_incident from id reason level tcs rows :
  Forall2 (page_row wc from id reason level) tcs rows →
  Forall (λ r, IncidentNotification.incident_id r = id) rows.
Proof. induction 1 as [|?? ?? []]; constructor; auto. Qed.

(** After the round nobody it could reach is owed anything. *)
Lemma nobody_owed w w0 w' org id level rows :
  rows_past w → called_off w w0 →
  Forall2 (page_row wc (clock_reads w) id NotificationReason.Resolved level) (owed w org id) rows →
  notifications (state w') = notifications (state w0) ++ (pair org <$> rows) →
  ∀ c, c ∈ resolvable_channels (rows_of w' id) →
    reach w org {| pt_channel_id := c; pt_user_id := None |} = None.
Proof.
  intros Hpast Hc Hrows Hn c Hres.
  rewrite (rows_of_appended w0 w' org id rows Hn) in Hres by by eapply page_rows_incident.
  apply resolvable_spec, owed_all_clear_spec in Hres as (n & Hin & Hcn & Hopen & Hlater).
  destruct (reach w org _) as [tc|] eqn:Hreach; [exfalso|done].
  assert (n ∈ rows_of w0 id) as Hn0.
  { apply elem_of_app in Hin as [|Hin]; [done|].
    apply list_elem_of_lookup in Hin as [i Hi].
    eapply Forall2_lookup_r in Hrows as (tc' & _ & []); [|exact Hi]. by rewrite pr_reason in Hopen. }
  assert (c ∈ resolvable_channels (rows_of w id)) as Hres.
  { rewrite <-(resolvable_called_off _ _ id Hc). apply resolvable_spec, owed_all_clear_spec.
    exists n. split_and!; [done..|]. intros m Hm. apply Hlater. set_solver. }
  assert (tc ∈ owed w org id) as Htc.
  { apply list_elem_of_omap. eexists. split; [|exact Hreach].
    by apply (list_elem_of_fmap_2 (λ c, {| pt_channel_id := c; pt_user_id := None |})). }
  apply list_elem_of_lookup in Htc as [i Hi].
  destruct (Forall2_lookup_l _ _ _ _ _ Hrows Hi) as (m & Hm & []).
  assert (pt_channel_id tc.1 = c) as Htcc.
  { unfold reach in Hreach. simpl in Hreach. destruct (channel_at w org c); simpl in Hreach; [|done].
    destruct (NotificationChannel.enabled _); [|done]. by injection Hreach as <-. }
  assert (IncidentNotification.created_at m < IncidentNotification.created_at n) as Hlt.
  { apply Hlater; [|by rewrite pr_channel, Htcc|done].
    apply elem_of_app. right. by eapply list_elem_of_lookup_2. }
  apply list_elem_of_fmap in Hn0 as (r & -> & Hr). apply elem_of_lfilter in Hr as [Hr _].
  destruct (past_called_off _ _ Hc Hpast r Hr) as (k & Hk & Hck).
  destruct pr_time as (k' & Hk' & Hck'). rewrite (ca_clock _ _ Hc) in Hk.
  pose proof (clock_mono k k' ltac:(lia)). lia.
Qed.
End AllClear.

(** C8: the all-clear goes out once, to whom it is owed. For a monitor that
    announces recoveries, a resolution signal sends the notice of this incident
    to exactly the channels paged for it with no all-clear since, that exist, are
    on and are verified, once each, with a row per reachable one; older rows lose
    at most a receipt and no incident moves. Afterwards no channel that could be
    reached is owed anything, so the signal repeated sends nothing. A monitor that
    opted out is sent nothing and its log gains no row. The monitor's own row is taken
    to stay as it is while the signal is handled, and the log to hold no row of the
    future. *)
Theorem all_clear_goes_out_once `{EnvironmentLaws, Surroundings, LinkPrimitives, UrlParser,
    UnicodeText} (wc : WorkerConfig) (org : OrgId) (id : Uuid) (inc : OpsIncident.t)
    (target : Target.t) (w : World.t) :
  rows_drawn w → rows_past w → watching w org id inc target →
  (∀ k, target_at k = target_at (clock_reads w)) →
  ∃ new w', page wc org id NotificationReason.Resolved w = (Ok tt, w') ∧
    sends w' = sends w ++ new ∧ incidents (state w') = incidents (state w) ∧
    if Target.notify_recovery target then
      ((λ s, (sent_channel s, sent_notice s)) <$> new)
        = (λ tc, (pt_channel_id tc.1, notice wc inc target NotificationReason.Resolved None))
            <$> List.filter sent_to (owed w org id) ∧
      NoDup (sent_channel <$> new) ∧
      (∃ rows, paper w' = paper w ++ ((λ r, (org, receiptless r)) <$> rows) ∧
         Forall2 (page_row wc (clock_reads w) id NotificationReason.Resolved
                    (OpsIncident.escalation_level inc)) (owed w org id) rows) ∧
      owed w' org id = [] ∧
      ∃ w'', page wc org id NotificationReason.Resolved w' = (Ok tt, w'') ∧ sends w'' = sends w'
    else new = [] ∧ paper w' = paper w.
Proof.
  intros Hd Hpast Hw Hsteady. destruct (Target.notify_recovery target) eqn:Hrec.
  2:{ destruct (cancel_emergency_run org (OpsIncident.id inc) w) as (w1 & Hrun & Hc).
      exists [], w1. unfold page. rewrite (page_with_watching _ _ _ _ _ _ _ _ Hw).
      rewrite bool_decide_eq_true_2, andb_false_r by done. unfold notify_resolution.
      step Hrun. rewrite Hrec. destruct Hc. rewrite app_nil_r. done. }
  destruct (resolution_run wc org id w inc target Hd Hw Hrec)
    as (w0 & rows & new & w' & Hrun & Hc & Hd' & Hrows & Hincs & Hn & Hs & Hnew & Hch).
  assert (owed w' org id = []) as Hnone.
  { unfold owed. rewrite (reached_eq w w') by done.
    pose proof (nobody_owed wc w w0 w' org id _ rows Hpast Hc Hrows Hn) as Hno.
    unfold channel_targets. induction (resolvable_channels (rows_of w' id)) as [|c l IH]; [done|].
    rewrite fmap_cons, reached_cons, Hno by (by left). apply IH. intros c' Hc'. apply Hno. by right. }
  exists new, w'. split_and!; try done.
  - assert (sent_channel <$> new = pt_channel_id <$> (fst <$> List.filter sent_to (owed w org id)))
      as ->.
    { apply (f_equal (fmap fst)) in Hnew. rewrite <-!list_fmap_compose in *. exact Hnew. }
    apply NoDup_reached_channels. unfold channel_targets.
    rewrite <-list_fmap_compose. rewrite list_fmap_id. apply resolvable_spec.
  - exists rows. split; [|done]. rewrite <-(ca_paper _ _ Hc). unfold paper.
    by rewrite Hn, fmap_app, <-list_fmap_compose.
  - assert (watching w' org id inc target) as Hw'.
    { destruct Hw as [Hinc (tid & Htid & Ht)]. split; [by unfold incident_at; rewrite Hincs|].
      exists tid. by rewrite Hsteady. }
    destruct (resolution_run wc org id w' inc target Hd' Hw' Hrec)
      as (_ & _ & new2 & w2 & Hrun2 & _ & _ & _ & _ & _ & Hs2 & Hnew2 & _).
    exists w2. split; [done|]. rewrite Hs2. rewrite Hnone in Hnew2. simpl in Hnew2.
    apply fmap_nil_inv in Hnew2 as ->. by rewrite app_nil_r.
Qed.

(** ** Opening an outage *)
Section Opening.
Context `{EnvironmentLaws, Surroundings, LinkPrimitives, UrlParser, UnicodeText}.
Context (wc : WorkerConfig) (org : OrgId) (id : Uuid).

(** A row an opening signal may leave: one of the engine's markers, or a page. *)
Record opening_row (from : nat) (r : IncidentNotification.t) : Prop := {
  or_incident : IncidentNotification.incident_id r = id;
  or_time : ∃ k, (from ≤ k)%nat ∧ IncidentNotification.created_at r = clock k;
  or_reason : IncidentNotification.reason r = NotificationReason.Opened;
  or_kind : IncidentNotification.channel_id r = None ∨
    is_damper_marker (IncidentNotification.transport r) = false;
}.

(** The log only grew, by such rows. *)
Definition opens (w w' : World.t) : Prop :=
  rows_drawn w → rows_drawn w' ∧ (clock_reads w ≤ clock_reads w')%nat ∧
  ∃ rows, notifications (state w') = notifications (state w) ++ (pair org <$> rows) ∧
    Forall (opening_row (clock_reads w)) rows.

#[global] Instance opens_preorder : PreOrder opens.
Proof.
  split.
  - intros w Hd. split_and!; [done..|]. exists []. by rewrite app_nil_r.
  - intros w1 w2 w3 H12 H23 Hd. destruct (H12 Hd) as (Hd2 & Hc2 & r1 & Hn1 & Hr1).
    destruct (H23 Hd2) as (Hd3 & Hc3 & r2 & Hn2 & Hr2). split_and!; [done|lia|].
    exists (r1 ++ r2). rewrite Hn2, Hn1, fmap_app, app_assoc. split; [done|].
    apply Forall_app. split; [done|]. eapply Forall_impl; [exact Hr2|].
    intros r [? (k & ? & ?) ? ?]. split; [done| |done..]. exists k. split; [lia|done].
Qed.

Lemma opens_noted w w' : noted w w' → opens w w'.
Proof.
  intros Hn Hd. split_and!; [by eapply noted_drawn|apply Hn|]. exists [].
  by rewrite (noted_notifications _ _ Hn), app_nil_r.
Qed.

(** The calls that only read, or write to the timeline. *)
Lemma noted_steps {A} (m : M World.t A) : steps_in noted m → steps_in opens m.
Proof. intros Hm w. apply opens_noted, Hm. Qed.

Lemma resolve_for_target_noted tid : steps_in noted (resolve_for_target org tid).
Proof. intros w. reflexivity. Qed.
Lemma get_policy_noted pid : steps_in noted (get_policy org pid).
Proof. intros w. reflexivity. Qed.
Lemma append_event_noted kind actor m : steps_in noted (append_event org id kind actor m).
Proof. intros w. by destruct (timeline_append_run org id kind actor m w) as (w' & -> & ?). Qed.
Lemma utc_now_noted : steps_in noted utc_now.
Proof. intros w. apply noted_tick. Qed.
Lemma roster_get_noted k : steps_in noted (cache_get k).
Proof. intros w. reflexivity. Qed.
Lemma roster_insert_noted k v : steps_in noted (cache_insert k v).
Proof. intros w. split; try done. simpl. by destruct (state w). Qed.
Lemma resolve_now_noted sid at_ : steps_in noted (resolve_now org sid at_).
Proof. intros w. reflexivity. Qed.
Lemma contacts_noted u : steps_in noted (contacts_for_user org u).
Proof. intros w. reflexivity. Qed.
Lemma auto_bound_noted tags : steps_in noted (auto_bound_ids org tags).
Proof. intros w. reflexivity. Qed.
Lemma suppressed_noted tid : steps_in noted (store_alerts_suppressed org tid).
Proof. intros w. reflexivity. Qed.
Lemma opens_since_noted tid since : steps_in noted (opens_since org tid since).
Proof. intros w. reflexivity. Qed.
#[local] Hint Resolve resolve_for_target_noted get_policy_noted append_event_noted utc_now_noted
  roster_get_noted roster_insert_noted resolve_now_noted contacts_noted auto_bound_noted
  suppressed_noted opens_since_noted : steps.

Lemma page_user_noted u out : steps_in noted (page_user org u out).
Proof. unfold page_user. step_through. Qed.
#[local] Hint Resolve page_user_noted : steps.
Lemma page_users_noted us out : steps_in noted (page_users org us out).
Proof. revert out. induction us; intros out; cbn [page_users]; step_through. Qed.
Lemma on_call_noted sid at_ : steps_in noted (resolve_on_call org sid at_).
Proof. unfold resolve_on_call. step_through. Qed.
#[local] Hint Resolve page_users_noted on_call_noted : steps.
Lemma resolve_each_noted at_ l out : steps_in noted (resolve_each org at_ l out).
Proof. revert out. induction l; intros out; cbn [resolve_each]; step_through. Qed.
#[local] Hint Resolve resolve_each_noted : steps.
Lemma resolve_targets_noted policy level at_ : steps_in noted (resolve_targets org policy level at_).
Proof. unfold resolve_targets. step_through. Qed.
Lemma alerts_suppressed_noted tid : steps_in noted (alerts_suppressed org tid).
Proof. unfold alerts_suppressed. step_through. Qed.
Lemma flap_state_noted target : steps_in noted (flap_state_of wc org target).
Proof. unfold flap_state_of. step_through. Qed.
Lemma note_flap_noted target : steps_in noted (note_flap_engaged wc org id target).
Proof. apply append_event_noted. Qed.
Lemma note_empty_noted level : steps_in noted (note_empty_rung org id level).
Proof. apply append_event_noted. Qed.
Lemma log_paged_noted reason k : steps_in noted (log_paged org id reason k).
Proof. intros w. by destruct (log_paged_run org id reason k w) as (w' & -> & ?). Qed.
Lemma paging_ids_noted target : steps_in noted (paging_channel_ids org target).
Proof. unfold paging_channel_ids. step_through. Qed.
#[local] Hint Resolve resolve_targets_noted alerts_suppressed_noted flap_state_noted
  note_flap_noted note_empty_noted log_paged_noted paging_ids_noted noted_steps : steps.

(** The calls that write to the log. *)
Lemma transport_not_marker kind : is_damper_marker (ChannelKind.as_db_str kind) = false.
Proof. by destruct kind. Qed.

Lemma page_channels_opens n level targets paged :
  steps_in opens (page_channels wc org id n NotificationReason.Opened level targets paged).
Proof.
  intros w Hd. destruct (page_channels_run wc org id n NotificationReason.Opened level targets
    paged w Hd) as (rows & w' & -> & Hrows & []). simpl. split_and!; [by apply gr_drawn|done|].
  exists rows. split; [by rewrite gr_state|]. clear -Hrows.
  induction Hrows as [|tc r ? ? [] ? IH]; constructor; [|done]. split; [done|done|done|].
  right. by rewrite pr_transport, transport_not_marker.
Qed.

Lemma marker_opens transport :
  steps_in opens (record_notification (marker org id transport NotificationReason.Opened)).
Proof.
  intros w Hd. split_and!.
  - intros r [Hr| ->%list_elem_of_singleton]%elem_of_app.
    + destruct (Hd r Hr) as (k & ? & ?). exists k. simpl. split; [lia|done].
    + exists (ids_drawn w). simpl. split; [lia|done].
  - simpl. lia.
  - eexists [_]. split; [reflexivity|]. constructor; [|constructor].
    split; [done|exists (clock_reads w); done|done|by left].
Qed.

Lemma begin_opens pid level next_at : steps_in opens (begin_escalation org id pid level next_at).
Proof.
  intros w Hd. cbn [begin_escalation mem_ops_store].
  unfold mem_begin_escalation, edit_triggered, put, state_.
  cbv [mbind M_bind gets modify mret M_ret ops_state set_ops world_ops].
  destruct (List.find _ _); (split_and!; [done|done|]; exists []; by rewrite app_nil_r).
Qed.
#[local] Hint Resolve page_channels_opens marker_opens begin_opens : steps.

Context (inc : OpsIncident.t) (Hid : OpsIncident.id inc = id).

Lemma page_first_rung_opens target n :
  steps_in opens (page_first_rung wc org inc target NotificationReason.Opened n).
Proof. unfold page_first_rung, record_unreachable. rewrite Hid. step_through. Qed.
#[local] Hint Resolve page_first_rung_opens : steps.

Lemma open_episode_opens target damper :
  steps_in opens (open_episode wc org inc target NotificationReason.Opened damper).
Proof.
  unfold open_episode, hold, hold_for_maintenance. rewrite Hid.
  apply steps_bind; [typeclasses eauto|apply noted_steps; intros w; reflexivity|].
  intros already. step_through.
Qed.

End Opening.

Section OpenedOnce.
Context `{EnvironmentLaws, Surroundings, LinkPrimitives, UrlParser, UnicodeText}.
Context (wc : WorkerConfig) (org : OrgId) (id : Uuid).

Lemma incident_at_id w inc : incident_at w id = Some inc → OpsIncident.id inc = id.
Proof. intros [_ ?]%find_Some_elem. by bool_cases. Qed.

Lemma page_opens damper :
  steps_in (opens org id) (page_with wc org id NotificationReason.Opened damper).
Proof.
  intros w. unfold page_with. step (get_run org id w).
  destruct (incident_at w id) as [inc|] eqn:Hinc; [|reflexivity].
  apply incident_at_id in Hinc. destruct (OpsIncident.target_id inc) as [tid|]; [|reflexivity].
  unfold mbind, M_bind. rewrite get_target_run.
  destruct (target_at _ _ _) as [[target|]|e]; [|reflexivity..].
  destruct (_ && _); [reflexivity|]. by apply open_episode_opens.
Qed.

(** An episode that is being paged is not paged again: the signal repeated changes
    nothing, and as a reopening it calls emergency pages off at most. *)
Lemma active_absorbs reason damper w :
  open_episode_active (rows_of w id) = true → reason ≠ NotificationReason.Resolved →
  called_off w (page_with wc org id reason damper w).2 ∧
  (reason = NotificationReason.Opened → (page_with wc org id reason damper w).2 = w).
Proof.
  intros Hact Hres.
  enough (∃ w', (page_with wc org id reason damper w).2 = w' ∧ called_off w w' ∧
    (reason = NotificationReason.Opened → w' = w)) as (w' & -> & ?) by done.
  assert (∀ w', w' = w → ∃ w'', w' = w'' ∧ called_off w w'' ∧ (reason = NotificationReason.Opened → w'' = w)) as Hsame
    by (intros ? ->; by exists w).
  unfold page_with. step (get_run org id w).
  destruct (incident_at w id) as [inc|] eqn:Hinc; [|by apply Hsame].
  apply incident_at_id in Hinc. destruct (OpsIncident.target_id inc) as [tid|]; [|by apply Hsame].
  unfold mbind, M_bind at 1. rewrite get_target_run.
  destruct (target_at _ _ _) as [[target|]|e]; [|by apply Hsame..].
  destruct (_ && _); [by apply Hsame|]. destruct reason; try done; try by apply Hsame.
  - unfold open_episode. rewrite Hinc. step (notifications_for_run org id w). rewrite Hact. by apply Hsame.
  - destruct (cancel_emergency_run org (OpsIncident.id inc) w) as (w0 & Hrun & Hc). unfold M_bind at 1. rewrite Hrun.
    unfold open_episode. rewrite Hinc. step (notifications_for_run org id w0).
    rewrite (active_called_off _ _ _ Hc), Hact. by exists w0.
Qed.

Lemma active_release d w :
  DueIncident.org d = org → DueIncident.id d = id → open_episode_active (rows_of w id) = true →
  (∀ n, newest_held (rows_of w id) = Some n → ¬ all_clear n) →
  let w' := (release_one wc d w).2 in
  sends w' = sends w ∧ incidents (state w') = incidents (state w) ∧
  ∃ rows, paper w' = paper w ++ (pair org <$> rows) ∧ (length rows ≤ 1)%nat ∧
    Forall (λ r, IncidentNotification.channel_id r = None ∧
                 IncidentNotification.transport r = RELEASED_TRANSPORT) rows.
Proof.
  intros Ho Hi Hact Hheld. unfold release_one. rewrite Ho, Hi. step (notifications_for_run org id w).
  set (reason := default NotificationReason.Opened (IncidentNotification.reason <$> newest_held (rows_of w id))).
  assert (held_reason org id w = (Ok reason, w)) as Hreason.
  { unfold held_reason. erewrite bind_Ok; [|unfold catch; by rewrite notifications_for_run]. done. }
  step Hreason.
  assert (reason ≠ NotificationReason.Resolved) as Hres.
  { unfold reason. destruct (newest_held _) as [n|] eqn:E; [|done]. simpl. by apply Hheld. }
  destruct (active_absorbs reason Damper.Skip w Hact Hres) as [Hc _].
  destruct (page_with wc org id reason Damper.Skip w) as [[[]|e] w0] eqn:E; simpl in Hc.
  2:{ unfold mbind, M_bind. rewrite E. cbv zeta. simpl. destruct Hc. split_and!; [done..|]. exists [].
      simpl. rewrite app_nil_r. split_and!; [done|lia|done]. }
  step E. step (notifications_for_run org id w0). destruct (existsb _ (rows_of w0 id)) eqn:Hnew.
  { exfalso. apply existsb_exists in Hnew as (n & Hn & Hneg). bool_cases. apply Hneg.
    rewrite <-(row_ids_called_off _ _ id Hc). apply list_elem_of_In in Hn.
    by apply (list_elem_of_fmap_2 IncidentNotification.id). }
  destruct Hc. cbn. split_and!; [done..|]. eexists [_]. unfold paper in *. simpl.
  rewrite fmap_app, ca_paper0. split; [reflexivity|]. split; [simpl; lia|]. by constructor.
Qed.
End OpenedOnce.

(** A row as it stays on the log, whatever becomes of its delivery. *)
Definition same_row (n n' : IncidentNotification.t) : Prop :=
  IncidentNotification.reason n' = IncidentNotification.reason n ∧
  IncidentNotification.transport n' = IncidentNotification.transport n ∧
  IncidentNotification.created_at n' = IncidentNotification.created_at n.

