(* ===== verification/EngineWitness.v ===== *)
(** * The engine's theorems at work

    A small system (one incident, one monitor, a policy of two rungs and four
    channels, of which one is off and one unverified) on which the theorems of
    the engine's files are applied, their hypotheses discharged by evaluation. *)

From S2P Require Import Prelude Text Domain Incident Target IncidentOps IncidentOpsMem.
From S2P Require Import EscalationPolicy EscalationRules Transports Channels Engine.
From S2P Require Import EngineWorld EngineTargets EnginePaging EngineEpisodes.
From S2P Require Import EngineAllClear.
Import World.

Module Sample.
#[export] Existing Instances plain_text Concrete.env Concrete.env_laws.
#[export] Instance links : LinkPrimitives :=
  {| hmac_hex k m := k +:+ m; render_uuid u := show (Z.of_N u) |}.
#[export] Instance urls : UrlParser := {| parse_url _ := None; trim_edges s := s |}.

Definition config : WorkerConfig := {|
  cfg := {| EscalationConfig.enabled := true; EscalationConfig.tick_interval_secs := 15;
    EscalationConfig.max_pages_per_tick := 500; EscalationConfig.max_attempts := 5;
    EscalationConfig.channel_failure_limit := 3; EscalationConfig.retry_backoff_base_secs := 30;
    EscalationConfig.retry_backoff_cap_secs := 3600;
    EscalationConfig.reconcile_window_secs := 3600; EscalationConfig.flap_window_secs := 3600;
    EscalationConfig.flap_max_opens := 5; EscalationConfig.flap_hold_secs := 600 |};
  base_url := "https://up.example"; incident_ack_secret := "s"; email_configured := true |}.

Definition org : OrgId := 1%N.
Definition incident_id : Uuid := 100%N.
Definition policy_id : Uuid := 50%N.

Definition incident : OpsIncident.t := {|
  OpsIncident.id := incident_id; OpsIncident.target_id := Some 7%N; OpsIncident.title := None;
  OpsIncident.state := IncidentState.Triggered; OpsIncident.severity := IncidentSeverity.Major;
  OpsIncident.urgency := IncidentUrgency.High; OpsIncident.origin := IncidentOrigin.Monitor;
  OpsIncident.visibility := IncidentVisibility.Internal; OpsIncident.paging_enabled := true;
  OpsIncident.counts_as_downtime := true; OpsIncident.started_at := 0;
  OpsIncident.ended_at := None; OpsIncident.acknowledged_at := None;
  OpsIncident.acknowledged_by := None; OpsIncident.assigned_to := None;
  OpsIncident.resolved_by := None; OpsIncident.escalation_policy_id := Some policy_id;
  OpsIncident.escalation_level := 1; OpsIncident.escalation_round := 0;
  OpsIncident.next_escalation_at := None; OpsIncident.check_count := 1;
  OpsIncident.error_sample := None; OpsIncident.regions_down := [];
  OpsIncident.regions_up := []; OpsIncident.created_at := 0; OpsIncident.updated_at := 0 |}.

Definition monitor (enabled recovery : bool) : Target.t := {|
  Target.id := 7%N; Target.name := "api"; Target.interval := seconds 60;
  Target.enabled := enabled; Target.tags := []; Target.alerts := [{| binding_channel_id := 3%N |}];
  Target.alert_confirmations := 1; Target.notify_recovery := recovery;
  Target.renotify_interval_secs := 0; Target.region_policy := RegionIncidentPolicy.Any;
  Target.group_name := None; Target.owner_user_id := None; Target.created_at := 0;
  Target.updated_at := 0; Target.plan_hold_at := None |}.

Definition channel (id : Uuid) (config : ChannelConfig.t) (enabled : bool) : MemEntry.t :=
  entry_of org {|
    NotificationChannel.id := id; NotificationChannel.name := show (Z.of_N id);
    NotificationChannel.kind := ChannelConfig.kind config;
    NotificationChannel.config := config; NotificationChannel.enabled := enabled;
    NotificationChannel.disabled_reason := None; NotificationChannel.verified_at := None;
    NotificationChannel.consecutive_failures := 0; NotificationChannel.failing_since := None;
    NotificationChannel.last_delivered_at := None; NotificationChannel.auto_bind_tags := [];
    NotificationChannel.created_at := 0; NotificationChannel.updated_at := 0;
    NotificationChannel.write_source := WriteSource.Ui |}.
Definition slack : ChannelConfig.t :=
  ChannelConfig.Slack {| sl_webhook_url := "https://hooks.example/x"; sl_mention := None |}.
Definition mail : ChannelConfig.t := ChannelConfig.Email {| em_to := "a@example.org" |}.

Definition to_channel (id : Uuid) : EscalationTarget.t := {|
  EscalationTarget.id := id; EscalationTarget.target_type := EscalationTargetType.Channel;
  EscalationTarget.user_id := None; EscalationTarget.schedule_id := None;
  EscalationTarget.channel_id := Some id |}.
Definition to_schedule (id : Uuid) : EscalationTarget.t := {|
  EscalationTarget.id := id; EscalationTarget.target_type := EscalationTargetType.Schedule;
  EscalationTarget.user_id := None; EscalationTarget.schedule_id := Some id;
  EscalationTarget.channel_id := None |}.
Definition policy : EscalationPolicy.t := {|
  EscalationPolicy.id := policy_id; EscalationPolicy.name := "p";
  EscalationPolicy.description := None; EscalationPolicy.repeat_count := 0;
  EscalationPolicy.steps := [
    {| EscalationStep.id := 1%N; EscalationStep.level := 1; EscalationStep.delay_secs := 300;
       EscalationStep.targets := [to_channel 3%N] |};
    {| EscalationStep.id := 2%N; EscalationStep.level := 2; EscalationStep.delay_secs := 600;
       EscalationStep.targets :=
         [to_channel 3%N; to_channel 4%N; to_schedule 20%N; to_channel 5%N] |}];
  EscalationPolicy.created_at := 0; EscalationPolicy.updated_at := 0 |}.

(** The rest of the system: the monitor as given, in maintenance or not; user 9 is
    on call and reached at channels 3 and 6; every transport takes every page. *)
Definition around (m : Target.t) (quiet : bool) : Surroundings := {|
  policy_bound _ _ _ := Ok None;
  policy_at _ _ id := Ok (if bool_decide (id = policy_id) then Some policy else None);
  on_call_at _ _ _ := Ok [9%N];
  contacts_at _ _ _ := Ok [3%N; 6%N];
  target_at _ _ id := Ok (if bool_decide (id = 7%N) then Some m else None);
  in_maintenance _ _ _ := Ok quiet;
  transport_answer _ _ _ _ := inl None;
  receipt_state _ _ _ := Ok {| acknowledged_ := false; expired_ := false |};
  cancel_answer _ _ _ := Ok tt;
  random _ _ := 0;
|}.

(** The page that opened the outage. *)
Definition opening_page : IncidentNotification.t := {|
  IncidentNotification.id := 1%N; IncidentNotification.incident_id := incident_id;
  IncidentNotification.escalation_level := Some 1; IncidentNotification.target_user_id := None;
  IncidentNotification.channel_id := Some 3%N; IncidentNotification.transport := "slack";
  IncidentNotification.reason := NotificationReason.Opened;
  IncidentNotification.status := NotificationStatus.Failed; IncidentNotification.attempt := 1;
  IncidentNotification.error := Some "timeout"; IncidentNotification.created_at := seconds 1000;
  IncidentNotification.sent_at := None; IncidentNotification.next_attempt_at := None;
  IncidentNotification.provider_receipt := None; IncidentNotification.acked_at := None |}.

Definition world (rows : list (OrgId * IncidentNotification.t)) : World.t := {|
  state := {| incidents := [incident]; events := []; notifications := rows; renotify_counts := ∅ |};
  vec := [channel 3%N slack true; channel 4%N slack false; channel 5%N mail true;
          channel 6%N slack true];
  clock_reads := 2; ids_drawn := 1; sends := []; mails := []; rosters := ∅; cancelled := [] |}.
Definition quiet_log : World.t := world [].
Definition paged_log : World.t := world [(org, opening_page)].

Lemma paged_drawn : rows_drawn paged_log.
Proof. intros r ->%list_elem_of_singleton. exists 0%nat. split; [simpl; lia|done]. Qed.
Lemma paged_past : rows_past paged_log.
Proof. intros r ->%list_elem_of_singleton. exists 0%nat. split; [simpl; lia|done]. Qed.
Lemma quiet_drawn : rows_drawn quiet_log.
Proof. intros r Hr. by apply elem_of_nil in Hr. Qed.
Lemma quiet_past : rows_past quiet_log.
Proof. intros r Hr. by apply elem_of_nil in Hr. Qed.
Lemma one_incident rows : NoDup (OpsIncident.id <$> incidents (state (world rows))).
Proof. apply NoDup_singleton. Qed.
Lemma watched m quiet rows : @watching (around m quiet) (world rows) org incident_id incident m.
Proof. split; [done|]. exists 7%N. done. Qed.
End Sample.
Import Sample.

Definition live (recovery : bool) : Surroundings := around (monitor true recovery) false.

Lemma rung_resolves_once_witness :
  let _ := live true in
  ∃ out w', resolve_targets org policy 2 0 quiet_log = (Ok out, w') ∧
    NoDup (pt_channel_id <$> out) ∧ pt_channel_id <$> out = [3%N; 4%N; 6%N; 5%N].
Proof.
  intros S. eexists _, _. split; [vm_compute; reflexivity|]. split; [|reflexivity].
  eapply (rung_resolves_once org policy 2 0 quiet_log). vm_compute. reflexivity.
Defined.

Lemma paging_round_accounts_witness :
  let _ := live true in
  ∃ rows new w',
    page_channels config org incident_id
      (notice config incident (monitor true true) NotificationReason.Opened None)
      NotificationReason.Opened 2 (channel_targets [3%N; 4%N; 5%N; 6%N]) paged_default quiet_log
      = (Ok {| recorded := Z.of_nat (length rows); delivered := count is_sent rows |}, w') ∧
    sent_channel <$> new = [3%N; 6%N].
Proof.
  intros S.
  destruct (paging_round_accounts config org incident_id
    (notice config incident (monitor true true) NotificationReason.Opened None)
    NotificationReason.Opened 2 (channel_targets [3%N; 4%N; 5%N; 6%N]) quiet_log quiet_drawn)
    as (rows & new & w' & Hrun & _ & _ & _ & Hnew & _).
  exists rows, new, w'. split; [exact Hrun|].
  apply (f_equal (fmap fst)) in Hnew. rewrite <-list_fmap_compose in Hnew.
  etransitivity; [exact Hnew|]. vm_compute. reflexivity.
Defined.

Lemma off_monitor_pages_nobody_witness :
  let _ := around (monitor false true) false in
  page_with config org incident_id NotificationReason.Opened Damper.Apply paged_log
  = (Ok tt, paged_log).
Proof.
  intros S. by apply (off_monitor_pages_nobody config org incident_id incident
    (monitor false true) paged_log (watched _ false _) eq_refl).
Defined.

Lemma held_alert_is_kept_witness :
  let _ := around (monitor true true) true in
  ∃ w', page_with config org incident_id NotificationReason.Opened Damper.Apply quiet_log
        = (Ok tt, w') ∧ sends w' = [].
Proof.
  intros S.
  destruct (held_alert_is_kept config org incident_id incident (monitor true true) quiet_log
    quiet_past (watched _ true _) eq_refl eq_refl ltac:(discriminate) eq_refl) as [Hm _].
  destruct (Hm eq_refl Damper.Apply) as (w' & Hrun & [_ _ Hs _] & _).
  exists w'. split; [exact Hrun|exact Hs].
Defined.

Definition due : DueIncident.t := {|
  DueIncident.id := incident_id; DueIncident.org := org; DueIncident.target_id := Some 7%N;
  DueIncident.escalation_policy_id := Some policy_id; DueIncident.escalation_level := 1;
  DueIncident.escalation_round := 0 |}.

Lemma escalation_step_follows_policy_witness :
  let _ := live true in
  ∃ new w' k, escalate_one config due paged_log = (Ok tt, w') ∧ sends w' = new ∧
    sent_channel <$> new = [3%N; 6%N] ∧
    incident_at w' incident_id = Some (on_rung 2 0 (Some (clock k + seconds 600)) incident).
Proof.
  intros S.
  destruct (escalation_step_follows_policy config due incident (monitor true true) paged_log
    paged_drawn (one_incident _) (watched _ false _) eq_refl) as [_ Hp].
  destruct (Hp policy_id eq_refl) as [_ Hstep]. specialize (Hstep policy eq_refl).
  cbn [next_step policy EscalationPolicy.steps EscalationPolicy.repeat_count] in Hstep.
  destruct Hstep as [_ Hpage].
  edestruct (Hpage eq_refl ltac:(discriminate)) as (rows & new & w' & k & Hrun & _ & _ & Hs & Hnew & _ & Hi);
    [vm_compute; reflexivity|].
  exists new, w', k. split_and!; [exact Hrun|exact Hs| |exact Hi].
  etransitivity; [exact Hnew|]. vm_compute. reflexivity.
Defined.

Definition pending : PendingNotification.t := pending_of org opening_page.

Lemma retry_is_one_attempt_witness :
  let _ := live true in
  ∃ o new w', retry_one config pending paged_log = (Ok tt, w') ∧ sends w' = new ∧
    NotificationOutcome.attempt o = 2 ∧ sent_channel <$> new = [3%N].
Proof.
  intros S.
  assert (∀ tid e, target_at (clock_reads paged_log) (PendingNotification.org pending) tid ≠ Err e)
    as Hlook by (intros tid e; unfold S, live, around; simpl; discriminate).
  destruct (retry_is_one_attempt config pending paged_log Hlook)
    as (o & new & w' & Hrun & _ & Hs & _ & Ha & _ & _ & Hnew).
  exists o, new, w'. split_and!; [exact Hrun|exact Hs|exact Ha|].
  apply (f_equal (fmap fst)) in Hnew. rewrite <-list_fmap_compose in Hnew.
  etransitivity; [exact Hnew|]. vm_compute. reflexivity.
Defined.

Lemma all_clear_goes_out_once_witness :
  let _ := live true in
  ∃ new w', page config org incident_id NotificationReason.Resolved paged_log = (Ok tt, w') ∧
    sends w' = new ∧ sent_channel <$> new = [3%N] ∧ owed w' org incident_id = [].
Proof.
  intros S.
  destruct (all_clear_goes_out_once config org incident_id incident (monitor true true) paged_log
    paged_drawn paged_past (watched _ false _) ltac:(done))
    as (new & w' & Hrun & Hs & _ & Hnew & _ & _ & Howed & _).
  exists new, w'. split_and!; [exact Hrun|exact Hs| |exact Howed].
  apply (f_equal (fmap fst)) in Hnew. rewrite <-list_fmap_compose in Hnew.
  etransitivity; [exact Hnew|]. vm_compute. reflexivity.
Defined.

Lemma opened_log_has_no_all_clear :
  let _ := live true in
  let w' := (page_with config org incident_id NotificationReason.Opened Damper.Apply quiet_log).2 in
  ∀ m, m ∈ rows_of w' incident_id → ¬ all_clear m.
Proof.
  intros S w' m Hm Hc.
  assert (forallb (λ m, negb (is_resolution m)) (rows_of w' incident_id) = true) as Hall by (vm_compute; reflexivity).
  rewrite forallb_forall in Hall. apply list_elem_of_In, Hall in Hm.
  unfold is_resolution in Hm. rewrite bool_decide_eq_true_2 in Hm by exact Hc. done.
Qed.

