(* ===== verification/Scopes.v ===== *)
(** * API-token scopes

    src/auth/scope.rs ([Scope], [ScopeSet]) and what the authorization server
    grants of a request (src/oauth/mod.rs, [grant_scope] and its two lists). A set
    of scopes is a [gset]; a scope is counted by its wire string. *)

From Stdlib Require Import Ascii.
From S2P Require Import Prelude Orders Text.

Inductive Scope :=
| TargetsRead | TargetsWrite | TargetsDelete | TargetsExecute
| ChannelsRead | ChannelsWrite | ChannelsDelete | ChannelsExecute
| IncidentsRead | IncidentsWrite
| OnCallRead | OnCallWrite
| MaintenanceRead | MaintenanceWrite | MaintenanceDelete
| StatusPageRead | StatusPageWrite | StatusPageDelete
| VariablesRead | VariablesWrite
| FullAccess.

#[global] Instance Scope_eq_dec : EqDecision Scope.
Proof. solve_decision. Defined.

Definition as_str (s : Scope) : string :=
  match s with
  | TargetsRead => "targets:read" | TargetsWrite => "targets:write"
  | TargetsDelete => "targets:delete" | TargetsExecute => "targets:execute"
  | ChannelsRead => "channels:read" | ChannelsWrite => "channels:write"
  | ChannelsDelete => "channels:delete" | ChannelsExecute => "channels:execute"
  | IncidentsRead => "incidents:read" | IncidentsWrite => "incidents:write"
  | OnCallRead => "oncall:read" | OnCallWrite => "oncall:write"
  | MaintenanceRead => "maintenance:read" | MaintenanceWrite => "maintenance:write"
  | MaintenanceDelete => "maintenance:delete"
  | StatusPageRead => "status_page:read" | StatusPageWrite => "status_page:write"
  | StatusPageDelete => "status_page:delete"
  | VariablesRead => "variables:read" | VariablesWrite => "variables:write"
  | FullAccess => "full_access"
  end.

Definition parse (s : string) : option Scope :=
  if String.eqb s "targets:read" then Some TargetsRead
  else if String.eqb s "targets:write" then Some TargetsWrite
  else if String.eqb s "targets:delete" then Some TargetsDelete
  else if String.eqb s "targets:execute" then Some TargetsExecute
  else if String.eqb s "channels:read" then Some ChannelsRead
  else if String.eqb s "channels:write" then Some ChannelsWrite
  else if String.eqb s "channels:delete" then Some ChannelsDelete
  else if String.eqb s "channels:execute" then Some ChannelsExecute
  else if String.eqb s "incidents:read" then Some IncidentsRead
  else if String.eqb s "incidents:write" then Some IncidentsWrite
  else if String.eqb s "oncall:read" then Some OnCallRead
  else if String.eqb s "oncall:write" then Some OnCallWrite
  else if String.eqb s "maintenance:read" then Some MaintenanceRead
  else if String.eqb s "maintenance:write" then Some MaintenanceWrite
  else if String.eqb s "maintenance:delete" then Some MaintenanceDelete
  else if String.eqb s "status_page:read" then Some StatusPageRead
  else if String.eqb s "status_page:write" then Some StatusPageWrite
  else if String.eqb s "status_page:delete" then Some StatusPageDelete
  else if String.eqb s "variables:read" then Some VariablesRead
  else if String.eqb s "variables:write" then Some VariablesWrite
  else if String.eqb s "full_access" then Some FullAccess
  else None.

Lemma parse_as_str s : parse (as_str s) = Some s.
Proof. by destruct s. Qed.

Lemma as_str_parse t s : parse t = Some s → as_str s = t.
Proof.
  unfold parse.
  repeat match goal with |- context [String.eqb t ?x] =>
    destruct (String.eqb_spec t x) as [->|_]; [by intros [= <-]|] end.
  done.
Qed.

#[global] Instance Scope_countable : Countable Scope := inj_countable as_str parse parse_as_str.

Definition implied_by_write (s : Scope) : option Scope :=
  match s with
  | TargetsRead => Some TargetsWrite
  | ChannelsRead => Some ChannelsWrite
  | IncidentsRead => Some IncidentsWrite
  | OnCallRead => Some OnCallWrite
  | MaintenanceRead => Some MaintenanceWrite
  | StatusPageRead => Some StatusPageWrite
  | VariablesRead => Some VariablesWrite
  | _ => None
  end.

(** ** [ScopeSet] *)
Definition ScopeSet : Type := gset Scope.

Definition full_access : ScopeSet := {[ FullAccess ]}.
Definition from_strs (l : list string) : ScopeSet := list_to_set (omap parse l).
Definition allows (required : Scope) (s : ScopeSet) : bool :=
  bool_decide (FullAccess ∈ s) || bool_decide (required ∈ s) ||
  is_some_and (λ w, bool_decide (w ∈ s)) (implied_by_write required).
Definition to_strings (s : ScopeSet) : list string := sort_by String.leb (as_str <$> elements s).
Definition is_empty (s : ScopeSet) : bool := bool_decide (s = ∅).

(** ** What a connector is granted (src/oauth/mod.rs) *)
Definition DEFAULT_SCOPES : list Scope := [TargetsRead; StatusPageRead; IncidentsRead].
Definition GRANTABLE_SCOPES : list Scope :=
  [ TargetsRead; StatusPageRead; IncidentsRead; ChannelsRead; TargetsWrite; TargetsExecute;
    IncidentsWrite; StatusPageWrite; VariablesRead ].

Definition scope_list_string (scopes : list Scope) : string := join " " (as_str <$> scopes).
Definition grantable_scope_string : string := scope_list_string GRANTABLE_SCOPES.
Definition default_scope_string : string := scope_list_string DEFAULT_SCOPES.

Definition grant_scope (requested : option string) : string :=
  match requested with
  | None => default_scope_string
  | Some req =>
      let asked := from_strs (split_whitespace req) in
      match as_str <$> List.filter (λ s, allows s asked) GRANTABLE_SCOPES with
      | [] => default_scope_string
      | granted => join " " granted
      end
  end.

(** ** Scope sets are faithful to their strings *)
Lemma elem_of_from_strs s l : s ∈ from_strs l ↔ as_str s ∈ l.
Proof.
  unfold from_strs. rewrite elem_of_list_to_set, list_elem_of_omap. split.
  - intros (t & Ht & Hp). apply as_str_parse in Hp. by subst.
  - intros Hs. exists (as_str s). by rewrite parse_as_str.
Qed.

#[global] Instance as_str_inj : Inj (=) (=) as_str.
Proof. intros s t H. apply (f_equal parse) in H. rewrite !parse_as_str in H. congruence. Qed.

Lemma elem_of_to_strings (s : ScopeSet) t : t ∈ to_strings s ↔ ∃ sc, t = as_str sc ∧ sc ∈ s.
Proof.
  unfold to_strings. rewrite elem_of_sort_by, list_elem_of_fmap.
  split; intros (sc & -> & Hs); exists sc; by rewrite ?elem_of_elements in *.
Qed.

Lemma from_to_strings (s : ScopeSet) : from_strs (to_strings s) = s.
Proof.
  apply set_eq. intros sc. rewrite elem_of_from_strs, elem_of_to_strings. split; [|by exists sc].
  by intros (sc' & ->%(inj as_str) & ?).
Qed.

(** A stored scope set reads back as itself. Writing a set gives the canonical
    strings in order and without duplicates, and reading them gives the set;
    reading any list first and writing it keeps exactly its known scopes. *)
Theorem scope_strings_faithful :
  (∀ s : ScopeSet, from_strs (to_strings s) = s ∧ NoDup (to_strings s) ∧
    StronglySorted (λ a b, String.leb a b = true) (to_strings s)) ∧
  (∀ l t, t ∈ to_strings (from_strs l) ↔ t ∈ l ∧ is_some (parse t) = true).
Proof.
  split.
  - intros s. split_and!; [apply from_to_strings| |apply (sorted_by String.leb)].
    unfold to_strings. rewrite sort_by_perm. apply NoDup_fmap_2; [apply _|]. apply NoDup_elements.
  - intros l t. rewrite elem_of_to_strings. split.
    + intros (sc & -> & Hs). by rewrite elem_of_from_strs, parse_as_str in *.
    + intros [Ht Hp]. destruct (parse t) as [sc|] eqn:Hs; [|done].
      exists sc. apply as_str_parse in Hs as <-. by rewrite elem_of_from_strs.
Qed.

(** ** What a set allows *)
Definition is_read (s : Scope) : bool := is_some (implied_by_write s).

Lemma allows_true r s : allows r s = true ↔ FullAccess ∈ s ∨ r ∈ s ∨ ∃ w, implied_by_write r = Some w ∧ w ∈ s.
Proof.
  unfold allows. rewrite !orb_true_iff, !bool_decide_eq_true.
  assert (is_some_and (λ w, bool_decide (w ∈ s)) (implied_by_write r) = true ↔
          ∃ w, implied_by_write r = Some w ∧ w ∈ s) as ->; [|tauto].
  destruct (implied_by_write r) as [w|]; simpl; [rewrite bool_decide_eq_true|]; naive_solver.
Qed.

Lemma allows_monotone r s s' : s ⊆ s' → allows r s = true → allows r s' = true.
Proof.
  rewrite !allows_true. intros Hs [?|[?|(w & ? & ?)]]; [left|right; left|right; right; exists w];
    eauto using elem_of_weaken.
Qed.

Lemma allows_self r s : r ∈ s → allows r s = true.
Proof. rewrite allows_true. auto. Qed.

(** The resource half of a scope's string. *)
Definition resource_of (s : Scope) : option string := fst <$> split_once ":"%char (as_str s).

Lemma implied_same_resource r w : implied_by_write r = Some w → resource_of w = resource_of r ∧ implied_by_write w = None.
Proof. by destruct r; intros [= <-]. Qed.

(** Holding a scope is worth that scope and no more. Short of full access a set
    grants a capability only when it holds that very scope, or grants a read when
    it holds the write of the same resource: no scope opens another resource, and
    nothing but itself opens a write, a delete or an execution. *)
Theorem scopes_do_not_leak r (s : ScopeSet) :
  FullAccess ∉ s →
  (allows r s = true → r ∈ s ∨ is_read r = true ∧ ∃ w, w ∈ s ∧ is_read w = false ∧ resource_of w = resource_of r) ∧
  (is_read r = false → allows r s = bool_decide (r ∈ s)).
Proof.
  intros Hf. split.
  - intros [?|[?|(w & Hw & ?)]]%allows_true; [done|by left|right].
    destruct (implied_same_resource _ _ Hw) as [Hres Hnone]. unfold is_read. split; [by rewrite Hw|].
    exists w. split; [done|]. split; [by rewrite Hnone|done].
  - unfold is_read. intros Hr. apply eq_bool_prop_intro. rewrite !Is_true_true, bool_decide_eq_true, allows_true.
    destruct (implied_by_write r) eqn:Hi; [done|]. naive_solver.
Qed.

(** ** What is granted *)
Fixpoint sublists {A} (l : list A) : list (list A) :=
  match l with
  | [] => [[]]
  | x :: l => (cons x <$> sublists l) ++ sublists l
  end.

Lemma filter_sublist {A} (p : A → bool) l : List.filter p l ∈ sublists l.
Proof.
  induction l as [|x l IH]; simpl; [by left|]. rewrite elem_of_app.
  destruct (p x); [left|by right]. by apply list_elem_of_fmap_2.
Qed.

Definition words_back (l : list Scope) : bool :=
  bool_decide (split_whitespace (join " " (as_str <$> l)) = as_str <$> l).

Lemma all_words_back : forallb words_back (sublists GRANTABLE_SCOPES) = true.
Proof. vm_compute. reflexivity. Qed.

Lemma split_granted p :
  split_whitespace (join " " (as_str <$> List.filter p GRANTABLE_SCOPES)) = as_str <$> List.filter p GRANTABLE_SCOPES.
Proof.
  pose proof all_words_back as Hall. rewrite forallb_forall in Hall.
  specialize (Hall (List.filter p GRANTABLE_SCOPES)). unfold words_back in Hall.
  rewrite bool_decide_eq_true in Hall. apply Hall, list_elem_of_In, filter_sublist.
Qed.

Definition asked_for (requested : option string) : ScopeSet :=
  match requested with None => ∅ | Some req => from_strs (split_whitespace req) end.
(** The scopes a request is granted: [grant_scope] before it is written out. *)
Definition granted_list (requested : option string) : list Scope :=
  match List.filter (λ s, allows s (asked_for requested)) GRANTABLE_SCOPES with
  | [] => DEFAULT_SCOPES
  | l => l
  end.

Lemma filter_of_none (p : Scope → bool) : (∀ s, p s = false) → List.filter p GRANTABLE_SCOPES = [].
Proof. intros Hp. simpl. by rewrite !Hp. Qed.

Lemma grant_scope_list r : grant_scope r = scope_list_string (granted_list r).
Proof.
  unfold grant_scope, granted_list, scope_list_string, default_scope_string. destruct r as [req|].
  - cbn [asked_for]. by destruct (List.filter _ _) as [|s l].
  - rewrite filter_of_none; [done|]. intros s. apply not_true_iff_false. rewrite allows_true. simpl.
    set_solver.
Qed.

Lemma granted_is_filter r : ∃ p, granted_list r = List.filter p GRANTABLE_SCOPES.
Proof.
  unfold granted_list. destruct (List.filter _ GRANTABLE_SCOPES) eqn:E; [|eexists; symmetry; exact E].
  by exists (λ s, bool_decide (s ∈ DEFAULT_SCOPES)).
Qed.

Lemma granted_words r : split_whitespace (grant_scope r) = as_str <$> granted_list r.
Proof.
  rewrite grant_scope_list. unfold scope_list_string.
  destruct (granted_is_filter r) as [p ->]. apply split_granted.
Qed.

Lemma granted_set r : from_strs (split_whitespace (grant_scope r)) = list_to_set (granted_list r).
Proof.
  apply set_eq. intros s. rewrite elem_of_from_strs, granted_words, elem_of_list_to_set, list_elem_of_fmap.
  split; [|by exists s]. by intros (t & ->%(inj as_str) & ?).
Qed.

Lemma filter_nonempty r : List.filter (λ s, allows s (asked_for r)) GRANTABLE_SCOPES ≠ [] →
  granted_list r = List.filter (λ s, allows s (asked_for r)) GRANTABLE_SCOPES.
Proof. unfold granted_list. by destruct (List.filter _ _). Qed.

Lemma granted_nonempty r : granted_list r ≠ [].
Proof. unfold granted_list. by destruct (List.filter _ _). Qed.

Lemma full_not_grantable : FullAccess ∉ GRANTABLE_SCOPES.
Proof. refine (proj1 (bool_decide_eq_false _) _). reflexivity. Qed.

(** Granting what was granted grants the same. *)
Lemma granted_again r : granted_list (Some (grant_scope r)) = granted_list r.
Proof.
  assert (Hsame : List.filter (λ s, allows s (list_to_set (granted_list r) : ScopeSet)) GRANTABLE_SCOPES = granted_list r).
  { unfold granted_list. destruct (List.filter (λ s, allows s (asked_for r)) GRANTABLE_SCOPES) as [|s0 l0] eqn:E;
      [vm_compute; reflexivity|]. rewrite <-E. apply List.filter_ext_in. intros s Hs%list_elem_of_In.
    apply eq_bool_prop_intro. rewrite !Is_true_true. split.
    - rewrite (allows_true s (list_to_set _)), !elem_of_list_to_set, !elem_of_lfilter.
      intros [[Hin _]|[[_ ?]|(w & Hw & [_ Hal]%elem_of_list_to_set%elem_of_lfilter)]]; [by apply full_not_grantable in Hin|done|].
      apply allows_true in Hal as [?|[?|(w' & Hw' & _)]]; apply allows_true; [by left|right; right; by exists w|].
      apply implied_same_resource in Hw as [_ Hw]. congruence.
    - intros Hal. apply allows_self, elem_of_list_to_set, elem_of_lfilter. by split. }
  unfold granted_list at 1. cbn [asked_for]. rewrite granted_set, Hsame.
  pose proof (granted_nonempty r). by destruct (granted_list r).
Qed.

(** A connector is granted only what it asked for, or the read-only default.
    Whatever is requested: everything granted is on the grantable list, and is
    either one of the default scopes or allowed by the request; a scope that is
    not a read is granted only when the request names it, or full access, and
    every grantable scope the request allows is granted. Granting what was granted
    changes nothing, so the second clamp of the consent form cannot widen the
    first. *)
Theorem grants_only_what_was_asked requested :
  let granted := from_strs (split_whitespace (grant_scope requested)) in
  let asked := asked_for requested in
  (∀ s, s ∈ granted →
    s ∈ GRANTABLE_SCOPES ∧ (s ∈ DEFAULT_SCOPES ∨ allows s asked = true) ∧
    (is_read s = false → s ∈ asked ∨ FullAccess ∈ asked)) ∧
  (∀ s, s ∈ GRANTABLE_SCOPES → allows s asked = true → s ∈ granted) ∧
  grant_scope (Some (grant_scope requested)) = grant_scope requested ∧
  granted ≠ ∅.
Proof.
  cbv zeta. rewrite granted_set. split_and!.
  - intros s Hs%elem_of_list_to_set.
    assert (Hd : s ∈ DEFAULT_SCOPES ∨ allows s (asked_for requested) = true).
    { unfold granted_list in Hs. destruct (List.filter _ _) eqn:E; [by left|right].
      rewrite <-E in Hs. by apply elem_of_lfilter in Hs as [_ ?]. }
    split_and!; [|done|].
    + destruct (granted_is_filter requested) as [p Hp]. rewrite Hp in Hs. by apply elem_of_lfilter in Hs as [? _].
    + intros Hr. destruct Hd as [Hd|[?|[?|(w & Hw & _)]]%allows_true]; [|by right|by left|].
      * repeat (apply elem_of_cons in Hd as [->|Hd]; [done|]). by apply not_elem_of_nil in Hd.
      * unfold is_read in Hr. by rewrite Hw in Hr.
  - intros s Hg Ha. apply elem_of_list_to_set. rewrite filter_nonempty; [by apply elem_of_lfilter|].
    intros E. assert (s ∈ List.filter (λ s, allows s (asked_for requested)) GRANTABLE_SCOPES) as Hs by by apply elem_of_lfilter.
    rewrite E in Hs. by apply not_elem_of_nil in Hs.
  - by rewrite (grant_scope_list (Some _)), granted_again, <-grant_scope_list.
  - intros E. assert (granted_list requested = []) as Hn.
    { destruct (granted_list requested) as [|s l]; [done|]. set_solver. }
    by apply granted_nonempty in Hn.
Qed.

Module ScopesSample.
Example defaults : grant_scope (Some "bogus") = "targets:read status_page:read incidents:read".
Proof. reflexivity. Qed.
Example widest : grant_scope (Some "full_access") = grantable_scope_string.
Proof. reflexivity. Qed.
Example write_brings_read : grant_scope (Some " incidents:write  nope") = "incidents:read incidents:write".
Proof. reflexivity. Qed.

Lemma scopes_do_not_leak_witness : (FullAccess ∉ from_strs ["targets:write"]) ∧
  allows ChannelsRead (from_strs ["targets:write"]) = false.
Proof.
  assert (Hf : FullAccess ∉ from_strs ["targets:write"]) by (refine (proj1 (bool_decide_eq_false _) _); vm_compute; reflexivity).
  split; [exact Hf|].
  destruct (allows ChannelsRead (from_strs ["targets:write"])) eqn:Ha; [|reflexivity].
  destruct (proj1 (scopes_do_not_leak ChannelsRead _ Hf) Ha) as [Hin|(_ & w & Hw & _ & Hr)].
  - apply elem_of_from_strs, list_elem_of_singleton in Hin. discriminate.
  - apply elem_of_from_strs, list_elem_of_singleton in Hw. destruct w; discriminate.
Defined.
End ScopesSample.
