(* ===== verification/ApiTokens.v ===== *)
(** * API tokens

    src/auth/api_tokens.rs and token_hash.rs, and the creation handler's checks
    (src/api/handlers/api_tokens.rs). The table is a [gmap] from a row's id. A
    transaction under the per-user advisory lock is one function. Argon2 is a
    parameter; the buffers filled by the system's generator are an argument, and
    a store counts how many were drawn. *)

From S2P Require Import Prelude Orders Text Scopes Plans Crypto.

(** [SysRng]: the [n]-th buffer filled. 128 bits and more never repeat. *)
Class Random := { fill_bytes : nat → string }.
Class RandomLaws `{Random} := { fill_bytes_inj : ∀ n m, fill_bytes n = fill_bytes m → n = m }.

(** [Argon2::hash_password] under a salt, and [verify_password] on an encoded hash:
    a hash verifies what it was made of, and nothing else. *)
Class Argon2 := {
  hash_password : string → string → option string;
  verify_password : string → string → bool;
}.
Class Argon2Laws `{Argon2} := {
  verify_hash : ∀ salt raw h presented,
    hash_password salt raw = Some h → verify_password presented h = true ↔ presented = raw;
}.

Definition TOKEN_PREFIX : string := "sm_live_".
Definition LAST_USED_DEBOUNCE_SECS : Z := 60.
Definition MAX_NAME_LEN : nat := 80.
Definition MAX_EXPIRY_DAYS : Z := 365.

(** A row of [api_tokens]. *)
Record TokenRow := {
  user_id : UserId;
  name : string;
  token_hash : string;
  token_prefix : string;
  scopes : list string;
  org_id : option OrgId;
  expires_at : option DateTime;
  audience : option string;
  oauth_client_id : option string;
  created_at : DateTime;
  last_used_at : option DateTime;
}.

Module ApiTokenRow.
Record t := {
  id : Uuid;
  user_id : UserId;
  name : string;
  expires_at : option DateTime;
  scopes : ScopeSet;
  org : option OrgId;
  audience : option string;
}.
End ApiTokenRow.

Inductive LookupOutcome := Active (row : ApiTokenRow.t) | Invalid.

Module CreatedToken.
Record t := { id : Uuid; name : string; token : string; prefix : string; created_at : DateTime }.
End CreatedToken.

Module ApiTokenListing.
Record t := {
  id : Uuid; name : string; token_prefix : string; created_at : DateTime;
  last_used_at : option DateTime; expires_at : option DateTime;
  scopes : list string; org_slug : option string;
}.
End ApiTokenListing.

Record Store := {
  rows : gmap Uuid TokenRow;
  drawn : nat;       (* buffers filled so far *)
  made : nat;        (* identifiers generated so far *)
}.
Definition set_rows (f : gmap Uuid TokenRow → gmap Uuid TokenRow) (s : Store) : Store :=
  {| rows := f (rows s); drawn := drawn s; made := made s |}.
Definition empty_store : Store := {| rows := ∅; drawn := 0; made := 0 |}.

Section Tokens.
Context `{Environment} `{Random} `{Argon2} `{Primitives}.
(** [auth.api_tokens.prefix_visible_chars]. *)
Context (prefix_visible_chars : nat).

Definition draw (s : Store) : string * Store :=
  (fill_bytes (drawn s), {| rows := rows s; drawn := S (drawn s); made := made s |}).
Definition gen_random_uuid (s : Store) : Uuid * Store :=
  (fresh (made s), {| rows := rows s; drawn := drawn s; made := S (made s) |}).

Definition raw_of (bytes : string) : string := TOKEN_PREFIX +:+ url_safe_no_pad_encode bytes.
Definition generate_raw (s : Store) : string * Store :=
  let '(bytes, s) := draw s in (raw_of bytes, s).
Definition slice_prefix (raw : string) (n : nat) : string := take_chars (min n (String.length raw)) raw.

(** token_hash.rs *)
Definition hash (raw : string) (s : Store) : result string * Store :=
  let '(salt, s) := draw s in
  (match hash_password salt raw with Some h => Ok h | None => Err (Other "argon2 hash") end, s).
Definition verify (raw encoded : string) : bool := verify_password raw encoded.

(** [expires_at IS NULL OR expires_at > now()]. *)
Definition live (now : DateTime) (r : TokenRow) : bool := is_none_or (λ e, now <? e) (expires_at r).
Definition counts_for (now : DateTime) (user : UserId) (r : TokenRow) : bool :=
  bool_decide (user_id r = user) && is_none (oauth_client_id r) && live now r.
Definition live_count (now : DateTime) (user : UserId) (s : Store) : Z :=
  Z.of_nat (size (filter (λ kv, counts_for now user kv.2 = true) (rows s))).
Definition count_for_user (now : DateTime) (user : UserId) (s : Store) : Z :=
  let n := live_count now user s in if n <=? U32_MAX then n else U32_MAX.

(** [INSERT .. RETURNING id, created_at]. *)
Definition insert_row (row : TokenRow) (raw prefix : string) (s : Store) : result CreatedToken.t * Store :=
  let '(id, s) := gen_random_uuid s in
  match rows s !! id with
  | Some _ => (Err (Other "api_tokens_pkey"), s)
  | None =>
      (Ok {| CreatedToken.id := id; CreatedToken.name := name row; CreatedToken.token := raw;
             CreatedToken.prefix := prefix; CreatedToken.created_at := created_at row |},
       set_rows <[id := row]> s)
  end.

Definition create (now : DateTime) (user : UserId) (nm : string) (sc : ScopeSet) (org : option OrgId)
    (expires : option DateTime) (max_tokens : Z) (s : Store) : result CreatedToken.t * Store :=
  let '(raw, s) := generate_raw s in
  let prefix := slice_prefix raw prefix_visible_chars in
  let current := live_count now user s in
  if max_tokens <? current + 1 then
    (Err (quota_exceeded "max_api_tokens_per_user" current max_tokens "free"), s)
  else
    match hash raw s with
    | (Err e, s) => (Err e, s)
    | (Ok h, s) =>
        insert_row {| user_id := user; name := nm; token_hash := h; token_prefix := prefix;
          scopes := to_strings sc; org_id := org; expires_at := expires; audience := None;
          oauth_client_id := None; created_at := now; last_used_at := None |} raw prefix s
    end.

(** The connector tokens of one (user, org, client, audience). *)
Definition connector (user : UserId) (org : OrgId) (client aud : string) (r : TokenRow) : bool :=
  bool_decide (user_id r = user) && bool_decide (org_id r = Some org) &&
  bool_decide (oauth_client_id r = Some client) && bool_decide (audience r = Some aud).

Definition revoke_oauth (user : UserId) (org : OrgId) (client aud : string) : Store → Store :=
  set_rows (filter (λ kv, connector user org client aud kv.2 = false)).

Definition mint_oauth (now : DateTime) (user : UserId) (org : OrgId) (nm : string) (sc : ScopeSet)
    (expires : DateTime) (aud client : string) (s : Store) : result CreatedToken.t * Store :=
  let '(raw, s) := generate_raw s in
  let prefix := slice_prefix raw prefix_visible_chars in
  match hash raw s with
  | (Err e, s) => (Err e, s)
  | (Ok h, s) =>
      insert_row {| user_id := user; name := nm; token_hash := h; token_prefix := prefix;
        scopes := to_strings sc; org_id := Some org; expires_at := Some expires; audience := Some aud;
        oauth_client_id := Some client; created_at := now; last_used_at := None |} raw prefix
        (revoke_oauth user org client aud s)
  end.

(** The caller's tokens, newest first; the slug of the bound organization is
    joined in. *)
Definition list_for_user (slug_of : OrgId → option string) (user : UserId) (s : Store) : list ApiTokenListing.t :=
  sort_by (desc (on ApiTokenListing.created_at Z.leb))
    ((λ kv : Uuid * TokenRow, let '(i, r) := kv in
      {| ApiTokenListing.id := i; ApiTokenListing.name := name r; ApiTokenListing.token_prefix := token_prefix r;
         ApiTokenListing.created_at := created_at r; ApiTokenListing.last_used_at := last_used_at r;
         ApiTokenListing.expires_at := expires_at r; ApiTokenListing.scopes := scopes r;
         ApiTokenListing.org_slug := org_id r ≫= slug_of |})
     <$> map_to_list (filter (λ kv, user_id kv.2 = user) (rows s))).

Definition row_of (id : Uuid) (r : TokenRow) : ApiTokenRow.t :=
  {| ApiTokenRow.id := id; ApiTokenRow.user_id := user_id r; ApiTokenRow.name := name r;
     ApiTokenRow.expires_at := expires_at r; ApiTokenRow.scopes := from_strs (scopes r);
     ApiTokenRow.org := org_id r; ApiTokenRow.audience := audience r |}.

Fixpoint first_verified (now : DateTime) (raw : string) (l : list (Uuid * TokenRow)) : LookupOutcome :=
  match l with
  | [] => Invalid
  | (id, r) :: l =>
      if is_some_and (λ e, e <=? now) (expires_at r) then first_verified now raw l
      else if verify raw (token_hash r) then Active (row_of id r)
      else first_verified now raw l
  end.

(** The rows of the prefix come in an order of the database's choosing. *)
Definition lookup_by_raw `{Scheduling} (now : DateTime) (raw : string) (s : Store) : LookupOutcome :=
  if negb (String.prefix TOKEN_PREFIX raw) then Invalid
  else
    let prefix := slice_prefix raw prefix_visible_chars in
    first_verified now raw (interleave (map_to_list (filter (λ kv, token_prefix kv.2 = prefix) (rows s)))).

(** [last_used_at], debounced: what the replica's cache holds for the token. *)
Definition should_touch (now : DateTime) (cached : option DateTime) : bool :=
  match cached with None => true | Some last => seconds LAST_USED_DEBOUNCE_SECS <=? now - last end.
Definition used_at (now : DateTime) (r : TokenRow) : TokenRow :=
  {| user_id := user_id r; name := name r; token_hash := token_hash r;
     token_prefix := token_prefix r; scopes := scopes r; org_id := org_id r; expires_at := expires_at r;
     audience := audience r; oauth_client_id := oauth_client_id r; created_at := created_at r;
     last_used_at := Some now |}.
Definition touch_last_used_debounced (now : DateTime) (cached : option DateTime) (id : Uuid) (s : Store)
    : Store * option DateTime :=
  if negb (should_touch now cached) then (s, cached)
  else (set_rows (alter (used_at now) id) s, Some now).

Definition with_name (nm : string) (r : TokenRow) : TokenRow :=
  {| user_id := user_id r; name := nm; token_hash := token_hash r;
     token_prefix := token_prefix r; scopes := scopes r; org_id := org_id r; expires_at := expires_at r;
     audience := audience r; oauth_client_id := oauth_client_id r; created_at := created_at r;
     last_used_at := last_used_at r |}.
Definition owned (user : UserId) (id : Uuid) (s : Store) : bool :=
  is_some_and (λ r, bool_decide (user_id r = user)) (rows s !! id).
Definition rename_for_user (user : UserId) (id : Uuid) (nm : string) (s : Store) : bool * Store :=
  if owned user id s then (true, set_rows (alter (with_name nm) id) s) else (false, s).
Definition delete_for_user (user : UserId) (id : Uuid) (s : Store) : bool * Store :=
  if owned user id s then (true, set_rows (delete id) s) else (false, s).

(** ** Creating a token through the API *)
Definition validate_name (nm : string) : result string :=
  let trimmed := str_trim nm in
  if String.eqb trimmed "" then Err (BadRequest "TOKEN_NAME_INVALID" "name must not be empty" (Some "name"))
  else if (MAX_NAME_LEN <? String.length trimmed)%nat then
    Err (BadRequest "TOKEN_NAME_INVALID" "name must be at most 80 characters" (Some "name"))
  else Ok trimmed.

Definition parse_scopes (l : list string) : result ScopeSet :=
  match l with
  | [] => Err (Unprocessable "INVALID_SCOPES" "at least one scope is required")
  | _ =>
      match List.find (λ s, is_none (Scopes.parse s)) l with
      | Some bad => Err (Unprocessable "INVALID_SCOPES" ("unknown scope `" +:+ bad +:+ "`"))
      | None => Ok (from_strs l)
      end
  end.

Definition resolve_expiry (now : DateTime) (days : option Z) : result (option DateTime) :=
  match days with
  | None => Ok None
  | Some d =>
      if (d =? 0) || (MAX_EXPIRY_DAYS <? d)
      then Err (Unprocessable "INVALID_EXPIRY" "expiry must be between 1 and 365 days")
      else Ok (Some (now + d * DAY))
  end.

(** [find_id_by_slug] and [is_active_member] are the organization store's. *)
Definition resolve_bound_org (find_id_by_slug : string → result (option OrgId))
    (is_active_member : UserId → OrgId → result bool) (user : UserId) (slug : string) : result OrgId :=
  match find_id_by_slug slug with
  | Err e => Err e
  | Ok None => Err Forbidden
  | Ok (Some org) =>
      match is_active_member user org with
      | Err e => Err e
      | Ok false => Err Forbidden
      | Ok true => Ok org
      end
  end.

Record NewApiTokenRequest := {
  req_name : string; req_scopes : list string; org_slug : option string; expires_in_days : option Z;
}.

(** [api::handlers::api_tokens::create], for a verified browser session; the cap
    of the active organization's plan is read before the insert. *)
Definition create_token (find_id_by_slug : string → result (option OrgId))
    (is_active_member : UserId → OrgId → result bool) (limit : result Z)
    (now : DateTime) (user : UserId) (req : NewApiTokenRequest) (s : Store) : result CreatedToken.t * Store :=
  match validate_name (req_name req) with
  | Err e => (Err e, s)
  | Ok nm =>
  match parse_scopes (req_scopes req) with
  | Err e => (Err e, s)
  | Ok sc =>
  match resolve_expiry now (expires_in_days req) with
  | Err e => (Err e, s)
  | Ok expires =>
      let bound_slug := match str_trim <$> org_slug req with Some "" => None | b => b end in
      let bound :=
        match bound_slug with
        | None => Ok None
        | Some slug =>
            match resolve_bound_org find_id_by_slug is_active_member user slug with
            | Ok org => Ok (Some org) | Err e => Err e end
        end in
      match bound with
      | Err e => (Err e, s)
      | Ok org =>
          match limit with
          | Err e => (Err e, s)
          | Ok max_tokens => create now user nm sc org expires max_tokens s
          end
      end
  end end end.

(** [rename] and [revoke]: 404 for a token that is not the caller's. *)
Definition token_not_found : AppError := NotFoundErr "TOKEN_NOT_FOUND" "token not found".
Definition rename (user : UserId) (id : Uuid) (nm : string) (s : Store) : result unit * Store :=
  match validate_name nm with
  | Err e => (Err e, s)
  | Ok nm => let '(updated, s) := rename_for_user user id nm s in
             ((if updated then Ok tt else Err token_not_found), s)
  end.
Definition revoke (user : UserId) (id : Uuid) (s : Store) : result unit * Store :=
  let '(removed, s) := delete_for_user user id s in
  ((if removed then Ok tt else Err token_not_found), s).

(** ** The calls, and the stores they reach *)
Inductive call :=
| Create (user : UserId) (nm : string) (sc : ScopeSet) (org : option OrgId) (expires : option DateTime) (max_tokens : Z)
| Mint (user : UserId) (org : OrgId) (nm : string) (sc : ScopeSet) (expires : DateTime) (aud client : string)
| RevokeOauth (user : UserId) (org : OrgId) (client aud : string)
| Rename (user : UserId) (id : Uuid) (nm : string)
| Delete (user : UserId) (id : Uuid)
| Touch (cached : option DateTime) (id : Uuid).

Definition apply (now : DateTime) (c : call) (s : Store) : Store :=
  match c with
  | Create user nm sc org expires max_tokens => (create now user nm sc org expires max_tokens s).2
  | Mint user org nm sc expires aud client => (mint_oauth now user org nm sc expires aud client s).2
  | RevokeOauth user org client aud => revoke_oauth user org client aud s
  | Rename user id nm => (rename_for_user user id nm s).2
  | Delete user id => (delete_for_user user id s).2
  | Touch cached id => (touch_last_used_debounced now cached id s).1
  end.

Definition cap_within (cap : Z) (c : call) : bool :=
  match c with Create _ _ _ _ _ max_tokens => max_tokens <=? cap | _ => true end.

Inductive reachable (cap : Z) : DateTime → Store → Prop :=
| reach_empty now : reachable cap now empty_store
| reach_call now now' c s : reachable cap now s → now ≤ now' → cap_within cap c = true →
    reachable cap now' (apply now' c s).

(** ** Every row is minted of its own secret *)
Definition raw_token (n : nat) : string := raw_of (fill_bytes n).
Definition minted (r : TokenRow) (n : nat) : Prop :=
  (∃ salt, hash_password salt (raw_token n) = Some (token_hash r)) ∧
  token_prefix r = slice_prefix (raw_token n) prefix_visible_chars.

Record inv (s : Store) : Prop := {
  inv_minted : ∀ id r, rows s !! id = Some r → ∃ n, (n < drawn s)%nat ∧ minted r n;
  inv_apart : ∀ i j r r' n, rows s !! i = Some r → rows s !! j = Some r' → minted r n → minted r' n → i = j;
  inv_ids : ∀ id r, rows s !! id = Some r → ∃ k, (k < made s)%nat ∧ id = fresh k;
  inv_connector : ∀ i j r r' user org client aud, rows s !! i = Some r → rows s !! j = Some r' →
    connector user org client aud r = true → connector user org client aud r' = true → i = j;
}.

(** What a call that only rewrites or removes rows does to one. *)
Definition kept (r' r : TokenRow) : Prop :=
  token_hash r' = token_hash r ∧ token_prefix r' = token_prefix r ∧ user_id r' = user_id r ∧
  org_id r' = org_id r ∧ oauth_client_id r' = oauth_client_id r ∧ audience r' = audience r ∧
  expires_at r' = expires_at r ∧ scopes r' = scopes r.
Definition shrinks (s s' : Store) : Prop :=
  (drawn s ≤ drawn s')%nat ∧ (made s ≤ made s')%nat ∧
  ∀ id r', rows s' !! id = Some r' → ∃ r, rows s !! id = Some r ∧ kept r' r.

Lemma kept_refl r : kept r r.
Proof. by repeat split. Qed.

Lemma same_rows_shrinks s s' :
  rows s' = rows s → (drawn s ≤ drawn s')%nat → (made s ≤ made s')%nat → shrinks s s'.
Proof. intros Hr ??. split_and!; [done..|]. intros id r. rewrite Hr. exists r. by split; [|apply kept_refl]. Qed.

Lemma shrinks_refl s : shrinks s s.
Proof. by apply same_rows_shrinks. Qed.

Lemma kept_minted r' r n : kept r' r → minted r' n ↔ minted r n.
Proof. intros (Hh & Hp & _). unfold minted. by rewrite Hh, Hp. Qed.

Lemma kept_connector r' r user org client aud : kept r' r →
  connector user org client aud r' = connector user org client aud r.
Proof. intros (_ & _ & Hu & Ho & Hc & Ha & _). unfold connector. by rewrite Hu, Ho, Hc, Ha. Qed.

Lemma kept_counts now user r' r : kept r' r → counts_for now user r' = counts_for now user r.
Proof. intros (_ & _ & Hu & _ & Hc & _ & He & _). unfold counts_for, live. by rewrite Hu, Hc, He. Qed.

Lemma shrinks_inv s s' : inv s → shrinks s s' → inv s'.
Proof.
  intros Hinv (Hd & Hm & Hrows). split.
  - intros id r' (r & Hr & Hk)%Hrows. destruct (inv_minted s Hinv id r Hr) as (n & ? & ?).
    exists n. split; [lia|]. by rewrite (kept_minted r' r n Hk).
  - intros i j r1' r2' n (r1 & Hr1 & Hk1)%Hrows (r2 & Hr2 & Hk2)%Hrows.
    rewrite (kept_minted _ _ _ Hk1), (kept_minted _ _ _ Hk2). by apply (inv_apart s Hinv i j).
  - intros id r' (r & Hr & _)%Hrows. destruct (inv_ids s Hinv id r Hr) as (k & ? & ->). exists k. split; [lia|done].
  - intros i j r1' r2' user org client aud (r1 & Hr1 & Hk1)%Hrows (r2 & Hr2 & Hk2)%Hrows.
    rewrite (kept_connector _ _ _ _ _ _ Hk1), (kept_connector _ _ _ _ _ _ Hk2). by eapply (inv_connector s Hinv).
Qed.

Lemma alter_shrinks f id s : (∀ r, kept (f r) r) → shrinks s (set_rows (alter f id) s).
Proof.
  intros Hf. split_and!; [done..|]. simpl. intros i r' Hr'.
  destruct (decide (id = i)) as [->|Hne].
  - rewrite lookup_alter_eq in Hr'. apply fmap_Some in Hr' as (r & Hr & ->). exists r. by split.
  - rewrite lookup_alter_ne in Hr' by done. exists r'. by split; [|apply kept_refl].
Qed.

Lemma submap_shrinks f s : (∀ m : gmap Uuid TokenRow, f m ⊆ m) → shrinks s (set_rows f s).
Proof.
  intros Hf. split_and!; [done..|]. simpl. intros i r Hr. exists r. split; [|apply kept_refl].
  by eapply lookup_weaken, Hf.
Qed.

Lemma revoke_shrinks user org client aud s : shrinks s (revoke_oauth user org client aud s).
Proof. apply submap_shrinks. intros m. apply map_filter_subseteq. Qed.

Lemma rename_shrinks user id nm s : shrinks s (rename_for_user user id nm s).2.
Proof.
  unfold rename_for_user. case_match; [|apply shrinks_refl]. apply alter_shrinks. intros r. by repeat split.
Qed.

Lemma delete_shrinks user id s : shrinks s (delete_for_user user id s).2.
Proof.
  unfold delete_for_user. case_match; [|apply shrinks_refl]. apply submap_shrinks. intros m. apply delete_subseteq.
Qed.

Lemma touch_shrinks now cached id s : shrinks s (touch_last_used_debounced now cached id s).1.
Proof.
  unfold touch_last_used_debounced. case_match; [apply shrinks_refl|]. apply alter_shrinks. intros r. by repeat split.
Qed.

Section Laws.
Context `{!EnvironmentLaws} `{!RandomLaws} `{!Argon2Laws} `{!PrimitivesLaws}.

Lemma raw_token_inj n m : raw_token n = raw_token m → n = m.
Proof.
  intros Hraw. apply fill_bytes_inj. injection Hraw as Henc. change ("" +:+ ?s) with s in Henc.
  apply (f_equal url_safe_no_pad_decode) in Henc. rewrite !decode_encode in Henc. by injection Henc.
Qed.

Lemma minted_unique r n m : minted r n → minted r m → n = m.
Proof.
  intros [(salt & Hn) _] [(salt' & Hm) _]. apply raw_token_inj.
  eapply (verify_hash salt' (raw_token m)); [exact Hm|].
  by eapply (verify_hash salt (raw_token n)).
Qed.

Lemma minted_verifies r n presented : minted r n → verify presented (token_hash r) = true ↔ presented = raw_token n.
Proof. intros [(salt & Hn) _]. by apply (verify_hash salt). Qed.

(** One more row, of the secret drawn now. *)
Definition grows (s : Store) (c : CreatedToken.t) (row : TokenRow) (s' : Store) : Prop :=
  rows s' = <[CreatedToken.id c := row]> (rows s) ∧ rows s !! CreatedToken.id c = None ∧
  (∃ k, (made s ≤ k < made s')%nat ∧ CreatedToken.id c = fresh k) ∧
  (∃ n, (drawn s ≤ n < drawn s')%nat ∧ minted row n ∧ CreatedToken.token c = raw_token n).

Lemma grows_inv s c row s' :
  inv s → grows s c row s' →
  (∀ i r user org client aud, rows s !! i = Some r → connector user org client aud r = true →
     connector user org client aud row = false) →
  inv s'.
Proof.
  intros Hinv (Hrows & Hnone & (k & Hk & Hid) & (n & Hn & Hrow & _)) Hconn.
  assert (Hold : ∀ i r m, rows s !! i = Some r → minted r m → m ≠ n).
  { intros i r m Hr Hm ->. destruct (inv_minted s Hinv i r Hr) as (m & ? & Hm').
    pose proof (minted_unique r n m Hm Hm'). lia. }
  split; rewrite Hrows.
  - intros i r [[<- <-]|[? Hr]]%lookup_insert_Some; [exists n; split; [lia|done]|].
    destruct (inv_minted s Hinv i r Hr) as (m & ? & ?). exists m. split; [lia|done].
  - intros i j r r' m [[<- <-]|[? Hr]]%lookup_insert_Some [[<- <-]|[? Hr']]%lookup_insert_Some Hm Hm'; [done|..].
    + exfalso. apply (Hold j r' m Hr' Hm'). exact (minted_unique _ m n Hm Hrow).
    + exfalso. apply (Hold i r m Hr Hm). exact (minted_unique _ m n Hm' Hrow).
    + by apply (inv_apart s Hinv i j r r' m).
  - intros i r [[<- <-]|[? Hr]]%lookup_insert_Some; [exists k; split; [lia|done]|].
    destruct (inv_ids s Hinv i r Hr) as (k' & ? & ->). exists k'. split; [lia|done].
  - intros i j r r' user org client aud [[<- <-]|[? Hr]]%lookup_insert_Some [[<- <-]|[? Hr']]%lookup_insert_Some Hc Hc';
      [done|..].
    + by rewrite (Hconn j r' user org client aud Hr' Hc') in Hc.
    + by rewrite (Hconn i r user org client aud Hr Hc) in Hc'.
    + by apply (inv_connector s Hinv i j r r' user org client aud).
Qed.

Lemma revoke_none user org client aud i r s :
  rows (revoke_oauth user org client aud s) !! i = Some r → connector user org client aud r = false.
Proof. simpl. by intros [_ ?]%map_lookup_filter_Some. Qed.

Lemma insert_row_ok row raw prefix s : inv s →
  insert_row row raw prefix s =
    (Ok {| CreatedToken.id := fresh (made s); CreatedToken.name := name row; CreatedToken.token := raw;
           CreatedToken.prefix := prefix; CreatedToken.created_at := created_at row |},
     {| rows := <[fresh (made s) := row]> (rows s); drawn := drawn s; made := S (made s) |}) ∧
  rows s !! fresh (made s) = None.
Proof.
  intros Hinv. assert (Hnone : rows s !! fresh (made s) = None).
  { destruct (rows s !! fresh (made s)) as [r|] eqn:Hr; [|done].
    destruct (inv_ids s Hinv _ _ Hr) as (k & ? & Hk). apply fresh_inj in Hk. lia. }
  unfold insert_row. simpl. by rewrite Hnone.
Qed.

Lemma inv_drawn s n : inv s → inv {| rows := rows s; drawn := n + drawn s; made := made s |}.
Proof. intros Hinv. apply (shrinks_inv s); [done|]. apply same_rows_shrinks; simpl; [done|lia..]. Qed.

Lemma grown s m row salt prefix nm cr :
  m !! fresh (made s) = None →
  hash_password salt (raw_token (drawn s)) = Some (token_hash row) →
  token_prefix row = slice_prefix (raw_token (drawn s)) prefix_visible_chars →
  grows {| rows := m; drawn := drawn s; made := made s |}
    {| CreatedToken.id := fresh (made s); CreatedToken.name := nm; CreatedToken.token := raw_token (drawn s);
       CreatedToken.prefix := prefix; CreatedToken.created_at := cr |} row
    {| rows := <[fresh (made s) := row]> m; drawn := S (S (drawn s)); made := S (made s) |}.
Proof.
  intros Hnone Hh Hp. split_and!; simpl; [done|done| |].
  - exists (made s). split; [lia|done].
  - exists (drawn s). split_and!; [lia..| |done]. split; [by exists salt|done].
Qed.

(** The row that the goal inserts is inserted into a store known to be well formed. *)
Ltac inserting s Hinv Hh :=
  match goal with |- context [insert_row ?row ?raw ?prefix ?st] =>
    destruct (insert_row_ok row raw prefix st Hinv) as [Hins Hnone]; rewrite Hins; clear Hins;
    try (split; [assumption|]); exists row;
    split; [refine (grown s _ row _ _ _ _ Hnone Hh _); reflexivity|by repeat split]
  end.

(** A creation that goes through adds exactly one row; one that does not adds none. *)
Lemma create_outcome now user nm sc org expires max_tokens s :
  inv s →
  match create now user nm sc org expires max_tokens s with
  | (Ok c, s') => live_count now user s + 1 ≤ max_tokens ∧
      ∃ row, grows s c row s' ∧ user_id row = user ∧ scopes row = to_strings sc ∧ org_id row = org ∧
        expires_at row = expires ∧ audience row = None ∧ oauth_client_id row = None
  | (Err _, s') => shrinks s s' ∧ rows s' = rows s
  end.
Proof.
  intros Hinv. unfold create, generate_raw, draw. cbn [rows drawn made].
  change (live_count now user _) with (live_count now user s).
  destruct (max_tokens <? live_count now user s + 1) eqn:Hcap.
  { split; [|done]. apply same_rows_shrinks; simpl; [done|lia..]. }
  apply Z.ltb_ge in Hcap. unfold hash, draw. cbn [rows drawn made]. destruct (hash_password _ _) as [h|] eqn:Hh.
  - inserting s (inv_drawn s 2 Hinv) Hh.
  - split; [|done]. apply same_rows_shrinks; simpl; [done|lia..].
Qed.

Lemma mint_outcome now user org nm sc expires aud client s :
  inv s →
  match mint_oauth now user org nm sc expires aud client s with
  | (Ok c, s') =>
      ∃ row, grows (revoke_oauth user org client aud s) c row s' ∧ user_id row = user ∧ scopes row = to_strings sc ∧
        org_id row = Some org ∧ expires_at row = Some expires ∧ audience row = Some aud ∧ oauth_client_id row = Some client
  | (Err _, s') => shrinks s s' ∧ rows s' = rows s
  end.
Proof.
  intros Hinv. unfold mint_oauth, generate_raw, hash, draw. cbn [rows drawn made].
  destruct (hash_password _ _) as [h|] eqn:Hh; [|split; [apply same_rows_shrinks; simpl; [done|lia..]|done]].
  inserting s (shrinks_inv _ _ (inv_drawn s 2 Hinv) (revoke_shrinks user org client aud _)) Hh.
Qed.

Lemma connector_none user org client aud r : oauth_client_id r = None → connector user org client aud r = false.
Proof. intros Hn. unfold connector. rewrite Hn, !andb_false_iff. left; right. by case_bool_decide. Qed.

Lemma connector_same user org client aud user' org' client' aud' r :
  connector user org client aud r = true → connector user' org' client' aud' r = true →
  user = user' ∧ org = org' ∧ client = client' ∧ aud = aud'.
Proof. unfold connector. intros. bool_cases. split_and!; congruence. Qed.

Lemma apply_inv now c s : inv s → inv (apply now c s).
Proof.
  intros Hinv. destruct c as [user nm sc org expires max_tokens|user org nm sc expires aud client| | | |]; simpl.
  - pose proof (create_outcome now user nm sc org expires max_tokens s Hinv) as Hout.
    destruct (create _ _ _ _ _ _ _ _) as [[c|e] s']; simpl.
    + destruct Hout as (_ & row & Hg & _ & _ & _ & _ & _ & Hclient). apply (grows_inv s c row); [done..|].
      intros. by apply connector_none.
    + exact (shrinks_inv s s' Hinv (proj1 Hout)).
  - pose proof (mint_outcome now user org nm sc expires aud client s Hinv) as Hout.
    destruct (mint_oauth _ _ _ _ _ _ _ _ _) as [[c|e] s']; simpl; [|exact (shrinks_inv s s' Hinv (proj1 Hout))].
    destruct Hout as (row & Hg & Hu & _ & Ho & _ & Ha & Hc).
    apply (grows_inv _ c row _ (shrinks_inv _ _ Hinv (revoke_shrinks user org client aud s)) Hg).
    intros i r user' org' client' aud' Hr%revoke_none Hconn. apply not_true_iff_false. intros Hrow.
    assert (Hrow' : connector user org client aud row = true).
    { unfold connector. rewrite Hu, Ho, Ha, Hc. by rewrite !bool_decide_eq_true_2. }
    destruct (connector_same _ _ _ _ _ _ _ _ _ Hrow Hrow') as (-> & -> & -> & ->). congruence.
  - apply (shrinks_inv s); [done|apply revoke_shrinks].
  - apply (shrinks_inv s); [done|apply rename_shrinks].
  - apply (shrinks_inv s); [done|apply delete_shrinks].
  - apply (shrinks_inv s); [done|apply touch_shrinks].
Qed.

Lemma empty_inv : inv empty_store.
Proof. by split; simpl; intros; rewrite lookup_empty in *. Qed.

Lemma reachable_inv cap now s : reachable cap now s → inv s.
Proof. induction 1; [apply empty_inv|by apply apply_inv]. Qed.

(** ** Looking a token up *)
Lemma first_verified_sound now raw l r :
  first_verified now raw l = Active r →
  ∃ id row, (id, row) ∈ l ∧ r = row_of id row ∧ live now row = true ∧ verify raw (token_hash row) = true.
Proof.
  induction l as [|[id row] l IH]; simpl; [done|]. intros Hl.
  destruct (is_some_and _ _) eqn:Hexp; [|destruct (verify _ _) eqn:Hv].
  - destruct (IH Hl) as (id' & row' & ? & ?). exists id', row'. by split; [right|].
  - injection Hl as <-. exists id, row. split_and!; [by left|done| |done]. unfold live.
    destruct (expires_at row); simpl in *; [|done]. bool_cases. by apply Z.ltb_lt.
  - destruct (IH Hl) as (id' & row' & ? & ?). exists id', row'. by split; [right|].
Qed.

Lemma first_verified_complete now raw l id row :
  (id, row) ∈ l → live now row = true → verify raw (token_hash row) = true →
  ∃ r, first_verified now raw l = Active r.
Proof.
  intros Hin Hlive Hv. induction l as [|[id' row'] l IH]; simpl; [by apply not_elem_of_nil in Hin|].
  apply elem_of_cons in Hin as [[= <- <-]|Hin]; [|repeat case_match; eauto].
  rewrite Hv. assert (is_some_and (λ e, e <=? now) (expires_at row) = false) as ->; [|eauto].
  unfold live in Hlive. destruct (expires_at row); simpl in *; [|done]. bool_cases. by apply Z.leb_gt.
Qed.

Lemma token_prefix_of n : String.prefix TOKEN_PREFIX (raw_token n) = true.
Proof. unfold raw_token, raw_of. by destruct (url_safe_no_pad_encode _). Qed.

Lemma lookup_sound `{Scheduling} now presented s r :
  inv s → lookup_by_raw now presented s = Active r →
  ∃ id row n, rows s !! id = Some row ∧ minted row n ∧ presented = raw_token n ∧ live now row = true ∧ r = row_of id row.
Proof.
  intros Hinv. unfold lookup_by_raw. case_match; [done|]. intros Hfirst.
  destruct (first_verified_sound _ _ _ _ Hfirst) as (id & row & Hin & -> & Hlive & Hv).
  rewrite interleave_perm, elem_of_map_to_list in Hin. apply map_lookup_filter_Some in Hin as [Hrow _].
  destruct (inv_minted s Hinv id row Hrow) as (n & _ & Hm).
  exists id, row, n. split_and!; [done..| |done|done]. by apply (minted_verifies row n).
Qed.

Lemma lookup_complete `{Scheduling} now s id row n :
  inv s → rows s !! id = Some row → minted row n → live now row = true →
  lookup_by_raw now (raw_token n) s = Active (row_of id row).
Proof.
  intros Hinv Hrow Hm Hlive.
  assert (Hsome : ∃ r, lookup_by_raw now (raw_token n) s = Active r).
  { unfold lookup_by_raw. rewrite token_prefix_of. simpl.
    apply (first_verified_complete _ _ _ id row); [|done|by apply (minted_verifies row n)].
    rewrite interleave_perm, elem_of_map_to_list. apply map_lookup_filter_Some. split; [done|]. apply Hm. }
  destruct Hsome as [r Hr]. destruct (lookup_sound now (raw_token n) s r Hinv Hr) as (id' & row' & m & Hrow' & Hm' & Heq & _ & ->).
  apply raw_token_inj in Heq as <-. assert (id' = id) as -> by by apply (inv_apart s Hinv id' id row' row n).
  by rewrite Hrow' in Hrow; simplify_eq.
Qed.

(** A token opens the row it was minted for, and nothing else opens one. In every
    reachable store and whatever the order in which the database returns the rows
    of a prefix: a presented string resolves to a row only when it is that row's
    own secret and the row has not expired, and every unexpired row is found by its
    secret. *)
Theorem lookup_is_exact `{Scheduling} cap now s :
  reachable cap now s →
  (∀ at_ presented r, lookup_by_raw at_ presented s = Active r →
     ∃ id row n, rows s !! id = Some row ∧ minted row n ∧ presented = raw_token n ∧
       is_none_or (λ e, at_ <? e) (expires_at row) = true ∧ r = row_of id row) ∧
  (∀ at_ id row, rows s !! id = Some row → is_none_or (λ e, at_ <? e) (expires_at row) = true →
     ∃ n, minted row n ∧ lookup_by_raw at_ (raw_token n) s = Active (row_of id row)).
Proof.
  intros Hinv%reachable_inv. split; [intros at_ presented r; by apply lookup_sound|].
  intros at_ id row Hrow Hlive. destruct (inv_minted s Hinv id row Hrow) as (n & _ & Hm).
  exists n. split; [done|]. by apply lookup_complete.
Qed.

(** The caller of a successful creation holds a token that resolves to exactly what
    was asked for. *)
Theorem created_token_resolves `{Scheduling} cap now user nm sc org expires max_tokens s c s' :
  reachable cap now s → create now user nm sc org expires max_tokens s = (Ok c, s') →
  is_none_or (λ e, now <? e) expires = true →
  ∃ r, lookup_by_raw now (CreatedToken.token c) s' = Active r ∧ ApiTokenRow.id r = CreatedToken.id c ∧
    ApiTokenRow.user_id r = user ∧ ApiTokenRow.scopes r = sc ∧ ApiTokenRow.org r = org ∧ ApiTokenRow.audience r = None.
Proof.
  intros Hinv%reachable_inv Hc Hlive.
  pose proof (create_outcome now user nm sc org expires max_tokens s Hinv) as Hout.
  pose proof (apply_inv now (Create user nm sc org expires max_tokens) s Hinv) as Hinv'.
  simpl in Hinv'. rewrite Hc in Hout, Hinv'. simpl in Hinv'.
  destruct Hout as (_ & row & (Hrows & _ & _ & n & _ & Hm & ->) & <- & Hsc & <- & <- & Ha & _).
  assert (rows s' !! CreatedToken.id c = Some row) as Hrow by (rewrite Hrows; apply lookup_insert_eq).
  exists (row_of (CreatedToken.id c) row). rewrite (lookup_complete now s' (CreatedToken.id c) row n) by done.
  split_and!; simpl; [done..| |done|done]. by rewrite Hsc, from_to_strings.
Qed.

(** ** The cap *)
Definition counted (now : DateTime) (user : UserId) (s : Store) : gmap Uuid TokenRow :=
  filter (λ kv, counts_for now user kv.2 = true) (rows s).

Lemma live_later now now' r : now ≤ now' → live now' r = true → live now r = true.
Proof. unfold live. destruct (expires_at r); simpl; [|done]. intros ??. bool_cases. apply Z.ltb_lt. lia. Qed.

Lemma live_count_le now now' user s s' :
  now ≤ now' → shrinks s s' → live_count now' user s' ≤ live_count now user s.
Proof.
  intros Hle (_ & _ & Hrows). unfold live_count.
  change (Z.of_nat (size (counted now' user s')) ≤ Z.of_nat (size (counted now user s))).
  rewrite <-!(size_dom (D := gset Uuid)). apply inj_le, subseteq_size.
  intros id. rewrite !elem_of_dom. intros [r' [(r & Hr & Hk)%Hrows Hc]%map_lookup_filter_Some].
  exists r. apply map_lookup_filter_Some. split; [done|]. simpl in *.
  rewrite (kept_counts now' user r' r Hk) in Hc. unfold counts_for in *. bool_cases.
  rewrite bool_decide_eq_true_2 by done. simpl. apply andb_true_intro. split; [done|].
  by apply (live_later now now').
Qed.

Lemma live_count_grows now user s c row s' :
  grows s c row s' → live_count now user s' ≤ live_count now user s + (if counts_for now user row then 1 else 0).
Proof.
  intros (Hrows & Hnone & _). unfold live_count. rewrite Hrows, map_filter_insert. simpl.
  destruct (decide (counts_for now user row = true)) as [->|Hn].
  - rewrite map_size_insert_None; [lia|]. apply map_lookup_filter_None. by left.
  - apply not_true_iff_false in Hn as ->. rewrite map_filter_delete, Z.add_0_r. apply inj_le.
    rewrite map_size_delete. case_match; unfold id; lia.
Qed.

Lemma apply_cap cap now c s user :
  0 ≤ cap → inv s → cap_within cap c = true → live_count now user s ≤ cap → live_count now user (apply now c s) ≤ cap.
Proof.
  intros H0cap Hinv Hcap Hs.
  assert (Hshrink : ∀ s', shrinks s s' → live_count now user s' ≤ cap).
  { intros s' Hsh. pose proof (live_count_le now now user s s' (Z.le_refl _) Hsh). lia. }
  destruct c as [user' nm sc org expires max_tokens|user' org nm sc expires aud client| | | |]; simpl in *.
  - pose proof (create_outcome now user' nm sc org expires max_tokens s Hinv) as Hout.
    destruct (create _ _ _ _ _ _ _ _) as [[c|e] s']; simpl; [|apply Hshrink, Hout].
    destruct Hout as (Hcount & row & Hg & Hu & _). apply (live_count_grows now user) in Hg. bool_cases.
    unfold counts_for in Hg. destruct (decide (user' = user)) as [->|Hne]; [case_match; lia|].
    rewrite Hu, bool_decide_eq_false_2 in Hg by done. simpl in Hg. lia.
  - pose proof (mint_outcome now user' org nm sc expires aud client s Hinv) as Hout.
    destruct (mint_oauth _ _ _ _ _ _ _ _ _) as [[c|e] s']; simpl; [|apply Hshrink, Hout].
    destruct Hout as (row & Hg & _ & _ & _ & _ & _ & Hclient). apply (live_count_grows now user) in Hg.
    unfold counts_for in Hg. rewrite Hclient, andb_false_r in Hg. simpl in Hg.
    pose proof (Hshrink _ (revoke_shrinks user' org client aud s)). lia.
  - apply Hshrink, revoke_shrinks.
  - apply Hshrink, rename_shrinks.
  - apply Hshrink, delete_shrinks.
  - apply Hshrink, touch_shrinks.
Qed.

(** No one holds more live tokens than their cap, whatever the calls. When every
    creation ran under a cap of at most [cap], then from the last call on a user's
    unexpired tokens that are not a connector's number at most [cap]; connector
    tokens, renames, uses and revocations never use the cap up, and a creation is
    refused exactly when one more would exceed it. *)
Theorem token_cap_holds cap now s :
  0 ≤ cap → reachable cap now s →
  (∀ at_ user, now ≤ at_ → live_count at_ user s ≤ cap) ∧
  (∀ at_ user nm sc org expires max_tokens,
     (create at_ user nm sc org expires max_tokens s).1
       = Err (quota_exceeded "max_api_tokens_per_user" (live_count at_ user s) max_tokens "free") ↔
     max_tokens < live_count at_ user s + 1).
Proof.
  intros H0cap Hreach. split.
  - intros at_ user Hle. transitivity (live_count now user s).
    + by apply live_count_le, shrinks_refl.
    + revert user. clear at_ Hle. induction Hreach as [|now now' c s Hreach IH Hle Hcap]; intros user; [done|].
      apply apply_cap; [done|exact (reachable_inv _ _ _ Hreach)|done|]. transitivity (live_count now user s); [|apply IH].
      by apply live_count_le, shrinks_refl.
  - intros at_ user nm sc org expires max_tokens. unfold create, generate_raw, draw. cbn [rows drawn made].
    change (live_count at_ user _) with (live_count at_ user s) at 1 2.
    destruct (max_tokens <? live_count at_ user s + 1) eqn:Hlt; bool_cases; [done|].
    split; [|lia]. unfold hash, insert_row. simpl. repeat case_match; simplify_eq/=; by intros.
Qed.

(** A connector holds one token at a time. In every reachable store no two rows
    share a user, an organization, a client and an audience; minting for such a
    connector, when it goes through, leaves the new token as its only row, keeps
    every other row, and the raw secret returned resolves to it. *)
Theorem connector_holds_one_token `{Scheduling} cap now s :
  reachable cap now s →
  (∀ i j r r' user org client aud, rows s !! i = Some r → rows s !! j = Some r' →
     connector user org client aud r = true → connector user org client aud r' = true → i = j) ∧
  (∀ at_ user org nm sc expires aud client c s', at_ < expires →
     mint_oauth at_ user org nm sc expires aud client s = (Ok c, s') →
     (∀ i r, rows s' !! i = Some r →
        i = CreatedToken.id c ∨ rows s !! i = Some r ∧ connector user org client aud r = false) ∧
     (∀ i r, rows s !! i = Some r → connector user org client aud r = false → rows s' !! i = Some r) ∧
     ∃ r, lookup_by_raw at_ (CreatedToken.token c) s' = Active r ∧ ApiTokenRow.id r = CreatedToken.id c ∧
       ApiTokenRow.user_id r = user ∧ ApiTokenRow.scopes r = sc ∧ ApiTokenRow.org r = Some org ∧
       ApiTokenRow.audience r = Some aud).
Proof.
  intros Hinv%reachable_inv. split; [apply (inv_connector s Hinv)|].
  intros at_ user org nm sc expires aud client c s' Hexp Hm.
  pose proof (mint_outcome at_ user org nm sc expires aud client s Hinv) as Hout.
  pose proof (apply_inv at_ (Mint user org nm sc expires aud client) s Hinv) as Hinv'.
  simpl in Hinv'. rewrite Hm in Hout, Hinv'. simpl in Hinv'.
  destruct Hout as (row & (Hrows & Hnone & _ & n & _ & Hmint & ->) & <- & Hsc & Ho & He & Ha & Hc).
  split_and!.
  - intros i r. rewrite Hrows. intros [[<- _]|[_ Hr]]%lookup_insert_Some; [by left|right].
    simpl in Hr. by apply map_lookup_filter_Some in Hr.
  - intros i r Hr Hconn. rewrite Hrows, lookup_insert_ne.
    + simpl. by apply map_lookup_filter_Some.
    + intros Heq. revert Hnone. rewrite Heq. simpl. rewrite map_lookup_filter_None. intros [?|Hf]; [congruence|].
      by apply (Hf r).
  - assert (rows s' !! CreatedToken.id c = Some row) as Hrow by (rewrite Hrows; apply lookup_insert_eq).
    exists (row_of (CreatedToken.id c) row). rewrite (lookup_complete at_ s' (CreatedToken.id c) row n); [|done..|].
    + split_and!; simpl; [done..| |done|done]. by rewrite Hsc, from_to_strings.
    + unfold live. rewrite He. simpl. by apply Z.ltb_lt.
Qed.
End Laws.

(** Renaming and revoking reach the caller's own tokens and no others. Either call
    reports whether the identifier is a token of the caller; when it is not, nothing
    changes, and in no case does another user's row, or another row of the same
    user. *)
Theorem token_calls_are_scoped user id nm s :
  ((rename_for_user user id nm s).1 = true ↔ ∃ r, rows s !! id = Some r ∧ user_id r = user) ∧
  (delete_for_user user id s).1 = (rename_for_user user id nm s).1 ∧
  (∀ i r, (i ≠ id ∨ user_id r ≠ user) → rows s !! i = Some r →
    rows (rename_for_user user id nm s).2 !! i = Some r ∧ rows (delete_for_user user id s).2 !! i = Some r) ∧
  ((delete_for_user user id s).1 = true → rows (delete_for_user user id s).2 !! id = None).
Proof.
  assert (Howned : owned user id s = true ↔ ∃ r, rows s !! id = Some r ∧ user_id r = user).
  { unfold owned. destruct (rows s !! id) as [r|]; simpl; [rewrite bool_decide_eq_true|]; naive_solver. }
  unfold rename_for_user, delete_for_user. destruct (owned user id s) eqn:Ho; simpl.
  - split_and!; [by rewrite <-Howned|done| |by rewrite lookup_delete_eq].
    intros i r Hne Hr. destruct (decide (i = id)) as [->|Hi].
    + destruct Hne as [?|Hu]; [done|]. destruct (proj1 Howned eq_refl) as (r' & Hr' & ?). congruence.
    + rewrite lookup_alter_ne, lookup_delete_ne by done. done.
  - split_and!; [by rewrite <-Howned|done|by intros|done].
Qed.
End Tokens.

Module TokensSample.
#[global] Instance random : Random := {| fill_bytes n := pretty n |}.
#[global] Instance random_laws : RandomLaws.
Proof. split. simpl. intros n m. apply (inj pretty). Qed.
#[global] Instance argon2 : Argon2 := {|
  hash_password _ raw := Some ("a" +:+ raw); verify_password p h := String.eqb ("a" +:+ p) h |}.
#[global] Instance argon2_laws : Argon2Laws.
Proof.
  split. intros _ raw h presented [= <-]. unfold verify_password, argon2. rewrite String.eqb_eq.
  split; [|by intros ->]. by intros [= ?].
Qed.
#[global] Instance toy : Primitives := CryptoSample.toy.
#[global] Instance toy_laws : PrimitivesLaws := CryptoSample.toy_laws.
#[global] Instance env : Environment := Concrete.env.
#[global] Instance env_laws : EnvironmentLaws := Concrete.env_laws.
#[global] Instance in_order : Scheduling := Concrete.in_order.

(** A user with a cap of one creates a token and connects a client twice. *)
Definition create_call : call := Create 7%N "ci" {[ TargetsRead ]} None None 1.
Definition mint_call : call := Mint 7%N 3%N "MCP connector" {[ TargetsRead ]} 500 "https://m/mcp" "ump_1".
Definition store1 : Store := apply 16 1 create_call empty_store.
Definition store2 : Store := apply 16 2 mint_call store1.
Definition store3 : Store := apply 16 3 mint_call store2.

Lemma store3_reachable : reachable 16 1 3 store3.
Proof.
  unfold store3, store2, store1.
  apply (reach_call 16 1 2 3); [|lia|reflexivity]. apply (reach_call 16 1 1 2); [|lia|reflexivity].
  apply (reach_call 16 1 0 1); [|lia|reflexivity]. apply reach_empty.
Qed.

Example two_rows : size (rows store3) = 2%nat.
Proof. vm_compute. reflexivity. Qed.
Example third_creation_is_refused : is_some (ok (create 16 4 7%N "x" ∅ None None 1 store3).1) = false.
Proof. vm_compute. reflexivity. Qed.

Lemma lookup_is_exact_witness : ∃ n, lookup_by_raw 16 9 (raw_token n) store3 ≠ Invalid.
Proof.
  destruct (lookup_is_exact 16 1 3 store3 store3_reachable) as [_ Hfound].
  destruct (rows store3 !! 1%N) as [row|] eqn:Hrow; [|vm_compute in Hrow; discriminate].
  destruct (Hfound 9 1%N row Hrow) as (n & _ & Hl).
  - vm_compute in Hrow. injection Hrow as <-. reflexivity.
  - exists n. rewrite Hl. discriminate.
Defined.

Lemma token_cap_holds_witness : live_count 9 7%N store3 ≤ 1.
Proof. apply (proj1 (token_cap_holds 16 1 3 store3 ltac:(lia) store3_reachable)). lia. Defined.

Lemma connector_holds_one_token_witness :
  ∀ i j r r', rows store3 !! i = Some r → rows store3 !! j = Some r' →
    connector 7%N 3%N "ump_1" "https://m/mcp" r = true → connector 7%N 3%N "ump_1" "https://m/mcp" r' = true → i = j.
Proof.
  intros i j r r' Hi Hj Hr Hr'.
  exact (proj1 (connector_holds_one_token 16 1 3 store3 store3_reachable) i j r r' _ _ _ _ Hi Hj Hr Hr').
Defined.

Lemma token_calls_are_scoped_witness : (delete_for_user 8%N 1%N store3).1 = false.
Proof.
  destruct (token_calls_are_scoped 8%N 1%N "x" store3) as (_ & Heq & _). rewrite Heq.
  vm_compute. reflexivity.
Defined.
End TokensSample.
