(* ===== verification/Handlers.v ===== *)
(** * Concurrent request handlers

    An [async] handler is a tree of the calls it awaits: between two calls any
    other handler may run, and a handler whose client hangs up is dropped at the
    call it waits for. A pool of handlers runs over one shared state, one call at a
    time. The rule that carries an invariant through every interleaving gives each
    handler a protocol state: [obeys] checks a handler against the protocol once,
    call by call, and never looks at the others. *)

From S2P Require Import Prelude.

Inductive prog (op : Type → Type) (A : Type) : Type :=
| Ret (a : A)
| Do {T : Type} (o : op T) (k : T → prog op A).
Arguments Ret {op A} a.
Arguments Do {op A T} o k.

#[global] Instance prog_ret op : MRet (prog op) := λ A, Ret.
#[global] Instance prog_bind op : MBind (prog op) := λ A B f,
  fix go (p : prog op A) : prog op B :=
    match p with
    | Ret a => f a
    | Do o k => Do o (λ r, go (k r))
    end.
Definition call {op : Type → Type} {T : Type} (o : op T) : prog op T := Do o Ret.

(** A call that reaches the database may work, fail, or be applied and reported as
    failed; the clock and the generators do not fail. *)
Inductive outcome := Works | Fails | Unacknowledged.

Definition database {S A} (out : outcome) (m : S → result A * S) (s : S) : result A * S :=
  match out with
  | Works => m s
  | Fails => (Err (Other "database"), s)
  | Unacknowledged => (Err (Other "database"), (m s).2)
  end.
Definition query {S A} (f : S → A) (s : S) : result A * S := (Ok (f s), s).
Definition update {S A} (f : S → A * S) (s : S) : result A * S := let '(a, s) := f s in (Ok a, s).

(** [m?] followed by the rest of the function. *)
Definition and_then {op : Type → Type} {A B} (m : prog op (result A)) (k : A → prog op (result B)) : prog op (result B) :=
  r ← m; match r with Ok a => k a | Err e => Ret (Err e) end.
Notation "x ←? m ; k" := (and_then m (λ x, k)) (at level 20, m at level 100, k at level 200, right associativity) : up_scope.

(** ** The protocol of a handler *)
Section Protocol.
Context {op : Type → Type} {A G : Type}.
Context (allowed : G → ∀ T, op T → Prop) (after : G → ∀ T, op T → T → G).

Fixpoint obeys (good : G → A → Prop) (g : G) (p : prog op A) : Prop :=
  match p with
  | Ret a => good g a
  | @Do _ _ T o k => allowed g T o ∧ ∀ r : T, obeys good (after g T o r) (k r)
  end.
End Protocol.

(** ** The pool *)
Section Pool.
Context {op : Type → Type} {Req A S Out Env : Type}.
Context (exec : Out → ∀ T, op T → S → T * S) (outside : Env → S → S).
Context (handler : Req → prog op A).

Record pool := {
  shared : S;
  running : gmap nat (Req * prog op A);
  requests : gmap nat Req;           (* every request that arrived, by number *)
  arrived : nat;
  answered : list (nat * Req * A);
}.

Inductive action :=
| Arrive (req : Req)
| Advance (i : nat) (out : Out)    (* one call of a handler, or its answer *)
| Cancel (i : nat)
| Outside (e : Env).

Definition initial (s : S) : pool := {| shared := s; running := ∅; requests := ∅; arrived := 0; answered := [] |}.

Definition act (a : action) (w : pool) : pool :=
  match a with
  | Arrive req =>
      {| shared := shared w; running := <[arrived w := (req, handler req)]> (running w);
         requests := <[arrived w := req]> (requests w); arrived := Datatypes.S (arrived w); answered := answered w |}
  | Advance i out =>
      match running w !! i with
      | None => w
      | Some (req, Ret a) =>
          {| shared := shared w; running := delete i (running w); requests := requests w; arrived := arrived w;
             answered := answered w ++ [(i, req, a)] |}
      | Some (req, @Do _ _ T o k) =>
          let '(r, s) := exec out T o (shared w) in
          {| shared := s; running := <[i := (req, k r)]> (running w); requests := requests w; arrived := arrived w;
             answered := answered w |}
      end
  | Cancel i =>
      {| shared := shared w; running := delete i (running w); requests := requests w; arrived := arrived w;
         answered := answered w |}
  | Outside e =>
      {| shared := outside e (shared w); running := running w; requests := requests w; arrived := arrived w;
         answered := answered w |}
  end.

Inductive reachable (w0 : pool) : pool → Prop :=
| reach_start : reachable w0 w0
| reach_act w a : reachable w0 w → reachable w0 (act a w).

Definition run (l : list action) (w : pool) : pool := fold_left (λ w a, act a w) l w.

Lemma run_reachable l w0 w : reachable w0 w → reachable w0 (run l w).
Proof. revert w. induction l as [|a l IH]; intros w Hw; [done|]. apply IH. by constructor. Qed.

Lemma reachable_trans w0 w1 w2 : reachable w0 w1 → reachable w1 w2 → reachable w0 w2.
Proof. intros H1. induction 1; [done|by constructor]. Qed.

(** ** A handler left alone

    Run to its end with the calls it makes, in order and with the same outcome. *)
Fixpoint alone (out : Out) (p : prog op A) (s : S) : A * S :=
  match p with
  | Ret a => (a, s)
  | @Do _ _ T o k => let '(r, s) := exec out T o s in alone out (k r) s
  end.

Lemma alone_advances out i req p w :
  running w !! i = Some (req, p) →
  ∃ n, let w' := run (repeat (Advance i out) n) w in
    shared w' = (alone out p (shared w)).2 ∧
    answered w' = answered w ++ [(i, req, (alone out p (shared w)).1)] ∧ running w' = delete i (running w).
Proof.
  revert w. induction p as [a|T o k IH]; intros w Hi.
  - exists 1%nat. simpl. by rewrite Hi.
  - destruct (exec out T o (shared w)) as [r s] eqn:He.
    set (w1 := {| shared := s; running := <[i := (req, k r)]> (running w); requests := requests w;
                  arrived := arrived w; answered := answered w |}).
    assert (Hact : act (Advance i out) w = w1) by (simpl; by rewrite Hi, He).
    destruct (IH r w1 (lookup_insert_eq _ _ _)) as (n & Hs & Ha & Hr). exists (Datatypes.S n). cbv zeta.
    change (run (repeat (Advance i out) (Datatypes.S n)) w) with (run (repeat (Advance i out) n) (act (Advance i out) w)).
    rewrite Hact, Hs, Ha, Hr. simpl. rewrite He. split_and!; [done..|]. apply delete_insert_eq.
Qed.

(** A request left alone is answered, with the answer and the state of [alone]. *)
Lemma alone_is_answered out req w :
  ∃ l, let w' := run l w in
    shared w' = (alone out (handler req) (shared w)).2 ∧
    answered w' = answered w ++ [(arrived w, req, (alone out (handler req) (shared w)).1)].
Proof.
  destruct (alone_advances out (arrived w) req (handler req) (act (Arrive req) w) (lookup_insert_eq _ _ _))
    as (n & Hs & Ha & _). by exists (Arrive req :: repeat (Advance (arrived w) out) n).
Qed.

(** ** The rule

    Every handler that has arrived keeps its protocol state, also after its answer
    or its end. [SI] relates the shared state to all of them. *)
Section Rule.
Context {G : Type} (allowed : Req → G → ∀ T, op T → Prop) (after : G → ∀ T, op T → T → G).
Context (start : G) (good : Req → G → A → Prop) (SI : S → gmap nat (Req * G) → Prop).

Record sound : Prop := {
  start_obeys : ∀ req, obeys (allowed req) after (good req) start (handler req);
  start_keeps : ∀ s gs i req, SI s gs → gs !! i = None → SI s (<[i := (req, start)]> gs);
  call_keeps : ∀ s gs i req g out T (o : op T), SI s gs → gs !! i = Some (req, g) → allowed req g T o →
    SI (exec out T o s).2 (<[i := (req, after g T o (exec out T o s).1)]> gs);
  outside_keeps : ∀ s gs e, SI s gs → SI (outside e s) gs;
}.

Record pool_inv (w : pool) (gs : gmap nat (Req * G)) : Prop := {
  pi_shared : SI (shared w) gs;
  pi_fresh : ∀ i, (arrived w ≤ i)%nat → gs !! i = None;
  pi_running : ∀ i req p, running w !! i = Some (req, p) →
    ∃ g, gs !! i = Some (req, g) ∧ obeys (allowed req) after (good req) g p;
  pi_answered : ∀ i req a, (i, req, a) ∈ answered w →
    running w !! i = None ∧ ∃ g, gs !! i = Some (req, g) ∧ good req g a;
  pi_requests : requests w = fst <$> gs;
  pi_once : NoDup (answered w).*1.*1;
}.

Lemma initial_inv s : SI s ∅ → pool_inv (initial s) ∅.
Proof.
  intros Hs. split; simpl; [done|done|..].
  - intros i req p Hp. by rewrite lookup_empty in Hp.
  - intros i req a Hin. by apply not_elem_of_nil in Hin.
  - by rewrite fmap_empty.
  - constructor.
Qed.

Lemma act_inv a w gs : sound → pool_inv w gs → ∃ gs', pool_inv (act a w) gs'.
Proof.
  intros Hsound [Hs Hf Hr Ha Hq Hn]. destruct a as [req|i out|i|e]; simpl.
  - exists (<[arrived w := (req, start)]> gs). split; simpl.
    + apply (start_keeps Hsound); [done|by apply Hf].
    + intros i Hi. rewrite lookup_insert_ne by lia. apply Hf. lia.
    + intros i req' p [[<- [= <- <-]]|[Hne Hp]]%lookup_insert_Some.
      * exists start. rewrite lookup_insert_eq. split; [done|apply (start_obeys Hsound)].
      * rewrite lookup_insert_ne by done. by apply Hr.
    + intros i req' a (Hnone & g & Hg & ?)%Ha. assert (i ≠ arrived w) as Hne.
      { intros ->. rewrite Hf in Hg by lia. done. }
      rewrite !lookup_insert_ne by done. eauto.
    + by rewrite fmap_insert, Hq.
    + done.
  - destruct (running w !! i) as [[req [a|T o k]]|] eqn:Hi; [..|exists gs; by split].
    + destruct (Hr i req _ Hi) as (g & Hg & Hgood). simpl in Hgood. exists gs. split; simpl; [done|done|..].
      * intros j req' p [_ Hp]%lookup_delete_Some. by apply Hr.
      * intros j req' a' [Hin|Hin%list_elem_of_singleton]%elem_of_app.
        -- destruct (Ha _ _ _ Hin) as [Hnone ?]. split; [|done]. apply lookup_delete_None. by right.
        -- injection Hin as -> -> ->. rewrite lookup_delete_eq. eauto.
      * done.
      * rewrite !fmap_app, NoDup_app. split_and!; [done| |apply NoDup_singleton].
        simpl. intros j Hj ->%list_elem_of_singleton.
        apply list_elem_of_fmap in Hj as ([j' req'] & Hji & Hj). simpl in Hji. subst j'.
        apply list_elem_of_fmap in Hj as ([[j' req''] a'] & Heq & Hin). simpl in Heq. injection Heq as <- <-.
        apply Ha in Hin as [Hnone _]. by rewrite Hi in Hnone.
    + destruct (Hr i req _ Hi) as (g & Hg & Hall & Hk).
      pose proof (call_keeps Hsound (shared w) gs i req g out T o Hs Hg Hall) as Hs'.
      destruct (exec out T o (shared w)) as [r s']. simpl in Hs'.
      exists (<[i := (req, after g T o r)]> gs). split; simpl; [done|..].
      * intros j Hj. rewrite lookup_insert_ne; [by apply Hf|]. intros ->. rewrite Hf in Hg by done. done.
      * intros j req' p [[<- [= <- <-]]|[Hne Hp]]%lookup_insert_Some.
        -- rewrite lookup_insert_eq. eauto.
        -- rewrite lookup_insert_ne by done. by apply Hr.
      * intros j req' a (Hnone & g' & Hg' & ?)%Ha. assert (i ≠ j) as Hne by congruence.
        rewrite !lookup_insert_ne by done. eauto.
      * rewrite fmap_insert, <-Hq. simpl. symmetry. apply insert_id. by rewrite Hq, lookup_fmap, Hg.
      * done.
  - exists gs. split; simpl; [done|done|..].
    + intros j req' p [_ Hp]%lookup_delete_Some. by apply Hr.
    + intros j req' a Hin. destruct (Ha _ _ _ Hin) as [Hnone ?]. split; [|done]. apply lookup_delete_None. by right.
    + done.
    + done.
  - exists gs. split; simpl; [by apply (outside_keeps Hsound)|done..].
Qed.

Lemma reachable_pool_inv w0 w gs0 : sound → pool_inv w0 gs0 → reachable w0 w → ∃ gs, pool_inv w gs.
Proof.
  intros Hsound H0. induction 1 as [|w a _ [gs Hw]]; [by exists gs0|]. by apply (act_inv a w gs).
Qed.
End Rule.
End Pool.

(** ** A handler among others

    [ran p seen a]: [p] answers [a], and [seen] are the states its calls were executed
    in, first one first. Between two calls the others may do anything, so nothing
    relates one state to the next. *)
Section Trace.
Context {op : Type → Type} {S Out : Type} (exec : Out → ∀ T, op T → S → T * S).

Fixpoint ran {A} (p : prog op A) (seen : list S) (a : A) : Prop :=
  match p with
  | Ret b => seen = [] ∧ a = b
  | @Do _ _ T o k =>
      match seen with
      | [] => False
      | s :: seen => ∃ out, ran (k (exec out T o s).1) seen a
      end
  end.

Lemma ran_call {A T} (o : op T) (f : T → prog op A) seen a : ran (r ← call o; f r) seen a →
  ∃ s rest out, seen = s :: rest ∧ ran (f (exec out T o s).1) rest a.
Proof. destruct seen as [|s rest]; [done|]. intros [out Hr]. by exists s, rest, out. Qed.

Lemma ran_bind {A B} (p : prog op A) (f : A → prog op B) seen b : ran (p ≫= f) seen b →
  ∃ l1 l2 a, seen = l1 ++ l2 ∧ ran p l1 a ∧ ran (f a) l2 b.
Proof.
  revert seen. induction p as [a|T o k IH]; intros seen Hr; [by exists [], seen, a|].
  destruct seen as [|s seen]; [done|]. destruct Hr as [out Hr].
  destruct (IH _ _ Hr) as (l1 & l2 & a & -> & H1 & H2). exists (s :: l1), l2, a. split_and!; [done| |done].
  by exists out.
Qed.

Lemma ran_and_then {A B} (m : prog op (result A)) (k : A → prog op (result B)) seen r : ran (x ←? m; k x) seen r →
  (∃ l1 l2 a, seen = l1 ++ l2 ∧ ran m l1 (Ok a) ∧ ran (k a) l2 r) ∨ (∃ e, r = Err e ∧ ran m seen (Err e)).
Proof.
  intros (l1 & l2 & [a|e] & -> & H1 & H2)%ran_bind; [left; by exists l1, l2, a|right].
  destruct H2 as [-> ->]. exists e. by rewrite app_nil_r.
Qed.

(** What a handler answers alone, it answers. *)
Lemma alone_ran {A} out (p : prog op A) s : ∃ seen, ran p seen (alone exec out p s).1.
Proof.
  revert s. induction p as [a|T o k IH]; intros s; [by exists []|]. simpl.
  destruct (exec out T o s) as [r s'] eqn:He. destruct (IH r s') as [seen Hs]. exists (s :: seen), out. by rewrite He.
Qed.

Lemma alone_bind {A B} out (p : prog op A) (f : A → prog op B) s :
  alone exec out (p ≫= f) s = alone exec out (f (alone exec out p s).1) (alone exec out p s).2.
Proof.
  revert s. induction p as [a|T o k IH]; intros s; [done|]. simpl. destruct (exec out T o s). apply IH.
Qed.
End Trace.

(** ** A dialogue

    What a tree asked and was answered, as one list of events, when nothing but the
    answers matters: [says p l a] when [p] may ask and be told [l] and answer [a]. *)
Section Dialogue.
Context {op : Type → Type} {Event : Type} (record : ∀ T, op T → T → Event).

Fixpoint says {A} (p : prog op A) (l : list Event) (a : A) : Prop :=
  match p with
  | Ret b => l = [] ∧ a = b
  | @Do _ _ T o k => ∃ r rest, l = record T o r :: rest ∧ says (k r) rest a
  end.

Lemma says_bind {A B} (p : prog op A) (f : A → prog op B) l b : says (p ≫= f) l b →
  ∃ l1 l2 a, l = l1 ++ l2 ∧ says p l1 a ∧ says (f a) l2 b.
Proof.
  revert l. induction p as [a|T o k IH]; intros l Hs; [by exists [], l, a|].
  destruct Hs as (r & rest & -> & Hs). destruct (IH _ _ Hs) as (l1 & l2 & a & -> & H1 & H2).
  exists (record T o r :: l1), l2, a. split_and!; [done| |done]. by exists r, l1.
Qed.
Lemma says_call {A T} (o : op T) (f : T → prog op A) l a : says (r ← call o; f r) l a →
  ∃ r rest, l = record T o r :: rest ∧ says (f r) rest a.
Proof. done. Qed.

(** The dialogue with an interlocutor who knows how many questions were asked. *)
Fixpoint dialogue {A} (reply : nat → ∀ T, op T → T) (n : nat) (p : prog op A) : list Event * A :=
  match p with
  | Ret a => ([], a)
  | @Do _ _ T o k => let r := reply n T o in let '(l, a) := dialogue reply (S n) (k r) in (record T o r :: l, a)
  end.
Lemma dialogue_says {A} reply n (p : prog op A) : says p (dialogue reply n p).1 (dialogue reply n p).2.
Proof.
  revert n. induction p as [a|T o k IH]; intros n; [done|]. simpl. specialize (IH (reply n T o) (S n)).
  destruct (dialogue reply (S n) (k (reply n T o))) as [l a]. by exists (reply n T o), l.
Qed.

(** [post p Q]: however the dialogue of [p] goes, [Q] holds of it and of its end. *)
Definition post {A} (p : prog op A) (Q : list Event → A → Prop) : Prop := ∀ l a, says p l a → Q l a.

Lemma post_ret {A} (a : A) (Q : list Event → A → Prop) : Q [] a → post (Ret a) Q.
Proof. by intros HQ l b [-> ->]. Qed.
Lemma post_do {A T} (o : op T) (k : T → prog op A) (Q : list Event → A → Prop) :
  (∀ r, post (k r) (λ l, Q (record T o r :: l))) → post (Do o k) Q.
Proof. intros Hk l a (r & rest & -> & Hs). by apply (Hk r). Qed.
Lemma post_bind {A B} (p : prog op A) (f : A → prog op B) (Q : list Event → B → Prop) :
  post p (λ l a, post (f a) (λ l', Q (l ++ l'))) → post (p ≫= f) Q.
Proof. intros Hp l b (l1 & l2 & a & -> & H1 & H2)%says_bind. by apply (Hp l1 a). Qed.
Lemma post_weaken {A} (p : prog op A) (P Q : list Event → A → Prop) :
  post p P → (∀ l a, P l a → Q l a) → post p Q.
Proof. intros Hp Hpq l a Hs. by apply Hpq, Hp. Qed.
Lemma post_both {A} (p : prog op A) (P Q : list Event → A → Prop) :
  post p P → post p Q → post p (λ l a, P l a ∧ Q l a).
Proof. intros HP HQ l a Hs. split; [by apply HP|by apply HQ]. Qed.
End Dialogue.
