(* ===== verification/OAuth.v ===== *)
(** * The authorization server

    src/oauth: dynamic registration, the consent page and its decision, the code and
    refresh grants, the sweeper and the discovery URLs. A handler is a tree of the
    store calls it awaits (Handlers.v), with the branches and early returns of the
    source; a store call either works, fails, or is applied and reported as failed.
    The store keeps, for the theorems, the list of the writes it has made. *)

From Stdlib Require Import Ascii.
From S2P Require Import Prelude Text Crypto Scopes ApiTokens Handlers.

(** ** The url crate *)
Class WebUrls := {
  Url : Type;
  parse : string → option Url;
  scheme : Url → string;
  host_str : Url → option string;
  port : Url → option Z;
  fragment : Url → option string;
  username : Url → string;
  password : Url → option string;
  append_pairs : list (string * string) → Url → Url;   (* [query_pairs_mut] *)
  as_string : Url → string;
  url_encode : string → string;                         (* src/auth/url.rs *)
}.
(** [Sha256::digest] as bytes, and how an identifier is shown. *)
Class Digests := { sha256 : string → string; show_uuid : Uuid → string }.

(** [auth.public_base_url], the [mcp] block, and whether a database is configured. *)
Record Config := {
  has_db : bool;
  public_base_url : string;
  resource_uri : string;
  mcp_enabled : bool;
  oauth_enabled : bool;
  access_token_ttl_secs : Z;
  prefix_visible_chars : nat;
}.

Definition CODE_TTL_SECS : Z := 60.
Definition DEFAULT_TOKEN_TTL_DAYS : Z := 90.
Definition MAX_TOKEN_TTL_DAYS : Z := 365.
Definition MAX_STATE_LEN : nat := 1024.
Definition MAX_REDIRECT_URIS : nat := 10.
Definition MAX_URI_LEN : nat := 2048.
Definition MAX_CLIENT_NAME_LEN : nat := 200.

(** ** store.rs *)
Record OAuthClient := { client_name : option string; redirect_uris : list string }.

Module AuthCode.
Record t := {
  client_id : string; redirect_uri : string; code_challenge : string; scope : string;
  resource : string; user_id : UserId; org_id : OrgId; expires_at : DateTime;
  refresh_expires_at : DateTime;
}.
End AuthCode.

Module RefreshToken.
Record t := {
  family_id : Uuid; client_id : string; scope : string; resource : string;
  user_id : UserId; org_id : OrgId; used_at : option DateTime; expires_at : DateTime;
}.
Definition mark_used (at_ : DateTime) (rt : t) : t := {|
  family_id := family_id rt; client_id := client_id rt; scope := scope rt; resource := resource rt;
  user_id := user_id rt; org_id := org_id rt; used_at := Some at_; expires_at := expires_at rt |}.
End RefreshToken.

(** What the calls write. *)
Inductive write :=
| Consented (hash : string) (code : AuthCode.t)
| Redeemed (hash : string) (code : AuthCode.t)
| Rotated (hash : string) (rt : RefreshToken.t)
| Issued (hash : string) (rt : RefreshToken.t).

Record Db := {
  clients : gmap string OAuthClient;
  codes : gmap string AuthCode.t;
  refresh_tokens : gmap string RefreshToken.t;
  api_tokens : Store;
  members : gset (UserId * OrgId);       (* active memberships *)
  org_names : gmap OrgId string;
  now : DateTime;
  writes : list write;
}.

Definition set_clients c s := {| clients := c; codes := codes s; refresh_tokens := refresh_tokens s;
  api_tokens := api_tokens s; members := members s; org_names := org_names s; now := now s; writes := writes s |}.
Definition set_codes c l s := {| clients := clients s; codes := c; refresh_tokens := refresh_tokens s;
  api_tokens := api_tokens s; members := members s; org_names := org_names s; now := now s; writes := l ++ writes s |}.
Definition set_refresh r l s := {| clients := clients s; codes := codes s; refresh_tokens := r;
  api_tokens := api_tokens s; members := members s; org_names := org_names s; now := now s; writes := l ++ writes s |}.
Definition set_tokens t s := {| clients := clients s; codes := codes s; refresh_tokens := refresh_tokens s;
  api_tokens := t; members := members s; org_names := org_names s; now := now s; writes := writes s |}.

Definition insert_client (client_id : string) (name : option string) (uris : list string) (s : Db) : result unit * Db :=
  match clients s !! client_id with
  | Some _ => (Err (Other "oauth_clients_pkey"), s)
  | None => (Ok tt, set_clients (<[client_id := {| client_name := name; redirect_uris := uris |}]> (clients s)) s)
  end.
Definition get_client (client_id : string) (s : Db) : option OAuthClient := clients s !! client_id.

(** A code's client must exist ([REFERENCES oauth_clients]). *)
Definition insert_code (hash : string) (c : AuthCode.t) (s : Db) : result unit * Db :=
  match codes s !! hash, clients s !! AuthCode.client_id c with
  | None, Some _ => (Ok tt, set_codes (<[hash := c]> (codes s)) [Consented hash c] s)
  | _, _ => (Err (Other "oauth::insert_code"), s)
  end.

(** [DELETE .. RETURNING]. *)
Definition consume_code (hash : string) (s : Db) : option AuthCode.t * Db :=
  match codes s !! hash with
  | None => (None, s)
  | Some c => (Some c, set_codes (delete hash (codes s)) [Redeemed hash c] s)
  end.

Definition insert_refresh_token (hash : string) (rt : RefreshToken.t) (s : Db) : result unit * Db :=
  match refresh_tokens s !! hash, clients s !! RefreshToken.client_id rt with
  | None, Some _ => (Ok tt, set_refresh (<[hash := rt]> (refresh_tokens s)) [Issued hash rt] s)
  | _, _ => (Err (Other "oauth::insert_refresh_token"), s)
  end.
Definition get_refresh_token (hash : string) (s : Db) : option RefreshToken.t := refresh_tokens s !! hash.

(** [.. WHERE token_hash = $1 AND used_at IS NULL], and whether a row was updated. *)
Definition mark_refresh_used (hash : string) (s : Db) : bool * Db :=
  match refresh_tokens s !! hash with
  | Some rt =>
      if is_none (RefreshToken.used_at rt)
      then (true, set_refresh (<[hash := RefreshToken.mark_used (now s) rt]> (refresh_tokens s)) [Rotated hash rt] s)
      else (false, s)
  | None => (false, s)
  end.

Definition delete_refresh_family (family : Uuid) (s : Db) : Db :=
  set_refresh (filter (λ kv, RefreshToken.family_id kv.2 ≠ family) (refresh_tokens s)) [] s.

(** mod.rs: one pass of the sweeper. *)
Definition sweep (s : Db) : Db :=
  let s := set_codes (filter (λ kv, ¬ AuthCode.expires_at kv.2 < now s) (codes s)) [] s in
  set_refresh (filter (λ kv, ¬ RefreshToken.expires_at kv.2 < now s) (refresh_tokens s)) [] s.

(** ** The calls a handler awaits *)
Inductive op : Type → Type :=
| GetClient (client_id : string) : op (result (option OAuthClient))
| InsertClient (client_id : string) (name : option string) (uris : list string) : op (result unit)
| InsertCode (hash : string) (c : AuthCode.t) : op (result unit)
| ConsumeCode (hash : string) : op (result (option AuthCode.t))
| GetRefreshToken (hash : string) : op (result (option RefreshToken.t))
| MarkRefreshUsed (hash : string) : op (result bool)
| InsertRefreshToken (hash : string) (rt : RefreshToken.t) : op (result unit)
| DeleteRefreshFamily (family : Uuid) : op (result unit)
| MintOauth (user : UserId) (org : OrgId) (name : string) (scopes : ScopeSet) (expires_at : DateTime)
    (audience client : string) : op (result CreatedToken.t)
| RevokeOauth (user : UserId) (org : OrgId) (client audience : string) : op (result unit)
| IsActiveMember (user : UserId) (org : OrgId) : op (result bool)
| GetOrg (org : OrgId) : op (result (option string))
| UtcNow : op DateTime
| FillBytes : op string
| NowV7 : op Uuid.

Section Server.
Context `{Environment} `{Random} `{Argon2} `{Primitives} `{WebUrls} `{Digests}.
Context (cfg : Config).

Definition exec (out : outcome) (T : Type) (o : op T) (s : Db) : T * Db :=
  match o in op T return T * Db with
  | GetClient client_id => database out (query (get_client client_id)) s
  | InsertClient client_id name uris => database out (insert_client client_id name uris) s
  | InsertCode hash c => database out (insert_code hash c) s
  | ConsumeCode hash => database out (update (consume_code hash)) s
  | GetRefreshToken hash => database out (query (get_refresh_token hash)) s
  | MarkRefreshUsed hash => database out (update (mark_refresh_used hash)) s
  | InsertRefreshToken hash rt => database out (insert_refresh_token hash rt) s
  | DeleteRefreshFamily family => database out (λ s, (Ok tt, delete_refresh_family family s)) s
  | MintOauth user org name scopes expires_at audience client =>
      database out (λ s,
        let '(r, t) := mint_oauth (prefix_visible_chars cfg) (now s) user org name scopes expires_at audience client
                         (api_tokens s) in (r, set_tokens t s)) s
  | RevokeOauth user org client audience =>
      database out (λ s, (Ok tt, set_tokens (revoke_oauth user org client audience (api_tokens s)) s)) s
  | IsActiveMember user org => database out (query (λ s, bool_decide ((user, org) ∈ members s))) s
  | GetOrg org => database out (query (λ s, org_names s !! org)) s
  | UtcNow => (now s, s)
  | FillBytes => let '(bytes, t) := draw (api_tokens s) in (bytes, set_tokens t s)
  | NowV7 => let '(id, t) := gen_random_uuid (api_tokens s) in (id, set_tokens t s)
  end.

(** What happens outside the handlers: time passes, the sweeper runs, people join and
    leave organizations, tokens are created, renamed, revoked and used elsewhere. *)
Inductive outside_event :=
| TimePasses (d : N)
| Sweep
| Membership (m : gset (UserId * OrgId))
| OrgNames (m : gmap OrgId string)
| TokenCall (c : ApiTokens.call)
| Erased (gone : UserId → OrgId → bool).      (* users and organizations deleted, with their rows *)

(** Connector tokens are minted by the grants only. *)
Definition is_manual (c : ApiTokens.call) : bool := match c with Mint _ _ _ _ _ _ _ => false | _ => true end.

Definition outside (e : outside_event) (s : Db) : Db :=
  match e with
  | TimePasses d => {| clients := clients s; codes := codes s; refresh_tokens := refresh_tokens s;
      api_tokens := api_tokens s; members := members s; org_names := org_names s;
      now := now s + Z.of_N d; writes := writes s |}
  | Sweep => sweep s
  | Membership m => {| clients := clients s; codes := codes s; refresh_tokens := refresh_tokens s;
      api_tokens := api_tokens s; members := m; org_names := org_names s; now := now s; writes := writes s |}
  | OrgNames m => {| clients := clients s; codes := codes s; refresh_tokens := refresh_tokens s;
      api_tokens := api_tokens s; members := members s; org_names := m; now := now s; writes := writes s |}
  | TokenCall c =>
      if is_manual c then set_tokens (ApiTokens.apply (prefix_visible_chars cfg) (now s) c (api_tokens s)) s else s
  | Erased gone =>
      let s := set_codes (filter (λ kv, gone (AuthCode.user_id kv.2) (AuthCode.org_id kv.2) = false) (codes s)) [] s in
      let s := set_refresh (filter (λ kv, gone (RefreshToken.user_id kv.2) (RefreshToken.org_id kv.2) = false)
                 (refresh_tokens s)) [] s in
      set_tokens (set_rows (filter (λ kv, is_some_and (gone (user_id kv.2)) (org_id kv.2) = false)) (api_tokens s)) s
  end.

(** ** mod.rs *)
Record OAuthUrls := { issuer : string; resource : string }.
Definition from_cfg : OAuthUrls :=
  {| issuer := trim_end_matches "/"%char (public_base_url cfg);
     resource := trim_end_matches "/"%char (resource_uri cfg) |}.
Definition authorize_endpoint (u : OAuthUrls) : string := issuer u +:+ "/oauth/authorize".
Definition token_endpoint (u : OAuthUrls) : string := issuer u +:+ "/oauth/token".
Definition registration_endpoint (u : OAuthUrls) : string := issuer u +:+ "/oauth/register".

Definition resource_origin (uri : string) : option string :=
  u ← parse uri;
  host ← host_str u;
  Some (match port u with
        | Some p => scheme u +:+ "://" +:+ host +:+ ":" +:+ show p
        | None => scheme u +:+ "://" +:+ host
        end).
Definition resource_metadata_url (u : OAuthUrls) : string :=
  match resource_origin (resource u) with
  | Some origin => origin +:+ "/.well-known/oauth-protected-resource"
  | None => issuer u +:+ "/.well-known/oauth-protected-resource"
  end.

Definition is_acceptable_redirect_uri (uri : string) : bool :=
  match parse uri with
  | None => false
  | Some u =>
      if is_some (fragment u) || negb (String.eqb (username u) "") || is_some (password u) then false
      else if String.eqb (scheme u) "https" then is_some (host_str u)
      else if String.eqb (scheme u) "http" then
        is_some_and (λ h, String.eqb h "localhost" || String.eqb h "127.0.0.1" || String.eqb h "::1") (host_str u)
      else false
  end.

(** The quotes of the header's attributes are character 34. *)
Definition quoted (s : string) : string := String (Ascii.ascii_of_nat 34) (s +:+ String (Ascii.ascii_of_nat 34) "").
Definition www_authenticate_value : option string :=
  if negb (oauth_enabled cfg) || String.eqb (resource_uri cfg) "" then None
  else Some ("Bearer resource_metadata=" +:+ quoted (resource_metadata_url from_cfg)
             +:+ ", scope=" +:+ quoted default_scope_string).

(** ** pkce.rs *)
Definition is_alphanumeric (a : Ascii.ascii) : bool :=
  is_ascii_digit a || is_ascii_uppercase a || is_ascii_lowercase a.
Definition one_of (l : string) (a : Ascii.ascii) : bool := negb (all_chars (λ b, negb (Ascii.eqb a b)) l).
Definition is_valid_verifier (verifier : string) : bool :=
  len_in 43 128 verifier && all_chars (λ b, is_alphanumeric b || one_of "-._~" b) verifier.
Definition is_valid_challenge (challenge : string) : bool :=
  (String.length challenge =? 43)%nat && all_chars (λ b, is_alphanumeric b || one_of "-_" b) challenge.
Definition verify_s256 (verifier challenge : string) : bool :=
  if negb (is_valid_verifier verifier) then false
  else String.eqb (url_safe_no_pad_encode (sha256 verifier)) challenge.

(** ** error.rs *)
Inductive OAuthError :=
| InvalidRequest | InvalidGrant | UnsupportedGrantType | UnsupportedResponseType | AccessDenied
| InvalidTarget | InvalidRedirectUri | ServerError.
Definition error_code (e : OAuthError) : string :=
  match e with
  | InvalidRequest => "invalid_request"
  | InvalidGrant => "invalid_grant"
  | UnsupportedGrantType => "unsupported_grant_type"
  | UnsupportedResponseType => "unsupported_response_type"
  | AccessDenied => "access_denied"
  | InvalidTarget => "invalid_target"
  | InvalidRedirectUri => "invalid_redirect_uri"
  | ServerError => "server_error"
  end.
Definition error_status (e : OAuthError) : Z := match e with ServerError => 500 | _ => 400 end.

(** ** Answers *)
Record ConsentScope := { label : string; is_write : bool }.
Record ConsentPage := {
  page_client_name : string; page_org_name : string; page_scopes : list ConsentScope; has_write : bool;
  page_client_id : string; page_redirect_uri : string; page_code_challenge : string; page_scope : string;
  page_state : string; page_resource : string; default_ttl_days : Z;
}.

Inductive Response :=
| ErrorPage (msg : string)                       (* 400, plain text *)
| RedirectTo (url : string)
| Consent (page : ConsentPage)
| JsonRedirect (url : string)
| OAuthErrorResponse (e : OAuthError) (description : string)
| Registered (client_id : string) (client_name : option string) (redirect_uris : list string)
| TokenResponse (access_token : string) (expires_in : Z) (refresh_token scope : string).

Definition handler_of : Type := prog op Response.

(** ** register.rs *)
Record RegistrationRequest := { reg_client_name : option string; reg_redirect_uris : list string }.

(** [chars().take(n)] on UTF-8 bytes: a continuation byte goes with its leader. *)
Definition is_continuation (a : Ascii.ascii) : bool := in_range 128 191 a.
Fixpoint take_scalars (n : nat) (s : string) : string :=
  match s with
  | EmptyString => ""
  | String a s =>
      if is_continuation a then String a (take_scalars n s)
      else match n with O => "" | S n => String a (take_scalars n s) end
  end.

Definition register (req : RegistrationRequest) : handler_of :=
  if negb (has_db cfg) then Ret (OAuthErrorResponse ServerError "storage unavailable")
  else if (length (reg_redirect_uris req) =? 0)%nat || (MAX_REDIRECT_URIS <? length (reg_redirect_uris req))%nat then
    Ret (OAuthErrorResponse InvalidRedirectUri "redirect_uris must contain between 1 and 10 entries")
  else if existsb (λ uri, (MAX_URI_LEN <? String.length uri)%nat || negb (is_acceptable_redirect_uri uri))
            (reg_redirect_uris req) then
    Ret (OAuthErrorResponse InvalidRedirectUri "each redirect_uri must be https, or http on a loopback host")
  else
    let name := take_scalars MAX_CLIENT_NAME_LEN <$> reg_client_name req in
    bytes ← call FillBytes;
    let client_id := "ump_" +:+ url_safe_no_pad_encode bytes in
    inserted ← call (InsertClient client_id name (reg_redirect_uris req));
    match inserted with
    | Err _ => Ret (OAuthErrorResponse ServerError "could not register client")
    | Ok _ => Ret (Registered client_id name (reg_redirect_uris req))
    end.

(** ** authorize.rs *)
Record Session := { session_user : option UserId; active_org_id : option OrgId }.

Record AuthorizeParams := {
  response_type : string; client_id : string; redirect_uri : string; code_challenge : string;
  code_challenge_method : string; req_scope : option string; req_state : option string;
  req_resource : option string;
}.

Definition with_state (pairs : list (string * string)) (state : option string) : list (string * string) :=
  pairs ++ match state with Some s => [("state", s)] | None => [] end.
Definition redirect_with (uri : string) (pairs : list (string * string)) (state : option string) : Response :=
  match parse uri with
  | Some url => RedirectTo (as_string (append_pairs (with_state pairs state) url))
  | None => ErrorPage "invalid redirect_uri"
  end.
Definition redirect_error (uri : string) (e : OAuthError) (state : option string) : Response :=
  redirect_with uri [("error", error_code e)] state.
Definition redirect_uri_string (uri : string) (pairs : list (string * string)) (state : option string) : string :=
  match parse uri with
  | Some url => as_string (append_pairs (with_state pairs state) url)
  | None => uri
  end.

Definition scope_label (scope : string) : string :=
  if String.eqb scope "targets:read" then "Read your monitors and their current status"
  else if String.eqb scope "status_page:read" then "Read your status pages and components"
  else if String.eqb scope "incidents:read" then "Read your incidents and their updates"
  else if String.eqb scope "channels:read" then "Read the names of your notification channels"
  else if String.eqb scope "targets:write" then "Create monitors, and pause, resume or retune existing ones"
  else if String.eqb scope "targets:execute" then "Run checks on your monitors on demand"
  else if String.eqb scope "incidents:write" then "Post updates to your incidents (shown publicly)"
  else if String.eqb scope "status_page:write" then "Create and edit your status pages, including their public address"
  else if String.eqb scope "variables:read" then "Read the names of your variables, never their values"
  else "Access your data".
Definition is_write_scope (scope : string) : bool := negb (ends_with ":read" scope).

Definition registered (uri : string) (c : OAuthClient) : bool := existsb (String.eqb uri) (redirect_uris c).

Definition login_redirect (next : string) : Response := RedirectTo ("/login?redirect_after=" +:+ url_encode next).

Definition authorize_page (path_and_query : option string) (p : AuthorizeParams) (session : Session) : handler_of :=
  if negb (has_db cfg) then Ret (ErrorPage "storage unavailable")
  else
    found ← call (GetClient (client_id p));
    match found with
    | Err _ => Ret (ErrorPage "internal error")
    | Ok None => Ret (ErrorPage "unknown client_id")
    | Ok (Some client) =>
        if negb (registered (redirect_uri p) client) then
          Ret (ErrorPage "redirect_uri is not registered for this client")
        else if is_some_and (λ r, negb (String.eqb (trim_end_matches "/"%char r) (resource from_cfg))) (req_resource p) then
          Ret (redirect_error (redirect_uri p) InvalidTarget (req_state p))
        else if negb (String.eqb (response_type p) "code") then
          Ret (redirect_error (redirect_uri p) UnsupportedResponseType (req_state p))
        else if negb (String.eqb (code_challenge_method p) "S256") || negb (is_valid_challenge (code_challenge p)) then
          Ret (redirect_error (redirect_uri p) InvalidRequest (req_state p))
        else if is_some_and (λ s, (MAX_STATE_LEN <? String.length s)%nat) (req_state p) then
          Ret (redirect_error (redirect_uri p) InvalidRequest None)
        else
          let granted := grant_scope (req_scope p) in
          match session_user session with
          | None => Ret (login_redirect (default "/" path_and_query))
          | Some user =>
          match active_org_id session with
          | None => Ret (ErrorPage "select an organization before connecting")
          | Some org =>
              member ← call (IsActiveMember user org);
              match member with
              | Err _ => Ret (ErrorPage "internal error")
              | Ok false => Ret (ErrorPage "you are not a member of the active organization")
              | Ok true =>
                  named ← call (GetOrg org);
                  let org_name := match named with Ok (Some n) => n | _ => show_uuid org end in
                  let scopes := (λ s, {| label := scope_label s; is_write := is_write_scope s |})
                                  <$> split_whitespace granted in
                  Ret (Consent {|
                    page_client_name := default "An application" (client_name client);
                    page_org_name := org_name; page_scopes := scopes; has_write := existsb is_write scopes;
                    page_client_id := client_id p; page_redirect_uri := redirect_uri p;
                    page_code_challenge := code_challenge p; page_scope := granted;
                    page_state := default "" (req_state p); page_resource := resource from_cfg;
                    default_ttl_days := DEFAULT_TOKEN_TTL_DAYS |})
              end
          end end
    end.

Record DecisionRequest := {
  action : string; dec_client_id : string; dec_redirect_uri : string; dec_code_challenge : string;
  dec_scope : string; dec_state : string; dec_resource : string; dec_expires_in_days : option Z;
}.

Definition decision (session : Session) (req : DecisionRequest) : handler_of :=
  if negb (has_db cfg) then Ret (ErrorPage "storage unavailable")
  else
    match session_user session with
    | None => Ret (ErrorPage "session expired; reload and try again")
    | Some user =>
    match active_org_id session with
    | None => Ret (ErrorPage "select an organization before connecting")
    | Some org =>
        found ← call (GetClient (dec_client_id req));
        match found with
        | Err _ => Ret (ErrorPage "internal error")
        | Ok None => Ret (ErrorPage "unknown client_id")
        | Ok (Some client) =>
            if negb (registered (dec_redirect_uri req) client) || negb (is_acceptable_redirect_uri (dec_redirect_uri req)) then
              Ret (ErrorPage "redirect_uri is not registered for this client")
            else if negb (String.eqb (trim_end_matches "/"%char (dec_resource req)) (resource from_cfg)) then
              Ret (ErrorPage "resource mismatch")
            else if negb (is_valid_challenge (dec_code_challenge req)) then Ret (ErrorPage "invalid code_challenge")
            else
              let state_opt := if String.eqb (dec_state req) "" then None else Some (dec_state req) in
              if negb (String.eqb (action req) "approve") then
                Ret (JsonRedirect (redirect_uri_string (dec_redirect_uri req) [("error", error_code AccessDenied)] state_opt))
              else
                member ← call (IsActiveMember user org);
                match member with
                | Err _ => Ret (ErrorPage "internal error")
                | Ok false => Ret (ErrorPage "you are not a member of the active organization")
                | Ok true =>
                    let granted := grant_scope (Some (dec_scope req)) in
                    let days := clamp 1 MAX_TOKEN_TTL_DAYS (default DEFAULT_TOKEN_TTL_DAYS (dec_expires_in_days req)) in
                    now ← call UtcNow;
                    bytes ← call FillBytes;
                    let code := url_safe_no_pad_encode bytes in
                    inserted ← call (InsertCode (sha256_hex code) {|
                      AuthCode.client_id := dec_client_id req; AuthCode.redirect_uri := dec_redirect_uri req;
                      AuthCode.code_challenge := dec_code_challenge req; AuthCode.scope := granted;
                      AuthCode.resource := resource from_cfg; AuthCode.user_id := user; AuthCode.org_id := org;
                      AuthCode.expires_at := now + seconds CODE_TTL_SECS;
                      AuthCode.refresh_expires_at := now + days * DAY |});
                    match inserted with
                    | Err _ => Ret (ErrorPage "internal error")
                    | Ok _ => Ret (JsonRedirect (redirect_uri_string (dec_redirect_uri req) [("code", code)] state_opt))
                    end
                end
        end
    end end.

(** ** token.rs *)
Record TokenRequest := {
  grant_type : string; code : string; tok_redirect_uri : string; tok_client_id : string;
  code_verifier : string; refresh_token : string;
}.
Definition invalid : Response := OAuthErrorResponse InvalidGrant "the grant is invalid".

(** Mint an access token, then a refresh token of the family, and answer with both. *)
Definition issue_tokens (family : Uuid) (client scope resource : string) (user : UserId) (org : OrgId)
    (refresh_expires_at : DateTime) : handler_of :=
  let scopes := from_strs (split_whitespace scope) in
  started ← call UtcNow;
  let access_expires_at := started + seconds (access_token_ttl_secs cfg) in
  minted ← call (MintOauth user org "MCP connector" scopes access_expires_at resource client);
  match minted with
  | Err _ => Ret (OAuthErrorResponse ServerError "could not issue token")
  | Ok access =>
      bytes ← call FillBytes;
      let refresh := url_safe_no_pad_encode bytes in
      inserted ← call (InsertRefreshToken (sha256_hex refresh) {|
        RefreshToken.family_id := family; RefreshToken.client_id := client; RefreshToken.scope := scope;
        RefreshToken.resource := resource; RefreshToken.user_id := user; RefreshToken.org_id := org;
        RefreshToken.used_at := None; RefreshToken.expires_at := refresh_expires_at |});
      match inserted with
      | Err _ => Ret (OAuthErrorResponse ServerError "could not issue token")
      | Ok _ =>
          done_at ← call UtcNow;
          Ret (TokenResponse (CreatedToken.token access) (Z.max 0 (num_seconds (access_expires_at - done_at)))
                 refresh scope)
      end
  end.

Definition code_grant (req : TokenRequest) : handler_of :=
  if String.eqb (code req) "" || String.eqb (code_verifier req) "" then
    Ret (OAuthErrorResponse InvalidRequest "code and code_verifier are required")
  else
    consumed ← call (ConsumeCode (sha256_hex (code req)));
    match consumed with
    | Err _ => Ret (OAuthErrorResponse ServerError "internal error")
    | Ok None => Ret invalid
    | Ok (Some c) =>
        now ← call UtcNow;
        if (AuthCode.expires_at c <=? now) || negb (String.eqb (AuthCode.client_id c) (tok_client_id req))
           || negb (String.eqb (AuthCode.redirect_uri c) (tok_redirect_uri req))
           || negb (verify_s256 (code_verifier req) (AuthCode.code_challenge c)) then Ret invalid
        else
          family ← call NowV7;
          issue_tokens family (AuthCode.client_id c) (AuthCode.scope c) (AuthCode.resource c)
            (AuthCode.user_id c) (AuthCode.org_id c) (AuthCode.refresh_expires_at c)
    end.

(** The theft response: both deletions are tried whatever the first one says. *)
Definition revoke_family (rt : RefreshToken.t) : prog op unit :=
  _ ← call (DeleteRefreshFamily (RefreshToken.family_id rt));
  _ ← call (RevokeOauth (RefreshToken.user_id rt) (RefreshToken.org_id rt) (RefreshToken.client_id rt)
              (RefreshToken.resource rt));
  Ret tt.

Definition refresh_grant (req : TokenRequest) : handler_of :=
  if String.eqb (refresh_token req) "" || String.eqb (tok_client_id req) "" then
    Ret (OAuthErrorResponse InvalidRequest "refresh_token and client_id are required")
  else
    let hash := sha256_hex (refresh_token req) in
    found ← call (GetRefreshToken hash);
    match found with
    | Err _ => Ret (OAuthErrorResponse ServerError "internal error")
    | Ok None => Ret invalid
    | Ok (Some rt) =>
        if negb (String.eqb (RefreshToken.client_id rt) (tok_client_id req)) then Ret invalid
        else if is_some (RefreshToken.used_at rt) then
          _ ← revoke_family rt;
          Ret invalid
        else
          now ← call UtcNow;
          if RefreshToken.expires_at rt <=? now then Ret invalid
          else
            won ← call (MarkRefreshUsed hash);
            match won with
            | Err _ => Ret (OAuthErrorResponse ServerError "internal error")
            | Ok false => Ret invalid
            | Ok true =>
                issue_tokens (RefreshToken.family_id rt) (RefreshToken.client_id rt) (RefreshToken.scope rt)
                  (RefreshToken.resource rt) (RefreshToken.user_id rt) (RefreshToken.org_id rt)
                  (RefreshToken.expires_at rt)
            end
    end.

Definition token (req : TokenRequest) : handler_of :=
  if negb (has_db cfg) then Ret (OAuthErrorResponse ServerError "storage unavailable")
  else if String.eqb (grant_type req) "authorization_code" then code_grant req
  else if String.eqb (grant_type req) "refresh_token" then refresh_grant req
  else Ret (OAuthErrorResponse UnsupportedGrantType "only authorization_code and refresh_token are supported").

(** ** The endpoints, and the server as a pool of handlers *)
Inductive Request :=
| GetAuthorize (path_and_query : option string) (p : AuthorizeParams) (session : Session)
| PostDecision (session : Session) (req : DecisionRequest)
| PostToken (req : TokenRequest)
| PostRegister (req : RegistrationRequest).

Definition handler (r : Request) : handler_of :=
  match r with
  | GetAuthorize pq p session => authorize_page pq p session
  | PostDecision session req => decision session req
  | PostToken req => token req
  | PostRegister req => register req
  end.

(** mod.rs, [routes]: the paths that are mounted. *)
Definition routes : list string :=
  (if mcp_enabled cfg && negb (String.eqb (resource_uri cfg) "") then
     ["/.well-known/oauth-protected-resource"; "/.well-known/oauth-protected-resource/mcp"] else [])
  ++ (if oauth_enabled cfg then
        ["/.well-known/oauth-authorization-server"; "/oauth/authorize"; "/oauth/authorize/decision";
         "/oauth/token"; "/oauth/register"] else []).

Definition empty_db (at_ : DateTime) : Db := {|
  clients := ∅; codes := ∅; refresh_tokens := ∅; api_tokens := empty_store; members := ∅; org_names := ∅;
  now := at_; writes := [] |}.
Definition server (at_ : DateTime) : pool (op := op) (Req := Request) (A := Response) := initial (empty_db at_).
Definition serves : pool → pool → Prop := reachable exec outside handler.
End Server.
