(* ===== verification/OAuthProtocol.v ===== *)
(** * The authorization server: the protocol of its handlers

    What a handler of OAuth.v has read, and may therefore write: its protocol
    state, the calls each state allows and how they move it, what an answer says of
    the state in which it is given; and that every handler keeps to it. *)

From Stdlib Require Import Ascii.
From S2P Require Import Prelude Text Crypto Scopes ApiTokens Handlers OAuth.

(** What the user agreed to, as it is carried from the consent to every token. *)
Record Grant := {
  client : string; granted_scope : string; granted_resource : string;
  user : UserId; org : OrgId; deadline : DateTime;
}.
Definition grant_of_code (c : AuthCode.t) : Grant := {|
  client := AuthCode.client_id c; granted_scope := AuthCode.scope c; granted_resource := AuthCode.resource c;
  user := AuthCode.user_id c; org := AuthCode.org_id c; deadline := AuthCode.refresh_expires_at c |}.
Definition grant_of_row (rt : RefreshToken.t) : Grant := {|
  client := RefreshToken.client_id rt; granted_scope := RefreshToken.scope rt;
  granted_resource := RefreshToken.resource rt; user := RefreshToken.user_id rt;
  org := RefreshToken.org_id rt; deadline := RefreshToken.expires_at rt |}.
Definition row_for (family : Uuid) (g : Grant) : RefreshToken.t := {|
  RefreshToken.family_id := family; RefreshToken.client_id := client g; RefreshToken.scope := granted_scope g;
  RefreshToken.resource := granted_resource g; RefreshToken.user_id := user g; RefreshToken.org_id := org g;
  RefreshToken.used_at := None; RefreshToken.expires_at := deadline g |}.

(** ** The protocol state of a handler *)
Inductive source :=
| ByCode (hash : string) (c : AuthCode.t)
| ByRow (hash : string) (rt : RefreshToken.t).
Definition grant_of (src : source) : Grant :=
  match src with ByCode _ c => grant_of_code c | ByRow _ rt => grant_of_row rt end.

Inductive phase :=
| Idle
| Knows (client_id : string) (c : OAuthClient)                       (* the client read *)
| Took (hash : string) (c : AuthCode.t) (seen_at : option DateTime)  (* the code consumed *)
| Saw (hash : string) (rt : RefreshToken.t)                          (* the refresh token read *)
| Holds (src : source) (family : Uuid)                               (* the right to issue one *)
| Gave (src : source) (family : Uuid) (hash : string)                (* it is issued *)
| Over.                                                              (* it could not be *)

Record ghost := { ph : phase; secret : option string }.
Definition start : ghost := {| ph := Idle; secret := None |}.
Definition in_phase (p : phase) (g : ghost) : ghost := {| ph := p; secret := secret g |}.

Definition after (g : ghost) (T : Type) (o : op T) : T → ghost :=
  match o in op T return T → ghost with
  | GetClient client_id => λ r, match r with Ok (Some c) => in_phase (Knows client_id c) g | _ => g end
  | ConsumeCode hash => λ r, match r with Ok (Some c) => in_phase (Took hash c None) g | _ => g end
  | UtcNow => λ t, match ph g with Took hash c _ => in_phase (Took hash c (Some t)) g | _ => g end
  | NowV7 => λ family, match ph g with Took hash c _ => in_phase (Holds (ByCode hash c) family) g | _ => g end
  | GetRefreshToken hash => λ r, match r with Ok (Some rt) => in_phase (Saw hash rt) g | _ => g end
  | MarkRefreshUsed hash => λ r,
      match r, ph g with
      | Ok true, Saw h rt => in_phase (Holds (ByRow h rt) (RefreshToken.family_id rt)) g
      | _, _ => g
      end
  | FillBytes => λ bytes, {| ph := ph g; secret := Some bytes |}
  | InsertClient _ _ _ => λ _, {| ph := ph g; secret := None |}
  | InsertCode _ _ => λ _, {| ph := ph g; secret := None |}
  | InsertRefreshToken hash rt => λ r,
      match r, ph g with
      | Ok _, Holds src family => {| ph := Gave src family hash; secret := None |}
      | _, _ => {| ph := Over; secret := None |}
      end
  | _ => λ _, g
  end.

(** [simpl] would expand the filter over the grantable scopes. *)
#[local] Opaque grant_scope split_whitespace.

Section Protocol.
Context `{Environment} `{Random} `{Argon2} `{Primitives} `{WebUrls} `{Digests}.
Context (cfg : Config).

Definition digest (bytes : string) : string := sha256_hex (url_safe_no_pad_encode bytes).

(** What a code exchange shows. *)
Definition shows (req : TokenRequest) (hash : string) (c : AuthCode.t) (at_ : DateTime) : Prop :=
  grant_type req = "authorization_code" ∧ hash = sha256_hex (code req) ∧
  AuthCode.client_id c = tok_client_id req ∧ AuthCode.redirect_uri c = tok_redirect_uri req ∧
  verify_s256 (code_verifier req) (AuthCode.code_challenge c) = true ∧ at_ < AuthCode.expires_at c.
(** What a refresh shows. *)
Definition presents (req : TokenRequest) (hash : string) (rt : RefreshToken.t) : Prop :=
  grant_type req = "refresh_token" ∧ hash = sha256_hex (refresh_token req) ∧
  RefreshToken.client_id rt = tok_client_id req.

(** The decision that a code records. *)
Definition approves (req : Request) (c : AuthCode.t) : Prop :=
  match req with
  | PostDecision session d =>
      action d = "approve" ∧ session_user session = Some (AuthCode.user_id c) ∧
      active_org_id session = Some (AuthCode.org_id c) ∧ dec_client_id d = AuthCode.client_id c ∧
      dec_redirect_uri d = AuthCode.redirect_uri c ∧ dec_code_challenge d = AuthCode.code_challenge c ∧
      AuthCode.scope c = grant_scope (Some (dec_scope d)) ∧ AuthCode.resource c = resource (from_cfg cfg)
  | _ => False
  end.
Definition lifetimes (c : AuthCode.t) : Prop :=
  ∃ t, AuthCode.expires_at c = t + seconds CODE_TTL_SECS ∧
    t + DAY ≤ AuthCode.refresh_expires_at c ≤ t + MAX_TOKEN_TTL_DAYS * DAY.

Definition allowed (req : Request) (g : ghost) (T : Type) (o : op T) : Prop :=
  match o with
  | InsertClient client_id _ uris => ∀ uri, uri ∈ uris → is_acceptable_redirect_uri uri = true
  | InsertCode hash c =>
      (∃ bytes, secret g = Some bytes ∧ hash = digest bytes) ∧ approves req c ∧ lifetimes c ∧
      ∃ cl, ph g = Knows (AuthCode.client_id c) cl ∧ registered (AuthCode.redirect_uri c) cl = true
  | ConsumeCode hash => ph g = Idle ∧
      ∃ r, req = PostToken r ∧ grant_type r = "authorization_code" ∧ hash = sha256_hex (code r)
  | GetRefreshToken hash => ph g = Idle ∧
      ∃ r, req = PostToken r ∧ grant_type r = "refresh_token" ∧ hash = sha256_hex (refresh_token r)
  | GetClient _ => ph g = Idle
  | NowV7 => ∃ r hash c t, req = PostToken r ∧ ph g = Took hash c (Some t) ∧ shows r hash c t
  | MarkRefreshUsed hash => ∃ r rt, req = PostToken r ∧ ph g = Saw hash rt ∧ presents r hash rt
  | MintOauth user' org' _ scopes _ audience client' =>
      ∃ src family, ph g = Holds src family ∧ user' = user (grant_of src) ∧ org' = org (grant_of src) ∧
        scopes = from_strs (split_whitespace (granted_scope (grant_of src))) ∧
        audience = granted_resource (grant_of src) ∧ client' = client (grant_of src)
  | InsertRefreshToken hash rt =>
      ∃ src family bytes, ph g = Holds src family ∧ secret g = Some bytes ∧ hash = digest bytes ∧
        rt = row_for family (grant_of src)
  | _ => True
  end.

(** What an answer says of the protocol state in which it was given. *)
Definition comes_from (req : TokenRequest) (src : source) : Prop :=
  match src with
  | ByCode hash c => ∃ t, shows req hash c t
  | ByRow hash rt => presents req hash rt
  end.
Definition answers_to (cl : OAuthClient) (client_id uri : string) (g : ghost) : Prop :=
  ph g = Knows client_id cl ∧ registered uri cl = true.

Definition good (req : Request) (g : ghost) (a : Response) : Prop :=
  match req, a with
  | PostToken r, TokenResponse _ _ refresh scope =>
      ∃ src family, ph g = Gave src family (sha256_hex refresh) ∧ comes_from r src ∧
        scope = granted_scope (grant_of src)
  | _, TokenResponse _ _ _ _ => False
  | GetAuthorize pq p session, RedirectTo url =>
      RedirectTo url = login_redirect (default "/" pq) ∨
      ∃ cl pairs state, answers_to cl (client_id p) (redirect_uri p) g ∧
        RedirectTo url = redirect_with (redirect_uri p) pairs state
  | PostDecision _ d, JsonRedirect url =>
      ∃ cl pairs state, answers_to cl (dec_client_id d) (dec_redirect_uri d) g ∧
        url = redirect_uri_string (dec_redirect_uri d) pairs state
  | _, RedirectTo _ => False
  | _, JsonRedirect _ => False
  | _, _ => True
  end.

(** ** Every handler keeps to the protocol *)
Lemma issue_tokens_obeys req r src family g :
  req = PostToken r → ph g = Holds src family → comes_from r src →
  obeys (allowed req) after (good req) g
    (issue_tokens cfg family (client (grant_of src)) (granted_scope (grant_of src)) (granted_resource (grant_of src))
      (user (grant_of src)) (org (grant_of src)) (deadline (grant_of src))).
Proof.
  intros -> Hph Hsrc. unfold issue_tokens. simpl. split; [done|]. intros t. rewrite Hph. split.
  { exists src, family. by rewrite Hph. }
  intros [access|e]; [|done]. simpl. split; [done|]. intros bytes. split.
  { exists src, family, bytes. by rewrite Hph. }
  intros [[]|e]; [|done]. simpl. rewrite Hph. split; [done|]. intros t'.
  exists src, family. by split_and!.
Qed.

Lemma code_grant_obeys r : grant_type r = "authorization_code" →
  obeys (allowed (PostToken r)) after (good (PostToken r)) start (code_grant cfg r).
Proof.
  intros Hgrant. unfold code_grant. case_match; [done|]. simpl. split; [split; [done|by exists r]|].
  intros [[c|]|e]; [|done..]. simpl. split; [done|]. intros t.
  case_match; [done|]. bool_cases.
  assert (Hshows : shows r (sha256_hex (code r)) c t).
  { repeat match goal with E : String.eqb _ _ = true |- _ => apply String.eqb_eq in E end. by split_and!. }
  split; [by exists r, (sha256_hex (code r)), c, t|]. intros family.
  refine (issue_tokens_obeys (PostToken r) r (ByCode (sha256_hex (code r)) c) family _ eq_refl _ _);
    [done|by exists t].
Qed.

Lemma refresh_grant_obeys r : grant_type r = "refresh_token" →
  obeys (allowed (PostToken r)) after (good (PostToken r)) start (refresh_grant cfg r).
Proof.
  intros Hgrant. unfold refresh_grant. case_match; [done|]. simpl. split; [split; [done|by exists r]|].
  intros [[rt|]|e]; [|done..]. destruct (String.eqb_spec (RefreshToken.client_id rt) (tok_client_id r)) as [Hclient|]; [|done].
  simpl. destruct (is_some _); simpl; [by split_and!|]. split; [done|]. intros t. case_match; [done|].
  assert (Hpresents : presents r (sha256_hex (refresh_token r)) rt) by done.
  split; [by exists r, rt|]. intros [[]|e]; [|done..].
  by refine (issue_tokens_obeys (PostToken r) r (ByRow (sha256_hex (refresh_token r)) rt) _ _ eq_refl _ Hpresents).
Qed.

Lemma register_obeys req r : req = PostRegister r →
  obeys (allowed req) after (good req) start (register cfg r).
Proof.
  intros ->. unfold register. repeat (case_match; [done|]). simpl. split; [done|]. intros bytes. split.
  - intros uri Hin. match goal with H : existsb _ _ = false |- _ => rename H into Hbad end.
    destruct (is_acceptable_redirect_uri uri) eqn:Hok; [done|]. exfalso.
    rewrite <-not_true_iff_false, existsb_exists in Hbad. apply Hbad. exists uri.
    rewrite <-list_elem_of_In, Hok, orb_true_r. done.
  - by intros [|].
Qed.

Lemma redirect_error_good pq p session g cl e state :
  answers_to cl (client_id p) (redirect_uri p) g →
  good (GetAuthorize pq p session) g (redirect_error (redirect_uri p) e state).
Proof.
  intros Hcl. unfold redirect_error. destruct (parse (redirect_uri p)) as [url|] eqn:Hp.
  - assert (Hr : redirect_with (redirect_uri p) [("error", error_code e)] state =
      RedirectTo (as_string (append_pairs (with_state [("error", error_code e)] state) url))).
    { unfold redirect_with. by rewrite Hp. }
    rewrite Hr. right. exists cl, [("error", error_code e)], state. by rewrite Hr.
  - unfold redirect_with. by rewrite Hp.
Qed.

Lemma authorize_obeys pq p session :
  obeys (allowed (GetAuthorize pq p session)) after (good (GetAuthorize pq p session)) start
    (authorize_page cfg pq p session).
Proof.
  unfold authorize_page. case_match; [done|]. split; [done|]. simpl. intros [[cl|]|e]; [|done..].
  destruct (registered (redirect_uri p) cl) eqn:Hreg; [|done].
  assert (Hcl : answers_to cl (client_id p) (redirect_uri p) (in_phase (Knows (client_id p) cl) start)) by done.
  cbn [negb].
  do 4 (case_match; [by apply (redirect_error_good pq p session _ cl)|]).
  case_match; [|by left]. case_match; [|done]. split; [done|]. intros [[]|e]; [|exact I..]. split; [exact I|]. intros named. hnf. exact I.
Qed.

Lemma chosen_days days : 1 ≤ clamp 1 MAX_TOKEN_TTL_DAYS days ≤ MAX_TOKEN_TTL_DAYS.
Proof. unfold clamp, MAX_TOKEN_TTL_DAYS. lia. Qed.

Lemma decision_obeys session d :
  obeys (allowed (PostDecision session d)) after (good (PostDecision session d)) start (decision cfg session d).
Proof.
  unfold decision. case_match; [exact I|]. destruct (session_user session) as [u|] eqn:Hu; [|exact I].
  destruct (active_org_id session) as [o|] eqn:Ho; [|exact I]. split; [done|]. simpl.
  intros [[cl|]|e]; [|exact I..].
  case_match; [exact I|]. bool_cases. do 2 (case_match; [exact I|]).
  assert (Hcl : answers_to cl (dec_client_id d) (dec_redirect_uri d)
    (in_phase (Knows (dec_client_id d) cl) start)) by done.
  case_match; [by eexists cl, _, _|]. bool_cases.
  split; [exact I|]. intros [[]|e]; [|exact I..]. split; [exact I|]. intros t. split; [exact I|]. intros bytes. split.
  - split_and!; [by exists bytes|..|by exists cl].
    + match goal with E : String.eqb (action d) _ = true |- _ => apply String.eqb_eq in E end.
      hnf. cbn. by split_and!.
    + exists t. split; [reflexivity|]. cbn -[clamp DAY MAX_TOKEN_TTL_DAYS Z.add Z.mul].
      pose proof (chosen_days (default DEFAULT_TOKEN_TTL_DAYS (dec_expires_in_days d))).
      assert (0 < DAY) by done. split; nia.
  - intros [[]|e]; [|exact I]. by eexists cl, _, _.
Qed.

Lemma handler_obeys req : obeys (allowed req) after (good req) start (handler cfg req).
Proof.
  destruct req as [pq p session|session d|r|r]; simpl.
  - apply authorize_obeys.
  - apply decision_obeys.
  - unfold token. case_match; [exact I|]. destruct (String.eqb_spec (grant_type r) "authorization_code"); [by apply code_grant_obeys|].
    destruct (String.eqb_spec (grant_type r) "refresh_token"); [by apply refresh_grant_obeys|exact I].
  - by apply register_obeys.
Qed.
End Protocol.
