(* ===== verification/OAuthInvariant.v ===== *)
(** * The authorization server: its invariant

    The invariant of the store and of all protocol states (OAuthProtocol.v), and
    that every call of a handler and every outside event keeps it, whatever the
    interleaving and the failures. *)

From Stdlib Require Import Ascii.
From S2P Require Import Prelude Text Crypto Scopes ApiTokens Handlers OAuth OAuthProtocol.

#[local] Opaque grant_scope split_whitespace.

Section Invariant.
Context `{Environment} `{Random} `{Argon2} `{Primitives} `{WebUrls} `{Digests}.
Context (cfg : Config).

(** ** The invariant *)
Definition same_row (rt rt0 : RefreshToken.t) : Prop :=
  RefreshToken.family_id rt = RefreshToken.family_id rt0 ∧ grant_of_row rt = grant_of_row rt0.
Definition written (h : string) (l : list write) : Prop :=
  (∃ c, Consented h c ∈ l) ∨ (∃ rt, Issued h rt ∈ l).
Definition made_of (made : nat) (id : Uuid) : Prop := ∃ k, (k < made)%nat ∧ id = fresh k.
Definition drawn_of (drawn : nat) (bytes : string) : Prop := ∃ n, (n < drawn)%nat ∧ bytes = fill_bytes n.
Definition redeemed_grant (l : list write) (g : Grant) : Prop := ∃ h c, Redeemed h c ∈ l ∧ g = grant_of_code c.
Definition issued_as (l : list write) (h : string) (rt : RefreshToken.t) : Prop :=
  ∃ rt0, Issued h rt0 ∈ l ∧ same_row rt rt0.
Definition is_live (rt : RefreshToken.t) : Prop := RefreshToken.used_at rt = None.

Definition source_ok (l : list write) (src : source) (family : Uuid) : Prop :=
  redeemed_grant l (grant_of src) ∧
  match src with
  | ByCode h c => Redeemed h c ∈ l
  | ByRow h rt => (∃ rt', Rotated h rt' ∈ l) ∧ issued_as l h rt ∧ family = RefreshToken.family_id rt
  end.
Definition phase_ok (s : Db) (p : phase) : Prop :=
  match p with
  | Idle | Over => True
  | Knows id cl => clients s !! id = Some cl
  | Took h c _ => Redeemed h c ∈ writes s
  | Saw h rt => issued_as (writes s) h rt
  | Holds src family => source_ok (writes s) src family ∧ made_of (made (api_tokens s)) family
  | Gave src family h => source_ok (writes s) src family ∧ Issued h (row_for family (grant_of src)) ∈ writes s
  end.

(** What a handler has claimed for itself: a code, or the rotation of a row. *)
Definition claim (p : phase) : option (bool * string) :=
  match p with
  | Took h _ _ => Some (true, h)
  | Holds (ByCode h _) _ | Gave (ByCode h _) _ _ => Some (true, h)
  | Holds (ByRow h _) _ | Gave (ByRow h _) _ _ => Some (false, h)
  | _ => None
  end.

(** The access token of a row was granted with a redeemed code. *)
Definition access_ok (l : list write) (row : TokenRow) : Prop :=
  ∀ cl, oauth_client_id row = Some cl →
    ∃ g, redeemed_grant l g ∧ cl = client g ∧ user_id row = user g ∧ org_id row = Some (org g) ∧
      audience row = Some (granted_resource g) ∧
      scopes row = to_strings (from_strs (split_whitespace (granted_scope g))).

Record store_ok (s : Db) : Prop := {
  so_code : ∀ h c, codes s !! h = Some c → Consented h c ∈ writes s ∧ ∀ c', Redeemed h c' ∉ writes s;
  so_row : ∀ h rt, refresh_tokens s !! h = Some rt →
    issued_as (writes s) h rt ∧ (is_live rt → ∀ rt', Rotated h rt' ∉ writes s);
  so_redeemed : ∀ h c, Redeemed h c ∈ writes s → Consented h c ∈ writes s;
  so_rotated : ∀ h rt, Rotated h rt ∈ writes s → issued_as (writes s) h rt;
  so_digest : ∀ h, written h (writes s) → ∃ b, drawn_of (drawn (api_tokens s)) b ∧ h = digest b;
  so_consent_once : ∀ h c c', Consented h c ∈ writes s → Consented h c' ∈ writes s → c = c';
  so_issued_once : ∀ h rt rt', Issued h rt ∈ writes s → Issued h rt' ∈ writes s → rt = rt';
  so_consent : ∀ h c, Consented h c ∈ writes s → lifetimes c ∧
    ∃ cl, clients s !! AuthCode.client_id c = Some cl ∧ registered (AuthCode.redirect_uri c) cl = true;
  so_client : ∀ id cl, clients s !! id = Some cl → ∀ uri, uri ∈ redirect_uris cl → is_acceptable_redirect_uri uri = true;
  so_family : ∀ h rt, Issued h rt ∈ writes s → made_of (made (api_tokens s)) (RefreshToken.family_id rt);
  so_origin : ∀ h rt, Issued h rt ∈ writes s → redeemed_grant (writes s) (grant_of_row rt);
  so_same_grant : ∀ h rt h' rt', Issued h rt ∈ writes s → Issued h' rt' ∈ writes s →
    RefreshToken.family_id rt = RefreshToken.family_id rt' → grant_of_row rt = grant_of_row rt';
  so_live : ∀ h rt h' rt', refresh_tokens s !! h = Some rt → refresh_tokens s !! h' = Some rt' →
    is_live rt → is_live rt' → RefreshToken.family_id rt = RefreshToken.family_id rt' → h = h';
  so_tokens : inv (prefix_visible_chars cfg) (api_tokens s);
  so_access : ∀ id row, rows (api_tokens s) !! id = Some row → access_ok (writes s) row;
}.

(** Nobody issues into a family whose current token is live, or under another grant. *)
Definition may_issue (s : Db) (src : source) (family : Uuid) : Prop :=
  (∀ h rt, Issued h rt ∈ writes s → RefreshToken.family_id rt = family → grant_of_row rt = grant_of src) ∧
  (∀ h rt, refresh_tokens s !! h = Some rt → RefreshToken.family_id rt = family → ¬ is_live rt).

Record threads_ok (s : Db) (gs : gmap nat (Request * ghost)) : Prop := {
  to_phase : ∀ i req g, gs !! i = Some (req, g) → phase_ok s (ph g);
  to_issue : ∀ i req g src family, gs !! i = Some (req, g) → ph g = Holds src family → may_issue s src family;
  to_secret : ∀ i req g b, gs !! i = Some (req, g) → secret g = Some b →
    drawn_of (drawn (api_tokens s)) b ∧ ¬ written (digest b) (writes s);
  to_secrets : ∀ i j req req' g g' b, gs !! i = Some (req, g) → gs !! j = Some (req', g') →
    secret g = Some b → secret g' = Some b → i = j;
  to_claims : ∀ i j req req' g g' cl, gs !! i = Some (req, g) → gs !! j = Some (req', g') →
    claim (ph g) = Some cl → claim (ph g') = Some cl → i = j;
  to_holders : ∀ i j req req' g g' src src' family, gs !! i = Some (req, g) → gs !! j = Some (req', g') →
    ph g = Holds src family → ph g' = Holds src' family → i = j;
  to_consents : ∀ h c, Consented h c ∈ writes s → ∃ i req g, gs !! i = Some (req, g) ∧ approves cfg req c;
}.

Definition SI (s : Db) (gs : gmap nat (Request * ghost)) : Prop := store_ok s ∧ threads_ok s gs.

(** ** Changes that concern no handler *)
Record quiet (s s' : Db) : Prop := {
  q_writes : writes s' = writes s;
  q_codes : ∀ h c, codes s' !! h = Some c → codes s !! h = Some c;
  q_rows : ∀ h rt, refresh_tokens s' !! h = Some rt →
    ∃ rt0, refresh_tokens s !! h = Some rt0 ∧ same_row rt rt0 ∧ (is_live rt → is_live rt0);
  q_clients : ∀ id cl, clients s !! id = Some cl → clients s' !! id = Some cl;
  q_acceptable : ∀ id cl, clients s' !! id = Some cl → clients s !! id = Some cl ∨
    ∀ uri, uri ∈ redirect_uris cl → is_acceptable_redirect_uri uri = true;
  q_drawn : (drawn (api_tokens s) ≤ drawn (api_tokens s'))%nat;
  q_made : (made (api_tokens s) ≤ made (api_tokens s'))%nat;
  q_tokens : inv (prefix_visible_chars cfg) (api_tokens s) → inv (prefix_visible_chars cfg) (api_tokens s');
  q_access : (∀ id row, rows (api_tokens s) !! id = Some row → access_ok (writes s) row) →
    ∀ id row, rows (api_tokens s') !! id = Some row → access_ok (writes s) row;
}.

Lemma same_row_refl rt : same_row rt rt.
Proof. done. Qed.
Lemma same_row_trans r1 r2 r3 : same_row r1 r2 → same_row r2 r3 → same_row r1 r3.
Proof. intros [??] [??]. split; congruence. Qed.
Lemma made_of_mono n m id : (n ≤ m)%nat → made_of n id → made_of m id.
Proof. intros Hle (k & ? & ->). exists k. split; [lia|done]. Qed.
Lemma drawn_of_mono n m b : (n ≤ m)%nat → drawn_of n b → drawn_of m b.
Proof. intros Hle (k & ? & ->). exists k. split; [lia|done]. Qed.

Lemma quiet_store s s' : quiet s s' → store_ok s → store_ok s'.
Proof.
  intros [Hw Hc Hr Hcl Hacc Hd Hm Ht Ha] [? Hrow ? ? Hdig ? ? Hcons Hclient Hfam ? ? Hlive ? ?]. split; rewrite ?Hw; eauto.
  - intros h rt (rt0 & Hr0 & Hs & Hl)%Hr. destruct (Hrow h rt0 Hr0) as [(rt1 & ? & Hs1) ?].
    split; [|auto]. exists rt1. split; [done|]. by eapply same_row_trans.
  - intros h (b & Hb & ->)%Hdig. exists b. split; [by eapply drawn_of_mono|done].
  - intros h c Hin. destruct (Hcons h c Hin) as (? & cl & ? & ?). split; [done|]. exists cl. split; [by apply Hcl|done].
  - intros id cl [?|?]%Hacc; [by eapply Hclient|done].
  - intros h rt Hin. by eapply made_of_mono, Hfam.
  - intros h rt h' rt' (rt0 & Hr0 & [Hf _] & Hl)%Hr (rt1 & Hr1 & [Hf' _] & Hl')%Hr ?? Heq.
    eapply Hlive; [exact Hr0|exact Hr1|auto..|congruence].
Qed.

Lemma phase_ok_mono s s' p :
  (∀ w, w ∈ writes s → w ∈ writes s') → (∀ id cl, clients s !! id = Some cl → clients s' !! id = Some cl) →
  (made (api_tokens s) ≤ made (api_tokens s'))%nat → phase_ok s p → phase_ok s' p.
Proof.
  intros Hw Hcl Hm.
  assert (Hsrc : ∀ src family, source_ok (writes s) src family → source_ok (writes s') src family).
  { intros src family [(h & c & ? & ?) Hs]. split; [exists h, c; auto|]. destruct src as [h' c'|h' rt]; [auto|].
    destruct Hs as ([rt' ?] & (rt0 & ? & ?) & ?). split_and!; [exists rt'; auto|exists rt0; auto|done]. }
  destruct p as [|id cl|h c seen|h rt|src family|src family h|]; simpl; auto.
  - intros (rt0 & ? & ?). exists rt0. auto.
  - intros [? ?]. split; [auto|by eapply made_of_mono].
  - intros [? ?]. auto.
Qed.

Lemma quiet_threads s s' gs : quiet s s' → threads_ok s gs → threads_ok s' gs.
Proof.
  intros [Hw Hc Hr Hcl Hacc Hd Hm Ht Ha] [Hph Hissue Hsec ? ? ? ?]. split; rewrite ?Hw; eauto.
  - intros i req g Hg. apply (phase_ok_mono s); [by rewrite Hw|done..|by eapply Hph].
  - intros i req g src family Hg Hp. destruct (Hissue i req g src family Hg Hp) as [H1' H2'].
    split; rewrite ?Hw; [done|]. intros h rt (rt0 & Hr0 & [Hf _] & Hl)%Hr Heq Hlive.
    eapply H2'; [exact Hr0|congruence|auto].
  - intros i req g b Hg Hb. destruct (Hsec i req g b Hg Hb). split; [by eapply drawn_of_mono|done].
Qed.

Lemma quiet_SI s s' gs : quiet s s' → SI s gs → SI s' gs.
Proof. intros Hq [? ?]. split; [by eapply quiet_store|by eapply quiet_threads]. Qed.

Lemma quiet_refl s : quiet s s.
Proof. split; eauto using same_row_refl. Qed.

(** ** A handler's own step *)
Definition apart (gs : gmap nat (Request * ghost)) (i : nat) (P : ghost → Prop) : Prop :=
  ∀ j req g, j ≠ i → gs !! j = Some (req, g) → ¬ P g.

Lemma threads_update s gs i req g g' :
  threads_ok s gs → gs !! i = Some (req, g) → phase_ok s (ph g') →
  (∀ src family, ph g' = Holds src family → may_issue s src family ∧
     apart gs i (λ g'', ∃ src', ph g'' = Holds src' family)) →
  (∀ b, secret g' = Some b → (drawn_of (drawn (api_tokens s)) b ∧ ¬ written (digest b) (writes s)) ∧
     apart gs i (λ g'', secret g'' = Some b)) →
  (∀ cl, claim (ph g') = Some cl → apart gs i (λ g'', claim (ph g'') = Some cl)) →
  threads_ok s (<[i := (req, g')]> gs).
Proof.
  intros [Hph Hissue Hsec Hsecs Hclaims Hhold Hcons] Hg Hph' Hissue' Hsec' Hclaims'. split.
  - intros j req' g'' [[<- [= <- <-]]|[Hne Hj]]%lookup_insert_Some; [done|by eapply Hph].
  - intros j req' g'' src family [[<- [= <- <-]]|[Hne Hj]]%lookup_insert_Some; [by intros [? _]%Hissue'|by eapply Hissue].
  - intros j req' g'' b [[<- [= <- <-]]|[Hne Hj]]%lookup_insert_Some; [by intros [? _]%Hsec'|by eapply Hsec].
  - intros j k req1 req2 g1 g2 b [[<- [= <- <-]]|[Hne Hj]]%lookup_insert_Some [[<- [= <- <-]]|[Hne' Hk]]%lookup_insert_Some Hb1 Hb2;
      [done|..|by eapply Hsecs].
    + destruct (Hsec' b Hb1) as [_ Hap]. by destruct (Hap k req2 g2).
    + destruct (Hsec' b Hb2) as [_ Hap]. by destruct (Hap j req1 g1).
  - intros j k req1 req2 g1 g2 cl [[<- [= <- <-]]|[Hne Hj]]%lookup_insert_Some [[<- [= <- <-]]|[Hne' Hk]]%lookup_insert_Some Hb1 Hb2;
      [done|..|by eapply Hclaims].
    + by destruct (Hclaims' cl Hb1 k req2 g2).
    + by destruct (Hclaims' cl Hb2 j req1 g1).
  - intros j k req1 req2 g1 g2 src src' family [[<- [= <- <-]]|[Hne Hj]]%lookup_insert_Some
      [[<- [= <- <-]]|[Hne' Hk]]%lookup_insert_Some Hb1 Hb2; [done|..|by eapply Hhold].
    + destruct (Hissue' _ _ Hb1) as [_ Hap]. destruct (Hap k req2 g2); eauto.
    + destruct (Hissue' _ _ Hb2) as [_ Hap]. destruct (Hap j req1 g1); eauto.
  - intros h c (j & req' & g'' & Hj & ?)%Hcons. destruct (decide (i = j)) as [<-|Hne].
    + exists i, req, g'. rewrite lookup_insert_eq. split; [done|]. congruence.
    + exists j, req', g''. by rewrite lookup_insert_ne.
Qed.

Lemma apart_same s gs i req g : threads_ok s gs → gs !! i = Some (req, g) →
  (∀ b, secret g = Some b → (drawn_of (drawn (api_tokens s)) b ∧ ¬ written (digest b) (writes s)) ∧
     apart gs i (λ g'', secret g'' = Some b)) ∧
  (∀ cl, claim (ph g) = Some cl → apart gs i (λ g'', claim (ph g'') = Some cl)) ∧
  (∀ src family, ph g = Holds src family → may_issue s src family ∧
     apart gs i (λ g'', ∃ src', ph g'' = Holds src' family)).
Proof.
  intros Ht Hg. split_and!.
  - intros b Hb. split; [by eapply (to_secret s gs Ht)|]. intros j req' g' Hne Hj Hb'. by eapply Hne, (to_secrets s gs Ht).
  - intros cl Hc j req' g' Hne Hj Hc'. by eapply Hne, (to_claims s gs Ht).
  - intros src family Hp. split; [by eapply (to_issue s gs Ht)|]. intros j req' g' Hne Hj [src' Hp'].
    by eapply Hne, (to_holders s gs Ht).
Qed.

(** The phase changes, the secret in hand does not. *)
Lemma phase_update s gs i req g p :
  threads_ok s gs → gs !! i = Some (req, g) → phase_ok s p →
  (∀ src family, p = Holds src family → may_issue s src family ∧
     apart gs i (λ g'', ∃ src', ph g'' = Holds src' family)) →
  (∀ cl, claim p = Some cl → claim (ph g) = Some cl ∨ apart gs i (λ g'', claim (ph g'') = Some cl)) →
  threads_ok s (<[i := (req, in_phase p g)]> gs).
Proof.
  intros Ht Hg Hp Hissue Hclaims. destruct (apart_same s gs i req g Ht Hg) as (Hsec & Hcl & _).
  apply (threads_update s gs i req g); [done..|]. simpl. intros cl [?|?]%Hclaims; auto.
Qed.

(** The secret changes, the phase does not. *)
Lemma secret_update s gs i req g o :
  threads_ok s gs → gs !! i = Some (req, g) →
  (∀ b, o = Some b → (drawn_of (drawn (api_tokens s)) b ∧ ¬ written (digest b) (writes s)) ∧
     apart gs i (λ g'', secret g'' = Some b)) →
  threads_ok s (<[i := (req, {| ph := ph g; secret := o |})]> gs).
Proof.
  intros Ht Hg Hb. destruct (apart_same s gs i req g Ht Hg) as (_ & Hcl & Hissue).
  apply (threads_update s gs i req g); try done. exact (to_phase s gs Ht i req g Hg).
Qed.

(** ** The writes *)
Definition log_write (w : write) (s : Db) : Db := set_codes (codes s) [w] s.
Definition loggable (s : Db) (w : write) : Prop :=
  match w with
  | Redeemed h c => Consented h c ∈ writes s ∧ codes s !! h = None
  | Rotated h rt => issued_as (writes s) h rt ∧ ∀ rt', refresh_tokens s !! h = Some rt' → ¬ is_live rt'
  | _ => False
  end.

Lemma redeemed_grant_cons w l g : redeemed_grant l g → redeemed_grant (w :: l) g.
Proof. intros (h & c & ? & ?). exists h, c. split; [by right|done]. Qed.
Lemma issued_as_cons w l h rt : issued_as l h rt → issued_as (w :: l) h rt.
Proof. intros (rt0 & ? & ?). exists rt0. split; [by right|done]. Qed.
Lemma access_ok_cons w l row : access_ok l row → access_ok (w :: l) row.
Proof. intros Ha cl Hcl. destruct (Ha cl Hcl) as (g & ? & ?). exists g. split; [by apply redeemed_grant_cons|done]. Qed.
Lemma phase_ok_cons w c r s p :
  phase_ok s p → phase_ok {| clients := clients s; codes := c; refresh_tokens := r; api_tokens := api_tokens s;
    members := members s; org_names := org_names s; now := now s; writes := w :: writes s |} p.
Proof. apply phase_ok_mono; simpl; [|done..]. intros w' ?. by right. Qed.

Section Log.
Context (s : Db) (gs : gmap nat (Request * ghost)) (w : write) (Hlog : loggable s w).

Lemma in_log w' : w' ∈ writes (log_write w s) ↔ w' = w ∨ w' ∈ writes s.
Proof. apply elem_of_cons. Qed.
Lemma in_log_old w' : w' ∈ writes s → w' ∈ writes (log_write w s).
Proof. rewrite in_log. by right. Qed.
Lemma consented_log h c : Consented h c ∈ writes (log_write w s) → Consented h c ∈ writes s.
Proof. intros [<-|?]%in_log; [destruct Hlog|done]. Qed.
Lemma issued_log h rt : Issued h rt ∈ writes (log_write w s) → Issued h rt ∈ writes s.
Proof. intros [<-|?]%in_log; [destruct Hlog|done]. Qed.
Lemma written_log h : written h (writes (log_write w s)) → written h (writes s).
Proof. intros [[c ?%consented_log]|[rt ?%issued_log]]; [left|right]; eauto. Qed.

Lemma log_store : store_ok s → store_ok (log_write w s).
Proof.
  intros [Hcode Hrow Hred Hrot Hdig Hc1 Hi1 Hcs Hcl Hfam Hor Hsg Hlive Htok Hacc]. split; try done.
  - intros h c Hh. change (codes s !! h = Some c) in Hh.
    destruct (Hcode h c Hh) as [? Hn]. split; [by apply in_log_old|].
    intros c' [<-|?]%in_log; [destruct Hlog; congruence|by eapply Hn].
  - intros h rt Hr. destruct (Hrow h rt Hr) as [? Hn]. split; [by apply issued_as_cons|].
    intros Hl rt' [<-|?]%in_log; [by destruct Hlog as [_ Hdead]; eapply Hdead|by eapply Hn].
  - intros h c Hin. apply in_log_old. apply in_log in Hin as [<-|?]; [by destruct Hlog|auto].
  - intros h rt Hin. apply issued_as_cons. apply in_log in Hin as [<-|?]; [by destruct Hlog|auto].
  - intros h Hh%written_log. auto.
  - intros h c c' ?%consented_log ?%consented_log. eauto.
  - intros h rt rt' ?%issued_log ?%issued_log. eauto.
  - intros h c Hin%consented_log. exact (Hcs h c Hin).
  - intros h rt ?%issued_log. by eapply Hfam.
  - intros h rt ?%issued_log. by eapply redeemed_grant_cons, Hor.
  - intros h rt h' rt' ?%issued_log ?%issued_log. eauto.
  - intros id row Hr. by eapply access_ok_cons, Hacc.
Qed.

Lemma log_threads : threads_ok s gs → threads_ok (log_write w s) gs.
Proof.
  intros [Hph Hissue Hsec ? ? ? Hcns]. split; try done.
  - intros i req g Hg. by eapply phase_ok_cons, Hph.
  - intros i req g src family Hg Hp. destruct (Hissue i req g src family Hg Hp) as [Ha Hb]. split; [|done].
    intros h rt ?%issued_log. by eapply Ha.
  - intros i req g b Hg Hb. destruct (Hsec i req g b Hg Hb) as [? Hn]. split; [done|]. by intros ?%written_log.
  - intros h c ?%consented_log. by eapply Hcns.
Qed.
End Log.

Lemma log_SI s gs w : loggable s w → SI s gs → SI (log_write w s) gs.
Proof. intros Hl [? ?]. split; [by apply log_store|by apply log_threads]. Qed.

Lemma written_redeemed s h c : store_ok s → Redeemed h c ∈ writes s → written h (writes s).
Proof. intros Hst Hin. left. exists c. by apply (so_redeemed s Hst). Qed.
Lemma written_rotated s h rt : store_ok s → Rotated h rt ∈ writes s → written h (writes s).
Proof. intros Hst Hin. destruct (so_rotated s Hst h rt Hin) as (rt0 & ? & _). right. by exists rt0. Qed.
Lemma written_row s h rt : store_ok s → refresh_tokens s !! h = Some rt → written h (writes s).
Proof. intros Hst Hin. destruct (so_row s Hst h rt Hin) as [(rt0 & ? & _) _]. right. by exists rt0. Qed.

(** The digests of the secrets drawn do not collide. *)
Context (digest_inj : ∀ n m, digest (fill_bytes n) = digest (fill_bytes m) → n = m).

(** A secret in hand: drawn, not written anywhere, in nobody else's hands. *)
Definition in_hand (s : Db) (gs : gmap nat (Request * ghost)) (bytes : string) : Prop :=
  drawn_of (drawn (api_tokens s)) bytes ∧ ¬ written (digest bytes) (writes s) ∧
  ∀ j req g, gs !! j = Some (req, g) → secret g ≠ Some bytes.

Lemma other_digest s gs bytes j req g b :
  threads_ok s gs → in_hand s gs bytes → gs !! j = Some (req, g) → secret g = Some b → digest b ≠ digest bytes.
Proof.
  intros Hth ((n & _ & ->) & _ & Hne) Hg Hb Heq. destruct (to_secret s gs Hth j req g b Hg Hb) as [(m & _ & ->) _].
  apply digest_inj in Heq as ->. by destruct (Hne j req g Hg).
Qed.

Lemma consent_SI s gs i req g c cl bytes :
  SI s gs → gs !! i = Some (req, g) → in_hand s gs bytes → approves cfg req c → lifetimes c →
  clients s !! AuthCode.client_id c = Some cl → registered (AuthCode.redirect_uri c) cl = true →
  SI (set_codes (<[digest bytes := c]> (codes s)) [Consented (digest bytes) c] s) gs.
Proof.
  intros [Hst Hth] Hg Hhand Happ Hlife Hcl Hreg. pose proof Hhand as (Hdrawn & Hfresh & _).
  assert (Hin : ∀ w', w' ∈ Consented (digest bytes) c :: writes s ↔ w' = Consented (digest bytes) c ∨ w' ∈ writes s)
    by (intros; apply elem_of_cons).
  split.
  - pose proof (λ h c, written_redeemed s h c Hst) as Hwr.
    destruct Hst as [Hcode Hrow Hred Hrot Hdig Hc1 Hi1 Hcs Hclient Hfam Hor Hsg Hlive Htok Hacc]. split; try done.
    + simpl. intros h c' [[<- <-]|[Hne Hh]]%lookup_insert_Some.
      * split; [by left|]. intros c' [?|Hr]%Hin; [done|]. by eapply Hfresh, Hwr.
      * destruct (Hcode h c' Hh) as [? Hn]. split; [by right|]. intros c'' [?|?]%Hin; [done|by eapply Hn].
    + intros h rt Hr. destruct (Hrow h rt Hr) as [? Hn]. split; [by apply issued_as_cons|].
      intros Hl rt' [?|?]%Hin; [done|by eapply Hn].
    + intros h c' [?|?]%Hin; [done|]. right. auto.
    + intros h rt [?|?]%Hin; [done|]. apply issued_as_cons. auto.
    + intros h [[c' [[= -> _]|?]%Hin]|[rt [?|?]%Hin]]; [by exists bytes| |done|]; apply Hdig; [left|right]; eauto.
    + intros h c1 c2 [E1|Hin1]%Hin [E2|Hin2]%Hin; simplify_eq; [done|..|by eapply Hc1];
        destruct Hfresh; left; eauto.
    + intros h rt rt' [?|?]%Hin [?|?]%Hin; try done. eauto.
    + intros h c' [[= -> ->]|Hc']%Hin; [split; [done|by exists cl]|exact (Hcs h c' Hc')].
    + intros h rt [?|?]%Hin; [done|]. by eapply Hfam.
    + intros h rt [?|?]%Hin; [done|]. by eapply redeemed_grant_cons, Hor.
    + intros h rt h' rt' [?|?]%Hin [?|?]%Hin; try done. eauto.
    + intros id row Hr. by eapply access_ok_cons, Hacc.
  - pose proof (other_digest s gs bytes) as Hother. pose proof Hth as [Hph Hissue Hsec ? ? ? Hcns]. split; try done.
    + intros j req' g' Hj. by eapply phase_ok_cons, Hph.
    + intros j req' g' src family Hj Hp. destruct (Hissue j req' g' src family Hj Hp) as [Ha Hb]. split; [|done].
      intros h rt [?|?]%Hin; [done|]. by eapply Ha.
    + intros j req' g' b Hj Hb. destruct (Hsec j req' g' b Hj Hb) as [? Hn]. split; [done|].
      intros [[c' [[= Heq _]|?]%Hin]|[rt [?|?]%Hin]]; [|apply Hn; left; eauto|done|apply Hn; right; eauto].
      by eapply (Hother j req' g' b).
    + intros h c' [[= -> ->]|Hc']%Hin; [by exists i, req, g|by eapply Hcns].
Qed.

Lemma issue_SI s gs rt bytes :
  SI s gs → in_hand s gs bytes → is_live rt → redeemed_grant (writes s) (grant_of_row rt) →
  made_of (made (api_tokens s)) (RefreshToken.family_id rt) →
  (∀ h rt', Issued h rt' ∈ writes s → RefreshToken.family_id rt' = RefreshToken.family_id rt →
     grant_of_row rt' = grant_of_row rt) →
  (∀ h rt', refresh_tokens s !! h = Some rt' → RefreshToken.family_id rt' = RefreshToken.family_id rt → ¬ is_live rt') →
  (∀ j req g src, gs !! j = Some (req, g) → ph g ≠ Holds src (RefreshToken.family_id rt)) →
  SI (set_refresh (<[digest bytes := rt]> (refresh_tokens s)) [Issued (digest bytes) rt] s) gs.
Proof.
  intros [Hst Hth] Hhand Hlive0 Hgrant Hmade Hsame Hnone Hholders. pose proof Hhand as (Hdrawn & Hfresh & _).
  assert (Hin : ∀ w', w' ∈ Issued (digest bytes) rt :: writes s ↔ w' = Issued (digest bytes) rt ∨ w' ∈ writes s)
    by (intros; apply elem_of_cons).
  split.
  - pose proof (λ h c, written_rotated s h c Hst) as Hwr.
    destruct Hst as [Hcode Hrow Hred Hrot Hdig Hc1 Hi1 Hcs Hclient Hfam Hor Hsg Hlive Htok Hacc]. split; try done.
    + intros h c Hh. destruct (Hcode h c Hh) as [? Hn]. split; [by right|]. intros c' [?|?]%Hin; [done|by eapply Hn].
    + simpl. intros h rt' [[<- <-]|[Hne Hr]]%lookup_insert_Some.
      * split; [by exists rt; split; [left|]|]. intros _ rt' [?|?%Hwr]%Hin; done.
      * destruct (Hrow h rt' Hr) as [? Hn]. split; [by apply issued_as_cons|].
        intros Hl rt'' [?|?]%Hin; [done|by eapply Hn].
    + intros h c [?|?]%Hin; [done|]. right. auto.
    + intros h rt' [?|?]%Hin; [done|]. apply issued_as_cons. auto.
    + intros h [[c' [?|?]%Hin]|[rt' [[= -> _]|?]%Hin]]; [done| |by exists bytes|]; apply Hdig; [left|right]; eauto.
    + intros h c1 c2 [?|?]%Hin [?|?]%Hin; try done. eauto.
    + intros h r1 r2 [E1|Hin1]%Hin [E2|Hin2]%Hin; simplify_eq; [done|..|by eapply Hi1];
        destruct Hfresh; right; eauto.
    + intros h c' [?|Hc']%Hin; [done|exact (Hcs h c' Hc')].
    + intros h rt' [[= _ ->]|?]%Hin; [done|]. by eapply Hfam.
    + intros h rt' [[= _ ->]|?]%Hin; apply redeemed_grant_cons; [done|by eapply Hor].
    + intros h rt1 h' rt2 [[= _ ->]|?]%Hin [[= _ ->]|?]%Hin Heq; [done|symmetry|..|by eapply Hsg];
        (eapply Hsame; [done|congruence]).
    + simpl. intros h rt1 h' rt2 [[<- <-]|[? Hr1]]%lookup_insert_Some [[<- <-]|[? Hr2]]%lookup_insert_Some Hl1 Hl2 Heq;
        [done|..|by eapply Hlive]; exfalso; by eapply Hnone.
    + intros id row Hr. by eapply access_ok_cons, Hacc.
  - pose proof (other_digest s gs bytes) as Hother. pose proof Hth as [Hph Hissue Hsec ? ? ? Hcns]. split; try done.
    + intros j req' g' Hj. by eapply phase_ok_cons, Hph.
    + intros j req' g' src family Hj Hp. destruct (Hissue j req' g' src family Hj Hp) as [Ha Hb].
      assert (RefreshToken.family_id rt ≠ family) as Hne by (intros <-; by eapply Hholders).
      split.
      * intros h rt' [[= _ ->]|?]%Hin Heq; [congruence|by eapply Ha].
      * simpl. intros h rt' [[_ <-]|[_ Hr]]%lookup_insert_Some; [by intros|by eapply Hb].
    + intros j req' g' b Hj Hb. destruct (Hsec j req' g' b Hj Hb) as [? Hn]. split; [done|].
      intros [[c' [?|?]%Hin]|[rt' [[= Heq _]|?]%Hin]]; [done|apply Hn; left; eauto| |apply Hn; right; eauto].
      by eapply (Hother j req' g' b).
    + intros h c' [?|Hc']%Hin; [done|by eapply Hcns].
Qed.

(** ** Every step keeps it *)
Lemma SI_start s gs i req : SI s gs → gs !! i = None → SI s (<[i := (req, start)]> gs).
Proof.
  intros [Hst Hth] Hi. split; [done|]. destruct Hth as [Hph Hissue Hsec Hsecs Hclaims Hhold Hcons]. split.
  - intros j req' g [[<- [= <- <-]]|[Hne Hj]]%lookup_insert_Some; [done|by eapply Hph].
  - intros j req' g src family [[<- [= <- <-]]|[Hne Hj]]%lookup_insert_Some; [done|by eapply Hissue].
  - intros j req' g b [[<- [= <- <-]]|[Hne Hj]]%lookup_insert_Some; [done|by eapply Hsec].
  - intros j k ?? g1 g2 b [[<- [= <- <-]]|[Hne Hj]]%lookup_insert_Some [[<- [= <- <-]]|[Hne' Hk]]%lookup_insert_Some;
      try done. by eapply Hsecs.
  - intros j k ?? g1 g2 b [[<- [= <- <-]]|[Hne Hj]]%lookup_insert_Some [[<- [= <- <-]]|[Hne' Hk]]%lookup_insert_Some;
      try done. by eapply Hclaims.
  - intros j k ?? g1 g2 src src' family [[<- [= <- <-]]|[Hne Hj]]%lookup_insert_Some
      [[<- [= <- <-]]|[Hne' Hk]]%lookup_insert_Some; try done. by eapply Hhold.
  - intros h c (j & req' & g' & Hj & ?)%Hcons. exists j, req', g'. rewrite lookup_insert_ne; [done|]. congruence.
Qed.

Lemma SI_empty at_ : SI (empty_db at_) ∅.
Proof.
  split; split; simpl; intros; rewrite ?lookup_empty in *; try done;
    try (by match goal with E : _ ∈ [] |- _ => apply not_elem_of_nil in E end).
  - match goal with E : written _ _ |- _ => by destruct E as [[? ?%not_elem_of_nil]|[? ?%not_elem_of_nil]] end.
Qed.

(** *** What happens outside *)
Lemma tokens_quiet s t :
  (drawn (api_tokens s) ≤ drawn t)%nat → (made (api_tokens s) ≤ made t)%nat →
  (inv (prefix_visible_chars cfg) (api_tokens s) → inv (prefix_visible_chars cfg) t) →
  (∀ id row, rows t !! id = Some row → access_ok (writes s) row ∨
     ∃ row0, rows (api_tokens s) !! id = Some row0 ∧ kept row row0) →
  quiet s (set_tokens t s).
Proof.
  intros Hd Hm Hi Ha. split; simpl; eauto using same_row_refl.
  intros Hold id row [?|(row0 & Hr0 & Hk)]%Ha; [done|].
  destruct Hk as (_ & _ & Hu & Ho & Hc & Haud & _ & Hs). intros cl Hcl. rewrite Hc in Hcl.
  destruct (Hold id row0 Hr0 cl Hcl) as (g & Hg & ?). exists g. split; [done|]. by rewrite Hu, Ho, Haud, Hs.
Qed.

Lemma shrinks_quiet s t : shrinks (api_tokens s) t → quiet s (set_tokens t s).
Proof.
  intros Hsh. pose proof Hsh as (Hd & Hm & Hrows). apply tokens_quiet; [done..| |].
  - intros Hi. by eapply shrinks_inv.
  - intros id row Hr. right. by apply Hrows.
Qed.

Context `{!EnvironmentLaws} `{!RandomLaws} `{!Argon2Laws} `{!PrimitivesLaws}.

(** One more row of tokens, granted with a redeemed code or to no connector. *)
Lemma grows_quiet s s1 c row t :
  inv (prefix_visible_chars cfg) (api_tokens s) → shrinks (api_tokens s) s1 →
  grows (prefix_visible_chars cfg) s1 c row t → access_ok (writes s) row →
  inv (prefix_visible_chars cfg) t → quiet s (set_tokens t s).
Proof.
  intros Hinv (Hd & Hm & Hold) (Hrows & _ & (k & Hk & _) & (n & Hn & _)) Hacc Ht. apply tokens_quiet; [lia|lia|done|].
  intros id r. rewrite Hrows. intros [[_ <-]|[_ Hr]]%lookup_insert_Some; [by left|right]. by apply Hold.
Qed.

Lemma create_quiet s user nm sc org expires max_tokens :
  store_ok s →
  quiet s (set_tokens (ApiTokens.apply (prefix_visible_chars cfg) (now s)
    (Create user nm sc org expires max_tokens) (api_tokens s)) s).
Proof.
  intros Hst. pose proof (so_tokens s Hst) as Hinv.
  pose proof (apply_inv _ (now s) (Create user nm sc org expires max_tokens) _ Hinv) as Hinv'. simpl in *.
  pose proof (create_outcome _ (now s) user nm sc org expires max_tokens _ Hinv) as Hout.
  destruct (create _ _ _ _ _ _ _ _ _) as [[c|e] t]; simpl in *; [|apply shrinks_quiet, Hout].
  destruct Hout as (_ & row & Hg & _ & _ & _ & _ & _ & Hclient).
  refine (grows_quiet s (api_tokens s) c row t Hinv (shrinks_refl _) Hg _ Hinv'). intros cl Hcl. congruence.
Qed.

Lemma mint_quiet s user' org' nm sc expires aud cl :
  store_ok s →
  (∃ g, redeemed_grant (writes s) g ∧ cl = client g ∧ user' = user g ∧ org' = org g ∧ aud = granted_resource g ∧
     sc = from_strs (split_whitespace (granted_scope g))) →
  quiet s (set_tokens (mint_oauth (prefix_visible_chars cfg) (now s) user' org' nm sc expires aud cl (api_tokens s)).2 s).
Proof.
  intros Hst (g & Hg & -> & -> & -> & -> & ->). pose proof (so_tokens s Hst) as Hinv.
  pose proof (apply_inv _ (now s) (Mint (user g) (org g) nm (from_strs (split_whitespace (granted_scope g))) expires
    (granted_resource g) (client g)) _ Hinv) as Hinv'. simpl in *.
  pose proof (mint_outcome _ (now s) (user g) (org g) nm (from_strs (split_whitespace (granted_scope g))) expires
    (granted_resource g) (client g) _ Hinv) as Hout.
  destruct (mint_oauth _ _ _ _ _ _ _ _ _ _) as [[c|e] t]; simpl in *; [|apply shrinks_quiet, Hout].
  destruct Hout as (row & Hgrow & Hu & Hsc & Ho & _ & Ha & Hcl).
  refine (grows_quiet s _ c row t Hinv (revoke_shrinks _ _ _ _ _) Hgrow _ Hinv').
  intros cl' Hcl'. exists g. split; [done|]. split_and!; congruence.
Qed.

Lemma filter_quiet s fc fr :
  (∀ m : gmap string AuthCode.t, fc m ⊆ m) → (∀ m : gmap string RefreshToken.t, fr m ⊆ m) →
  quiet s (set_refresh (fr (refresh_tokens s)) [] (set_codes (fc (codes s)) [] s)).
Proof.
  intros Hc Hr. split; simpl; eauto.
  - intros h c Hh. by eapply lookup_weaken, Hc.
  - intros h rt Hh. exists rt. split_and!; [by eapply lookup_weaken, Hr|apply same_row_refl|done].
Qed.

Lemma quiet_trans s1 s2 s3 : quiet s1 s2 → quiet s2 s3 → quiet s1 s3.
Proof.
  intros [Hw Hc Hr Hcl Ha Hd Hm Ht Hacc] [Hw' Hc' Hr' Hcl' Ha' Hd' Hm' Ht' Hacc'].
  split; [congruence|auto| |auto| |lia|lia|auto|].
  - intros h rt (rt0 & (rt1 & Hr1 & Hs1 & Hl1)%Hr & Hs0 & Hl0)%Hr'. exists rt1.
    split_and!; [done|by eapply same_row_trans|auto].
  - intros id cl [Hin|?]%Ha'; [by apply Ha|by right].
  - intros Hold. rewrite Hw in Hacc'. exact (Hacc' (Hacc Hold)).
Qed.

Lemma outside_quiet s e : store_ok s → quiet s (outside cfg e s).
Proof.
  intros Hst. destruct e as [d| |m|m|c|gone]; simpl; [by split; simpl; eauto using same_row_refl| | | | |].
  - refine (filter_quiet s (filter _) (filter _) _ _); intros m; apply map_filter_subseteq.
  - by split; simpl; eauto using same_row_refl.
  - by split; simpl; eauto using same_row_refl.
  - destruct c as [user nm sc org expires max_tokens|? ? ? ? ? ? ?|? ? ? ?|user id nm|user id|cached id]; simpl;
      [by apply create_quiet|apply quiet_refl|..]; apply shrinks_quiet;
      [apply revoke_shrinks|apply rename_shrinks|apply delete_shrinks|apply touch_shrinks].
  - refine (quiet_trans _ _ _ (filter_quiet s
      (filter (λ kv, gone (AuthCode.user_id kv.2) (AuthCode.org_id kv.2) = false))
      (filter (λ kv, gone (RefreshToken.user_id kv.2) (RefreshToken.org_id kv.2) = false)) _ _) _);
      [intros m; apply map_filter_subseteq..|].
    refine (shrinks_quiet _ _ _). refine (submap_shrinks _ _ _). intros m. apply map_filter_subseteq.
Qed.

(** *** What a call does *)
Lemma database_quiet {A} out (m : Db → result A * Db) s : quiet s (m s).2 → quiet s (database out m s).2.
Proof. intros Hm. destruct out; simpl; [done|apply quiet_refl|done]. Qed.

Lemma query_quiet {A} out (f : Db → A) s : quiet s (database out (query f) s).2.
Proof. apply database_quiet, quiet_refl. Qed.

(** A failed call answers an error; a good answer means the call was applied. *)
Lemma database_ok {A} out (m : Db → result A * Db) s a :
  (database out m s).1 = Ok a → (m s).1 = Ok a ∧ (database out m s).2 = (m s).2.
Proof. by destruct out. Qed.

(** A call that is applied or not: what holds after each holds after the call. *)
Lemma database_SI {A} out (m : Db → result A * Db) s gs :
  SI s gs → SI (m s).2 gs → SI (database out m s).2 gs.
Proof. by destruct out. Qed.

Definition quiet_op {T} (o : op T) : bool :=
  match o with
  | InsertCode _ _ | ConsumeCode _ | MarkRefreshUsed _ | InsertRefreshToken _ _ => false
  | _ => true
  end.

Lemma exec_quiet s gs i req g out T (o : op T) :
  SI s gs → gs !! i = Some (req, g) → allowed cfg req g T o → quiet_op o = true → quiet s (exec cfg out T o s).2.
Proof.
  intros [Hst Hth] Hg Hall Ho. destruct o; try done; simpl; try apply query_quiet.
  - apply database_quiet. unfold insert_client. destruct (clients s !! client_id) as [cl|] eqn:Hcl; [apply quiet_refl|].
    split; simpl; eauto using same_row_refl.
    + intros id cl Hid. rewrite lookup_insert_ne; [done|]. congruence.
    + intros id cl [[<- <-]|[_ ?]]%lookup_insert_Some; [by right|by left].
  - apply database_quiet. refine (quiet_trans _ _ _ (filter_quiet s (λ m, m)
      (filter (λ kv, RefreshToken.family_id kv.2 ≠ family)) _ _) _);
      [done|intros m; apply map_filter_subseteq|]. by split; simpl; eauto using same_row_refl.
  - destruct Hall as (src & fam & Hp & -> & -> & -> & -> & ->). apply database_quiet.
    pose proof (to_phase s gs Hth i req g Hg) as Hph. rewrite Hp in Hph. destruct Hph as [[Hgrant _] _].
    pose proof (mint_quiet s (user (grant_of src)) (org (grant_of src)) name
      (from_strs (split_whitespace (granted_scope (grant_of src)))) expires_at
      (granted_resource (grant_of src)) (client (grant_of src)) Hst) as Hq.
    destruct (mint_oauth _ _ _ _ _ _ _ _ _ _) as [r t]. apply Hq. exists (grant_of src). by split_and!.
  - apply database_quiet, shrinks_quiet, revoke_shrinks.
  - apply quiet_refl.
  - apply shrinks_quiet, same_rows_shrinks; simpl; lia || done.
  - apply shrinks_quiet, same_rows_shrinks; simpl; lia || done.
Qed.

Lemma insert_same (gs : gmap nat (Request * ghost)) i x : gs !! i = Some x → <[i := x]> gs = gs.
Proof. intros Hg. by apply insert_id. Qed.

(** A handler that has learnt something, and claims nothing new. *)
Lemma learn_SI s gs i req g p :
  SI s gs → gs !! i = Some (req, g) → phase_ok s p → (∀ src family, p ≠ Holds src family) →
  (∀ cl, claim p = Some cl → claim (ph g) = Some cl) → SI s (<[i := (req, in_phase p g)]> gs).
Proof.
  intros [Hst Hth] Hg Hp Hh Hc. split; [done|]. apply phase_update; [done..| |].
  - intros src family Heq. by destruct (Hh src family).
  - intros cl Hcl. left. auto.
Qed.

Lemma keep_get_client s gs i req g out id :
  SI s gs → gs !! i = Some (req, g) → allowed cfg req g _ (GetClient id) →
  SI (exec cfg out _ (GetClient id) s).2 (<[i := (req, after g _ (GetClient id) (exec cfg out _ (GetClient id) s).1)]> gs).
Proof.
  intros HSI Hg Hall. pose proof (quiet_SI _ _ _ (exec_quiet s gs i req g out _ (GetClient id) HSI Hg Hall eq_refl) HSI) as HSI'.
  simpl in *. destruct (database out (query (get_client id)) s).1 as [[c|]|] eqn:Hr; [|by rewrite insert_same..].
  apply learn_SI; [done..| |done|done].
  destruct out; simpl in *; by simplify_eq.
Qed.

Lemma keep_get_refresh s gs i req g out h :
  SI s gs → gs !! i = Some (req, g) → allowed cfg req g _ (GetRefreshToken h) →
  SI (exec cfg out _ (GetRefreshToken h) s).2
    (<[i := (req, after g _ (GetRefreshToken h) (exec cfg out _ (GetRefreshToken h) s).1)]> gs).
Proof.
  intros HSI Hg Hall. pose proof (quiet_SI _ _ _ (exec_quiet s gs i req g out _ (GetRefreshToken h) HSI Hg Hall eq_refl) HSI) as HSI'.
  simpl in *. destruct (database out (query (get_refresh_token h)) s).1 as [[c|]|] eqn:Hr; [|by rewrite insert_same..].
  apply learn_SI; [done..| |done|done].
  destruct out; simpl in *; simplify_eq. by destruct (so_row s (proj1 HSI) h c Hr).
Qed.

Lemma keep_now s gs i req g out :
  SI s gs → gs !! i = Some (req, g) →
  SI (exec cfg out _ UtcNow s).2 (<[i := (req, after g _ UtcNow (exec cfg out _ UtcNow s).1)]> gs).
Proof.
  intros HSI Hg. simpl. pose proof (to_phase s gs (proj2 HSI) i req g Hg) as Hph.
  destruct (ph g) as [| |h c seen| | | |] eqn:Hp; try (by rewrite insert_same).
  apply learn_SI; [done..| |done|]; simpl; [done|]. rewrite Hp. by intros ? [= <-].
Qed.

Lemma keep_fill s gs i req g out :
  SI s gs → gs !! i = Some (req, g) →
  SI (exec cfg out _ FillBytes s).2 (<[i := (req, after g _ FillBytes (exec cfg out _ FillBytes s).1)]> gs).
Proof.
  intros HSI Hg. pose proof (quiet_SI _ _ _ (exec_quiet s gs i req g out _ FillBytes HSI Hg I eq_refl) HSI) as [Hst' Hth'].
  split; [done|]. simpl in *. apply secret_update; [done..|]. intros b [= <-]. destruct HSI as [Hst Hth]. split_and!.
  - exists (drawn (api_tokens s)). simpl. split; [lia|done].
  - simpl. intros Hw. destruct (so_digest s Hst _ Hw) as (b & (n & Hn & ->) & Heq). apply digest_inj in Heq. lia.
  - intros j req' g' _ Hj Hb. destruct (to_secret s gs Hth j req' g' _ Hj Hb) as [(n & Hn & Heq) _].
    apply fill_bytes_inj in Heq. lia.
Qed.

Lemma keep_family s gs i req g out :
  SI s gs → gs !! i = Some (req, g) → allowed cfg req g _ NowV7 →
  SI (exec cfg out _ NowV7 s).2 (<[i := (req, after g _ NowV7 (exec cfg out _ NowV7 s).1)]> gs).
Proof.
  intros HSI Hg Hall. pose proof (quiet_SI _ _ _ (exec_quiet s gs i req g out _ NowV7 HSI Hg Hall eq_refl) HSI) as [Hst' Hth'].
  split; [done|]. simpl in *. destruct Hall as (r & h & c & t & _ & Hp & _). rewrite Hp.
  pose proof (to_phase s gs (proj2 HSI) i req g Hg) as Hph. rewrite Hp in Hph. simpl in Hph.
  destruct HSI as [Hst Hth].
  assert (Hnew : ¬ made_of (made (api_tokens s)) (fresh (made (api_tokens s)))).
  { intros (k & Hk & Heq%fresh_inj). lia. }
  apply phase_update; [done..| | |].
  - simpl. split; [split; [by exists h, c|done]|]. exists (made (api_tokens s)). simpl. split; [lia|done].
  - intros src family [= <- <-]. split; [split|].
    + simpl. intros h' rt Hin Hfam. destruct Hnew. rewrite <-Hfam. by eapply (so_family s Hst).
    + simpl. intros h' rt Hr Hfam. destruct Hnew. destruct (so_row s Hst h' rt Hr) as [(rt0 & Hin & [Hf _]) _].
      rewrite <-Hfam, Hf. by eapply (so_family s Hst).
    + intros j req' g' _ Hj [src' Hp']. pose proof (to_phase s gs Hth j req' g' Hj) as Hph'. rewrite Hp' in Hph'.
      by destruct Hph'.
  - simpl. intros cl [= <-]. left. by rewrite Hp.
Qed.

Lemma keep_insert_client s gs i req g out id name uris :
  SI s gs → gs !! i = Some (req, g) → allowed cfg req g _ (InsertClient id name uris) →
  SI (exec cfg out _ (InsertClient id name uris) s).2
    (<[i := (req, after g _ (InsertClient id name uris) (exec cfg out _ (InsertClient id name uris) s).1)]> gs).
Proof.
  intros HSI Hg Hall.
  pose proof (quiet_SI _ _ _ (exec_quiet s gs i req g out _ (InsertClient id name uris) HSI Hg Hall eq_refl) HSI) as [Hst' Hth'].
  split; [done|]. by apply secret_update.
Qed.

Lemma rows_quiet s rows : 
  (∀ h rt, rows !! h = Some rt →
    ∃ rt0, refresh_tokens s !! h = Some rt0 ∧ same_row rt rt0 ∧ (is_live rt → is_live rt0)) →
  quiet s (set_refresh rows [] s).
Proof. intros Hr. split; simpl; eauto. Qed.

Lemma keep_consume s gs i req g out h :
  SI s gs → gs !! i = Some (req, g) → allowed cfg req g _ (ConsumeCode h) →
  SI (exec cfg out _ (ConsumeCode h) s).2 (<[i := (req, after g _ (ConsumeCode h) (exec cfg out _ (ConsumeCode h) s).1)]> gs).
Proof.
  intros HSI Hg [Hidle _]. simpl. pose proof HSI as [Hst Hth].
  destruct (codes s !! h) as [c|] eqn:Hc.
  2:{ assert (Hup : update (consume_code h) s = (Ok None, s)) by (unfold update, consume_code; by rewrite Hc).
      destruct out; simpl; rewrite ?Hup; simpl; by rewrite insert_same. }
  assert (Hup : update (consume_code h) s = (Ok (Some c), set_codes (delete h (codes s)) [Redeemed h c] s)).
  { unfold update, consume_code. by rewrite Hc. }
  destruct (so_code s Hst h c Hc) as [Hcons Hnot].
  assert (Hafter : SI (set_codes (delete h (codes s)) [Redeemed h c] s) gs).
  { change (SI (log_write (Redeemed h c) (set_codes (delete h (codes s)) [] s)) gs). apply log_SI.
    - split; [done|]. simpl. apply lookup_delete_eq.
    - eapply quiet_SI; [|done]. refine (quiet_trans _ _ _ (filter_quiet s (delete h) (λ m, m) _ _) _);
        [intros m; apply delete_subseteq|done|]. by split; simpl; eauto using same_row_refl. }
  destruct out; simpl; rewrite ?Hup; simpl; [|by rewrite insert_same..].
  split; [apply Hafter|]. apply phase_update; [apply Hafter|done|by left|done|].
  intros cl [= <-]. right. intros j req' g' Hne Hj Hcl.
  pose proof (to_phase s gs Hth j req' g' Hj) as Hph.
  destruct (ph g') as [| |h' c' ?| |[h' c'|h' rt] ?|[h' c'|h' rt] ? ?|]; simpl in *; simplify_eq; by eapply Hnot, Hph.
Qed.

Lemma keep_mark s gs i req g out h :
  SI s gs → gs !! i = Some (req, g) → allowed cfg req g _ (MarkRefreshUsed h) →
  SI (exec cfg out _ (MarkRefreshUsed h) s).2
    (<[i := (req, after g _ (MarkRefreshUsed h) (exec cfg out _ (MarkRefreshUsed h) s).1)]> gs).
Proof.
  intros HSI Hg (r & rt & _ & Hsaw & _). simpl. rewrite Hsaw. pose proof HSI as [Hst Hth].
  destruct (refresh_tokens s !! h) as [cur|] eqn:Hr.
  2:{ assert (Hup : update (mark_refresh_used h) s = (Ok false, s)) by (unfold update, mark_refresh_used; by rewrite Hr).
      destruct out; simpl; rewrite ?Hup; simpl; by rewrite insert_same. }
  destruct (is_none (RefreshToken.used_at cur)) eqn:Hnone.
  2:{ assert (Hup : update (mark_refresh_used h) s = (Ok false, s)).
      { unfold update, mark_refresh_used. by rewrite Hr, Hnone. }
      destruct out; simpl; rewrite ?Hup; simpl; by rewrite insert_same. }
  assert (Hlive : is_live cur) by (unfold is_live; by destruct (RefreshToken.used_at cur)).
  set (rows := <[h := RefreshToken.mark_used (now s) cur]> (refresh_tokens s)).
  assert (Hup : update (mark_refresh_used h) s = (Ok true, set_refresh rows [Rotated h cur] s)).
  { unfold update, mark_refresh_used. by rewrite Hr, Hnone. }
  assert (Hafter : SI (set_refresh rows [Rotated h cur] s) gs).
  { change (SI (log_write (Rotated h cur) (set_refresh rows [] s)) gs). apply log_SI.
    - split; [by apply (so_row s Hst)|]. simpl. unfold rows. intros rt'. rewrite lookup_insert_eq. by intros [= <-].
    - eapply quiet_SI; [|done]. apply rows_quiet. unfold rows.
      intros h' rt' [[<- <-]|[_ ?]]%lookup_insert_Some; [by exists cur|]. by exists rt'. }
  destruct out; simpl; rewrite ?Hup; simpl; [|by rewrite insert_same..].
  pose proof (to_phase s gs Hth i req g Hg) as Hph. rewrite Hsaw in Hph. destruct Hph as (rt0 & Hissued & [Hfam Hgr]).
  destruct (so_row s Hst h cur Hr) as [(rt1 & Hissued' & [Hfam' _]) Hunused].
  pose proof (so_issued_once s Hst h rt0 rt1 Hissued Hissued') as <-.
  split; [apply Hafter|]. apply phase_update; [apply Hafter|done|..].
  - simpl. split.
    + split; [simpl; rewrite Hgr; by eapply redeemed_grant_cons, (so_origin s Hst)|].
      split_and!; [exists cur; by left|exists rt0; split; [by right|done]|done].
    + rewrite Hfam. by eapply (so_family s Hst).
  - intros src family [= <- <-]. split; [split|].
    + intros h' rt' [?|Hin]%elem_of_cons Heq; [done|]. simpl. rewrite Hgr.
      eapply (so_same_grant s Hst); [exact Hin|exact Hissued|congruence].
    + simpl. unfold rows. intros h' rt' [[<- <-]|[Hne Hr']]%lookup_insert_Some Heq Hl; [done|].
      apply Hne. eapply (so_live s Hst); [exact Hr|exact Hr'|done..|congruence].
    + intros j req' g' _ Hj [src' Hp']. destruct (to_issue s gs Hth j req' g' src' _ Hj Hp') as [_ Hdead].
      apply (Hdead h cur Hr); [congruence|done].
  - intros cl [= <-]. right. intros j req' g' Hne Hj Hcl.
    pose proof (to_phase s gs Hth j req' g' Hj) as Hph.
    destruct (ph g') as [| |h' c' ?| |[h' c'|h' rt'] ?|[h' c'|h' rt'] ? ?|]; simpl in *; simplify_eq;
      destruct Hph as [(_ & [rt'' ?] & _) _]; by eapply Hunused.
Qed.

(** The insertion of what a handler holds in hand, and what it then knows. *)
Lemma hand_of s gs i req g bytes :
  SI s gs → gs !! i = Some (req, g) → secret g = Some bytes →
  drawn_of (drawn (api_tokens s)) bytes ∧ (¬ written (digest bytes) (writes s)) ∧
  ∀ g', secret g' = None → in_hand s (<[i := (req, g')]> gs) bytes.
Proof.
  intros [Hst Hth] Hg Hb. destruct (to_secret s gs Hth i req g bytes Hg Hb) as [Hd Hw]. split_and!; [done..|].
  intros g' Hnone. split_and!; [done..|]. intros j req' g'' [[<- [= <- <-]]|[Hne Hj]]%lookup_insert_Some Hb'; [congruence|].
  by eapply Hne, (to_secrets s gs Hth).
Qed.

Lemma keep_insert_code s gs i req g out h c :
  SI s gs → gs !! i = Some (req, g) → allowed cfg req g _ (InsertCode h c) →
  SI (exec cfg out _ (InsertCode h c) s).2
    (<[i := (req, after g _ (InsertCode h c) (exec cfg out _ (InsertCode h c) s).1)]> gs).
Proof.
  intros HSI Hg ((bytes & Hb & ->) & Happ & Hlife & cl & Hp & Hreg). pose proof HSI as [Hst Hth].
  destruct (hand_of s gs i req g bytes HSI Hg Hb) as (_ & _ & Hhand).
  assert (Hclean : SI s (<[i := (req, {| ph := ph g; secret := None |})]> gs)) by (split; [done|by apply secret_update]).
  simpl. apply database_SI; [done|]. unfold insert_code.
  destruct (codes s !! digest bytes); [done|]. destruct (clients s !! AuthCode.client_id c) as [cl'|] eqn:Hcl; [|done].
  pose proof (to_phase s gs Hth i req g Hg) as Hph. rewrite Hp in Hph. simpl in Hph. simplify_eq.
  eapply consent_SI; [done|apply lookup_insert_eq|by apply Hhand|done..].
Qed.

Lemma keep_insert_refresh s gs i req g out h rt :
  SI s gs → gs !! i = Some (req, g) → allowed cfg req g _ (InsertRefreshToken h rt) →
  SI (exec cfg out _ (InsertRefreshToken h rt) s).2
    (<[i := (req, after g _ (InsertRefreshToken h rt) (exec cfg out _ (InsertRefreshToken h rt) s).1)]> gs).
Proof.
  intros HSI Hg (src & family & bytes & Hp & Hb & -> & ->). pose proof HSI as [Hst Hth]. simpl. rewrite Hp.
  destruct (hand_of s gs i req g bytes HSI Hg Hb) as (_ & _ & Hhand).
  pose proof (to_phase s gs Hth i req g Hg) as Hph. rewrite Hp in Hph. destruct Hph as [Hsrc Hmade].
  destruct (to_issue s gs Hth i req g src family Hg Hp) as [Hsame Hdead].
  set (over := {| ph := Over; secret := None |}).
  assert (Hover : SI s (<[i := (req, over)]> gs)).
  { split; [done|]. by apply (threads_update s gs i req g). }
  destruct (insert_refresh_token (digest bytes) (row_for family (grant_of src)) s) as [[[]|e] s'] eqn:Hins; cycle 1.
  { assert (s' = s) as -> by (unfold insert_refresh_token in Hins; by repeat case_match; simplify_eq).
    destruct out; simpl; rewrite ?Hins; apply Hover. }
  assert (s' = set_refresh (<[digest bytes := row_for family (grant_of src)]> (refresh_tokens s))
    [Issued (digest bytes) (row_for family (grant_of src))] s) as ->.
  { unfold insert_refresh_token in Hins. by repeat case_match; simplify_eq. }
  assert (Hafter : SI (set_refresh (<[digest bytes := row_for family (grant_of src)]> (refresh_tokens s))
    [Issued (digest bytes) (row_for family (grant_of src))] s) (<[i := (req, over)]> gs)).
  { assert (Hrow : grant_of_row (row_for family (grant_of src)) = grant_of src) by (by destruct src).
    apply issue_SI; [done|by apply Hhand|done|rewrite Hrow; apply Hsrc|done|by rewrite Hrow|done|].
    intros j req' g' src' [[<- [= <- <-]]|[Hne Hj]]%lookup_insert_Some; [done|]. intros Hp'.
    by eapply Hne, (to_holders s gs Hth). }
  destruct out; simpl; rewrite ?Hins; simpl; [|done..].
  destruct Hafter as [Hst' Hth']. split; [done|].
  rewrite <-(insert_insert_eq gs i _ (req, over)).
  apply (threads_update _ _ i req over); [done|apply lookup_insert_eq|..|done|done|].
  - simpl. split; [|by left]. destruct Hsrc as [Hgr Hsrc]. split; [by apply redeemed_grant_cons|].
    destruct src as [h' c'|h' rt']; [by right|]. destruct Hsrc as ([rt'' ?] & ? & ->).
    split_and!; [exists rt''; by right|by apply issued_as_cons|done].
  - intros cl Hcl j req' g' Hne. rewrite lookup_insert_ne by done. intros Hj Hcl'. apply Hne.
    eapply (to_claims s gs Hth); [exact Hj|exact Hg|exact Hcl'|]. rewrite Hp. by destruct src.
Qed.

Lemma rule : sound (exec cfg) (outside cfg) (handler cfg) (allowed cfg) after start good SI.
Proof.
  split.
  - apply handler_obeys.
  - intros s gs i req. apply SI_start.
  - intros s gs i req g out T o HSI Hg Hall.
    pose proof (exec_quiet s gs i req g out T o HSI Hg Hall) as Hq. destruct o;
      try (specialize (Hq eq_refl); simpl; rewrite insert_same by done; by eapply quiet_SI).
    + by apply keep_get_client.
    + by apply keep_insert_client.
    + by apply keep_insert_code.
    + by apply keep_consume.
    + by apply keep_get_refresh.
    + by apply keep_mark.
    + by apply keep_insert_refresh.
    + by apply keep_now.
    + by apply keep_fill.
    + by apply keep_family.
  - intros s gs e HSI. eapply quiet_SI; [apply outside_quiet, HSI|done].
Qed.
End Invariant.
