(* ===== verification/OAuthFacts.v ===== *)
(** * The authorization server: what it guarantees

    Over every interleaving of the handlers, with store calls that fail or are
    applied and reported as failed, handlers that are dropped, the sweeper and the
    changes made elsewhere: where tokens come from, that a code and a refresh token
    are exchanged once, one live refresh token per connection, a burned connection
    stays dead, redirects stay with registered clients. Then what a replay does when
    it runs alone, and the interleavings the design does not cover. *)

From Stdlib Require Import Ascii.
From S2P Require Import Prelude Text Crypto Scopes ApiTokens Handlers OAuth OAuthProtocol OAuthInvariant.

#[local] Opaque grant_scope split_whitespace.

Section Guarantees.
Context `{Environment} `{Random} `{Argon2} `{Primitives} `{WebUrls} `{Digests}.
Context `{!EnvironmentLaws} `{!RandomLaws} `{!Argon2Laws} `{!PrimitivesLaws}.
Context (cfg : Config).
(** The digests of the secrets drawn do not collide. *)
Context (digest_inj : ∀ n m, digest (fill_bytes n) = digest (fill_bytes m) → n = m).

Lemma served at_ w : serves cfg (server at_) w →
  ∃ gs, pool_inv (allowed cfg) after good (SI cfg) w gs.
Proof.
  intros Hw. eapply reachable_pool_inv; [by apply rule|apply initial_inv, SI_empty|exact Hw].
Qed.

(** The protocol state behind a token response. *)
Lemma answer_source w gs i r access expires_in refresh scope :
  pool_inv (allowed cfg) after good (SI cfg) w gs →
  (i, PostToken r, TokenResponse access expires_in refresh scope) ∈ answered w →
  ∃ g src family, gs !! i = Some (PostToken r, g) ∧ ph g = Gave src family (sha256_hex refresh) ∧
    comes_from r src ∧ scope = granted_scope (grant_of src) ∧
    source_ok (writes (shared w)) src family ∧
    Issued (sha256_hex refresh) (row_for family (grant_of src)) ∈ writes (shared w).
Proof.
  intros Hinv Hin. destruct (pi_answered _ _ _ _ _ _ Hinv _ _ _ Hin) as (_ & g & Hg & src & family & Hp & Hsrc & ->).
  exists g, src, family. pose proof (to_phase _ _ _ (proj2 (pi_shared _ _ _ _ _ _ Hinv)) i _ g Hg) as Hph.
  rewrite Hp in Hph. destruct Hph. by split_and!.
Qed.

Lemma consented_by w gs h c :
  pool_inv (allowed cfg) after good (SI cfg) w gs → Consented h c ∈ writes (shared w) →
  ∃ j session d, requests w !! j = Some (PostDecision session d) ∧ approves cfg (PostDecision session d) c.
Proof.
  intros Hinv Hin. destruct (to_consents _ _ _ (proj2 (pi_shared _ _ _ _ _ _ Hinv)) h c Hin) as (j & req & g & Hj & Happ).
  destruct req as [|session d| |]; [done| |done..]. exists j, session, d. split; [|done].
  rewrite (pi_requests _ _ _ _ _ _ Hinv), lookup_fmap, Hj. done.
Qed.

(** C20: a token is only ever the fruit of a consent. Whenever the token endpoint
    answers with tokens, some code was recorded by an approving decision of a
    signed-in user for their active organization, and consumed; the scope answered
    is that code's, and the new refresh token is bound to the client, scope,
    resource, user, organization and deadline of that same consent. A code exchange
    has shown that very code before its expiry, its client, its redirect address
    and a verifier of its challenge; a refresh has shown a token issued in the same
    family, to the same client and under the same consent. *)
Theorem tokens_come_from_a_consent at_ w i r access expires_in refresh scope :
  serves cfg (server at_) w →
  (i, PostToken r, TokenResponse access expires_in refresh scope) ∈ answered w →
  ∃ h c j session d family,
    Consented h c ∈ writes (shared w) ∧ Redeemed h c ∈ writes (shared w) ∧
    requests w !! j = Some (PostDecision session d) ∧ approves cfg (PostDecision session d) c ∧
    scope = AuthCode.scope c ∧
    (∃ rt, Issued (sha256_hex refresh) rt ∈ writes (shared w) ∧ RefreshToken.family_id rt = family ∧
       grant_of_row rt = grant_of_code c) ∧
    ((∃ t, shows r h c t) ∨
     (∃ rt, presents r (sha256_hex (refresh_token r)) rt ∧ RefreshToken.family_id rt = family ∧
        issued_as (writes (shared w)) (sha256_hex (refresh_token r)) rt ∧ grant_of_row rt = grant_of_code c)).
Proof.
  intros [gs Hinv]%served Hin.
  destruct (answer_source w gs i r _ _ _ _ Hinv Hin) as (g & src & family & Hg & Hp & Hsrc & -> & [Hgrant Hok] & Hissued).
  pose proof (proj1 (pi_shared _ _ _ _ _ _ Hinv)) as Hst.
  assert (Hrow : grant_of_row (row_for family (grant_of src)) = grant_of src) by (by destruct src).
  destruct src as [h c|h rt].
  - pose proof (so_redeemed _ _ Hst h c Hok) as Hcons.
    destruct (consented_by w gs h c Hinv Hcons) as (j & session & d & Hj & Happ).
    exists h, c, j, session, d, family. split_and!; [done..| |by left]. by eexists.
  - destruct Hgrant as (hc & c & Hred & Heq). pose proof (so_redeemed _ _ Hst hc c Hred) as Hcons.
    destruct (consented_by w gs hc c Hinv Hcons) as (j & session & d & Hj & Happ).
    destruct Hok as (_ & Has & ->). destruct Hsrc as (Hgt & -> & Hcl). simpl in Heq.
    exists hc, c, j, session, d, (RefreshToken.family_id rt). split_and!; [done..| | |].
    + simpl. by apply (f_equal granted_scope) in Heq.
    + eexists. split_and!; [exact Hissued|done|]. by rewrite Hrow.
    + right. by exists rt.
Qed.

(** C21: a code and a refresh token are exchanged at most once. Two requests answered
    with tokens never showed the same code, nor the same refresh token, however
    their calls to the store interleaved. *)
Theorem secrets_are_exchanged_once at_ w i j r r' a e f s a' e' f' s' :
  serves cfg (server at_) w →
  (i, PostToken r, TokenResponse a e f s) ∈ answered w →
  (j, PostToken r', TokenResponse a' e' f' s') ∈ answered w →
  (grant_type r = "authorization_code" ∧ grant_type r' = "authorization_code" ∧ code r = code r') ∨
  (grant_type r = "refresh_token" ∧ grant_type r' = "refresh_token" ∧ refresh_token r = refresh_token r') →
  i = j.
Proof.
  intros [gs Hinv]%served Hi Hj Hsame.
  destruct (answer_source w gs i r _ _ _ _ Hinv Hi) as (g & src & family & Hg & Hp & Hsrc & _).
  destruct (answer_source w gs j r' _ _ _ _ Hinv Hj) as (g' & src' & family' & Hg' & Hp' & Hsrc' & _).
  assert (Hclaims : claim (ph g) = claim (ph g') ∧ claim (ph g) ≠ None).
  { rewrite Hp, Hp'. destruct src as [h c|h rt], src' as [h' c'|h' rt']; simpl in *; split; try done.
    - destruct Hsrc as (t & Hgt & -> & _), Hsrc' as (t' & Hgt' & -> & _).
      destruct Hsame as [(_ & _ & ->)|(Hr & _)]; [done|]. congruence.
    - destruct Hsrc as (t & Hgt & _), Hsrc' as (Hgt' & _).
      destruct Hsame as [(_ & ? & _)|(? & _)]; congruence.
    - destruct Hsrc as (Hgt & _), Hsrc' as (t & Hgt' & _).
      destruct Hsame as [(? & _)|(_ & ? & _)]; congruence.
    - destruct Hsrc as (Hgt & -> & _), Hsrc' as (Hgt' & -> & _).
      destruct Hsame as [(? & _)|(_ & _ & ->)]; [congruence|done]. }
  destruct Hclaims as [Heq Hne]. destruct (claim (ph g)) as [cl|] eqn:Hc; [|done].
  by eapply (to_claims _ _ _ (proj2 (pi_shared _ _ _ _ _ _ Hinv)) i j).
Qed.

(** C22: a connection has one live refresh token and one grant. In every reachable
    state two unused refresh tokens of one family are the same token, all tokens of
    a family carry the client, scope, resource, user, organization and deadline of
    one consent that was redeemed, and that deadline lies between one and 365 days
    after the decision: a refresh never widens a connection nor prolongs it. *)
Theorem one_live_refresh_token at_ w h rt :
  serves cfg (server at_) w → refresh_tokens (shared w) !! h = Some rt →
  (∀ h' rt', refresh_tokens (shared w) !! h' = Some rt' →
     RefreshToken.family_id rt' = RefreshToken.family_id rt →
     grant_of_row rt' = grant_of_row rt ∧
     (RefreshToken.used_at rt = None → RefreshToken.used_at rt' = None → h' = h)) ∧
  ∃ hc c t, Redeemed hc c ∈ writes (shared w) ∧ grant_of_row rt = grant_of_code c ∧
    t + DAY ≤ RefreshToken.expires_at rt ≤ t + MAX_TOKEN_TTL_DAYS * DAY ∧
    AuthCode.expires_at c = t + seconds CODE_TTL_SECS.
Proof.
  intros [gs Hinv]%served Hr. pose proof (proj1 (pi_shared _ _ _ _ _ _ Hinv)) as Hst.
  destruct (so_row _ _ Hst h rt Hr) as [(rt0 & Hissued & Hf & Hg) _]. split.
  - intros h' rt' Hr' Hfam. destruct (so_row _ _ Hst h' rt' Hr') as [(rt1 & Hissued' & Hf' & Hg') _]. split.
    + rewrite Hg, Hg'. eapply (so_same_grant _ _ Hst); [done..|congruence].
    + intros Hl Hl'. by eapply (so_live _ _ Hst h' rt' h rt).
  - destruct (so_origin _ _ Hst _ _ Hissued) as (hc & c & Hred & Heq).
    destruct (so_consent _ _ Hst hc c (so_redeemed _ _ Hst hc c Hred)) as [(t & Hexp & Hdl) _].
    exists hc, c, t. rewrite Hg, Heq. split_and!; [done..| | |done];
      apply (f_equal deadline) in Hg, Heq; simpl in *; lia.
Qed.

(** C23: every connector token in the store was consented to. Its user, its
    organization, its client and its audience are those of a redeemed code, its
    scopes are exactly the scopes of that consent, and there is no other token for
    the same user, organization, client and audience. *)
Theorem connector_access_is_consented at_ w id row cl :
  serves cfg (server at_) w →
  rows (api_tokens (shared w)) !! id = Some row → oauth_client_id row = Some cl →
  (∃ h c, Redeemed h c ∈ writes (shared w) ∧ cl = AuthCode.client_id c ∧ user_id row = AuthCode.user_id c ∧
     org_id row = Some (AuthCode.org_id c) ∧ audience row = Some (AuthCode.resource c) ∧
     scopes row = to_strings (from_strs (split_whitespace (AuthCode.scope c)))) ∧
  (∀ id' row', rows (api_tokens (shared w)) !! id' = Some row' → oauth_client_id row' = Some cl →
     user_id row' = user_id row → org_id row' = org_id row → audience row' = audience row → id' = id).
Proof.
  intros [gs Hinv]%served Hr Hcl. pose proof (proj1 (pi_shared _ _ _ _ _ _ Hinv)) as Hst.
  destruct (so_access _ _ Hst id row Hr cl Hcl) as (g & (h & c & Hred & ->) & Hc & Hu & Ho & Ha & Hs). split.
  - exists h, c. by split_and!.
  - intros id' row' Hr' Hcl' Hu' Ho' Ha'.
    eapply (inv_connector _ _ (so_tokens _ _ Hst) id' id row' row (AuthCode.user_id c) (AuthCode.org_id c) cl (AuthCode.resource c));
      [done..| |]; unfold connector; rewrite ?Hu', ?Ho', ?Ha', ?Hu, ?Ho, ?Ha, ?Hcl, ?Hcl'; by rewrite !bool_decide_eq_true_2.
Qed.

(** C24: a redirect address is one its client registered. Whatever is
    requested, a redirect of the authorize page goes to the login page or to the
    requested redirect address, and the consent form's answer to its own, and then
    that address is on the list the client registered, and of an acceptable shape.
    Every recorded code is bound to such an address. *)
Theorem redirects_stay_registered at_ w :
  serves cfg (server at_) w →
  let known id uri := ∃ cl, clients (shared w) !! id = Some cl ∧ registered uri cl = true ∧
                        is_acceptable_redirect_uri uri = true in
  (∀ i pq p session url, (i, GetAuthorize pq p session, RedirectTo url) ∈ answered w →
     RedirectTo url = login_redirect (default "/" pq) ∨
     known (client_id p) (redirect_uri p) ∧ ∃ pairs state, RedirectTo url = redirect_with (redirect_uri p) pairs state) ∧
  (∀ i session d url, (i, PostDecision session d, JsonRedirect url) ∈ answered w →
     known (dec_client_id d) (dec_redirect_uri d) ∧
     ∃ pairs state, url = redirect_uri_string (dec_redirect_uri d) pairs state) ∧
  (∀ h c, Consented h c ∈ writes (shared w) → known (AuthCode.client_id c) (AuthCode.redirect_uri c)).
Proof.
  intros [gs Hinv]%served known. destruct (pi_shared _ _ _ _ _ _ Hinv) as [Hst Hth].
  assert (Hknown : ∀ id uri cl, clients (shared w) !! id = Some cl → registered uri cl = true → known id uri).
  { intros id uri cl Hcl Hreg. exists cl. split_and!; [done..|]. eapply (so_client _ _ Hst); [done|].
    unfold registered in Hreg. apply existsb_exists in Hreg as (u & Hu & ->%String.eqb_eq). by apply list_elem_of_In. }
  assert (Hanswers : ∀ i req g cl id uri, gs !! i = Some (req, g) → answers_to cl id uri g → known id uri).
  { intros i req g cl id uri Hg [Hp Hreg]. pose proof (to_phase _ _ _ Hth i req g Hg) as Hph. rewrite Hp in Hph.
    by eapply Hknown. }
  split_and!.
  - intros i pq p session url Hin. destruct (pi_answered _ _ _ _ _ _ Hinv _ _ _ Hin) as (_ & g & Hg & Hgood).
    destruct Hgood as [Hl|(cl & pairs & state & Hcl & Hurl)]; [by left|right]. split; [by eapply Hanswers|eauto].
  - intros i session d url Hin. destruct (pi_answered _ _ _ _ _ _ Hinv _ _ _ Hin) as (_ & g & Hg & Hgood).
    destruct Hgood as (cl & pairs & state & Hcl & Hurl). split; [by eapply Hanswers|eauto].
  - intros h c Hin. destruct (so_consent _ _ Hst h c Hin) as [_ (cl & Hcl & Hreg)]. by eapply Hknown.
Qed.

(** ** A family without tokens stays without *)
Section Burned.
Context (family : Uuid).

Definition no_row (s : Db) : Prop :=
  ∀ h rt, refresh_tokens s !! h = Some rt → RefreshToken.family_id rt ≠ family.
Definition avoids (g : ghost) : Prop :=
  match ph g with
  | Saw _ rt => RefreshToken.family_id rt ≠ family
  | Holds _ f => f ≠ family
  | _ => True
  end.
Definition burned (s : Db) (gs : gmap nat (Request * ghost)) : Prop :=
  SI cfg s gs ∧ made_of (made (api_tokens s)) family ∧ no_row s ∧
  ∀ i req g, gs !! i = Some (req, g) → avoids g.

Lemma quiet_burned s s' : quiet cfg s s' → made_of (made (api_tokens s)) family → no_row s →
  made_of (made (api_tokens s')) family ∧ no_row s'.
Proof.
  intros Hq Hmade Hno. split; [exact (made_of_mono _ _ _ (q_made cfg s s' Hq) Hmade)|].
  intros h rt Hr. destruct (q_rows cfg s s' Hq h rt Hr) as (rt0 & Hr0 & [Hf _] & _). rewrite Hf. by eapply Hno.
Qed.

Lemma exec_burned s gs i req g out T (o : op T) :
  burned s gs → gs !! i = Some (req, g) → allowed cfg req g T o →
  made_of (made (api_tokens (exec cfg out T o s).2)) family ∧ no_row (exec cfg out T o s).2.
Proof.
  intros (HSI & Hmade & Hno & Havoid) Hg Hall.
  destruct (quiet_op o) eqn:Hq; [by eapply quiet_burned; [eapply exec_quiet|..]|].
  assert (Hdb : ∀ A (m : Db → result A * Db), made_of (made (api_tokens (m s).2)) family ∧ no_row (m s).2 →
    made_of (made (api_tokens (database out m s).2)) family ∧ no_row (database out m s).2).
  { intros A m. by destruct out. }
  destruct o; try done; simpl; apply Hdb.
  - unfold insert_code. repeat case_match; exact (conj Hmade Hno).
  - unfold update, consume_code. by destruct (codes s !! hash).
  - unfold update, mark_refresh_used. destruct (refresh_tokens s !! hash) as [rt|] eqn:Hr; [|done].
    destruct (is_none _); [|done]. split; [done|]. unfold no_row. simpl. intros h rt' [[<- <-]|[_ ?]]%lookup_insert_Some; [|by eapply Hno].
    simpl. by eapply Hno.
  - destruct Hall as (src & f & bytes & Hp & _ & _ & ->). unfold insert_refresh_token. repeat case_match; simplify_eq; try done.
    split; [done|]. unfold no_row. simpl. intros h rt' [[<- <-]|[_ ?]]%lookup_insert_Some; [|by eapply Hno].
    pose proof (Havoid i req g Hg) as Hav. unfold avoids in Hav. by rewrite Hp in Hav.
Qed.

Lemma after_avoids s gs i req g out T (o : op T) :
  burned s gs → gs !! i = Some (req, g) → allowed cfg req g T o → avoids (after g T o (exec cfg out T o s).1).
Proof.
  intros (HSI & Hmade & Hno & Havoid) Hg Hall. pose proof (Havoid i req g Hg) as Hav.
  destruct o; simpl; try done.
  - by destruct (database out (query (get_client client_id)) s).1 as [[]|].
  - by destruct (database out (update (consume_code hash)) s).1 as [[]|].
  - destruct (database out (query (get_refresh_token hash)) s).1 as [[rt|]|] eqn:Hr; try done.
    unfold avoids. simpl. eapply Hno. destruct out; simpl in Hr; simplify_eq. exact Hr.
  - destruct (database out (update (mark_refresh_used hash)) s).1 as [[]|]; try done.
    destruct (ph g) eqn:Hp; unfold avoids in *; simpl in *; rewrite ?Hp in *; done.
  - by destruct (database out (insert_refresh_token hash rt) s).1, (ph g).
  - destruct (ph g) eqn:Hp; unfold avoids in *; simpl in *; rewrite ?Hp in *; done.
  - destruct (ph g) eqn:Hp; unfold avoids in *; simpl in *; rewrite ?Hp in *; try done.
    intros Heq. destruct Hmade as (k & Hk & Hfam). rewrite Hfam in Heq. apply fresh_inj in Heq. lia.
Qed.

Lemma burned_rule : sound (exec cfg) (outside cfg) (handler cfg) (allowed cfg) after start good burned.
Proof.
  pose proof (rule cfg digest_inj) as Hrule. split.
  - apply handler_obeys.
  - intros s gs i req (HSI & ? & ? & Hav) Hi. split; [by apply (start_keeps _ _ _ _ _ _ _ _ Hrule)|split_and!; [done..|]].
    intros j req' g [[<- [= <- <-]]|[_ ?]]%lookup_insert_Some; [done|by eapply Hav].
  - intros s gs i req g out T o Hb Hg Hall. pose proof Hb as (HSI & Hm & Hno & Hav).
    destruct (exec_burned s gs i req g out T o Hb Hg Hall) as [Hm' Hno'].
    split; [by apply (call_keeps _ _ _ _ _ _ _ _ Hrule)|split_and!; [done..|]].
    intros j req' g' [[<- [= <- <-]]|[_ ?]]%lookup_insert_Some; [by eapply after_avoids|by eapply Hav].
  - intros s gs e (HSI & Hm & Hno & Hav).
    destruct (quiet_burned s (outside cfg e s) (outside_quiet cfg s e (proj1 HSI)) Hm Hno) as [Hm' Hno'].
    split; [by apply (outside_keeps _ _ _ _ _ _ _ _ Hrule)|by split_and!].
Qed.

(** A handler that no longer runs will not use what it read or holds. *)
Definition retire (g : ghost) : ghost :=
  match ph g with Saw _ _ | Holds _ _ => {| ph := Over; secret := None |} | _ => g end.

Lemma retire_keeps g : (ph (retire g) = ph g ∧ secret (retire g) = secret g ∨ ph (retire g) = Over ∧ secret (retire g) = None) ∧
  avoids (retire g).
Proof. unfold retire, avoids. destruct (ph g) eqn:Hp; simpl; rewrite ?Hp; auto. Qed.

Lemma retired_lookup (gs : gmap nat (Request * ghost)) i req g :
  (prod_map id retire <$> gs) !! i = Some (req, g) → ∃ g0, gs !! i = Some (req, g0) ∧ g = retire g0.
Proof. rewrite lookup_fmap. intros ([req' g0] & Hg & [= -> ->])%fmap_Some. by exists g0. Qed.

Lemma retired_threads s gs : threads_ok cfg s gs → threads_ok cfg s (prod_map id retire <$> gs).
Proof.
  intros [Hph Hissue Hsec Hsecs Hclaims Hhold Hcons]. split.
  - intros i req g (g0 & Hg & ->)%retired_lookup.
    destruct (retire_keeps g0) as [[[-> _]|[-> _]] _]; [by eapply Hph|done].
  - intros i req g src f (g0 & Hg & ->)%retired_lookup Hp.
    destruct (retire_keeps g0) as [[[He _]|[He _]] _]; rewrite He in Hp; [by eapply Hissue|done].
  - intros i req g b (g0 & Hg & ->)%retired_lookup Hb.
    destruct (retire_keeps g0) as [[[_ He]|[_ He]] _]; rewrite He in Hb; [by eapply Hsec|done].
  - intros i j ?? g g' b (g0 & Hg & ->)%retired_lookup (g1 & Hg' & ->)%retired_lookup Hb Hb'.
    destruct (retire_keeps g0) as [[[_ He]|[_ He]] _], (retire_keeps g1) as [[[_ He']|[_ He']] _];
      rewrite He in Hb; rewrite He' in Hb'; try done. by eapply Hsecs.
  - intros i j ?? g g' cl (g0 & Hg & ->)%retired_lookup (g1 & Hg' & ->)%retired_lookup Hb Hb'.
    destruct (retire_keeps g0) as [[[He _]|[He _]] _], (retire_keeps g1) as [[[He' _]|[He' _]] _];
      rewrite He in Hb; rewrite He' in Hb'; try done. by eapply Hclaims.
  - intros i j ?? g g' src src' f (g0 & Hg & ->)%retired_lookup (g1 & Hg' & ->)%retired_lookup Hb Hb'.
    destruct (retire_keeps g0) as [[[He _]|[He _]] _], (retire_keeps g1) as [[[He' _]|[He' _]] _];
      rewrite He in Hb; rewrite He' in Hb'; try done. by eapply Hhold.
  - intros h c (i & req & g & Hg & ?)%Hcons. exists i, req, (retire g). by rewrite lookup_fmap, Hg.
Qed.

Lemma retire_good req g a : good req g a → good req (retire g) a.
Proof.
  unfold good, answers_to, retire. destruct (ph g) eqn:Hp; rewrite ?Hp; try done; destruct req, a; try done; simpl.
  all: first [ by intros [?|(? & ? & ? & [? _] & _)]; [left|]
             | by intros (? & ? & ? & [? _] & _) | by intros (? & ? & ? & _) ].
Qed.
End Burned.

(** A burned connection stays dead. Once the server is at rest and no refresh
    token of a family is left, none is ever issued again, whatever is requested
    and however it interleaves: the connection cannot be revived. *)
Theorem burned_family_stays_dead at_ w0 w family :
  serves cfg (server at_) w0 → running w0 = ∅ → made_of (made (api_tokens (shared w0))) family →
  (∀ h rt, refresh_tokens (shared w0) !! h = Some rt → RefreshToken.family_id rt ≠ family) →
  serves cfg w0 w →
  ∀ h rt, refresh_tokens (shared w) !! h = Some rt → RefreshToken.family_id rt ≠ family.
Proof.
  intros [gs Hinv]%served Hrest Hmade Hno Hw.
  assert (Hstart : pool_inv (allowed cfg) after good (burned family) w0 (prod_map id retire <$> gs)).
  { destruct Hinv as [[Hst Hth] Hf Hrun Hans Hreq Honce]. split; [|..|done].
    - split; [split; [done|by apply retired_threads]|]. split_and!; [done..|].
      intros i req g (g0 & _ & ->)%retired_lookup. apply retire_keeps.
    - intros i Hi. by rewrite lookup_fmap, (Hf i Hi).
    - intros i req p Hp. by rewrite Hrest, lookup_empty in Hp.
    - intros i req a Hin. destruct (Hans i req a Hin) as (? & g & Hg & Hgood). split; [done|].
      exists (retire g). split; [by rewrite lookup_fmap, Hg|by apply retire_good].
    - rewrite Hreq, <-map_fmap_compose. by apply map_fmap_ext. }
  destruct (reachable_pool_inv _ _ _ _ _ _ _ _ w0 w _ (burned_rule family) Hstart Hw) as [gs' Hinv'].
  by destruct (pi_shared _ _ _ _ _ _ Hinv') as (_ & _ & ? & _).
Qed.

(** ** A refresh that runs alone *)
Definition refreshes (r : TokenRequest) : Prop :=
  has_db cfg = true ∧ grant_type r = "refresh_token" ∧ refresh_token r ≠ "" ∧ tok_client_id r ≠ "".

Lemma token_refresh r : refreshes r → token cfg r = refresh_grant cfg r.
Proof. intros (Hdb & Hgt & _). unfold token. by rewrite Hdb, Hgt. Qed.

Lemma refresh_starts r : refreshes r →
  (String.eqb (refresh_token r) "" || String.eqb (tok_client_id r) "") = false.
Proof. intros (_ & _ & Hr & Hc). by destruct (String.eqb_spec (refresh_token r) ""), (String.eqb_spec (tok_client_id r) ""). Qed.

(** C25: a replayed refresh token burns its connection, when nothing runs in between.
    When a token that was already rotated is presented again by its client, the
    request runs alone (no step of another request falls between its own) and the
    store works, the answer is [invalid_grant], every refresh token of the family is
    gone, every access token of the connector is gone, and nothing else has changed.
    Running alone matters: a refresh that is half way when the family is revoked
    goes on and revives the connection
    ([OAuthWitness.OAuthSample.replay_revocation_is_outrun]). *)
Theorem replay_burns_the_connection r s rt :
  refreshes r → refresh_tokens s !! sha256_hex (refresh_token r) = Some rt →
  RefreshToken.client_id rt = tok_client_id r → RefreshToken.used_at rt ≠ None →
  let '(answer, s') := alone (exec cfg) Works (handler cfg (PostToken r)) s in
  answer = OAuthErrorResponse InvalidGrant "the grant is invalid" ∧
  (∀ h rt', refresh_tokens s' !! h = Some rt' ↔
     refresh_tokens s !! h = Some rt' ∧ RefreshToken.family_id rt' ≠ RefreshToken.family_id rt) ∧
  (∀ id row, rows (api_tokens s') !! id = Some row ↔ rows (api_tokens s) !! id = Some row ∧
     connector (RefreshToken.user_id rt) (RefreshToken.org_id rt) (RefreshToken.client_id rt)
       (RefreshToken.resource rt) row = false) ∧
  codes s' = codes s ∧ clients s' = clients s ∧ writes s' = writes s.
Proof.
  intros Hr Hrow Hclient Hused. simpl handler. rewrite (token_refresh r Hr). unfold refresh_grant.
  rewrite (refresh_starts r Hr). simpl. unfold get_refresh_token. rewrite Hrow, Hclient, String.eqb_refl. simpl.
  destruct (RefreshToken.used_at rt) as [u|] eqn:Hu; [|done]. simpl. split_and!; [done|..|done|done|done].
  - intros h rt'. apply map_lookup_filter_Some.
  - intros id row. apply map_lookup_filter_Some.
Qed.

Lemma mint_works t at_ u o nm sc expires aud cl :
  (∀ salt raw, is_some (hash_password salt raw) = true) → inv (prefix_visible_chars cfg) t →
  ∃ c t', mint_oauth (prefix_visible_chars cfg) at_ u o nm sc expires aud cl t = (Ok c, t').
Proof.
  intros Hhash Hinv. unfold mint_oauth, generate_raw, hash, draw. cbn [rows drawn made].
  destruct (hash_password _ _) as [h|] eqn:Hh; [|by specialize (Hhash (fill_bytes (S (drawn t))) (raw_of (fill_bytes (drawn t)))); rewrite Hh in Hhash].
  match goal with |- context [insert_row ?row ?raw ?prefix ?st] =>
    destruct (insert_row_ok _ row raw prefix st
      (shrinks_inv _ _ _ (inv_drawn _ t 2 Hinv) (revoke_shrinks u o cl aud _))) as [Hins _]; rewrite Hins end.
  eauto.
Qed.

Lemma mint_resolves `{Scheduling} t at_ u o nm sc expires aud cl c t' :
  inv (prefix_visible_chars cfg) t →
  mint_oauth (prefix_visible_chars cfg) at_ u o nm sc expires aud cl t = (Ok c, t') → at_ < expires →
  ∃ row, (drawn t ≤ drawn t')%nat ∧
    lookup_by_raw (prefix_visible_chars cfg) at_ (CreatedToken.token c) {| rows := rows t'; drawn := S (drawn t'); made := made t' |}
      = Active row ∧
    ApiTokenRow.user_id row = u ∧ ApiTokenRow.org row = Some o ∧ ApiTokenRow.audience row = Some aud ∧
    ApiTokenRow.scopes row = sc.
Proof.
  intros Hinv Hm Hexp. pose proof (mint_outcome _ at_ u o nm sc expires aud cl t Hinv) as Hout.
  pose proof (apply_inv _ at_ (Mint u o nm sc expires aud cl) t Hinv) as Hinv'. simpl in Hinv'.
  rewrite Hm in Hout, Hinv'. simpl in Hinv'.
  destruct Hout as (row & (Hrows & _ & _ & n & Hn & Hmint & ->) & <- & Hsc & Ho & He & Ha & _).
  set (t1 := {| rows := rows t'; drawn := S (drawn t'); made := made t' |}).
  assert (Hinv1 : inv (prefix_visible_chars cfg) t1).
  { apply (shrinks_inv _ t'); [done|]. apply same_rows_shrinks; simpl; [done|lia..]. }
  assert (Hrow : rows t1 !! CreatedToken.id c = Some row) by (simpl; rewrite Hrows; apply lookup_insert_eq).
  exists (row_of (CreatedToken.id c) row). split; [simpl in Hn; lia|].
  rewrite (lookup_complete _ at_ t1 (CreatedToken.id c) row n Hinv1 Hrow Hmint).
  - split_and!; simpl; [done..| |]; [done|]. by rewrite Hsc, from_to_strings.
  - unfold live. rewrite He. by apply Z.ltb_lt.
Qed.

Lemma known_client s h rt : store_ok cfg s → refresh_tokens s !! h = Some rt →
  ∃ cl, clients s !! RefreshToken.client_id rt = Some cl.
Proof.
  intros Hst Hr. destruct (so_row _ _ Hst h rt Hr) as [(rt0 & Hissued & _ & Hg) _].
  destruct (so_origin _ _ Hst _ _ Hissued) as (hc & c & Hred & Heq).
  destruct (so_consent _ _ Hst hc c (so_redeemed _ _ Hst hc c Hred)) as [_ (cl & Hcl & _)].
  exists cl. rewrite Heq in Hg. apply (f_equal client) in Hg. simpl in Hg. by rewrite Hg.
Qed.

(** C26: a live refresh token works. In any reachable state, when its client presents
    an unused refresh token before the connection's deadline, and the request runs
    alone with a store that works, with an access token lifetime above zero and an
    argon2 that hashes, it is answered with tokens: the presented token
    is marked used, the new one is unused, in the same family and under the same
    grant, and the access token returned resolves to the connection's user,
    organization, audience and scopes. *)
Theorem live_token_refreshes `{Scheduling} at_ w r rt :
  serves cfg (server at_) w → (∀ salt raw, is_some (hash_password salt raw) = true) →
  0 < access_token_ttl_secs cfg → refreshes r →
  refresh_tokens (shared w) !! sha256_hex (refresh_token r) = Some rt →
  RefreshToken.client_id rt = tok_client_id r → RefreshToken.used_at rt = None →
  now (shared w) < RefreshToken.expires_at rt →
  ∃ access refresh s',
    alone (exec cfg) Works (handler cfg (PostToken r)) (shared w)
      = (TokenResponse access (access_token_ttl_secs cfg) refresh (RefreshToken.scope rt), s') ∧
    refresh_tokens s' !! sha256_hex (refresh_token r) = Some (RefreshToken.mark_used (now (shared w)) rt) ∧
    refresh_tokens s' !! sha256_hex refresh = Some (row_for (RefreshToken.family_id rt) (grant_of_row rt)) ∧
    ∃ t, lookup_by_raw (prefix_visible_chars cfg) (now (shared w)) access (api_tokens s') = Active t ∧
      ApiTokenRow.user_id t = RefreshToken.user_id rt ∧ ApiTokenRow.org t = Some (RefreshToken.org_id rt) ∧
      ApiTokenRow.audience t = Some (RefreshToken.resource rt) ∧
      ApiTokenRow.scopes t = from_strs (split_whitespace (RefreshToken.scope rt)).
Proof.
  intros [gs Hinv]%served Hhash Httl Hr Hrow Hclient Hused Hlive. set (s := shared w) in *.
  pose proof (proj1 (pi_shared _ _ _ _ _ _ Hinv)) as Hst. fold s in Hst.
  simpl handler. rewrite (token_refresh r Hr). unfold refresh_grant. rewrite (refresh_starts r Hr). simpl.
  unfold get_refresh_token. rewrite Hrow, Hclient, String.eqb_refl, Hused. simpl.
  rewrite (proj2 (Z.leb_gt _ _) Hlive). simpl.
  set (h := sha256_hex (refresh_token r)) in *.
  set (s1 := set_refresh (<[h := RefreshToken.mark_used (now s) rt]> (refresh_tokens s)) [Rotated h rt] s).
  assert (Hmark : update (mark_refresh_used h) s = (Ok true, s1)) by (unfold update, mark_refresh_used; by rewrite Hrow, Hused).
  rewrite Hmark. simpl.
  destruct (mint_works (api_tokens s) (now s) (RefreshToken.user_id rt) (RefreshToken.org_id rt) "MCP connector"
    (from_strs (split_whitespace (RefreshToken.scope rt))) (now s + seconds (access_token_ttl_secs cfg))
    (RefreshToken.resource rt) (tok_client_id r) Hhash (so_tokens _ _ Hst)) as (c & t' & Hmint).
  rewrite Hmint. simpl.
  destruct (mint_resolves (api_tokens s) (now s) _ _ _ _ _ _ _ c t' (so_tokens _ _ Hst) Hmint) as (t & Hdrawn & Hlook & Ht).
  { unfold seconds, NANOS. lia. }
  set (bytes := fill_bytes (drawn t')).
  assert (Hfresh : ∀ h' rt', refresh_tokens s !! h' = Some rt' → h' ≠ digest bytes).
  { intros h' rt' Hr' ->. pose proof (written_row cfg s _ _ Hst Hr') as Hw.
    destruct (so_digest _ _ Hst _ Hw) as (b & (n & Hn & ->) & Heq). apply digest_inj in Heq. lia. }
  assert (Hnone : <[h := RefreshToken.mark_used (now s) rt]> (refresh_tokens s) !! digest bytes = None).
  { rewrite lookup_insert_ne by (by eapply Hfresh). destruct (refresh_tokens s !! digest bytes) eqn:Hd; [|done].
    by destruct (Hfresh _ _ Hd). }
  destruct (known_client s h rt Hst Hrow) as [cl Hcl]. rewrite Hclient in Hcl.
  unfold insert_refresh_token. simpl. fold bytes. change (sha256_hex (url_safe_no_pad_encode bytes)) with (digest bytes).
  rewrite Hnone, Hcl. simpl. eexists _, _, _. split; [|split_and!].
  - f_equal. f_equal. rewrite Z.add_simpl_l. unfold num_seconds, seconds. rewrite Z.quot_mul by done. lia.
  - simpl. rewrite lookup_insert_ne, lookup_insert_eq; [done|]. intros Heq. by apply (Hfresh h rt).
  - simpl. change (sha256_hex (url_safe_no_pad_encode bytes)) with (digest bytes). rewrite lookup_insert_eq.
    unfold row_for. simpl. by rewrite Hclient.
  - exists t. by split.
Qed.
End Guarantees.
