(* ===== verification/OAuthWitness.v ===== *)
(** * The authorization server at work

    A concrete server: a client registers, a user consents, the code is exchanged
    and the refresh token rotated. The theorems of OAuthFacts.v apply to that run.
    Then two runs the design does not cover: a replay whose revocation is outrun by
    the refresh it reacts to, and an access token that outlives its connection. *)

From Stdlib Require Import Ascii.
From S2P Require Import Prelude Text Crypto Scopes ApiTokens Handlers OAuth OAuthProtocol OAuthInvariant OAuthFacts.

Module OAuthSample.
#[local] Existing Instances TokensSample.random TokensSample.random_laws TokensSample.argon2 TokensSample.argon2_laws.
#[local] Existing Instances TokensSample.env TokensSample.env_laws TokensSample.in_order.
#[local] Remove Hints TokensSample.toy TokensSample.toy_laws : typeclass_instances.

#[local] Instance prims : Primitives := {|
  Key := @Key CryptoSample.toy; DecodeError := unit; key_from_slice := @key_from_slice CryptoSample.toy;
  aes_encrypt := @aes_encrypt CryptoSample.toy; aes_decrypt := @aes_decrypt CryptoSample.toy;
  url_safe_no_pad_encode s := String "x" (CryptoSample.hex s);
  url_safe_no_pad_decode s := match s with String _ s => inr (CryptoSample.unhex s) | _ => inl tt end;
  standard_decode _ := inl tt; is_utf8 _ := true; sha256_hex s := "h" +:+ s |}.
#[local] Instance prims_laws : PrimitivesLaws.
Proof.
  split.
  - apply (@decrypt_encrypt CryptoSample.toy CryptoSample.toy_laws).
  - intros s. simpl. by rewrite CryptoSample.unhex_hex.
  - intros s. apply (@encode_alphabet CryptoSample.toy CryptoSample.toy_laws s).
Qed.
#[local] Instance urls : WebUrls := {|
  Url := string; parse s := if String.prefix "https://" s then Some s else None; scheme _ := "https";
  host_str _ := Some "c"; port _ := None; fragment _ := None; username _ := ""; password _ := None;
  append_pairs l u := u +:+ "?" +:+ join "&" ((λ kv : string * string, kv.1 +:+ "=" +:+ kv.2) <$> l);
  as_string u := u; url_encode s := s |}.
#[local] Instance digests : Digests := {| sha256 s := take_chars 21 s; show_uuid _ := "u" |}.

Lemma digest_inj n m : digest (fill_bytes n) = digest (fill_bytes m) → n = m.
Proof.
  intros Heq. apply (f_equal (λ s, CryptoSample.unhex (drop_chars 2 s))) in Heq. simpl in Heq.
  rewrite !CryptoSample.unhex_hex in Heq. by apply (inj pretty) in Heq.
Qed.

Definition cfg : Config := {|
  has_db := true; public_base_url := "https://app/"; resource_uri := "https://m/mcp/"; mcp_enabled := true;
  oauth_enabled := true; access_token_ttl_secs := 3600; prefix_visible_chars := 16 |}.
Definition verifier : string := "0123456789012345678901234567890123456789012".
Definition challenge : string := url_safe_no_pad_encode (sha256 verifier).
Definition secret_of (n : nat) : string := url_safe_no_pad_encode (fill_bytes n).
Definition the_client : string := "ump_" +:+ secret_of 0.

Definition registration : Request :=
  PostRegister {| reg_client_name := Some "mcp"; reg_redirect_uris := ["https://c/cb"] |}.
Definition approval (days : Z) : Request :=
  PostDecision {| session_user := Some 7%N; active_org_id := Some 3%N |}
    {| action := "approve"; dec_client_id := the_client; dec_redirect_uri := "https://c/cb";
       dec_code_challenge := challenge; dec_scope := "targets:write"; dec_state := "st";
       dec_resource := "https://m/mcp"; dec_expires_in_days := Some days |}.
Definition exchange : TokenRequest := {|
  grant_type := "authorization_code"; code := secret_of 1; tok_redirect_uri := "https://c/cb";
  tok_client_id := the_client; code_verifier := verifier; refresh_token := "" |}.
Definition refresh_with (n : nat) : TokenRequest := {|
  grant_type := "refresh_token"; code := ""; tok_redirect_uri := ""; tok_client_id := the_client;
  code_verifier := ""; refresh_token := secret_of n |}.

Abbreviation act := (Handlers.act (exec cfg) (outside cfg) (handler cfg)).
Abbreviation run := (Handlers.run (exec cfg) (outside cfg) (handler cfg)).
Definition step : Type := Handlers.action (Req := Request) (Out := outcome) (Env := outside_event).
Definition whole (i : nat) (req : Request) : list step := Arrive req :: repeat (Advance i Works) 10.

(** Registration, consent for a day, exchange of the code. *)
Definition connected : list step :=
  whole 0 registration ++ [Outside (Membership {[ (7%N, 3%N) ]})]
  ++ whole 1 (approval 1) ++ whole 2 (PostToken exchange).
(** And one refresh. *)
Definition refreshed : list step := connected ++ whole 3 (PostToken (refresh_with 4)).

Abbreviation world := (pool (op := op) (Req := Request) (A := Response) (S := Db)).
Definition after_exchange : world := run connected (server 0).
Definition after_refresh : world := run refreshed (server 0).

Lemma after_exchange_serves : serves cfg (server 0) after_exchange.
Proof. apply run_reachable. constructor. Qed.
Lemma after_refresh_serves : serves cfg (server 0) after_refresh.
Proof. apply run_reachable. constructor. Qed.

Lemma answered_at (w : world) (k i : nat) (req : Request) (a : Response) :
  answered w !! k = Some (i, req, a) → (i, req, a) ∈ answered w.
Proof. apply list_elem_of_lookup_2. Qed.

Lemma exchanged : (2%nat, PostToken exchange, TokenResponse "sm_live_xdc" 3600 "xde" "targets:read targets:write")
  ∈ answered after_refresh.
Proof. apply (answered_at _ 2). vm_compute. reflexivity. Qed.
Lemma rotated : (3%nat, PostToken (refresh_with 4), TokenResponse "sm_live_xdf" 3600 "xdh" "targets:read targets:write")
  ∈ answered after_refresh.
Proof. apply (answered_at _ 3). vm_compute. reflexivity. Qed.

Lemma tokens_come_from_a_consent_witness : ∃ h c, Consented h c ∈ writes (shared after_refresh) ∧
  AuthCode.scope c = "targets:read targets:write".
Proof.
  destruct (tokens_come_from_a_consent cfg digest_inj 0 after_refresh 3 (refresh_with 4) _ _ _ _ after_refresh_serves rotated)
    as (h & c & j & session & d & family & Hc & _ & _ & _ & Hs & _).
  exists h, c. split; [exact Hc|symmetry; exact Hs].
Defined.

Lemma secrets_are_exchanged_once_witness : (2 = 2)%nat.
Proof.
  apply (secrets_are_exchanged_once cfg digest_inj 0 after_refresh 2 2 exchange exchange _ _ _ _ _ _ _ _
    after_refresh_serves exchanged exchanged).
  left. split; [reflexivity|split; reflexivity].
Defined.

Definition live_row : RefreshToken.t := {|
  RefreshToken.family_id := 1%N; RefreshToken.client_id := the_client;
  RefreshToken.scope := "targets:read targets:write"; RefreshToken.resource := "https://m/mcp";
  RefreshToken.user_id := 7%N; RefreshToken.org_id := 3%N; RefreshToken.used_at := None;
  RefreshToken.expires_at := DAY |}.

Lemma one_live_refresh_token_witness : ∃ h, refresh_tokens (shared after_refresh) !! h = Some live_row ∧
  ∀ h' rt', refresh_tokens (shared after_refresh) !! h' = Some rt' → RefreshToken.family_id rt' = 1%N →
    RefreshToken.used_at rt' = None → h' = h.
Proof.
  exists (digest (fill_bytes 7)).
  assert (Hr : refresh_tokens (shared after_refresh) !! digest (fill_bytes 7) = Some live_row) by (vm_compute; reflexivity).
  split; [exact Hr|]. intros h' rt' Hr' Hf Hu.
  destruct (one_live_refresh_token cfg digest_inj 0 after_refresh _ _ after_refresh_serves Hr) as [Hsame _].
  exact (proj2 (Hsame h' rt' Hr' Hf) eq_refl Hu).
Defined.

Lemma connector_access_is_consented_witness : ∃ h c, Redeemed h c ∈ writes (shared after_refresh) ∧
  AuthCode.user_id c = 7%N.
Proof.
  destruct (rows (api_tokens (shared after_refresh)) !! 3%N) as [row|] eqn:Hr; [|vm_compute in Hr; discriminate].
  destruct (connector_access_is_consented cfg digest_inj 0 after_refresh 3%N row the_client after_refresh_serves Hr)
    as [(h & c & Hred & _ & Hu & _) _].
  - vm_compute in Hr. injection Hr as <-. reflexivity.
  - exists h, c. split; [exact Hred|]. rewrite <-Hu. vm_compute in Hr. injection Hr as <-. reflexivity.
Defined.

Lemma redirects_stay_registered_witness : ∃ cl, clients (shared after_refresh) !! the_client = Some cl ∧
  registered "https://c/cb" cl = true.
Proof.
  destruct (redirects_stay_registered cfg digest_inj 0 after_refresh after_refresh_serves) as (_ & Hdec & _).
  assert (Hin : (1%nat, approval 1, JsonRedirect "https://c/cb?code=xdb&state=st") ∈ answered after_refresh).
  { apply (answered_at _ 1). vm_compute. reflexivity. }
  destruct (Hdec _ _ _ _ Hin) as [(cl & Hcl & Hreg & _) _]. exists cl. split; [exact Hcl|exact Hreg].
Defined.

(** The rotated token comes again: everything of the family goes. *)
Definition replayed : world := run (whole 4 (PostToken (refresh_with 4))) after_refresh.
Lemma no_token_left h rt : refresh_tokens (shared replayed) !! h = Some rt → False.
Proof.
  assert (He : refresh_tokens (shared replayed) = ∅) by (vm_compute; reflexivity).
  intros Hr. pose proof (eq_trans (eq_sym Hr) (f_equal (lookup h) He)) as Hnone.
  rewrite (lookup_empty (M := gmap string)) in Hnone. discriminate.
Qed.
Lemma burned_family_stays_dead_witness : ∀ l h rt,
  refresh_tokens (shared (run l replayed)) !! h = Some rt → RefreshToken.family_id rt ≠ 1%N.
Proof.
  intros l. apply (burned_family_stays_dead cfg digest_inj 0 replayed (run l replayed) 1%N).
  - apply run_reachable. exact after_refresh_serves.
  - vm_compute. reflexivity.
  - exists 0%nat. split; [vm_compute; lia|reflexivity].
  - intros h rt Hr. exfalso. exact (no_token_left h rt Hr).
  - apply run_reachable. constructor.
Defined.

Lemma replay_burns_the_connection_witness :
  (alone (exec cfg) Works (handler cfg (PostToken (refresh_with 4))) (shared after_refresh)).1
    = OAuthErrorResponse InvalidGrant "the grant is invalid".
Proof.
  pose proof (replay_burns_the_connection cfg (refresh_with 4) (shared after_refresh)
    (RefreshToken.mark_used 0 live_row)) as Hreplay.
  destruct (alone _ _ _ _) as [answer s']. apply Hreplay.
  - split; [reflexivity|split; [reflexivity|split; vm_compute; discriminate]].
  - vm_compute. reflexivity.
  - reflexivity.
  - discriminate.
Defined.

Lemma live_token_refreshes_witness : ∃ access refresh s',
  alone (exec cfg) Works (handler cfg (PostToken (refresh_with 7))) (shared after_refresh)
    = (TokenResponse access 3600 refresh "targets:read targets:write", s').
Proof.
  destruct (live_token_refreshes cfg digest_inj 0 after_refresh (refresh_with 7) live_row after_refresh_serves)
    as (access & refresh & s' & Hrun & _).
  - reflexivity.
  - reflexivity.
  - split; [reflexivity|split; [reflexivity|split; vm_compute; discriminate]].
  - vm_compute. reflexivity.
  - reflexivity.
  - reflexivity.
  - vm_compute. reflexivity.
  - exists access, refresh, s'. exact Hrun.
Defined.

(** ** What the design does not cover

    A refresh has rotated the token and not yet issued the next one. The same token
    is presented again: the replay is detected, the family is revoked, and no token
    of it is left. Then the first refresh goes on, and the revoked connection is
    alive again, with a refresh token and an access token. *)
Definition thief_has_rotated : world :=
  run (Arrive (PostToken (refresh_with 4)) :: repeat (Advance 3 Works) 3) after_exchange.
Definition replay_detected : world := run (whole 4 (PostToken (refresh_with 4))) thief_has_rotated.
Definition thief_has_tokens : world := run (repeat (Advance 3 Works) 10) replay_detected.

Lemma replay_revocation_is_outrun :
  answered replay_detected !! 3%nat = Some (4%nat, PostToken (refresh_with 4), invalid) ∧
  refresh_tokens (shared replay_detected) = ∅ ∧ rows (api_tokens (shared replay_detected)) = ∅ ∧
  (∃ h rt, refresh_tokens (shared thief_has_tokens) !! h = Some rt ∧ RefreshToken.family_id rt = 1%N ∧
     RefreshToken.used_at rt = None) ∧
  lookup_by_raw 16 0 "sm_live_xdf" (api_tokens (shared thief_has_tokens)) ≠ Invalid.
Proof.
  split; [vm_compute; reflexivity|]. split; [vm_compute; reflexivity|]. split; [vm_compute; reflexivity|]. split.
  - exists (digest (fill_bytes 7)), live_row. split; [vm_compute; reflexivity|]. by split.
  - vm_compute. discriminate.
Qed.

(** A refresh just before the deadline issues an access token that outlives the
    connection the user chose, by up to its whole lifetime. *)
Definition late_refresh : world :=
  run (Outside (TimePasses 86399000000000) :: whole 3 (PostToken (refresh_with 4))) after_exchange.
Lemma access_outlives_the_connection :
  refresh_tokens (shared late_refresh) !! digest (fill_bytes 7) = Some live_row ∧
  ∃ row, rows (api_tokens (shared late_refresh)) !! 3%N = Some row ∧
    expires_at row = Some (RefreshToken.expires_at live_row + seconds 3599).
Proof.
  split; [vm_compute; reflexivity|]. eexists. split; [vm_compute; reflexivity|]. vm_compute. reflexivity.
Qed.
End OAuthSample.
