(* ===== verification/Sessions.v ===== *)
(** * Browser sessions

    src/auth/session.rs: the rows keyed by the hash of the cookie, the idle and the
    absolute timeout, the debounced use stamp with one cache per replica, and the
    ways a session is ended. The hash and base64 are [Crypto.Primitives], the secret
    bytes [ApiTokens.Random]; SQL statements are operations on the rows. A lookup
    with its deletion of an expired row is one step, a use stamp with its cache entry
    another; the extractor makes first the one and then the other, and anything may
    come between, the stamp may fail or never be made. *)

From S2P Require Import Prelude Orders Text Crypto ApiTokens Handlers.

(** config/auth.rs. *)
Record SessionConfig := {
  idle_timeout_days : Z;
  absolute_timeout_days : Z;
  cookie_name : string;
  cookie_secure : bool;
  cookie_domain : string;
  renew_on_use : bool;                  (* read nowhere *)
}.

(** A row of [sessions], under its [id_hash]. *)
Module Row.
Record t := {
  user_id : UserId; active_org_id : option OrgId; created_at : DateTime; last_used_at : DateTime;
  expires_at : DateTime; ip_hash : option string; user_agent_hash : option string;
}.
Definition used (at_ : DateTime) (r : t) : t := {|
  user_id := user_id r; active_org_id := active_org_id r; created_at := created_at r; last_used_at := at_;
  expires_at := expires_at r; ip_hash := ip_hash r; user_agent_hash := user_agent_hash r |}.
Definition with_org (org : option OrgId) (r : t) : t := {|
  user_id := user_id r; active_org_id := org; created_at := created_at r; last_used_at := last_used_at r;
  expires_at := expires_at r; ip_hash := ip_hash r; user_agent_hash := user_agent_hash r |}.
End Row.

Module SessionRow.
Record t := {
  id : string; user_id : UserId; active_org_id : option OrgId; last_used_at : DateTime; expires_at : DateTime;
}.
End SessionRow.

Module CreatedSession.
Record t := { cookie_token : string; row : SessionRow.t }.
End CreatedSession.

Module SessionListing.
Record t := {
  id_hash : string; created_at : DateTime; last_used_at : DateTime; expires_at : DateTime;
  ip_hash : option string; user_agent_hash : option string;
}.
End SessionListing.

Module LookupOutcome.
Inductive t := Active (row : SessionRow.t) | Expired | Missing.
End LookupOutcome.

(** The cookie's attributes; [SameSite::Lax] throughout. *)
Record Cookie := {
  name : string; value : string; http_only : bool; secure : bool; path : string; domain : option string;
  max_age_secs : Z;
}.

Record Store := {
  sessions : gmap string Row.t;
  last_seen : gmap UserId DateTime;     (* [users.last_seen_at] *)
  generated : nat;                      (* session secrets drawn so far *)
}.
Definition set_sessions (f : gmap string Row.t → gmap string Row.t) (s : Store) : Store :=
  {| sessions := f (sessions s); last_seen := last_seen s; generated := generated s |}.

Definition days (n : Z) : Duration := n * DAY.

Section Calls.
Context `{Random} `{Primitives}.
Context (cfg : SessionConfig).

Definition session_secret (n : nat) : string := url_safe_no_pad_encode (fill_bytes n).
Definition generate_session_id (s : Store) : string * Store :=
  (session_secret (generated s),
   {| sessions := sessions s; last_seen := last_seen s; generated := S (generated s) |}).
Definition hash_session_id (raw : string) : string := sha256_hex raw.

Definition row_of (id : string) (r : Row.t) : SessionRow.t := {|
  SessionRow.id := id; SessionRow.user_id := Row.user_id r; SessionRow.active_org_id := Row.active_org_id r;
  SessionRow.last_used_at := Row.last_used_at r; SessionRow.expires_at := Row.expires_at r |}.

Definition create (now : DateTime) (user : UserId) (org : option OrgId) (ip agent : option string) (s : Store)
    : result CreatedSession.t * Store :=
  let '(cookie_token, s) := generate_session_id s in
  let id_hash := hash_session_id cookie_token in
  let row := {| Row.user_id := user; Row.active_org_id := org; Row.created_at := now; Row.last_used_at := now;
    Row.expires_at := now + days (absolute_timeout_days cfg); Row.ip_hash := ip; Row.user_agent_hash := agent |} in
  match sessions s !! id_hash with
  | Some _ => (Err (Other "session::create"), s)
  | None =>
      (Ok {| CreatedSession.cookie_token := cookie_token; CreatedSession.row := row_of id_hash row |},
       set_sessions <[id_hash := row]> s)
  end.

Definition destroy_by_hash (id_hash : string) : Store → Store := set_sessions (delete id_hash).

(** Past its absolute or its idle timeout. *)
Definition over (now : DateTime) (r : Row.t) : bool :=
  (Row.expires_at r <=? now) || (days (idle_timeout_days cfg) <? now - Row.last_used_at r).

Definition lookup (now : DateTime) (cookie_token : string) (s : Store) : LookupOutcome.t * Store :=
  let id_hash := hash_session_id cookie_token in
  match sessions s !! id_hash with
  | None => (LookupOutcome.Missing, s)
  | Some r =>
      if over now r then (LookupOutcome.Expired, destroy_by_hash id_hash s)
      else (LookupOutcome.Active (row_of id_hash r), s)
  end.

(** The user's [last_seen_at] follows unless it is less than a minute old. *)
Definition see (now : DateTime) (id_hash : string) (s : Store) : Store :=
  match sessions s !! id_hash with
  | None => s
  | Some r =>
      let user := Row.user_id r in
      {| sessions := <[id_hash := Row.used now r]> (sessions s);
         last_seen := if is_none_or (λ t, t <? now - seconds 60) (last_seen s !! user)
                      then <[user := now]> (last_seen s) else last_seen s;
         generated := generated s |}
  end.

(** [cache] is the replica's; it is filled once the statement is known to have
    worked. *)
Definition touch_last_used_debounced (now : DateTime) (out : outcome) (cache : gmap string DateTime) (id_hash : string)
    (s : Store) : result unit * (gmap string DateTime * Store) :=
  if is_some_and (λ last, now - last <? seconds LAST_USED_DEBOUNCE_SECS) (cache !! id_hash) then (Ok tt, (cache, s))
  else
    match database out (update (λ s, (tt, see now id_hash s))) s with
    | (Ok _, s) => (Ok tt, (<[id_hash := now]> cache, s))
    | (Err e, s) => (Err e, (cache, s))
    end.

Definition set_active_org_by_hash (now : DateTime) (id_hash : string) (org : OrgId) (s : Store) : bool * Store :=
  match sessions s !! id_hash with
  | Some r => if now <? Row.expires_at r then (true, set_sessions <[id_hash := Row.with_org (Some org) r]> s) else (false, s)
  | None => (false, s)
  end.

Definition adopts (now : DateTime) (user : UserId) (r : Row.t) : bool :=
  bool_decide (Row.user_id r = user) && is_none (Row.active_org_id r) && (now <? Row.expires_at r).
Definition adopt_org_for_orphan_sessions (now : DateTime) (user : UserId) (org : OrgId) : Store → Store :=
  set_sessions (fmap (λ r, if adopts now user r then Row.with_org (Some org) r else r)).

Definition destroy (cookie_token : string) : Store → Store := destroy_by_hash (hash_session_id cookie_token).
Definition destroy_all_for_user (user : UserId) : Store → Store :=
  set_sessions (filter (λ kv, Row.user_id kv.2 ≠ user)).
Definition destroy_others_for_user (user : UserId) (keep : string) : Store → Store :=
  set_sessions (filter (λ kv, Row.user_id kv.2 ≠ user ∨ kv.1 = keep)).
Definition destroy_for_user (user : UserId) (id_hash : string) (s : Store) : bool * Store :=
  match sessions s !! id_hash with
  | Some r => if decide (Row.user_id r = user) then (true, destroy_by_hash id_hash s) else (false, s)
  | None => (false, s)
  end.

Definition list_for_user (user : UserId) (s : Store) : list SessionListing.t :=
  sort_by (desc (on SessionListing.last_used_at Z.leb))
    ((λ kv : string * Row.t, let '(h, r) := kv in
      {| SessionListing.id_hash := h; SessionListing.created_at := Row.created_at r;
         SessionListing.last_used_at := Row.last_used_at r; SessionListing.expires_at := Row.expires_at r;
         SessionListing.ip_hash := Row.ip_hash r; SessionListing.user_agent_hash := Row.user_agent_hash r |})
     <$> map_to_list (filter (λ kv, Row.user_id kv.2 = user) (sessions s))).

(** jobs/retention.rs. *)
Definition sweep_sessions (now : DateTime) : Store → Store :=
  set_sessions (filter (λ kv, ¬ (Row.expires_at kv.2 < now ∨
    Row.last_used_at kv.2 < now - days (idle_timeout_days cfg)))).

Definition build_cookie (v : string) : Cookie := {|
  name := cookie_name cfg; value := v; http_only := true; secure := cookie_secure cfg; path := "/";
  domain := if String.eqb (cookie_domain cfg) "" then None else Some (cookie_domain cfg);
  max_age_secs := absolute_timeout_days cfg * 86400 |}.
Definition clear_cookie : Cookie := {|
  name := cookie_name cfg; value := ""; http_only := true; secure := cookie_secure cfg; path := "/";
  domain := if String.eqb (cookie_domain cfg) "" then None else Some (cookie_domain cfg);
  max_age_secs := 0 |}.

(** ** The calls over replicas *)
Record Service := { store : Store; caches : nat → gmap string DateTime }.
Definition on_store (f : Store → Store) (st : Service) : Service := {| store := f (store st); caches := caches st |}.
Definition empty : Service :=
  {| store := {| sessions := ∅; last_seen := ∅; generated := 0 |}; caches _ := ∅ |}.

Definition touch (now : DateTime) (replica : nat) (id_hash : string) (out : outcome) (st : Service) : result unit * Service :=
  let '(answer, (cache, s)) := touch_last_used_debounced now out (caches st replica) id_hash (store st) in
  (answer, {| store := s; caches := λ i, if decide (i = replica) then cache else caches st i |}).

(** What can happen to the rows. A request calls [Lookup] and then, when it found an
    active session, [Touch] on the row it found. *)
Inductive call :=
| Create (user : UserId) (org : option OrgId) (ip agent : option string)
| Lookup (cookie : string)
| Touch (replica : nat) (id_hash : string) (out : outcome)
| SetActiveOrg (id_hash : string) (org : OrgId)
| AdoptOrg (user : UserId) (org : OrgId)
| Destroy (cookie : string)
| DestroyAll (user : UserId)                    (* also the deletion of an account *)
| DestroyOthers (user : UserId) (keep : string)
| DestroyFor (user : UserId) (id_hash : string)
| Sweep
| OrgsChanged (f : UserId → option OrgId → option OrgId)   (* deleted or restored elsewhere *)
| Evict (replica : nat) (id_hash : string).     (* by the cache: age or capacity *)

Definition apply (now : DateTime) (c : call) (st : Service) : Service :=
  match c with
  | Create user org ip agent => on_store (λ s, (create now user org ip agent s).2) st
  | Lookup cookie => on_store (λ s, (lookup now cookie s).2) st
  | Touch replica id_hash out => (touch now replica id_hash out st).2
  | SetActiveOrg id_hash org => on_store (λ s, (set_active_org_by_hash now id_hash org s).2) st
  | AdoptOrg user org => on_store (adopt_org_for_orphan_sessions now user org) st
  | Destroy cookie => on_store (destroy cookie) st
  | DestroyAll user => on_store (destroy_all_for_user user) st
  | DestroyOthers user keep => on_store (destroy_others_for_user user keep) st
  | DestroyFor user id_hash => on_store (λ s, (destroy_for_user user id_hash s).2) st
  | Sweep => on_store (sweep_sessions now) st
  | OrgsChanged f => on_store (set_sessions (fmap (λ r, Row.with_org (f (Row.user_id r) (Row.active_org_id r)) r))) st
  | Evict replica id_hash =>
      {| store := store st; caches := λ i, if decide (i = replica) then delete id_hash (caches st i) else caches st i |}
  end.

(** A run: calls at instants that never step back. *)
Inductive runs (allowed : call → bool) : DateTime → Service → DateTime → Service → Prop :=
| runs_refl now st : runs allowed now st now st
| runs_step now st now1 st1 c now2 : runs allowed now st now1 st1 → now1 ≤ now2 → allowed c = true →
    runs allowed now st now2 (apply now2 c st1).
Definition reachable (now : DateTime) (st : Service) : Prop := ∃ start, runs (λ _, true) start empty now st.
End Calls.

(** ** How rows live *)
Section Facts.
Context `{Random} `{Primitives}.
Context (cfg : SessionConfig).
Definition digest (n : nat) : string := hash_session_id (session_secret n).
(** No two of the secrets drawn hash alike. *)
Context (session_digest_inj : ∀ n m, digest n = digest m → n = m).
#[local] Abbreviation apply := (apply cfg).
#[local] Abbreviation runs := (runs cfg).
#[local] Abbreviation reachable := (reachable cfg).

Definition same_life (r r' : Row.t) : Prop :=
  Row.user_id r' = Row.user_id r ∧ Row.created_at r' = Row.created_at r ∧ Row.expires_at r' = Row.expires_at r.

(** A call stamps the row of [h]. *)
Definition stamps (c : call) (h : string) : Prop := ∃ replica out, c = Touch replica h out.

Definition carried (now : DateTime) (c : call) (s : Store) (h : string) (r' : Row.t) : Prop :=
  ∃ r, sessions s !! h = Some r ∧ same_life r r' ∧
    (Row.last_used_at r' = Row.last_used_at r ∨ stamps c h ∧ Row.last_used_at r' = now).
Definition opened (now : DateTime) (s s' : Store) (h : string) (r' : Row.t) : Prop :=
  h = digest (generated s) ∧ generated s' = S (generated s) ∧ Row.created_at r' = now ∧ Row.last_used_at r' = now ∧
  Row.expires_at r' = now + days (absolute_timeout_days cfg).

Record evolves (now : DateTime) (c : call) (s s' : Store) : Prop := {
  evolves_generated : (generated s ≤ generated s')%nat;
  evolves_rows h r' : sessions s' !! h = Some r' → carried now c s h r' ∨ opened now s s' h r';
}.

Lemma carried_same now c s h r : sessions s !! h = Some r → carried now c s h r.
Proof. intros Hr. exists r. split; [done|]. by split; [|left]. Qed.

(** Rows taken away, or given another organization. *)
Lemma evolves_filter now c f s :
  (∀ h r', f (sessions s) !! h = Some r' → ∃ r, sessions s !! h = Some r ∧ same_life r r' ∧
     Row.last_used_at r' = Row.last_used_at r) →
  evolves now c s (set_sessions f s).
Proof.
  intros Hf. split; [done|]. intros h r' (r & ? & ? & ?)%Hf. left. exists r. by split; [|split; [|left]].
Qed.
Lemma evolves_submap now c f s : (∀ m : gmap string Row.t, f m ⊆ m) → evolves now c s (set_sessions f s).
Proof. intros Hf. apply evolves_filter. intros h r' Hr. exists r'. split; [by eapply lookup_weaken|done]. Qed.
Lemma evolves_orgs now c g s :
  (∀ r, ∃ org, g r = Row.with_org org r ∨ g r = r) → evolves now c s (set_sessions (fmap g) s).
Proof.
  intros Hg. apply evolves_filter. intros h r'. rewrite lookup_fmap. intros (r & Hr & ->)%fmap_Some.
  exists r. split; [done|]. by destruct (Hg r) as (org & [-> | ->]).
Qed.
Lemma evolves_refl now c s : evolves now c s s.
Proof. split; [done|]. intros. left. by apply carried_same. Qed.

Lemma lookup_evolves now c cookie s : evolves now c s (lookup cfg now cookie s).2.
Proof.
  unfold lookup. destruct (sessions s !! _) as [r|]; [|apply evolves_refl].
  destruct (over cfg now r); [|apply evolves_refl]. apply evolves_submap. intros m. apply delete_subseteq.
Qed.
Lemma create_evolves now user org ip agent c s : evolves now c s (create cfg now user org ip agent s).2.
Proof.
  unfold create, generate_session_id. simpl.
  assert (Hlater : evolves now c s {| sessions := sessions s; last_seen := last_seen s; generated := S (generated s) |}).
  { split; [simpl; lia|]. intros. left. by apply carried_same. }
  destruct (sessions s !! _) eqn:E; [done|]. split; [simpl; lia|]. simpl.
  intros h r' [[<- <-]|[? Hr]]%lookup_insert_Some; [by right|left; by apply carried_same].
Qed.
(** A use stamp touches one row, and that row only when it is there. *)
Lemma touch_cases now replica h out st :
  let st' := (touch now replica h out st).2 in
  (store st' = store st ∨ store st' = see now h (store st)) ∧
  ∀ i h' last, caches st' i !! h' = Some last →
    caches st i !! h' = Some last ∨ h' = h ∧ last = now ∧ store st' = see now h (store st).
Proof.
  unfold touch, touch_last_used_debounced. destruct (is_some_and _ _) eqn:E; simpl.
  { split; [by left|]. intros i h' last. destruct (decide _) as [->|]; by left. }
  destruct out; simpl.
  - split; [by right|]. intros i h' last. destruct (decide _) as [->|]; [|by left].
    intros [[<- <-]|[_ Hl]]%lookup_insert_Some; [by right|by left].
  - split; [by left|]. intros i h' last. destruct (decide _) as [->|]; by left.
  - split; [by right|]. intros i h' last. destruct (decide _) as [->|]; by left.
Qed.
Lemma see_evolves now replica h out s : evolves now (Touch replica h out) s (see now h s).
Proof.
  unfold see. destruct (sessions s !! h) as [r|] eqn:E; [|apply evolves_refl]. split; [done|]. simpl.
  intros h' r' [[<- <-]|[? Hr]]%lookup_insert_Some; left; [|by apply carried_same].
  exists r. split; [done|]. split; [done|right]. split; [|done]. by exists replica, out.
Qed.
Lemma touch_evolves now replica h out st :
  evolves now (Touch replica h out) (store st) (store (touch now replica h out st).2).
Proof.
  destruct (touch_cases now replica h out st) as [[-> | ->] _]; [apply evolves_refl|apply see_evolves].
Qed.
Lemma apply_evolves now c st : evolves now c (store st) (store (apply now c st)).
Proof.
  destruct c; [apply create_evolves|apply lookup_evolves|apply touch_evolves|..]; simpl.
  - unfold set_active_org_by_hash. destruct (sessions _ !! _) as [r|] eqn:E; [|apply evolves_refl].
    destruct (_ <? _); [|apply evolves_refl]. apply evolves_filter.
    intros h r' [[<- <-]|[? Hr]]%lookup_insert_Some; [exists r|exists r']; done.
  - apply evolves_orgs. intros r. exists (Some org). destruct (adopts _ _ _); [left|right]; done.
  - apply evolves_submap. intros m. apply delete_subseteq.
  - apply evolves_submap. intros m. apply map_filter_subseteq.
  - apply evolves_submap. intros m. apply map_filter_subseteq.
  - unfold destroy_for_user. destruct (sessions _ !! _); [|apply evolves_refl].
    destruct (decide _); [|apply evolves_refl]. apply evolves_submap. intros m. apply delete_subseteq.
  - apply evolves_submap. intros m. apply map_filter_subseteq.
  - apply evolves_orgs. intros r. eexists. by left.
  - apply evolves_refl.
Qed.

Lemma apply_caches now c st i h last :
  caches (apply now c st) i !! h = Some last →
  caches st i !! h = Some last ∨
  last = now ∧ ∀ r', sessions (store (apply now c st)) !! h = Some r' → Row.last_used_at r' = now.
Proof.
  destruct c; simpl; try by left.
  - destruct (touch_cases now replica id_hash out st) as [_ Hc].
    intros [?|(-> & -> & ->)]%Hc; [by left|right]. split; [done|]. intros r'. unfold see.
    destruct (sessions (store st) !! id_hash) as [r|] eqn:E; simpl; [|congruence].
    rewrite lookup_insert_eq. by intros [= <-].
  - destruct (decide _) as [->|]; [|by left]. intros [_ ?]%lookup_delete_Some. by left.
Qed.

Definition drawn_secret (s : Store) (h : string) : Prop := ∃ n, (n < generated s)%nat ∧ h = digest n.

Record inv (now : DateTime) (st : Service) : Prop := {
  inv_rows h r : sessions (store st) !! h = Some r →
    drawn_secret (store st) h ∧ Row.created_at r ≤ Row.last_used_at r ≤ now ∧
    Row.expires_at r = Row.created_at r + days (absolute_timeout_days cfg);
  inv_caches i h last : caches st i !! h = Some last →
    last ≤ now ∧ ∀ r, sessions (store st) !! h = Some r → last ≤ Row.last_used_at r;
}.

Lemma drawn_later now c s s' h : evolves now c s s' → drawn_secret s h → drawn_secret s' h.
Proof. intros [Hg _] (n & Hn & ->). exists n. split; [lia|done]. Qed.
Lemma drawn_not_opened now s s' h r : drawn_secret s h → ¬ opened now s s' h r.
Proof. intros (n & Hn & ->) (Heq%session_digest_inj & _). lia. Qed.

Lemma session_apply_inv now now' c st : now ≤ now' → inv now st → inv now' (apply now' c st).
Proof.
  intros Hle [Hrows Hcaches]. pose proof (apply_evolves now' c st) as Hev. split.
  - intros h r' Hr'. destruct (evolves_rows _ _ _ _ Hev h r' Hr') as [(r & Hr & (_ & Hc & He) & Hu)|Hop].
    + destruct (Hrows h r Hr) as (Hd & Hlast & Hexp). split; [by eapply drawn_later|].
      rewrite Hc, He. destruct Hu as [->|[_ ->]]; lia.
    + destruct Hop as (-> & Hg & -> & -> & ->). split; [|lia]. exists (generated (store st)). split; [lia|done].
  - intros i h last [Hl|(-> & Hnow)]%apply_caches.
    + destruct (Hcaches i h last Hl) as [Hd Hlast]. split; [lia|]. intros r' Hr'.
      destruct (evolves_rows _ _ _ _ Hev h r' Hr') as [(r & Hr & _ & Hu)|(_ & _ & _ & -> & _)]; [|lia].
      pose proof (Hlast r Hr). destruct (Hrows h r Hr) as (_ & ? & _). destruct Hu as [->|[_ ->]]; lia.
    + split; [done|]. intros r' ->%Hnow. lia.
Qed.

Lemma runs_inv allowed now st now' st' : inv now st → runs allowed now st now' st' → now ≤ now' ∧ inv now' st'.
Proof.
  intros Hinv. induction 1 as [|? ? ? ? ? ? ? IH]; [done|]. destruct (IH Hinv). split; [lia|]. by eapply session_apply_inv.
Qed.
Lemma session_reachable_inv now st : reachable now st → inv now st.
Proof. intros [start Hr]. eapply runs_inv; [|done]. by split. Qed.

(** The session behind a cookie, as the lookup tells it. *)
Lemma lookup_active now cookie s r s' :
  lookup cfg now cookie s = (LookupOutcome.Active r, s') ↔
  s' = s ∧ ∃ row, sessions s !! hash_session_id cookie = Some row ∧ over cfg now row = false ∧
    r = row_of (hash_session_id cookie) row.
Proof.
  unfold lookup. destruct (sessions s !! _) as [row|]; [destruct (over cfg now row) eqn:E|].
  - split; [done|]. intros (_ & row' & [= <-] & Ho & _). congruence.
  - split; [intros [= <- <-]; split; [done|by exists row]|]. by intros (-> & row' & [= <-] & _ & ->).
  - split; [done|]. by intros (_ & row' & ? & _).
Qed.

Lemma over_false now r :
  over cfg now r = false ↔ now < Row.expires_at r ∧ now - Row.last_used_at r ≤ days (idle_timeout_days cfg).
Proof. unfold over. rewrite orb_false_iff, Z.leb_gt, Z.ltb_ge. done. Qed.

(** A cookie opens its own session, within its lifetime. In every reachable state a
    lookup that finds an active session has hashed the cookie to the hash of a secret
    the server drew, changes nothing, and tells the user and organization of that
    row; the session was created at most [absolute_timeout_days] ago and used within
    the last [idle_timeout_days]. *)
Theorem session_lifetime_bounded now st cookie r s' :
  reachable now st → lookup cfg now cookie (store st) = (LookupOutcome.Active r, s') →
  s' = store st ∧
  ∃ n row, (n < generated (store st))%nat ∧ hash_session_id cookie = digest n ∧
    sessions (store st) !! digest n = Some row ∧ r = row_of (digest n) row ∧
    Row.created_at row ≤ now < Row.created_at row + days (absolute_timeout_days cfg) ∧
    0 ≤ now - Row.last_used_at row ≤ days (idle_timeout_days cfg).
Proof.
  intros [Hrows _]%session_reachable_inv (-> & row & Hrow & Ho%over_false & ->)%lookup_active. split; [done|].
  destruct (Hrows _ _ Hrow) as ((n & Hn & Hd) & Hlast & He). exists n, row. rewrite <-Hd. split_and!; try done; lia.
Qed.

(** ** Ends *)
Definition ends (h : string) (user : UserId) (c : call) : bool :=
  match c with
  | Destroy cookie => String.eqb (hash_session_id cookie) h
  | DestroyAll u => bool_decide (u = user)
  | DestroyOthers u keep => bool_decide (u = user) && negb (String.eqb keep h)
  | DestroyFor u h' => bool_decide (u = user) && String.eqb h' h
  | _ => false
  end.

Definition dead (h : string) (s : Store) : Prop := drawn_secret s h ∧ sessions s !! h = None.

Lemma dead_later allowed now st now' st' h :
  dead h (store st) → runs allowed now st now' st' → dead h (store st').
Proof.
  intros Hdead. induction 1 as [|? ? ? ? c now2 ? IH Hle]; [done|]. destruct (IH Hdead) as [Hd Hnone].
  pose proof (apply_evolves now2 c st1) as Hev. split; [by eapply drawn_later|].
  apply eq_None_not_Some. intros [r' Hr'].
  destruct (evolves_rows _ _ _ _ Hev h r' Hr') as [(r & Hr & _)|Hop]; [congruence|by eapply drawn_not_opened in Hop].
Qed.

Lemma ended now c st h r : sessions (store st) !! h = Some r → ends h (Row.user_id r) c = true →
  sessions (store (apply now c st)) !! h = None.
Proof.
  intros Hr. destruct c; simpl; try done.
  - intros <-%String.eqb_eq. apply lookup_delete_eq.
  - intros ->%bool_decide_eq_true. apply map_lookup_filter_None. right. intros r' Hr'. simplify_eq. tauto.
  - intros [->%bool_decide_eq_true Hk%negb_true_iff%String.eqb_neq]%andb_true_iff.
    apply map_lookup_filter_None. right. intros r' Hr' [Hu|Hk']; simplify_eq/=; congruence.
  - intros [->%bool_decide_eq_true ->%String.eqb_eq]%andb_true_iff. unfold destroy_for_user. rewrite Hr.
    rewrite decide_True by done. apply lookup_delete_eq.
Qed.

Lemma lookup_closes now cookie s : drawn_secret s (hash_session_id cookie) →
  (∀ r, (lookup cfg now cookie s).1 ≠ LookupOutcome.Active r) → dead (hash_session_id cookie) (lookup cfg now cookie s).2.
Proof.
  intros Hd. unfold lookup. destruct (sessions s !! _) as [r|] eqn:E; [|done].
  destruct (over cfg now r); simpl; [|intros Hno; by destruct (Hno _ eq_refl)].
  intros _. split; [done|]. apply lookup_delete_eq.
Qed.
Lemma dead_not_active now cookie s r : dead (hash_session_id cookie) s →
  (lookup cfg now cookie s).1 ≠ LookupOutcome.Active r.
Proof. intros [_ Hnone]. unfold lookup. by rewrite Hnone. Qed.

(** C19: a session that is over stays over. Once a lookup of a cookie the server handed
    out finds no active session, none does ever after, whatever calls are made, by
    whom and on which replica, the use stamps of requests already under way among
    them; and signing out, signing out everywhere, ending one's other sessions or
    revoking this one each end the session at once. *)
Theorem dead_session_stays_dead now st cookie now' st' :
  reachable now st → drawn_secret (store st) (hash_session_id cookie) →
  (∀ allowed, (∀ r, (lookup cfg now cookie (store st)).1 ≠ LookupOutcome.Active r) →
     runs allowed now (apply now (Lookup cookie) st) now' st' →
     ∀ r, (lookup cfg now' cookie (store st')).1 ≠ LookupOutcome.Active r) ∧
  (∀ c row allowed, sessions (store st) !! hash_session_id cookie = Some row →
     ends (hash_session_id cookie) (Row.user_id row) c = true → runs allowed now (apply now c st) now' st' →
     ∀ r, (lookup cfg now' cookie (store st')).1 ≠ LookupOutcome.Active r).
Proof.
  intros Hinv%session_reachable_inv Hd. split.
  - intros allowed Hno Hruns r. apply dead_not_active. eapply dead_later; [|done]. by apply lookup_closes.
  - intros c row allowed Hrow Hends Hruns r. apply dead_not_active. eapply dead_later; [|done]. split.
    + by eapply drawn_later; [apply apply_evolves|].
    + by apply ended with row.
Qed.

(** ** Staying signed in *)
Lemma kept now c st h r : sessions (store st) !! h = Some r → over cfg now r = false →
  ends h (Row.user_id r) c = false → drawn_secret (store st) h →
  ∃ r', sessions (store (apply now c st)) !! h = Some r' ∧ same_life r r' ∧
    (Row.last_used_at r' = Row.last_used_at r ∨ Row.last_used_at r' = now).
Proof.
  intros Hr Ho He (n & Hn & ->).
  assert (Hsame : ∃ r', Some r = Some r' ∧ same_life r r' ∧ (Row.last_used_at r' = Row.last_used_at r ∨ Row.last_used_at r' = now)).
  { exists r. split; [done|]. by split; [|left]. }
  assert (Horg : ∀ org, ∃ r', Some (Row.with_org org r) = Some r' ∧ same_life r r' ∧
    (Row.last_used_at r' = Row.last_used_at r ∨ Row.last_used_at r' = now)).
  { intros org. eexists. split; [done|]. by split; [|left]. }
  destruct c; simpl in *.
  - unfold create, generate_session_id. simpl. destruct (sessions _ !! hash_session_id _) eqn:E; simpl; [by rewrite Hr|].
    rewrite lookup_insert_ne; [by rewrite Hr|]. intros Heq. fold (digest (generated (store st))) in Heq.
    apply session_digest_inj in Heq. lia.
  - unfold lookup. destruct (sessions (store st) !! hash_session_id cookie) as [r0|] eqn:E; [|by simpl; rewrite Hr].
    destruct (over cfg now r0) eqn:Ho0; simpl; [|by rewrite Hr].
    rewrite lookup_delete_ne; [by rewrite Hr|]. intros Heq. rewrite Heq in E. congruence.
  - destruct (touch_cases now replica id_hash out st) as [[-> | ->] _]; [by rewrite Hr|]. unfold see.
    destruct (sessions (store st) !! id_hash) as [r0|] eqn:E; [|by rewrite Hr]. simpl.
    destruct (decide (id_hash = digest n)) as [->|Hne].
    + rewrite Hr in E. simplify_eq. rewrite lookup_insert_eq. eexists. split; [done|]. by split; [|right].
    + rewrite lookup_insert_ne by done. by rewrite Hr.
  - unfold set_active_org_by_hash. destruct (sessions (store st) !! id_hash) as [r0|] eqn:E; [|by simpl; rewrite Hr].
    destruct (now <? _); simpl; [|by rewrite Hr]. destruct (decide (id_hash = digest n)) as [->|Hne].
    + rewrite Hr in E. simplify_eq. rewrite lookup_insert_eq. apply Horg.
    + rewrite lookup_insert_ne by done. by rewrite Hr.
  - rewrite lookup_fmap, Hr. simpl. destruct (adopts _ _ _); [apply Horg|done].
  - rewrite lookup_delete_ne; [by rewrite Hr|]. by apply String.eqb_neq in He.
  - apply bool_decide_eq_false in He. rewrite (map_lookup_filter_Some_2 _ _ _ r); [done|done|]. by intros <-.
  - rewrite (map_lookup_filter_Some_2 _ _ _ r); [done|done|]. simpl.
    apply andb_false_iff in He as [He%bool_decide_eq_false|He%negb_false_iff%String.eqb_eq]; [left|by right]. congruence.
  - unfold destroy_for_user. destruct (sessions (store st) !! id_hash) as [r0|] eqn:E; [|by simpl; rewrite Hr].
    destruct (decide (Row.user_id r0 = user)) as [Hu|Hu]; simpl; [|by rewrite Hr]. rewrite lookup_delete_ne; [by rewrite Hr|]. intros ->.
    rewrite Hr in E. simplify_eq. rewrite bool_decide_eq_true_2, String.eqb_refl in He by done. done.
  - rewrite (map_lookup_filter_Some_2 _ _ _ r); [done|done|]. simpl. apply over_false in Ho. lia.
  - rewrite lookup_fmap, Hr. apply Horg.
  - by rewrite Hr.
Qed.

(** What a stamp that worked leaves: the row was stamped less than a minute before. *)
Lemma used_recently now st replica h row :
  inv now st → sessions (store st) !! h = Some row →
  ∃ row', sessions (store (touch now replica h Works st).2) !! h = Some row' ∧ same_life row row' ∧
    now - seconds LAST_USED_DEBOUNCE_SECS < Row.last_used_at row'.
Proof.
  intros Hinv Hrow. unfold touch, touch_last_used_debounced, see. destruct (is_some_and _ _) eqn:Hc; simpl.
  - exists row. split; [done|]. split; [done|].
    destruct (caches st replica !! _) as [last|] eqn:Hlast; [|done]. simpl in Hc. apply Z.ltb_lt in Hc.
    destruct (inv_caches _ _ Hinv _ _ _ Hlast) as [_ Hle]. specialize (Hle _ Hrow). lia.
  - rewrite Hrow. simpl. rewrite lookup_insert_eq. eexists. split; [done|]. split; [done|]. simpl.
    unfold seconds, LAST_USED_DEBOUNCE_SECS, NANOS. lia.
Qed.

(** While nobody ends it, a row used at [since] is there until its deadline and until
    [since] plus the idle timeout. *)
Lemma stays h user expires since now st now' st' :
  runs (λ c, negb (ends h user c)) now st now' st' → since ≤ now →
  now' - since ≤ days (idle_timeout_days cfg) → now' < expires →
  let fresh s := drawn_secret (store s) h ∧ ∃ row, sessions (store s) !! h = Some row ∧
    Row.user_id row = user ∧ Row.expires_at row = expires ∧ since ≤ Row.last_used_at row in
  fresh st → now ≤ now' ∧ fresh st'.
Proof.
  intros Hruns Hsince. cbv zeta. induction Hruns as [|now st t1 s1 c t2 _ IH Hle Hc]; intros Hidle Hexp Hfresh; [done|].
  destruct (IH Hsince ltac:(lia) ltac:(lia) Hfresh) as (Hnow & Hd & row & Hrow & Hu & He & Hl). split; [lia|].
  split; [by eapply drawn_later; [apply apply_evolves|]|]. apply negb_true_iff in Hc.
  destruct (kept t2 c s1 h row Hrow) as (row' & Hrow' & (Hu' & _ & He') & Hlast); [..|done|].
  - apply over_false. lia.
  - by rewrite Hu.
  - exists row'. split; [done|]. split; [congruence|]. split; [congruence|]. destruct Hlast as [->| ->]; [done|lia].
Qed.

(** The cookie opens the session of [r]: its user, its deadline. *)
Definition still_opens (now : DateTime) (cookie : string) (r : SessionRow.t) (s : Store) : Prop :=
  ∃ r', (lookup cfg now cookie s).1 = LookupOutcome.Active r' ∧
    SessionRow.user_id r' = SessionRow.user_id r ∧ SessionRow.expires_at r' = SessionRow.expires_at r.

Lemma fresh_opens now cookie r st since :
  (drawn_secret (store st) (hash_session_id cookie) ∧ ∃ row, sessions (store st) !! hash_session_id cookie = Some row ∧
    Row.user_id row = SessionRow.user_id r ∧ Row.expires_at row = SessionRow.expires_at r ∧ since ≤ Row.last_used_at row) →
  now - since ≤ days (idle_timeout_days cfg) → now < SessionRow.expires_at r → still_opens now cookie r (store st).
Proof.
  intros (_ & row & Hrow & Hu & He & Hl) Hidle Hexp. exists (row_of (hash_session_id cookie) row). unfold lookup. rewrite Hrow.
  replace (over cfg now row) with false by (symmetry; apply over_false; lia). done.
Qed.

(** C28: whoever keeps using it stays signed in. Take a request whose lookup finds an
    active session, and let anyone make any calls short of ending that session, those
    of requests whose use stamp fails, comes late or never comes among them. The
    cookie still opens the session, for the same user, before its absolute deadline,
    as long as no more than the idle timeout has passed since the last use the lookup
    read off the row: a failed stamp costs only the renewal. And once a stamp of the
    row works within that time, the cookie opens it until the idle timeout, less the
    minute of the debounce, has passed since that stamp. *)
Theorem active_user_stays_signed_in now st cookie r now' st' :
  reachable now st → (lookup cfg now cookie (store st)).1 = LookupOutcome.Active r →
  let unended := runs (λ c, negb (ends (hash_session_id cookie) (SessionRow.user_id r) c)) in
  now' < SessionRow.expires_at r →
  (unended now st now' st' → now' - SessionRow.last_used_at r ≤ days (idle_timeout_days cfg) →
     still_opens now' cookie r (store st')) ∧
  (∀ now1 st1 replica, unended now st now1 st1 → now1 - SessionRow.last_used_at r ≤ days (idle_timeout_days cfg) →
     unended now1 (apply now1 (Touch replica (SessionRow.id r) Works) st1) now' st' →
     now' - now1 ≤ days (idle_timeout_days cfg) - seconds LAST_USED_DEBOUNCE_SECS →
     still_opens now' cookie r (store st')).
Proof.
  intros Hinv%session_reachable_inv Hl unended Hexp.
  destruct (lookup cfg now cookie (store st)) as [o s] eqn:E. simpl in Hl. subst o.
  apply lookup_active in E as (_ & row & Hrow & _ & ->).
  destruct (inv_rows _ _ Hinv _ _ Hrow) as (Hd & [_ Hle] & _). simpl in *.
  assert (Hkept : ∀ t s, unended now st t s → t - Row.last_used_at row ≤ days (idle_timeout_days cfg) →
    t < Row.expires_at row → now ≤ t ∧ drawn_secret (store s) (hash_session_id cookie) ∧
    ∃ row', sessions (store s) !! hash_session_id cookie = Some row' ∧ Row.user_id row' = Row.user_id row ∧
      Row.expires_at row' = Row.expires_at row ∧ Row.last_used_at row ≤ Row.last_used_at row').
  { intros t s1 Hr Hi He. eapply stays; [done..|]. split; [done|]. by exists row. }
  split; [intros Hruns Hidle; destruct (Hkept _ _ Hruns Hidle Hexp) as [_ Hf]; by eapply fresh_opens|].
  intros now1 st1 replica Hruns Hidle1 Hruns1 Hidle.
  pose proof (runs_inv _ _ _ _ _ Hinv Hruns) as [_ Hinv1].
  assert (now1 ≤ now') by (clear -Hruns1; induction Hruns1; lia).
  destruct (Hkept _ _ Hruns Hidle1) as (_ & Hd1 & row1 & Hrow1 & Hu1 & He1 & _); [lia|].
  destruct (used_recently now1 st1 replica _ _ Hinv1 Hrow1) as (row2 & Hrow2 & (Hu2 & _ & He2) & Hl2).
  eapply fresh_opens; [|instantiate (1 := now1 - seconds LAST_USED_DEBOUNCE_SECS); simpl; lia|done].
  eapply stays; [exact Hruns1|unfold seconds, LAST_USED_DEBOUNCE_SECS, NANOS; lia|lia|done|].
  split; [eapply drawn_later; [apply touch_evolves|done]|]. exists row2. split_and!; [done|simpl; congruence|simpl; congruence|lia].
Qed.
End Facts.

(** ** A session at work *)
Module SessionsSample.
#[local] Existing Instances TokensSample.random TokensSample.toy TokensSample.toy_laws.
Lemma session_digest_inj n m : digest n = digest m → n = m.
Proof.
  intros Heq. apply (f_equal (λ s, CryptoSample.unhex (drop_chars 1 s))) in Heq.
  change (CryptoSample.unhex (CryptoSample.hex (pretty n)) = CryptoSample.unhex (CryptoSample.hex (pretty m))) in Heq.
  rewrite !CryptoSample.unhex_hex in Heq. by apply (inj pretty) in Heq.
Qed.
Definition cfg : SessionConfig := {|
  idle_timeout_days := 30; absolute_timeout_days := 90; cookie_name := "_sm_session"; cookie_secure := true;
  cookie_domain := ""; renew_on_use := true |}.
Definition cookie : string := session_secret 0.
Definition signed_in : Service := apply cfg 0 (Create 7%N (Some 3%N) None None) empty.
Definition looked_up : Service := apply cfg (days 20) (Lookup cookie) signed_in.
Definition stamped : Service := apply cfg (days 20) (Touch 0 (hash_session_id cookie) Works) looked_up.
Definition row : Row.t := {|
  Row.user_id := 7%N; Row.active_org_id := Some 3%N; Row.created_at := 0; Row.last_used_at := 0;
  Row.expires_at := days 90; Row.ip_hash := None; Row.user_agent_hash := None |}.

Lemma signed_in_reachable : reachable cfg 0 signed_in.
Proof. exists 0. by apply (runs_step _ _ _ _ 0 empty); [constructor|..]. Qed.
Lemma signed_in_row : sessions (store signed_in) !! hash_session_id cookie = Some row.
Proof. vm_compute. reflexivity. Qed.
Lemma secret_drawn : drawn_secret (store signed_in) (hash_session_id cookie).
Proof. exists 0%nat. split; [vm_compute; lia|reflexivity]. Qed.

Lemma session_lifetime_bounded_witness : ∃ n r, sessions (store signed_in) !! digest n = Some r ∧
  0 ≤ 0 - Row.last_used_at r ≤ days 30.
Proof.
  destruct (session_lifetime_bounded cfg 0 signed_in cookie (row_of (hash_session_id cookie) row) (store signed_in)
    signed_in_reachable) as (_ & n & r & _ & _ & Hr & _ & _ & Hl); [vm_compute; reflexivity|].
  exists n, r. split; [exact Hr|exact Hl].
Defined.

(** Signed out at once, and still signed out after others have signed in. *)
Lemma dead_session_stays_dead_witness :
  let found := (lookup cfg 99 cookie
    (store (apply cfg 99 (Create 8%N None None None) (apply cfg 0 (Destroy cookie) signed_in)))).1 in
  found = LookupOutcome.Missing ∨ found = LookupOutcome.Expired.
Proof.
  intros found.
  destruct (dead_session_stays_dead cfg session_digest_inj 0 signed_in cookie 99
    (apply cfg 99 (Create 8%N None None None) (apply cfg 0 (Destroy cookie) signed_in)) signed_in_reachable secret_drawn)
    as [_ Hended].
  assert (Hnot : ∀ r, found ≠ LookupOutcome.Active r).
  { apply (Hended (Destroy cookie) row (λ _, true) signed_in_row); [vm_compute; reflexivity|].
    apply (runs_step _ _ 0 _ 0); [constructor|lia|reflexivity]. }
  clearbody found. destruct found as [r| |]; [|right; reflexivity|left; reflexivity]. destruct (Hnot r). reflexivity.
Defined.

(** Used on the twentieth day, then left alone for a month less two minutes, while the
    user's other sessions are ended and another request's stamp fails. *)
Definition left_alone : Service :=
  apply cfg (days 50 - seconds 120) (Touch 1 (hash_session_id cookie) Fails)
    (apply cfg (days 25) (DestroyOthers 7%N (hash_session_id cookie)) stamped).
Lemma active_user_stays_signed_in_witness :
  still_opens cfg (days 50 - seconds 120) cookie (row_of (hash_session_id cookie) row) (store left_alone).
Proof.
  destruct (active_user_stays_signed_in cfg session_digest_inj 0 signed_in cookie (row_of (hash_session_id cookie) row)
    (days 50 - seconds 120) left_alone signed_in_reachable) as [_ Hstamped].
  - vm_compute. reflexivity.
  - vm_compute. reflexivity.
  - apply (Hstamped (days 20) looked_up 0%nat).
    + apply (runs_step _ _ 0 _ 0 signed_in (Lookup cookie)); [constructor|vm_compute; discriminate|reflexivity].
    + vm_compute. discriminate.
    + apply (runs_step _ _ (days 20) _ (days 25)); [|vm_compute; discriminate|reflexivity].
      apply (runs_step _ _ (days 20) _ (days 20)); [constructor|vm_compute; discriminate|vm_compute; reflexivity].
    + vm_compute. discriminate.
Defined.
End SessionsSample.
