(* ===== verification/Requests.v ===== *)
(** * Who a request speaks for

    src/web/auth.rs and src/web/auth/: the bearer and the cookie of a request, the
    CSRF guard, the token middleware, the extractors that hand a handler its user
    and its organization, the scope gates; and src/mcp/auth.rs, the front of the MCP
    endpoint. A middleware or extractor is a tree of the store calls it awaits
    (Handlers.v). In front of a handler stand, outermost first, the CSRF guard, the
    token middleware and the extractor; the rate limiter between the last two never
    changes who is asking and is left out, and so are response headers. No request
    carries a stamped [Session] in production, so that shortcut of the extractor is
    left out too. *)

From Stdlib Require Import Ascii.
From S2P Require Import Prelude Text Crypto Scopes ApiTokens Sessions OAuth Handlers.

(** The http, cookie and JSON libraries: [HeaderValue::to_str] and [from_str], the
    value a cookie jar finds in the [Cookie] headers, the name the jar makes of the
    text before a cookie's [=], and [serde_json::from_slice]. *)
Class Http := {
  to_str : string → option string;
  header_value_ok : string → bool;
  jar_get : list string → string → option string;
  cookie_key : string → string;
  Value : Type;
  from_slice : string → option Value;
  as_array : Value → option (list Value);
  get_str : string → Value → option string;       (* a field that is a string *)
}.

(** The cookies of a header: what stands between its semicolons, trimmed. *)
Definition cookie_pairs (raw : string) : list string := str_trim <$> split_on (Ascii.eqb ";"%char) raw.
(** The guard's reading of a header: a cookie that begins with the name and an [=]. *)
Definition names_cookie (cookie_name raw : string) : bool :=
  existsb (λ kv, is_some_and (String.prefix "=") (strip_prefix cookie_name kv)) (cookie_pairs raw).
(** A header's text is its bytes. The jar reads every [Cookie] header, cookie by cookie,
    as RFC 6265 lays them out, and takes for a cookie's name what it makes ([cookie_key]
    trims, and may decode) of the text before the first [=]. *)
Class HttpLaws `{Http} := {
  to_str_same : ∀ v s, to_str v = Some s → s = v;
  jar_reads_headers : ∀ values name v, jar_get values name = Some v →
    ∃ raw kv key rest, raw ∈ values ∧ kv ∈ cookie_pairs raw ∧ split_once "="%char kv = Some (key, rest) ∧
      cookie_key key = name;
}.

Inductive Method := GET | HEAD | OPTIONS | TRACE | POST | PUT | PATCH | DELETE | Extension (m : string).
#[global] Instance Method_eq_dec : EqDecision Method.
Proof. solve_decision. Defined.

Record HttpRequest := {
  method : Method;
  path : string;
  headers : string → list string;     (* the values of a name, first one first *)
  body : string;
}.
Definition header (name : string) (req : HttpRequest) : option string := head (headers req name).

(** ** The rows the extractors read *)
Record Account := { email : string; email_verified_at : option DateTime; deleted_at : option DateTime }.
Record Organization := { slug : string; tombstoned : bool }.
Record Db := {
  api_tokens : ApiTokens.Store;
  token_debounce : gmap Uuid DateTime;
  sessions : Sessions.Store;
  session_debounce : gmap string DateTime;
  users : gmap UserId Account;
  organizations : gmap OrgId Organization;
  memberships : gmap (UserId * OrgId) string;      (* and the role *)
  now : DateTime;
}.

Inductive MembershipStatus := Owner | Member | NoMember.
Record User := { user_id : UserId; user_email : string }.

(** storage/orgs.rs. *)
Definition live_org (org : OrgId) (s : Db) : bool := is_some_and (λ o, negb (tombstoned o)) (organizations s !! org).
Definition is_active_member (user : UserId) (org : OrgId) (s : Db) : bool :=
  is_some (memberships s !! (user, org)) && live_org org s.
Definition membership_status (user : UserId) (org : OrgId) (s : Db) : MembershipStatus :=
  match memberships s !! (user, org) with
  | Some role => if live_org org s then (if String.eqb role "owner" then Owner else Member) else NoMember
  | None => NoMember
  end.
(** Slugs are unique over the table and compared without case ([citext]). *)
Definition find_id_by_slug (s0 : string) (s : Db) : option OrgId :=
  fst <$> head (List.filter (λ kv, eq_ignore_ascii_case (slug kv.2) s0 && negb (tombstoned kv.2))
    (map_to_list (organizations s))).
Definition load_user (user : UserId) (s : Db) : option User :=
  match users s !! user with
  | Some a => if is_none (deleted_at a) then Some {| user_id := user; user_email := email a |} else None
  | None => None
  end.

Inductive op : Type → Type :=
| LookupToken (raw : string) : op (result ApiTokens.LookupOutcome)
| TouchToken (id : Uuid) : op unit                      (* spawned, its errors logged *)
| LookupSession (cookie : string) : op (result Sessions.LookupOutcome.t)
| TouchSession (id_hash : string) : op (result unit)
| LoadUser (user : UserId) : op (result (option User))
| DeletedAt (user : UserId) : op (result (option DateTime))
| EmailVerifiedAt (user : UserId) : op (result (option DateTime))
| IsActiveMember (user : UserId) (org : OrgId) : op (result bool)
| GetMembership (user : UserId) (org : OrgId) : op (result MembershipStatus)
| FindIdBySlug (slug : string) : op (result (option OrgId))
| GetOrg (org : OrgId) : op (result (option string)).

(** ** The caller *)
Inductive AuthContext :=
| SessionAuth (user : UserId) (session_id_hash : string) (active_org_id : option OrgId)
| ApiTokenAuth (user : UserId) (token_id : Uuid) (scopes : ScopeSet) (org : option OrgId).
Definition context_user (c : AuthContext) : UserId :=
  match c with SessionAuth user _ _ | ApiTokenAuth user _ _ _ => user end.

Record Session := { user : option User; active_org_id : option OrgId; session_id_hash : option string }.
Definition no_session : Session := {| user := None; active_org_id := None; session_id_hash := None |}.
Definition session_user (s : Session) : option UserId := user_id <$> user s.

(** A request stopped before its handler, or handed on. *)
Inductive Refusal :=
| AppErr (e : AppError)
| InvalidToken                        (* 401 INVALID_TOKEN *)
| CsrfProtection                      (* 403 CSRF_PROTECTION *)
| Challenge (www_authenticate : string)
| ForbiddenText (message : string).
Inductive Answer (A : Type) := Refused (r : Refusal) | Passed (a : A).
Arguments Refused {A} r.
Arguments Passed {A} a.

(** ** The store behind the calls *)
Definition with_tokens (t : ApiTokens.Store) (c : gmap Uuid DateTime) (s : Db) : Db := {|
  api_tokens := t; token_debounce := c; sessions := sessions s; session_debounce := session_debounce s;
  users := users s; organizations := organizations s; memberships := memberships s; now := now s |}.
Definition with_sessions (t : Sessions.Store) (c : gmap string DateTime) (s : Db) : Db := {|
  api_tokens := api_tokens s; token_debounce := token_debounce s; sessions := t; session_debounce := c;
  users := users s; organizations := organizations s; memberships := memberships s; now := now s |}.

Section Front.
Context `{Environment} `{ApiTokens.Random} `{ApiTokens.Argon2} `{Primitives} `{Scheduling} `{Http} `{OAuth.WebUrls} `{OAuth.Digests}.
Context (cfg : OAuth.Config) (session_cfg : Sessions.SessionConfig).

Definition lookup_token (raw : string) (s : Db) : ApiTokens.LookupOutcome :=
  ApiTokens.lookup_by_raw (OAuth.prefix_visible_chars cfg) (now s) raw (api_tokens s).
Definition touch_token (id : Uuid) (s : Db) : Db :=
  let '(t, stamp) := ApiTokens.touch_last_used_debounced (now s) (token_debounce s !! id) id (api_tokens s) in
  with_tokens t (partial_alter (λ _, stamp) id (token_debounce s)) s.
Definition lookup_session (cookie : string) (s : Db) : Sessions.LookupOutcome.t * Db :=
  let '(o, t) := Sessions.lookup session_cfg (now s) cookie (sessions s) in (o, with_sessions t (session_debounce s) s).
Definition touch_session (out : outcome) (id_hash : string) (s : Db) : result unit * Db :=
  let '(answer, (c, t)) := Sessions.touch_last_used_debounced (now s) out (session_debounce s) id_hash (sessions s) in
  (answer, with_sessions t c s).

Definition exec (out : outcome) (T : Type) (o : op T) (s : Db) : T * Db :=
  match o in op T return T * Db with
  | LookupToken raw => database out (query (lookup_token raw)) s
  | TouchToken id => (tt, match out with Fails => s | _ => touch_token id s end)
  | LookupSession cookie => database out (update (lookup_session cookie)) s
  | TouchSession id_hash => touch_session out id_hash s
  | LoadUser user => database out (query (load_user user)) s
  | DeletedAt user => database out (query (λ s, users s !! user ≫= deleted_at)) s
  | EmailVerifiedAt user => database out (query (λ s, users s !! user ≫= email_verified_at)) s
  | IsActiveMember user org => database out (query (is_active_member user org)) s
  | GetMembership user org => database out (query (membership_status user org)) s
  | FindIdBySlug slug => database out (query (find_id_by_slug slug)) s
  | GetOrg org => database out (query (λ s, slug <$> organizations s !! org)) s
  end.

(** ** The credentials a request shows *)
Definition bearer_from_headers (req : HttpRequest) : option string :=
  v ← header "authorization" req; s ← to_str v; raw ← strip_prefix "Bearer " s; Some (str_trim raw).
Definition session_cookie (req : HttpRequest) : option string :=
  jar_get (headers req "cookie") (Sessions.cookie_name session_cfg).

(** csrf.rs *)
Definition TOKEN_AUTHENTICATED_PATHS : list string :=
  ["/alert-channel/stop"; "/incident/ack"; "/subscribe/unsubscribe"; "/auth/magic-link/verify"; "/auth/magic-link/code"].
Definition CSRF_HEADER_VALUE : string := "uptimepage".
Definition is_state_changing (m : Method) : bool :=
  match m with GET | HEAD | OPTIONS | TRACE => false | _ => true end.
Definition has_session_cookie (req : HttpRequest) : bool :=
  is_some_and (names_cookie (Sessions.cookie_name session_cfg)) (header "cookie" req ≫= to_str).
Definition header_matches (req : HttpRequest) : bool :=
  is_some_and (String.eqb CSRF_HEADER_VALUE) (header "x-requested-with" req ≫= to_str).
Definition csrf_passes (req : HttpRequest) : bool :=
  if negb (is_state_changing (method req)) then true
  else if existsb (String.eqb (path req)) TOKEN_AUTHENTICATED_PATHS then true
  else if is_some (bearer_from_headers req) then true
  else if negb (has_session_cookie req) then true
  else header_matches req.

(** api_token.rs, [middleware]: [None] is a request without a token. *)
Definition api_token_middleware (req : HttpRequest) : prog op (Answer (option AuthContext)) :=
  match bearer_from_headers req with
  | None => Ret (Passed None)
  | Some raw =>
      if negb (String.prefix ApiTokens.TOKEN_PREFIX raw) then Ret (Passed None)
      else if negb (OAuth.has_db cfg) then Ret (Refused InvalidToken)
      else
        found ← call (LookupToken raw);
        match found with
        | Ok (ApiTokens.Active row) =>
            _ ← call (TouchToken (ApiTokens.ApiTokenRow.id row));
            Ret (Passed (Some (ApiTokenAuth (ApiTokens.ApiTokenRow.user_id row) (ApiTokens.ApiTokenRow.id row)
              (ApiTokens.ApiTokenRow.scopes row) (ApiTokens.ApiTokenRow.org row))))
        | Ok ApiTokens.Invalid | Err _ => Ret (Refused InvalidToken)
        end
  end.

(** ** The extractors *)
Definition extract_session (req : HttpRequest) : prog op Session :=
  if negb (OAuth.has_db cfg) then Ret no_session
  else
    match session_cookie req with
    | None => Ret no_session
    | Some cookie =>
        found ← call (LookupSession cookie);
        match found with
        | Ok (Sessions.LookupOutcome.Active row) =>
            _ ← call (TouchSession (Sessions.SessionRow.id row));
            loaded ← call (LoadUser (Sessions.SessionRow.user_id row));
            Ret {| user := match loaded with Ok u => u | Err _ => None end;
                   active_org_id := Sessions.SessionRow.active_org_id row;
                   session_id_hash := Some (Sessions.SessionRow.id row) |}
        | _ => Ret no_session
        end
    end.

Definition require_db : result unit :=
  if OAuth.has_db cfg then Ok tt else Err (Other "tenancy enabled but AppState.db is None").

Definition current_user (ctx : option AuthContext) (req : HttpRequest) : prog op (result UserId) :=
  match ctx with
  | Some c => Ret (Ok (context_user c))
  | None =>
      session ← extract_session req;
      Ret (match session_user session with Some u => Ok u | None => Err Unauthorized end)
  end.

Definition org_header_invalid (message : string) : AppError := BadRequest "ORG_HEADER_INVALID" message None.
Definition optional_org_from_header (req : HttpRequest) : prog op (result (option OrgId)) :=
  match header "x-uptimepage-org" req with
  | None => Ret (Ok None)
  | Some v =>
      match to_str v with
      | None => Ret (Err (org_header_invalid "X-Uptimepage-Org is not UTF-8"))
      | Some raw =>
          let raw := str_trim raw in
          if String.eqb raw "" then Ret (Err (org_header_invalid "X-Uptimepage-Org is empty"))
          else
            found ←? call (FindIdBySlug raw);
            Ret (match found with
                 | Some org => Ok (Some org)
                 | None => Err (org_header_invalid "no organization matches X-Uptimepage-Org")
                 end)
      end
  end.
Definition explicit_org_from_header (req : HttpRequest) : prog op (result OrgId) :=
  found ←? optional_org_from_header req;
  Ret (match found with
       | Some org => Ok org
       | None => Err (BadRequest "ORG_REQUIRED" "API tokens must scope to an org via the X-Uptimepage-Org header" None)
       end).

Definition check_member (user : UserId) (org : OrgId) : prog op (result OrgId) :=
  member ←? call (IsActiveMember user org); Ret (if member : bool then Ok org else Err Forbidden).

Definition current_org (ctx : option AuthContext) (req : HttpRequest) : prog op (result OrgId) :=
  match ctx with
  | Some (ApiTokenAuth user _ _ bound) =>
      _ ←? Ret require_db;
      org ←? match bound with
             | Some org =>
                 hdr ←? optional_org_from_header req;
                 Ret (if is_some_and (λ h, negb (bool_decide (h = org))) hdr
                      then Err (ForbiddenCoded "ORG_HEADER_MISMATCH"
                                  "X-Uptimepage-Org names a different org than this token is bound to")
                      else Ok org)
             | None => explicit_org_from_header req
             end;
      check_member user org
  | _ =>
      session ← extract_session req;
      match session_user session, active_org_id session with
      | None, _ | _, None => Ret (Err Unauthorized)
      | Some user, Some active => if negb (OAuth.has_db cfg) then Ret (Ok active) else check_member user active
      end
  end.

(** authz.rs *)
Definition insufficient_scope (required : Scope) : AppError :=
  ForbiddenCoded "INSUFFICIENT_SCOPE" ("API token is missing the required scope `" +:+ as_str required +:+ "`").
Definition assert_scope (ctx : option AuthContext) (required : Scope) : result unit :=
  match ctx with
  | Some (ApiTokenAuth _ _ scopes _) => if allows required scopes then Ok tt else Err (insufficient_scope required)
  | _ => Ok tt
  end.
Definition authorized (required : Scope) (ctx : option AuthContext) (req : HttpRequest) : prog op (result OrgId) :=
  org ←? current_org ctx req;
  _ ←? Ret (assert_scope ctx required);
  Ret (Ok org).
Definition owner_authorized (required : Scope) (ctx : option AuthContext) (req : HttpRequest) : prog op (result OrgId) :=
  org ←? current_org ctx req;
  _ ←? Ret (assert_scope ctx required);
  user ←? current_user ctx req;
  _ ←? Ret require_db;
  status ←? call (GetMembership user org);
  Ret (match status with
       | Owner => Ok org
       | Member => Err Forbidden
       | NoMember => Err (NotFoundErr "ORG_NOT_FOUND" "organisation not found")
       end).

(** [TokenScopes]: the scopes of a token, none for a session. *)
Definition token_scopes (ctx : option AuthContext) : option ScopeSet :=
  match ctx with Some (ApiTokenAuth _ _ scopes _) => Some scopes | _ => None end.
Definition token_scopes_require (scopes : option ScopeSet) (required : Scope) : result unit :=
  match scopes with
  | Some s => if negb (allows required s) then Err (insufficient_scope required) else Ok tt
  | None => Ok tt
  end.

Inductive WriteSource := Terraform | Api | Ui.
Definition TERRAFORM_UA_MARKER : string := "terraform-provider-uptimepage".
Definition request_source (ctx : option AuthContext) (req : HttpRequest) : WriteSource :=
  match ctx with
  | Some (ApiTokenAuth _ _ _ _) =>
      if is_some_and (λ ua, contains ua TERRAFORM_UA_MARKER) (header "user-agent" req ≫= to_str) then Terraform else Api
  | _ => Ui
  end.

(** api_token.rs: account administration takes a browser session. *)
Definition browser_user (ctx : option AuthContext) (req : HttpRequest) : prog op (result UserId) :=
  session ← extract_session req;
  Ret (match session_user session, ctx with
       | Some user, _ => Ok user
       | None, Some (ApiTokenAuth _ _ _ _) => Err SessionRequired
       | None, _ => Err Unauthorized
       end).
Definition verified_browser_user (ctx : option AuthContext) (req : HttpRequest) : prog op (result UserId) :=
  user ←? browser_user ctx req;
  _ ←? Ret (if OAuth.has_db cfg then Ok tt else Err Unauthorized);
  verified ←? call (EmailVerifiedAt user);
  Ret (if is_some verified then Ok user
       else Err (ForbiddenCoded "EMAIL_NOT_VERIFIED" "this action requires a verified email")).

(** The gate of the pages: a visitor who is not signed in goes to the login page. *)
Definition authed_browser (req : HttpRequest) : prog op (OAuth.Response + unit) :=
  session ← extract_session req;
  Ret (if is_some (session_user session) then inr tt else inl (OAuth.login_redirect (path req))).

(** The restore page: a session whose account is being deleted. *)
Record PendingDeletionUser := { pending_user : UserId; pending_since : DateTime; pending_session : string }.
Definition pending_deletion_user (req : HttpRequest) : prog op (result PendingDeletionUser) :=
  _ ←? Ret require_db;
  match session_cookie req with
  | None => Ret (Err Unauthorized)
  | Some cookie =>
      found ← call (LookupSession cookie);
      match found with
      | Ok (Sessions.LookupOutcome.Active row) =>
          deleted ←? call (DeletedAt (Sessions.SessionRow.user_id row));
          Ret (match deleted with
               | Some at_ => Ok {| pending_user := Sessions.SessionRow.user_id row; pending_since := at_;
                                   pending_session := Sessions.SessionRow.id row |}
               | None => Err Unauthorized
               end)
      | _ => Ret (Err Unauthorized)
      end
  end.

(** operator.rs: the whole credential is the configured secret. *)
Definition operator_auth (admin_token : string) (req : HttpRequest) : result unit :=
  if String.eqb admin_token "" then Err (NotFoundErr "OPERATOR_DISABLED" "operator surface is disabled")
  else if String.eqb (sha256_hex (default "" (bearer_from_headers req))) (sha256_hex admin_token) then Ok tt
  else Err Unauthorized.

(** ** In front of a handler *)
Definition front {A} (extract : option AuthContext → prog op (result A)) (req : HttpRequest)
    : prog op (Answer (option AuthContext * A)) :=
  if negb (csrf_passes req) then Ret (Refused CsrfProtection)
  else
    who ← api_token_middleware req;
    match who with
    | Refused r => Ret (Refused r)
    | Passed ctx =>
        got ← extract ctx;
        Ret (match got with Ok a => Passed (ctx, a) | Err e => Refused (AppErr e) end)
    end.

(** ** mcp/auth.rs *)
Definition MAX_DISCOVERY_BODY : nat := 64 * 1024.
Definition challenge : Refusal :=
  Challenge (match OAuth.www_authenticate_value cfg with
             | Some v => if header_value_ok v then v else "Bearer"
             | None => "Bearer"
             end).
Definition is_public_method (m : string) : bool :=
  existsb (String.eqb m) ["initialize"; "notifications/initialized"; "ping"; "tools/list"; "resources/list";
    "resources/templates/list"; "prompts/list"].
Definition all_methods_public (body : string) : bool :=
  match from_slice body with
  | None => false
  | Some json =>
      let msgs := default [json] (as_array json) in
      negb (length msgs =? 0)%nat && forallb (λ m, is_some_and is_public_method (get_str "method" m)) msgs
  end.
Definition discovery_or_challenge (req : HttpRequest) : Answer (option AuthContext) :=
  if negb (bool_decide (method req = POST)) then Refused challenge
  else if (MAX_DISCOVERY_BODY <? String.length (body req))%nat then Refused challenge
  else if negb (all_methods_public (body req)) then Refused challenge
  else Passed None.

Definition same_audience (aud : string) : bool :=
  let resource := trim_end_matches "/"%char (OAuth.resource_uri cfg) in
  negb (String.eqb resource "") && String.eqb (trim_end_matches "/"%char aud) resource.
Definition NOT_BOUND : string :=
  "this token is not bound to an organization; select the organization you want in the app, then reconnect the connector to mint an org-scoped token".
Definition no_longer_member (slug : string) : string :=
  "the token owner is no longer a member of `" +:+ slug +:+ "`, the organization this connector is bound to; switch to the organization you want in the app, then reconnect the connector to bind a token to it".

Definition authenticate (req : HttpRequest) (raw : string) : prog op (Answer (option AuthContext)) :=
  if negb (String.prefix ApiTokens.TOKEN_PREFIX raw) then Ret (Refused challenge)
  else if negb (OAuth.has_db cfg) then Ret (Refused challenge)
  else
    found ← call (LookupToken raw);
    match found with
    | Err _ | Ok ApiTokens.Invalid => Ret (Refused challenge)
    | Ok (ApiTokens.Active row) =>
        if is_some_and (λ aud, negb (same_audience aud)) (ApiTokens.ApiTokenRow.audience row) then Ret (Refused challenge)
        else
          match ApiTokens.ApiTokenRow.org row with
          | None => Ret (Refused (ForbiddenText NOT_BOUND))
          | Some org =>
              member ← call (IsActiveMember (ApiTokens.ApiTokenRow.user_id row) org);
              match member with
              | Err _ => Ret (Refused challenge)
              | Ok false =>
                  named ← call (GetOrg org);
                  Ret (Refused (ForbiddenText (no_longer_member
                    (match named with Ok (Some slug) => slug | _ => OAuth.show_uuid org end))))
              | Ok true =>
                  _ ← call (TouchToken (ApiTokens.ApiTokenRow.id row));
                  Ret (Passed (Some (ApiTokenAuth (ApiTokens.ApiTokenRow.user_id row) (ApiTokens.ApiTokenRow.id row)
                    (ApiTokens.ApiTokenRow.scopes row) (Some org))))
              end
          end
    end.
Definition mcp_middleware (req : HttpRequest) : prog op (Answer (option AuthContext)) :=
  match bearer_from_headers req with
  | None => Ret (discovery_or_challenge req)
  | Some raw => authenticate req raw
  end.

(** What a tool reads back, and the gate on its scope. *)
Record McpAuth := { mcp_org : OrgId; mcp_scopes : ScopeSet; mcp_user : UserId; mcp_token : Uuid }.
Inductive McpToolError := Unauthenticated | InsufficientScope (scope : string).
Definition from_ctx (ctx : option AuthContext) : McpToolError + McpAuth :=
  match ctx with
  | Some (ApiTokenAuth user id scopes (Some org)) =>
      inr {| mcp_org := org; mcp_scopes := scopes; mcp_user := user; mcp_token := id |}
  | _ => inl Unauthenticated
  end.
Definition require (a : McpAuth) (required : Scope) : McpToolError + unit :=
  if allows required (mcp_scopes a) then inr tt else inl (InsufficientScope (as_str required)).

(** A tool call: the guard, the middleware, the context, the scope. *)
Definition mcp_tool (required : Scope) (req : HttpRequest) : prog op (Answer (McpToolError + McpAuth)) :=
  if negb (csrf_passes req) then Ret (Refused CsrfProtection)
  else
    who ← mcp_middleware req;
    Ret (match who with
         | Refused r => Refused r
         | Passed ctx =>
             Passed (match from_ctx ctx with
                     | inl e => inl e
                     | inr a => match require a required with inl e => inl e | inr _ => inr a end
                     end)
         end).
End Front.
