(* ===== verification/RequestFacts.v ===== *)
(** * What stands behind a request that reaches its handler

    Soundness of the guards and extractors of Requests.v under every interleaving and
    failure of the store, what they let through when the store works, and a small
    deployment they are run on. *)

From Stdlib Require Import Ascii.
From S2P Require Import Prelude Text Crypto Scopes ApiTokens Sessions OAuth OAuthWitness Handlers Requests.

Section Facts.
Context `{Environment} `{Random} `{Argon2} `{Primitives} `{Scheduling} `{Http} `{WebUrls} `{Digests} `{!HttpLaws}.
Context (cfg : OAuth.Config) (session_cfg : SessionConfig).
#[local] Abbreviation exec := (Requests.exec cfg session_cfg).
#[local] Abbreviation ran := (Handlers.ran exec).
#[local] Abbreviation front := (Requests.front cfg session_cfg).

(** ** Answers of the store *)
Lemma request_database_ok {S A} out (m : S → result A * S) s a : (database out m s).1 = Ok a → (m s).1 = Ok a.
Proof. by destruct out. Qed.

Lemma ran_try {A B} (r : result A) (k : A → prog op (result B)) seen b :
  ran (x ←? Ret r; k x) seen (Ok b) → ∃ a, r = Ok a ∧ ran (k a) seen (Ok b).
Proof. destruct r as [a|e]; simpl; [by exists a|]. by intros [_ ?]. Qed.
Lemma ran_then {A B} (m : prog op (result A)) (k : A → prog op (result B)) seen b : ran (x ←? m; k x) seen (Ok b) →
  ∃ l1 l2 a, seen = l1 ++ l2 ∧ ran m l1 (Ok a) ∧ ran (k a) l2 (Ok b).
Proof. intros [?|(e & ? & _)]%ran_and_then; [done|discriminate]. Qed.
Lemma ran_call_then {A B} (o : op (result A)) (k : A → prog op (result B)) seen b : ran (x ←? call o; k x) seen (Ok b) →
  ∃ s rest out a, seen = s :: rest ∧ (exec out _ o s).1 = Ok a ∧ ran (k a) rest (Ok b).
Proof.
  intros (s & rest & out & -> & Hr)%ran_call. destruct (exec out _ o s).1 as [a|e] eqn:E; [|by destruct Hr].
  by exists s, rest, out, a.
Qed.

(** ** Who speaks *)
Definition by_token (req : HttpRequest) (seen : list Requests.Db) (row : ApiTokenRow.t) : Prop :=
  ∃ raw s, bearer_from_headers req = Some raw ∧ s ∈ seen ∧ lookup_token cfg raw s = ApiTokens.Active row.
Definition by_session (req : HttpRequest) (seen : list Requests.Db) (user : UserId) (active : option OrgId) : Prop :=
  ∃ cookie row s s' account, session_cookie session_cfg req = Some cookie ∧ s ∈ seen ∧ s' ∈ seen ∧
    (lookup_session session_cfg cookie s).1 = LookupOutcome.Active row ∧
    user = SessionRow.user_id row ∧ active = SessionRow.active_org_id row ∧
    users s' !! user = Some account ∧ deleted_at account = None.
Definition member_seen (seen : list Requests.Db) (user : UserId) (org : OrgId) : Prop :=
  ∃ s, s ∈ seen ∧ is_active_member user org s = true.
(** The [X-Uptimepage-Org] header names [org]. *)
Definition org_named (req : HttpRequest) (seen : list Requests.Db) (org : OrgId) : Prop :=
  ∃ v s, header "x-uptimepage-org" req = Some v ∧ s ∈ seen ∧ find_id_by_slug (str_trim v) s = Some org.

Lemma by_token_app req l1 l2 row : by_token req l1 row → by_token req (l1 ++ l2) row.
Proof. intros (raw & s & ? & ? & ?). exists raw, s. rewrite elem_of_app. auto. Qed.
Lemma by_session_app req l1 l2 l3 user active : by_session req l2 user active → by_session req (l1 ++ l2 ++ l3) user active.
Proof.
  intros (cookie & row & s & s' & account & ? & ? & ? & Hrest). exists cookie, row, s, s', account.
  rewrite !elem_of_app. auto 10.
Qed.
Lemma member_seen_app l1 l2 l3 user org : member_seen l2 user org → member_seen (l1 ++ l2 ++ l3) user org.
Proof. intros (s & ? & ?). exists s. rewrite !elem_of_app. auto. Qed.
Lemma org_named_app req l1 l2 l3 org : org_named req l2 org → org_named req (l1 ++ l2 ++ l3) org.
Proof. intros (v & s & ? & ? & ?). exists v, s. rewrite !elem_of_app. auto. Qed.

Lemma session_speaks req seen ses user :
  ran (extract_session cfg session_cfg req) seen ses → session_user ses = Some user →
  by_session req seen user (active_org_id ses).
Proof.
  unfold extract_session. destruct (has_db cfg); [|by intros [-> ->]]. simpl.
  destruct (session_cookie session_cfg req) as [cookie|] eqn:Hc; [|by intros [-> ->]].
  intros (s & rest & out & -> & Hr)%ran_call. simpl in Hr.
  destruct (database out _ s).1 as [o|] eqn:Ho; [|by destruct Hr as [-> ->]].
  destruct o as [row| |]; [|by destruct Hr as [-> ->]..].
  apply ran_call in Hr as (s1 & rest1 & out1 & -> & Hr). apply ran_call in Hr as (s2 & rest2 & out2 & -> & [-> ->]).
  simpl. destruct (database out2 _ s2).1 as [u|] eqn:Hu; [|done]. apply request_database_ok in Ho, Hu. simpl in Hu.
  injection Hu as <-. unfold load_user. destruct (users s2 !! _) as [account|] eqn:Ha; [|done].
  destruct (deleted_at account) eqn:Hd; [done|]. simpl. intros [= <-].
  exists cookie, row, s, s2, account. split; [done|]. rewrite !elem_of_cons. split_and!; try done; auto.
  unfold update in Ho. destruct (lookup_session session_cfg cookie s). simpl in *. congruence.
Qed.

Definition from_row (row : ApiTokenRow.t) : AuthContext :=
  ApiTokenAuth (ApiTokenRow.user_id row) (ApiTokenRow.id row) (ApiTokenRow.scopes row) (ApiTokenRow.org row).

Lemma middleware_speaks req seen ctx : ran (api_token_middleware cfg req) seen (Passed ctx) →
  (ctx = None ∧ (∀ raw, bearer_from_headers req = Some raw → String.prefix TOKEN_PREFIX raw = false)) ∨
  (∃ row, by_token req seen row ∧ ctx = Some (from_row row)).
Proof.
  unfold api_token_middleware. destruct (bearer_from_headers req) as [raw|] eqn:Hb; [|intros [_ [= ->]]; by left].
  destruct (String.prefix TOKEN_PREFIX raw) eqn:Hp; cbn [negb]; [|intros [_ [= ->]]; left; split; [done|by intros ? [= <-]]].
  destruct (has_db cfg); cbn [negb]; [|by intros [_ ?]].
  intros (s & rest & out & -> & Hr)%ran_call. simpl in Hr.
  destruct (database out _ s).1 as [[row|]|] eqn:Ho; [|by destruct Hr..].
  apply ran_call in Hr as (s1 & rest1 & out1 & -> & [_ [= ->]]). right. exists row. split; [|done].
  exists raw, s. apply request_database_ok in Ho. simpl in Ho. rewrite elem_of_cons. split_and!; [done|by left|congruence].
Qed.

Lemma optional_org_speaks req seen o : ran (optional_org_from_header req) seen (Ok o) →
  match o with Some org => org_named req seen org | None => header "x-uptimepage-org" req = None end.
Proof.
  unfold optional_org_from_header. destruct (header _ req) as [v|] eqn:Hh; [|by intros [_ [= ->]]].
  destruct (to_str v) as [raw|] eqn:Ht; [|by intros [_ ?]]. apply to_str_same in Ht as ->.
  destruct (String.eqb (str_trim v) ""); [by intros [_ ?]|].
  intros (s & rest & out & found & -> & Hf & Hr)%ran_call_then. destruct Hr as [_ Hr]. destruct found as [org|]; [|done].
  injection Hr as ->. exists v, s. apply request_database_ok in Hf. simpl in Hf. rewrite elem_of_cons.
  split_and!; [done|by left|congruence].
Qed.

Lemma check_member_speaks user org seen o : ran (check_member user org) seen (Ok o) → o = org ∧ member_seen seen user org.
Proof.
  intros (s & rest & out & m & -> & Hm & [_ Hr])%ran_call_then. destruct m; [|done]. injection Hr as ->.
  split; [done|]. exists s. apply request_database_ok in Hm. simpl in Hm. rewrite elem_of_cons. split; [by left|congruence].
Qed.

(** The organization of a request, and on whose word. *)
Definition org_speaks (ctx : option AuthContext) (req : HttpRequest) (seen : list Requests.Db) (user : UserId) (org : OrgId) : Prop :=
  member_seen seen user org ∧
  match ctx with
  | Some (ApiTokenAuth u _ _ bound) => user = u ∧
      match bound with
      | Some b => b = org ∧ (header "x-uptimepage-org" req = None ∨ org_named req seen org)
      | None => org_named req seen org
      end
  | _ => by_session req seen user (Some org)
  end.

Lemma app_middle {A} (l1 l2 : list A) : l1 ++ l2 = l1 ++ l2 ++ [].
Proof. by rewrite app_nil_r. Qed.

Lemma current_org_speaks ctx req seen org : ran (current_org cfg session_cfg ctx req) seen (Ok org) →
  ∃ user, org_speaks ctx req seen user org.
Proof.
  assert (Hsession : ran (session ← extract_session cfg session_cfg req;
      match session_user session, active_org_id session with
      | None, _ | _, None => Ret (Err Unauthorized)
      | Some user, Some active => if negb (has_db cfg) then Ret (Ok active) else check_member user active
      end) seen (Ok org) → ∃ user, member_seen seen user org ∧ by_session req seen user (Some org)).
  { intros (l1 & l2 & ses & -> & Hses & Hr)%ran_bind.
    destruct (session_user ses) as [user|] eqn:Hu; [|by destruct Hr].
    pose proof (session_speaks _ _ _ _ Hses Hu) as Hby. destruct (active_org_id ses) as [active|] eqn:Ha; [|by destruct Hr].
    destruct (has_db cfg) eqn:Hdb; simpl in Hr.
    - apply check_member_speaks in Hr as [-> Hm]. exists user. split.
      + rewrite app_middle. by apply member_seen_app.
      + apply (by_session_app req []). done.
    - exfalso. unfold extract_session in Hses. rewrite Hdb in Hses. destruct Hses as [_ ->]. done. }
  destruct ctx as [[u h o|u id scopes bound]|]; simpl; [done| |done].
  intros (a & _ & Hr)%ran_try. apply ran_then in Hr as (l1 & l2 & o & -> & Ho & Hm%check_member_speaks).
  destruct Hm as [-> Hm]. exists u. split; [rewrite app_middle; by apply member_seen_app|]. split; [done|].
  destruct bound as [b|].
  - apply ran_then in Ho as (l3 & l4 & hdr & -> & Hh%optional_org_speaks & [-> Ho]).
    destruct hdr as [h'|]; simpl in Ho.
    + destruct (bool_decide (h' = b)) eqn:Hb; [|done]. simpl in Ho. injection Ho as ->.
      apply bool_decide_eq_true in Hb as ->. split; [done|right]. rewrite <-app_assoc.
      apply (org_named_app req [] l3). done.
    + injection Ho as ->. split; [done|by left].
  - apply ran_then in Ho as (l3 & l4 & hdr & -> & Hh%optional_org_speaks & [-> Ho]).
    destruct hdr as [h'|]; [|done]. injection Ho as ->. rewrite <-app_assoc. apply (org_named_app req [] l3). done.
Qed.

Lemma current_user_speaks ctx req seen user : ran (current_user cfg session_cfg ctx req) seen (Ok user) →
  match ctx with Some c => user = context_user c | None => ∃ active, by_session req seen user active end.
Proof.
  destruct ctx as [c|]; simpl; [by intros [_ [= ->]]|].
  intros (l1 & l2 & ses & -> & Hses & [-> Hr])%ran_bind. destruct (session_user ses) eqn:Hu; [|done]. injection Hr as ->.
  exists (active_org_id ses). apply (by_session_app req []). by apply session_speaks.
Qed.
Lemma browser_user_speaks ctx req seen user : ran (browser_user cfg session_cfg ctx req) seen (Ok user) →
  ∃ active, by_session req seen user active.
Proof.
  intros (l1 & l2 & ses & -> & Hses & [-> Hr])%ran_bind. destruct (session_user ses) eqn:Hu.
  - injection Hr as ->. exists (active_org_id ses). apply (by_session_app req []). by apply session_speaks.
  - by destruct ctx as [[]|].
Qed.

Lemma front_speaks {A} (extract : option AuthContext → prog op (result A)) req seen ctx a :
  ran (front extract req) seen (Passed (ctx, a)) →
  csrf_passes session_cfg req = true ∧ ∃ l1 l2, seen = l1 ++ l2 ∧ ran (extract ctx) l2 (Ok a) ∧
    ran (api_token_middleware cfg req) l1 (Passed ctx).
Proof.
  unfold front, Requests.front. destruct (csrf_passes session_cfg req); [|by intros [_ ?]]. simpl.
  intros (l1 & l2 & [r|ctx'] & -> & Hm & Hr)%ran_bind; [by destruct Hr|].
  apply ran_bind in Hr as (l3 & l4 & [b|e] & -> & Hx & [-> Hr]); [|done]. injection Hr as -> ->.
  split; [done|]. exists l1, l3. by rewrite app_nil_r.
Qed.

(** What no foreign page can make a browser send, or a path where the request itself
    carries its proof. *)
Definition own_header (req : HttpRequest) : Prop :=
  header "x-requested-with" req = Some "uptimepage" ∨
  (∃ v, header "authorization" req = Some v ∧ String.prefix "Bearer " v = true) ∨
  path req ∈ ["/alert-channel/stop"; "/incident/ack"; "/subscribe/unsubscribe"; "/auth/magic-link/verify";
    "/auth/magic-link/code"].

(** The request's cookies as the guard expects them: one [Cookie] header of plain
    text, each name directly before its [=]. *)
Definition plain_cookies (req : HttpRequest) : Prop :=
  ∀ raw, raw ∈ headers req "cookie" → headers req "cookie" = [raw] ∧ to_str raw = Some raw ∧
    ∀ kv key rest, kv ∈ cookie_pairs raw → split_once "="%char kv = Some (key, rest) → cookie_key key = key.

Lemma split_once_join c s k rest : split_once c s = Some (k, rest) → s = k +:+ String c rest.
Proof.
  revert k. induction s as [|a s IH]; intros k; [done|]. simpl. destruct (Ascii.eqb a c) eqn:E.
  - apply Ascii.eqb_eq in E as ->. by intros [= <- <-].
  - destruct (split_once c s) as [[k' r']|]; [|done]. intros [= <- <-]. simpl. by rewrite (IH k').
Qed.
Lemma strip_prefix_app p s : strip_prefix p (p +:+ s) = Some s.
Proof.
  unfold strip_prefix. replace (String.prefix p (p +:+ s)) with true; [f_equal|]; induction p as [|a p IH]; simpl; try done.
  - by destruct s.
  - destruct (Ascii.ascii_dec a a); [done|congruence].
Qed.
Lemma strip_prefix_some p s r : strip_prefix p s = Some r → String.prefix p s = true.
Proof. unfold strip_prefix. by destruct (String.prefix p s). Qed.

Lemma guard_sees_the_cookie req cookie : plain_cookies req → session_cookie session_cfg req = Some cookie →
  has_session_cookie session_cfg req = true.
Proof.
  intros Hplain (raw & kv & key & rest & Hraw & Hkv & Hsplit & Hkey)%jar_reads_headers.
  destruct (Hplain raw Hraw) as (Hone & Htext & Hnames). unfold has_session_cookie, header. rewrite Hone. simpl.
  rewrite Htext. simpl. rewrite (Hnames _ _ _ Hkv Hsplit) in Hkey. apply split_once_join in Hsplit as ->.
  unfold names_cookie. apply existsb_exists. eexists. split; [by apply list_elem_of_In|].
  rewrite <-Hkey, strip_prefix_app. simpl. by destruct rest.
Qed.
Lemma header_matches_own req : header_matches req = true → header "x-requested-with" req = Some "uptimepage".
Proof.
  unfold header_matches. destruct (header _ req) as [v|]; [|done]. cbn [mbind option_bind].
  destruct (to_str v) as [s|] eqn:E; [|done]. apply to_str_same in E as ->. unfold is_some_and.
  by intros <-%String.eqb_eq.
Qed.
Lemma bearer_own req : is_some (bearer_from_headers req) = true →
  ∃ v, header "authorization" req = Some v ∧ String.prefix "Bearer " v = true.
Proof.
  unfold bearer_from_headers. destruct (header _ req) as [v|]; [|done]. cbn [mbind option_bind]. destruct (to_str v) as [s|] eqn:E; [|done].
  apply to_str_same in E as ->. cbn [mbind option_bind]. destruct (strip_prefix "Bearer " v) eqn:Hs; [|done].
  intros _. exists v. split; [done|]. by apply strip_prefix_some in Hs.
Qed.
Lemma csrf_holds req cookie : csrf_passes session_cfg req = true → session_cookie session_cfg req = Some cookie →
  is_state_changing (method req) = true → plain_cookies req → own_header req.
Proof.
  unfold csrf_passes, own_header. intros Hp Hc Hm Hplain. rewrite Hm, (guard_sees_the_cookie req cookie) in Hp by done.
  cbn [negb] in Hp. destruct (existsb (String.eqb (path req)) _) eqn:He.
  - right. right. apply existsb_exists in He as (p & Hin & ->%String.eqb_eq). by apply list_elem_of_In.
  - destruct (is_some (bearer_from_headers req)) eqn:Hb; [right; left; by apply bearer_own|]. left. by apply header_matches_own.
Qed.
Lemma session_not_forged req seen user active : csrf_passes session_cfg req = true → by_session req seen user active →
  is_state_changing (method req) = true → plain_cookies req → own_header req.
Proof. intros Hp (cookie & ? & ? & ? & ? & Hc & _). by apply (csrf_holds req cookie). Qed.

Lemma assert_scope_ok ctx required : assert_scope ctx required = Ok tt →
  match token_scopes ctx with Some scopes => allows required scopes = true | None => True end.
Proof. destruct ctx as [[]|]; simpl; [done| |done]. by destruct (allows _ _). Qed.

(** The organization a request was given, and why. *)
Definition granted (required : Scope) (req : HttpRequest) (seen : list Requests.Db) (ctx : option AuthContext)
    (user : UserId) (org : OrgId) : Prop :=
  member_seen seen user org ∧
  ((∃ row, by_token req seen row ∧ ctx = Some (from_row row) ∧ user = ApiTokenRow.user_id row ∧
      allows required (ApiTokenRow.scopes row) = true ∧
      (ApiTokenRow.org row = Some org ∧ (header "x-uptimepage-org" req = None ∨ org_named req seen org) ∨
       ApiTokenRow.org row = None ∧ org_named req seen org)) ∨
   (ctx = None ∧ by_session req seen user (Some org) ∧
    (is_state_changing (method req) = true → plain_cookies req → own_header req))).

Lemma granted_by required req l1 l2 l3 ctx org :
  csrf_passes session_cfg req = true → ran (api_token_middleware cfg req) l1 (Passed ctx) →
  ran (current_org cfg session_cfg ctx req) l2 (Ok org) → assert_scope ctx required = Ok tt →
  ∃ user, granted required req (l1 ++ l2 ++ l3) ctx user org.
Proof.
  intros Hp Hm%middleware_speaks (user & Hmem & Hwho)%current_org_speaks Hs%assert_scope_ok. exists user.
  split; [by apply member_seen_app|]. destruct Hm as [[-> _]|(row & Hrow & ->)].
  - right. split; [done|]. split; [by apply by_session_app|]. intros Hch. by apply (session_not_forged req l2 user (Some org)).
  - left. exists row. destruct Hwho as [-> Hb]. split; [by apply by_token_app|]. split; [done|]. split; [done|]. split; [done|].
    destruct (ApiTokenRow.org row) as [b|]; simpl in Hb.
    + left. destruct Hb as [-> [Hn|Hn]]; (split; [done|]); [by left|right; by apply org_named_app].
    + right. split; [done|]. by apply org_named_app.
Qed.

(** C17: no handler runs for an organization its caller does not speak for. However the
    request's lookups interleave with everything else, and whichever of them fail, a
    request handed on for an organization was, while it was looked at, made by a
    member of that live organization; and either it showed a token that was active
    then and allows the scope of the route, bound to that organization or, unbound,
    naming it in the header; or it showed the cookie of a session that was active
    then, of an account not deleted, with that organization selected. If the latter
    changes anything and has its cookies in one plain [Cookie] header, names directly
    before the [=], it also carried a header no foreign page can make a browser send
    ([X-Requested-With: uptimepage] or a bearer), or went to one of the five paths
    that ask for a proof of their own: stop, acknowledge, unsubscribe, the magic
    link's page and code. *)
Theorem requests_are_authorised required req seen ctx org :
  ran (front (λ ctx, authorized cfg session_cfg required ctx req) req) seen (Passed (ctx, org)) →
  ∃ user, granted required req seen ctx user org.
Proof.
  intros (Hp & l1 & l2 & -> & Hx & Hm)%front_speaks. apply ran_then in Hx as (l3 & l4 & o & -> & Ho & Hx).
  apply ran_try in Hx as ([] & Hs & [-> [= ->]]). by apply granted_by.
Qed.

(** C27: what the gates of an account's and of an owner's routes ask. A route that takes
    a verified browser session is reached, whatever bearer comes along, only with the
    cookie of a session active then, of a live account with a verified address; if it
    changes anything and has its cookies in one plain [Cookie] header, also with a
    header no foreign page can make a browser send or on one of the five paths exempt
    from the guard. An owner's route is reached, by token or by session, only by
    someone who was an owner of that live organization, with all that a member's
    route asks. *)
Theorem administration_takes_a_session required req seen ctx user org :
  (ran (front (λ ctx, verified_browser_user cfg session_cfg ctx req) req) seen (Passed (ctx, user)) →
   (∃ active, by_session req seen user active) ∧ (∃ s account, s ∈ seen ∧ users s !! user = Some account ∧
      is_some (email_verified_at account) = true) ∧
   (is_state_changing (method req) = true → plain_cookies req → own_header req)) ∧
  (ran (front (λ ctx, owner_authorized cfg session_cfg required ctx req) req) seen (Passed (ctx, org)) →
   (∃ user, granted required req seen ctx user org) ∧
   ∃ owner s, s ∈ seen ∧ memberships s !! (owner, org) = Some "owner" ∧ live_org org s = true ∧
     match ctx with Some c => owner = context_user c | None => ∃ active, by_session req seen owner active end).
Proof.
  split.
  - intros (Hp & l1 & l2 & -> & Hx & Hm)%front_speaks. apply ran_then in Hx as (l3 & l4 & u & -> & Hu%browser_user_speaks & Hx).
    apply ran_try in Hx as (_ & _ & Hx). apply ran_call_then in Hx as (s & rest & out & v & -> & Hv & [_ Hx]).
    destruct v as [at_|]; [|done]. simpl in Hx. injection Hx as ->. destruct Hu as [active Hby].
    apply request_database_ok in Hv. simpl in Hv. destruct (users s !! u) as [account|] eqn:Ha; [|done]. simpl in Hv.
    split; [by exists active; apply by_session_app|]. split; [|intros; by eapply session_not_forged].
    exists s, account. injection Hv as Hv. rewrite Hv. split; [|done]. rewrite !elem_of_app, elem_of_cons. auto.
  - intros (Hp & l1 & l2 & -> & Hx & Hm)%front_speaks. apply ran_then in Hx as (l3 & l4 & o & -> & Ho & Hx).
    apply ran_try in Hx as ([] & Hs & Hx). apply ran_then in Hx as (l5 & l6 & owner & -> & Hown%current_user_speaks & Hx).
    apply ran_try in Hx as (_ & _ & Hx). apply ran_call_then in Hx as (s & rest & out & st & -> & Hst & [_ Hx]).
    destruct st; [|done..]. injection Hx as ->. split; [by apply granted_by|]. exists owner, s.
    apply request_database_ok in Hst. simpl in Hst. unfold membership_status in Hst.
    destruct (memberships s !! _) as [role|] eqn:Hr; [|done]. destruct (live_org o s) eqn:Hl; [|done].
    destruct (String.eqb role "owner") eqn:Hrole; [|done]. apply String.eqb_eq in Hrole as ->.
    split; [rewrite !elem_of_app, elem_of_cons; auto 6|]. split; [done|]. split; [done|].
    destruct ctx; [done|]. destruct Hown as [active Hby]. exists active.
    rewrite (assoc_L (++) l1). by apply by_session_app.
Qed.

(** ** Left alone, the entitled are served *)
Lemma lookup_token_prefix raw s row : lookup_token cfg raw s = ApiTokens.Active row → String.prefix TOKEN_PREFIX raw = true.
Proof. unfold lookup_token, lookup_by_raw. by destruct (String.prefix _ _). Qed.

(** A request that changes sessions or use stamps leaves the rest. *)
Definition same_orgs (s s' : Requests.Db) : Prop :=
  organizations s' = organizations s ∧ memberships s' = memberships s ∧ users s' = users s.
Lemma touch_token_orgs id s : same_orgs s (touch_token id s).
Proof. unfold touch_token. by destruct (ApiTokens.touch_last_used_debounced _ _ _ _). Qed.
Lemma lookup_session_orgs cookie s : same_orgs s (lookup_session session_cfg cookie s).2.
Proof. unfold lookup_session. by destruct (Sessions.lookup _ _ _ _). Qed.
Lemma touch_session_orgs out id s : same_orgs s (touch_session out id s).2.
Proof. unfold touch_session. by destruct (Sessions.touch_last_used_debounced _ _ _ _ _) as [? []]. Qed.
Lemma same_member s s' user org : same_orgs s s' → is_active_member user org s' = is_active_member user org s.
Proof. intros (Ho & Hm & _). unfold is_active_member, live_org. by rewrite Ho, Hm. Qed.
Lemma same_slug s s' n : same_orgs s s' → find_id_by_slug n s' = find_id_by_slug n s.
Proof. intros (Ho & _). unfold find_id_by_slug. by rewrite Ho. Qed.
Lemma same_user s s' user : same_orgs s s' → load_user user s' = load_user user s.
Proof. intros (_ & _ & Hu). unfold load_user. by rewrite Hu. Qed.

Definition header_names (req : HttpRequest) (org : OrgId) (s : Requests.Db) : Prop :=
  ∃ v, header "x-uptimepage-org" req = Some v ∧ to_str v = Some v ∧ str_trim v ≠ "" ∧
    find_id_by_slug (str_trim v) s = Some org.

Lemma alone_and_then {A B} (m : prog op (result A)) (k : A → prog op (result B)) s :
  alone exec Works (x ←? m; k x) s =
    match alone exec Works m s with (Ok a, s') => alone exec Works (k a) s' | (Err e, s') => (Err e, s') end.
Proof. unfold and_then. rewrite alone_bind. by destruct (alone exec Works m s) as [[]]. Qed.

(** Whoever is entitled is served. On a store that works and a request the CSRF
    guard lets by, a member of a live organization reaches it: with an active token
    that allows the scope, when the token is bound to it and the header is absent or
    names it too, or the token is unbound and the header names it; or, without a
    bearer, with the cookie of an active session of a live account that has it
    selected. *)
Theorem entitled_requests_are_served required req s user org :
  has_db cfg = true → csrf_passes session_cfg req = true → is_active_member user org s = true →
  let answer := (alone exec Works (front (λ ctx, authorized cfg session_cfg required ctx req) req) s).1 in
  (∀ raw row, bearer_from_headers req = Some raw → lookup_token cfg raw s = ApiTokens.Active row →
     user = ApiTokenRow.user_id row → allows required (ApiTokenRow.scopes row) = true →
     (ApiTokenRow.org row = Some org ∧ (header "x-uptimepage-org" req = None ∨ header_names req org s) ∨
      ApiTokenRow.org row = None ∧ header_names req org s) →
     answer = Passed (Some (from_row row), org)) ∧
  (∀ cookie row u, bearer_from_headers req = None → session_cookie session_cfg req = Some cookie →
     (lookup_session session_cfg cookie s).1 = LookupOutcome.Active row → user = SessionRow.user_id row →
     SessionRow.active_org_id row = Some org → load_user user s = Some u →
     answer = Passed (None, org)).
Proof.
  intros Hdb Hcsrf Hmem. cbv zeta. unfold front, Requests.front. rewrite Hcsrf. cbn [negb]. split.
  - intros raw row Hb Hl -> Hall Hbound. unfold api_token_middleware.
    rewrite Hb, (lookup_token_prefix _ _ _ Hl), Hdb. cbn [negb]. simpl. unfold database, query. simpl. rewrite Hl. simpl.
    pose proof (touch_token_orgs (ApiTokenRow.id row) s) as Hsame. set (s1 := touch_token _ s) in *.
    rewrite alone_bind. unfold authorized, current_org, require_db, from_row. rewrite Hdb, !alone_and_then. simpl.
    rewrite !alone_and_then.
    assert (Horg : alone exec Works (match ApiTokenRow.org row with
        | Some org0 => hdr ←? optional_org_from_header req;
            Ret (if is_some_and (λ h, negb (bool_decide (h = org0))) hdr
                 then Err (ForbiddenCoded "ORG_HEADER_MISMATCH" "X-Uptimepage-Org names a different org than this token is bound to")
                 else Ok org0)
        | None => explicit_org_from_header req end) s1 = (Ok org, s1)).
    { unfold explicit_org_from_header, optional_org_from_header.
      assert (Hnamed : ∀ v, find_id_by_slug (str_trim v) s = Some org → find_id_by_slug (str_trim v) s1 = Some org).
      { intros v. by rewrite (same_slug s s1). }
      destruct Hbound as [[-> [->|(v & -> & -> & Hv & Hs)]]|[-> (v & -> & -> & Hv & Hs)]]; [done|..];
        apply String.eqb_neq in Hv; rewrite Hv; simpl; unfold database, query; simpl; rewrite (Hnamed v Hs); simpl; [|done].
      by rewrite bool_decide_eq_true_2. }
    rewrite Horg. simpl. unfold database, query. simpl. rewrite (same_member s s1), Hmem, Hall by done. done.
  - intros cookie row u Hb Hc Hl -> Ha Hu. unfold api_token_middleware. rewrite Hb. simpl.
    unfold authorized, current_org, and_then. rewrite !alone_bind. unfold extract_session. rewrite Hdb, Hc. simpl.
    unfold database, update, query. pose proof (lookup_session_orgs cookie s) as Hsame.
    destruct (lookup_session session_cfg cookie s) as [o s1]. simpl in *. subst o. simpl.
    pose proof (touch_session_orgs Works (SessionRow.id row) s1) as Hsame'. 
    destruct (touch_session Works (SessionRow.id row) s1) as [answer s2]. simpl in *.
    assert (Hboth : same_orgs s s2) by (unfold same_orgs in *; intuition congruence).
    rewrite (same_user s s2), Hu by done. unfold session_user. simpl. rewrite Ha.
    assert (user_id u = SessionRow.user_id row) as ->.
    { unfold load_user in Hu. repeat case_match; by simplify_eq. }
    simpl. unfold database, query. simpl. by rewrite (same_member s s2), Hmem.
Qed.

(** ** The MCP endpoint *)
Lemma authenticate_speaks req raw seen ctx : bearer_from_headers req = Some raw →
  ran (authenticate cfg req raw) seen (Passed ctx) →
  ∃ row org, by_token req seen row ∧ ApiTokenRow.org row = Some org ∧ ctx = Some (from_row row) ∧
    is_none_or (same_audience cfg) (ApiTokenRow.audience row) = true ∧ member_seen seen (ApiTokenRow.user_id row) org.
Proof.
  intros Hb. unfold authenticate. destruct (String.prefix _ _); cbn [negb]; [|by intros [_ ?]].
  destruct (has_db cfg); cbn [negb]; [|by intros [_ ?]].
  intros (s & rest & out & -> & Hr)%ran_call. destruct (Requests.exec _ _ _ _ _ s).1 as [[row|]|] eqn:Hl; [|by destruct Hr..].
  destruct (is_some_and _ _) eqn:Ha; [by destruct Hr|]. destruct (ApiTokenRow.org row) as [org|] eqn:Ho; [|by destruct Hr].
  apply ran_call in Hr as (s1 & rest1 & out1 & -> & Hr).
  destruct (Requests.exec _ _ _ _ _ s1).1 as [[]|] eqn:Hm; [| |by destruct Hr].
  - apply ran_call in Hr as (s2 & rest2 & out2 & -> & [_ [= ->]]). exists row, org.
    apply request_database_ok in Hl, Hm. simpl in Hl, Hm. split_and!; try done.
    + exists raw, s. rewrite elem_of_cons. split_and!; [done|by left|congruence].
    + unfold from_row. by rewrite Ho.
    + destruct (ApiTokenRow.audience row); [|done]. simpl in *. by apply negb_false_iff.
    + exists s1. rewrite !elem_of_cons. split; [auto|congruence].
  - by apply ran_call in Hr as (s2 & rest2 & out2 & -> & [_ ?]).
Qed.

(** C18: an MCP tool runs for the organization of its token and for no other. However the
    lookups interleave and fail, a tool's caller showed a token active then, bound to
    exactly the organization the tool is given, minted for this endpoint or for none,
    allowing the scope of the tool, and owned by a member of that live organization.
    Without a credential nothing gets through but a [POST] every message of which is
    a discovery method, and it carries no organization for a tool to read. *)
Theorem mcp_tools_are_authorised required req seen :
  (∀ a, ran (mcp_tool cfg session_cfg required req) seen (Passed (inr a)) →
     ∃ row, by_token req seen row ∧ ApiTokenRow.org row = Some (mcp_org a) ∧ mcp_user a = ApiTokenRow.user_id row ∧
       mcp_scopes a = ApiTokenRow.scopes row ∧ allows required (ApiTokenRow.scopes row) = true ∧
       is_none_or (same_audience cfg) (ApiTokenRow.audience row) = true ∧
       member_seen seen (mcp_user a) (mcp_org a)) ∧
  (∀ ctx, bearer_from_headers req = None → ran (mcp_middleware cfg req) seen (Passed ctx) →
     method req = POST ∧ ctx = None ∧ from_ctx ctx = inl Unauthenticated ∧
     ∃ json, from_slice (body req) = Some json ∧
       let msgs := default [json] (as_array json) in
       msgs ≠ [] ∧ ∀ m, m ∈ msgs → ∃ name, get_str "method" m = Some name ∧ is_public_method name = true).
Proof.
  split.
  - intros a. unfold mcp_tool. destruct (csrf_passes _ _); [|by intros [_ ?]]. cbn [negb].
    intros (l1 & l2 & [r|ctx] & -> & Hm & [-> Hr])%ran_bind; [done|]. injection Hr as Hr. rewrite app_nil_r.
    unfold mcp_middleware in Hm. destruct (bearer_from_headers req) as [raw|] eqn:Hb.
    + apply (authenticate_speaks _ _ _ _ Hb) in Hm as (row & org & Hrow & Ho & -> & Haud & Hmem). exists row.
      unfold from_row in Hr. rewrite Ho in Hr. simpl in Hr. unfold require in Hr. simpl in Hr.
      destruct (allows _ _) eqn:Hall; [|done]. injection Hr as ->. by split_and!.
    + destruct Hm as [-> Hm]. unfold discovery_or_challenge in Hm. repeat case_match; simplify_eq; done.
  - intros ctx Hb. unfold mcp_middleware. rewrite Hb. intros [_ Hd]. unfold discovery_or_challenge in Hd.
    destruct (bool_decide _) eqn:Hm; [|done]. simpl in Hd. destruct (_ <? _)%nat; [done|].
    destruct (all_methods_public (body req)) eqn:Hall; [|done]. injection Hd as ->. apply bool_decide_eq_true in Hm.
    unfold all_methods_public in Hall. destruct (from_slice _) as [json|]; [|done].
    split_and!; [done..|]. exists json. split; [done|]. cbv zeta. apply andb_true_iff in Hall as [Hne Hall]. split.
    + intros E. by rewrite E in Hne.
    + intros m Hin. apply list_elem_of_In in Hin. rewrite forallb_forall in Hall. specialize (Hall m Hin).
      destruct (get_str "method" m) as [name|]; [|done]. by exists name.
Qed.

(** ** What no gate looks at

    A route that takes [CurrentUser] alone (the data export, the lists of
    organizations, members and invitations) asks no scope, no binding and no audience
    of a token: any active one speaks for its user there. *)
Lemma any_token_speaks_for_its_user req raw row s :
  has_db cfg = true → bearer_from_headers req = Some raw → lookup_token cfg raw s = ApiTokens.Active row →
  (alone exec Works (front (λ ctx, current_user cfg session_cfg ctx req) req) s).1
    = Passed (Some (from_row row), ApiTokenRow.user_id row).
Proof.
  intros Hdb Hb Hl. unfold front, Requests.front, csrf_passes. rewrite Hb. simpl.
  replace (if negb _ then true else _) with true by (by repeat case_match). simpl.
  unfold api_token_middleware. rewrite Hb, (lookup_token_prefix _ _ _ Hl), Hdb. cbn [negb]. simpl.
  unfold database, query. simpl. rewrite Hl. done.
Qed.
End Facts.

(** ** A small deployment *)
Module RequestSample.
#[local] Existing Instances TokensSample.random TokensSample.argon2 TokensSample.env TokensSample.in_order.
#[local] Existing Instances OAuthSample.prims OAuthSample.urls OAuthSample.digests.
#[local] Remove Hints TokensSample.toy TokensSample.toy_laws : typeclass_instances.
#[local] Instance http : Http := {|
  to_str := Some; header_value_ok _ := true;
  jar_get values name :=
    snd <$> head (filter (λ kv : string * string, str_trim kv.1 = name)
      (omap (split_once "="%char) (values ≫= cookie_pairs)));
  cookie_key := str_trim;
  Value := string; from_slice := Some; as_array _ := None; get_str _ m := Some m |}.
#[local] Instance http_laws : HttpLaws.
Proof.
  split; [by intros v s [= ->]|]. intros values name v. simpl. intros ([key rest] & Hh & _)%fmap_Some.
  apply head_Some_elem_of, list_elem_of_filter in Hh as [Hname (kv & Hkv & Hs)%list_elem_of_omap].
  apply list_elem_of_bind in Hkv as (raw & Hkv & Hraw). by exists raw, kv, key, rest.
Qed.

Definition cfg : OAuth.Config := OAuthSample.cfg.
Definition session_cfg : SessionConfig := SessionsSample.cfg.
(** One user, the owner of one organization, with a browser session and the connector
    of OAuthWitness.v. *)
Definition site : Requests.Db := {|
  Requests.api_tokens := OAuth.api_tokens (shared OAuthSample.after_refresh); token_debounce := ∅;
  Requests.sessions := (Sessions.create session_cfg 0 7%N (Some 3%N) None None
     {| Sessions.sessions := ∅; last_seen := ∅; generated := 0 |}).2;
  session_debounce := ∅;
  users := {[ 7%N := {| email := "a@b"; email_verified_at := Some 0; deleted_at := None |} ]};
  organizations := {[ 3%N := {| slug := "acme"; tombstoned := false |} ]};
  memberships := {[ (7%N, 3%N) := "owner" ]};
  Requests.now := 0 |}.
Definition request (m : Method) (p : string) (hs : list (string * string)) (b : string) : HttpRequest := {|
  method := m; path := p; headers n := omap (λ h : string * string, if String.eqb h.1 n then Some h.2 else None) hs;
  body := b |}.
Definition by_connector (m : Method) (p : string) : HttpRequest :=
  request m p [("authorization", "Bearer sm_live_xdf")] "".
Definition by_browser (m : Method) (p : string) : HttpRequest :=
  request m p [("cookie", "theme=dark; _sm_session=" +:+ session_secret 0); ("x-requested-with", "uptimepage")] "".

Abbreviation exec := (Requests.exec cfg session_cfg).
Abbreviation front := (Requests.front cfg session_cfg).

Lemma answers {A} (p : prog Requests.op A) a : (alone exec Works p site).1 = a → ∃ seen, ran exec p seen a.
Proof. intros <-. apply alone_ran. Qed.

Lemma requests_are_authorised_witness : ∃ seen ctx user, granted cfg session_cfg TargetsRead
  (by_connector GET "/api/v1/targets") seen ctx user 3%N.
Proof.
  set (req := by_connector GET "/api/v1/targets").
  assert (E : ∃ ctx, (alone exec Works (front (λ ctx, authorized cfg session_cfg TargetsRead ctx req) req) site).1
    = Passed (ctx, 3%N)) by (eexists; vm_compute; reflexivity).
  destruct E as [ctx [seen Hran]%answers].
  destruct (requests_are_authorised cfg session_cfg TargetsRead req seen ctx 3%N Hran) as [user Hg].
  exists seen, ctx, user. exact Hg.
Defined.

Lemma administration_takes_a_session_witness : ∃ seen user active,
  by_session session_cfg (by_browser POST "/api/v1/me/api-tokens") seen user active.
Proof.
  set (req := by_browser POST "/api/v1/me/api-tokens").
  assert (E : (alone exec Works (front (λ ctx, verified_browser_user cfg session_cfg ctx req) req) site).1
    = Passed (None, 7%N)) by (vm_compute; reflexivity).
  apply answers in E as [seen Hran].
  destruct (administration_takes_a_session cfg session_cfg TargetsRead req seen None 7%N 3%N) as [Hbrowser _].
  destruct (Hbrowser Hran) as [[active Hby] _]. exists seen, 7%N, active. exact Hby.
Defined.

Lemma entitled_requests_are_served_witness :
  (alone exec Works (front (λ ctx, authorized cfg session_cfg IncidentsWrite ctx (by_browser POST "/api/v1/incidents"))
     (by_browser POST "/api/v1/incidents")) site).1 = Passed (None, 3%N).
Proof.
  destruct (entitled_requests_are_served cfg session_cfg IncidentsWrite (by_browser POST "/api/v1/incidents") site 7%N 3%N)
    as [_ Hsession]; [reflexivity|vm_compute; reflexivity|vm_compute; reflexivity|].
  apply (Hsession (session_secret 0) (row_of (hash_session_id (session_secret 0)) {|
    Row.user_id := 7%N; Row.active_org_id := Some 3%N; Row.created_at := 0; Row.last_used_at := 0;
    Row.expires_at := days 90; Row.ip_hash := None; Row.user_agent_hash := None |})
    {| user_id := 7%N; user_email := "a@b" |}); vm_compute; reflexivity.
Defined.

Lemma mcp_tools_are_authorised_witness : ∃ seen row,
  by_token cfg (by_connector POST "/mcp") seen row ∧ ApiTokenRow.org row = Some 3%N.
Proof.
  assert (E : ∃ scopes id, (alone exec Works (mcp_tool cfg session_cfg TargetsWrite (by_connector POST "/mcp")) site).1
    = Passed (inr {| mcp_org := 3%N; mcp_scopes := scopes; mcp_user := 7%N; mcp_token := id |}))
    by (do 2 eexists; vm_compute; reflexivity).
  destruct E as (scopes & id & [seen Hran]%answers).
  destruct (mcp_tools_are_authorised cfg session_cfg TargetsWrite (by_connector POST "/mcp") seen) as [Htool _].
  destruct (Htool _ Hran) as (row & Hrow & Ho & _). exists seen, row. split; [exact Hrow|exact Ho].
Defined.

(** A session's cookie in a second [Cookie] header: the guard, which looks at the first
    one, takes the request for one without a session, and the extractor finds it. *)
Definition in_second_header : HttpRequest :=
  request POST "/api/v1/incidents" [("cookie", "theme=dark"); ("cookie", "_sm_session=" +:+ session_secret 0)] "".
Lemma guard_reads_one_cookie_header :
  (alone exec Works (front (λ ctx, authorized cfg session_cfg IncidentsWrite ctx in_second_header) in_second_header) site).1
    = Passed (None, 3%N) ∧ ¬ own_header in_second_header.
Proof.
  split; [vm_compute; reflexivity|]. intros [Hh|[(v & Hv & _)|Hp]]; [discriminate..|].
  repeat (apply elem_of_cons in Hp as [Hp|Hp]; [discriminate|]). by apply elem_of_nil in Hp.
Qed.

(** The connector's token was minted for the MCP endpoint; the REST API serves it all
    the same. *)
Lemma audience_is_not_checked_by_the_api :
  (∃ row, lookup_token cfg "sm_live_xdf" site = ApiTokens.Active row ∧ ApiTokenRow.audience row = Some "https://m/mcp") ∧
  ∃ ctx, (alone exec Works (front (λ ctx, authorized cfg session_cfg TargetsWrite ctx (by_connector POST "/api/v1/targets"))
     (by_connector POST "/api/v1/targets")) site).1 = Passed (ctx, 3%N).
Proof. split; [eexists; split; vm_compute; reflexivity|eexists; vm_compute; reflexivity]. Qed.
End RequestSample.
