(* ===== verification/Idempotency.v ===== *)
(** * Idempotency keys

    src/api/idempotency.rs: the middleware of the bulk routes that answers a repeated
    request from a cache instead of running it. It awaits the body of the request, the
    cache, the rest of the stack and the body of the response, any read of which may
    fail, and runs concurrently with itself (Handlers.v). The cache is moka's with a time to live: an entry may be evicted at
    any moment. What runs below is logged, with its answer. *)

From Stdlib Require Import String.
From S2P Require Import Prelude Text Handlers Requests.

(** [DefaultHasher] over byte slices, printed as sixteen hexadecimal digits. *)
Class Hasher := { digest16 : list string → string }.
Class HasherLaws `{Hasher} := { digest16_length : ∀ l, String.length (digest16 l) = 16%nat }.

Definition TTL : Duration := seconds (24 * 3600).
Definition MAX_BODY : nat := 8 * 1024 * 1024.

Record Response := {
  status : Z; content_type : option string; other_headers : list (string * string); resp_body : string;
}.
Record CachedResponse := { cached_status : Z; cached_content_type : option string; cached_body : string }.
Definition capture (r : Response) : CachedResponse :=
  {| cached_status := status r; cached_content_type := content_type r; cached_body := resp_body r |}.
Definition rebuild_response (c : CachedResponse) : Response :=
  {| status := cached_status c; content_type := cached_content_type c; other_headers := []; resp_body := cached_body c |}.
Definition body_too_large : Response :=
  {| status := 500; content_type := None; other_headers := []; resp_body := "response body too large" |}.

Record State := {
  cache : gmap string (CachedResponse * DateTime);
  at_ : DateTime;
  executed : list (HttpRequest * Response);
  broken : list string;                      (* bodies whose read failed, logged *)
}.
(** An entry is served for a day. *)
Definition lookup (key : string) (s : State) : option CachedResponse :=
  match cache s !! key with
  | Some (c, stored) => if at_ s <? stored + TTL then Some c else None
  | None => None
  end.
Definition store (key : string) (c : CachedResponse) (s : State) : State :=
  {| cache := <[key := (c, at_ s)]> (cache s); at_ := at_ s; executed := executed s; broken := broken s |}.

Inductive op : Type → Type :=
| ReadBody (bytes : string) : op (option string)      (* [to_bytes(body, MAX_BODY)] *)
| Lookup (key : string) : op (option CachedResponse)
| Store (key : string) (c : CachedResponse) : op unit
| Run (req : HttpRequest) : op Response.

(** What a call meets: the answer of the rest of the stack when it is run, and whether
    the connection breaks while a body is read. *)
Record Out := { answer : Response; breaks : bool }.
Definition exec (out : Out) (T : Type) (o : op T) (s : State) : T * State :=
  match o in op T return T * State with
  | ReadBody b =>
      if (MAX_BODY <? String.length b)%nat then (None, s)
      else if breaks out then
        (None, {| cache := cache s; at_ := at_ s; executed := executed s; broken := broken s ++ [b] |})
      else (Some b, s)
  | Lookup key => (lookup key s, s)
  | Store key c => (tt, store key c s)
  | Run req =>
      (answer out, {| cache := cache s; at_ := at_ s; executed := executed s ++ [(req, answer out)]; broken := broken s |})
  end.

Inductive event := TimePasses (d : N) | Evict (key : string).
Definition outside (e : event) (s : State) : State :=
  match e with
  | TimePasses d => {| cache := cache s; at_ := at_ s + Z.of_N d; executed := executed s; broken := broken s |}
  | Evict key => {| cache := delete key (cache s); at_ := at_ s; executed := executed s; broken := broken s |}
  end.

Section Middleware.
Context `{Http} `{Hasher}.

Definition key_header (req : HttpRequest) : option string := header "idempotency-key" req ≫= to_str.
Definition caller_hash (req : HttpRequest) : string :=
  digest16 ((λ name, default "" (header name req)) <$> ["authorization"; "cookie"]).
Definition cache_key (req : HttpRequest) : option string :=
  key ← key_header req; Some (caller_hash req +:+ ":" +:+ key +:+ ":" +:+ digest16 [body req]).
Definition without_body (req : HttpRequest) : HttpRequest :=
  {| method := method req; path := path req; headers := headers req; body := "" |}.

Definition middleware (req : HttpRequest) : prog op Response :=
  match cache_key req with
  | None => call (Run req)
  | Some key =>
      body_bytes ← call (ReadBody (body req));
      match body_bytes with
      | None => call (Run (without_body req))
      | Some _ =>
          cached ← call (Lookup key);
          match cached with
          | Some c => Ret (rebuild_response c)
          | None =>
              resp ← call (Run req);
              resp_bytes ← call (ReadBody (resp_body resp));
              match resp_bytes with
              | None => Ret body_too_large
              | Some _ =>
                  _ ← call (Store key (capture resp));
                  Ret resp
              end
          end
      end
  end.

(** ** What a key says *)
Context `{!HasherLaws}.

Lemma append_split (a b c d : string) : String.length a = String.length c → a +:+ b = c +:+ d → a = c ∧ b = d.
Proof.
  revert c. induction a as [|x a IH]; intros [|y c]; try done. intros [= Hl] Heq.
  change (String x (a +:+ b) = String y (c +:+ d)) in Heq. injection Heq as -> Heq.
  destruct (IH c Hl Heq) as [-> ->]. done.
Qed.
Lemma append_length (a b : string) : String.length (a +:+ b) = (String.length a + String.length b)%nat.
Proof. induction a as [|x a IH]; [done|]. change (S (String.length (a +:+ b)) = S (String.length a + String.length b)). by rewrite IH. Qed.
Lemma append_split_end (a b c d : string) : String.length b = String.length d → a +:+ b = c +:+ d → a = c ∧ b = d.
Proof.
  intros Hl Heq. apply append_split; [|done]. apply (f_equal String.length) in Heq. rewrite !append_length in Heq. lia.
Qed.

(** What the caller shows, byte for byte. *)
Definition credentials (r : HttpRequest) : list string :=
  [default "" (header "authorization" r); default "" (header "cookie" r)].
(** Equal, unless the two are one of the pairs the 64-bit hash confuses. *)
Definition same_digest (l l' : list string) : Prop := l = l' ∨ (l ≠ l' ∧ digest16 l = digest16 l').
(** The same key, credentials and body. *)
Definition same_request (r r' : HttpRequest) : Prop :=
  key_header r = key_header r' ∧ same_digest (credentials r) (credentials r') ∧ same_digest [body r] [body r'].
Lemma same_digest_iff l l' : same_digest l l' ↔ digest16 l = digest16 l'.
Proof.
  split; [by intros [->|[_ ?]]|]. intros Heq. destruct (decide (l = l')); [by left|by right].
Qed.

Lemma cache_key_same r r' k : cache_key r = Some k → cache_key r' = Some k ↔ same_request r r'.
Proof.
  unfold cache_key, same_request. rewrite !same_digest_iff.
  change (digest16 (credentials r)) with (caller_hash r). change (digest16 (credentials r')) with (caller_hash r'). destruct (key_header r) as [h|]; [|done]. simpl. intros [= <-].
  destruct (key_header r') as [h'|]; simpl; [|by split; [|intros ([=] & _)]]. split.
  - intros [= Heq]. apply append_split in Heq as [-> Heq]; [|by unfold caller_hash; rewrite !digest16_length].
    assert (Htail : h' +:+ (":" +:+ digest16 [body r']) = h +:+ (":" +:+ digest16 [body r])) by (by injection Heq).
    apply append_split_end in Htail as [-> Htail]; [|by rewrite !append_length, !digest16_length].
    split; [done|]. split; [done|]. by injection Htail.
  - by intros ([= ->] & -> & ->).
Qed.

(** ** Every answer was earned *)
(** How far a request is. [Lost]: its response could not be read. *)
Inductive phase :=
| Idle | Unread | Replays (c : CachedResponse) | RanAs (r : HttpRequest) (resp : Response)
| Lost (r : HttpRequest) (resp : Response).
Definition after (g : phase) (T : Type) (o : op T) : T → phase :=
  match o in op T return T → phase with
  | ReadBody _ => λ bytes, match bytes, g with
                           | None, Idle => Unread
                           | None, RanAs r resp => Lost r resp
                           | _, _ => g
                           end
  | Lookup _ => λ found, match found with Some c => Replays c | None => g end
  | Store _ _ => λ _, g
  | Run r => RanAs r
  end.
Definition earned (l : list (HttpRequest * Response)) (k : string) (c : CachedResponse) : Prop :=
  ∃ r resp, (r, resp) ∈ l ∧ cache_key r = Some k ∧ c = capture resp.
(** Too large, or its connection broke. *)
Definition unreadable (b : string) (s : State) : Prop := (MAX_BODY < String.length b)%nat ∨ b ∈ broken s.
Definition ran_as (req r : HttpRequest) (s : State) : Prop :=
  r = req ∨ r = without_body req ∧ unreadable (body req) s.

Definition allowed (req : HttpRequest) (g : phase) (T : Type) (o : op T) : Prop :=
  match o with
  | ReadBody b => match g with Idle => b = body req | RanAs _ resp => b = resp_body resp | _ => False end
  | Lookup key => cache_key req = Some key ∧ g = Idle
  | Store key c => cache_key req = Some key ∧ ∃ resp, g = RanAs req resp ∧ c = capture resp
  | Run r => (g = Idle ∧ r = req) ∨ (g = Unread ∧ r = without_body req)
  end.
Definition good (g : phase) (a : Response) : Prop :=
  match g with
  | Idle | Unread => False
  | Replays c => a = rebuild_response c
  | RanAs r resp => a = resp
  | Lost r resp => a = body_too_large
  end.
Definition SI (s : State) (gs : gmap nat (HttpRequest * phase)) : Prop :=
  (∀ k c t, cache s !! k = Some (c, t) → earned (executed s) k c) ∧
  ∀ i req g, gs !! i = Some (req, g) →
    match g with
    | Idle => True
    | Unread => unreadable (body req) s
    | Replays c => ∃ k, cache_key req = Some k ∧ earned (executed s) k c
    | RanAs r resp => (r, resp) ∈ executed s ∧ ran_as req r s
    | Lost r resp => (r, resp) ∈ executed s ∧ ran_as req r s ∧ unreadable (resp_body resp) s
    end.

Lemma earned_more l l' k c : earned l k c → earned (l ++ l') k c.
Proof. intros (r & resp & ? & ?). exists r, resp. rewrite elem_of_app. auto. Qed.
Lemma unreadable_more b s s' : (∀ x, x ∈ broken s → x ∈ broken s') → unreadable b s → unreadable b s'.
Proof. intros Hb [?|?]; [by left|right; by apply Hb]. Qed.

(** What holds of a state holds of one that logs more. *)
Lemma SI_more s s' gs : SI s gs → (∀ x, x ∈ executed s → x ∈ executed s') → (∀ x, x ∈ broken s → x ∈ broken s') →
  (∀ k c t, cache s' !! k = Some (c, t) → cache s !! k = Some (c, t)) → SI s' gs.
Proof.
  intros [Hc Hg] Hex Hbr Hca. assert (Hran : ∀ req r, ran_as req r s → ran_as req r s').
  { intros req r [?|[? ?]]; [by left|right]. split; [done|by eapply unreadable_more]. }
  assert (Hear : ∀ k c, earned (executed s) k c → earned (executed s') k c).
  { intros k c (r & resp & ? & ?). exists r, resp. auto. }
  split; [by intros k c t Hk%Hca%Hc; apply Hear|]. intros i req g Hi. specialize (Hg i req g Hi). destruct g as [| |c|r resp|r resp].
  - done.
  - by eapply unreadable_more.
  - destruct Hg as (k & ? & ?). eauto.
  - destruct Hg. auto.
  - destruct Hg as (? & ? & ?). split_and!; [auto|auto|by eapply unreadable_more].
Qed.

Lemma middleware_obeys req : obeys (allowed req) after good Idle (middleware req).
Proof.
  unfold middleware. destruct (cache_key req) as [key|] eqn:Hk; simpl; [|split; [by left|done]].
  split; [done|]. intros [bytes|]; simpl; [|split; [by right|done]].
  split; [done|]. intros [c|]; simpl; [done|]. split; [by left|]. intros resp. split; [done|].
  intros [rb|]; simpl; [|done]. split; [|done]. split; [done|]. by exists resp.
Qed.

Lemma phase_keeps s gs i req g : SI s gs →
  (match g with
   | Idle => True
   | Unread => unreadable (body req) s
   | Replays c => ∃ k, cache_key req = Some k ∧ earned (executed s) k c
   | RanAs r resp => (r, resp) ∈ executed s ∧ ran_as req r s
   | Lost r resp => (r, resp) ∈ executed s ∧ ran_as req r s ∧ unreadable (resp_body resp) s
   end) → SI s (<[i := (req, g)]> gs).
Proof.
  intros [Hc Hg] Hnew. split; [done|]. intros j req' g' [[_ [= <- <-]]|[_ Hj]]%lookup_insert_Some; [exact Hnew|by apply (Hg j)].
Qed.

Lemma read_keeps s gs i req g out b : SI s gs → gs !! i = Some (req, g) → allowed req g _ (ReadBody b) →
  SI (exec out _ (ReadBody b) s).2 (<[i := (req, after g _ (ReadBody b) (exec out _ (ReadBody b) s).1)]> gs).
Proof.
  intros Hs Hi Hall. pose proof (proj2 Hs i req g Hi) as Hg. simpl.
  assert (Hlost : ∀ s', SI s' gs → unreadable b s' → (∀ req' r, ran_as req' r s → ran_as req' r s') →
    (∀ x, x ∈ executed s → x ∈ executed s') →
    SI s' (<[i := (req, match g with Idle => Unread | RanAs r resp => Lost r resp | _ => g end)]> gs)).
  { intros s' Hs' Hb Hran Hex. apply phase_keeps; [done|]. simpl in Hall. destruct g as [| |c|r resp|r resp]; [|done|done| |done].
    - by rewrite <-Hall.
    - destruct Hg as [? ?]. rewrite <-Hall. auto. }
  destruct (MAX_BODY <? String.length b)%nat eqn:Hbig; [|destruct (breaks out)]; simpl.
  - apply Hlost; [done|left; by apply Nat.ltb_lt|done|done].
  - assert (Hmore : ∀ x, x ∈ broken s → x ∈ broken s ++ [b]) by (intros x; rewrite elem_of_app; auto).
    apply Hlost; [by apply (SI_more s)|right; simpl; rewrite elem_of_app; right; by apply list_elem_of_singleton| |done].
    intros req' r [?|[? ?]]; [by left|right]. split; [done|by eapply unreadable_more].
  - apply phase_keeps; [done|]. by destruct g.
Qed.

Lemma middleware_rule : sound exec outside middleware allowed after Idle (λ _, good) SI.
Proof.
  split.
  - apply middleware_obeys.
  - intros s gs i req Hs _. by apply phase_keeps.
  - intros s gs i req g out T o Hs Hi Hall. destruct o as [b|key|key c|r]; [by apply read_keeps|simpl in *..].
    + destruct Hall as [Hk ->]. apply phase_keeps; [done|].
      destruct (lookup key s) as [c|] eqn:Hl; [|done]. exists key. split; [done|].
      unfold lookup in Hl. destruct (cache s !! key) as [[c' t]|] eqn:He; [|done].
      destruct (_ <? _); [|done]. injection Hl as ->. by apply (proj1 Hs key c t).
    + destruct Hall as (Hk & resp & -> & ->). pose proof (proj2 Hs i req _ Hi) as [Hin Hran].
      apply phase_keeps; [|done]. destruct Hs as [Hc Hg]. split; [|exact Hg]. simpl.
      intros k c t [[<- [= <- <-]]|[_ He]]%lookup_insert_Some; [|by apply (Hc k c t)]. by exists req, resp.
    + pose proof (proj2 Hs i req _ Hi) as Hg.
      assert (Hex : ∀ x, x ∈ executed s → x ∈ executed s ++ [(r, answer out)]) by (intros x; rewrite elem_of_app; auto).
      apply phase_keeps; [by apply (SI_more s)|]. simpl. split; [rewrite elem_of_app; right; by apply list_elem_of_singleton|].
      destruct Hall as [[-> ->]|[-> ->]]; [by left|right; by split].
  - intros s gs [d|key] Hs; apply (SI_more s); simpl; try done. by intros k c t [_ He]%lookup_delete_Some.
Qed.

Definition fresh (t : DateTime) : State := {| cache := ∅; at_ := t; executed := []; broken := [] |}.


(** ** A retry is replayed *)
(** The rest of the stack answers and every body arrives. *)
Definition arrives (resp : Response) : Out := {| answer := resp; breaks := false |}.

(** Requests one at a time, time and evictions between them, [key] not among them. *)
Inductive later (key : string) : State → State → Prop :=
| later_refl s : later key s s
| later_request s s1 req out : later key s s1 → later key s (alone exec out (middleware req) s1).2
| later_time s s1 d : later key s s1 → later key s (outside (TimePasses d) s1)
| later_evict s s1 key' : later key s s1 → key' ≠ key → later key s (outside (Evict key') s1).

Lemma lookup_alive key s c stored : cache s !! key = Some (c, stored) → at_ s < stored + TTL → lookup key s = Some c.
Proof. intros Hc Ht. unfold lookup. rewrite Hc. by apply Z.ltb_lt in Ht as ->. Qed.

Lemma hit_changes_nothing resp req key s c : cache_key req = Some key →
  (String.length (body req) ≤ MAX_BODY)%nat → lookup key s = Some c →
  alone exec (arrives resp) (middleware req) s = (rebuild_response c, s).
Proof.
  intros Hk Hb Hl. unfold middleware. rewrite Hk. simpl. apply Nat.ltb_ge in Hb as ->. simpl. by rewrite Hl.
Qed.

(** Whatever a request meets, the clock stands and what is alive stays. *)
Lemma alive_entry_stays out req key s c stored : cache s !! key = Some (c, stored) → at_ s < stored + TTL →
  cache (alone exec out (middleware req) s).2 !! key = Some (c, stored).
Proof.
  intros Hc Ht. unfold middleware. destruct (cache_key req) as [key'|]; [|done]. simpl.
  destruct (_ <? _)%nat; simpl; [done|]. destruct (breaks out) eqn:Hbr; simpl; [done|].
  destruct (lookup key' s) as [c'|] eqn:Hl; simpl; [done|]. destruct (_ <? _)%nat; simpl; [done|]. rewrite Hbr. simpl.
  rewrite lookup_insert_ne; [done|]. intros ->. by rewrite (lookup_alive key s c stored) in Hl.
Qed.
Lemma clock_stands out req s : at_ (alone exec out (middleware req) s).2 = at_ s.
Proof.
  unfold middleware. destruct (cache_key req) as [key'|]; [|done]. simpl.
  destruct (_ <? _)%nat; simpl; [done|]. destruct (breaks out) eqn:Hbr; simpl; [done|].
  destruct (lookup key' s) as [c'|]; simpl; [done|]. destruct (_ <? _)%nat; simpl; [done|]. by rewrite Hbr.
Qed.
Lemma later_keeps key s s' c stored : later key s s' →
  at_ s ≤ at_ s' ∧ (cache s !! key = Some (c, stored) → at_ s' < stored + TTL → cache s' !! key = Some (c, stored)).
Proof.
  induction 1 as [s|s s1 req out _ [IHt IH]|s s1 d _ [IHt IH]|s s1 key' _ [IHt IH] Hne]; [done| | |].
  - rewrite clock_stands. split; [done|]. intros Hc Ht. by apply alive_entry_stays; [apply IH|].
  - simpl. split; [lia|]. intros Hc Ht. apply IH; [done|lia].
  - simpl. split; [done|]. intros Hc Ht. rewrite lookup_delete_ne; [by apply IH|done].
Qed.

(** A retry is answered without being run. A keyed request that finds nothing is run
    once and gets the answer of the rest of the stack; for a day, whatever other
    requests come between, as long as its entry is not evicted, the request repeated
    with the same key gets the status, content type and body of that answer, and
    changes nothing; as long as the bodies arrive. *)
Theorem retry_is_replayed key req resp s :
  cache_key req = Some key → (String.length (body req) ≤ MAX_BODY)%nat → lookup key s = None →
  (String.length (resp_body resp) ≤ MAX_BODY)%nat →
  let '(first, s1) := alone exec (arrives resp) (middleware req) s in
  first = resp ∧ executed s1 = executed s ++ [(req, resp)] ∧
  ∀ s' req' resp', later key s1 s' → at_ s' < at_ s + TTL → cache_key req' = Some key → body req' = body req →
    alone exec (arrives resp') (middleware req') s' = (rebuild_response (capture resp), s').
Proof.
  intros Hk Hb Hl Hr.
  assert (Hrun : alone exec (arrives resp) (middleware req) s =
    (resp, {| cache := <[key := (capture resp, at_ s)]> (cache s); at_ := at_ s; executed := executed s ++ [(req, resp)];
              broken := broken s |})).
  { unfold middleware. rewrite Hk. simpl. apply Nat.ltb_ge in Hb as ->. simpl. rewrite Hl. simpl. by apply Nat.ltb_ge in Hr as ->. }
  rewrite Hrun. split; [done|]. split; [done|]. intros s' req' resp' Hlater Ht Hk' Hb'.
  apply (later_keeps _ _ _ (capture resp) (at_ s)) in Hlater as [_ Hkeep]. apply (hit_changes_nothing _ _ key); [done|by rewrite Hb'|].
  apply (lookup_alive _ _ _ (at_ s)); [|done]. apply Hkeep; [|done]. apply lookup_insert_eq.
Qed.
End Middleware.

Module IdempotencySample.
#[local] Instance http : Http := {|
  to_str := Some; header_value_ok _ := true; jar_get _ _ := None; cookie_key := str_trim;
  Value := string; from_slice := Some; as_array _ := None; get_str _ m := Some m |}.
#[local] Instance hasher : Hasher := {| digest16 l := substring 0 16 (foldr String.append "0123456789abcdef" l) |}.
#[local] Instance hasher_laws : HasherLaws.
Proof.
  split. intros l. unfold digest16, hasher. simpl.
  assert (Hlong : ∀ n s, (n ≤ String.length s)%nat → String.length (substring 0 n s) = n).
  { intros n. induction n as [|n IH]; intros [|c s] Hs; simpl in *; try done; [lia|]. rewrite IH; [done|lia]. }
  apply Hlong. induction l as [|x l IH]; [done|]. etransitivity; [exact IH|].
  change (String.length (foldr String.append "0123456789abcdef" (x :: l)))
    with (String.length (x +:+ foldr String.append "0123456789abcdef" l)). rewrite append_length. lia.
Qed.

Definition bulk (p : string) (hs : list (string * string)) (b : string) : HttpRequest := {|
  method := POST; path := p; headers n := omap (λ h : string * string, if String.eqb h.1 n then Some h.2 else None) hs;
  body := b |}.
Definition keyed : list (string * string) := [("idempotency-key", "k1"); ("authorization", "Bearer a")].
Definition created : HttpRequest := bulk "/api/v1/targets/bulk" keyed "[1]".
Definition unavailable : Response :=
  {| status := 503; content_type := Some "application/json"; other_headers := [("retry-after", "5")]; resp_body := "{}" |}.
Definition ok : Response :=
  {| status := 201; content_type := Some "application/json"; other_headers := []; resp_body := "[7]" |}.
Definition key : string := default "" (cache_key created).

Lemma retry_is_replayed_witness : ∃ s' resp,
  alone exec (arrives unavailable) (middleware created) s' = (rebuild_response (capture ok), s') ∧ executed s' = [(created, ok); resp].
Proof.
  pose proof (retry_is_replayed key created ok (fresh 0)) as H.
  assert (E : cache_key created = Some key) by (vm_compute; reflexivity).
  assert (Hb : (String.length (body created) ≤ MAX_BODY)%nat) by (apply Nat.ltb_ge; vm_compute; reflexivity).
  assert (Hr : (String.length (resp_body ok) ≤ MAX_BODY)%nat) by (apply Nat.ltb_ge; vm_compute; reflexivity).
  specialize (H E Hb eq_refl Hr). destruct (alone exec (arrives ok) (middleware created) (fresh 0)) as [first s1] eqn:Hs1.
  destruct H as (_ & Hex & H). 
  set (other := bulk "/api/v1/targets/bulk" [] "[2]").
  exists (outside (TimePasses (Z.to_N TTL - 1)) (alone exec (arrives ok) (middleware other) s1).2), (other, ok). split.
  - apply H; [apply later_time, later_request, later_refl| |done|done].
    injection Hs1 as _ <-. vm_compute. reflexivity.
  - injection Hs1 as _ <-. vm_compute. reflexivity.
Defined.

(** A request and its retry. *)
Definition replayed : pool (S := State) := run exec outside middleware
  (Arrive created :: repeat (Advance 0 (arrives ok)) 6 ++ Arrive created :: repeat (Advance 1 (arrives unavailable)) 3)
  (initial (fresh 0)).

(** The key says neither the route nor the organization the request names. *)
Lemma key_ignores_the_route : cache_key (bulk "/api/v1/targets/bulk-action" (("x-uptimepage-org", "other") :: keyed) "[1]")
  = cache_key created.
Proof. reflexivity. Qed.
(** An answer of the moment is kept for a day like any other. *)
Lemma failures_are_replayed :
  (alone exec (arrives ok) (middleware created) (alone exec (arrives unavailable) (middleware created) (fresh 0)).2).1
    = rebuild_response (capture unavailable).
Proof. vm_compute. reflexivity. Qed.
(** Two requests with the same key at the same time both run. *)
Lemma duplicates_in_flight_both_run :
  executed (shared (run exec outside middleware
    (Arrive created :: Arrive created :: concat (repeat [Advance 0 (arrives ok); Advance 1 (arrives ok)] 3)) (initial (fresh 0))))
  = [(created, ok); (created, ok)].
Proof. vm_compute. reflexivity. Qed.
End IdempotencySample.
