(* ===== verification/Utf8.v ===== *)
(** * UTF-8

    [str::from_utf8] and [String::from_utf8_lossy] on strings of bytes: a byte
    string is read character by character, after the table of well-formed
    sequences; what begins no well-formed sequence is cut at its longest
    well-formed start and replaced. *)

From Stdlib Require Import Ascii.
From S2P Require Import Prelude Text.

Definition continuation : ascii → bool := in_range 128 191.

(** The bytes a well-formed sequence may have after its first one. *)
Definition tail_of (lead : ascii) : option (list (ascii → bool)) :=
  if in_range 0 127 lead then Some []
  else if in_range 194 223 lead then Some [continuation]
  else if in_range 224 224 lead then Some [in_range 160 191; continuation]
  else if in_range 237 237 lead then Some [in_range 128 159; continuation]
  else if in_range 225 239 lead then Some [continuation; continuation]
  else if in_range 240 240 lead then Some [in_range 144 191; continuation; continuation]
  else if in_range 241 243 lead then Some [continuation; continuation; continuation]
  else if in_range 244 244 lead then Some [in_range 128 143; continuation; continuation]
  else None.

(** How many of the classes the bytes match, from the first one on. *)
Fixpoint matched (classes : list (ascii → bool)) (s : string) : nat :=
  match classes, s with
  | p :: classes, String a s => if p a then S (matched classes s) else 0
  | _, _ => 0
  end.

(** The first sequence: whether it is well-formed, and its length. *)
Definition first_sequence (lead : ascii) (rest : string) : bool * nat :=
  match tail_of lead with
  | None => (false, 1%nat)
  | Some classes => let n := matched classes rest in ((n =? length classes)%nat, S n)
  end.

Fixpoint is_utf8_fuel (fuel : nat) (s : string) : bool :=
  match fuel, s with
  | _, EmptyString => true
  | O, _ => false
  | S fuel, String lead rest =>
      let '(ok, n) := first_sequence lead rest in ok && is_utf8_fuel fuel (drop_chars n s)
  end.
(** Each step reads a byte at least. *)
Definition is_utf8 (s : string) : bool := is_utf8_fuel (String.length s) s.
Definition from_utf8 (s : string) : option string := if is_utf8 s then Some s else None.

Definition REPLACEMENT : string := byte 239 (byte 191 (byte 189 "")).
Fixpoint lossy_fuel (fuel : nat) (s : string) : string :=
  match fuel, s with
  | S fuel, String lead rest =>
      let '(ok, n) := first_sequence lead rest in
      (if ok then take_chars n s else REPLACEMENT) +:+ lossy_fuel fuel (drop_chars n s)
  | _, _ => ""
  end.
Definition from_utf8_lossy (s : string) : string := lossy_fuel (String.length s) s.

(** ** Reading what is well-formed *)
Lemma matched_le classes s : (matched classes s ≤ length classes)%nat.
Proof. revert s. induction classes as [|p l IH]; intros [|a s]; simpl; [lia..|]. destruct (p a); [|lia]. specialize (IH s). lia. Qed.
Lemma matched_le_rest classes s : (matched classes s ≤ String.length s)%nat.
Proof. revert s. induction classes as [|p l IH]; intros [|a s]; simpl; [lia..|]. destruct (p a); [|lia]. specialize (IH s). lia. Qed.
Lemma first_sequence_len lead rest : (1 ≤ (first_sequence lead rest).2 ≤ S (String.length rest))%nat.
Proof. unfold first_sequence. destruct (tail_of lead) as [l|]; simpl; [|lia]. pose proof (matched_le_rest l rest). lia. Qed.
Lemma drop_chars_length n s : String.length (drop_chars n s) = (String.length s - n)%nat.
Proof. revert s. induction n as [|n IH]; intros [|a s]; simpl; try done. Qed.
(** What is well-formed is read as it is. *)
Lemma lossy_valid fuel s : is_utf8_fuel fuel s = true → lossy_fuel fuel s = s.
Proof.
  revert s. induction fuel as [|fuel IH]; intros [|lead rest]; try done. simpl.
  pose proof (first_sequence_len lead rest) as Hn. destruct (first_sequence lead rest) as [ok n]. simpl in Hn.
  intros [-> Hrest]%andb_prop. rewrite (IH _ Hrest). apply take_drop_chars.
Qed.
Lemma from_utf8_lossy_valid s : is_utf8 s = true → from_utf8_lossy s = s.
Proof. apply lossy_valid. Qed.

(** More fuel changes nothing. *)
Lemma lossy_fuel_enough fuel s : (String.length s ≤ fuel)%nat → lossy_fuel fuel s = from_utf8_lossy s.
Proof.
  assert (Hmore : ∀ f g t, (String.length t ≤ f)%nat → (f ≤ g)%nat → lossy_fuel g t = lossy_fuel f t).
  { intros f. induction f as [|f IH]; intros [|g] [|lead rest] Ht Hg; simpl in *; try done; try lia.
    pose proof (first_sequence_len lead rest) as Hn. destruct (first_sequence lead rest) as [ok n]. simpl in Hn.
    rewrite (IH g); [done| |lia]. rewrite drop_chars_length. simpl. lia. }
  intros Hf. by apply Hmore.
Qed.
