(* ===== verification/CheckErrors.v ===== *)
(** * Check errors

    src/domain/check_error.rs: the terse error of a probe as the text a reader sees
    and as the class an operator's metrics count. Only the family [Internal] is
    alertable. JSON is a parameter: what [serde_json] makes of a text and the
    fields it finds there. *)

From Stdlib Require Import Ascii.
From S2P Require Import Prelude Text Domain.

Class JsonText := {
  JsonValue : Type;
  from_str : string → option JsonValue;
  field : string → JsonValue → option JsonValue;
  as_i64 : JsonValue → option Z;
  as_text : JsonValue → option string;
}.

(** src/domain/result.rs: the text without the note of a stale verdict; [None] when the
    note wraps nothing. *)
Fixpoint from_brace (s : string) : option string :=
  match s with
  | EmptyString => None
  | String a rest => if Ascii.eqb a "{"%char then Some s else from_brace rest
  end.
Definition strip_served_stale (raw : string) : option string :=
  match strip_prefix CheckResult.SERVED_STALE_PREFIX raw with
  | None => Some raw
  | Some rest => from_brace rest
  end.

Module ErrorFamily.
Inductive t := Internal | Transport | Verdict | Other.
#[global] Instance eq_dec : EqDecision t.
Proof. solve_decision. Defined.
Definition as_str (f : t) : string :=
  match f with
  | Internal => "internal" | Transport => "transport" | Verdict => "verdict" | Other => "other"
  end.
End ErrorFamily.

Module ErrorClass.
Inductive t :=
| HeartbeatStateUnavailable | FlowNotConfigured | HeartbeatNotProbed | Body | Decode | CircuitOpen | Timeout
| ConnectTimeout | Connect | ConnectionRefused | ConnectionReset | HostUnreachable | NetworkUnreachable | NoResponse
| Tls | Transport | BodyTimeout | DnsFailed | PingFailed | WhoisLookup | RdapLookup | UnexpectedStatus | RateLimited
| BodyMatchFailed | BodyOverCap | DnsNoRecord | AddressNotAllowed | CertChain | CertExpired | CertNotYetValid
| CertRevoked | CertNotTrusted | CertHostnameMismatch | CertInvalid | CertExpiry | DomainExpiry | FlowStep
| HeartbeatJob | HeartbeatMissed | Other.
#[global] Instance eq_dec : EqDecision t.
Proof. solve_decision. Defined.

Definition ALL : list t :=
  [HeartbeatStateUnavailable; FlowNotConfigured; HeartbeatNotProbed; Body; Decode; CircuitOpen; Timeout;
   ConnectTimeout; Connect; ConnectionRefused; ConnectionReset; HostUnreachable; NetworkUnreachable; NoResponse;
   Tls; Transport; BodyTimeout; DnsFailed; PingFailed; WhoisLookup; RdapLookup; UnexpectedStatus; RateLimited;
   BodyMatchFailed; BodyOverCap; DnsNoRecord; AddressNotAllowed; CertChain; CertExpired; CertNotYetValid;
   CertRevoked; CertNotTrusted; CertHostnameMismatch; CertInvalid; CertExpiry; DomainExpiry; FlowStep;
   HeartbeatJob; HeartbeatMissed; Other].

Definition as_str (c : t) : string :=
  match c with
  | HeartbeatStateUnavailable => "heartbeat_state_unavailable"
  | FlowNotConfigured => "flow_not_configured"
  | HeartbeatNotProbed => "heartbeat_not_probed"
  | Body => "body"
  | Decode => "decode"
  | CircuitOpen => "circuit_open"
  | Timeout => "timeout"
  | ConnectTimeout => "connect_timeout"
  | Connect => "connect"
  | ConnectionRefused => "connection_refused"
  | ConnectionReset => "connection_reset"
  | HostUnreachable => "host_unreachable"
  | NetworkUnreachable => "network_unreachable"
  | NoResponse => "no_response"
  | Tls => "tls"
  | Transport => "transport"
  | BodyTimeout => "body_timeout"
  | DnsFailed => "dns_failed"
  | PingFailed => "ping_failed"
  | WhoisLookup => "whois_lookup"
  | RdapLookup => "rdap_lookup"
  | UnexpectedStatus => "unexpected_status"
  | RateLimited => "rate_limited"
  | BodyMatchFailed => "body_match_failed"
  | BodyOverCap => "body_over_cap"
  | DnsNoRecord => "dns_no_record"
  | AddressNotAllowed => "address_not_allowed"
  | CertChain => "cert_chain"
  | CertExpired => "cert_expired"
  | CertNotYetValid => "cert_not_yet_valid"
  | CertRevoked => "cert_revoked"
  | CertNotTrusted => "cert_not_trusted"
  | CertHostnameMismatch => "cert_hostname_mismatch"
  | CertInvalid => "cert_invalid"
  | CertExpiry => "cert_expiry"
  | DomainExpiry => "domain_expiry"
  | FlowStep => "flow_step"
  | HeartbeatJob => "heartbeat_job"
  | HeartbeatMissed => "heartbeat_missed"
  | Other => "other"
  end.

Definition family (c : t) : ErrorFamily.t :=
  match c with
  | HeartbeatStateUnavailable | FlowNotConfigured | HeartbeatNotProbed => ErrorFamily.Internal
  | Timeout | ConnectTimeout | Connect | ConnectionRefused | ConnectionReset | HostUnreachable
  | NetworkUnreachable | NoResponse | Tls | Transport | BodyTimeout | Body | Decode | CircuitOpen
  | DnsFailed | PingFailed | WhoisLookup | RdapLookup => ErrorFamily.Transport
  | UnexpectedStatus | RateLimited | BodyMatchFailed | BodyOverCap | DnsNoRecord | AddressNotAllowed
  | CertChain | CertExpired | CertNotYetValid | CertRevoked | CertNotTrusted | CertHostnameMismatch
  | CertInvalid | CertExpiry | DomainExpiry | FlowStep | HeartbeatJob | HeartbeatMissed => ErrorFamily.Verdict
  | Other => ErrorFamily.Other
  end.
End ErrorClass.

(** The arms of the [match] on the whole text. *)
Definition EXACT : list (string * ErrorClass.t) :=
  [("body", ErrorClass.Body); ("decode", ErrorClass.Decode);
   ("heartbeat state unavailable on this node", ErrorClass.HeartbeatStateUnavailable);
   ("flow engine not configured on this node", ErrorClass.FlowNotConfigured);
   ("heartbeat monitors are evaluated on the control plane, not probed", ErrorClass.HeartbeatNotProbed);
   ("circuit_open", ErrorClass.CircuitOpen); ("timeout", ErrorClass.Timeout);
   ("connect timeout", ErrorClass.ConnectTimeout); ("connect", ErrorClass.Connect);
   ("connection refused", ErrorClass.ConnectionRefused); ("connection reset", ErrorClass.ConnectionReset);
   ("host unreachable", ErrorClass.HostUnreachable); ("network unreachable", ErrorClass.NetworkUnreachable);
   ("address not allowed", ErrorClass.AddressNotAllowed);
   ("certificate expired", ErrorClass.CertExpired); ("certificate not yet valid", ErrorClass.CertNotYetValid);
   ("certificate revoked", ErrorClass.CertRevoked);
   ("certificate not trusted", ErrorClass.CertNotTrusted); ("certificate self-signed", ErrorClass.CertNotTrusted);
   ("certificate hostname mismatch", ErrorClass.CertHostnameMismatch);
   ("certificate invalid", ErrorClass.CertInvalid); ("rdap throttled", ErrorClass.RdapLookup);
   ("no response", ErrorClass.NoResponse); ("tls", ErrorClass.Tls);
   ("tls handshake rejected", ErrorClass.Tls); ("tls version or cipher mismatch", ErrorClass.Tls);
   ("malformed tls response", ErrorClass.Tls); ("tls handshake reset", ErrorClass.Tls);
   ("tls handshake closed early", ErrorClass.Tls); ("transport", ErrorClass.Transport);
   ("body timeout", ErrorClass.BodyTimeout); ("body match failed", ErrorClass.BodyMatchFailed);
   ("dns: domain not found", ErrorClass.DnsNoRecord); ("dns: no address records", ErrorClass.DnsNoRecord);
   ("server returned no certificate chain", ErrorClass.CertChain);
   ("empty certificate chain", ErrorClass.CertChain); ("certificate chain incomplete", ErrorClass.CertChain)].
Definition exact (raw : string) : option ErrorClass.t :=
  snd <$> List.find (λ kv, String.eqb kv.1 raw) EXACT.

(** The tests that follow it, in order. *)
Definition STEMS : list ((string → bool) * ErrorClass.t) :=
  let starts := String.prefix in
  [(λ r, starts "body over the " r && (ends_with " read cap" r || ends_with " decoded cap" r), ErrorClass.BodyOverCap);
   (starts "unexpected status ", ErrorClass.UnexpectedStatus);
   (starts "rate-limited ", ErrorClass.RateLimited);
   (starts "dns: ", ErrorClass.DnsFailed);
   (starts "parsing leaf certificate: ", ErrorClass.CertChain);
   (starts "no allowed addresses for ", ErrorClass.AddressNotAllowed);
   (λ r, starts "echo to " r || starts "no echo reply from " r, ErrorClass.PingFailed);
   (λ r, starts "connecting to WHOIS server " r || starts "sending WHOIS query to " r
         || starts "reading WHOIS response from " r, ErrorClass.WhoisLookup);
   (λ r, starts "invalid RDAP base url " r || starts "building RDAP request for " r, ErrorClass.RdapLookup);
   (λ r, starts "job reported failure" r || starts "job started " r, ErrorClass.HeartbeatJob);
   (starts "no ping for ", ErrorClass.HeartbeatMissed);
   (λ r, starts "step " r && contains r ": ", ErrorClass.FlowStep)].
Definition by_stem (raw : string) : ErrorClass.t :=
  default ErrorClass.Other (snd <$> List.find (λ kv : (string → bool) * ErrorClass.t, kv.1 raw) STEMS).

Section Classify.
Context `{JsonText}.

Definition classify_json (raw : string) : ErrorClass.t :=
  match from_str raw with
  | None => ErrorClass.Other
  | Some v =>
      if is_none (field "days_remaining" v) then ErrorClass.Other
      else if is_some (field "subject_common_name" v) then ErrorClass.CertExpiry
      else if is_some (field "domain" v) then ErrorClass.DomainExpiry
      else ErrorClass.Other
  end.

Definition classify_check_error (raw : string) : ErrorClass.t :=
  match strip_served_stale raw with
  | None => ErrorClass.Other
  | Some raw =>
      if String.prefix "{" raw then classify_json raw
      else match exact raw with Some c => c | None => by_stem raw end
  end.

(** [-days] is an [i64]. *)
Definition fmt_days_label (kind : string) (days : Z) (name : string) : string :=
  if days <? 0 then kind +:+ " expired " +:+ show (wrap_i64 (- days)) +:+ " days ago · " +:+ name
  else if days =? 0 then kind +:+ " expires today · " +:+ name
  else kind +:+ " expires in " +:+ show days +:+ " days · " +:+ name.

Definition HUMAN : list (string * string) :=
  [("timeout", "timed out"); ("connect timeout", "couldn't connect (timed out)");
   ("no response", "connected, but no response (timed out)"); ("body timeout", "response body timed out");
   ("tls", "TLS handshake failed"); ("tls handshake rejected", "server rejected the TLS handshake");
   ("tls version or cipher mismatch", "no TLS version or cipher in common");
   ("malformed tls response", "malformed TLS response"); ("tls handshake reset", "TLS handshake reset");
   ("tls handshake closed early", "server closed the TLS handshake early");
   ("certificate chain incomplete", "incomplete certificate chain (server sent only its own certificate)");
   ("certificate self-signed", "self-signed certificate"); ("connect", "connection failed");
   ("transport", "transport error"); ("dns: domain not found", "domain not found (DNS)");
   ("dns: no address records", "no DNS address records"); ("dns: lookup timed out", "DNS lookup timed out");
   ("dns: lookup failed", "DNS lookup failed")].

Definition days_label (v : JsonValue) : option string :=
  days ← field "days_remaining" v ≫= as_i64;
  match field "subject_common_name" v ≫= as_text with
  | Some cn => Some (fmt_days_label "cert" days cn)
  | None => fmt_days_label "domain" days <$> (field "domain" v ≫= as_text)
  end.
Definition humanize_check_error (raw : string) : string :=
  match strip_served_stale raw with
  | None => "using last known result"
  | Some raw =>
      if String.prefix "{" raw then default "check failed" (from_str raw ≫= days_label)
      else default raw (snd <$> List.find (λ kv, String.eqb kv.1 raw) HUMAN)
  end.
End Classify.

(** ** What the classes say *)
Lemma find_eqb_in {A} (l : list (string * A)) raw c :
  snd <$> List.find (λ kv, String.eqb kv.1 raw) l = Some c → (raw, c) ∈ l.
Proof.
  destruct (List.find _ l) as [[k v]|] eqn:E; [|done]. simpl. intros [= <-].
  apply List.find_some in E as [Hin Heq]. apply String.eqb_eq in Heq as <-. by apply list_elem_of_In.
Qed.
Lemma by_stem_not_internal raw : ErrorClass.family (by_stem raw) ≠ ErrorFamily.Internal.
Proof.
  unfold by_stem. destruct (List.find _ STEMS) as [[f c]|] eqn:E; [|done]. simpl. apply List.find_some in E as [Hin _].
  simpl in Hin. naive_solver.
Qed.

(** Text that no test recognises as the note of a stale verdict or as JSON. *)
Definition plain (raw : string) : bool :=
  negb (String.prefix CheckResult.SERVED_STALE_PREFIX raw) && negb (String.prefix "{" raw).
Lemma classify_plain `{JsonText} raw : plain raw = true →
  classify_check_error raw = match exact raw with Some c => c | None => by_stem raw end.
Proof.
  unfold plain, classify_check_error, strip_served_stale, strip_prefix.
  destruct (String.prefix CheckResult.SERVED_STALE_PREFIX raw); [done|]. by destruct (String.prefix "{" raw).
Qed.

(** The three failures of this node. *)
Definition INTERNAL : list string :=
  ["heartbeat state unavailable on this node"; "flow engine not configured on this node";
   "heartbeat monitors are evaluated on the control plane, not probed"].

Lemma exact_internal raw c : exact raw = Some c → ErrorClass.family c = ErrorFamily.Internal → raw ∈ INTERNAL.
Proof.
  intros Hin%find_eqb_in Hf. apply list_elem_of_In in Hin. apply list_elem_of_In. simpl in *.
  naive_solver.
Qed.

(** The alertable family is three messages. An error is counted as this node's own
    failure exactly when it is one of the three that say so, whatever else a target, a
    probe or a stale note puts into the text. *)
Theorem internal_is_three_messages `{JsonText} raw :
  ErrorClass.family (classify_check_error raw) = ErrorFamily.Internal ↔ raw ∈ INTERNAL.
Proof.
  split.
  - unfold classify_check_error. destruct (strip_served_stale raw) as [r|] eqn:Hr; [|done].
    destruct (String.prefix "{" r) eqn:Hb.
    { unfold classify_json. destruct (from_str r) as [v|]; [|done]. by repeat case_match. }
    destruct (exact r) as [c|] eqn:He; [|intros Hi; by destruct (by_stem_not_internal r)].
    intros Hin%(exact_internal _ _ He). unfold strip_served_stale in Hr.
    destruct (strip_prefix _ raw) as [rest|]; [|by injection Hr as ->]. exfalso.
    assert (Hbrace : ∀ s r, from_brace s = Some r → String.prefix "{" r = true).
    { intros s. induction s as [|a s IH]; [done|]. intros r'. simpl. destruct (Ascii.eqb a "{"%char) eqn:Ea; [|apply IH].
      intros [= <-]. apply Ascii.eqb_eq in Ea as ->. simpl. by destruct s. }
    by rewrite (Hbrace _ _ Hr) in Hb.
  - intros Hin%list_elem_of_In. simpl in Hin. by destruct Hin as [<-|[<-|[<-|[]]]].
Qed.

(** Class names tell the classes apart, and the sweep of the gauges sees them all. *)
Lemma class_names_unique : NoDup (ErrorClass.as_str <$> ErrorClass.ALL).
Proof. by apply (bool_decide_unpack _); vm_compute. Qed.
Lemma all_classes_listed c : c ∈ ErrorClass.ALL.
Proof. apply (bool_decide_unpack _). by destruct c. Qed.
