(* ===== verification/Connector.v ===== *)
(** * Connecting

    src/http_client/connector.rs, dns.rs and the certificate verifier of client.rs,
    and the connecting half of src/worker/mod.rs: a host becomes addresses, the
    guard keeps those a probe may reach, and one of them is dialled. A probe is a
    tree of what it awaits (Handlers.v): the clock, the resolver, the sockets. A
    step under a timeout answers [None] when the timeout ends it, and [Timeout]
    marks where one starts. The text parser of addresses is the standard
    library's. The errors of the libraries appear as the kinds the code tells apart. *)

From Stdlib Require Import Ascii.
From S2P Require Import Prelude Text Domain Ssrf Handlers.

(** ** The standard library's parser of addresses *)
Definition digit16 (a : ascii) : option Z :=
  let n := Z.of_nat (nat_of_ascii a) in
  if (48 <=? n) && (n <=? 57) then Some (n - 48)
  else if (97 <=? n) && (n <=? 102) then Some (n - 87)
  else if (65 <=? n) && (n <=? 70) then Some (n - 55) else None.
Definition digit10 (a : ascii) : option Z := if is_ascii_digit a then Some (digit_value a) else None.
Fixpoint read_digits (digit : ascii → option Z) (s : string) : list Z * string :=
  match s with
  | String a rest =>
      match digit a with
      | Some d => let '(ds, r) := read_digits digit rest in (d :: ds, r)
      | None => ([], s)
      end
  | EmptyString => ([], "")
  end.
Definition read_octet (s : string) : option (Z * string) :=
  let '(ds, rest) := read_digits digit10 s in
  let v := fold_left (λ acc d, acc * 10 + d) ds 0 in
  if (length ds =? 0)%nat || (3 <? length ds)%nat || (255 <? v)
     || ((1 <? length ds)%nat && is_some_and (Z.eqb 0) (head ds))
  then None else Some (v, rest).
Definition read_segment (s : string) : option (Z * string) :=
  let '(ds, rest) := read_digits digit16 s in
  if (length ds =? 0)%nat || (4 <? length ds)%nat then None
  else Some (fold_left (λ acc d, acc * 16 + d) ds 0, rest).
Definition read_v4 (s : string) : option (Ipv4Addr.t * string) :=
  '(a, s) ← read_octet s; s ← strip_prefix "." s; '(b, s) ← read_octet s; s ← strip_prefix "." s;
  '(c, s) ← read_octet s; s ← strip_prefix "." s; '(d, s) ← read_octet s;
  Some ({| Ipv4Addr.a := a; Ipv4Addr.b := b; Ipv4Addr.c := c; Ipv4Addr.d := d |}, s).
Definition separated {A} (i : nat) (read : string → option (A * string)) (s : string) : option (A * string) :=
  if (i =? 0)%nat then read s else strip_prefix ":" s ≫= read.
(** At most [room] groups, the last two of which may be written as an IPv4 address. *)
Fixpoint read_groups (i room : nat) (s : string) : list Z * bool * string :=
  match room with
  | O => ([], false, s)
  | S room =>
      match (if (0 <? room)%nat then separated i read_v4 s else None) with
      | Some (x, rest) =>
          ([Ipv4Addr.a x * 256 + Ipv4Addr.b x; Ipv4Addr.c x * 256 + Ipv4Addr.d x], true, rest)
      | None =>
          match separated i read_segment s with
          | Some (g, rest) => let '(gs, v4, rest) := read_groups (S i) room rest in (g :: gs, v4, rest)
          | None => ([], false, s)
          end
      end
  end.
Definition of_groups (gs : list Z) : option Ipv6Addr.t :=
  match gs with
  | [a; b; c; d; e; f; g; h] =>
      Some {| Ipv6Addr.s0 := a; Ipv6Addr.s1 := b; Ipv6Addr.s2 := c; Ipv6Addr.s3 := d;
              Ipv6Addr.s4 := e; Ipv6Addr.s5 := f; Ipv6Addr.s6 := g; Ipv6Addr.s7 := h |}
  | _ => None
  end.
Definition read_v6 (s : string) : option (Ipv6Addr.t * string) :=
  let '(front, v4, rest) := read_groups 0 8 s in
  if (length front =? 8)%nat then x ← of_groups front; Some (x, rest)
  else if v4 then None
  else
    s ← strip_prefix "::" rest;
    let '(back, _, rest) := read_groups 0 (8 - (length front + 1)) s in
    x ← of_groups (front ++ replicate (8 - length front - length back) 0 ++ back); Some (x, rest).
Definition whole {A} (r : option (A * string)) : option A :=
  match r with Some (x, "") => Some x | _ => None end.
Definition parse_ip (s : string) : option IpAddr :=
  match read_v4 s with Some _ => V4 <$> whole (read_v4 s) | None => V6 <$> whole (read_v6 s) end.

(** ** What a library's error says *)
Inductive DnsFault := NxDomain | NoRecordsFound | DnsTimeout | OtherNetError | NotNetError.
Inductive IoKind :=
| ConnectionRefused | HostUnreachable | NetworkUnreachable | ConnectionReset | ConnectionAborted | TimedOut
| UnexpectedEof | BrokenPipe | OtherKind.
Inductive ChainFault := Incomplete | SelfSigned.
Inductive CertFault := Expired | NotValidYet | Revoked | UnknownIssuer | NotValidForName
| OtherCert (fault : option ChainFault) | AnotherCertFault.
Inductive TlsFault := InvalidCertificate (c : CertFault) | AlertReceived | PeerIncompatible | InvalidMessage
| NoCertificatesPresented | AnotherTlsFault
| Transport (k : IoKind).                 (* not one of rustls: the stream died *)

Definition dns_reason (e : DnsFault) : string :=
  match e with
  | NotNetError => "dns: lookup failed"
  | NxDomain => "dns: domain not found"
  | NoRecordsFound => "dns: no address records"
  | DnsTimeout => "dns: lookup timed out"
  | OtherNetError => "dns: lookup failed"
  end.
Definition tcp_reason (k : IoKind) : string :=
  match k with
  | ConnectionRefused => "connection refused"
  | HostUnreachable => "host unreachable"
  | NetworkUnreachable => "network unreachable"
  | ConnectionReset => "connection reset"
  | TimedOut => "connect timeout"
  | _ => "connect"
  end.
Definition tls_reason (e : TlsFault) : string :=
  match e with
  | Transport (ConnectionReset | ConnectionAborted) => "tls handshake reset"
  | Transport (UnexpectedEof | BrokenPipe) => "tls handshake closed early"
  | Transport _ => "tls"
  | InvalidCertificate c =>
      match c with
      | Expired => "certificate expired"
      | NotValidYet => "certificate not yet valid"
      | Revoked => "certificate revoked"
      | UnknownIssuer => "certificate not trusted"
      | NotValidForName => "certificate hostname mismatch"
      | OtherCert (Some Incomplete) => "certificate chain incomplete"
      | OtherCert (Some SelfSigned) => "certificate self-signed"
      | OtherCert None => "certificate invalid"
      | AnotherCertFault => "certificate invalid"
      end
  | AlertReceived => "tls handshake rejected"
  | PeerIncompatible => "tls version or cipher mismatch"
  | InvalidMessage => "malformed tls response"
  | NoCertificatesPresented => "server returned no certificate chain"
  | AnotherTlsFault => "tls"
  end.

Inductive ConnectError :=
| Dns (e : DnsFault)
| NoAddrs (dns_ms : Z)
| Connect (err : IoKind) (dns_ms : Z)
| Tls (err : TlsFault) (dns_ms connect_ms : Z).
Definition reason (e : ConnectError) : string :=
  match e with
  | Dns e => dns_reason e
  | NoAddrs _ => "address not allowed"
  | Connect err _ => tcp_reason err
  | Tls err _ _ => tls_reason err
  end.
Definition partial_timings (e : ConnectError) : option Z * option Z :=
  match e with
  | Dns _ => (None, None)
  | NoAddrs dns_ms | Connect _ dns_ms => (Some dns_ms, None)
  | Tls _ dns_ms connect_ms => (Some dns_ms, Some connect_ms)
  end.

(** ** client.rs: the verifier that names two more faults

    [leaf]: the issuer is the subject, and an AIA extension names its issuer; [None]
    when the certificate does not parse. *)
Record Leaf := { self_issued : bool; names_ca_issuers : bool }.
Definition diagnose_lone_leaf (leaf : option Leaf) : option ChainFault :=
  cert ← leaf;
  if self_issued cert then Some SelfSigned else if names_ca_issuers cert then Some Incomplete else None.
Definition verify_server_cert (verdict : TlsFault + unit) (leaf : option Leaf) (intermediates : nat) : TlsFault + unit :=
  match verdict with
  | inr _ => inr tt
  | inl (InvalidCertificate UnknownIssuer) =>
      if negb (intermediates =? 0)%nat then inl (InvalidCertificate UnknownIssuer)
      else match diagnose_lone_leaf leaf with
           | Some fault => inl (InvalidCertificate (OtherCert (Some fault)))
           | None => inl (InvalidCertificate UnknownIssuer)
           end
  | inl e => inl e
  end.

(** ** What a probe awaits *)
Record Peer := { peer_host : string; peer_port : Z; secure : bool; verified : bool }.
Record TlsSession := { alpn_is_h2 : bool }.

(** Requests and responses are the HTTP probe's. *)
Inductive op (Request Response Body : Type) : Type → Type :=
| Clock : op Request Response Body Z                               (* [Instant::now] *)
| Timeout (budget : Duration) : op Request Response Body unit
| LookupIp (host : string) : op Request Response Body (option (DnsFault + list IpAddr))
| RaceConnect (addrs : list SocketAddr.t) : op Request Response Body (option (IoKind + unit))
| TcpConnect (addr : SocketAddr.t) : op Request Response Body (option (IoKind + unit))
| TlsConnect (verify : bool) (server_name : string) : op Request Response Body (option (TlsFault + TlsSession))
| HttpHandshake (peer : Peer) (h2 : bool) : op Request Response Body (option (bool + unit))
| SendRequest (peer : Peer) (req : Request) : op Request Response Body (option (bool + Response))
| CollectBody (limit : Z) : op Request Response Body (option Body).
Arguments Clock {_ _ _}.
Arguments Timeout {_ _ _} budget.
Arguments LookupIp {_ _ _} host.
Arguments RaceConnect {_ _ _} addrs.
Arguments TcpConnect {_ _ _} addr.
Arguments TlsConnect {_ _ _} verify server_name.
Arguments HttpHandshake {_ _ _} peer h2.
Arguments SendRequest {_ _ _} peer req.
Arguments CollectBody {_ _ _} limit.

(** The rest is not reached when the timeout ends a step. *)
Definition unless_elapsed {op A B} (m : prog op (option A)) (k : A → prog op (option B)) : prog op (option B) :=
  r ← m; match r with Some a => k a | None => Ret None end.
Notation "x ←! m ; k" := (unless_elapsed m (λ x, k)) (at level 20, m at level 100, k at level 200, right associativity) : up_scope.

Definition MILLI : Z := 1000000.
Definition as_millis (d : Duration) : Z := d / MILLI.
Definition elapsed (start now : Z) : Duration := Z.max 0 (now - start).
Definition ms16 (start now : Z) : Z := Z.min (as_millis (elapsed start now)) 65535.

Record PhaseTimings := { dns_ms : Z; connect_ms : Z; tls_ms : option Z }.
Record TimedConnection := { stream : Peer; timings : PhaseTimings; alpn_h2 : bool }.

(** The clients a check borrows. [server_name_ok]: [ServerName::try_from] takes the host. *)
Record HttpClients := { user_agent : string; ssrf_guard : SsrfGuard; connect_timeout : Duration }.
Class ServerNames := { server_name_ok : string → bool }.

Section Connect.
Context {Request Response Body : Type} `{ServerNames}.
#[local] Abbreviation op := (op Request Response Body).
#[local] Abbreviation ask := (call (op := op)).
Context (clients : HttpClients).

(** dns.rs *)
Definition resolve_addrs (host : string) : prog op (option (DnsFault + list IpAddr)) :=
  match parse_ip host with
  | Some ip => Ret (Some (inr [ip]))
  | None => ask (LookupIp host)
  end.

Definition timed_connect (host : string) (port : Z) (is_https verify : bool)
    : prog op (option (ConnectError + TimedConnection)) :=
  dns_start ← ask Clock;
  resolved ←! resolve_addrs host;
  match resolved with
  | inl e => Ret (Some (inl (Dns e)))
  | inr ips =>
      let addrs := (λ ip, {| SocketAddr.ip := ip; SocketAddr.port := port |}) <$> List.filter (guard_allow (ssrf_guard clients)) ips in
      t ← ask Clock;
      let dns_ms := ms16 dns_start t in
      match addrs with
      | [] => Ret (Some (inl (NoAddrs dns_ms)))
      | _ =>
          connect_start ← ask Clock;
          connected ←! ask (RaceConnect addrs);
          match connected with
          | inl err => Ret (Some (inl (Connect err dns_ms)))
          | inr _ =>
              t ← ask Clock;
              let connect_ms := ms16 connect_start t in
              let peer := {| peer_host := host; peer_port := port; secure := is_https; verified := verify |} in
              if negb is_https then
                Ret (Some (inr {| stream := peer; timings := {| dns_ms := dns_ms; connect_ms := connect_ms; tls_ms := None |};
                                  alpn_h2 := false |}))
              else if negb (server_name_ok host) then Ret (Some (inl (Tls (Transport OtherKind) dns_ms connect_ms)))
              else
                tls_start ← ask Clock;
                tls ←! ask (TlsConnect verify host);
                match tls with
                | inl err => Ret (Some (inl (Tls err dns_ms connect_ms)))
                | inr session =>
                    t ← ask Clock;
                    Ret (Some (inr {| stream := peer;
                      timings := {| dns_ms := dns_ms; connect_ms := connect_ms; tls_ms := Some (ms16 tls_start t) |};
                      alpn_h2 := alpn_is_h2 session |}))
                end
          end
      end
  end.

(** worker/mod.rs. The text is what the error's [to_string] yields. *)
Definition allowed_addrs (host : string) : prog op (option (string + list IpAddr)) :=
  resolved ←! resolve_addrs host;
  Ret (Some (match resolved with
             | inl e => inl (dns_reason e)
             | inr ips =>
                 match List.filter (guard_allow (ssrf_guard clients)) ips with
                 | [] => inl ("no allowed addresses for " +:+ host)
                 | addrs => inr addrs
                 end
             end)).
Fixpoint first_that_connects (port : Z) (addrs : list IpAddr) (last_err : option IoKind)
    : prog op (option (IoKind + SocketAddr.t)) :=
  match addrs with
  | [] => Ret (Some (inl (default OtherKind last_err)))
  | ip :: rest =>
      let addr := {| SocketAddr.ip := ip; SocketAddr.port := port |} in
      connected ←! ask (TcpConnect addr);
      match connected with
      | inr _ => Ret (Some (inr addr))
      | inl e => first_that_connects port rest (Some e)
      end
  end.
Definition connect_via_guard (host : string) (port : Z) : prog op (option (string + SocketAddr.t)) :=
  addrs ←! allowed_addrs host;
  match addrs with
  | inl e => Ret (Some (inl e))
  | inr addrs =>
      connected ←! first_that_connects port addrs None;
      Ret (Some (match connected with inr addr => inr addr | inl e => inl (tcp_reason e) end))
  end.
End Connect.

(** worker/mod.rs: the ladder of the certificate and domain checks. *)
Definition classify_days (days_remaining warn_days critical_days : Z) : CheckStatus.t :=
  if days_remaining <? critical_days then CheckStatus.Down
  else if days_remaining <? warn_days then CheckStatus.Degraded
  else CheckStatus.Up.

(** The verifier trusts exactly what webpki trusts: it renames one rejection. *)
Lemma diagnosis_never_widens_trust verdict leaf n : verify_server_cert verdict leaf n = inr tt ↔ verdict = inr tt.
Proof.
  destruct verdict as [e|[]]; [|done]. split; [|done]. destruct e as [c| | | | | |]; try done.
  destruct c; try done. simpl. destruct (negb _); [done|]. by destruct (diagnose_lone_leaf leaf).
Qed.

(** An address in brackets is no address: [Uri::host] writes an IPv6 host that way. *)
Lemma bracketed_is_no_address s : parse_ip ("[" +:+ s) = None.
Proof. reflexivity. Qed.
Example parse_ip_forms :
  parse_ip "127.0.0.1" = Some (V4 {| Ipv4Addr.a := 127; Ipv4Addr.b := 0; Ipv4Addr.c := 0; Ipv4Addr.d := 1 |}) ∧
  is_some (parse_ip "::ffff:10.0.0.1") = true ∧ is_some (parse_ip "2001:db8::1") = true ∧ is_some (parse_ip "::") = true ∧
  parse_ip "256.0.0.1" = None ∧ parse_ip "010.0.0.1" = None ∧ parse_ip "1:2:3:4:5:6:7" = None ∧
  parse_ip "1:2:3:4:5:6:7::" = Some (V6 {| Ipv6Addr.s0 := 1; Ipv6Addr.s1 := 2; Ipv6Addr.s2 := 3; Ipv6Addr.s3 := 4;
    Ipv6Addr.s4 := 5; Ipv6Addr.s5 := 6; Ipv6Addr.s6 := 7; Ipv6Addr.s7 := 0 |}) ∧ parse_ip "example.com" = None.
Proof. split_and!; reflexivity. Qed.
