(* ===== verification/HttpWorker.v ===== *)
(** * The HTTP probe

    src/worker/http_check.rs: one check of a web address. Every hop of a redirect is a
    connection of its own through the guard (Connector.v), the request is built for
    that hop, and the last response is read, decoded and scored. The url, http and
    hyper crates, the decoders and base64 are parameters; a header of a response
    is its name in lower case and its bytes. Metrics and logs are left out. *)

From Stdlib Require Import Ascii.
From S2P Require Import Prelude Text Utf8 Domain CheckSpec Interpolate Ssrf Handlers Connector.

(** [uri_parse]: [Uri::try_from], or what its error says. [header_name]: the name
    [HeaderName::try_from] reads; [header_value_error]: what [HeaderValue::try_from]
    says against a value, if anything. [gunzip] and [unbrotli] give at most so many
    bytes of the decoded text. *)
Class Web `{UrlLibrary} := {
  Origin : Type;
  Origin_eq_dec : EqDecision Origin;
  url_origin : Url → Origin;
  url_join : Url → string → option Url;
  url_scheme : Url → string;
  Uri : Type;
  uri_parse : string → string + Uri;
  uri_host : Uri → option string;
  uri_scheme_str : Uri → option string;
  uri_port_u16 : Uri → option Z;
  uri_path_and_query : Uri → option string;
  header_name : string → option string;
  header_value_error : string → option string;
  header_to_str : string → option string;
  gunzip : Z → string → option string;
  unbrotli : Z → string → option string;
  base64_encode : string → string;
}.
#[global] Existing Instance Origin_eq_dec.
(** A header's name is read in lower case. *)
Class WebLaws `{Web} := {
  header_name_lower k name : header_name k = Some name → name = to_ascii_lowercase k;
}.

Definition MAX_REDIRECT_HOPS : Z := HttpCheck.MAX_REDIRECTS.
Definition MAX_RAW_BODY_BYTES : Z := Z.shiftl 1 20.
Definition OVER_CAP_ERROR : string := "body over the 1 MiB read cap".
Definition MAX_DECODED_BODY_BYTES : Z := Z.shiftl 8 20.
Definition OVER_DECODED_CAP_ERROR : string := "body over the 8 MiB decoded cap".
Definition PROBE_BODY_SNIPPET_BYTES : nat := 1024.
Definition DIAGNOSTIC_BODY_BYTES : nat := 16 * 1024.
Definition PROBE_HEADERS_MAX : nat := 20.
Definition PROBE_REDACT_HEADERS : list string :=
  ["set-cookie"; "authorization"; "cookie"; "proxy-authorization"; "x-auth-token"; "x-api-key"; "api-key";
   "x-csrf-token"; "x-amz-security-token"].

Record HeaderPreview := { name : string; value : string }.
Module HttpProbe.
Record t := { response_headers_preview : list HeaderPreview; response_body_snippet : option string }.
Definition default : t := {| response_headers_preview := []; response_body_snippet := None |}.
End HttpProbe.

(** A header map: the pairs in the order [iter] gives them, a name's values in order. *)
Definition HeaderMap := list (string * string).
Definition get (key : string) (h : HeaderMap) : option string := snd <$> List.find (λ kv, String.eqb kv.1 key) h.
Definition contains_key (key : string) (h : HeaderMap) : bool := is_some (get key h).

Record Response := { status_code : Z; headers : HeaderMap }.
(** What becomes of collecting a body: bytes, too many of them, or a broken stream. *)
Inductive Body := Whole (bytes : string) | OverLimit | Broken.

Inductive VercelMitigation := Challenge | Deny | OtherMitigation.
#[global] Instance VercelMitigation_eq_dec : EqDecision VercelMitigation.
Proof. solve_decision. Defined.
Record ResponseFingerprint := {
  akamai_edge : bool; vercel_edge : bool; aws_waf_challenge : bool; cloudflare_challenge : bool;
  azure_reference : bool; datadome_signal : bool; vercel_mitigation : option VercelMitigation;
  vercel_challenge_token : bool; cloudflare_edge : bool; cloudflare_ray : bool; cloudflare_relayed : bool;
}.

Definition CLOUDFLARE_ORIGIN_ERROR_CODES : list Z := [502; 520; 521; 522; 523; 524; 530].
Definition CLOUDFLARE_TUNNEL_ERROR : Z := 1033.

Definition effective_max_redirects (follow_redirects : bool) (max_redirects : Z) : Z :=
  if negb follow_redirects then 0
  else if max_redirects =? 0 then MAX_REDIRECT_HOPS else Z.min max_redirects MAX_REDIRECT_HOPS.
Definition is_redirect (code : Z) : bool :=
  (code =? 301) || (code =? 302) || (code =? 303) || (code =? 307) || (code =? 308).

Definition match_status (code : Z) (expected : ExpectedStatus.t) : bool :=
  match expected with
  | ExpectedStatus.Exact c => code =? c
  | ExpectedStatus.Range min max => (min <=? code) && (code <=? max)
  | ExpectedStatus.OneOf l => existsb (Z.eqb code) l
  end.

Definition is_ascii_alphanumeric (a : ascii) : bool := is_ascii_digit a || is_ascii_uppercase a || is_ascii_lowercase a.
Definition sanitised_retry_after (raw : string) : bool :=
  non_empty raw && (String.length raw <=? 64)%nat
  && all_chars (λ a, is_ascii_alphanumeric a || existsb (Ascii.eqb a) [" "; ","; ":"; "."; "+"; "-"]%char) raw.

Definition classify_outcome (code : Z) (status_ok body_ok : bool) (retry_after_raw : option string)
    : CheckStatus.t * option string :=
  if negb status_ok && ((code =? 429) || (code =? 503)) then
    (CheckStatus.Degraded,
     Some ("rate-limited " +:+ show code +:+ default "" ((λ v, " (Retry-After: " +:+ v +:+ ")") <$> retry_after_raw)))
  else if negb status_ok then (CheckStatus.Down, Some ("unexpected status " +:+ show code))
  else if negb body_ok then (CheckStatus.Down, Some "body match failed")
  else (CheckStatus.Up, None).

(** [timed_out]: a time-out or a deadline is somewhere in the error's chain. *)
Definition classify_hyper_error (timed_out : bool) : string := if timed_out then "timeout" else "transport".

(** ** Who answered instead of the origin *)
Definition lowered_page (decoded : string) : string :=
  to_ascii_lowercase (from_utf8_lossy (take_chars DIAGNOSTIC_BODY_BYTES decoded)).

Definition detect_access_interference (f : ResponseFingerprint) (decoded : string) : option CheckDiagnostic.t :=
  let found c p ev := Some (CheckDiagnostic.access_interference c p ev) in
  if aws_waf_challenge f then
    found DiagnosticConfidence.High (Some EdgeProvider.AwsWaf) [DiagnosticEvidence.ChallengeHeader]
  else if cloudflare_challenge f then
    found DiagnosticConfidence.High (Some EdgeProvider.Cloudflare) [DiagnosticEvidence.ChallengeHeader]
  else
    let body := lowered_page decoded in
    let access_denied := contains body "access denied" in
    let akamai_reference := contains body "errors.edgesuite.net" || contains body "errors&#46;edgesuite&#46;net" in
    let datadome_page := contains body "captcha-delivery.com"
      || (contains body "datadome" && (contains body "captcha" || contains body "device check")) in
    let vercel_page := contains body "vercel security checkpoint" in
    let quotes_support_id := contains body "support id:" || contains body "support id is:" in
    if akamai_edge f && access_denied && akamai_reference then
      found DiagnosticConfidence.High (Some EdgeProvider.Akamai)
        [DiagnosticEvidence.EdgeServer; DiagnosticEvidence.BlockPage; DiagnosticEvidence.ReferenceId]
    else if azure_reference f && contains body "the request is blocked" then
      found DiagnosticConfidence.High (Some EdgeProvider.AzureFrontDoor)
        [DiagnosticEvidence.BlockPage; DiagnosticEvidence.ReferenceId]
    else if datadome_signal f && datadome_page then
      found DiagnosticConfidence.High (Some EdgeProvider.DataDome)
        [DiagnosticEvidence.ChallengeHeader; DiagnosticEvidence.BlockPage]
    else if bool_decide (vercel_mitigation f = Some Challenge) && vercel_edge f && (vercel_challenge_token f || vercel_page) then
      found DiagnosticConfidence.Medium (Some EdgeProvider.Vercel)
        ([DiagnosticEvidence.ChallengeHeader; DiagnosticEvidence.EdgeServer]
         ++ (if vercel_page then [DiagnosticEvidence.BlockPage] else []))
    else if bool_decide (vercel_mitigation f = Some Deny) then
      found DiagnosticConfidence.Medium (Some EdgeProvider.Vercel)
        (DiagnosticEvidence.MitigationHeader :: (if vercel_edge f then [DiagnosticEvidence.EdgeServer] else []))
    else if contains body "the requested url was rejected" && quotes_support_id then
      found DiagnosticConfidence.Medium None [DiagnosticEvidence.BlockPage; DiagnosticEvidence.ReferenceId]
    else None.

Definition cloudflare_error_page_headers (f : ResponseFingerprint) (code : Z) : bool :=
  cloudflare_edge f && cloudflare_ray f && negb (cloudflare_relayed f) && existsb (Z.eqb code) CLOUDFLARE_ORIGIN_ERROR_CODES.

(** The digits after the label, as a [u16]. *)
Definition parse_cloudflare_error_code (lowercased_body : string) : option Z :=
  rest ← after_first "errorcode:" lowercased_body;
  let ds := take_digits (trim_start rest) in
  if (length ds =? 0)%nat || (65535 <? decimal ds) then None else Some (decimal ds).

Definition detect_origin_unreachable (f : ResponseFingerprint) (decoded : string) (code : Z) : option CheckDiagnostic.t :=
  if negb (cloudflare_error_page_headers f code) then None
  else
    let body := lowered_page decoded in
    if negb (contains body "cf-error-details") then None
    else
      let origin_error := parse_cloudflare_error_code body in
      if is_none origin_error && negb (contains body ("error code " +:+ show code)) then None
      else Some (CheckDiagnostic.origin_unreachable
        [DiagnosticEvidence.EdgeServer; DiagnosticEvidence.ReferenceId; DiagnosticEvidence.OriginErrorCode]
        (bool_decide (origin_error = Some CLOUDFLARE_TUNNEL_ERROR))).

Definition detect_diagnostic (f : ResponseFingerprint) (decoded : string) (code : Z) : option CheckDiagnostic.t :=
  match detect_access_interference f decoded with
  | Some d => Some d
  | None => detect_origin_unreachable f decoded code
  end.

(** What a metric counts as an unattributed failure. *)
Definition unmatched_diagnosable_kind (f : ResponseFingerprint) (code : Z) (status_ok body_available : bool)
    : option string :=
  if status_ok then None
  else if (code =? 403) || is_some (vercel_mitigation f) then
    Some (CheckDiagnosticKind.as_str CheckDiagnosticKind.AccessInterference)
  else if body_available && cloudflare_error_page_headers f code then
    Some (CheckDiagnosticKind.as_str CheckDiagnosticKind.OriginUnreachable)
  else None.

(** The cut of the snippet: back over the bytes that continue a character. *)
Fixpoint snap_back (n : nat) (s : string) : nat :=
  match n with
  | S m => if is_some_and continuation (String.get m s) then snap_back m s else n
  | O => O
  end.
Definition snapshot_body (decoded : string) : string :=
  let n := Nat.min (String.length decoded) PROBE_BODY_SNIPPET_BYTES in
  from_utf8_lossy (take_chars (snap_back n decoded) decoded).

Section Web.
Context `{Web} `{HashOrder} `{ServerNames}.

Fixpoint snapshot_from (seen : list string) (room : nat) (h : HeaderMap) : list HeaderPreview :=
  match h, room with
  | (k, v) :: h, S m =>
      let lower := to_ascii_lowercase k in
      if existsb (String.eqb lower) seen then snapshot_from seen room h
      else
        {| name := k;
           value := if existsb (String.eqb lower) PROBE_REDACT_HEADERS then "***REDACTED***"
                    else default "<non-ascii>" (header_to_str v) |}
        :: snapshot_from (lower :: seen) m h
  | _, _ => []
  end.
Definition snapshot_headers : HeaderMap → list HeaderPreview := snapshot_from [] PROBE_HEADERS_MAX.

Definition header_text (key : string) (h : HeaderMap) : option string := get key h ≫= header_to_str.
Definition from_headers (h : HeaderMap) : ResponseFingerprint :=
  let server_is want := is_some_and (λ v, eq_ignore_ascii_case v want) (header_text "server" h) in
  let says key want := is_some_and (λ v, eq_ignore_ascii_case v want) (header_text key h) in
  {| akamai_edge := server_is "AkamaiGHost"; vercel_edge := server_is "Vercel";
     aws_waf_challenge := says "x-amzn-waf-action" "challenge" || says "x-amzn-waf-action" "captcha";
     cloudflare_challenge := says "cf-mitigated" "challenge";
     azure_reference := contains_key "x-azure-ref" h;
     datadome_signal := existsb (λ kv, String.prefix "x-datadome" kv.1) h;
     vercel_mitigation := (λ action, if eq_ignore_ascii_case action "challenge" then Challenge
                                     else if eq_ignore_ascii_case action "deny" then Deny else OtherMitigation)
                          <$> header_text "x-vercel-mitigated" h;
     vercel_challenge_token := contains_key "x-vercel-challenge-token" h;
     cloudflare_edge := server_is "cloudflare"; cloudflare_ray := contains_key "cf-ray" h;
     cloudflare_relayed := contains_key "cf-cache-status" h |}.

(** ** Decoding *)
Inductive DecodeError := OverCap | Malformed.
(** [decoded]: what the reader gives, one byte past the cap at most. *)
Definition decode_capped (decoded : option string) : DecodeError + string :=
  match decoded with
  | None => inl Malformed
  | Some out => if MAX_DECODED_BODY_BYTES <? Z.of_nat (String.length out) then inl OverCap else inr out
  end.
Definition decode_body (raw : string) (encoding : option string) : DecodeError + string :=
  match encoding with
  | Some "gzip" => decode_capped (gunzip (MAX_DECODED_BODY_BYTES + 1) raw)
  | Some "br" => decode_capped (unbrotli (MAX_DECODED_BODY_BYTES + 1) raw)
  | _ => inr raw
  end.

(** ** The request of a hop *)
Record Request := { req_method : HttpMethod.t; target : Uri; req_headers : HeaderMap; req_body : string }.

Definition host_header_value (uri : Uri) : option string :=
  host ← uri_host uri;
  let default_port := if bool_decide (uri_scheme_str uri = Some "http") then 80 else 443 in
  Some (match uri_port_u16 uri with
        | Some port => if port =? default_port then host else host +:+ ":" +:+ show port
        | None => host
        end).
Definition request_target (uri : Uri) (alpn_h2 : bool) : string + (Uri * option string) :=
  if alpn_h2 then inr (uri, None)
  else match uri_parse (default "/" (uri_path_and_query uri)) with
       | inl e => inl e
       | inr path => inr (path, host_header_value uri)
       end.

(** [Builder::header]: the first value refused is the error of the whole. *)
Definition push_header (name value : string) (b : string + HeaderMap) : string + HeaderMap :=
  match b with
  | inl e => inl e
  | inr h => match header_value_error value with Some e => inl e | None => inr (h ++ [(name, value)]) end
  end.

Section Check.
Context (clients : HttpClients) (check : HttpCheck.t).
Definition rows : list (string * string) := hash_order (HttpCheck.headers check).

Definition overrides_header (name : string) : bool :=
  existsb (λ kv, eq_ignore_ascii_case kv.1 name && is_none (header_value_error kv.2)) rows.

Definition valid_value (v : string) : option string := if is_none (header_value_error v) then Some v else None.
Definition field_authz (include_auth : bool) : option string :=
  if negb include_auth then None
  else
    match HttpCheck.bearer_token check ≫= (λ t, valid_value ("Bearer " +:+ t)) with
    | Some v => Some v
    | None =>
        '(user, pass) ← HttpCheck.basic_auth check;
        valid_value ("Basic " +:+ base64_encode (user +:+ ":" +:+ pass))
    end.

(** Whether a row of the check goes with the request. *)
Definition row_dropped (include_auth bodyless : bool) (k : string) : bool :=
  let named := eq_ignore_ascii_case k in
  (is_some (field_authz include_auth) && named "authorization")
  || (negb include_auth && existsb named PROBE_REDACT_HEADERS)
  || named "accept-encoding"
  || (bodyless && (named "content-type" || named "content-length" || named "transfer-encoding")).
Definition push_row (include_auth bodyless : bool) (kv : string * string) (b : string + HeaderMap) : string + HeaderMap :=
  if row_dropped include_auth bodyless kv.1 then b
  else match header_name kv.1 with
       | Some name => if is_none (header_value_error kv.2) then push_header name kv.2 b else b
       | None => b
       end.

Definition build_request (method : HttpMethod.t) (uri : Uri) (body : option string) (include_auth alpn_h2 : bool)
    : string + Request :=
  match request_target uri alpn_h2 with
  | inl e => inl e
  | inr (target, host_header) =>
      let b := inr [] in
      let b := if overrides_header "user-agent" then b else push_header "user-agent" (user_agent clients) b in
      let b := if overrides_header "accept" then b else push_header "accept" "*/*" b in
      let b := push_header "accept-encoding" "gzip, br" b in
      let user_set_host := existsb (λ kv, eq_ignore_ascii_case kv.1 "host") rows in
      let b := match host_header with
               | Some host => if user_set_host then b else push_header "host" host b
               | None => b
               end in
      let b := fold_left (λ b kv, push_row include_auth (is_none body) kv b) rows b in
      let b := match field_authz include_auth with Some v => push_header "authorization" v b | None => b end in
      match b with
      | inl e => inl e
      | inr h => inr {| req_method := method; target := target; req_headers := h; req_body := default "" body |}
      end
  end.

(** ** One check *)
#[local] Abbreviation op := (op Request Response Body).
#[local] Abbreviation ask := (call (op := op)).
Context (target_id org_id : Uuid) (started_at : DateTime) (start : Z) (capture : bool).
#[local] Abbreviation outcome := (CheckResult.t * option HttpProbe.t)%type.

Definition duration_ms (now : Z) : Z := wrap_u32 (as_millis (elapsed start now)).
Definition remaining (now : Z) : Duration := Z.max 0 (HttpCheck.timeout check - elapsed start now).

(** An error, with the phases that were measured and the code that came back. *)
Definition failed (reason : string) (now : Z) (dns connect tls ttfb code : option Z) (d : option CheckDiagnostic.t)
    : CheckResult.t :=
  let r := CheckResult.error_with_elapsed target_id org_id started_at (duration_ms now) reason in {|
  CheckResult.target_id := CheckResult.target_id r; CheckResult.org_id := CheckResult.org_id r;
  CheckResult.timestamp := CheckResult.timestamp r; CheckResult.status := CheckResult.status r;
  CheckResult.duration_ms := CheckResult.duration_ms r; CheckResult.dns_ms := dns; CheckResult.connect_ms := connect;
  CheckResult.tls_ms := tls; CheckResult.ttfb_ms := ttfb; CheckResult.response_code := code;
  CheckResult.response_size := CheckResult.response_size r; CheckResult.diagnostic := d;
  CheckResult.error := CheckResult.error r |}.
Definition early (reason : string) (code : option Z) : prog op outcome :=
  now ← ask Clock; Ret (failed reason now None None None None code None, None).
Definition timed_error (t : PhaseTimings) (reason : string) : prog op outcome :=
  now ← ask Clock; Ret (failed reason now (Some (dns_ms t)) (Some (connect_ms t)) (tls_ms t) None None None, None).

(** The body as far as the score needs it. *)
Inductive Reading := Read (decoded : string) | Abandoned | Fault (reason : string).
Definition read_body (resp : Response) : prog op Reading :=
  if bool_decide (HttpCheck.method check = HttpMethod.Head) then Ret (Read "")
  else
    let content_encoding := to_ascii_lowercase <$> header_text "content-encoding" (headers resp) in
    let asserted := is_some (HttpCheck.expected_body_contains check) in
    now ← ask Clock;
    _ ← ask (Timeout (remaining now));
    collected ← ask (CollectBody MAX_RAW_BODY_BYTES);
    Ret (match collected with
         | None => Fault "body timeout"
         | Some OverLimit => if asserted then Fault OVER_CAP_ERROR else Abandoned
         | Some Broken => Fault "body"
         | Some (Whole raw) =>
             match decode_body raw content_encoding with
             | inr b => Read b
             | inl OverCap => if asserted then Fault OVER_DECODED_CAP_ERROR else Abandoned
             | inl Malformed => Fault "decode"
             end
         end).

Definition finalize (resp : Response) (t : PhaseTimings) (ttfb_ms : Z) : prog op outcome :=
  let code := status_code resp in
  let headers_preview := if capture then Some (snapshot_headers (headers resp)) else None in
  let fingerprint := from_headers (headers resp) in
  let retry_after_raw :=
    v ← header_text "retry-after" (headers resp); if sanitised_retry_after v then Some v else None in
  let status_ok := match_status code (HttpCheck.expected_status check) in
  let header_diagnostic := detect_diagnostic fingerprint "" code in
  reading ← read_body resp;
  match reading with
  | Fault reason =>
      now ← ask Clock;
      Ret (failed reason now (Some (dns_ms t)) (Some (connect_ms t)) (tls_ms t) (Some ttfb_ms) (Some code) header_diagnostic,
           (λ h, {| HttpProbe.response_headers_preview := h; HttpProbe.response_body_snippet := None |}) <$> headers_preview)
  | _ =>
      let decoded := match reading with Read b => b | _ => "" end in
      let over_cap := match reading with Abandoned => true | _ => false end in
      now ← ask Clock;
      let body_ok := match HttpCheck.expected_body_contains check with
                     | Some needle => is_some_and (λ s, contains s needle) (from_utf8 decoded)
                     | None => true
                     end in
      let '(status, error) := classify_outcome code status_ok body_ok retry_after_raw in
      let diagnostic := if bool_decide (status = CheckStatus.Up) then None else detect_diagnostic fingerprint decoded code in
      Ret ({| CheckResult.target_id := target_id; CheckResult.org_id := org_id; CheckResult.timestamp := started_at;
              CheckResult.status := status; CheckResult.duration_ms := duration_ms now;
              CheckResult.dns_ms := Some (dns_ms t); CheckResult.connect_ms := Some (connect_ms t);
              CheckResult.tls_ms := tls_ms t; CheckResult.ttfb_ms := Some ttfb_ms;
              CheckResult.response_code := Some code;
              CheckResult.response_size := if over_cap then None else Some (wrap_u32 (Z.of_nat (String.length decoded)));
              CheckResult.diagnostic := diagnostic; CheckResult.error := error |},
           if capture then Some {|
             HttpProbe.response_headers_preview := default [] headers_preview;
             HttpProbe.response_body_snippet := if over_cap then None else Some (snapshot_body decoded) |}
           else None)
  end.

(** What a redirect says to do next. *)
Inductive Redirect := Follow (next : Url) | Stop (reason : string).
Definition redirect (current : Url) (resp : Response) : Redirect :=
  match header_text "location" (headers resp) ≫= url_join current with
  | None => Stop "invalid redirect location"
  | Some next =>
      if String.eqb (url_scheme next) "http" || String.eqb (url_scheme next) "https" then Follow next
      else Stop "unsupported redirect scheme"
  end.

(** Up to the response of one hop: what came back, or how the check ended. *)
Definition hop_once (current : Url) (method : HttpMethod.t) (body : option string)
    : prog op (outcome + Response * PhaseTimings * Z) :=
  let stop (m : prog op outcome) := o ← m; Ret (inl o) in
  match uri_parse (url_as_str current) with
  | inl _ => stop (early "invalid url" None)
  | inr uri =>
  match uri_host uri with
  | None => stop (early "invalid url" None)
  | Some host =>
      let is_https := bool_decide (uri_scheme_str uri = Some "https") in
      let port := default (if is_https then 443 else 80) (uri_port_u16 uri) in
      now ← ask Clock;
      if remaining now =? 0 then stop (early "connect timeout" None)
      else
        _ ← ask (Timeout (Z.min (connect_timeout clients) (remaining now)));
        connected ← timed_connect clients host port is_https (HttpCheck.verify_tls check);
        match connected with
        | None => stop (early "connect timeout" None)
        | Some (inl err) =>
            let '(dns, connect) := partial_timings err in
            now ← ask Clock;
            Ret (inl (failed (reason err) now dns connect None None None None, None))
        | Some (inr c) =>
            let same_origin := bool_decide (url_origin current = url_origin (HttpCheck.url check)) in
            match build_request method uri body same_origin (alpn_h2 c) with
            | inl err => stop (early ("request build failed: " +:+ err) None)
            | inr req =>
                let stamp reason := stop (timed_error (timings c) reason) in
                now ← ask Clock;
                if remaining now =? 0 then stamp "no response"
                else
                  _ ← ask (Timeout (remaining now));
                  shaken ← ask (HttpHandshake (stream c) (alpn_h2 c));
                  match shaken with
                  | None => stamp "no response"
                  | Some (inl timed_out) => stamp (classify_hyper_error timed_out)
                  | Some (inr _) =>
                      now ← ask Clock;
                      if remaining now =? 0 then stamp "no response"
                      else
                        send_start ← ask Clock;
                        _ ← ask (Timeout (remaining now));
                        answered ← ask (SendRequest (stream c) req);
                        match answered with
                        | None => stamp "no response"
                        | Some (inl timed_out) => stamp (classify_hyper_error timed_out)
                        | Some (inr resp) =>
                            t ← ask Clock;
                            Ret (inr (resp, timings c, ms16 send_start t))
                        end
                  end
            end
        end
  end
  end.

Definition after_redirect (code : Z) (method : HttpMethod.t) (body : option string) : HttpMethod.t * option string :=
  if (code =? 307) || (code =? 308) then (method, body) else (HttpMethod.Get, None).

(** [hops]: how many more redirects may be followed. *)
Fixpoint follow (hops : nat) (current : Url) (method : HttpMethod.t) (body : option string) : prog op outcome :=
  tried ← hop_once current method body;
  match tried with
  | inl o => Ret o
  | inr (resp, t, ttfb) =>
      let code := status_code resp in
      if HttpCheck.follow_redirects check && is_redirect code then
        match hops with
        | O => early "too many redirects" (Some code)
        | S hops =>
            match redirect current resp with
            | Stop reason => early reason (Some code)
            | Follow next => let '(method, body) := after_redirect code method body in follow hops next method body
            end
        end
      else finalize resp t ttfb
  end.
End Check.

Definition max_hops (check : HttpCheck.t) : nat :=
  Z.to_nat (effective_max_redirects (HttpCheck.follow_redirects check) (HttpCheck.max_redirects check)).
Definition do_http_check (clients : HttpClients) (check : HttpCheck.t) (target_id org_id : Uuid) (started_at : DateTime)
    (capture : bool) : prog (op Request Response Body) (CheckResult.t * option HttpProbe.t) :=
  start ← call Clock;
  follow clients check target_id org_id started_at start capture (max_hops check) (HttpCheck.url check)
    (HttpCheck.method check) (HttpCheck.body check).
Definition execute_http_check (clients : HttpClients) (check : HttpCheck.t) (target_id org_id : Uuid) (started_at : DateTime)
    : prog (op Request Response Body) CheckResult.t :=
  r ← do_http_check clients check target_id org_id started_at false; Ret r.1.
Definition execute_http_check_probe (clients : HttpClients) (check : HttpCheck.t) (target_id org_id : Uuid)
    (started_at : DateTime) : prog (op Request Response Body) (CheckResult.t * HttpProbe.t) :=
  r ← do_http_check clients check target_id org_id started_at true; Ret (r.1, default HttpProbe.default r.2).
End Web.
