(* ===== verification/HttpFacts.v ===== *)
(** * What an HTTP check does, whatever the network answers

    A check is followed through every dialogue it may have with the clock, the
    resolver, the sockets and the servers (HttpWorker.v): where its requests go and
    what they carry, how redirects are followed, how long it takes, and what its
    verdict and its error say. *)

From Stdlib Require Import Ascii.
From S2P Require Import Prelude Text Utf8 Domain CheckSpec CheckErrors Interpolate Ssrf Connector HttpWorker Handlers.

Section Dialogues.
Context `{Web} `{!WebLaws} `{HashOrder} `{ServerNames}.

Inductive event :=
| At (t : Z)
| Budget (b : Duration)
| LookedUp (host : string) (r : option (DnsFault + list IpAddr))
| Raced (addrs : list SocketAddr.t) (r : option (IoKind + unit))
| Dialled (addr : SocketAddr.t) (r : option (IoKind + unit))
| Secured (verify : bool) (server_name : string) (r : option (TlsFault + TlsSession))
| Shook (peer : Peer) (h2 : bool) (r : option (bool + unit))
| Sent (peer : Peer) (req : Request) (r : option (bool + Response))
| Collected (limit : Z) (r : option Body).
#[local] Abbreviation op := (op Request Response Body).
Definition event_of (T : Type) (o : op T) : T → event :=
  match o in Connector.op _ _ _ T return T → event with
  | Clock => At
  | Timeout b => λ _, Budget b
  | LookupIp host => LookedUp host
  | RaceConnect addrs => Raced addrs
  | TcpConnect addr => Dialled addr
  | TlsConnect verify name => Secured verify name
  | HttpHandshake peer h2 => Shook peer h2
  | SendRequest peer req => Sent peer req
  | CollectBody limit => Collected limit
  end.
#[local] Abbreviation says := (says event_of).

(** One step of a dialogue at a time. *)
Ltac hear1 :=
  match goal with
  | Hs : Handlers.says _ (Ret _) _ _ |- _ => destruct Hs as [-> ?]; simplify_eq
  | Hs : ?rest = [] ∧ _ = _ |- _ => destruct Hs as [-> ?]; simplify_eq
  | Hs : Handlers.says _ (Do _ _) _ _ |- _ =>
      let r := fresh "r" in let rest := fresh "rest" in destruct Hs as (r & rest & -> & Hs); simpl in Hs
  | Hs : ∃ _ _, _ = _ :: _ ∧ _ |- _ =>
      let r := fresh "r" in let rest := fresh "rest" in destruct Hs as (r & rest & -> & Hs); simpl in Hs
  | Hs : Handlers.says _ (call _) _ _ |- _ => unfold call in Hs
  | Hs : Handlers.says _ (unless_elapsed _ _) _ _ |- _ => unfold unless_elapsed in Hs; simpl in Hs
  end.

Ltac converse :=
  repeat first
    [ hear1
    | match goal with
      | Hs : Handlers.says _ (match ?x with _ => _ end) _ _ |- _ =>
          first [is_var x; destruct x | let E := fresh "E" in destruct x eqn:E]; cbn [negb] in Hs
      end ].

Section Connect.
Context (clients : HttpClients) (host : string) (port : Z) (is_https verify : bool).

(** While connecting nothing is sent, and only addresses the guard lets by are dialled. *)
Definition connecting (e : event) : Prop :=
  match e with
  | At _ | LookedUp _ _ => True
  | Raced addrs _ => ∀ a, a ∈ addrs → guard_allow (ssrf_guard clients) (SocketAddr.ip a) = true ∧ SocketAddr.port a = port
  | Secured v name _ => v = verify ∧ name = host
  | _ => False
  end.

Lemma filtered_allowed ips a :
  a ∈ (λ ip, {| SocketAddr.ip := ip; SocketAddr.port := port |}) <$> List.filter (guard_allow (ssrf_guard clients)) ips →
  guard_allow (ssrf_guard clients) (SocketAddr.ip a) = true ∧ SocketAddr.port a = port.
Proof. intros (ip & -> & Hip%list_elem_of_In%List.filter_In)%list_elem_of_fmap. by destruct Hip. Qed.

Lemma resolve_says l r : says (resolve_addrs (Request := Request) (Response := Response) (Body := Body) host) l r →
  Forall connecting l.
Proof.
  unfold resolve_addrs. destruct (parse_ip host); intros Hs; repeat hear1; by repeat constructor.
Qed.

Lemma timed_connect_says l r :
  says (timed_connect (Request := Request) (Response := Response) (Body := Body) clients host port is_https verify) l r →
  Forall connecting l ∧ ∀ c, r = Some (inr c) →
    stream c = {| peer_host := host; peer_port := port; secure := is_https; verified := verify |}.
Proof.
  unfold timed_connect. intros Hs. simpl in Hs. hear1.
  unfold unless_elapsed in Hs. apply says_bind in Hs as (l1 & l2 & resolved & -> & Hl1%resolve_says & Hs).
  assert (Hall : ∀ l2, Forall connecting l2 → Forall connecting (At r0 :: l1 ++ l2)).
  { intros l' Hl'. constructor; [done|]. by apply Forall_app. }
  destruct resolved as [[e|ips]|]; [repeat hear1; split; [by apply Hall|done]| |repeat hear1; split; [by apply Hall|done]].
  pose proof (filtered_allowed ips) as Hips. hear1. destruct ((λ ip : IpAddr, _) <$> _) as [|a0 addrs].
  - converse. split; [apply Hall; by repeat constructor|done].
  - converse; (split; [apply Hall;
      repeat (apply Forall_cons_2; [first [exact I|exact Hips|by split]|]); apply Forall_nil_2|by intros c [= <-]]).
Qed.
End Connect.

(** ** One hop *)
#[local] Opaque timed_connect.
Definition exchange := (Peer * Request * option (bool + Response))%type.
Definition sends (l : list event) : list exchange :=
  omap (λ e, match e with Sent peer req r => Some (peer, req, r) | _ => None end) l.
Lemma sends_app l1 l2 : sends (l1 ++ l2) = sends l1 ++ sends l2.
Proof. apply omap_app. Qed.
Lemma connecting_sends clients host port verify l : Forall (connecting clients host port verify) l → sends l = [].
Proof. induction 1 as [|e l He _ IH]; [done|]. by destruct e. Qed.

Section Check.
Context (clients : HttpClients) (check : HttpCheck.t) (target_id org_id : Uuid) (started_at : DateTime)
  (start : Z) (capture : bool).
#[local] Abbreviation origin := (url_origin (HttpCheck.url check)).
#[local] Abbreviation hop_once := (hop_once clients check target_id org_id started_at start).
#[local] Abbreviation follow := (follow clients check target_id org_id started_at start capture).
#[local] Abbreviation finalize := (finalize check target_id org_id started_at start capture).

(** A request for [u], on a connection to the host of [u]. *)
Definition prepared (u : Url) (m : HttpMethod.t) (body : option string) (peer : Peer) (req : Request) : Prop :=
  ∃ uri host h2, uri_parse (url_as_str u) = inr uri ∧ uri_host uri = Some host ∧
    peer_host peer = host ∧ secure peer = bool_decide (uri_scheme_str uri = Some "https") ∧
    peer_port peer = default (if secure peer then 443 else 80) (uri_port_u16 uri) ∧ verified peer = HttpCheck.verify_tls check ∧
    build_request clients check m uri body (bool_decide (url_origin u = origin)) h2 = inr req.

Definition raced (e : event) : Prop :=
  match e with Raced addrs _ => ∀ a, a ∈ addrs → guard_allow (ssrf_guard clients) (SocketAddr.ip a) = true | _ => True end.
Definition guarded (e : event) : Prop := match e with Collected _ _ => False | _ => raced e end.
Lemma guarded_raced l : Forall guarded l → Forall raced l.
Proof. intros Hl. eapply Forall_impl; [exact Hl|]. by intros []. Qed.
Lemma connecting_guarded host port verify l : Forall (connecting clients host port verify) l → Forall guarded l.
Proof. intros Hl. eapply Forall_impl; [exact Hl|]. intros e. destruct e; try done. intros Ha a Hin. by apply Ha. Qed.

(** What a hop that got no response says. *)
Inductive connect_reason : string → Prop :=
| InvalidUrl : connect_reason "invalid url"
| ConnectTimeout : connect_reason "connect timeout"
| NotConnected e : connect_reason (Connector.reason e)
| NotBuilt e : connect_reason ("request build failed: " +:+ e)
| NoResponse : connect_reason "no response"
| HyperError timed_out : connect_reason (classify_hyper_error timed_out).
Record gave_up (r : CheckResult.t) (why : string → Prop) : Prop := {
  gave_up_status : CheckResult.status r = CheckStatus.Error;
  gave_up_why : ∃ reason, CheckResult.error r = Some reason ∧ why reason;
  gave_up_silent : CheckResult.diagnostic r = None;
}.
Lemma failed_gave_up reason now a b c d e (why : string → Prop) : why reason →
  gave_up (failed target_id org_id started_at start reason now a b c d e None) why.
Proof. intros Hw. split; [done| |done]. by exists reason. Qed.

Definition no_response (r : option (bool + Response)) : Prop := match r with Some (inr _) => False | _ => True end.
Definition hopped (u : Url) (m : HttpMethod.t) (body : option string) (l : list event)
    (o : CheckResult.t * option HttpProbe.t + Response * PhaseTimings * Z) : Prop :=
  match o with
  | inl (r, p) => gave_up r connect_reason ∧ p = None ∧
      (sends l = [] ∨ ∃ peer req x, sends l = [(peer, req, x)] ∧ no_response x ∧ prepared u m body peer req)
  | inr (resp, _, _) => ∃ peer req, sends l = [(peer, req, Some (inr resp))] ∧ prepared u m body peer req
  end.

Ltac gave_up_silently := split; [apply failed_gave_up; constructor|split; [done|]].

Lemma hop_once_says u m body l o : says (hop_once u m body) l o → Forall guarded l ∧ hopped u m body l o.
Proof.
  unfold HttpWorker.hop_once, early, timed_error. intros Hs.
  destruct (uri_parse (url_as_str u)) as [e|uri] eqn:Huri.
  { simpl in Hs. converse. split; [by repeat constructor|]. gave_up_silently. by left. }
  destruct (uri_host uri) as [host|] eqn:Hhost.
  2: { simpl in Hs. converse. split; [by repeat constructor|]. gave_up_silently. by left. }
  simpl in Hs. hear1. destruct (remaining check start r =? 0).
  { converse. split; [by repeat constructor|]. gave_up_silently. by left. }
  simpl in Hs. hear1.
  apply says_bind in Hs as (l1 & l2 & connected & -> & [Hl1 Hstream]%timed_connect_says & Hs).
  pose proof (connecting_guarded _ _ _ _ Hl1) as Hg1. pose proof (connecting_sends _ _ _ _ _ Hl1) as Hn1.
  assert (Hg : ∀ b l2, Forall guarded l2 → Forall guarded (At r :: Budget b :: l1 ++ l2)).
  { intros b l' Hl'. constructor; [done|]. constructor; [done|]. by apply Forall_app. }
  assert (Hn : ∀ b l2, sends (At r :: Budget b :: l1 ++ l2) = sends l2) by (intros b l'; simpl; by rewrite sends_app, Hn1).
  destruct connected as [[err|c]|].
  - destruct (partial_timings err) as [dns connect]. converse. split; [apply Hg; by repeat constructor|].
    gave_up_silently. left. by rewrite Hn.
  - destruct (build_request _ _ _ _ _ _ _) as [e|req] eqn:Hreq.
    { converse. split; [apply Hg; by repeat constructor|]. gave_up_silently. left. by rewrite Hn. }
    specialize (Hstream c eq_refl).
    assert (Hprep : prepared u m body (stream c) req) by (exists uri, host, (alpn_h2 c); by rewrite Hstream).
    converse; (split; [apply Hg; by repeat constructor|]); unfold hopped; rewrite Hn; simpl.
    all: try (gave_up_silently; first [by left|right; by eexists _, _, _]).
    by eexists _, _.
  - converse. split; [apply Hg; by repeat constructor|]. gave_up_silently. left. by rewrite Hn.
Qed.

(** ** What a request carries *)
Definition FRAMING : list string := ["content-type"; "content-length"; "transfer-encoding"].
Definition carried (include_auth bodyless : bool) (n : string) : Prop :=
  (include_auth = false → n ∉ PROBE_REDACT_HEADERS) ∧ (bodyless = true → n ∉ FRAMING).
Definition carries (include_auth bodyless : bool) (b : string + HeaderMap) : Prop :=
  match b with inl _ => True | inr h => ∀ n v, (n, v) ∈ h → carried include_auth bodyless n end.

Lemma push_carries ia bl n v b : carried ia bl n → carries ia bl b → carries ia bl (push_header n v b).
Proof.
  unfold push_header. destruct b as [e|h]; [done|]. intros Hn Hb. destruct (header_value_error v); [done|].
  intros n' v' [Hin|Hin%list_elem_of_singleton]%elem_of_app; [by apply (Hb n' v')|by injection Hin as -> ->].
Qed.
Lemma own_carried ia bl n : bool_decide ((n ∉ PROBE_REDACT_HEADERS) ∧ (n ∉ FRAMING)) = true → carried ia bl n.
Proof. intros [Hr Hf]%bool_decide_eq_true. by split. Qed.

Lemma named_in k l : existsb (eq_ignore_ascii_case k) l = false →
  (to_ascii_lowercase <$> l) = l → to_ascii_lowercase k ∉ l.
Proof.
  intros Hno Hlow Hin. rewrite <-not_true_iff_false in Hno. apply Hno. apply existsb_exists.
  exists (to_ascii_lowercase k). split; [by apply list_elem_of_In|]. unfold eq_ignore_ascii_case. apply String.eqb_eq.
  rewrite <-Hlow in Hin. apply list_elem_of_fmap in Hin as (x & Hx & Hin). rewrite Hx.
  assert (Htwice : ∀ s, to_ascii_lowercase (to_ascii_lowercase s) = to_ascii_lowercase s); [|by rewrite Htwice].
  intros s. induction s as [|c s IH]; [done|]. simpl. rewrite IH. f_equal. by destruct c as [[] [] [] [] [] [] [] []].
Qed.

Lemma row_carries ia bl kv b : carries ia bl b → carries ia bl (push_row check ia bl kv b).
Proof.
  intros Hb. unfold push_row. destruct (row_dropped check ia bl kv.1) eqn:Hd; [done|].
  destruct (header_name kv.1) as [n|] eqn:Hn; [|done]. destruct (is_none _); [|done].
  apply push_carries; [|done]. apply header_name_lower in Hn as ->. unfold row_dropped in Hd.
  apply orb_false_iff in Hd as [[[_ Hcred]%orb_false_iff _]%orb_false_iff Hframe]. split.
  - intros ->. apply named_in; [done|]. reflexivity.
  - intros ->. apply named_in; [|reflexivity]. simpl in *. by rewrite orb_false_r, orb_assoc.
Qed.
Lemma rows_carry ia bl l b : carries ia bl b → carries ia bl (fold_left (λ b kv, push_row check ia bl kv b) l b).
Proof. revert b. induction l as [|kv l IH]; intros b Hb; [done|]. by apply IH, row_carries. Qed.

Lemma build_request_spec m uri body ia h2 req : build_request clients check m uri body ia h2 = inr req →
  req_method req = m ∧ req_body req = default "" body ∧ ∀ n v, (n, v) ∈ req_headers req → carried ia (is_none body) n.
Proof.
  unfold build_request. destruct (request_target uri h2) as [e|[target host]]; [done|].
  match goal with |- match ?b with _ => _ end = _ → _ => assert (Hb : carries ia (is_none body) b); [|destruct b as [e|h]; [done|]] end.
  - destruct (field_authz check ia) as [v|] eqn:Hauth.
    + apply push_carries.
      * destruct ia; [|done]. split; [done|]. intros _. by apply (bool_decide_unpack _).
      * apply rows_carry. destruct host as [host|]; [destruct (existsb _ _)|]; repeat case_match;
          repeat (apply push_carries; [by apply own_carried|]); by intros n v' ?%elem_of_nil.
    + apply rows_carry. destruct host as [host|]; [destruct (existsb _ _)|]; repeat case_match;
          repeat (apply push_carries; [by apply own_carried|]); by intros n v' ?%elem_of_nil.
  - by intros [= <-].
Qed.

(** ** The way through the redirects *)
Inductive redirect_reason : string → Prop :=
| TooManyRedirects : redirect_reason "too many redirects"
| InvalidLocation : redirect_reason "invalid redirect location"
| UnsupportedScheme : redirect_reason "unsupported redirect scheme".
Definition gave_up_reason (r : string) : Prop := connect_reason r ∨ redirect_reason r.

(** The requests of a check, in order: each for the place the last response sent it
    to, and none after a response that sends it nowhere. *)
Fixpoint visits (hops : nat) (u : Url) (m : HttpMethod.t) (body : option string) (l : list exchange) : Prop :=
  match l with
  | [] => True
  | (peer, req, x) :: rest =>
      prepared u m body peer req ∧
      (rest = [] ∨ ∃ resp h next, x = Some (inr resp) ∧ hops = S h ∧ HttpCheck.follow_redirects check = true ∧
         is_redirect (status_code resp) = true ∧ redirect u resp = Follow next ∧
         visits h next (after_redirect (status_code resp) m body).1 (after_redirect (status_code resp) m body).2 rest)
  end.

(** How a check ends: without a verdict, or with that of the last response. *)
Inductive concluded (l : list event) : CheckResult.t * option HttpProbe.t → Prop :=
| Gave_up r : gave_up r gave_up_reason →
    (∀ peer req resp, last (sends l) = Some (peer, req, Some (inr resp)) →
       HttpCheck.follow_redirects check && is_redirect (status_code resp) = true) →
    concluded l (r, None)
| Scored l1 l2 peer req resp t ttfb out :
    l = l1 ++ l2 → Forall guarded l1 → last (sends l1) = Some (peer, req, Some (inr resp)) →
    HttpCheck.follow_redirects check && is_redirect (status_code resp) = false →
    says (finalize resp t ttfb) l2 out → concluded l out.

Lemma read_body_says resp l r : says (read_body check start resp) l r → sends l = [] ∧ Forall raced l.
Proof.
  unfold read_body. intros Hs. destruct (bool_decide _); [converse; by repeat constructor|].
  simpl in Hs. converse; by repeat constructor.
Qed.
Lemma finalize_says resp t ttfb l out : says (finalize resp t ttfb) l out → sends l = [] ∧ Forall raced l.
Proof.
  unfold HttpWorker.finalize. intros (l1 & l2 & reading & -> & [Hn Hg]%read_body_says & Hs)%says_bind.
  rewrite sends_app, Hn, Forall_app. destruct reading; simpl in Hs; converse; (split; [done|split; [done|by repeat constructor]]).
Qed.
Lemma early_says reason code l out : says (early target_id org_id started_at start reason code) l out →
  ∃ t r, l = [At t] ∧ out = (r, None) ∧ (∀ why, why reason → gave_up r why).
Proof. unfold early. intros Hs. simpl in Hs. converse. eexists _, _. split_and!; [done..|]. intros why. apply failed_gave_up. Qed.

Lemma gave_up_weaken r (P Q : string → Prop) : gave_up r P → (∀ s, P s → Q s) → gave_up r Q.
Proof. intros [Hs (reason & He & Hp) Hd] Hpq. split; [done| |done]. exists reason. auto. Qed.
Lemma hop_gave_up u m body l r p : hopped u m body l (inl (r, p)) → concluded l (r, None) ∧ p = None ∧
  ∀ hops, visits hops u m body (sends l).
Proof.
  intros (Hg & -> & Hone). split; [|split; [done|]].
  - apply Gave_up; [eapply gave_up_weaken; [exact Hg|by left]|]. intros peer req resp Hlast.
    destruct Hone as [Hn|(peer' & req' & x & Hn & Hx & _)]; rewrite Hn in Hlast; [done|].
    simpl in Hlast. injection Hlast as -> -> ->. done.
  - intros hops. destruct Hone as [-> |(peer & req & x & -> & _ & Hprep)]; [by destruct hops|].
    by destruct hops; split; auto.
Qed.
Lemma concluded_after l1 l2 out peer req resp : Forall guarded l1 → sends l1 = [(peer, req, Some (inr resp))] →
  HttpCheck.follow_redirects check && is_redirect (status_code resp) = true → concluded l2 out → concluded (l1 ++ l2) out.
Proof.
  intros Hg Hone Hred [r Hr Hlast|l3 l4 peer' req' resp' t' ttfb' out' Hl Hg3 Hlast Hr Hs].
  - constructor; [done|]. intros peer' req' resp'. rewrite sends_app, last_app, Hone.
    destruct (last (sends l2)) as [x|] eqn:E; [intros [= ->]; by eapply Hlast|]. by intros [= <- <- <-].
  - eapply (Scored _ (l1 ++ l3) l4 peer' req' resp' t' ttfb'); [by rewrite Hl, <-app_assoc|by apply Forall_app| |done|done].
    by rewrite sends_app, last_app, Hlast.
Qed.
Lemma stopped_after l1 t reason peer req resp : sends l1 = [(peer, req, Some (inr resp))] →
  HttpCheck.follow_redirects check && is_redirect (status_code resp) = true → redirect_reason reason →
  ∀ r, (∀ why : string → Prop, why reason → gave_up r why) → concluded (l1 ++ [At t]) (r, None).
Proof.
  intros Hone Hred Hreason r Hr. constructor; [apply Hr; by right|]. intros peer' req' resp'.
  rewrite sends_app, app_nil_r, Hone. by intros [= <- <- <-].
Qed.

Lemma follow_says hops u m body l out : says (follow hops u m body) l out →
  Forall raced l ∧ visits hops u m body (sends l) ∧ concluded l out.
Proof.
  revert u m body l. induction hops as [|hops IH]; intros u m body l Hs; simpl in Hs;
    apply says_bind in Hs as (l1 & l2 & tried & -> & [Hg1 Ho]%hop_once_says & Hs);
    pose proof (guarded_raced _ Hg1) as Hr1;
    (destruct tried as [[r p]|[[resp t] ttfb]];
      [apply hop_gave_up in Ho as (Hc & -> & Hv); destruct Hs as [-> ->]; by rewrite app_nil_r|]);
    destruct Ho as (peer & req & Hone & Hprep); rewrite Forall_app;
    (destruct (_ && _) eqn:Hred;
      [|pose proof (finalize_says _ _ _ _ _ Hs) as [Hn Hg2]; split; [done|]; split;
          [by rewrite sends_app, Hn, Hone; split; [|left]|by eapply Scored; [done|done|by rewrite Hone|done|exact Hs]]]).
  - apply early_says in Hs as (t' & r & -> & -> & Hr). split; [by repeat constructor|].
    split; [by rewrite sends_app, Hone; split; [|left]|by eapply stopped_after; [done|done|constructor|]].
  - pose proof Hred as [Hfollow Hcode]%andb_prop. destruct (redirect u resp) as [next|reason] eqn:Hnext.
    + destruct (after_redirect (status_code resp) m body) as [m' b'] eqn:Hafter.
      apply IH in Hs as (Hg2 & Hv & Hc). split; [done|]. split; [|by eapply concluded_after].
      rewrite sends_app, Hone. split; [done|]. right. exists resp, hops, next. by rewrite Hafter.
    + apply early_says in Hs as (t' & r & -> & -> & Hr). split; [by repeat constructor|].
      split; [by rewrite sends_app, Hone; split; [|left]|]. eapply stopped_after; [done|done| |done].
      unfold redirect in Hnext. repeat case_match; simplify_eq; constructor.
Qed.

(** ** Time

    [step]: how long the check runs, at most, between two readings of the clock when it
    awaits nothing, and how late a timeout is served. *)
Section Time.
Context (step : Duration) (step_nonneg : 0 ≤ step).
Record clock := { last_read : Z; limit : Z; waited : bool }.
Definition passes (c : clock) (e : event) : clock :=
  match e with
  | At t => {| last_read := t; limit := limit c; waited := false |}
  | Budget b => {| last_read := last_read c; limit := last_read c + b + step; waited := waited c |}
  | _ => {| last_read := last_read c; limit := limit c; waited := true |}
  end.
Definition reach (c : clock) : Z := if waited c then limit c else last_read c + step.
(** A reading after a wait comes before the timeout around it, and another one soon. *)
Fixpoint punctual (c : clock) (l : list event) : Prop :=
  match l with
  | [] => True
  | e :: l => match e with At t => last_read c ≤ t ≤ reach c | _ => True end ∧ punctual (passes c e) l
  end.
Lemma punctual_app c l1 l2 : punctual c (l1 ++ l2) ↔ punctual c l1 ∧ punctual (foldl passes c l1) l2.
Proof. revert c. induction l1 as [|e l1 IH]; intros c; simpl; [naive_solver|]. rewrite IH. naive_solver. Qed.

#[local] Abbreviation B := (start + HttpCheck.timeout check).
#[local] Transparent timed_connect.
Lemma timed_connect_time c host port is_https verify l r : waited c = false →
  says (timed_connect (Request := Request) (Response := Response) (Body := Body) clients host port is_https verify) l r →
  punctual c l →
  let c' := foldl passes c l in
  last_read c ≤ last_read c' ≤ Z.max (limit c) (last_read c + 2 * step) + step ∧ limit c' = limit c ∧
  (waited c' = true → ∀ x, r ≠ Some (inr x)).
Proof.
  destruct c as [last lim w]. simpl. intros ->. unfold timed_connect, resolve_addrs. intros Hs Hp.
  destruct (parse_ip host); simpl in Hs; converse; simpl in *; unfold reach in *; simpl in *; (split; [lia|done]).
Qed.
#[local] Opaque timed_connect.

Ltac in_time :=
  simpl in *; unfold reach, remaining, elapsed in *; simpl in *; rewrite ?Z.eqb_neq, ?Z.eqb_eq in *;
  repeat case_match; split_and?; try done; try lia.
Lemma hop_once_time c u m body l o : waited c = false → start ≤ last_read c → last_read c ≤ B + 2 * step →
  says (hop_once u m body) l o → punctual c l →
  let c' := foldl passes c l in
  start ≤ last_read c' ∧ waited c' = false ∧
  match o with
  | inl (r, _) => CheckResult.duration_ms r = duration_ms start (last_read c') ∧ last_read c' ≤ B + 6 * step
  | inr _ => last_read c' ≤ B + 2 * step
  end.
Proof.
  destruct c as [last lim w]. simpl. intros -> Hstart Hlast. unfold HttpWorker.hop_once, early, timed_error. intros Hs Hp.
  destruct (uri_parse (url_as_str u)) as [e|uri]; [simpl in Hs; converse; in_time|].
  destruct (uri_host uri) as [host|]; [|simpl in Hs; converse; in_time].
  simpl in Hs. hear1. destruct (remaining check start r =? 0) eqn:Hleft; [converse; in_time|].
  simpl in Hs. hear1. apply says_bind in Hs as (l1 & l2 & connected & -> & Hc & Hs).
  simpl in Hp. destruct Hp as (Hr & _ & [Hp1 Hp2]%punctual_app). simpl. rewrite foldl_app.
  match type of Hp1 with punctual ?c _ =>
    destruct (timed_connect_time c _ _ _ _ _ _ eq_refl Hc Hp1) as (Hl1 & Hlim & Hw) end.
  destruct (foldl passes _ l1) as [last1 lim1 w1]. simpl in *. subst lim1.
  destruct connected as [[err|c]|].
  - destruct (partial_timings err) as [dns connect]. converse. in_time.
  - destruct w1; [by destruct (Hw eq_refl c)|].
    destruct (build_request _ _ _ _ _ _ _) as [e|req]; [converse; in_time|]. converse; in_time.
  - converse. in_time.
Qed.

Lemma finalize_time c resp t ttfb l r p : waited c = false → start ≤ last_read c → last_read c ≤ B + 2 * step →
  says (finalize resp t ttfb) l (r, p) → punctual c l →
  let c' := foldl passes c l in
  start ≤ last_read c' ∧ CheckResult.duration_ms r = duration_ms start (last_read c') ∧ last_read c' ≤ B + 6 * step.
Proof.
  destruct c as [last lim w]. simpl. intros -> Hstart Hlast. unfold HttpWorker.finalize. intros Hs Hp.
  apply says_bind in Hs as (l1 & l2 & reading & -> & Hread & Hs). apply punctual_app in Hp as [Hp1 Hp2].
  rewrite foldl_app. unfold read_body in Hread.
  destruct (bool_decide _) in Hread; simpl in Hread; converse; simpl in Hs; converse; in_time.
Qed.

Lemma follow_time hops c u m body l r p : waited c = false → start ≤ last_read c → last_read c ≤ B + 2 * step →
  says (follow hops u m body) l (r, p) → punctual c l →
  let c' := foldl passes c l in
  start ≤ last_read c' ∧ CheckResult.duration_ms r = duration_ms start (last_read c') ∧ last_read c' ≤ B + 6 * step.
Proof.
  revert c u m body l. induction hops as [|hops IH]; intros c u m body l Hw Hstart Hlast Hs Hp; simpl in Hs;
    apply says_bind in Hs as (l1 & l2 & tried & -> & Hone & Hs); apply punctual_app in Hp as [Hp1 Hp2];
    rewrite foldl_app; pose proof (hop_once_time c u m body l1 tried Hw Hstart Hlast Hone Hp1) as (Hs1 & Hw1 & Hend);
    (destruct tried as [[r' p']|[[resp t] ttfb]]; [destruct Hs as [-> [= -> ->]]; simpl in *; lia|]);
    (destruct (_ && _); [|by eapply finalize_time]).
  - clear Hone Hp1. destruct (foldl passes c l1) as [last lim w]. simpl in *. subst w.
    unfold early in Hs. simpl in Hs. converse. in_time.
  - destruct (redirect u resp) as [next|reason].
    + destruct (after_redirect _ _ _) as [m' b']. by eapply IH.
    + clear Hone Hp1. destruct (foldl passes c l1) as [last lim w]. simpl in *. subst w.
      unfold early in Hs. simpl in Hs. converse. in_time.
Qed.
End Time.

(** ** The verdict *)
(** What became of the last response's body: [None] when it was over a limit. *)
Definition collected (resp : Response) (l : list event) (page : option string) : Prop :=
  if bool_decide (HttpCheck.method check = HttpMethod.Head) then page = Some ""
  else ∃ n x, Collected n (Some x) ∈ l ∧
    match x with
    | OverLimit => page = None
    | Whole raw => match decode_body raw (to_ascii_lowercase <$> header_text "content-encoding" (headers resp)) with
                   | inr b => page = Some b
                   | inl OverCap => page = None
                   | inl Malformed => False
                   end
    | Broken => False
    end.
Definition asserted_in (page : option string) : Prop :=
  ∀ needle, HttpCheck.expected_body_contains check = Some needle →
    ∃ text, page = Some text ∧ is_utf8 text = true ∧ contains text needle = true.
Definition body_reason (r : string) : Prop :=
  r = "body timeout" ∨ r = "body" ∨ r = "decode" ∨
  (is_some (HttpCheck.expected_body_contains check) = true ∧ (r = OVER_CAP_ERROR ∨ r = OVER_DECODED_CAP_ERROR)).

Definition reading_says (resp : Response) (l : list event) (reading : Reading) : Prop :=
  match reading with
  | Read b => collected resp l (Some b) ∧ ∀ page, collected resp l page → page = Some b
  | Abandoned => collected resp l None ∧ HttpCheck.expected_body_contains check = None ∧
      ∀ page, collected resp l page → page = None
  | Fault reason => body_reason reason ∧ ∀ page, collected resp l page → page = None ∧ HttpCheck.expected_body_contains check ≠ None
  end.
Lemma read_body_hears resp l r : says (read_body check start resp) l r → reading_says resp l r.
Proof.
  unfold read_body, reading_says, collected, body_reason, asserted_in. intros Hs. destruct (bool_decide _); [by converse|].
  simpl in Hs. converse.
  assert (Honly : ∀ n x, Collected n (Some x) ∈ [At r0; Budget (remaining check start r0); Collected MAX_RAW_BODY_BYTES r2] →
    r2 = Some x).
  { intros n x Hin. rewrite !elem_of_cons in Hin. destruct Hin as [[=]|[[=]|[[= _ ->]|[]%elem_of_nil]]]. done. }
  assert (Hin : ∀ x, r2 = Some x →
    Collected MAX_RAW_BODY_BYTES (Some x) ∈ [At r0; Budget (remaining check start r0); Collected MAX_RAW_BODY_BYTES r2]).
  { intros x ->. rewrite !elem_of_cons. auto. }
  destruct r2 as [x|].
  2: { split; [auto|]. intros page (n & x & Hx & _). by apply Honly in Hx. }
  specialize (Hin x eq_refl). assert (Hx : ∀ n y, Collected n (Some y) ∈ _ → y = x) by (intros n y Hy%Honly; by injection Hy).
  destruct x as [raw| |].
  - destruct (decode_body raw _) as [[]|b] eqn:Hd; [destruct (HttpCheck.expected_body_contains check) as [needle|] eqn:Hexp|..]; simpl.
    + split; [auto 6|]. intros page (n & y & ->%Hx & Hy). rewrite Hd in Hy. by subst page.
    + split; [eexists _, _; split; [exact Hin|]; simpl; by rewrite Hd|]. split; [done|].
      intros page (n & y & ->%Hx & Hy). by rewrite Hd in Hy.
    + split; [auto|]. intros page (n & y & ->%Hx & Hy). by rewrite Hd in Hy.
    + split; [eexists _, _; split; [exact Hin|]; simpl; by rewrite Hd|]. intros page (n & y & ->%Hx & Hy). by rewrite Hd in Hy.
  - destruct (HttpCheck.expected_body_contains check) as [needle|] eqn:Hexp; simpl.
    + split; [auto 6|]. by intros page (n & y & ->%Hx & ->).
    + split; [by eexists _, _|]. split; [done|]. by intros page (n & y & ->%Hx & ->).
  - split; [auto|]. intros page (n & y & ->%Hx & []).
Qed.
Lemma collected_app resp l1 l2 page : Forall guarded l1 → collected resp (l1 ++ l2) page ↔ collected resp l2 page.
Proof.
  intros Hg. unfold collected. destruct (bool_decide _); [done|]. rewrite Forall_forall in Hg. split.
  - intros (n & x & [Hin|Hin]%elem_of_app & Hx); [by apply Hg in Hin|eauto].
  - intros (n & x & Hin & Hx). exists n, x. rewrite elem_of_app. auto.
Qed.

(** A body that serves: read whole, or over a limit when the check asserts nothing. *)
Definition usable (resp : Response) (l : list event) (page : option string) : Prop :=
  collected resp l page ∧ (page = None → HttpCheck.expected_body_contains check = None).
Lemma usable_app resp l1 l2 page : Forall guarded l1 → usable resp (l1 ++ l2) page ↔ usable resp l2 page.
Proof. intros Hg. unfold usable. by rewrite collected_app. Qed.

Definition scored (resp : Response) (l : list event) (r : CheckResult.t) : Prop :=
  let code := status_code resp in
  let expected := match_status code (HttpCheck.expected_status check) in
  CheckResult.response_code r = Some code ∧
  match CheckResult.status r with
  | CheckStatus.Up => expected = true ∧ CheckResult.error r = None ∧ CheckResult.diagnostic r = None ∧
      ∃ page, usable resp l page ∧ asserted_in page
  | CheckStatus.Degraded => expected = false ∧ (code = 429 ∨ code = 503) ∧ (∃ page, usable resp l page) ∧
      ∃ detail, CheckResult.error r = Some ("rate-limited " +:+ show code +:+ detail)
  | CheckStatus.Down => (∃ page, usable resp l page) ∧
      (expected = false ∧ code ≠ 429 ∧ code ≠ 503 ∧ CheckResult.error r = Some ("unexpected status " +:+ show code) ∨
       expected = true ∧ CheckResult.error r = Some "body match failed" ∧
         ∀ page, usable resp l page → ¬ asserted_in page)
  | CheckStatus.Error => ∃ reason, CheckResult.error r = Some reason ∧ body_reason reason ∧
      ∀ page, ¬ usable resp l page
  end.

Lemma finalize_scores resp t ttfb l r p : says (finalize resp t ttfb) l (r, p) → scored resp l r.
Proof.
  unfold HttpWorker.finalize. intros (l1 & l2 & reading & -> & Hread%read_body_hears & Hs)%says_bind.
  assert (Happ : ∀ t page, usable resp (l1 ++ [At t]) page ↔ usable resp l1 page).
  { intros t' page. unfold usable. apply and_iff_compat_r. unfold collected. destruct (bool_decide _); [done|].
    split; intros (n & x & Hin & Hx); exists n, x; rewrite elem_of_app in *; [|by auto].
    destruct Hin as [Hin|[=]%list_elem_of_singleton]. done. }
  assert (Hscore : ∀ body_ok retry now d size tls, 
    (∃ page, usable resp l1 page ∧ (body_ok = true ↔ asserted_in page) ∧ ∀ page', usable resp l1 page' → page' = page) →
    let '(status, error) := classify_outcome (status_code resp) (match_status (status_code resp) (HttpCheck.expected_status check)) body_ok retry in
    scored resp (l1 ++ [At now]) {| CheckResult.target_id := target_id; CheckResult.org_id := org_id;
      CheckResult.timestamp := started_at; CheckResult.status := status; CheckResult.duration_ms := duration_ms start now;
      CheckResult.dns_ms := Some (dns_ms t); CheckResult.connect_ms := Some (connect_ms t); CheckResult.tls_ms := tls;
      CheckResult.ttfb_ms := Some ttfb; CheckResult.response_code := Some (status_code resp);
      CheckResult.response_size := size; CheckResult.diagnostic := if bool_decide (status = CheckStatus.Up) then None else d;
      CheckResult.error := error |}).
  { intros body_ok retry now d size tls (page & Hp & Ha & Hu). unfold classify_outcome, scored. simpl.
    assert (Hp' : usable resp (l1 ++ [At now]) page) by (by apply Happ).
    destruct (match_status _ _) eqn:Hm; simpl.
    - destruct body_ok; simpl; (split; [done|]).
      + split_and!; try done. exists page. split; [done|]. by apply Ha.
      + split; [by exists page|]. right. split_and!; [done|done|]. intros page' ->%Happ%Hu Hno. by apply Ha in Hno.
    - destruct ((status_code resp =? 429) || (status_code resp =? 503)) eqn:Hb; simpl; (split; [done|]).
      + split; [done|]. split; [|split; [by exists page|by eexists]]. apply orb_prop in Hb as [Hb|Hb]; apply Z.eqb_eq in Hb; auto.
      + split; [by exists page|]. left. apply orb_false_iff in Hb as [Hb1%Z.eqb_neq Hb2%Z.eqb_neq]. done. }
  destruct reading as [b| |reason]; simpl in Hread.
  - destruct Hread as [Hb Hu]. simpl in Hs. destruct Hs as (now & rest & -> & Hs).
    set (body_ok := match HttpCheck.expected_body_contains check with Some _ => _ | None => true end) in Hs.
    specialize (Hscore body_ok (v ← header_text "retry-after" (headers resp); if sanitised_retry_after v then Some v else None) now
      (detect_diagnostic (from_headers (headers resp)) b (status_code resp)) (Some (wrap_u32 (Z.of_nat (String.length b)))) (tls_ms t)).
    destruct (classify_outcome _ _ _ _) as [status error]. destruct Hs as [-> [= -> ->]]. simpl. apply Hscore. clear Hscore.
    exists (Some b). split; [by split|]. split; [|by intros page' [?%Hu _]].
    subst body_ok. unfold from_utf8, asserted_in. destruct (HttpCheck.expected_body_contains check) as [needle|]; [|done].
    split.
    + intros Hok ? [= <-]. exists b. destruct (is_utf8 b); [by split|done].
    + intros Ha. destruct (Ha _ eq_refl) as (text & [= <-] & -> & Ht). exact Ht.
  - destruct Hread as (Hb & Hnone & Hreads). simpl in Hs. destruct Hs as (now & rest & -> & Hs). rewrite Hnone in Hs.
    specialize (Hscore true (v ← header_text "retry-after" (headers resp); if sanitised_retry_after v then Some v else None) now
      (detect_diagnostic (from_headers (headers resp)) "" (status_code resp)) None (tls_ms t)).
    destruct (classify_outcome _ _ _ _) as [status error]. destruct Hs as [-> [= -> ->]]. simpl. apply Hscore.
    exists None. split; [by split|]. split; [split; [intros _ needle; by rewrite Hnone|done]|].
    intros page' [Hp _]. by apply Hreads.
  - destruct Hread as [Hreason Hno]. simpl in Hs. destruct Hs as (now & rest & -> & [-> [= -> ->]]).
    split; [done|]. simpl. exists reason. split; [done|]. split; [done|].
    intros page [Hp Ha]%Happ. destruct (Hno page Hp) as [-> Hsome]. by apply Hsome, Ha.
Qed.
End Check.

(** ** What the operator is shown *)
Lemma snapshot_from_spec seen room h :
  (length (snapshot_from seen room h) ≤ room)%nat ∧
  NoDup ((to_ascii_lowercase ∘ name) <$> snapshot_from seen room h) ∧
  ∀ p, p ∈ snapshot_from seen room h → (to_ascii_lowercase (name p) ∉ seen) ∧
    (to_ascii_lowercase (name p) ∈ PROBE_REDACT_HEADERS → value p = "***REDACTED***") ∧
    ∃ v, (name p, v) ∈ h.
Proof.
  revert seen room. induction h as [|[k v] h IH]; intros seen room.
  { simpl. split; [lia|]. split; [constructor|]. by intros p ?%elem_of_nil. }
  destruct room as [|room].
  { simpl. split; [lia|]. split; [constructor|]. by intros p ?%elem_of_nil. }
  assert (Hmem : ∀ k l, k ∈ l → existsb (String.eqb k) l = true).
  { intros k' l Hk. apply existsb_exists. exists k'. rewrite String.eqb_refl. split; [exact (proj1 (list_elem_of_In _ _) Hk)|done]. }
  cbn -[PROBE_REDACT_HEADERS]. destruct (existsb (String.eqb (to_ascii_lowercase k)) seen) eqn:Hseen.
  - destruct (IH seen (S room)) as (Hlen & Hnodup & Hin). split; [done|]. split; [done|].
    intros p (? & ? & w & ?)%Hin. split; [done|]. split; [done|]. exists w. by right.
  - destruct (IH (to_ascii_lowercase k :: seen) room) as (Hlen & Hnodup & Hin).
    split; [cbn -[PROBE_REDACT_HEADERS]; lia|]. split.
    + rewrite fmap_cons. constructor; [|done]. intros (p & Hp & Hpin)%list_elem_of_fmap. apply Hin in Hpin as (Hno & _).
      apply Hno. rewrite elem_of_cons. left. symmetry. exact Hp.
    + intros p [-> |Hp]%elem_of_cons; cbn -[PROBE_REDACT_HEADERS].
      * split; [intros Hk%Hmem; congruence|]. split; [intros Hk%Hmem; by rewrite Hk|]. exists v. by left.
      * apply Hin in Hp as (Hno & Hred & w & Hw). rewrite elem_of_cons in Hno. split; [tauto|]. split; [done|].
        exists w. by right.
Qed.

(** The preview shows no credential. Of whatever headers a server sends, at most twenty
    are shown, each name once however it is spelled, each a header of the response, and
    the value of a header on the list is never among what is shown. *)
Theorem preview_hides_credentials h : let shown := snapshot_headers h in
  (length shown ≤ PROBE_HEADERS_MAX)%nat ∧ NoDup ((to_ascii_lowercase ∘ name) <$> shown) ∧
  ∀ p, p ∈ shown → (∃ v, (name p, v) ∈ h) ∧
    (to_ascii_lowercase (name p) ∈ PROBE_REDACT_HEADERS → value p = "***REDACTED***").
Proof.
  destruct (snapshot_from_spec [] PROBE_HEADERS_MAX h) as (Hlen & Hnodup & Hin). split; [done|]. split; [done|].
  intros p (_ & Hred & Hex)%Hin. done.
Qed.

(** ** The theorems *)
Context (clients : HttpClients) (check : HttpCheck.t) (target_id org_id : Uuid) (started_at : DateTime) (capture : bool).
#[local] Abbreviation do_http_check := (do_http_check clients check target_id org_id started_at capture).
#[local] Abbreviation origin := (url_origin (HttpCheck.url check)).

Lemma do_http_check_says l out : says do_http_check l out → ∃ start rest, l = At start :: rest ∧
  says (follow clients check target_id org_id started_at start capture (max_hops check) (HttpCheck.url check)
    (HttpCheck.method check) (HttpCheck.body check)) rest out.
Proof. unfold HttpWorker.do_http_check. intros Hs. simpl in Hs. destruct Hs as (start & rest & -> & Hs). by exists start, rest. Qed.

(** Every request was prepared for a page the redirects led to. *)
Lemma visits_prepared hops u m body l peer req x : visits clients check hops u m body l → (peer, req, x) ∈ l →
  ∃ u' m' body', prepared clients check u' m' body' peer req ∧
    (u' = u ∨ url_scheme u' = "http" ∨ url_scheme u' = "https").
Proof.
  revert hops u m body. induction l as [|[[p q] y] l IH]; intros hops u m body; [by intros _ ?%elem_of_nil|].
  intros [Hprep Hrest] [[= -> -> ->]|Hin]%elem_of_cons; [exists u, m, body; auto|].
  destruct Hrest as [-> |(resp & h & next & -> & -> & Hf & Hr & Hnext & Hv)]; [by apply elem_of_nil in Hin|].
  destruct (IH _ _ _ _ Hv Hin) as (u' & m' & body' & Hp' & Hu'). exists u', m', body'. split; [done|]. right.
  destruct Hu' as [-> |?]; [|done]. unfold redirect in Hnext. destruct (_ ≫= _) as [n|]; [|done].
  destruct (String.eqb (url_scheme n) "http" || _) eqn:E; [|done]. injection Hnext as ->.
  apply orb_prop in E as [E|E]; apply String.eqb_eq in E; auto.
Qed.

(** C10: credentials stay with the site they were given for. Whatever servers, resolver and
    network answer, and wherever redirects lead: every address a check dials, on
    every hop, is one the guard lets by; every request goes to the host, port and
    scheme of the page it is for, over a connection verified as the check asks, and
    that page is the check's own or an http or https one; and a request for another
    origin than the check's carries none of the headers a credential travels in,
    neither the check's own rows nor its bearer token or password. *)
Theorem credentials_stay_home l out : says do_http_check l out →
  (∀ addrs r a, Raced addrs r ∈ l → a ∈ addrs → guard_allow (ssrf_guard clients) (SocketAddr.ip a) = true) ∧
  ∀ peer req r, Sent peer req r ∈ l → ∃ u uri,
    (u = HttpCheck.url check ∨ url_scheme u = "http" ∨ url_scheme u = "https") ∧
    uri_parse (url_as_str u) = inr uri ∧ uri_host uri = Some (peer_host peer) ∧
    secure peer = bool_decide (uri_scheme_str uri = Some "https") ∧
    peer_port peer = default (if secure peer then 443 else 80) (uri_port_u16 uri) ∧
    verified peer = HttpCheck.verify_tls check ∧
    (url_origin u ≠ origin → ∀ n v, (n, v) ∈ req_headers req → n ∉ PROBE_REDACT_HEADERS).
Proof.
  intros (start & rest & -> & (Hraced & Hv & _)%follow_says)%do_http_check_says. split.
  - intros addrs r a [[=]|Hin]%elem_of_cons Ha. rewrite Forall_forall in Hraced. by apply (Hraced _ Hin a).
  - intros peer req r [[=]|Hin]%elem_of_cons.
    assert (Hs : (peer, req, r) ∈ sends rest) by (apply list_elem_of_omap; by eexists).
    destruct (visits_prepared _ _ _ _ _ _ _ _ Hv Hs) as (u & m & body & (uri & host & h2 & Hparse & Hhost & <- & ? & ? & ? & Hreq) & Hu).
    exists u, uri. split_and!; try done. intros Hother. apply build_request_spec in Hreq as (_ & _ & Hreq).
    intros n v Hn%Hreq. destruct Hn as [Hn _]. apply Hn. by apply bool_decide_eq_false.
Qed.

(** After a response that is not a 307 or 308, everything is a bodyless GET. *)
Lemma visits_bodyless hops u l peer req x : visits clients check hops u HttpMethod.Get None l → (peer, req, x) ∈ l →
  req_method req = HttpMethod.Get ∧ req_body req = "" ∧ ∀ n v, (n, v) ∈ req_headers req → n ∉ FRAMING.
Proof.
  revert hops u. induction l as [|[[p q] y] l IH]; intros hops u; [by intros _ ?%elem_of_nil|].
  intros [(uri & host & h2 & _ & _ & _ & _ & _ & _ & Hreq%build_request_spec) Hrest] [[= -> -> ->]|Hin]%elem_of_cons.
  - destruct Hreq as (Hm & Hb & Hh). split; [done|]. split; [done|]. intros n v Hn%Hh. by destruct Hn as [_ Hn]; apply Hn.
  - destruct Hrest as [-> |(resp & h & next & -> & -> & Hf & Hr & Hnext & Hv)]; [by apply elem_of_nil in Hin|].
    apply (IH h next); [|done]. unfold after_redirect in Hv. by destruct (_ || _).
Qed.

Definition followed (resp : Response) (req' : Request) : Prop :=
  HttpCheck.follow_redirects check = true ∧ is_redirect (status_code resp) = true ∧
  (status_code resp ≠ 307 → status_code resp ≠ 308 →
     req_method req' = HttpMethod.Get ∧ req_body req' = "" ∧ ∀ n v, (n, v) ∈ req_headers req' → n ∉ FRAMING).

Lemma visits_followed hops u m body l l1 p q x l2 peer req y : visits clients check hops u m body l →
  l = l1 ++ (p, q, x) :: l2 → (peer, req, y) ∈ l2 → ∃ resp, x = Some (inr resp) ∧ followed resp req.
Proof.
  revert hops u m body l. induction l1 as [|[[p0 q0] x0] l1 IH]; intros hops u m body l Hv -> Hin.
  - destruct Hv as [_ [-> |(resp & h & next & -> & -> & Hf & Hr & Hnext & Hv)]]; [by apply elem_of_nil in Hin|].
    exists resp. split; [done|]. split; [done|]. split; [done|]. intros H307 H308. unfold after_redirect in Hv.
    apply Z.eqb_neq in H307, H308. rewrite H307, H308 in Hv. by eapply visits_bodyless.
  - destruct Hv as [_ [Hnil|(resp & h & next & -> & -> & Hf & Hr & Hnext & Hv)]]; [by destruct l1|].
    by eapply IH.
Qed.
Lemma visits_length hops u m body l : visits clients check hops u m body l → (length l ≤ S hops)%nat.
Proof.
  revert hops u m body. induction l as [|[[p q] x] l IH]; intros hops u m body; [simpl; lia|].
  intros [_ [-> |(resp & h & next & -> & -> & _ & _ & _ & Hv)]]; [simpl; lia|]. apply IH in Hv. simpl. lia.
Qed.
Lemma max_hops_small : (max_hops check ≤ 10)%nat.
Proof.
  unfold max_hops, effective_max_redirects, MAX_REDIRECT_HOPS, HttpCheck.MAX_REDIRECTS.
  destruct (negb _); [lia|]. destruct (_ =? _); lia.
Qed.

(** C12: a check is never replayed by accident. It makes at most eleven requests, one when
    it follows no redirects; the first is the check's own, method and body; and a
    request that follows a response is there because that response redirects and
    the check follows, and after anything but a 307 or a 308 all that follow are GETs
    without a body and without a header that frames one. *)
Theorem redirects_never_replay l out : says do_http_check l out →
  (length (sends l) ≤ S (max_hops check))%nat ∧ (max_hops check ≤ 10)%nat ∧
  (HttpCheck.follow_redirects check = false → (length (sends l) ≤ 1)%nat) ∧
  (∀ peer req r rest, sends l = (peer, req, r) :: rest →
     req_method req = HttpCheck.method check ∧ req_body req = default "" (HttpCheck.body check)) ∧
  ∀ l1 p q x l2 peer req y, sends l = l1 ++ (p, q, x) :: l2 → (peer, req, y) ∈ l2 →
    ∃ resp, x = Some (inr resp) ∧ followed resp req.
Proof.
  intros (start & rest & -> & (_ & Hv & _)%follow_says)%do_http_check_says. simpl.
  split; [by eapply visits_length|]. split; [apply max_hops_small|]. split; [|split].
  - intros Hno. apply visits_length in Hv. unfold max_hops, effective_max_redirects in Hv. by rewrite Hno in Hv.
  - intros peer req r l' Hl. rewrite Hl in Hv. destruct Hv as [(uri & host & h2 & _ & _ & _ & _ & _ & _ & Hreq%build_request_spec) _].
    by destruct Hreq as (? & ? & _).
  - intros l1 p q x l2 peer req y Hl Hin. by eapply visits_followed.
Qed.

(** The last response, when it is not a redirect to follow. *)
Definition final (l : list event) (resp : Response) : Prop :=
  (∃ peer req, last (sends l) = Some (peer, req, Some (inr resp))) ∧
  HttpCheck.follow_redirects check && is_redirect (status_code resp) = false.

(** C11: the verdict is that of the last response. When the last request was answered, and
    not with a redirect to follow, the result carries that response's code, and says:
    error, naming the reading, whatever the code, when the body did not serve: its
    reading timed out or failed, it does not decode, or it is over a limit and the
    check asserts a text; and with a body that served (read whole, or over a limit with
    nothing asserted) up when the code is expected and the body contains the text
    asserted, if any; degraded for an unexpected 429 or 503; down for any other
    unexpected code, or a body without the text. Otherwise the result is an error that
    says why there was no answer. A check that is up has no error and no diagnostic. *)
Theorem verdict_is_the_last_response l r p : says do_http_check l (r, p) →
  (∀ resp, final l resp → scored check resp l r) ∧
  ((∀ resp, ¬ final l resp) → gave_up r gave_up_reason) ∧
  (CheckResult.status r = CheckStatus.Up ↔ ∃ resp page, final l resp ∧
     match_status (status_code resp) (HttpCheck.expected_status check) = true ∧
     usable check resp l page ∧ asserted_in check page).
Proof.
  intros (start & rest & -> & (_ & _ & Hc)%follow_says)%do_http_check_says.
  assert (Hscored : (∀ resp, final (At start :: rest) resp → scored check resp (At start :: rest) r) ∧
    ((∀ resp, ¬ final (At start :: rest) resp) → gave_up r gave_up_reason) ∧
    (CheckResult.status r = CheckStatus.Up → ∃ resp, final (At start :: rest) resp)).
  { inversion Hc as [r' Hr Hlast Heq|l1 l2 peer req resp t ttfb out -> Hg Hlast Hred Hs Heq]; subst.
    - split; [|split; [done|]].
      + intros resp [(peer & req & Hl) Hno]. simpl in Hl. specialize (Hlast _ _ _ Hl). congruence.
      + destruct Hr as [Hst _ _]. by rewrite Hst.
    - pose proof Hs as [Hn _]%(finalize_says clients).
      assert (Hl : last (sends (At start :: l1 ++ l2)) = Some (peer, req, Some (inr resp))).
      { simpl. by rewrite sends_app, Hn, app_nil_r. }
      apply finalize_scores in Hs.
      assert (Hall : scored check resp (At start :: l1 ++ l2) r).
      { change (At start :: l1 ++ l2) with ((At start :: l1) ++ l2). unfold scored in *. destruct Hs as [Hcode Hs].
        assert (Hg' : Forall (guarded clients) (At start :: l1)) by by constructor.
        split; [done|]. destruct (CheckResult.status r).
        - destruct Hs as (? & ? & ? & page & Hp & Ha). split_and!; try done. exists page. split; [|done].
          by apply (usable_app clients).
        - destruct Hs as [[page Hp] Hs]. split; [exists page; by apply (usable_app clients)|].
          destruct Hs as [Hs|(? & ? & Hno)]; [by left|right]. split_and!; try done. intros page' Hp'%(usable_app clients); [|done].
          by apply Hno.
        - destruct Hs as (? & ? & [page Hp] & ?). split_and!; try done. exists page. by apply (usable_app clients).
        - destruct Hs as (reason & ? & ? & Hno). exists reason. split_and!; try done.
          intros page Hp%(usable_app clients); [|done]. by apply (Hno page). }
      split; [|split].
      + intros resp' [(peer' & req' & Hl') _]. rewrite Hl in Hl'. by injection Hl' as -> -> ->.
      + intros Hno. exfalso. apply (Hno resp). split; [by exists peer, req|done].
      + intros _. exists resp. split; [by exists peer, req|done]. }
  destruct Hscored as (Hfin & Hgave & Hup). split; [done|]. split; [done|]. split.
  - intros Hst. destruct (Hup Hst) as [resp Hf]. pose proof (Hfin _ Hf) as [_ Hs]. rewrite Hst in Hs.
    destruct Hs as (Hm & _ & _ & page & Hp & Ha). by exists resp, page.
  - intros (resp & page & Hf & Hm & Hp & Ha). pose proof (Hfin _ Hf) as [_ Hs]. destruct (CheckResult.status r); [done|..].
    + destruct Hs as [_ [(Hm' & _)|(_ & _ & Hno)]]; [congruence|by destruct (Hno page)].
    + destruct Hs as (Hm' & _). congruence.
    + destruct Hs as (reason & _ & _ & Hno). by destruct (Hno page).
Qed.

(** C14: a check ends in time. When the clock and the timeouts keep their word (the check
    runs no longer than [step] between two readings that await nothing, and a timeout
    fires within [step] of its budget), a check is over within its own timeout and six
    such steps, however many redirects it followed and whatever hung. *)
Theorem check_ends_in_time step l r p start rest : 0 ≤ step → says do_http_check l (r, p) →
  0 ≤ HttpCheck.timeout check → l = At start :: rest →
  punctual step {| last_read := start; limit := start; waited := false |} rest →
  0 ≤ CheckResult.duration_ms r ≤ as_millis (HttpCheck.timeout check + 6 * step).
Proof.
  intros Hstep (start' & rest' & -> & Hs)%do_http_check_says Htimeout [= -> ->] Hp.
  match type of Hp with punctual _ ?c _ =>
    destruct (follow_time clients check target_id org_id started_at start capture step Hstep _ c _ _ _ _ _ _ eq_refl
      ltac:(simpl; lia) ltac:(simpl; lia) Hs Hp) as (Hlow & Hd & Hhigh) end.
  simpl in *.
  unfold duration_ms, wrap_u32, as_millis, elapsed, MILLI in *.
  set (last := last_read _) in *. rewrite Hd.
  assert (Hle : Z.max 0 (last - start) / 1000000 ≤ (HttpCheck.timeout check + 6 * step) / 1000000).
  { apply Z.div_le_mono; lia. }
  assert (0 ≤ Z.max 0 (last - start) / 1000000) by (apply Z.div_pos; lia).
  pose proof (Z.mod_pos_bound (Z.max 0 (last - start) / 1000000) 4294967296 ltac:(lia)).
  pose proof (Z.mod_le (Z.max 0 (last - start) / 1000000) 4294967296 ltac:(lia) ltac:(lia)). lia.
Qed.

(** ** What the error says *)
Context `{JsonText}.
(** The messages no class names. *)
Definition UNCLASSIFIED : list string :=
  ["invalid url"; "too many redirects"; "invalid redirect location"; "unsupported redirect scheme"].
Definition unclassified (e : string) : Prop := e ∈ UNCLASSIFIED ∨
  ∃ detail, e = "request build failed: " +:+ detail.
Definition named (e : string) : Prop :=
  (classify_check_error e ≠ ErrorClass.Other ∨ unclassified e) ∧
  ErrorClass.family (classify_check_error e) ≠ ErrorFamily.Internal.

Lemma not_internal e : e ∉ INTERNAL → ErrorClass.family (classify_check_error e) ≠ ErrorFamily.Internal.
Proof. by intros Hno Hi%internal_is_three_messages. Qed.
Lemma literal_named e : bool_decide (classify_check_error e ≠ ErrorClass.Other) && bool_decide (e ∉ INTERNAL) = true → named e.
Proof. intros [Hc%bool_decide_eq_true Hi%bool_decide_eq_true]%andb_prop. split; [by left|by apply not_internal]. Qed.
Lemma listed_named e : bool_decide (e ∈ UNCLASSIFIED) && bool_decide (e ∉ INTERNAL) = true → named e.
Proof. intros [Hc%bool_decide_eq_true Hi%bool_decide_eq_true]%andb_prop. split; [by right; left|by apply not_internal]. Qed.
Lemma stem_named stem x : (∀ y, exact (stem +:+ y) = None ∧ by_stem (stem +:+ y) ≠ ErrorClass.Other ∧ plain (stem +:+ y) = true) →
  (∀ y, stem +:+ y ∉ INTERNAL) → named (stem +:+ x).
Proof.
  intros Hstem Hint. destruct (Hstem x) as (He & Hs & Hp). split; [left|by apply not_internal]. by rewrite classify_plain, He.
Qed.

Lemma connect_reason_named e : connect_reason e → named e.
Proof.
  intros [| |[e'|d|k d|t d c]|d| |b].
  - by apply listed_named.
  - by apply literal_named.
  - by destruct e'; apply literal_named.
  - by apply literal_named.
  - by destruct k; apply literal_named.
  - destruct t as [f| | | | | |k]; [|by apply literal_named..|by destruct k; apply literal_named].
    destruct f as [| | | | |[[]|]|]; by apply literal_named.
  - split; [right; right; by eexists|]. apply not_internal. by intros [?|[?|[?|?%elem_of_nil]%elem_of_cons]%elem_of_cons]%elem_of_cons.
  - by apply literal_named.
  - by destruct b; apply literal_named.
Qed.

(** C13: every failure is named. The error of a check falls in a class of its own, but for
    the messages about an unusable address or redirect, which no class names; and no
    failure of a check, whatever the target answered, is ever counted as this node's. *)
Theorem failed_checks_are_named l r p e : says do_http_check l (r, p) → CheckResult.error r = Some e → named e.
Proof.
  intros (start & rest & -> & (_ & _ & Hc)%follow_says)%do_http_check_says He.
  inversion Hc as [r' [_ (reason & Hr & [Hwhy|Hwhy]) _] _ Heq|l1 l2 peer req resp t ttfb out -> Hg Hlast Hred Hs Heq]; subst.
  - rewrite He in Hr. injection Hr as ->. by apply connect_reason_named.
  - rewrite He in Hr. injection Hr as ->. by destruct Hwhy; apply listed_named.
  - apply finalize_scores in Hs as [_ Hs]. destruct (CheckResult.status r).
    + destruct Hs as (_ & Hn & _). congruence.
    + destruct Hs as [_ [(_ & _ & _ & Hr)|(_ & Hr & _)]]; rewrite He in Hr; injection Hr as ->; [|by apply literal_named].
      apply stem_named; [by intros []; split_and!|]. by intros y [?|[?|[?|?%elem_of_nil]%elem_of_cons]%elem_of_cons]%elem_of_cons.
    + destruct Hs as (_ & _ & _ & detail & Hr). rewrite He in Hr. injection Hr as ->.
      apply stem_named; [by intros []; split_and!|]. by intros y [?|[?|[?|?%elem_of_nil]%elem_of_cons]%elem_of_cons]%elem_of_cons.
    + destruct Hs as (reason & Hr & Hwhy & _). rewrite He in Hr. injection Hr as ->.
      destruct Hwhy as [-> |[-> |[-> |[_ [-> | ->]]]]]; by apply literal_named.
Qed.
End Dialogues.

Module HttpSample.
(** Addresses as [scheme|host|path]. *)
Definition parts (s : string) : list string := split_on (Ascii.eqb "|"%char) s.
#[local] Instance urls : UrlLibrary := {|
  Url := string; Url_eq_dec := String.eq_dec; url_parse s := Some s; url_as_str u := u;
  host_str u := parts u !! 1%nat; port_or_known_default _ := Some 443 |}.
#[local] Instance web : Web := {|
  Origin := list string; Origin_eq_dec := _;
  url_origin u := take 2 (parts u);
  url_join (u loc : string) := Some loc;
  url_scheme u := default "" (head (parts u));
  Uri := list string; uri_parse s := inr (parts s);
  uri_host p := p !! 1%nat; uri_scheme_str p := head p; uri_port_u16 _ := None; uri_path_and_query p := p !! 2%nat;
  header_name k := Some (to_ascii_lowercase k); header_value_error _ := None; header_to_str := Some;
  gunzip _ _ := None; unbrotli _ _ := None; base64_encode s := s |}.
#[local] Instance web_laws : WebLaws.
Proof. by split; intros k n [= <-]. Qed.
#[local] Instance hash : HashOrder := key_order.
#[local] Instance names : ServerNames := {| server_name_ok _ := true |}.
#[local] Instance json : JsonText :=
  {| JsonValue := string; from_str _ := None; field _ _ := None; as_i64 _ := None; as_text := Some |}.

Definition clients : HttpClients := {| user_agent := "probe/1"; ssrf_guard := strict; connect_timeout := seconds 5 |}.
(** Posts a body with a token and an api key. *)
Definition login : HttpCheck.t := {|
  HttpCheck.url := "https|a.test|/login" : Url; HttpCheck.method := HttpMethod.Post; HttpCheck.timeout := seconds 10;
  HttpCheck.follow_redirects := true; HttpCheck.max_redirects := 0; HttpCheck.expected_status := ExpectedStatus.Exact 200;
  HttpCheck.expected_body_contains := Some "ok";
  HttpCheck.headers := <["X-Api-Key" := "k"]> (<["Content-Type" := "text/plain"]> ∅); HttpCheck.body := Some "user=1";
  HttpCheck.verify_tls := true; HttpCheck.basic_auth := None; HttpCheck.bearer_token := Some "secret" |}.

(** A millisecond per question; [a.test] redirects to [b.test], which answers. *)
Definition network (n : nat) (T : Type) (o : op Request Response Body T) : T :=
  match o in Connector.op _ _ _ T return T with
  | Clock => Z.of_nat n * MILLI
  | Timeout _ => tt
  | LookupIp _ => Some (inr [SsrfSample.public])
  | RaceConnect _ => Some (inr tt)
  | TcpConnect _ => Some (inr tt)
  | TlsConnect _ _ => Some (inr {| alpn_is_h2 := true |})
  | HttpHandshake _ _ => Some (inr tt)
  | SendRequest peer _ =>
      Some (inr (if String.eqb (peer_host peer) "a.test"
                 then {| status_code := 302; headers := [("location", "http|b.test|/")] |}
                 else {| status_code := 200; headers := [("server", "cloudflare")] |}))
  | CollectBody _ => Some (Whole "all ok")
  end.
Definition checked : list event * (CheckResult.t * option HttpProbe.t) :=
  dialogue event_of network 0 (do_http_check clients login 1%N 2%N 0 false).
Lemma checked_says : says event_of (do_http_check clients login 1%N 2%N 0 false) checked.1 (checked.2.1, checked.2.2).
Proof. pose proof (dialogue_says event_of network 0 (do_http_check clients login 1%N 2%N 0 false)) as Hs. fold checked in Hs. by destruct checked.2. Qed.

(** Two requests; the second without the key, the token or the body. *)
Example sent_headers : (λ x, req_headers x.1.2) <$> sends checked.1 =
  [[("user-agent", "probe/1"); ("accept", "*/*"); ("accept-encoding", "gzip, br"); ("content-type", "text/plain");
    ("x-api-key", "k"); ("authorization", "Bearer secret")];
   [("user-agent", "probe/1"); ("accept", "*/*"); ("accept-encoding", "gzip, br"); ("host", "b.test")]].
Proof. vm_compute. reflexivity. Qed.

Lemma two_requests : ∃ p q resp peer req y, sends checked.1 = [(p, q, Some (inr resp)); (peer, req, y)] ∧
  status_code resp = 302 ∧ peer_host peer = "b.test".
Proof.
  assert (E : match sends checked.1 with
    | [(_, _, Some (inr resp)); (peer, _, _)] => (status_code resp =? 302) && String.eqb (peer_host peer) "b.test"
    | _ => false
    end = true) by (vm_compute; reflexivity).
  destruct (sends checked.1) as [|[[p q] [[|resp]|]] [|[[peer req] y] [|]]]; try discriminate E.
  apply andb_prop in E as [Hc%Z.eqb_eq Hp%String.eqb_eq]. by exists p, q, resp, peer, req, y.
Qed.

Lemma credentials_stay_home_witness : ∃ peer req r, Sent peer req r ∈ checked.1 ∧ peer_host peer = "b.test" ∧
  ∃ u, url_origin u ≠ url_origin (HttpCheck.url login) ∧ ∀ n v, (n, v) ∈ req_headers req → n ∉ PROBE_REDACT_HEADERS.
Proof.
  destruct (credentials_stay_home clients login 1%N 2%N 0 false _ _ checked_says) as [_ H].
  destruct two_requests as (p & q & resp & peer & req & r & E & _ & Hb).
  assert (Hx : (peer, req, r) ∈ sends checked.1) by (rewrite E; constructor; constructor).
  apply list_elem_of_omap in Hx as (e & He & Hx). destruct e; try discriminate Hx. injection Hx as -> -> ->.
  exists peer, req, r. split; [exact He|]. split; [exact Hb|].
  destruct (H _ _ _ He) as (u & uri & _ & Hp & Hh & _ & _ & _ & Hno). exists u. rewrite Hb in Hh.
  assert (Hother : url_origin u ≠ url_origin (HttpCheck.url login)).
  { intros Heq. injection Hp as <-. change (take 2 (parts u) = ["https"; "a.test"]) in Heq.
    change (parts u !! 1%nat = Some "b.test") in Hh. destruct (parts u) as [|a [|b l]]; try discriminate Heq.
    injection Heq as _ Hb'. injection Hh as Hh. rewrite Hh in Hb'. discriminate Hb'. }
  split; [exact Hother|exact (Hno Hother)].
Defined.

Lemma redirects_never_replay_witness : ∃ p q x peer req y, sends checked.1 = [(p, q, x); (peer, req, y)] ∧
  req_method q = HttpMethod.Post ∧ req_method req = HttpMethod.Get ∧ req_body req = "".
Proof.
  destruct (redirects_never_replay clients login 1%N 2%N 0 false _ _ checked_says) as (_ & _ & _ & Hfirst & Hnext).
  destruct two_requests as (p & q & resp & peer & req & y & E & Hcode & _).
  exists p, q, (Some (inr resp)), peer, req, y. split; [exact E|].
  destruct (Hfirst _ _ _ _ E) as [Hm _]. split; [exact Hm|].
  destruct (Hnext [] p q _ [(peer, req, y)] peer req y E ltac:(constructor)) as (resp' & Hresp & _ & _ & Hf).
  injection Hresp as <-.
  destruct Hf as (Hg & Hb & _); [rewrite Hcode; discriminate..|]. split; [exact Hg|exact Hb].
Defined.

Lemma verdict_is_the_last_response_witness : CheckResult.status checked.2.1 = CheckStatus.Up ∧
  ∃ resp page, final login checked.1 resp ∧ usable login resp checked.1 page ∧ asserted_in login page.
Proof.
  destruct (verdict_is_the_last_response clients login 1%N 2%N 0 false _ _ _ checked_says) as (_ & _ & [H _]).
  assert (E : CheckResult.status checked.2.1 = CheckStatus.Up) by (vm_compute; reflexivity). split; [exact E|].
  destruct (H E) as (resp & page & Hf & _ & Hc & Ha). exists resp, page. split; [exact Hf|]. split; [exact Hc|exact Ha].
Defined.

(** What the check hears after its first look at the clock. *)
Definition heard : list event :=
  (dialogue event_of network 1 (follow clients login 1%N 2%N 0 0 false (max_hops login) (HttpCheck.url login)
     (HttpCheck.method login) (HttpCheck.body login))).1.
Lemma checked_starts : checked.1 = At 0 :: heard.
Proof.
  unfold checked, heard, do_http_check. cbn [call mbind prog_bind dialogue]. by destruct (dialogue _ _ 1 _).
Qed.
Lemma heard_punctual : punctual (10 * MILLI) {| last_read := 0; limit := 0; waited := false |} heard.
Proof. vm_compute. repeat split; discriminate. Qed.
Lemma check_ends_in_time_witness : CheckResult.duration_ms checked.2.1 ≤ 10060.
Proof.
  pose proof (check_ends_in_time clients login 1%N 2%N 0 false (10 * MILLI) _ _ _ 0 heard ltac:(vm_compute; discriminate)
    checked_says ltac:(vm_compute; discriminate) checked_starts heard_punctual) as [_ H]. exact H.
Defined.

(** The same check where nobody resolves. *)
Definition deaf (n : nat) (T : Type) (o : op Request Response Body T) : T :=
  match o in Connector.op _ _ _ T return T → T with
  | LookupIp _ => λ _, Some (inl NxDomain)
  | _ => id
  end (network n T o).
Definition unresolved : list event * (CheckResult.t * option HttpProbe.t) :=
  dialogue event_of deaf 0 (do_http_check clients login 1%N 2%N 0 false).
Lemma failed_checks_are_named_witness : CheckResult.error unresolved.2.1 = Some "dns: domain not found" ∧
  named "dns: domain not found".
Proof.
  assert (E : CheckResult.error unresolved.2.1 = Some "dns: domain not found") by (vm_compute; reflexivity).
  split; [exact E|].
  pose proof (dialogue_says event_of deaf 0 (do_http_check clients login 1%N 2%N 0 false)) as Hs. fold unresolved in Hs.
  apply (failed_checks_are_named clients login 1%N 2%N 0 false unresolved.1 unresolved.2.1 unresolved.2.2); [|exact E].
  destruct unresolved.2. exact Hs.
Defined.

(** ** Where the code falls short of its comments *)
(** The last character of a short page is lost when it is not an ASCII one. *)
Example snippet_loses_its_last_character :
  snapshot_body ("caf" +:+ byte 195 (byte 169 "")) = "caf" +:+ REPLACEMENT.
Proof. vm_compute. reflexivity. Qed.
(** A secret in a header that is not on the list goes wherever a redirect points. *)
Example unlisted_credential_follows :
  row_dropped login false true "X-Vault-Token" = false.
Proof. vm_compute. reflexivity. Qed.
End HttpSample.
