(* ===== verification/FlowWorker.v ===== *)
(** * Flow checks: a browser that replays a list of steps

    src/worker/flow/: executor.rs runs the steps against a live page, evidence.rs
    collects what a failed run left behind, engine.rs spawns a browser for one run
    and bounds it, and mod.rs turns the run into a check result. A run is a tree of
    what it awaits: the clock, the browser's process and the calls of the browser's
    protocol, which are the environment. Metrics and logs are left out. *)

From Stdlib Require Import Ascii.
From S2P Require Import Prelude Text Domain Target CheckSpec Redaction Handlers Connector.

(** ** What the libraries write

    [json_string]: [serde_json::to_string] of a string; [debug_str]: a string's
    [Debug]. A value the page gives back is null, a string, a boolean, or one that
    decodes to neither; [decode_error] says why it does not decode. *)
Inductive JsValue := JsNull | JsString (s : string) | JsBool (b : bool) | JsOther (json : string).
Class FlowText := {
  json_string : string → string;
  debug_str : string → string;
  decode_error : JsValue → string;
}.

(** [RemoteObject]: a string, or the text of another JSON value; and a description. *)
Record RemoteObject := { value : option (string + string); description : option string }.
Record ConsoleCall := { call_type : string; args : list RemoteObject }.

(** ** src/domain/agent_wire.rs: the trace *)
Module StepOutcome.
Inductive t := Passed | Failed | Skipped.
#[global] Instance eq_dec : EqDecision t.
Proof. solve_decision. Defined.
Definition as_enum8 (o : t) : Z := match o with Passed => 1 | Failed => 2 | Skipped => 3 end.
End StepOutcome.
Module StepTrace.
Record t := { op : string; outcome : StepOutcome.t; duration_ms : Z }.
End StepTrace.

(** ** What a run awaits

    [Cut] is a call made under a timeout, [CutAt] under a deadline, [Watched] one made while the memory of the
    browser is watched: none of them is sure to get its answer. *)
Inductive op : Type → Type :=
| Clock : op Z
| Sleep (d : Duration) : op unit
| Acquire : op bool                                       (* false: the semaphore is closed *)
| FreePort : op (string + Z)
| Spawn (args : list string) : op (string + option Z)     (* the process, and its id *)
| TryWait : op (option string)                            (* the exit status *)
| BrowserConnect (ws : string) : op (string + unit)
| NewPage (url : string) : op (string + unit)
| Enable (domain : string) : op unit
| Attach : op unit
| Goto (url : string) : op (string + unit)
| WaitForNavigation : op (string + unit)
| Evaluate (js : string) : op (string + JsValue)
| PageUrl : op (string + option string)
| TakeConsole : op (list ConsoleCall)                     (* every call since [Attach] *)
| Kill : op unit
| Cut (budget : Duration) {T : Type} (o : op T) : op (option T)
| CutAt (deadline : Z) {T : Type} (o : op T) : op (option T)
| Watched (limit : Z) {T : Type} (o : op T) : op (option T).
#[local] Abbreviation ask := (call (op := op)).

Fixpoint within {A} (under : ∀ T, op T → op (option T)) (p : prog op A) : prog op (option A) :=
  match p with
  | Ret a => Ret (Some a)
  | @Do _ _ T o k => Do (under T o) (λ r, match r with Some r => within under (k r) | None => Ret None end)
  end.
Definition timeout {A} (budget : Duration) : prog op A → prog op (option A) := within (λ T, @Cut budget T).

(** ** evidence.rs *)
Definition MAX_CONSOLE : nat := 20.
Definition MAX_LINE_CHARS : nat := 300.
Definition MAX_URL_CHARS : nat := 300.
Definition MAX_SNIPPET_CHARS : nat := 800.
Definition WIRE_SNIPPET_CHARS : nat := MAX_SNIPPET_CHARS * 2.

Definition truncate (s : string) (max : nat) : string :=
  if (chars_count s <=? max)%nat then s else chars_take max s +:+ "…".
Definition js_slice (expr : string) (max : nat) : string :=
  "(function(){const v=" +:+ expr +:+ ";return typeof v==='string'?v.replace(/\s+/g,' ').slice(0,"
  +:+ show (Z.of_nat max) +:+ "):null;})()".
Definition render_arg (arg : RemoteObject) : string :=
  match value arg with
  | Some (inl s) => truncate s MAX_LINE_CHARS
  | Some (inr v) => truncate v MAX_LINE_CHARS
  | None => truncate (default "" (description arg)) MAX_LINE_CHARS
  end.

Section Checks.
Context `{UrlLibrary} `{FlowText}.

(** One console call reaches the buffer; the one before it is not said twice. *)
Definition push_line (console : list ConsoleLine.t) (c : ConsoleCall) : list ConsoleLine.t :=
  let text := String.concat " " (render_arg <$> args c) in
  let line := {| ConsoleLine.level := to_ascii_lowercase (call_type c); ConsoleLine.text := truncate text MAX_LINE_CHARS |} in
  let repeat := is_some_and (λ p, String.eqb (ConsoleLine.level p) (ConsoleLine.level line)
                                  && String.eqb (ConsoleLine.text p) (ConsoleLine.text line)) (last console) in
  if negb repeat && (length console <? MAX_CONSOLE)%nat then console ++ [line] else console.

Definition as_string (v : JsValue) : option (option string) :=
  match v with JsNull => Some None | JsString s => Some (Some s) | _ => None end.
Definition as_bool (v : JsValue) : option (option bool) :=
  match v with JsNull => Some None | JsBool b => Some (Some b) | _ => None end.

(** A read that fails is no text. *)
Definition read_text (js : string) : prog op (option string) :=
  v ← ask (Evaluate js);
  Ret (match v with inr v => mjoin (as_string v) | inl _ => None end).
Definition non_empty_text (s : string) : option string := if String.eqb s "" then None else Some s.
Definition finish : prog op FlowEvidence.t :=
  url ← ask PageUrl;
  title ← read_text (js_slice "document.title" MAX_LINE_CHARS);
  text ← read_text (js_slice "document.body?document.body.innerText:null" WIRE_SNIPPET_CHARS);
  console ← ask TakeConsole;
  Ret {| FlowEvidence.final_url :=
           (λ u, truncate (scrub_url u) MAX_URL_CHARS) <$> match url with inr u => u | inl _ => None end;
         FlowEvidence.title := title ≫= λ t, non_empty_text (truncate t MAX_LINE_CHARS);
         FlowEvidence.text_snippet :=
           text ≫= λ s, non_empty_text (truncate (String.concat " " (split_whitespace s)) MAX_SNIPPET_CHARS);
         FlowEvidence.console := fold_left push_line console [] |}.

(** ** executor.rs *)
Inductive RunResult :=
| Passed
| Failed (step : nat) (op : string) (reason : string)
| Budget (step : nat) (op : string)
| Engine (e : string).

(** A step that did not pass: [FlowFault] is the target's, [EngineFault] the transport's. *)
Inductive StepError := FlowFault (reason : string) | EngineFault (e : string).
#[local] Abbreviation attempt A := (prog op (StepError + A)).
Definition and_so {A B} (m : attempt A) (k : A → attempt B) : attempt B :=
  r ← m; match r with inr a => k a | inl e => Ret (inl e) end.

Definition waits (step : FlowStep.t) : bool :=
  match step with FlowStep.Fill _ _ | FlowStep.Click _ => false | _ => true end.
Definition step_op (step : FlowStep.t) : string :=
  match step with
  | FlowStep.Goto _ => "goto" | FlowStep.Click _ => "click" | FlowStep.Fill _ _ => "fill"
  | FlowStep.WaitFor _ => "wait_for" | FlowStep.AssertText _ _ => "assert_text" | FlowStep.AssertUrl _ => "assert_url"
  end.
Definition millis (d : Duration) : Z := Z.min (as_millis d) 4294967295.

(** *** The scripts *)
Definition enc (s : string) : string := json_string s.
Definition js_fill (selector v : string) : string :=
  "(function(){const e=document.querySelector(" +:+ enc selector +:+ ");if(!e)return 'NOT_FOUND';e.value="
  +:+ enc v +:+ ";e.dispatchEvent(new Event('input',{bubbles:true}));e.dispatchEvent(new Event('change',{bubbles:true}));return 'OK';})()".
Definition CLICK_TARGETS : string :=
  "button, a, input[type=" +:+ quoted "submit" +:+ "], input[type=" +:+ quoted "button"
  +:+ "], input[type=" +:+ quoted "reset" +:+ "], summary, [role=" +:+ quoted "button" +:+ "]".
Definition js_click (selector : string) : string :=
  "(function(){const e=document.querySelector(" +:+ enc selector +:+ ");if(!e)return 'NOT_FOUND';(e.closest("
  +:+ enc CLICK_TARGETS +:+ ")||e).click();return 'OK';})()".
Definition js_present (selector : string) : string := "!!document.querySelector(" +:+ enc selector +:+ ")".
Definition js_text (selector : option string) : string :=
  match selector with
  | Some s => "(function(){const e=document.querySelector(" +:+ enc s +:+ ");return e?e.textContent:null;})()"
  | None => "document.body?document.body.textContent:null"
  end.

(** *** Questions to the page *)
Definition POLL_PAUSE : Duration := 100 * MILLI.
Definition is_context_loss (msg : string) : bool :=
  existsb (contains msg) ["Cannot find context with specified id"; "Execution context was destroyed"].

Definition eval_string_once (js : string) : attempt string :=
  v ← ask (Evaluate js);
  Ret (match v with
       | inl e => inl (EngineFault ("evaluate: " +:+ e))
       | inr v => match as_string v with
                  | Some s => inr (default "" s)
                  | None => inl (EngineFault ("evaluate decode: " +:+ decode_error v))
                  end
       end).
Definition eval_bool_once (js : string) : attempt bool :=
  v ← ask (Evaluate js);
  Ret (match v with
       | inl e => inl (EngineFault ("evaluate: " +:+ e))
       | inr v => match as_bool v with
                  | Some b => inr (default false b)
                  | None => inl (EngineFault ("evaluate decode: " +:+ decode_error v))
                  end
       end).
Definition retrying_context_loss {A} (run : attempt A) : attempt A :=
  r ← run;
  match r with
  | inl (EngineFault e) => if is_context_loss e then _ ← ask (Sleep POLL_PAUSE); run else Ret r
  | _ => Ret r
  end.
Definition eval_action (js : string) : attempt string := eval_string_once js.
Definition eval_string (js : string) : attempt string := retrying_context_loss (eval_string_once js).
Definition eval_bool (js : string) : attempt bool := retrying_context_loss (eval_bool_once js).

(** Every round but the last is followed by a pause, so [deadline / POLL_PAUSE + 2] rounds
    outlast the deadline; what an exhausted poll answers is never heard. *)
Fixpoint poll_rounds (fuel : nat) (start : Z) (deadline : Duration) (check : attempt bool) : attempt bool :=
  match fuel with
  | O => Ret (inl (EngineFault ""))
  | S fuel =>
      r ← check;
      let go_on (lost : option string) : attempt bool :=
        now ← ask Clock;
        if deadline <=? elapsed start now then
          Ret (match lost with Some e => inl (EngineFault e) | None => inr false end)
        else _ ← ask (Sleep POLL_PAUSE); poll_rounds fuel start deadline check in
      match r with
      | inr true => Ret (inr true)
      | inr false => go_on None
      | inl (EngineFault e) => if is_context_loss e then go_on (Some e) else Ret (inl (EngineFault e))
      | inl e => Ret (inl e)
      end
  end.
Definition poll_fuel (deadline : Duration) : nat := Z.to_nat (Z.max 0 deadline / POLL_PAUSE + 2).
Definition poll (deadline : Duration) (check : attempt bool) : attempt bool :=
  start ← ask Clock; poll_rounds (poll_fuel deadline) start deadline check.

(** *** One step *)
Definition unless_found (reason : string) (m : attempt bool) : attempt unit :=
  and_so m (λ found, Ret (if found then inr tt else inl (FlowFault reason))).
Definition drive (step : FlowStep.t) (step_timeout : Duration) : attempt unit :=
  match step with
  | FlowStep.Goto url =>
      let nav : attempt unit :=
        went ← ask (Goto (url_as_str url));
        match went with
        | inl e => Ret (inl (EngineFault ("goto: " +:+ e)))
        | inr _ =>
            arrived ← ask WaitForNavigation;
            Ret (match arrived with inl e => inl (EngineFault ("goto nav: " +:+ e)) | inr _ => inr tt end)
        end in
      r ← timeout step_timeout nav;
      Ret (match r with Some r => r | None => inl (FlowFault ("timed out loading " +:+ url_as_str url)) end)
  | FlowStep.Fill selector v =>
      and_so (eval_action (js_fill selector v)) (λ s,
        Ret (if String.eqb s "OK" then inr tt else inl (FlowFault ("selector not found: " +:+ selector))))
  | FlowStep.Click selector =>
      and_so (eval_action (js_click selector)) (λ s,
        Ret (if String.eqb s "OK" then inr tt else inl (FlowFault ("selector not found: " +:+ selector))))
  | FlowStep.WaitFor selector =>
      unless_found ("timed out waiting for " +:+ selector) (poll step_timeout (eval_bool (js_present selector)))
  | FlowStep.AssertText selector want =>
      unless_found ("text not found: " +:+ debug_str want)
        (poll step_timeout (and_so (eval_string (js_text selector)) (λ s, Ret (inr (contains s want)))))
  | FlowStep.AssertUrl want =>
      unless_found ("url does not contain " +:+ debug_str want)
        (poll step_timeout
           (url ← ask PageUrl;
            Ret (match url with
                 | inl e => inl (EngineFault ("url: " +:+ e))
                 | inr u => inr (contains (default "" u) want)
                 end)))
  end.

(** *** The list of steps *)
Definition skipped (s : FlowStep.t) : StepTrace.t :=
  {| StepTrace.op := step_op s; StepTrace.outcome := StepOutcome.Skipped; StepTrace.duration_ms := 0 |}.
Definition mark (outcome : StepOutcome.t) (took : Z) (t : StepTrace.t) : StepTrace.t :=
  {| StepTrace.op := StepTrace.op t; StepTrace.outcome := outcome; StepTrace.duration_ms := took |}.

Section Run.
Context (step_timeout : Duration) (deadline : Z).
Fixpoint run_from (i : nat) (steps : list FlowStep.t) (trace : list StepTrace.t) : prog op (RunResult * list StepTrace.t) :=
  match steps with
  | [] => Ret (Passed, trace)
  | step :: rest =>
      let op := step_op step in
      now ← ask Clock;
      let remaining := Z.max 0 (deadline - now) in
      if remaining =? 0 then Ret (Budget i op, trace)
      else
        let clamped := remaining <=? step_timeout in
        started ← ask Clock;
        outcome ← drive step (Z.min step_timeout remaining);
        now ← ask Clock;
        let took := millis (elapsed started now) in
        match outcome with
        | inr _ => run_from (S i) rest (alter (mark StepOutcome.Passed took) i trace)
        | inl (EngineFault e) => Ret (Engine e, trace)
        | inl (FlowFault reason) =>
            let trace := alter (mark StepOutcome.Failed took) i trace in
            if waits step && clamped then
              now ← ask Clock;
              Ret (if deadline <=? now then Budget i op else Failed i op reason, trace)
            else Ret (Failed i op reason, trace)
        end
  end.
Definition run_steps (steps : list FlowStep.t) : prog op (RunResult * list StepTrace.t) :=
  run_from 0 steps (skipped <$> steps).
End Run.

(** ** engine.rs *)
Definition Attempt := (RunResult * option FlowEvidence.t * list StepTrace.t)%type.
Definition engine_error (reason : string) : Attempt := (Engine reason, None, []).
Definition BACKSTOP_GRACE : Duration := seconds 5.
Definition EVIDENCE_BUDGET : Duration := seconds 3.
Definition STARTUP_FAILED : string := "engine did not start: ".

Record CdpEngine := {
  mem_limit_bytes : Z;
  block_private_networks : bool;
  block_cidrs : string;
  v8_max_heap_mb : Z;
  max_response_bytes : Z;
  user_agent_suffix : string;
}.

Fixpoint connect_with_retry (tries : nat) (ws last : string) : prog op (string + unit) :=
  match tries with
  | O => Ret (inl ("CDP connect failed after retries: " +:+ last))
  | S tries =>
      exited ← ask TryWait;
      match exited with
      | Some status => Ret (inl ("lightpanda exited on startup (" +:+ status +:+ ")"))
      | None =>
          r ← ask (BrowserConnect ws);
          match r with
          | inr _ => Ret (inr tt)
          | inl e => _ ← ask (Sleep (100 * MILLI)); connect_with_retry tries ws e
          end
      end
  end.

Definition drive_browser (port : Z) (flow : FlowCheck.t) (deadline : Z) : prog op Attempt :=
  connected ← connect_with_retry 50 ("ws://127.0.0.1:" +:+ show port +:+ "/") "";
  match connected with
  | inl e => Ret (engine_error (STARTUP_FAILED +:+ e))
  | inr _ =>
      page ← ask (NewPage (url_as_str (FlowCheck.start_url flow)));
      match page with
      | inl e => Ret (engine_error ("open page: " +:+ e))
      | inr _ =>
          _ ← ask (Enable "Runtime");
          _ ← ask (Enable "Network");
          _ ← ask Attach;
          loaded ← within (λ T, @CutAt deadline T) (ask WaitForNavigation);
          match loaded with
          | Some (inl e) => Ret (engine_error ("initial navigation: " +:+ e))
          | _ =>
              '(result, steps) ← run_steps (FlowCheck.step_timeout flow) deadline (FlowCheck.steps flow);
              evidence ← match result with
                         | Failed _ _ _ | Budget _ _ => timeout EVIDENCE_BUDGET finish
                         | _ => Ret None
                         end;
              Ret (result, evidence, steps)
          end
      end
  end.

Section Browser.
Context (engine : CdpEngine).
Definition spawn_args (port : Z) (verify_tls : bool) : list string :=
  ["serve"; "--host"; "127.0.0.1"; "--port"; show port]
  ++ (if verify_tls then [] else ["--insecure-disable-tls-host-verification"])
  ++ (if block_private_networks engine then ["--block-private-networks"] else [])
  ++ (let cidrs := str_trim (block_cidrs engine) in if String.eqb cidrs "" then [] else ["--block-cidrs"; cidrs])
  ++ (if 0 <? v8_max_heap_mb engine then ["--v8-max-heap-mb"; show (v8_max_heap_mb engine)] else [])
  ++ (if 0 <? max_response_bytes engine then ["--http-max-response-size"; show (max_response_bytes engine)] else [])
  ++ (let ua := str_trim (user_agent_suffix engine) in if String.eqb ua "" then [] else ["--user-agent-suffix"; ua]).

Definition watched (flow : FlowCheck.t) (deadline port : Z) (pid : option Z) : prog op Attempt :=
  let limit := mem_limit_bytes engine in
  match pid with
  | Some _ =>
      if 0 <? limit then
        r ← within (λ T, @Watched limit T) (drive_browser port flow deadline);
        Ret (default (engine_error ("engine exceeded " +:+ show (limit / (1024 * 1024)) +:+ " MB memory limit")) r)
      else drive_browser port flow deadline
  | None => drive_browser port flow deadline
  end.
Definition startup_miss (a : Attempt) : option string :=
  match a.1.1 with Engine e => strip_prefix STARTUP_FAILED e | _ => None end.
Fixpoint run_once (tries : nat) (flow : FlowCheck.t) (deadline : Z) (last : string) : prog op Attempt :=
  match tries with
  | O => Ret (engine_error ("engine did not start after retries: " +:+ last))
  | S tries =>
      port ← ask FreePort;
      match port with
      | inl e => Ret (engine_error ("no free port: " +:+ e))
      | inr port =>
          child ← ask (Spawn (spawn_args port (FlowCheck.verify_tls flow)));
          match child with
          | inl e => Ret (engine_error ("spawn lightpanda: " +:+ e))
          | inr pid =>
              attempt ← watched flow deadline port pid;
              _ ← ask Kill;
              match startup_miss attempt with
              | Some startup => run_once tries flow deadline startup
              | None => Ret attempt
              end
          end
      end
  end.
Definition run (flow : FlowCheck.t) : prog op (RunResult * option FlowEvidence.t * list StepTrace.t * Z) :=
  acquired ← ask Acquire;
  if negb acquired then Ret (Engine "flow engine shut down", None, [], 0)
  else
    started ← ask Clock;
    attempt ← timeout (FlowCheck.timeout flow + BACKSTOP_GRACE) (run_once 3 flow (started + FlowCheck.timeout flow) "");
    now ← ask Clock;
    let '(result, evidence, steps) :=
      default (engine_error ("engine stopped responding after its " +:+ show (as_millis (FlowCheck.timeout flow)) +:+ " ms budget"))
        attempt in
    Ret (result, evidence, steps, millis (elapsed started now)).
End Browser.

(** ** mod.rs *)
Record FlowProbe := { evidence : option FlowEvidence.t; probe_steps : list StepTrace.t }.
Definition step_line (step total : nat) (op reason : string) : string :=
  "step " +:+ show (Z.of_nat (S step)) +:+ "/" +:+ show (Z.of_nat total) +:+ " " +:+ op +:+ ": " +:+ reason.
Definition reached (steps : list StepTrace.t) : nat :=
  length (List.filter (λ s, negb (bool_decide (StepTrace.outcome s = StepOutcome.Skipped))) steps).
Definition report (total : nat) (run : RunResult) (steps : list StepTrace.t) : CheckStatus.t * option string :=
  match run with
  | Passed => (CheckStatus.Up, None)
  | Failed step op reason => (CheckStatus.Down, Some (step_line step total op reason))
  | Budget step op =>
      (CheckStatus.Error, Some (if (reached steps =? 0)%nat then "run budget spent before the first step ran"
                                else step_line step total op "run budget spent"))
  | Engine e => (CheckStatus.Error, Some e)
  end.
Definition execute_flow_check_probe (target_id org_id : Uuid) (now : DateTime) (flow : FlowCheck.t) (engine : option CdpEngine)
    : prog op (CheckResult.t * FlowProbe) :=
  match engine with
  | None =>
      Ret (CheckResult.error_with_elapsed target_id org_id now 0 "flow engine not configured on this node",
           {| evidence := None; probe_steps := [] |})
  | Some engine =>
      '(result, ev, steps, elapsed) ← run engine flow;
      let '(status, error) := report (length (FlowCheck.steps flow)) result steps in
      Ret ({| CheckResult.target_id := target_id; CheckResult.org_id := org_id; CheckResult.timestamp := now;
              CheckResult.status := status; CheckResult.duration_ms := elapsed; CheckResult.dns_ms := None;
              CheckResult.connect_ms := None; CheckResult.tls_ms := None; CheckResult.ttfb_ms := None;
              CheckResult.response_code := None; CheckResult.response_size := None; CheckResult.diagnostic := None;
              CheckResult.error := error |},
           {| evidence := ev; probe_steps := steps |})
  end.
Definition execute_flow_check (target_id org_id : Uuid) (now : DateTime) (flow : FlowCheck.t) (engine : option CdpEngine)
    : prog op CheckResult.t :=
  '(r, _) ← execute_flow_check_probe target_id org_id now flow engine; Ret r.
End Checks.
