(* ===== verification/FlowFacts.v ===== *)
(** * What a flow run does to the page, and what its verdict rests on

    A run is followed through every dialogue it may have with the browser
    (FlowWorker.v), cut short or not: what it does to the page, when it says that
    the target is down, and that a poll needs no more rounds than it is given. *)

From Stdlib Require Import Ascii.
From S2P Require Import Prelude Text Domain CheckSpec Handlers Connector FlowWorker.

(** ** The record of a dialogue

    [None]: the call was cut off. *)
Inductive event :=
| At (t : option Z)
| Slept (d : option Duration)
| Evaluated (js : string) (r : option (string + JsValue))
| ReadUrl (r : option (string + option string))
| Moved (r : option (string + unit))
| Startup (ok : bool)
| Aside (cut : bool).

Definition ok {A B} (r : option (A + B)) : bool := match r with Some (inr _) => true | _ => false end.
Fixpoint record {T} (o : op T) : option T → event :=
  match o in op T return option T → event with
  | Clock => At
  | Sleep d => λ r, Slept (r ≫= λ _, Some d)
  | Acquire => λ r, Startup (default false r)
  | FreePort => λ r, Startup (ok r)
  | Spawn _ => λ r, Startup (ok r)
  | TryWait => λ r, Startup (match r with Some None => true | _ => false end)
  | BrowserConnect _ => λ r, Startup (ok r)
  | NewPage _ => λ r, Startup (ok r)
  | Goto _ | WaitForNavigation => Moved
  | Evaluate js => Evaluated js
  | PageUrl => ReadUrl
  | Enable _ | Attach | Kill => λ r, Aside (is_none r)
  | TakeConsole => λ r, Aside (is_none r)
  | Cut _ o | CutAt _ o | Watched _ o => λ r, record o (mjoin r)
  end.
Definition event_of (T : Type) (o : op T) (r : T) : event := record o (Some r).
#[local] Abbreviation says := (says event_of).
#[local] Abbreviation post := (post event_of).

(** ** Calls that may be cut off *)
Section Within.
Context (under : ∀ T, op T → op (option T)).
Hypothesis under_record : ∀ T (o : op T) r, event_of _ (under T o) r = record o r.

Definition some_answer {T} (o : op T) : T :=
  match o in op T return T with
  | Clock => 0 | Sleep _ | Enable _ | Attach | Kill => tt | Acquire => false
  | FreePort | Spawn _ | BrowserConnect _ | NewPage _ | Goto _ | WaitForNavigation | Evaluate _ | PageUrl => inl ""
  | TryWait => None | TakeConsole => []
  | Cut _ _ | CutAt _ _ | Watched _ _ => None
  end.
Lemma goes_on {A} (p : prog op A) : ∃ l a, says p l a.
Proof.
  induction p as [a|T o k IH]; [by exists [], a|]. destruct (IH (some_answer o)) as (l & a & Hs).
  by exists (event_of T o (some_answer o) :: l), a, (some_answer o), l.
Qed.

(** What was cut off had said [l] up to a last call [o], and could have gone on. *)
Lemma within_says {A} (p : prog op A) l r : says (within under p) l r →
  (∃ a, r = Some a ∧ says p l a) ∨
  (r = None ∧ ∃ l1 T (o : op T) x l2 a, l = l1 ++ [record o None] ∧ says p (l1 ++ event_of T o x :: l2) a).
Proof.
  revert l. induction p as [a|T o k IH]; intros l; [intros [-> ->]; left; by exists a|].
  intros (x & rest & -> & Hs). rewrite under_record. destruct x as [x|].
  - destruct (IH x _ Hs) as [(a & -> & Ha)|(-> & l1 & T' & o' & x' & l2 & a & -> & Ha)].
    + left. exists a. split; [done|]. by exists x, rest.
    + right. split; [done|]. exists (record o (Some x) :: l1), T', o', x', l2, a. split; [done|].
      by exists x, (l1 ++ event_of T' o' x' :: l2).
  - destruct Hs as [-> ->]. right. split; [done|]. destruct (goes_on (k (some_answer o))) as (l & a & Ha).
    exists [], T, o, (some_answer o), l, a. split; [done|]. by exists (some_answer o), l.
Qed.
End Within.
Lemma cut_record b T (o : op T) r : event_of _ (Cut b o) r = record o r.
Proof. by destruct r. Qed.
Lemma watched_record limit T (o : op T) r : event_of _ (Watched limit o) r = record o r.
Proof. by destruct r. Qed.
Lemma timeout_says {A} b (p : prog op A) l r : says (timeout b p) l r →
  (∃ a, r = Some a ∧ says p l a) ∨
  (r = None ∧ ∃ l1 T (o : op T) x l2 a, l = l1 ++ [record o None] ∧ says p (l1 ++ event_of T o x :: l2) a).
Proof. apply within_says, cut_record. Qed.

Section Facts.
Context `{UrlLibrary} `{FlowText}.

(** ** What a run does to the page *)
Definition is_action (js : string) : bool := String.prefix "(function" js && ends_with "return 'OK';})()" js.
Definition acts (l : list event) : list string :=
  omap (λ e, match e with Evaluated js _ => if is_action js then Some js else None | _ => None end) l.
Definition action (step : FlowStep.t) : option string :=
  match step with
  | FlowStep.Fill selector v => Some (js_fill selector v)
  | FlowStep.Click selector => Some (js_click selector)
  | _ => None
  end.
Definition actions (steps : list FlowStep.t) : list string := omap action steps.

Lemma acts_app l1 l2 : acts (l1 ++ l2) = acts l1 ++ acts l2.
Proof. apply omap_app. Qed.
Lemma acts_of_call {T} (o : op T) r r' : acts [record o r] = acts [record o r'].
Proof. revert r r'. induction o; intros r r'; try done; simpl; apply IHo. Qed.
(** What is cut off has done no more than it would have. *)
Lemma timeout_acts {A} b (p : prog op A) (Q : list string → Prop) : post p (λ l _, Q (acts l)) →
  (∀ l1 l2, Q (l1 ++ l2) → Q l1) → post (timeout b p) (λ l _, Q (acts l)).
Proof.
  intros Hp Hpre l r [(a & _ & Ha)|(_ & l1 & T & o & x & l2 & a & -> & Ha)]%timeout_says; [by apply (Hp l a)|].
  apply Hp in Ha. rewrite acts_app, (acts_of_call o None (Some x)), <-acts_app.
  change (event_of T o x :: l2) with ([event_of T o x] ++ l2) in Ha. rewrite app_assoc, acts_app in Ha. by eapply Hpre.
Qed.

(** *** The scripts that act, and those that only read *)
Lemma string_length_app (x y : string) : String.length (x +:+ y) = (String.length x + String.length y)%nat.
Proof. induction x as [|c x IH]; [done|]. simpl. by rewrite <-IH. Qed.
Lemma ends_with_app s t u : (String.length s ≤ String.length u)%nat → ends_with s (t +:+ u) = ends_with s u.
Proof.
  intros Hlen. induction t as [|a t IH]; [done|].
  change (String.eqb (String a (t +:+ u)) s || ends_with s (t +:+ u) = ends_with s u). rewrite IH.
  destruct (String.eqb_spec (String a (t +:+ u)) s) as [<-|]; [|done]. exfalso. simpl in Hlen.
  rewrite string_length_app in Hlen. lia.
Qed.
Ltac last_words :=
  unfold is_action; rewrite ?andb_true_iff, ?andb_false_iff;
  rewrite !ends_with_app by (rewrite ?string_length_app; simpl; lia).
Lemma js_fill_acts selector v : is_action (js_fill selector v) = true.
Proof. unfold js_fill. last_words. by split. Qed.
Lemma js_click_acts selector : is_action (js_click selector) = true.
Proof. unfold js_click. last_words. by split. Qed.
Lemma js_present_reads selector : is_action (js_present selector) = false.
Proof. done. Qed.
Lemma js_text_reads selector : is_action (js_text selector) = false.
Proof. destruct selector; [|done]. unfold js_text. last_words. by right. Qed.
Lemma ends_with_self q : ends_with q q = true.
Proof. destruct q; [done|]. cbn [ends_with]. by rewrite String.eqb_refl. Qed.
Lemma ends_with_tail p q s : ends_with (p +:+ q) s = true → ends_with q s = true.
Proof.
  revert p. induction s as [|a s IH]; intros p; cbn [ends_with]; rewrite ?orb_false_r, ?orb_true_iff.
  - rewrite !String.eqb_eq. by destruct p.
  - intros [Heq%String.eqb_eq|Hs]; [|right; by apply (IH p)]. destruct p as [|c p]; [by left; apply String.eqb_eq|].
    right. injection Heq as _ ->. by rewrite ends_with_app, ends_with_self.
Qed.
Lemma js_slice_reads expr max : is_action (js_slice expr max) = false.
Proof.
  unfold is_action. rewrite andb_false_iff, <-!not_true_iff_false. right.
  intros Hs%(ends_with_tail "return 'OK" "';})()"). revert Hs. unfold js_slice. by rewrite !ends_with_app by (rewrite ?string_length_app; simpl; lia).
Qed.

(** ** What the page says of a step *)
Definition verdict (step : FlowStep.t) (e : event) : option bool :=
  match step, e with
  | FlowStep.Goto _, Moved None => Some false
  | FlowStep.Goto _, Moved (Some (inr _)) => Some true
  | FlowStep.Fill selector v, Evaluated js (Some (inr x)) =>
      if String.eqb js (js_fill selector v) then (λ s, String.eqb (default "" s) "OK") <$> as_string x else None
  | FlowStep.Click selector, Evaluated js (Some (inr x)) =>
      if String.eqb js (js_click selector) then (λ s, String.eqb (default "" s) "OK") <$> as_string x else None
  | FlowStep.WaitFor selector, Evaluated js (Some (inr x)) =>
      if String.eqb js (js_present selector) then default false <$> as_bool x else None
  | FlowStep.AssertText selector want, Evaluated js (Some (inr x)) =>
      if String.eqb js (js_text selector) then (λ s, contains (default "" s) want) <$> as_string x else None
  | FlowStep.AssertUrl want, ReadUrl (Some (inr u)) => Some (contains (default "" u) want)
  | _, _ => None
  end.
Definition page_call (e : event) : bool := match e with Evaluated _ _ | ReadUrl _ | Moved _ => true | _ => false end.
(** The last word: what the last call made to the page says, [None] when that call
    failed, was cut off, or gave back what does not decode or does not answer. *)
Definition last_verdict (step : FlowStep.t) (l : list event) : option bool :=
  last (List.filter page_call l) ≫= verdict step.

(** What is not the target's doing: a call that fails, is cut off, or gives back what
    does not decode. *)
Definition decodes (js : string) (v : JsValue) : bool :=
  if String.prefix "!!" js then is_some (as_bool v) else is_some (as_string v).
Definition fault (e : event) : bool :=
  match e with
  | At t => is_none t
  | Slept d => is_none d
  | Evaluated js (Some (inr v)) => negb (decodes js v)
  | ReadUrl r => negb (ok r)
  | Moved r => negb (ok r)
  | Startup ok => negb ok
  | Aside cut => cut
  | _ => true
  end.
Definition faulty (l : list event) : Prop := existsb fault l = true.
Lemma faulty_app l1 l2 : faulty (l1 ++ l2) ↔ faulty l1 ∨ faulty l2.
Proof. unfold faulty. by rewrite existsb_app, orb_true_iff. Qed.

(** A clock that sees the pauses pass. *)
Definition slept (l : list event) : Z := foldr (λ e n, match e with Slept (Some d) => Z.max 0 d + n | _ => n end) 0 l.
Definition honest (l : list event) : Prop :=
  ∀ l1 t l2 t' l3, l = l1 ++ At (Some t) :: l2 ++ At (Some t') :: l3 → t + slept l2 ≤ t'.
Lemma honest_app l1 l2 : honest (l1 ++ l2) → honest l1 ∧ honest l2.
Proof.
  intros Hh. split; intros l3 t l4 t' l5 ->.
  - apply (Hh l3 t l4 t' (l5 ++ l2)). by rewrite <-!app_assoc, <-app_comm_cons, <-app_assoc.
  - apply (Hh (l1 ++ l3) t l4 t' l5). by rewrite <-!app_assoc.
Qed.

Lemma slept_nonneg l : 0 ≤ slept l.
Proof. unfold slept. induction l as [|e l IH]; simpl; [lia|]. destruct e as [|[d|]| | | | |]; simpl; lia. Qed.
Lemma slept_app l1 l2 : slept (l1 ++ l2) = slept l1 + slept l2.
Proof. unfold slept. induction l1 as [|e l1 IH]; simpl; [lia|]. destruct e as [|[d|]| | | | |]; simpl; lia. Qed.

(** *** One question, once or twice

    [yes]: what an answer says of the step. *)
Definition transport (e : string) : Prop := String.prefix STARTUP_FAILED e = false.
Definition answers {A} (step : FlowStep.t) (yes : A → bool) (l : list event) (r : StepError + A) : Prop :=
  match r with
  | inr a => last_verdict step l = Some (yes a)
  | inl (FlowFault _) => False
  | inl (EngineFault e) => last_verdict step l = None ∧ faulty l ∧ transport e
  end.
Definition asked {A} (step : FlowStep.t) (yes : A → bool) (check : prog op (StepError + A)) : Prop :=
  post check (λ l r, acts l = [] ∧ answers step yes l r).
Lemma last_verdict_app step l1 l2 : last_verdict step (l1 ++ l2) =
  match last (List.filter page_call l2) with Some e => verdict step e | None => last_verdict step l1 end.
Proof. unfold last_verdict. rewrite lfilter_app, last_app. by destruct (last (List.filter _ l2)). Qed.
Lemma last_word_later step l1 l2 b : last_verdict step l2 = Some b → last_verdict step (l1 ++ l2) = Some b.
Proof. intros Hl. rewrite last_verdict_app. unfold last_verdict in Hl. by destruct (last _). Qed.
Lemma last_word_kept step l1 l2 : List.filter page_call l2 = [] → last_verdict step (l1 ++ l2) = last_verdict step l1.
Proof. intros Hl. by rewrite last_verdict_app, Hl. Qed.
Lemma last_word_none step l1 l2 : last_verdict step l1 = None → last_verdict step l2 = None → last_verdict step (l1 ++ l2) = None.
Proof. intros H1 H2. rewrite last_verdict_app, H1. unfold last_verdict in H2. by destruct (last _). Qed.

Lemma asked_twice {A} step yes (m : prog op (StepError + A)) : asked step yes m → asked step yes (retrying_context_loss m).
Proof.
  intros Hm. apply post_bind. intros l r Hl. destruct (Hm l r Hl) as [Ha Hr].
  assert (Hstop : post (Ret r) (λ l', λ r', acts (l ++ l') = [] ∧ answers step yes (l ++ l') r')).
  { apply post_ret. by rewrite app_nil_r. }
  destruct r as [[reason|e]|a]; [done| |done]. destruct (is_context_loss e); [|done]. apply post_do. intros [].
  apply (post_weaken _ _ _ _ Hm). intros l' r' [Ha' Hr']. rewrite acts_app, Ha. split; [done|].
  change (event_of unit (Sleep POLL_PAUSE) () :: l') with ([event_of unit (Sleep POLL_PAUSE) ()] ++ l').
  destruct Hr as (Hnone & Hfault & _). destruct r' as [[reason|e']|a]; [done| |].
  - destruct Hr' as (Hnone' & _ & Ht). split; [|split; [apply faulty_app; by left|done]].
    apply last_word_none; [done|]. by apply last_word_none; [destruct step|].
  - unfold answers in *. by repeat apply last_word_later.
Qed.
Lemma asked_then {A} step yes (m : prog op (StepError + A)) : asked step yes m →
  asked step id (and_so m (λ a, Ret (inr (yes a)))).
Proof.
  intros Hm. apply post_bind. intros l r Hl. destruct (Hm l r Hl) as [Ha Hr].
  destruct r as [e|a]; apply post_ret; by rewrite app_nil_r.
Qed.
Lemma eval_string_says js : post (eval_string_once js) (λ l r, ∃ x, l = [Evaluated js (Some x)] ∧
  match x, r with
  | inr v, inr s => ∃ t, as_string v = Some t ∧ s = default "" t
  | inr v, inl (EngineFault e) => as_string v = None ∧ transport e
  | inl _, inl (EngineFault e) => transport e
  | _, _ => False
  end).
Proof.
  intros l r (x & rest & -> & -> & ->). exists x. split; [done|]. destruct x as [e|v]; [done|].
  destruct (as_string v) as [t|] eqn:E; [by exists t|done].
Qed.
Lemma eval_bool_says js : post (eval_bool_once js) (λ l r, ∃ x, l = [Evaluated js (Some x)] ∧
  match x, r with
  | inr v, inr b => ∃ t, as_bool v = Some t ∧ b = default false t
  | inr v, inl (EngineFault e) => as_bool v = None ∧ transport e
  | inl _, inl (EngineFault e) => transport e
  | _, _ => False
  end).
Proof.
  intros l r (x & rest & -> & -> & ->). exists x. split; [done|]. destruct x as [e|v]; [done|].
  destruct (as_bool v) as [t|] eqn:E; [by exists t|done].
Qed.

Lemma wait_for_asked selector : asked (FlowStep.WaitFor selector) id (eval_bool (js_present selector)).
Proof.
  apply asked_twice. apply (post_weaken _ _ _ _ (eval_bool_says _)). intros l r (x & -> & Hx).
  unfold acts, answers, last_verdict, faulty. simpl. split; [done|]. rewrite String.eqb_refl.
  destruct x as [e|v], r as [[reason|e']|b]; try done.
  - destruct Hx as [Hx ?]. rewrite Hx. split; [done|]. unfold decodes. simpl. by rewrite Hx.
  - by destruct Hx as (t & -> & ->).
Qed.
Lemma assert_text_asked selector want :
  asked (FlowStep.AssertText selector want) (λ s, contains s want) (eval_string (js_text selector)).
Proof.
  apply asked_twice. apply (post_weaken _ _ _ _ (eval_string_says _)). intros l r (x & -> & Hx).
  assert (Hq : ∀ v, decodes (js_text selector) v = is_some (as_string v)) by by destruct selector.
  unfold acts, answers, last_verdict, faulty. simpl. rewrite js_text_reads. split; [done|]. rewrite String.eqb_refl.
  destruct x as [e|v], r as [[reason|e']|b]; try done; rewrite ?Hq.
  - destruct Hx as [-> ?]. by split.
  - by destruct Hx as (t & -> & ->).
Qed.
Lemma assert_url_asked want : asked (FlowStep.AssertUrl want) id
  (url ← call PageUrl;
   Ret (match url with inl e => inl (EngineFault ("url: " +:+ e)) | inr u => inr (contains (default "" u) want) end)).
Proof. intros l r (x & rest & -> & -> & ->). by destruct x. Qed.

(** *** A poll *)
Fixpoint exhausted (n : nat) (start : Z) (deadline : Duration) (l : list event) : Prop :=
  match n with
  | O => True
  | S n => ∃ l1 now l2, l = l1 ++ At (Some now) :: Slept (Some POLL_PAUSE) :: l2 ∧ elapsed start now < deadline ∧
      exhausted n start deadline l2
  end.
Lemma poll_rounds_post step check fuel start deadline : asked step id check →
  post (poll_rounds fuel start deadline check) (λ l r, acts l = [] ∧
    match r with
    | inr b => last_verdict step l = Some b
    | inl (FlowFault _) => False
    | inl (EngineFault e) => (faulty l ∨ exhausted fuel start deadline l) ∧ transport e
    end).
Proof.
  intros Hc. induction fuel as [|fuel IH]; [by apply post_ret; split; [|split; [right|]]|].
  apply post_bind. intros l r Hl. destruct (Hc l r Hl) as [Ha Hr].
  assert (Hgo : ∀ lost,
    (match lost with Some e => faulty l ∧ transport e | None => last_verdict step l = Some false end) →
    post (now ← call Clock;
      if deadline <=? elapsed start now then
        Ret (match lost with Some e => inl (EngineFault e) | None => inr false end)
      else _ ← call (Sleep POLL_PAUSE); poll_rounds fuel start deadline check)
    (λ l' r', acts (l ++ l') = [] ∧
      match r' with
      | inr b => last_verdict step (l ++ l') = Some b
      | inl (FlowFault _) => False
      | inl (EngineFault e) => (faulty (l ++ l') ∨ exhausted (S fuel) start deadline (l ++ l')) ∧ transport e
      end)).
  { intros lost Hlost. apply post_do. intros now. destruct (_ <=? _) eqn:Hd.
    - apply post_ret. rewrite acts_app, Ha. split; [done|]. destruct lost as [e|].
      + destruct Hlost. split; [left; apply faulty_app; by left|done].
      + by rewrite last_word_kept.
    - apply post_do. intros []. apply (post_weaken _ _ _ _ IH). intros l' r' [Ha' Hr']. rewrite acts_app, Ha. split; [done|].
      change (event_of Z Clock now :: event_of unit (Sleep POLL_PAUSE) () :: l')
        with ([At (Some now); Slept (Some POLL_PAUSE)] ++ l').
      destruct r' as [[reason|e]|b]; [done| |by repeat apply last_word_later].
      destruct Hr' as [[Hf|Hx] Ht]; (split; [|done]); [left; rewrite !faulty_app; auto|]. right. exists l, now, l'. split; [done|]. split; [lia|done]. }
  destruct r as [[reason|e]|[]]; [done| | |].
  - destruct (is_context_loss e); [by apply Hgo, Hr|]. apply post_ret. rewrite app_nil_r. split; [done|]. split; [left|]; apply Hr.
  - apply post_ret. by rewrite app_nil_r.
  - by apply Hgo.
Qed.

Lemma exhausted_late n start deadline m l : exhausted (S n) start deadline l → honest (At (Some start) :: m ++ l) →
  slept m + Z.of_nat n * POLL_PAUSE < deadline.
Proof.
  revert m l. induction n as [|n IH]; intros m l (l1 & now & l2 & -> & Hlt & Hx) Hh.
  - assert (Hnow : start + slept (m ++ l1) ≤ now) by (apply (Hh [] start _ now (Slept (Some POLL_PAUSE) :: l2)); by rewrite <-app_assoc).
    rewrite slept_app in Hnow. pose proof (slept_nonneg l1). unfold elapsed in Hlt. lia.
  - specialize (IH (m ++ l1 ++ [At (Some now); Slept (Some POLL_PAUSE)]) l2 Hx).
    rewrite !slept_app in IH. pose proof (slept_nonneg l1).
    assert (Hp : slept [At (Some now); Slept (Some POLL_PAUSE)] = POLL_PAUSE) by done. rewrite Hp in IH.
    specialize (IH ltac:(by rewrite <-!app_assoc)). lia.
Qed.

(** The rounds suffice: with a clock that sees the pauses pass, a poll ends by itself. *)
Lemma poll_post step check deadline : asked step id check →
  post (poll deadline check) (λ l r, acts l = [] ∧
    match r with
    | inr b => last_verdict step l = Some b
    | inl (FlowFault _) => False
    | inl (EngineFault e) => (honest l → faulty l) ∧ transport e
    end).
Proof.
  intros Hc. apply post_do. intros start. apply (post_weaken _ _ _ _ (poll_rounds_post _ _ (poll_fuel deadline) start deadline Hc)).
  intros l r [Ha Hr]. change (event_of Z Clock start :: l) with ([At (Some start)] ++ l).
  rewrite acts_app, Ha. split; [done|]. destruct r as [[reason|e]|b]; [done| |by apply last_word_later].
  destruct Hr as [Hr Ht]. split; [|done]. intros Hh. rewrite faulty_app. destruct Hr as [?|Hx]; [by right|]. exfalso.
  assert (Hfuel : poll_fuel deadline = S (Z.to_nat (Z.max 0 deadline / POLL_PAUSE + 1))).
  { unfold poll_fuel. pose proof (Z.div_pos (Z.max 0 deadline) POLL_PAUSE ltac:(lia) ltac:(done)). lia. }
  rewrite Hfuel in Hx. apply (exhausted_late _ _ _ [] _ Hx) in Hh.
  pose proof (Z.div_pos (Z.max 0 deadline) POLL_PAUSE ltac:(lia) ltac:(done)).
  pose proof (Z.mul_succ_div_gt (Z.max 0 deadline) POLL_PAUSE ltac:(done)). unfold slept in Hh. simpl in Hh. lia.
Qed.

(** *** A step *)
Definition acts_of (step : FlowStep.t) : list string := match action step with Some js => [js] | None => [] end.
Definition driven (step : FlowStep.t) (l : list event) (r : StepError + unit) : Prop :=
  acts l = acts_of step ∧
  match r with
  | inr _ => last_verdict step l = Some true
  | inl (FlowFault _) => last_verdict step l = Some false
  | inl (EngineFault e) => (honest l → faulty l) ∧ transport e
  end.
Lemma unless_found_driven step why deadline check : action step = None → asked step id check →
  post (unless_found why (poll deadline check)) (driven step).
Proof.
  intros Hact Hc. apply post_bind. apply (post_weaken _ _ _ _ (poll_post _ _ deadline Hc)).
  intros l r [Ha Hr]. unfold driven, acts_of. rewrite Hact.
  destruct r as [[reason|e]|[]]; [done|..]; apply post_ret; rewrite app_nil_r; by split.
Qed.
Lemma eval_action_driven step js why : action step = Some js → is_action js = true → String.prefix "!!" js = false →
  (∀ x, verdict step (Evaluated js (Some (inr x))) = (λ s, String.eqb (default "" s) "OK") <$> as_string x) →
  post (and_so (eval_action js) (λ s, Ret (if String.eqb s "OK" then inr tt else inl (FlowFault why)))) (driven step).
Proof.
  intros Hact Hjs Hread Hv. apply post_bind. apply (post_weaken _ _ _ _ (eval_string_says _)). intros l r (x & -> & Hx).
  unfold driven, acts_of. rewrite Hact.
  assert (Ha : acts [Evaluated js (Some x)] = [js]) by (unfold acts; simpl; by rewrite Hjs).
  destruct x as [e|v], r as [[reason|e']|b]; try done.
  - apply post_ret. rewrite app_nil_r. by split.
  - apply post_ret. rewrite app_nil_r. split; [done|]. destruct Hx as [Hx ?]. split; [|done]. intros _. unfold faulty, fault, decodes. simpl. by rewrite Hread, Hx.
  - destruct Hx as (t & Ht & ->). apply post_ret. rewrite app_nil_r. unfold last_verdict. simpl. rewrite Hv, Ht. simpl.
    by destruct (String.eqb _ _).
Qed.

Lemma drive_post step step_timeout : post (drive step step_timeout) (driven step).
Proof.
  destruct step as [url|selector|selector v|selector|selector want|want]; cbn [drive].
  - apply post_do. intros [[e|[]]|]; [by apply post_ret| |by apply post_ret].
    apply post_do. intros [[e|[]]|]; by apply post_ret.
  - apply eval_action_driven; [done|apply js_click_acts|done|]. intros x. simpl. by rewrite String.eqb_refl.
  - apply eval_action_driven; [done|apply js_fill_acts|done|]. intros x. simpl. by rewrite String.eqb_refl.
  - apply unless_found_driven; [done|]. apply wait_for_asked.
  - apply unless_found_driven; [done|]. apply asked_then, assert_text_asked.
  - apply unless_found_driven; [done|]. apply assert_url_asked.
Qed.

(** *** The list of steps *)
Definition rest_skipped (steps : list FlowStep.t) : list StepOutcome.t := (λ _, StepOutcome.Skipped) <$> steps.
Definition outcomes (trace : list StepTrace.t) : list StepOutcome.t := StepTrace.outcome <$> trace.
Fixpoint ran (deadline : Z) (i : nat) (steps : list FlowStep.t) (l : list event) (res : RunResult) (out : list StepOutcome.t) : Prop :=
  match steps with
  | [] => res = Passed ∧ out = []
  | step :: rest =>
      (∃ l1 l2 out', l = l1 ++ l2 ∧ last_verdict step l1 = Some true ∧ out = StepOutcome.Passed :: out' ∧
         ran deadline (S i) rest l2 res out') ∨
      (∃ e, res = Engine e ∧ transport e ∧ (honest l → faulty l) ∧ out = StepOutcome.Skipped :: rest_skipped rest) ∨
      (∃ t o, res = Budget i (step_op step) ∧ At (Some t) ∈ l ∧ deadline ≤ t ∧ o ≠ StepOutcome.Passed ∧ out = o :: rest_skipped rest) ∨
      (∃ reason, res = Failed i (step_op step) reason ∧ last_verdict step l = Some false ∧
         out = StepOutcome.Failed :: rest_skipped rest)
  end.
Definition done_so_far (steps : list FlowStep.t) (l : list event) (res : RunResult) : Prop :=
  acts l `prefix_of` actions steps ∧ (res = Passed → acts l = actions steps).

Lemma alter_here (f : StepTrace.t → StepTrace.t) (pre l : list StepTrace.t) t :
  alter f (length pre) (pre ++ t :: l) = pre ++ f t :: l.
Proof. induction pre as [|x pre IH]; [done|]. cbn. by f_equal. Qed.
Lemma outcomes_skipped steps : outcomes (skipped <$> steps) = rest_skipped steps.
Proof. unfold outcomes. by rewrite <-list_fmap_compose. Qed.

Lemma run_from_post step_timeout deadline steps pre :
  post (run_from step_timeout deadline (length pre) steps (pre ++ (skipped <$> steps)))
    (λ l r, done_so_far steps l r.1 ∧ ∃ out, outcomes r.2 = outcomes pre ++ out ∧ ran deadline (length pre) steps l r.1 out).
Proof.
  revert pre. induction steps as [|step steps IH]; intros pre.
  { apply post_ret. split; [by split|]. exists []. by rewrite app_nil_r, app_nil_r. }
  change (skipped <$> step :: steps) with (skipped step :: (skipped <$> steps)). cbn [run_from].
  apply post_do. intros now. unfold done_so_far.
  assert (Hskip : outcomes (pre ++ skipped step :: (skipped <$> steps)) =
    outcomes pre ++ StepOutcome.Skipped :: rest_skipped steps).
  { unfold outcomes. rewrite fmap_app, fmap_cons. by rewrite <-outcomes_skipped. }
  destruct (_ =? 0) eqn:Hz.
  { apply post_ret. split; [split; [apply prefix_nil|done]|]. exists (StepOutcome.Skipped :: rest_skipped steps).
    split; [exact Hskip|]. right. right. left. exists now, StepOutcome.Skipped. split_and!; [done|constructor|lia|done|done]. }
  apply post_do. intros started. apply post_bind.
  apply (post_weaken _ _ _ _ (drive_post _ _)). intros l1 r [Ha Hr]. apply post_do. intros ended.
  set (asides := [At (Some now); At (Some started)]).
  assert (Hacts : ∀ l2, acts (At (Some now) :: At (Some started) :: l1 ++ At (Some ended) :: l2) = acts_of step ++ acts l2).
  { intros l2. change (acts (asides ++ l1 ++ [At (Some ended)] ++ l2) = acts_of step ++ acts l2). by rewrite !acts_app, Ha. }
  assert (Hlast : ∀ l2, List.filter page_call l2 = [] →
    last_verdict step (At (Some now) :: At (Some started) :: l1 ++ At (Some ended) :: l2) = last_verdict step l1).
  { intros l2 Hl2. change (last_verdict step (asides ++ l1 ++ [At (Some ended)] ++ l2) = last_verdict step l1).
    rewrite (app_assoc asides), (last_word_kept _ (asides ++ l1)) by done. rewrite last_verdict_app. unfold last_verdict.
    by destruct (last (List.filter page_call l1)). }
  assert (Hsteps : actions (step :: steps) = acts_of step ++ actions steps).
  { unfold actions, acts_of. simpl. by destruct (action step). }
  destruct r as [[reason|e]|[]].
  - (* the page said no *)
    set (trace := alter _ _ _).
    assert (Htrace : outcomes trace = outcomes pre ++ StepOutcome.Failed :: rest_skipped steps).
    { unfold trace. rewrite alter_here. unfold outcomes. rewrite fmap_app, fmap_cons. by rewrite <-outcomes_skipped. }
    destruct (waits step && _).
    + apply post_do. intros late. apply post_ret. rewrite Hacts, Hsteps. cbn [fst snd].
      split; [split; [rewrite app_nil_r; by eexists|by destruct (_ <=? _)]|].
      exists (StepOutcome.Failed :: rest_skipped steps). split; [done|]. destruct (_ <=? _) eqn:Hlate.
      * right. right. left. exists late, StepOutcome.Failed. split_and!; [done| |lia|done|done].
        rewrite !elem_of_cons, elem_of_app, !elem_of_cons. tauto.
      * right. right. right. exists reason. split_and!; [done| |done]. rewrite Hlast; [done|by destruct step].
    + apply post_ret. rewrite Hacts, Hsteps. cbn [fst snd]. split; [split; [rewrite app_nil_r; by eexists|done]|].
      exists (StepOutcome.Failed :: rest_skipped steps). split; [done|].
      right. right. right. exists reason. split_and!; [done| |done]. rewrite Hlast; [done|by destruct step].
  - apply post_ret. rewrite Hacts, Hsteps. cbn [fst snd]. split; [split; [rewrite app_nil_r; by eexists|done]|].
    exists (StepOutcome.Skipped :: rest_skipped steps). split; [exact Hskip|]. destruct Hr as [Hr Ht]. right. left. exists e. split_and!; [done|done| |done].
    change (honest (asides ++ l1 ++ [At (Some ended)]) → faulty (asides ++ l1 ++ [At (Some ended)])).
    intros [_ [Hh _]%honest_app]%honest_app. rewrite !faulty_app. auto.
  - rewrite alter_here. set (marked := mark _ _ _).
    specialize (IH (pre ++ [marked])). rewrite length_app, Nat.add_1_r, <-app_assoc in IH. simpl in IH.
    apply (post_weaken _ _ _ _ IH). intros l2 [res trace] ([Hpre Hpass] & out & Hout & Hran). cbn [fst snd] in *.
    rewrite Hacts, Hsteps. split; [split; [by apply prefix_app|intros Hp; by rewrite Hpass]|].
    exists (StepOutcome.Passed :: out). split.
    + rewrite Hout. unfold outcomes. by rewrite fmap_app, <-app_assoc.
    + left. exists (asides ++ l1 ++ [At (Some ended)]), l2, out. split_and!; [by rewrite <-!app_assoc| |done|done].
      exact (eq_trans (Hlast [] ltac:(by destruct step)) Hr).
Qed.
Lemma run_steps_post step_timeout deadline steps :
  post (run_steps step_timeout deadline steps)
    (λ l r, done_so_far steps l r.1 ∧ ran deadline 0 steps l r.1 (outcomes r.2)).
Proof.
  apply (post_weaken _ _ _ _ (run_from_post step_timeout deadline steps [])).
  intros l r (Hd & out & -> & Hr). by split.
Qed.

(** ** The browser *)
Lemma cut_is_fault {T} (o : op T) : fault (record o None) = true.
Proof. by induction o. Qed.

(** A call that neither acts nor answers a step. *)
Definition quiet (l : list event) : Prop := acts l = [].
Lemma read_text_quiet js : is_action js = false → post (read_text js) (λ l _, quiet l).
Proof. intros Hjs l r (x & rest & -> & -> & _). unfold quiet, acts. simpl. by rewrite Hjs. Qed.
Lemma finish_quiet : post finish (λ l _, quiet l).
Proof.
  apply post_do. intros url. apply post_bind.
  apply (post_weaken _ _ _ _ (read_text_quiet _ (js_slice_reads _ _))). intros l1 t1 H1. apply post_bind.
  apply (post_weaken _ _ _ _ (read_text_quiet _ (js_slice_reads _ _))). intros l2 t2 H2.
  apply post_do. intros console. apply post_ret. unfold quiet in *.
  change (acts ([event_of _ PageUrl url] ++ l1 ++ l2 ++ [event_of _ TakeConsole console]) = []).
  by rewrite !acts_app, H1, H2.
Qed.
Lemma evidence_quiet : post (timeout EVIDENCE_BUDGET finish) (λ l _, quiet l).
Proof. apply (timeout_acts _ _ (λ x, x = [])); [apply finish_quiet|]. by intros ? ? [-> _]%app_nil. Qed.

Lemma connect_with_retry_post tries ws last : post (connect_with_retry tries ws last)
  (λ l r, acts l = [] ∧ match r with inl _ => tries = O ∨ faulty l | inr _ => True end).
Proof.
  revert last. induction tries as [|tries IH]; intros last; [by apply post_ret; split; [|left]|].
  apply post_do. intros [status|]; [by apply post_ret; split; [|right]|].
  apply post_do. intros [e|[]]; [|by apply post_ret]. apply post_do. intros [].
  apply (post_weaken _ _ _ _ (IH e)). intros l r [Ha _]. split; [exact Ha|]. destruct r; [by right|done].
Qed.

(** An attempt that reached the page, or did nothing to it. *)
Definition attempted (deadline : Z) (steps : list FlowStep.t) (l : list event) (a : Attempt) : Prop :=
  (acts l = [] ∧ (∃ e, a = engine_error e) ∧ faulty l) ∨
  (startup_miss a = None ∧ done_so_far steps l a.1.1 ∧
   ∃ l0 l1 l2, l = l0 ++ l1 ++ l2 ∧ ran deadline 0 steps l1 a.1.1 (outcomes a.2)).
Lemma ran_no_startup_miss deadline i steps l res out ev trace : ran deadline i steps l res out →
  startup_miss (res, ev, trace) = None.
Proof.
  revert i l out. induction steps as [|step steps IH]; intros i l out; [by intros [-> _]|].
  intros [(l1 & l2 & out' & _ & _ & _ & Hr)|[(e & -> & Ht & _)|[(t & o & -> & _)|(reason & -> & _)]]]; [by eapply IH| |done|done].
  unfold startup_miss. simpl. unfold strip_prefix. unfold transport in Ht. by rewrite Ht.
Qed.

Lemma drive_browser_post port flow deadline :
  post (drive_browser port flow deadline) (attempted deadline (FlowCheck.steps flow)).
Proof.
  apply post_bind. apply (post_weaken _ _ _ _ (connect_with_retry_post _ _ _)). intros l0 r [Ha Hr].
  destruct r as [e|[]].
  { apply post_ret. rewrite app_nil_r. left. split; [done|]. split; [by eexists|]. by destruct Hr. }
  apply post_do. intros [e|[]].
  { apply post_ret. left. split; [rewrite acts_app, Ha; done|]. split; [by eexists|]. apply faulty_app. by right. }
  apply post_do. intros []. apply post_do. intros []. apply post_do. intros [].
  apply post_do. intros loaded.
  set (opening := [event_of _ (NewPage (url_as_str (FlowCheck.start_url flow))) (inr tt); event_of _ (Enable "Runtime") tt;
    event_of _ (Enable "Network") tt; event_of _ Attach tt; event_of _ (CutAt deadline WaitForNavigation) loaded]).
  assert (Hopen : acts opening = []) by done.
  assert (Hgo : post ('(result, steps) ← run_steps (FlowCheck.step_timeout flow) deadline (FlowCheck.steps flow);
    evidence ← match result with Failed _ _ _ | Budget _ _ => timeout EVIDENCE_BUDGET finish | _ => Ret None end;
    Ret (result, evidence, steps)) (λ l a, attempted deadline (FlowCheck.steps flow) (l0 ++ opening ++ l) a)).
  { apply post_bind. apply (post_weaken _ _ _ _ (run_steps_post _ _ _)). intros l1 [res trace] [[Hpre Hpass] Hran].
    apply post_bind. eapply (post_weaken _ _ (λ l _, quiet l)).
    { destruct res; first [apply evidence_quiet|by apply post_ret]. }
    intros l2 ev Hq. apply post_ret. rewrite app_nil_r. right. split; [by eapply ran_no_startup_miss|]. unfold done_so_far in *. cbn [fst snd] in *.
    rewrite !acts_app, Ha, Hopen, Hq, app_nil_r. split; [done|]. exists (l0 ++ opening), l1, l2. by rewrite <-app_assoc. }
  destruct loaded as [[e|[]]|]; [|exact Hgo|exact Hgo].
  apply post_ret. left. split; [by rewrite acts_app, Ha|]. split; [by eexists|]. apply faulty_app. by right.
Qed.

Section Browser.
Context (engine : CdpEngine) (flow : FlowCheck.t).
#[local] Abbreviation steps := (FlowCheck.steps flow).
Definition within_acts {A} (under : ∀ T, op T → op (option T)) (p : prog op A) : Prop :=
  ∀ l, says (within under p) l None → ∃ l' a, says p l' a ∧ acts l `prefix_of` acts l' ∧ faulty l.
Lemma cut_acts {A} under (p : prog op A) : (∀ T (o : op T) r, event_of _ (under T o) r = record o r) → within_acts under p.
Proof.
  intros Hu l [(a & [=] & _)|(_ & l1 & T & o & x & l2 & a & -> & Hs)]%within_says; [|done].
  exists (l1 ++ event_of T o x :: l2), a. split; [done|]. split; [|apply faulty_app; right; unfold faulty; simpl; by rewrite cut_is_fault].
  rewrite !acts_app. apply prefix_app. change (event_of T o x :: l2) with ([event_of T o x] ++ l2).
  rewrite acts_app, (acts_of_call o None (Some x)). by eexists.
Qed.

(** An attempt, cut short or not; only one that did nothing to the page is made again. *)
Definition unreached (l : list event) (a : Attempt) : Prop :=
  acts l `prefix_of` actions steps ∧ (∃ e, a = engine_error e) ∧ faulty l ∧ (startup_miss a ≠ None → acts l = []).
Definition reached_page (deadline : Z) (l : list event) (a : Attempt) : Prop :=
  done_so_far steps l a.1.1 ∧ ∃ l0 l1 l2, l = l0 ++ l1 ++ l2 ∧ ran deadline 0 steps l1 a.1.1 (outcomes a.2).
Definition tried (deadline : Z) (l : list event) (a : Attempt) : Prop :=
  unreached l a ∨ (startup_miss a = None ∧ reached_page deadline l a).
Lemma attempted_tried deadline l a : attempted deadline steps l a → tried deadline l a.
Proof.
  intros [(Ha & He & Hf)|(Hm & Hd & Hr)]; [left|by right]. unfold unreached. rewrite Ha. by split; [apply prefix_nil|].
Qed.
Lemma attempted_acts deadline l a : attempted deadline steps l a → acts l `prefix_of` actions steps.
Proof. intros [(-> & _)|(_ & [Hpre _] & _)]; [apply prefix_nil|done]. Qed.

Lemma watched_post deadline port pid : post (watched engine flow deadline port pid) (tried deadline).
Proof.
  assert (Hplain : post (drive_browser port flow deadline) (tried deadline)).
  { apply (post_weaken _ _ _ _ (drive_browser_post port flow deadline)). apply attempted_tried. }
  unfold watched. destruct pid as [pid|]; [|done]. destruct (0 <? _); [|done].
  apply post_bind. intros l r Hs. apply post_ret. rewrite app_nil_r. destruct r as [a|].
  - apply (within_says _ (watched_record _)) in Hs as [(a' & [= <-] & Hs)|[[=] _]]. by apply Hplain.
  - apply cut_acts in Hs as (l' & a & Hs%drive_browser_post%attempted_acts & Hpre & Hf); [|apply watched_record].
    left. split; [by etrans|]. split; [by eexists|]. by split.
Qed.

Definition over (deadline : Z) (l : list event) (a : Attempt) : Prop :=
  (acts l `prefix_of` actions steps ∧ (∃ e, a = engine_error e) ∧ faulty l) ∨ reached_page deadline l a.
Lemma reached_within deadline l1 l2 l3 a : acts l1 = [] → acts l3 = [] →
  reached_page deadline l2 a → reached_page deadline (l1 ++ l2 ++ l3) a.
Proof.
  unfold reached_page, done_so_far. rewrite !acts_app. intros -> ->. rewrite app_nil_r.
  intros [Hd (l4 & l5 & l6 & -> & Hr)]. split; [done|]. exists (l1 ++ l4), l5, (l6 ++ l3). by rewrite <-!app_assoc.
Qed.
Lemma over_within deadline l1 l2 l3 a : acts l1 = [] → acts l3 = [] → over deadline l2 a → over deadline (l1 ++ l2 ++ l3) a.
Proof.
  intros H1 H3 [(Hpre & He & Hf)|Hr]; [left|right; by apply reached_within].
  rewrite !acts_app, H1, H3, app_nil_r, !faulty_app. auto.
Qed.
Lemma run_once_post tries deadline last : post (run_once engine tries flow deadline last)
  (λ l a, (tries = O ∧ l = [] ∧ ∃ e, a = engine_error e) ∨ over deadline l a).
Proof.
  revert last. induction tries as [|tries IH]; intros last.
  { apply post_ret. left. split; [done|]. split; [done|]. by eexists. }
  assert (Hstop : ∀ l e, acts l = [] → faulty l → over deadline l (engine_error e)).
  { intros l e Ha Hf. left. rewrite Ha. split; [apply prefix_nil|]. split; [by eexists|done]. }
  apply post_do. intros [e|port]; [apply post_ret; right; by apply Hstop|].
  apply post_do. intros [e|pid]; [apply post_ret; right; by apply Hstop|].
  apply post_bind. apply (post_weaken _ _ _ _ (watched_post deadline port pid)). intros l a Ht. apply post_do. intros [].
  set (start := [event_of _ FreePort (inr port); event_of _ (Spawn (spawn_args engine port (FlowCheck.verify_tls flow))) (inr pid)]).
  set (kill := [event_of _ Kill tt]).
  destruct (startup_miss a) as [startup|] eqn:Hm.
  - destruct Ht as [(_ & _ & Hf & Hq)|[Hno _]]; [|congruence]. specialize (Hq ltac:(congruence)).
    apply (post_weaken _ _ _ _ (IH startup)). intros l' a' Ho. right.
    change (over deadline (start ++ l ++ kill ++ l') a'). rewrite !app_assoc.
    assert (Hq' : acts ((start ++ l) ++ kill) = []) by (by rewrite !acts_app, Hq).
    destruct Ho as [(_ & -> & e & ->)|Ho].
    + rewrite app_nil_r. apply Hstop; [done|]. rewrite !faulty_app. auto.
    + rewrite <-(app_nil_r l'). by apply over_within.
  - apply post_ret. right. change (over deadline (start ++ l ++ kill) a).
    destruct Ht as [(Hpre & He & Hf & _)|(_ & Hr)]; apply over_within; [done|done|by left|done|done|by right].
Qed.

(** The whole run. *)
Definition finished (l : list event) (res : RunResult) (trace : list StepTrace.t) : Prop :=
  acts l `prefix_of` actions steps ∧ (res = Passed → acts l = actions steps) ∧
  ((∃ e, res = Engine e ∧ trace = [] ∧ faulty l) ∨
   ∃ started l0 l1 l2, l = l0 ++ l1 ++ l2 ∧ At (Some started) ∈ l0 ∧
     ran (started + FlowCheck.timeout flow) 0 steps l1 res (outcomes trace)).
Lemma run_post : post (run engine flow) (λ l r, finished l r.1.1.1 r.1.2).
Proof.
  apply post_do. intros []; cbn [negb].
  2: { apply post_ret. split; [apply prefix_nil|]. split; [done|]. left. by eexists. }
  apply post_do. intros started. apply post_bind. intros l attempt Hs. apply post_do. intros ended.
  assert (Hf : over (started + FlowCheck.timeout flow) l (default (engine_error ("engine stopped responding after its "
    +:+ show (as_millis (FlowCheck.timeout flow)) +:+ " ms budget")) attempt)).
  { destruct attempt as [a|].
    - apply timeout_says in Hs as [(a' & [= <-] & Hs)|[[=] _]]. apply run_once_post in Hs as [[[=] _]|Ho]. exact Ho.
    - apply cut_acts in Hs as (l' & a & Hs & Hpre & Hf); [|apply cut_record]. left.
      split; [etrans; [exact Hpre|]|split; [by eexists|done]].
      apply run_once_post in Hs as [[[=] _]|[(Hp & _)|[[Hp _] _]]]; exact Hp. }
  destruct (default _ attempt) as [[res ev] trace]. apply post_ret. cbn [fst snd].
  set (l' := _ :: _). unfold finished.
  assert (Hl : l' = [Startup true; At (Some started)] ++ l ++ [At (Some ended)]) by done. clearbody l'. subst l'.
  assert (Ha : acts ([Startup true; At (Some started)] ++ l ++ [At (Some ended)]) = acts l).
  { rewrite !acts_app. by rewrite app_nil_r. }
  rewrite Ha.
  destruct Hf as [(Hp & (e & [= -> -> ->]) & Hf)|[[Hp Hd] (l0 & l1 & l2 & -> & Hr)]].
  - split; [exact Hp|]. split; [done|]. left. exists e. rewrite !faulty_app. auto.
  - split; [exact Hp|]. split; [exact Hd|]. right.
    exists started, ([Startup true; At (Some started)] ++ l0), l1, (l2 ++ [At (Some ended)]).
    split_and!; [by rewrite <-!app_assoc| |done]. right. constructor.
Qed.
End Browser.

(** ** The theorems *)
Fixpoint granted (steps : list FlowStep.t) (l : list event) : Prop :=
  match steps with
  | [] => True
  | step :: rest => ∃ l1 l2, l = l1 ++ l2 ∧ last_verdict step l1 = Some true ∧ granted rest l2
  end.
Lemma ran_passed deadline i steps l out : ran deadline i steps l Passed out →
  granted steps l ∧ out = replicate (length steps) StepOutcome.Passed.
Proof.
  revert i l out. induction steps as [|step steps IH]; intros i l out; [by intros [_ ->]|].
  intros [(l1 & l2 & out' & -> & Hv & -> & Hr)|[(? & [=] & _)|[(? & ? & [=] & _)|(? & [=] & _)]]].
  apply IH in Hr as [Hg ->]. split; [by exists l1, l2|done].
Qed.
Lemma rest_skipped_replicate steps : rest_skipped steps = replicate (length steps) StepOutcome.Skipped.
Proof. induction steps as [|s steps IH]; [done|]. simpl. by f_equal. Qed.
(** The page granted the first [k] steps and then denied [step]. *)
Definition denied_at (steps : list FlowStep.t) (l : list event) (out : list StepOutcome.t) (k : nat) (step : FlowStep.t) : Prop :=
  steps !! k = Some step ∧ (∃ l1 l2, l = l1 ++ l2 ∧ granted (take k steps) l1 ∧ last_verdict step l2 = Some false) ∧
  out = replicate k StepOutcome.Passed ++ StepOutcome.Failed :: replicate (length steps - S k) StepOutcome.Skipped.
Lemma ran_failed deadline i steps l j op reason out : ran deadline i steps l (Failed j op reason) out →
  ∃ k step, j = (i + k)%nat ∧ op = step_op step ∧ denied_at steps l out k step.
Proof.
  revert i l out. induction steps as [|step steps IH]; intros i l out; [by intros [[=] _]|].
  intros [(l1 & l2 & out' & -> & Hv & -> & Hr)|[(? & [=] & _)|[(? & ? & [=] & _)|(? & [= -> -> ->] & Hv & ->)]]].
  - apply IH in Hr as (k & s & -> & -> & Hs & (l3 & l4 & -> & Hg & Hd) & ->). exists (S k), s.
    split; [lia|]. split; [done|]. split; [done|]. split; [|done]. exists (l1 ++ l3), l4. rewrite app_assoc. split; [done|].
    split; [by exists l1, l3|done].
  - exists O, step. split; [lia|]. split; [done|]. split; [done|]. split; [by exists [], l|].
    simpl. by rewrite rest_skipped_replicate, Nat.sub_0_r.
Qed.
Lemma ran_stopped deadline i steps l res out : ran deadline i steps l res out → honest l →
  match res with Passed | Failed _ _ _ => True | Engine _ => faulty l | Budget _ _ => ∃ t, At (Some t) ∈ l ∧ deadline ≤ t end.
Proof.
  revert i l out. induction steps as [|step steps IH]; intros i l out; [by intros [-> _]|].
  intros [(l1 & l2 & out' & -> & _ & _ & Hr)|[(? & -> & _ & Hf & _)|[(t & ? & -> & Ht & Hd & _)|(? & -> & _)]]] Hh;
    [|by apply Hf|by exists t|done].
  apply IH in Hr; [|by apply honest_app in Hh as [_ ?]]. destruct res; [done|done| |apply faulty_app; by right].
  destruct Hr as (t & Ht & Hd). exists t. split; [apply elem_of_app; by right|done].
Qed.

Section Theorems.
Context (target_id org_id : Uuid) (now : DateTime) (flow : FlowCheck.t) (engine : option CdpEngine).
#[local] Abbreviation execute := (execute_flow_check_probe target_id org_id now flow engine).
#[local] Abbreviation steps := (FlowCheck.steps flow).
#[local] Abbreviation total := (length (FlowCheck.steps flow)).

(** What a run leaves: nothing without an engine, and else its report. *)
Lemma execute_post : post execute (λ l a,
  (engine = None ∧ l = [] ∧ CheckResult.status a.1 = CheckStatus.Error ∧ is_some (CheckResult.error a.1) = true) ∨
  ∃ res, finished flow l res (probe_steps a.2) ∧
    (CheckResult.status a.1, CheckResult.error a.1) = report total res (probe_steps a.2)).
Proof.
  unfold execute_flow_check_probe. destruct engine as [e|]; [|by apply post_ret; left].
  apply post_bind. apply (post_weaken _ _ _ _ (run_post e flow)). intros l [[[res ev] trace] took] Hf. cbn [fst snd] in Hf.
  destruct (report _ _ _) as [status error] eqn:Hr. apply post_ret. rewrite app_nil_r. right. exists res. split; [done|]. exact (eq_sym Hr).
Qed.

(** C15: a run does to the page what the steps say, once and in order. Whatever the browser
    answers, however often it has to be started again and wherever a timeout or the
    memory limit cuts the run short: the scripts that fill and click, those cut off
    included, are a beginning of the steps' own, and a run that is up has done all of
    them. *)
Theorem flow_acts_once l r p : says execute l (r, p) →
  acts l `prefix_of` actions steps ∧ (CheckResult.status r = CheckStatus.Up → acts l = actions steps).
Proof.
  intros [(_ & -> & Hs & _)|(res & (Hpre & Hpass & _) & Hr)]%execute_post; cbn [fst snd] in *.
  - split; [apply prefix_nil|]. by rewrite Hs.
  - split; [done|]. intros Hup. apply Hpass. rewrite Hup in Hr. by destruct res.
Qed.

End Theorems.
End Facts.

(** Whether the readings after one at [t] allow for the pauses since. *)
Fixpoint allows (t : Z) (l : list event) : bool :=
  match l with
  | [] => true
  | At (Some t') :: l => (t <=? t') && allows t l
  | Slept (Some d) :: l => allows (t + Z.max 0 d) l
  | _ :: l => allows t l
  end.
Fixpoint honestb (l : list event) : bool :=
  match l with
  | [] => true
  | At (Some t) :: l => allows t l && honestb l
  | _ :: l => honestb l
  end.
Lemma allows_later t l1 t' l2 : allows t (l1 ++ At (Some t') :: l2) = true → t + slept l1 ≤ t'.
Proof.
  revert t. induction l1 as [|e l1 IH]; intros t.
  { simpl. unfold slept. simpl. intros [? _]%andb_prop. lia. }
  change (e :: l1) with ([e] ++ l1). rewrite slept_app.
  destruct e as [[u|]|[d|]| | | | |]; simpl; intros Ha; try (apply IH in Ha; unfold slept in *; simpl; lia).
  apply andb_prop in Ha as [_ Ha]. apply IH in Ha. unfold slept in *. simpl. lia.
Qed.
Lemma honestb_honest l : honestb l = true → honest l.
Proof.
  intros Hb l1 t l2 t' l3 ->. induction l1 as [|e l1 IH].
  - simpl in Hb. apply andb_prop in Hb as [Hb _]. by eapply allows_later.
  - apply IH. destruct e as [[u|]| | | | | |]; try exact Hb. by apply andb_prop in Hb as [_ Hb].
Qed.

(** ** A login *)
Module FlowSample.
#[local] Instance urls : UrlLibrary := {|
  Url := string; Url_eq_dec := String.eq_dec; url_parse s := Some s; url_as_str u := u; host_str _ := None;
  port_or_known_default _ := None |}.
#[local] Instance flow_text : FlowText := {| json_string := quoted; debug_str := quoted; decode_error _ := "type" |}.
Definition login : FlowCheck.t := {|
  FlowCheck.start_url := "https://a.test/login"; FlowCheck.steps := [FlowStep.Fill "#password" "pw"; FlowStep.Click "#go"; FlowStep.AssertText None "Welcome"];
  FlowCheck.timeout := seconds 20; FlowCheck.step_timeout := seconds 5; FlowCheck.verify_tls := true |}.
Definition lightpanda : CdpEngine := {|
  mem_limit_bytes := 1; block_private_networks := true; block_cidrs := ""; v8_max_heap_mb := 0; max_response_bytes := 0;
  user_agent_suffix := "" |}.

(** The browser answers at once; after the login the page says [greeting]. *)
Fixpoint browser (greeting : string) (n : nat) (T : Type) (o : op T) : T :=
  match o in op T return T with
  | Clock => Z.of_nat n * 50 * MILLI
  | Sleep _ | Enable _ | Attach | Kill => tt
  | Acquire => true
  | FreePort => inr 9222
  | Spawn _ => inr (Some 7)
  | TryWait => None
  | BrowserConnect _ | NewPage _ | Goto _ | WaitForNavigation => inr tt
  | Evaluate js => inr (JsString (if is_action js then "OK" else greeting))
  | PageUrl => inr (Some "https://a.test/home")
  | TakeConsole => []
  | Cut _ o | CutAt _ o | Watched _ o => Some (browser greeting n _ o)
  end.
Definition logged_in := dialogue event_of (browser "Welcome") 0 (execute_flow_check_probe 1%N 2%N 0 login (Some lightpanda)).
Lemma logged_in_says : says (execute_flow_check_probe 1%N 2%N 0 login (Some lightpanda)) logged_in.1 (logged_in.2.1, logged_in.2.2).
Proof.
  pose proof (dialogue_says event_of (browser "Welcome") 0 (execute_flow_check_probe 1%N 2%N 0 login (Some lightpanda))) as Hs.
  fold logged_in in Hs. by destruct logged_in.2.
Qed.
Lemma flow_acts_once_witness : acts logged_in.1 = [js_fill "#password" "pw"; js_click "#go"].
Proof.
  destruct (flow_acts_once 1%N 2%N 0 login (Some lightpanda) _ _ _ logged_in_says) as [_ H].
  assert (E : CheckResult.status logged_in.2.1 = CheckStatus.Up) by (vm_compute; reflexivity). exact (H E).
Defined.

(** The page keeps saying something else: the third step is denied. *)
Definition refused := dialogue event_of (browser "Wrong password") 0 (execute_flow_check_probe 1%N 2%N 0 login (Some lightpanda)).
Lemma refused_says : says (execute_flow_check_probe 1%N 2%N 0 login (Some lightpanda)) refused.1 (refused.2.1, refused.2.2).
Proof.
  pose proof (dialogue_says event_of (browser "Wrong password") 0 (execute_flow_check_probe 1%N 2%N 0 login (Some lightpanda))) as Hs.
  fold refused in Hs. by destruct refused.2.
Qed.
Lemma refused_honest : honest refused.1.
Proof. apply honestb_honest. vm_compute. reflexivity. Qed.
Lemma refused_is_down : CheckResult.status refused.2.1 = CheckStatus.Down.
Proof. vm_compute. reflexivity. Qed.
(** Which step, and in which words. *)
Example refused_error : CheckResult.error refused.2.1 = Some ("step 3/3 assert_text: text not found: " +:+ quoted "Welcome") ∧
  outcomes (probe_steps refused.2.2) = [StepOutcome.Passed; StepOutcome.Passed; StepOutcome.Failed].
Proof. vm_compute. split; reflexivity. Qed.
(** A browser that never starts is tried three times and never makes the target down. *)
Definition dead (n : nat) (T : Type) (o : op T) : T :=
  (fix dead T (o : op T) : T :=
     match o in op T return T → T with
     | TryWait => λ _, Some "exit status: 1"
     | Cut _ o | CutAt _ o | Watched _ o => λ _, Some (dead _ o)
     | _ => id
     end (browser "Welcome" n T o)) T o.
Example dead_browser : let r := (dialogue event_of dead 0 (execute_flow_check_probe 1%N 2%N 0 login (Some lightpanda))).2.1 in
  CheckResult.status r = CheckStatus.Error ∧
  CheckResult.error r = Some "engine did not start after retries: lightpanda exited on startup (exit status: 1)".
Proof. vm_compute. split; reflexivity. Qed.
End FlowSample.
